(* ===== verification/_CoqProject ===== *)
-Q . S2P
Prelude.v
Riscv.v
Mem.v
Csr.v
Sync.v
Spinlock.v
Kalloc.v
Vm.v
VmPt.v
VmMap.v
VmUser.v
VmFree.v
VmCopy.v
VmProps.v
Pipe.v
PipeProps.v
Proc.v
SleepWake.v
ProcProps.v
Syscall.v
Trap.v
TrapProps.v
Asm.v
AsmProps.v
Digits.v
Uart.v
Kprintf.v
Console.v
ConsoleProps.v
Sleeplock.v
Bio.v
BioSpec.v
BioList.v
BioAbs.v
BioProps.v
Virtio.v
VirtioInv.v
VirtioDev.v
VirtioProps.v
DiskFmt.v
Log.v
LogSpec.v
LogCrash.v
LogOps.v
LogProps.v
Blocks.v
LogBlocks.v
Fs.v
FsBlk.v
FsBmap.v
FsWrite.v
FsLock.v
FsDemo.v
FsProps.v
File.v
SysFile.v
Exec.v
FileWrite.v
FileProps.v
FileTable.v
Ulib.v
Uprintf.v
Umalloc.v
UmallocHeap.v
UmallocProps.v
Grep.v
Uproc.v
Unet.v
Primes.v
PrimesStep.v
PrimesProps.v
Pingpong.v
Xargs.v
Wc.v
Utools.v
Find.v
Sh.v
ShParse.v
ShProps.v
ShRun.v
