(* ===== verification/Prelude.v ===== *)
(** * A verification of the xv6 kernel and of its user programs

    The program is xv6 for RISC-V: a kernel in C (src/kernel) and the user
    programs it runs (src/user).  This library translates its parts into
    functions, state machines and step relations and proves what makes each part
    correct.

    ** The parts of the program, and the files that model them

    Base
    - [Prelude]: fixed-width integers, and the monad [M S A] in which stateful
      code is written.  A computation returns ([Ret]), panics ([Panic], the
      kernel's [panic] or an access through a null pointer), goes to sleep
      ([Sleep], with its channel, the state it leaves to others and what it does
      once it is woken in a state that others have changed) or exceeds the number
      of iterations it is modelled with ([NoFuel]).  [Lens] and [zoom] run the
      code of a component inside a larger state.
    - [Riscv]: param.h, memlayout.h, and the macros of riscv.h on pages,
      page-table entries and interrupts.
    - [Mem]: byte-addressed memory and string.c.

    Locks and memory
    - [Sync]: the interface of locking that the other components use: the set of
      locks a thread holds, [acquire], [release], [sleep], [wakeup].
    - [Spinlock]: spinlock.c as steps of several CPUs that interleave.
    - [Sleeplock]: sleeplock.c.
    - [Kalloc]: kalloc.c, the free list threaded through the free pages.
    - [Vm]: vm.c, page tables in physical memory.  [VmPt], [VmMap], [VmUser],
      [VmFree] and [VmCopy] relate them to finite maps from virtual addresses to
      entries; [VmProps] has the theorems.

    Processes and devices
    - [Proc]: proc.c: the process table, [allocproc], [fork], [exit], [wait],
      [sched], [sleep], [wakeup], [kill], [scheduler].  The class [Files] is what
      it uses of the file system.
    - [SleepWake]: [sleep], [wakeup], [yield], [kill] and [scheduler] as steps of
      several CPUs that interleave, with the interrupt state of each CPU and the
      checks of [acquire], [release] and [sched].  [ProcProps]: theorems on [Proc].
    - [Pipe], [PipeProps]: pipe.c.
    - [Digits], [Uart], [Kprintf], [Console], [ConsoleProps]: uart.c, printf.c and
      console.c on a model of the device.

    The file system
    - [Bio]: bio.c, the buffers on their list.  [BioSpec], [BioList] and [BioAbs]
      show that it is a block store; [BioProps] has the theorems.
    - [Virtio]: virtio_disk.c, the queue shared with the device, and threads,
      interrupt handler and device together; [VirtioInv], [VirtioDev] and
      [VirtioProps] show that they transfer blocks as [Bio] takes for granted: in
      one step.
    - [DiskFmt], [Log]: log.c over the buffer cache.  [LogSpec] and
      [LogCrash] describe commit and recovery as sequences of disk writes;
      [LogOps] and [LogProps] have the theorems.
    - [Blocks]: the interface between log and file system: the operations [Blocks]
      and their laws [BlocksOk] about a transaction.  [LogBlocks] shows that log.c
      over bio.c has these laws.
    - [Fs]: fs.c over [Blocks].  [FsBlk] has the invariant of the disk and proves
      [balloc]; [FsBmap], [FsWrite] and [FsLock] prove [bmap], [readi], [writei] and
      [ilock]; [FsDemo] is a small disk, [FsProps] has the
      theorems.
    - [File]: file.c and [pipealloc], over the file system, the pipes, the console
      and the running process.  [FileWrite] and [FileProps]: writing a file.
    - [SysFile], [Exec]: sysfile.c and exec.c.  [FileTable]: what every file system
      call keeps of the open file table and the descriptors.

    System calls, traps and booting
    - [Syscall]: syscall.c.  [Trap]: trap.c, sysproc.c and the part of plic.c that
      changes state; [TrapProps] has the theorems on the two.  [Csr]: the register
      accessors of riscv.h, and start.c.
    - [Asm]: trampoline.S, swtch.S, kernelvec.S and entry.S, on a model of a hart with
      registers, page-table translation and traps.  [AsmProps]: the assembly together
      with the C code of [Trap], [Csr] and the page tables of [Vm].

    User programs
    - [Ulib], [Uprintf]: ulib.c and printf.c of src/user.
    - [Umalloc]: umalloc.c on the memory of a process, and the free list in memory;
      [UmallocHeap] the invariant, [UmallocProps] the theorems.
    - [Grep]: grep.c.
    - [Uproc]: processes as trees of system calls.  [Sh], [ShParse], [ShProps]: the
      parser of sh.c; [ShRun]: running commands.
    - [Unet]: processes of [Uproc] that run side by side, with their descriptors,
      pipes and children.  A call is one step; [fork] finds room for a child, a write
      to a pipe that does not fit and a read from the console are outside the model,
      and the theorems show that they do not happen.  [Primes]: primes.c, and
      where its processes can be; [PrimesStep]: every step keeps that; [PrimesProps]
      has the theorem.  [Pingpong]: pingpong.c.
    - [Xargs]: xargs.c.  [Find]: find.c.  [Wc]: cat.c and wc.c.  [Utools]: echo, kill, ln, mkdir, rm, sleep, zombie and init.

    ** What the theorems show

    - Locks exclude each other, and the multiprocessor code implements the
      interface [Sync]; [push_off] and [pop_off] nest.
    - The allocator never hands out a page twice and boot frees every page.
    - Page tables: [mappages], [uvmunmap], [uvmalloc], [uvmcopy] and [uvmfree]
      do to the finite map what they should, or fail and leave no trace; no page
      leaks; the copies to and from user memory are exact.
    - Processes: no wakeup is lost and no check fails under any interleaving of
      [sleep] with a lock of its own, [wakeup], [yield] and [kill]; a pass of the
      scheduler runs exactly the processes that are RUNNABLE when it comes to them;
      [sleep], with any lock, implements [Sync].
    - Pipes deliver every byte once and in order, and a writer puts exactly the
      bytes of its buffer there.
    - The console sends output in order, and edits input a line at a time.
    - The disk driver and the device, however they interleave, transfer each
      block exactly once between call and return.
    - The buffer cache behaves as one copy of every block; a transaction reaches
      the disk completely or not at all wherever the machine stops, during
      recovery too.
    - System calls: a process that is found killed does not return to user mode; from an [ecall] the
      hart gets to the function of the call and back after the [ecall], through
      assembly and C code, with the result in a0 and all other registers unchanged;
      [sleep] waits at least as many ticks as it is given, modulo 2^32; every descriptor refers to an
      open file whose reference count covers it, when a call returns and whenever it
      sleeps, as long as the calls of sysproc.c leave the table alone.
    - Contexts and interrupts: [swtch] resumes a context as it was saved; an interrupt
      of the kernel, whatever the handler does, leaves all registers but tp as they
      were; each timer interrupt sets the time of the next one.
    - Files: [readi] reads back what [writei] wrote, in direct and indirect blocks;
      [write] stores the bytes at the file's offset, and a crash at any disk write
      leaves the file with a prefix of whole chunks.
    - [malloc] and [free]: blocks never overlap, free blocks are joined, the
      program's data stays, and memory is asked for only when none fits.
    - The shell parser terminates on every line, reads back every command that is
      written, and the programs started get the descriptors the line asks for;
      [grep] prints exactly the lines that match, up to the first NUL of its input;
      printed numbers read back.
    - The sieve of primes.c, under every schedule, ends and prints the primes below
      36; [find] prints the files of a name in a tree of at most 13 levels; [wc]
      counts lines, words and bytes.
    - Theorems of kind error show mistakes: recovery loses buffers
      ([recovery_wraps_refcnt]), [consolewrite] panics on a full buffer
      ([consolewrite_full_panics]), [allocproc] leaves a pid behind
      ([failed_alloc_leaves_pid]), [writei] hides a bad address
      ([writei_hides_fault]), [xargs] passes on other words than it reads
      ([xargs_garbles]), and pingpong.c prints what follows its buffer
      ([pingpong_correct]).

    ** Bounds

    Loops over a range or a table have the number of iterations the code gives
    them.  [freewalk] recurses to depth 3, the number of page-table levels;
    [uartstart] sends at most the 32 characters of the buffer; the shell parser
    has as much fuel as the line has characters, shown to be enough; [readi] and
    [writei] go over [n / BSIZE + 3] blocks ([rw_fuel]), path names over at most
    128 elements, the length of the buffer they are copied to.  The loops of
    [malloc] and [free] have fuel for two rounds of a list with one block in every
    16 bytes, also shown to be enough.  The loops and the recursion of primes.c have
    one turn more than there are numbers; [cat] and [wc] one more than there are
    bytes, [find] as many levels as the tree; the theorems show that it suffices.
    A loop that waits ([acquiresleep], [pipewrite], [consoleread], [virtio_disk_rw], ...) may be
    woken up [max_wakeups] times, an arbitrary number; statements about it hold for
    every such number, and also say what holds while it sleeps.  The loop of
    [scheduler] never ends in the code; its model takes the number of rounds.
    The theorems on writing a file ask for a disk of at most 17 bitmap blocks and
    for enough free blocks (eight for each chunk), so that [balloc] does not panic.

    ** What is not modelled

    mkfs.c runs on the host and not in the system.  ls.c walks a directory as find.c
    does and prints what [stat] says.  usertests.c, grind.c, stressfs.c and
    forktest.c test the system.  What a user program writes past the end of an array
    is not modelled as changing its other variables; the run of [find] ends there.
    [SleepWake] has one condition, its lock and its channel: [wait], which sleeps
    with the lock of the process, and [exit] are in [Proc] only, where [noff] is the
    number of locks held.  The programs that the shell starts are listed in the order
    of its forks; [launch] does not see it wait between them.  main.c is a list of calls, and
    initcode.S two system calls.  The hart of [Asm] does not set the accessed and
    dirty bits of page-table entries, and executes the assembly only: C code runs as
    the functions of the other files.  ramdisk.c is not built.  The fences of spinlock.c and virtio_disk.c are taken to
    give the memory order they ask for.  A control register is a value of its own:
    [sie] and [sip] are not views of [mie] and [mip].  The locks of the block layer
    and those of the rest of the kernel are two sets, so the order in which a
    thread takes one of each is not checked. *)

From Stdlib Require Export ZArith Lia.
From stdpp Require Export base tactics numbers gmap sets strings fin_maps functions list.

#[global] Open Scope Z_scope.

(** ** Fixed-width integers

    The C integer types of [kernel/types.h] are kept as [Z]; a conversion to a
    narrower or unsigned type is one of the functions below. *)

Definition u8 (x : Z) : Z := x mod 2 ^ 8.
Definition u16 (x : Z) : Z := x mod 2 ^ 16.
Definition u32 (x : Z) : Z := x mod 2 ^ 32.
Definition u64 (x : Z) : Z := x mod 2 ^ 64.

(** Conversion to a signed type of width [w] (two's complement). *)
Definition signed (w x : Z) : Z :=
  let y := x mod 2 ^ w in if y <? 2 ^ (w - 1) then y else y - 2 ^ w.
Definition s16 (x : Z) : Z := signed 16 x.
Definition s32 (x : Z) : Z := signed 32 x.

Lemma u64_small x : 0 <= x < 2 ^ 64 -> u64 x = x.
Proof. intros. unfold u64. by apply Z.mod_small. Qed.

Lemma u32_small x : 0 <= x < 2 ^ 32 -> u32 x = x.
Proof. intros. unfold u32. by apply Z.mod_small. Qed.

Lemma u8_small x : 0 <= x < 2 ^ 8 -> u8 x = x.
Proof. intros. unfold u8. by apply Z.mod_small. Qed.

Lemma u8_range x : 0 <= u8 x < 256.
Proof. unfold u8. change 256 with (2 ^ 8). apply Z.mod_pos_bound. lia. Qed.

Lemma u8_idem x : u8 (u8 x) = u8 x.
Proof. apply u8_small. pose proof (u8_range x). lia. Qed.

Lemma u32_range x : 0 <= u32 x < 2 ^ 32.
Proof. apply Z.mod_pos_bound. lia. Qed.

Lemma u64_range x : 0 <= u64 x < 2 ^ 64.
Proof. apply Z.mod_pos_bound. lia. Qed.

Lemma s32_small x : - 2 ^ 31 <= x < 2 ^ 31 -> s32 x = x.
Proof.
  intros. unfold s32, signed. change (32 - 1) with 31.
  destruct (decide (0 <= x)).
  - rewrite Z.mod_small by lia. destruct (Z.ltb_spec x (2 ^ 31)); lia.
  - replace (x mod 2 ^ 32) with (x + 2 ^ 32).
    + destruct (Z.ltb_spec (x + 2 ^ 32) (2 ^ 31)); lia.
    + apply Z.mod_unique with (-1); lia.
Qed.

Lemma s32_u32 x : - 2 ^ 31 <= x < 2 ^ 31 -> s32 (u32 x) = x.
Proof. intros H. unfold s32, u32, signed. rewrite Z.mod_mod by lia. by apply s32_small. Qed.

(** ** Outcomes and the kernel monad

    A piece of kernel code run by one thread from a state of type [S] ends in
    one of four ways: it returns; it panics ([panic] in kernel/printf.c never
    returns); it goes to sleep on a channel, leaving the shared state as it is
    at that moment and a continuation that runs when it is woken up; or, for
    a loop run with a bound, the bound is used up. *)

(** Sleep channels: the addresses passed to [sleep] and [wakeup]. *)
Inductive chan : Type :=
| ChanPipeRead (pi : Z)      (* &pi->nread *)
| ChanPipeWrite (pi : Z)     (* &pi->nwrite *)
| ChanLog                    (* &log *)
| ChanTicks                  (* &ticks *)
| ChanProc (i : nat)         (* &proc[i] *)
| ChanBufLock (i : nat)      (* &bcache.buf[i].lock *)
| ChanInodeLock (i : nat)    (* &icache.inode[i].lock *)
| ChanBuf (i : nat)          (* &bcache.buf[i], the disk driver *)
| ChanDiskFree               (* &disk.free[0] *)
| ChanCons                   (* &cons.r *)
| ChanUartTx                 (* &uart_tx_r *)
| ChanNone.                  (* not asleep: the process has only given up the CPU *)

#[global] Instance chan_eq_dec : EqDecision chan.
Proof. solve_decision. Defined.

Inductive outcome (S A : Type) : Type :=
| Ret (a : A) (s : S)
| Panic (msg : string)
| Sleep (c : chan) (s : S) (k : S -> outcome S A)
| NoFuel.
Arguments Ret {S A} a s.
Arguments Panic {S A} msg.
Arguments Sleep {S A} c s k.
Arguments NoFuel {S A}.

Definition M (S A : Type) : Type := S -> outcome S A.

Fixpoint bind_out {S A B} (o : outcome S A) (f : A -> M S B) : outcome S B :=
  match o with
  | Ret a s => f a s
  | Panic msg => Panic msg
  | Sleep c s k => Sleep c s (fun s' => bind_out (k s') f)
  | NoFuel => NoFuel
  end.

Definition mret_ {S A} (a : A) : M S A := fun s => Ret a s.
Definition mbind_ {S A B} (m : M S A) (f : A -> M S B) : M S B :=
  fun s => bind_out (m s) f.
Definition panic {S A} (msg : string) : M S A := fun _ => Panic msg.
Definition gets {S A} (f : S -> A) : M S A := fun s => Ret (f s) s.
Definition modify {S} (f : S -> S) : M S unit := fun s => Ret tt (f s).
Definition nofuel {S A} : M S A := fun _ => NoFuel.

(** The characters of a string constant. *)
Definition chars (s : string) : list Z :=
  map (fun c => Z.of_N (Ascii.N_of_ascii c)) (String.list_ascii_of_string s).

Declare Scope kernel_scope.
Delimit Scope kernel_scope with kernel.
Notation "'let!' x := m 'in' k" := (mbind_ m (fun x => k))
  (at level 10, x name, m at level 100, k at level 200) : kernel_scope.
Notation "'let!' ' p := m 'in' k" := (mbind_ m (fun x => match x with p => k end))
  (at level 10, p pattern, m at level 100, k at level 200) : kernel_scope.
Notation "m ;; k" := (mbind_ m (fun _ => k))
  (at level 100, k at level 200, right associativity) : kernel_scope.
#[global] Open Scope kernel_scope.

Lemma bind_ret {S A B} (m : M S A) (f : A -> M S B) s a s' :
  m s = Ret a s' -> mbind_ m f s = f a s'.
Proof. intros H. unfold mbind_. by rewrite H. Qed.

Lemma bind_panic {S A B} (m : M S A) (f : A -> M S B) s msg :
  m s = Panic msg -> mbind_ m f s = Panic msg.
Proof. intros H. unfold mbind_. by rewrite H. Qed.

Lemma bind_sleep {S A B} (m : M S A) (f : A -> M S B) s c s' k :
  m s = Sleep c s' k -> mbind_ m f s = Sleep c s' (fun x => bind_out (k x) f).
Proof. intros H. unfold mbind_. by rewrite H. Qed.

(** A sequence that returned went through its first half: the shape every
    partial-correctness argument starts from. *)
Lemma bind_ret_inv {S A B} (m : M S A) (f : A -> M S B) s b s'' :
  mbind_ m f s = Ret b s'' ->
  exists a s', m s = Ret a s' /\ f a s' = Ret b s''.
Proof. unfold mbind_. destruct (m s); simpl; naive_solver. Qed.

(** Two statements that return, before a third. *)
Lemma seq_ret {S A B C} (m1 : M S A) (m2 : M S B) (k : M S C) s b t :
  (m1 ;; m2) s = Ret b t -> (m1 ;; m2 ;; k) s = k t.
Proof.
  intros (a & s1 & E1 & E2)%bind_ret_inv. rewrite (bind_ret _ _ _ _ _ E1). by rewrite (bind_ret _ _ _ _ _ E2).
Qed.

(** Run the first statement of a sequence that returns by computation. *)
Ltac mstep := erewrite bind_ret; [|reflexivity].

(** ** Sub-states

    Each component keeps its own state record; a component that calls another
    one holds the other's record in its own and runs the callee on that part. *)
Class Lens (T S : Type) := {
  lget : T -> S;
  lput : S -> T -> T;
  lget_lput : forall x t, lget (lput x t) = x;
  lput_lget : forall t, lput (lget t) t = t;
  lput_lput : forall x y t, lput x (lput y t) = lput x t;
}.

(** A part of a part. *)
Definition lens_comp {T S R} (L1 : Lens T S) (L2 : Lens S R) : Lens T R.
Proof.
  refine {| lget := fun t => lget (Lens := L2) (lget (Lens := L1) t);
            lput := fun x t => lput (Lens := L1) (lput (Lens := L2) x (lget (Lens := L1) t)) t |}; intros.
  - by rewrite !lget_lput.
  - by rewrite !lput_lget.
  - by rewrite lget_lput, !lput_lput.
Defined.

(** The laws of a lens given by a record's projection and field update. *)
Ltac lens_laws T :=
  intros; repeat match goal with t : T |- _ => destruct t end; reflexivity.

Fixpoint zoom_out {T S A} `{Lens T S} (o : outcome S A) (t : T) : outcome T A :=
  match o with
  | Ret a s => Ret a (lput s t)
  | Panic msg => Panic msg
  | Sleep c s k => Sleep c (lput s t) (fun t' => zoom_out (k (lget t')) t')
  | NoFuel => NoFuel
  end.

Definition zoom {T S A} `{Lens T S} (m : M S A) : M T A :=
  fun t => zoom_out (m (lget t)) t.

Lemma zoom_ret {T S A} `{Lens T S} (m : M S A) t a s :
  m (lget t) = Ret a s -> zoom m t = Ret a (lput s t).
Proof. intros Hm. unfold zoom. by rewrite Hm. Qed.

Lemma zoom_panic {T S A} `{Lens T S} (m : M S A) t msg :
  m (lget t) = Panic msg -> zoom m t = Panic msg.
Proof. intros Hm. unfold zoom. by rewrite Hm. Qed.

Lemma zoom_ret_inv {T S A} `{Lens T S} (m : M S A) t a t' :
  zoom m t = Ret a t' -> exists s, m (lget t) = Ret a s /\ t' = lput s t.
Proof. unfold zoom. destruct (m (lget t)); simpl; naive_solver. Qed.

(** ** Code that sleeps

    [safe I E Q o]: the run [o] never panics, the invariant [I] holds of the
    shared state whenever the thread goes to sleep, and, provided the other
    threads keep [I] and change the state only as [E] allows in the meantime,
    it ends in a result satisfying [Q].  A loop of wakeups that uses up its
    bound satisfies it: how often a thread is woken in vain is not its doing. *)
Fixpoint safe {S A} (I : S -> Prop) (E : S -> S -> Prop) (Q : A -> S -> Prop) (o : outcome S A) : Prop :=
  match o with
  | Ret a s => Q a s
  | Panic _ => False
  | Sleep _ s k => I s /\ forall s', E s s' -> I s' -> safe I E Q (k s')
  | NoFuel => True
  end.

Lemma safe_bind {S A B} (I : S -> Prop) E (Q : A -> S -> Prop) (R : B -> S -> Prop)
    (m : M S A) (f : A -> M S B) s :
  safe I E Q (m s) -> (forall a s', Q a s' -> safe I E R (f a s')) -> safe I E R (mbind_ m f s).
Proof.
  unfold mbind_. intros Hm Hf. induction (m s) as [a s'| |c s' k IH|]; cbn in *; auto.
  destruct Hm as [HI Hk]. split; [done|]. intros s2 HE HI2. apply IH. auto.
Qed.

Lemma safe_mono {S A} (I : S -> Prop) E (Q R : A -> S -> Prop) o :
  safe I E Q o -> (forall a s, Q a s -> R a s) -> safe I E R o.
Proof.
  intros Ho HQ. induction o as [a s'| |c s' k IH|]; cbn in *; auto.
  destruct Ho as [HI Hk]. split; [done|]. intros s2 HE HI2. apply IH. auto.
Qed.

(** [results Q o]: however the run [o] is woken up, and whatever the state is then,
    if it returns its result satisfies [Q]. *)
Fixpoint results {S A} (Q : A -> S -> Prop) (o : outcome S A) : Prop :=
  match o with
  | Ret a s => Q a s
  | Sleep _ _ k => forall s', results Q (k s')
  | Panic _ | NoFuel => True
  end.

(** It never returns. *)
Definition no_return {S A} : outcome S A -> Prop := results (fun _ _ => False).

Lemma results_bind {S A B} (P : A -> S -> Prop) (Q : B -> S -> Prop) (m : M S A) (f : A -> M S B) s :
  results P (m s) -> (forall a s', P a s' -> results Q (f a s')) -> results Q (mbind_ m f s).
Proof. unfold mbind_. intros Hm Hf. induction (m s) as [a s'| |c s' k IH|]; cbn in *; auto. Qed.

Lemma results_then {S A B} (Q : B -> S -> Prop) (m : M S A) (f : A -> M S B) s :
  (forall a s', results Q (f a s')) -> results Q (mbind_ m f s).
Proof.
  intros Hf. apply (results_bind (fun _ _ => True)); [|auto].
  induction (m s) as [a s'| |c s' k IH|]; cbn; auto.
Qed.

Lemma results_mono {S A} (P Q : A -> S -> Prop) o : results P o -> (forall a s, P a s -> Q a s) -> results Q o.
Proof. intros HP HPQ. induction o as [a s'| |c s' k IH|]; cbn in *; auto. Qed.

(** A part of the state that is run by itself: what it leads to. *)
Lemma results_zoom {T S A} `{Lens T S} (Q : A -> T -> Prop) (o : outcome S A) t :
  (forall t', results (fun a s => Q a (lput s t')) o) -> results Q (zoom_out o t).
Proof.
  revert t. induction o as [a s'| |c s' k IH|]; intros t Ho; cbn in *; auto.
Qed.

Lemma no_return_zoom {T S A} `{Lens T S} (m : M S A) t :
  no_return (m (lget t)) -> no_return (zoom m t).
Proof. intros Hm. apply results_zoom. intros _. exact Hm. Qed.

(** ** Sizes of sets *)

Lemma size_list_to_set_le (l : list Z) : (size (list_to_set l : gset Z) <= length l)%nat.
Proof.
  induction l as [|x l IH]; cbn; [by rewrite size_empty|].
  destruct (decide (x ∈ (list_to_set l : gset Z))) as [HinB|HinB].
  - rewrite (subseteq_union_1_L {[x]}) by set_solver. lia.
  - rewrite size_union, size_singleton by set_solver. lia.
Qed.

Lemma size_add (b : Z) (X : gset Z) : (size ({[b]} ∪ X) <= Datatypes.S (size X))%nat.
Proof.
  destruct (decide (b ∈ X)) as [Hb|Hb]; [rewrite (subseteq_union_1_L {[b]} X) by set_solver; lia|].
  rewrite size_union, size_singleton by set_solver. lia.
Qed.

Lemma size_union_le (X Y : gset Z) : (size (X ∪ Y) <= size X + size Y)%nat.
Proof. rewrite size_union_alt. pose proof (subseteq_size (Y ∖ X) Y ltac:(set_solver)). lia. Qed.
