(* ===== verification/Riscv.v ===== *)
(** The machine constants and macros of kernel/riscv.h, kernel/memlayout.h and
    kernel/param.h: page sizes and rounding, page-table-entry encoding, the
    split of a virtual address into page-table indices, the memory map, and
    the interrupt-enable bit of [sstatus]. *)

From S2P Require Import Prelude.

(** ** kernel/param.h *)
Definition NPROC : Z := 64.
Definition NCPU : Z := 8.
Definition NOFILE : Z := 16.
Definition NFILE : Z := 100.
Definition NINODE : Z := 50.
Definition NDEV : Z := 10.
Definition ROOTDEV : Z := 1.
Definition MAXARG : Z := 32.
Definition MAXOPBLOCKS : Z := 10.
Definition LOGSIZE : Z := MAXOPBLOCKS * 3.
Definition NBUF : Z := MAXOPBLOCKS * 3.
Definition FSSIZE : Z := 1000.
Definition MAXPATH : Z := 128.

(** ** kernel/fcntl.h *)
Definition O_RDONLY : Z := 0x000.
Definition O_WRONLY : Z := 0x001.
Definition O_RDWR : Z := 0x002.
Definition O_CREATE : Z := 0x200.
Definition O_TRUNC : Z := 0x400.

(** ** Pages *)
Definition PGSIZE : Z := 4096.
Definition PGSHIFT : Z := 12.
Definition PGROUNDUP (sz : Z) : Z := Z.land (u64 (sz + PGSIZE - 1)) (Z.lnot (PGSIZE - 1)).
Definition PGROUNDDOWN (a : Z) : Z := Z.land a (Z.lnot (PGSIZE - 1)).

(** ** Page-table entries *)
Definition PTE_V : Z := Z.shiftl 1 0.
Definition PTE_R : Z := Z.shiftl 1 1.
Definition PTE_W : Z := Z.shiftl 1 2.
Definition PTE_X : Z := Z.shiftl 1 3.
Definition PTE_U : Z := Z.shiftl 1 4.
Definition PA2PTE (pa : Z) : Z := u64 (Z.shiftl (Z.shiftr pa 12) 10).
Definition PTE2PA (pte : Z) : Z := u64 (Z.shiftl (Z.shiftr pte 10) 12).
Definition PTE_FLAGS (pte : Z) : Z := Z.land pte 0x3FF.

(** ** Virtual addresses *)
Definition PXMASK : Z := 0x1FF.
Definition PXSHIFT (level : Z) : Z := PGSHIFT + 9 * level.
Definition PX (level va : Z) : Z := Z.land (Z.shiftr va (PXSHIFT level)) PXMASK.
Definition MAXVA : Z := Z.shiftl 1 (9 + 9 + 9 + 12 - 1).

Definition SATP_SV39 : Z := Z.shiftl 8 60.
Definition MAKE_SATP (pagetable : Z) : Z := Z.lor SATP_SV39 (Z.shiftr pagetable 12).

(** ** kernel/memlayout.h *)
Definition UART0 : Z := 0x10000000.
Definition UART0_IRQ : Z := 10.
Definition VIRTIO0 : Z := 0x10001000.
Definition VIRTIO0_IRQ : Z := 1.
Definition CLINT : Z := 0x2000000.
Definition PLIC : Z := 0x0c000000.
Definition KERNBASE : Z := 0x80000000.
Definition PHYSTOP : Z := KERNBASE + 128 * 1024 * 1024.
Definition TRAMPOLINE : Z := MAXVA - PGSIZE.
Definition KSTACK (p : Z) : Z := TRAMPOLINE - (p + 1) * 2 * PGSIZE.
Definition TRAPFRAME : Z := TRAMPOLINE - PGSIZE.

(** ** Supervisor interrupt enable *)
Definition SSTATUS_SIE : Z := Z.shiftl 1 1.
Definition intr_on (sstatus : Z) : Z := Z.lor sstatus SSTATUS_SIE.
Definition intr_off (sstatus : Z) : Z := Z.land sstatus (Z.lnot SSTATUS_SIE).
Definition intr_get (sstatus : Z) : bool := negb (Z.land sstatus SSTATUS_SIE =? 0).

(** The symbols the linker script kernel/kernel.ld defines, which the C code
    takes the address of. *)
Class Layout := {
  etext : Z;          (* end of the kernel text, page aligned by the script *)
  kend : Z;           (* [end]: first address after the kernel *)
  trampoline : Z;     (* the trampoline page, in the text *)
}.

Class LayoutOk `{Layout} : Prop := {
  kernbase_le_etext : KERNBASE <= etext;
  etext_le_kend : etext <= kend;
  kend_le_phystop : kend <= PHYSTOP;
  etext_aligned : etext mod PGSIZE = 0;
  trampoline_aligned : trampoline mod PGSIZE = 0;
  trampoline_range : KERNBASE <= trampoline < PHYSTOP;
}.

#[global] Arguments PGSIZE : simpl never.
#[global] Arguments PHYSTOP : simpl never.
#[global] Arguments KERNBASE : simpl never.
#[global] Arguments MAXVA : simpl never.
#[global] Arguments PGROUNDUP : simpl never.
#[global] Arguments PGROUNDDOWN : simpl never.
#[global] Arguments PA2PTE : simpl never.
#[global] Arguments PTE2PA : simpl never.
#[global] Arguments PTE_FLAGS : simpl never.
#[global] Arguments PX : simpl never.
#[global] Arguments PTE_V : simpl never.
#[global] Arguments PTE_R : simpl never.
#[global] Arguments PTE_W : simpl never.
#[global] Arguments PTE_X : simpl never.
#[global] Arguments PTE_U : simpl never.
#[global] Arguments TRAMPOLINE : simpl never.
#[global] Arguments TRAPFRAME : simpl never.

(** Linear arithmetic over page-aligned addresses. *)
Ltac page_lia := unfold PGSIZE in *; Z.to_euclidean_division_equations; lia.

(** ** Bit arithmetic *)

Lemma land_lnot_ones a k : 0 <= k -> Z.land a (Z.lnot (2 ^ k - 1)) = a / 2 ^ k * 2 ^ k.
Proof.
  intros Hk. rewrite <- Z.shiftl_mul_pow2, <- Z.shiftr_div_pow2 by lia.
  replace (2 ^ k - 1) with (Z.ones k) by (rewrite Z.ones_equiv; lia).
  rewrite <- Z.ldiff_ones_r by lia. symmetry. apply Z.ldiff_land.
Qed.

Lemma lor_low a f k : 0 <= k -> 0 <= f < 2 ^ k -> Z.lor (a * 2 ^ k) f = a * 2 ^ k + f.
Proof.
  intros Hk Hf.
  assert (Hd : Z.land (a * 2 ^ k) f = 0).
  { apply Z.bits_inj'. intros n Hn. rewrite Z.land_spec, Z.bits_0.
    destruct (Z.lt_ge_cases n k).
    - rewrite Z.mul_pow2_bits_low by lia. done.
    - destruct (decide (f = 0)) as [->|]; [by rewrite Z.bits_0, andb_false_r|].
      rewrite (Z.bits_above_log2 f n), andb_false_r; [done | lia |].
      apply Z.log2_lt_pow2; [lia|].
      eapply Z.lt_le_trans; [apply Hf | apply Z.pow_le_mono_r; lia]. }
  rewrite <- Z.lxor_lor by done. symmetry. by apply Z.add_nocarry_lxor.
Qed.

Lemma PGROUNDDOWN_eq a : PGROUNDDOWN a = a / PGSIZE * PGSIZE.
Proof. unfold PGROUNDDOWN. apply (land_lnot_ones a 12). lia. Qed.

Lemma PGROUNDDOWN_aligned a : PGROUNDDOWN a mod PGSIZE = 0.
Proof. rewrite PGROUNDDOWN_eq. apply Z.mod_mul. done. Qed.

Lemma PGROUNDDOWN_id a : a mod PGSIZE = 0 -> PGROUNDDOWN a = a.
Proof.
  intros. rewrite PGROUNDDOWN_eq. unfold PGSIZE in *.
  pose proof (Z.div_mod a 4096). lia.
Qed.

Lemma PGROUNDDOWN_bounds a : PGROUNDDOWN a <= a < PGROUNDDOWN a + PGSIZE.
Proof.
  rewrite PGROUNDDOWN_eq. unfold PGSIZE.
  pose proof (Z.div_mod a 4096). pose proof (Z.mod_pos_bound a 4096). lia.
Qed.

Lemma PGROUNDUP_eq a :
  0 <= a <= 2 ^ 64 - PGSIZE -> PGROUNDUP a = (a + PGSIZE - 1) / PGSIZE * PGSIZE.
Proof.
  intros. unfold PGROUNDUP. rewrite u64_small by (unfold PGSIZE in *; lia).
  apply (land_lnot_ones (a + PGSIZE - 1) 12). lia.
Qed.

Lemma PGROUNDUP_aligned a : PGROUNDUP a mod PGSIZE = 0.
Proof. apply PGROUNDDOWN_aligned. Qed.

Lemma PGROUNDUP_bounds a :
  0 <= a <= 2 ^ 64 - PGSIZE -> a <= PGROUNDUP a < a + PGSIZE.
Proof.
  intros. rewrite PGROUNDUP_eq by done. unfold PGSIZE in *.
  pose proof (Z.div_mod (a + 4096 - 1) 4096).
  pose proof (Z.mod_pos_bound (a + 4096 - 1) 4096). lia.
Qed.

Lemma PGROUNDUP_id a :
  0 <= a <= 2 ^ 64 - PGSIZE -> a mod PGSIZE = 0 -> PGROUNDUP a = a.
Proof.
  intros Ha Hm. pose proof (PGROUNDUP_bounds a Ha). pose proof (PGROUNDUP_aligned a) as Hu.
  unfold PGSIZE in *. apply Z.div_exact in Hm; [|lia]. apply Z.div_exact in Hu; [|lia].
  lia.
Qed.

Lemma PTE_bit_spec pte k :
  0 <= k -> (Z.land pte (2 ^ k) =? 0) = negb (Z.testbit pte k).
Proof.
  intros Hk. destruct (Z.eqb_spec (Z.land pte (2 ^ k)) 0) as [E|E].
  - assert (Hb : Z.testbit (Z.land pte (2 ^ k)) k = false) by (rewrite E; apply Z.bits_0).
    rewrite Z.land_spec, Z.pow2_bits_true, andb_true_r in Hb by lia. by rewrite Hb.
  - destruct (Z.testbit pte k) eqn:Hb; [done|]. exfalso. apply E.
    apply Z.bits_inj'. intros n Hn. rewrite Z.land_spec, Z.bits_0.
    destruct (decide (n = k)) as [->|]; [by rewrite Hb|].
    rewrite Z.pow2_bits_false by lia. apply andb_false_r.
Qed.

(** The physical page number sits above the ten flag bits. *)
Lemma PA2PTE_eq pa : 0 <= pa < 2 ^ 56 -> PA2PTE pa = pa / PGSIZE * 1024.
Proof.
  intros. unfold PA2PTE. rewrite Z.shiftr_div_pow2, Z.shiftl_mul_pow2 by lia.
  change (2 ^ 10) with 1024. change (2 ^ 12) with PGSIZE.
  apply u64_small. unfold PGSIZE. pose proof (Z.div_pos pa 4096).
  pose proof (Z.div_lt_upper_bound pa 4096 (2 ^ 44)). lia.
Qed.

Lemma PA2PTE_lor pa f :
  0 <= pa < 2 ^ 56 -> 0 <= f < 1024 -> Z.lor (PA2PTE pa) f = pa / PGSIZE * 1024 + f.
Proof. intros. rewrite PA2PTE_eq by done. by apply (lor_low _ _ 10). Qed.

Lemma PTE2PA_eq p f :
  0 <= p < 2 ^ 44 -> 0 <= f < 1024 -> PTE2PA (p * 1024 + f) = p * PGSIZE.
Proof.
  intros. unfold PTE2PA. rewrite Z.shiftr_div_pow2, Z.shiftl_mul_pow2 by lia.
  change (2 ^ 10) with 1024. change (2 ^ 12) with PGSIZE.
  rewrite Z.div_add_l, (Z.div_small f) by lia. rewrite Z.add_0_r.
  apply u64_small. unfold PGSIZE. lia.
Qed.

Lemma PTE2PA_PA2PTE pa f :
  0 <= pa < 2 ^ 56 -> pa mod PGSIZE = 0 -> 0 <= f < 1024 ->
  PTE2PA (Z.lor (PA2PTE pa) f) = pa.
Proof.
  intros Hpa Hal Hf. rewrite PA2PTE_lor by done.
  rewrite PTE2PA_eq; [| split | done].
  - unfold PGSIZE in *. pose proof (Z.div_mod pa 4096). lia.
  - apply Z.div_pos; [lia | done].
  - apply Z.div_lt_upper_bound; [done|]. unfold PGSIZE. lia.
Qed.

Lemma PTE_FLAGS_PA2PTE pa f :
  0 <= pa < 2 ^ 56 -> 0 <= f < 1024 -> PTE_FLAGS (Z.lor (PA2PTE pa) f) = f.
Proof.
  intros. rewrite PA2PTE_lor by done. unfold PTE_FLAGS.
  change 0x3FF with (Z.ones 10). rewrite Z.land_ones by lia.
  rewrite Z.add_comm, Z.mod_add by lia. by apply Z.mod_small.
Qed.

Lemma PTE2PA_aligned pte : 0 <= pte < 2 ^ 54 -> PTE2PA pte mod PGSIZE = 0.
Proof.
  intros. unfold PTE2PA. rewrite Z.shiftr_div_pow2, Z.shiftl_mul_pow2 by lia.
  rewrite u64_small; [apply Z.mod_mul; done|].
  pose proof (Z.div_pos pte (2 ^ 10)). pose proof (Z.div_lt_upper_bound pte (2 ^ 10) (2 ^ 44)).
  lia.
Qed.

Lemma PX_eq level va :
  0 <= level -> PX level va = va / 2 ^ (12 + 9 * level) mod 512.
Proof.
  intros. unfold PX, PXSHIFT, PGSHIFT, PXMASK.
  change 0x1FF with (Z.ones 9). rewrite Z.land_ones, Z.shiftr_div_pow2 by lia. done.
Qed.

Lemma PX_range level va : 0 <= level -> 0 <= PX level va < 512.
Proof. intros. rewrite PX_eq by done. apply Z.mod_pos_bound. lia. Qed.

(** The three indices and the offset determine a 39-bit virtual address. *)
Lemma PX_decompose va :
  0 <= va < 2 ^ 39 ->
  va = PX 2 va * 2 ^ 30 + PX 1 va * 2 ^ 21 + PX 0 va * 2 ^ 12 + va mod PGSIZE.
Proof.
  intros. rewrite !PX_eq by lia.
  change (2 ^ (12 + 9 * 2)) with (2 ^ 12 * 512 * 512).
  change (2 ^ (12 + 9 * 1)) with (2 ^ 12 * 512).
  change (2 ^ (12 + 9 * 0)) with (2 ^ 12). change PGSIZE with (2 ^ 12).
  rewrite <- !Z.div_div by lia.
  pose proof (Z.div_mod va (2 ^ 12)).
  pose proof (Z.div_mod (va / 2 ^ 12) 512).
  pose proof (Z.div_mod (va / 2 ^ 12 / 512) 512).
  rewrite (Z.mod_small (va / 2 ^ 12 / 512 / 512)); [lia|].
  rewrite !Z.div_div by lia. split; [apply Z.div_pos; lia|].
  apply Z.div_lt_upper_bound; lia.
Qed.

Lemma PX_inj va1 va2 :
  0 <= va1 < 2 ^ 39 -> 0 <= va2 < 2 ^ 39 ->
  PX 2 va1 = PX 2 va2 -> PX 1 va1 = PX 1 va2 -> PX 0 va1 = PX 0 va2 ->
  PGROUNDDOWN va1 = PGROUNDDOWN va2.
Proof.
  intros H1 H2 E2 E1 E0. rewrite !PGROUNDDOWN_eq.
  pose proof (PX_decompose va1 H1). pose proof (PX_decompose va2 H2).
  unfold PGSIZE in *. pose proof (Z.div_mod va1 4096). pose proof (Z.div_mod va2 4096). lia.
Qed.

(** ** Interrupt enable *)

Lemma intr_get_testbit x : intr_get x = Z.testbit x 1.
Proof. unfold intr_get. change SSTATUS_SIE with (2 ^ 1). rewrite PTE_bit_spec by lia. apply negb_involutive. Qed.

Lemma intr_get_on x : intr_get (intr_on x) = true.
Proof.
  rewrite intr_get_testbit. unfold intr_on. rewrite Z.lor_spec.
  change SSTATUS_SIE with (2 ^ 1). rewrite Z.pow2_bits_true by lia. apply orb_true_r.
Qed.

Lemma intr_get_off x : intr_get (intr_off x) = false.
Proof.
  rewrite intr_get_testbit. unfold intr_off. rewrite Z.land_spec, Z.lnot_spec by lia.
  change SSTATUS_SIE with (2 ^ 1). rewrite Z.pow2_bits_true by lia. apply andb_false_r.
Qed.

Lemma intr_off_off x : intr_off (intr_off x) = intr_off x.
Proof. unfold intr_off. rewrite <- Z.land_assoc, Z.land_diag. done. Qed.

(** Turning interrupts back on undoes turning them off. *)
Lemma intr_on_off x : intr_get x = true -> intr_on (intr_off x) = x.
Proof.
  rewrite intr_get_testbit. intros Hx. apply Z.bits_inj'. intros n Hn.
  unfold intr_on, intr_off. rewrite Z.lor_spec, Z.land_spec, Z.lnot_spec by done.
  change SSTATUS_SIE with (2 ^ 1). destruct (decide (n = 1)) as [->|].
  - rewrite Z.pow2_bits_true, Hx by lia. done.
  - rewrite Z.pow2_bits_false by lia. simpl. rewrite andb_true_r, orb_false_r. done.
Qed.

Lemma intr_off_id x : intr_get x = false -> intr_off x = x.
Proof.
  rewrite intr_get_testbit. intros Hx. apply Z.bits_inj'. intros n Hn.
  unfold intr_off. rewrite Z.land_spec, Z.lnot_spec by done.
  change SSTATUS_SIE with (2 ^ 1). destruct (decide (n = 1)) as [->|].
  - by rewrite Hx.
  - rewrite Z.pow2_bits_false by lia. apply andb_true_r.
Qed.
