(* ===== verification/Mem.v ===== *)
(** Byte-addressed memory and the C string routines of kernel/string.c.

    Memory is a finite map from addresses to bytes (an address never written
    reads as 0).  The routines work on it the way the C code works on [char]
    pointers: one byte load or store per loop iteration.  On RISC-V [char] is
    unsigned, so a byte is a number between 0 and 255. *)

From S2P Require Import Prelude.

Abbreviation memory := (gmap Z Z).

Definition load8 (m : memory) (a : Z) : Z := u8 (default 0 (m !! a)).
Definition store8 (m : memory) (a v : Z) : memory := <[a := u8 v]> m.

(** Little-endian loads and stores of [n] bytes. *)
Fixpoint load_le (m : memory) (a : Z) (n : nat) : Z :=
  match n with
  | O => 0
  | S n' => load8 m a + 256 * load_le m (a + 1) n'
  end.

Fixpoint store_le (m : memory) (a : Z) (n : nat) (v : Z) : memory :=
  match n with
  | O => m
  | S n' => store_le (store8 m a v) (a + 1) n' (v / 256)
  end.

Definition load64 (m : memory) (a : Z) : Z := load_le m a 8.
Definition store64 (m : memory) (a v : Z) : memory := store_le m a 8 v.

(** A [n]-byte integer as bytes, the least significant first, and back. *)
Fixpoint le_bytes (n : nat) (v : Z) : list Z :=
  match n with
  | O => []
  | S n' => v mod 256 :: le_bytes n' (v / 256)
  end.
Definition le_value (bs : list Z) : Z := foldr (fun b acc => b + 256 * acc) 0 bs.

Lemma length_le_bytes n v : length (le_bytes n v) = n.
Proof. revert v. induction n as [|n IH]; intros v; cbn; [done|]. by rewrite IH. Qed.

Lemma le_value_bytes n v : le_value (le_bytes n v) = v mod 256 ^ Z.of_nat n.
Proof.
  revert v. induction n as [|n IH]; intros v; [by rewrite Z.mod_1_r|].
  change (v mod 256 + 256 * le_value (le_bytes n (v / 256)) = v mod 256 ^ Z.of_nat (S n)).
  rewrite IH, Nat2Z.inj_succ, Z.pow_succ_r by lia. rewrite Z.rem_mul_r by lia. done.
Qed.

(** ** kernel/string.c

    The routines that return their destination pointer return here only the
    memory they leave: the pointer is the argument. *)

Fixpoint memset_loop (m : memory) (cdst c i : Z) (n : nat) : memory :=
  match n with
  | O => m
  | S n' => memset_loop (store8 m (cdst + i) c) cdst c (i + 1) n'
  end.
Definition memset (m : memory) (dst c n : Z) : memory :=
  memset_loop m dst c 0 (Z.to_nat n).

Fixpoint memcmp_loop (m : memory) (s1 s2 : Z) (n : nat) : Z :=
  match n with
  | O => 0
  | S n' =>
      if negb (load8 m s1 =? load8 m s2) then load8 m s1 - load8 m s2
      else memcmp_loop m (s1 + 1) (s2 + 1) n'
  end.
Definition memcmp (m : memory) (v1 v2 n : Z) : Z := memcmp_loop m v1 v2 (Z.to_nat n).

(** [*--d = *--s] *)
Fixpoint move_down (m : memory) (d s : Z) (n : nat) : memory :=
  match n with
  | O => m
  | S n' => move_down (store8 m (d - 1) (load8 m (s - 1))) (d - 1) (s - 1) n'
  end.
(** [*d++ = *s++] *)
Fixpoint move_up (m : memory) (d s : Z) (n : nat) : memory :=
  match n with
  | O => m
  | S n' => move_up (store8 m d (load8 m s)) (d + 1) (s + 1) n'
  end.
Definition memmove (m : memory) (dst src n : Z) : memory :=
  if (src <? dst) && (dst <? src + n)
  then move_down m (dst + n) (src + n) (Z.to_nat n)
  else move_up m dst src (Z.to_nat n).

Definition memcpy (m : memory) (dst src n : Z) : memory := memmove m dst src n.

Fixpoint strncmp_loop (m : memory) (p q : Z) (n : nat) : Z :=
  match n with
  | O => 0
  | S n' =>
      if negb (load8 m p =? 0) && (load8 m p =? load8 m q)
      then strncmp_loop m (p + 1) (q + 1) n'
      else u8 (load8 m p) - u8 (load8 m q)
  end.
Definition strncmp (m : memory) (p q n : Z) : Z := strncmp_loop m p q (Z.to_nat n).

(** [while(n-- > 0 && ( *s++ = *t++ ) != 0)]: the memory, the final [s] and what
    is left of [n] for the padding loop. *)
Fixpoint strncpy_copy (m : memory) (s t : Z) (n : nat) : memory * Z * nat :=
  match n with
  | O => (m, s, O)
  | S n' =>
      let c := load8 m t in
      let m' := store8 m s c in
      if c =? 0 then (m', s + 1, n') else strncpy_copy m' (s + 1) (t + 1) n'
  end.
Fixpoint strncpy_pad (m : memory) (s : Z) (n : nat) : memory :=
  match n with
  | O => m
  | S n' => strncpy_pad (store8 m s 0) (s + 1) n'
  end.
Definition strncpy (m : memory) (s t n : Z) : memory :=
  let '(m', s', n') := strncpy_copy m s t (Z.to_nat n) in strncpy_pad m' s' n'.

(** [while(--n > 0 && ( *s++ = *t++ ) != 0)], with [n] the number of times the
    decremented counter is still positive. *)
Fixpoint safestrcpy_copy (m : memory) (s t : Z) (n : nat) : memory * Z :=
  match n with
  | O => (m, s)
  | S n' =>
      let c := load8 m t in
      let m' := store8 m s c in
      if c =? 0 then (m', s + 1) else safestrcpy_copy m' (s + 1) (t + 1) n'
  end.
Definition safestrcpy (m : memory) (s t n : Z) : memory :=
  if n <=? 0 then m
  else let '(m', s') := safestrcpy_copy m s t (Z.to_nat (n - 1)) in store8 m' s' 0.

(** [strlen] scans until a NUL: [None] when none is met within the bound. *)
Fixpoint strlen_loop (fuel : nat) (m : memory) (s n : Z) : option Z :=
  match fuel with
  | O => None
  | S fuel' => if load8 m (s + n) =? 0 then Some n else strlen_loop fuel' m s (n + 1)
  end.
Definition strlen (fuel : nat) (m : memory) (s : Z) : option Z := strlen_loop fuel m s 0.

#[global] Arguments load64 : simpl never.
#[global] Arguments store64 : simpl never.
(** Store a list of bytes, as [memmove] from a kernel buffer does. *)
Fixpoint store_bytes (m : memory) (a : Z) (l : list Z) : memory :=
  match l with
  | [] => m
  | b :: l' => store_bytes (store8 m a b) (a + 1) l'
  end.

#[global] Arguments load8 : simpl never.
#[global] Arguments store8 : simpl never.
#[global] Arguments memset : simpl never.
#[global] Arguments memmove : simpl never.
#[global] Arguments strncpy : simpl never.
#[global] Arguments safestrcpy : simpl never.

(** ** Loads after stores *)

Lemma load8_range m a : 0 <= load8 m a < 256.
Proof. apply u8_range. Qed.

Lemma load8_store8 m a b v :
  load8 (store8 m a v) b = if decide (a = b) then u8 v else load8 m b.
Proof.
  unfold load8, store8. rewrite lookup_insert. case_decide; simpl; [apply u8_idem | done].
Qed.

Lemma load8_store8_eq m a v : load8 (store8 m a v) a = u8 v.
Proof. rewrite load8_store8. by rewrite decide_True. Qed.

Lemma load8_store8_ne m a b v : a <> b -> load8 (store8 m a v) b = load8 m b.
Proof. intros. rewrite load8_store8. by rewrite decide_False. Qed.

Lemma u8_load8 m a : u8 (load8 m a) = load8 m a.
Proof. apply u8_idem. Qed.

Lemma load8_empty a : load8 ∅ a = 0.
Proof. unfold load8. by rewrite lookup_empty. Qed.

Lemma load8_store_bytes m a l b :
  load8 (store_bytes m a l) b =
  if decide (a <= b < a + Z.of_nat (length l)) then u8 (l !!! Z.to_nat (b - a)) else load8 m b.
Proof.
  revert m a. induction l as [|x l IH]; intros m a; cbn [store_bytes length].
  - rewrite decide_False by lia. done.
  - rewrite IH, load8_store8. repeat case_decide; try lia; try done.
    + replace (Z.to_nat (b - a)) with (S (Z.to_nat (b - (a + 1)))) by lia. done.
    + by replace (Z.to_nat (b - a)) with O by lia.
Qed.

(** Two memories that agree on [len] bytes from [a]. *)
Definition same_on (m m' : memory) (a len : Z) : Prop :=
  forall b, a <= b < a + len -> load8 m' b = load8 m b.

Lemma load_le_ext m m' a n :
  (forall b, a <= b < a + Z.of_nat n -> load8 m b = load8 m' b) ->
  load_le m a n = load_le m' a n.
Proof.
  revert a. induction n as [|n IH]; intros a H; [done|].
  cbn [load_le]. rewrite (H a), (IH (a + 1)); [done | intros; apply H; lia | lia].
Qed.

Lemma load64_ext m m' a : same_on m m' a 8 -> load64 m' a = load64 m a.
Proof. intros H. apply load_le_ext. intros b Hb. apply H. lia. Qed.

Lemma load_le_range m a n : 0 <= load_le m a n < 256 ^ Z.of_nat n.
Proof.
  revert a. induction n as [|n IH]; intros a; cbn [load_le].
  - lia.
  - rewrite Nat2Z.inj_succ, Z.pow_succ_r by lia.
    pose proof (load8_range m a). pose proof (IH (a + 1)). lia.
Qed.

Lemma load64_range m a : 0 <= load64 m a < 2 ^ 64.
Proof. apply (load_le_range m a 8). Qed.

Lemma load8_store_le_out m a n v b :
  ~ (a <= b < a + Z.of_nat n) -> load8 (store_le m a n v) b = load8 m b.
Proof.
  revert m a v. induction n as [|n IH]; intros m a v H; [done|].
  cbn [store_le]. rewrite IH, load8_store8_ne by lia. done.
Qed.

Lemma load_le_store_le m a n v :
  load_le (store_le m a n v) a n = v mod 256 ^ Z.of_nat n.
Proof.
  revert m a v. induction n as [|n IH]; intros m a v; cbn [load_le store_le].
  - by rewrite Z.mod_1_r.
  - rewrite IH, load8_store_le_out, load8_store8_eq by lia.
    rewrite Nat2Z.inj_succ, Z.pow_succ_r by lia. unfold u8. change (2 ^ 8) with 256.
    rewrite Z.rem_mul_r by lia. done.
Qed.

Lemma load64_store64_eq m a v : load64 (store64 m a v) a = u64 v.
Proof. apply (load_le_store_le m a 8). Qed.

Lemma load8_store64_out m a v b :
  ~ (a <= b < a + 8) -> load8 (store64 m a v) b = load8 m b.
Proof. apply (load8_store_le_out m a 8). Qed.

Lemma load64_store64_ne m a b v :
  b + 8 <= a \/ a + 8 <= b -> load64 (store64 m a v) b = load64 m b.
Proof.
  intros. apply load_le_ext. intros c Hc. apply load8_store64_out. lia.
Qed.

Lemma load64_empty a : load64 ∅ a = 0.
Proof. unfold load64. cbn [load_le]. by rewrite !load8_empty. Qed.

(** ** memset *)

Lemma load8_memset_loop m d c i n a :
  load8 (memset_loop m d c i n) a =
  if decide (d + i <= a < d + i + Z.of_nat n) then u8 c else load8 m a.
Proof.
  revert m i. induction n as [|n IH]; intros m i; cbn [memset_loop].
  - rewrite decide_False by lia. done.
  - rewrite IH, load8_store8. repeat case_decide; try done; lia.
Qed.

Lemma load8_memset m d c n a :
  load8 (memset m d c n) a = if decide (d <= a < d + n) then u8 c else load8 m a.
Proof.
  unfold memset. rewrite load8_memset_loop. repeat case_decide; try done; lia.
Qed.

Lemma load8_memset_out m d c n a :
  ~ (d <= a < d + n) -> load8 (memset m d c n) a = load8 m a.
Proof. intros. rewrite load8_memset. by rewrite decide_False. Qed.

Lemma load64_memset_out m d c n a :
  a + 8 <= d \/ d + n <= a -> load64 (memset m d c n) a = load64 m a.
Proof. intros. apply load_le_ext. intros b Hb. apply load8_memset_out. lia. Qed.

Lemma load64_memset_zero m d n a :
  d <= a -> a + 8 <= d + n -> load64 (memset m d 0 n) a = 0.
Proof.
  intros. unfold load64. rewrite (load_le_ext _ ∅); [done|].
  intros b Hb. rewrite load8_empty, load8_memset, decide_True by lia. done.
Qed.

(** ** memmove *)

Lemma load8_move_down m d s n a :
  s <= d ->
  load8 (move_down m d s n) a =
  if decide (d - Z.of_nat n <= a < d) then load8 m (s - (d - a)) else load8 m a.
Proof.
  revert m d s. induction n as [|n IH]; intros m d s Hsd; cbn [move_down].
  - rewrite decide_False by lia. done.
  - rewrite IH by lia. rewrite !load8_store8, u8_load8. repeat case_decide; try lia; try done.
    + f_equal; lia.
    + replace (s - (d - a)) with (s - 1) by lia. done.
Qed.

Lemma load8_move_up m d s n a :
  d <= s \/ s + Z.of_nat n <= d ->
  load8 (move_up m d s n) a =
  if decide (d <= a < d + Z.of_nat n) then load8 m (s + (a - d)) else load8 m a.
Proof.
  revert m d s. induction n as [|n IH]; intros m d s Hsd; cbn [move_up].
  - rewrite decide_False by lia. done.
  - rewrite IH by lia. rewrite !load8_store8, u8_load8. repeat case_decide; try lia; try done.
    + f_equal; lia.
    + replace (s + (a - d)) with s by lia. done.
Qed.

Lemma load8_memmove m dst src n a :
  load8 (memmove m dst src n) a =
  if decide (dst <= a < dst + n) then load8 m (src + (a - dst)) else load8 m a.
Proof.
  unfold memmove. destruct (Z.leb_spec n 0).
  - replace (Z.to_nat n) with O by lia. rewrite decide_False by lia.
    destruct (_ && _); done.
  - destruct ((src <? dst) && (dst <? src + n)) eqn:E.
    + rewrite load8_move_down by lia. repeat case_decide; try lia; try done. f_equal; lia.
    + rewrite load8_move_up by lia. repeat case_decide; try lia; try done.
Qed.

Lemma load8_memmove_out m dst src n a :
  ~ (dst <= a < dst + n) -> load8 (memmove m dst src n) a = load8 m a.
Proof. intros. rewrite load8_memmove. by rewrite decide_False. Qed.

(** ** Byte ranges and NUL-terminated strings *)

Definition bytes_at (m : memory) (a : Z) (n : nat) : list Z :=
  (fun i => load8 m (a + i)) <$> seqZ 0 (Z.of_nat n).

(** The string at [a], read up to its NUL or [n] bytes. *)
Fixpoint cstr (m : memory) (a : Z) (n : nat) : list Z :=
  match n with
  | O => []
  | S n' => if load8 m a =? 0 then [] else load8 m a :: cstr m (a + 1) n'
  end.

Lemma bytes_at_ext m m' a a' n :
  (forall i, 0 <= i < Z.of_nat n -> load8 m (a + i) = load8 m' (a' + i)) ->
  bytes_at m a n = bytes_at m' a' n.
Proof.
  intros H. apply list_fmap_ext. intros i x Hx%lookup_seqZ. apply H. lia.
Qed.

Lemma bytes_at_S m a n : bytes_at m a (S n) = load8 m a :: bytes_at m (a + 1) n.
Proof.
  unfold bytes_at. rewrite Nat2Z.inj_succ, seqZ_cons by lia. cbn [fmap list_fmap].
  rewrite Z.add_0_r. f_equal. change (Z.succ 0) with (1 + 0). rewrite Z.pred_succ.
  rewrite <- fmap_add_seqZ, <- list_fmap_compose. apply list_fmap_ext.
  intros i x _. cbn. f_equal. lia.
Qed.

Lemma length_bytes_at m a n : length (bytes_at m a n) = n.
Proof. unfold bytes_at. rewrite length_fmap, length_seqZ. lia. Qed.

Lemma cstr_ext m m' a a' n :
  (forall i, 0 <= i < Z.of_nat n -> load8 m (a + i) = load8 m' (a' + i)) ->
  cstr m a n = cstr m' a' n.
Proof.
  revert a a'. induction n as [|n IH]; intros a a' H; [done|]. cbn [cstr].
  pose proof (H 0 ltac:(lia)) as H0. rewrite !Z.add_0_r in H0. rewrite H0.
  rewrite (IH (a + 1) (a' + 1)); [done|].
  intros i Hi. rewrite <- !Z.add_assoc. apply H. lia.
Qed.

Lemma length_cstr_le m a n : (length (cstr m a n) <= n)%nat.
Proof.
  revert a. induction n as [|n IH]; intros a; cbn [cstr]; [done|].
  case_match; simpl; [lia|]. specialize (IH (a + 1)). lia.
Qed.

Lemma cstr_nul m a n :
  (length (cstr m a n) < n)%nat -> load8 m (a + Z.of_nat (length (cstr m a n))) = 0.
Proof.
  revert a. induction n as [|n IH]; intros a; cbn [cstr]; [simpl; lia|].
  case_match eqn:E; cbn [length]; intros H.
  - rewrite Z.add_0_r. by apply Z.eqb_eq.
  - rewrite Nat2Z.inj_succ, <- Z.add_1_l, Z.add_assoc. apply IH. lia.
Qed.

Lemma bytes_at_lookup m a n i :
  (i < n)%nat -> bytes_at m a n !! i = Some (load8 m (a + Z.of_nat i)).
Proof.
  intros. unfold bytes_at. rewrite list_lookup_fmap, lookup_seqZ_lt by lia. done.
Qed.

Lemma cstr_lookup m a n i x :
  cstr m a n !! i = Some x -> load8 m (a + Z.of_nat i) = x /\ x <> 0.
Proof.
  revert a i. induction n as [|n IH]; intros a i; cbn [cstr]; [done|].
  destruct (Z.eqb_spec (load8 m a) 0); [done|]. destruct i as [|i]; cbn.
  - intros [= <-]. by rewrite Z.add_0_r.
  - intros Hx. apply IH in Hx. replace (a + Z.of_nat (S i)) with (a + 1 + Z.of_nat i) by lia. done.
Qed.

(** A NUL among the bytes ends the string there, whatever the bound. *)
Lemma cstr_bound m a n k :
  (length (cstr m a n) < n)%nat -> (n <= k)%nat -> cstr m a k = cstr m a n.
Proof.
  revert a k. induction n as [|n IH]; intros a k; cbn [cstr]; [simpl; lia|].
  intros H Hk. destruct k as [|k]; [lia|]. cbn [cstr].
  case_match; [done|]. f_equal. apply IH; cbn in H; lia.
Qed.

Lemma cstr_app_nul m a l :
  (forall i x, l !! i = Some x -> load8 m (a + Z.of_nat i) = x /\ x <> 0) ->
  load8 m (a + Z.of_nat (length l)) = 0 ->
  forall n, (length l < n)%nat -> cstr m a n = l.
Proof.
  revert a. induction l as [|x l IH]; intros a Hl H0 n Hn; destruct n as [|n]; cbn in Hn; try lia;
    cbn [cstr].
  - rewrite Z.add_0_r in H0. by rewrite H0.
  - destruct (Hl O x eq_refl) as [Hx Hx0]. rewrite Z.add_0_r in Hx. rewrite Hx.
    destruct (Z.eqb_spec x 0); [done|]. f_equal. apply IH; [| |lia].
    + intros i y Hy. destruct (Hl (S i) y Hy). split; [|done].
      rewrite <- H. f_equal. lia.
    + rewrite <- H0. f_equal. cbn. lia.
Qed.

(** ** Frame and effect of the copying loops *)

Lemma strncpy_pad_spec m s n a :
  load8 (strncpy_pad m s n) a =
  if decide (s <= a < s + Z.of_nat n) then 0 else load8 m a.
Proof.
  revert m s. induction n as [|n IH]; intros m s; cbn [strncpy_pad].
  - rewrite decide_False by lia. done.
  - rewrite IH, load8_store8. repeat case_decide; try done; lia.
Qed.

(** What the first loop of [strncpy] leaves when source and destination do not
    overlap: the string and, if there was room, its NUL. *)
Lemma strncpy_copy_spec m s t n :
  t + Z.of_nat n <= s \/ s + Z.of_nat n <= t ->
  forall m' s' n', strncpy_copy m s t n = (m', s', n') ->
  s' + Z.of_nat n' = s + Z.of_nat n /\
  s' = s + Z.of_nat (Nat.min (S (length (cstr m t n))) n) /\
  forall a, load8 m' a =
    if decide (s <= a < s') then load8 m (t + (a - s)) else load8 m a.
Proof.
  revert m s t. induction n as [|n IH]; intros m s t Hd m' s' n'; cbn [strncpy_copy cstr].
  - intros [= <- <- <-]. split; [lia|]. split; [simpl; lia|].
    intros a. rewrite decide_False by lia. done.
  - destruct (load8 m t =? 0) eqn:E.
    + intros [= <- <- <-]. split; [lia|]. split; [cbn; lia|]. intros a.
      rewrite load8_store8, u8_load8. repeat case_decide; try done; try lia. f_equal. lia.
    + intros Hc. apply IH in Hc as (H1 & H2 & H3); [|lia].
      rewrite (cstr_ext _ m (t + 1) (t + 1)) in H2
        by (intros i Hi; apply load8_store8_ne; lia).
      split; [lia|]. split; [cbn [length]; lia|]. intros a. rewrite H3.
      rewrite !load8_store8, u8_load8. repeat case_decide; try done; try lia; f_equal; lia.
Qed.

Lemma safestrcpy_copy_spec m s t n :
  t + Z.of_nat n <= s \/ s + Z.of_nat n <= t ->
  forall m' s', safestrcpy_copy m s t n = (m', s') ->
  s' = s + Z.of_nat (Nat.min (S (length (cstr m t n))) n) /\
  forall a, load8 m' a =
    if decide (s <= a < s') then load8 m (t + (a - s)) else load8 m a.
Proof.
  revert m s t. induction n as [|n IH]; intros m s t Hd m' s'; cbn [safestrcpy_copy cstr].
  - intros [= <- <-]. split; [simpl; lia|].
    intros a. rewrite decide_False by lia. done.
  - destruct (load8 m t =? 0) eqn:E.
    + intros [= <- <-]. split; [cbn; lia|]. intros a.
      rewrite load8_store8, u8_load8. repeat case_decide; try done; try lia. f_equal. lia.
    + intros Hc. apply IH in Hc as (H2 & H3); [|lia].
      rewrite (cstr_ext _ m (t + 1) (t + 1)) in H2
        by (intros i Hi; apply load8_store8_ne; lia).
      split; [cbn [length]; lia|]. intros a. rewrite H3.
      rewrite !load8_store8, u8_load8. repeat case_decide; try done; try lia; f_equal; lia.
Qed.

(** Without any assumption on overlap: only [s, s+n) is written. *)
Lemma safestrcpy_copy_frame m s t n m' s' :
  safestrcpy_copy m s t n = (m', s') ->
  s <= s' <= s + Z.of_nat n /\
  forall a, ~ (s <= a < s') -> load8 m' a = load8 m a.
Proof.
  revert m s t. induction n as [|n IH]; intros m s t; cbn [safestrcpy_copy].
  - intros [= <- <-]. split; [lia|done].
  - case_match.
    + intros [= <- <-]. split; [lia|]. intros a Ha. by rewrite load8_store8_ne by lia.
    + intros Hc. apply IH in Hc as [H1 H2]. split; [lia|]. intros a Ha.
      rewrite H2, load8_store8_ne by lia. done.
Qed.

Lemma strlen_loop_spec fuel m s n k :
  (length (cstr m (s + n) k) < k)%nat -> (k <= fuel)%nat ->
  strlen_loop fuel m s n = Some (n + Z.of_nat (length (cstr m (s + n) k))).
Proof.
  revert n k. induction fuel as [|fuel IH]; intros n k Hk Hf; [lia|].
  destruct k as [|k]; [lia|]. cbn [strlen_loop cstr] in *.
  case_match; cbn [length] in *; [f_equal; lia|].
  rewrite <- Z.add_assoc in *. rewrite (IH (n + 1) k) by lia. f_equal. lia.
Qed.

Lemma strncmp_loop_spec m p q n :
  strncmp_loop m p q n = 0 <-> cstr m p n = cstr m q n.
Proof.
  revert p q. induction n as [|n IH]; intros p q; cbn [strncmp_loop cstr]; [done|].
  rewrite !u8_load8.
  destruct (Z.eqb_spec (load8 m p) 0) as [Hp|Hp]; simpl.
  - rewrite Hp. destruct (Z.eqb_spec (load8 m q) 0); split; intros; try done; lia.
  - destruct (Z.eqb_spec (load8 m p) (load8 m q)) as [E|E]; simpl.
    + rewrite <- E. destruct (Z.eqb_spec (load8 m p) 0); [done|].
      rewrite IH. split; [by intros -> | by intros [= ?]].
    + split; [lia|]. case_match; [done|]. intros [= ?]. lia.
Qed.

Lemma memcmp_loop_spec m p q n :
  memcmp_loop m p q n = 0 <-> bytes_at m p n = bytes_at m q n.
Proof.
  revert p q. induction n as [|n IH]; intros p q; cbn [memcmp_loop]; [done|].
  rewrite !bytes_at_S.
  destruct (Z.eqb_spec (load8 m p) (load8 m q)) as [E|E]; simpl.
  - rewrite E, IH. split; [by intros -> | by intros [= ?]].
  - split; [lia | by intros [= ?]].
Qed.

(** ** Correctness of kernel/string.c *)

(** [memmove] copies correctly whatever the overlap of the two ranges: after
    it the destination holds the bytes the source held before, and no byte
    outside the destination changes. *)
Theorem memmove_correct m dst src (n : nat) :
  bytes_at (memmove m dst src (Z.of_nat n)) dst n = bytes_at m src n /\
  forall a, load8 (memmove m dst src (Z.of_nat n)) a =
    if decide (dst <= a < dst + Z.of_nat n) then load8 m (src + (a - dst)) else load8 m a.
Proof.
  split; [|intros; apply load8_memmove].
  apply bytes_at_ext. intros i Hi. rewrite load8_memmove, decide_True by lia. f_equal. lia.
Qed.

(** [safestrcpy] with a positive size writes only inside the [n]-byte
    destination, always leaves it NUL-terminated, and (source and destination
    disjoint) leaves the source string cut to [n - 1] characters. *)
Theorem safestrcpy_correct m s t (n : nat) :
  (0 < n)%nat -> (t + Z.of_nat n <= s \/ s + Z.of_nat n <= t) ->
  let m' := safestrcpy m s t (Z.of_nat n) in
  cstr m' s n = cstr m t (n - 1) /\
  (length (cstr m' s n) < n)%nat /\
  forall a, ~ (s <= a < s + Z.of_nat n) -> load8 m' a = load8 m a.
Proof.
  intros Hn Hd m'. subst m'. unfold safestrcpy.
  destruct (Z.leb_spec (Z.of_nat n) 0); [lia|].
  replace (Z.to_nat (Z.of_nat n - 1)) with (n - 1)%nat by lia.
  destruct (safestrcpy_copy m s t (n - 1)) as [m1 s1] eqn:E.
  apply safestrcpy_copy_spec in E as [Hs1 Hm1]; [|lia].
  pose proof (length_cstr_le m t (n - 1)) as Hlen.
  assert (Heq : forall a, load8 (store8 m1 s1 0) a =
     if decide (a = s1) then 0 else if decide (s <= a < s1) then load8 m (t + (a - s)) else load8 m a).
  { intros a. rewrite load8_store8, Hm1. repeat case_decide; try done; lia. }
  assert (Hc : cstr (store8 m1 s1 0) s n = cstr m t (n - 1)).
  { apply cstr_app_nul; [| |lia].
    - intros i x Hx. rewrite Heq. pose proof (lookup_lt_Some _ _ _ Hx).
      repeat case_decide; try lia. replace (t + (s + Z.of_nat i - s)) with (t + Z.of_nat i) by lia.
      by apply cstr_lookup in Hx.
    - rewrite Heq. repeat case_decide; try done; [|lia].
      assert (length (cstr m t (n - 1)) < n - 1)%nat by lia.
      rewrite <- (cstr_nul m t (n - 1)) by done. f_equal. lia. }
  split; [done|]. split; [rewrite Hc; lia|].
  intros a Ha. rewrite Heq. repeat case_decide; try done; lia.
Qed.

(** [strncmp] returns 0 exactly when the two strings agree up to a common
    NUL or the first [n] characters: the equality directory names are
    compared with. *)
Theorem strncmp_zero m p q (n : nat) :
  strncmp m p q (Z.of_nat n) = 0 <-> cstr m p n = cstr m q n.
Proof. unfold strncmp. rewrite Nat2Z.id. apply strncmp_loop_spec. Qed.

(** [strncpy] between disjoint buffers copies the string cut to [n]
    characters, fills the rest of the [n] bytes with NULs and touches nothing
    else. *)
Theorem strncpy_correct m s t (n : nat) :
  t + Z.of_nat n <= s \/ s + Z.of_nat n <= t ->
  let m' := strncpy m s t (Z.of_nat n) in
  bytes_at m' s n = cstr m t n ++ replicate (n - length (cstr m t n)) 0 /\
  forall a, ~ (s <= a < s + Z.of_nat n) -> load8 m' a = load8 m a.
Proof.
  intros Hd m'. subst m'. unfold strncpy. rewrite Nat2Z.id.
  destruct (strncpy_copy m s t n) as [[m1 s1] n1] eqn:E.
  apply strncpy_copy_spec in E as (H1 & H2 & H3); [|done].
  split; [|intros a Ha; rewrite strncpy_pad_spec, H3; repeat case_decide; try done; lia].
  assert (Heq : forall i, 0 <= i < Z.of_nat n ->
     load8 (strncpy_pad m1 s1 n1) (s + i) =
     if decide (i < Z.of_nat (length (cstr m t n))) then load8 m (t + i) else 0).
  { intros i Hi. rewrite strncpy_pad_spec, H3.
    pose proof (length_cstr_le m t n).
    repeat case_decide; try done; try lia.
    - f_equal; lia.
    - replace (t + (s + i - s)) with (t + Z.of_nat (length (cstr m t n))) by lia.
      apply cstr_nul. lia. }
  apply list_eq. intros i. destruct (decide (i < n)%nat) as [Hi|Hi].
  - rewrite bytes_at_lookup by done. rewrite Heq by lia. case_decide as Hc.
    + destruct (lookup_lt_is_Some_2 (cstr m t n) i) as [x Hx]; [lia|].
      rewrite (lookup_app_l_Some _ _ _ _ Hx). f_equal. by apply cstr_lookup in Hx as [-> _].
    + rewrite lookup_app_r by lia. rewrite lookup_replicate_2; [done|]. lia.
  - pose proof (length_cstr_le m t n). rewrite !lookup_ge_None_2; [done | |].
    + rewrite length_app, length_replicate. lia.
    + rewrite length_bytes_at. lia.
Qed.

(** Later files reason with the lemmas above, never by running the loops. *)
#[global] Opaque memset memmove.

(** ** Examples *)

(** [hi] at address 100. *)
Definition sample_mem : memory := store8 (store8 ∅ 100 104) 101 105.

Lemma safestrcpy_correct_witness :
  let m' := safestrcpy sample_mem 200 100 (Z.of_nat 2) in
  cstr m' 200 2 = [104] /\ (length (cstr m' 200 2) < 2)%nat.
Proof.
  destruct (safestrcpy_correct sample_mem 200 100 2) as (H1 & H2 & _); [lia|left; lia|].
  split; [exact H1|exact H2].
Defined.

Lemma strncpy_correct_witness :
  bytes_at (strncpy sample_mem 200 100 (Z.of_nat 4)) 200 4 = [104; 105; 0; 0].
Proof.
  destruct (strncpy_correct sample_mem 200 100 4) as [H1 _]; [left; lia|]. exact H1.
Defined.
