(* ===== verification/Csr.v ===== *)
(** kernel/riscv.h and kernel/start.c: the control and status registers, and what the
    machine does before [main].

    Each register is a value of its own: that [sstatus] and [sie] are views of
    [mstatus] and [mie] is not modelled. *)

From S2P Require Import Prelude Riscv Mem.

Inductive csr :=
| Mhartid | Mstatus | Mepc | Sstatus | Sip | Sie | Mie | Sepc | Medeleg | Mideleg | Stvec | Mtvec | Satp | Mscratch
| Scause | Stval | Sscratch | Tp.
#[global] Instance csr_eq_dec : EqDecision csr.
Proof. solve_decision. Defined.

Definition csrs : Type := csr -> Z.
Definition csrr (r : csr) : M csrs Z := gets (fun c => c r).
Definition csrw (r : csr) (x : Z) : M csrs unit := modify (fun c => <[r := u64 x]> c).

Definition MSTATUS_MPP_MASK : Z := Z.shiftl 3 11.
Definition MSTATUS_MPP_S : Z := Z.shiftl 1 11.
Definition MSTATUS_MIE : Z := Z.shiftl 1 3.
Definition SSTATUS_SPP : Z := Z.shiftl 1 8.
Definition SSTATUS_SPIE : Z := Z.shiftl 1 5.
Definition SIE_SEIE : Z := Z.shiftl 1 9.
Definition SIE_STIE : Z := Z.shiftl 1 5.
Definition SIE_SSIE : Z := Z.shiftl 1 1.
Definition MIE_MTIE : Z := Z.shiftl 1 7.

Definition r_mhartid := csrr Mhartid.
Definition r_mstatus := csrr Mstatus.
Definition w_mstatus := csrw Mstatus.
Definition w_mepc := csrw Mepc.
Definition r_sstatus := csrr Sstatus.
Definition w_sstatus := csrw Sstatus.
Definition r_sip := csrr Sip.
Definition w_sip := csrw Sip.
Definition r_sie := csrr Sie.
Definition w_sie := csrw Sie.
Definition r_mie := csrr Mie.
Definition w_mie := csrw Mie.
Definition w_sepc := csrw Sepc.
Definition r_sepc := csrr Sepc.
Definition w_medeleg := csrw Medeleg.
Definition w_mideleg := csrw Mideleg.
Definition w_stvec := csrw Stvec.
Definition w_mtvec := csrw Mtvec.
Definition w_satp := csrw Satp.
Definition r_satp := csrr Satp.
Definition w_mscratch := csrw Mscratch.
Definition r_scause := csrr Scause.
Definition r_stval := csrr Stval.
Definition r_tp := csrr Tp.
Definition w_tp := csrw Tp.

Definition intr_on : M csrs unit := let! x := r_sstatus in w_sstatus (Z.lor x SSTATUS_SIE).
Definition intr_off : M csrs unit := let! x := r_sstatus in w_sstatus (Z.land x (Z.lnot SSTATUS_SIE)).
Definition intr_get : M csrs bool := let! x := r_sstatus in mret_ (negb (Z.land x SSTATUS_SIE =? 0)).

(** ** kernel/start.c *)

(** A hart in machine mode: its registers, memory with the registers of the CLINT,
    and where [mret] has gone to. *)
Record hart := Hart { h_csr : csrs; h_mem : memory; h_pc : option Z }.
#[global] Instance hart_csr : Lens hart csrs.
Proof. refine {| lget := h_csr; lput := fun x s => {| h_csr := x; h_mem := h_mem s; h_pc := h_pc s |} |}; lens_laws hart. Defined.

Definition CLINT_MTIMECMP (hartid : Z) : Z := CLINT + 0x4000 + 8 * hartid.
Definition CLINT_MTIME : Z := CLINT + 0xBFF8.

Section Start.
(** The addresses of [main], [timervec] and [mscratch0]. *)
Context (main timervec mscratch0 : Z).
Abbreviation H := (M hart).

Definition h_load64 (a : Z) : H Z := gets (fun s => load64 (h_mem s) a).
Definition h_store64 (a v : Z) : H unit := modify (fun s => {| h_csr := h_csr s; h_mem := store64 (h_mem s) a (u64 v); h_pc := h_pc s |}).

Definition timerinit : H unit :=
  let! x := zoom r_mhartid in
  let id := s32 x in
  let interval := 1000000 in
  let! now := h_load64 CLINT_MTIME in
  h_store64 (CLINT_MTIMECMP id) (now + interval) ;;
  let scratch := mscratch0 + 8 * (32 * id) in
  h_store64 (scratch + 8 * 4) (CLINT_MTIMECMP id) ;;
  h_store64 (scratch + 8 * 5) interval ;;
  zoom (w_mscratch scratch) ;;
  zoom (w_mtvec timervec) ;;
  zoom (let! x := r_mstatus in w_mstatus (Z.lor x MSTATUS_MIE)) ;;
  zoom (let! x := r_mie in w_mie (Z.lor x MIE_MTIE)).

(** [mret]: execution goes on at [mepc]. *)
Definition mret : H unit := modify (fun s => {| h_csr := h_csr s; h_mem := h_mem s; h_pc := Some (h_csr s Mepc) |}).

Definition start : H unit :=
  let! x := zoom r_mstatus in
  zoom (w_mstatus (Z.lor (Z.land x (Z.lnot MSTATUS_MPP_MASK)) MSTATUS_MPP_S)) ;;
  zoom (w_mepc main) ;;
  zoom (w_satp 0) ;;
  zoom (w_medeleg 0xffff) ;;
  zoom (w_mideleg 0xffff) ;;
  zoom (let! x := r_sie in w_sie (Z.lor (Z.lor (Z.lor x SIE_SEIE) SIE_STIE) SIE_SSIE)) ;;
  timerinit ;;
  let! x := zoom r_mhartid in
  zoom (w_tp (s32 x)) ;;
  mret.
End Start.
