(* ===== verification/Sync.v ===== *)
(** What the rest of the kernel relies on from kernel/spinlock.c and from
    [sleep] in kernel/proc.c: the abstract interface of locking.

    A thread of kernel code holds a set of spin locks.  [acquire] adds a lock
    and panics when this CPU already holds it, [release] takes it away and
    panics when it is not held, [sleep] gives up the one lock held, waits on a
    channel and takes the lock back.  File Spinlock shows that the code of
    kernel/spinlock.c, run on several CPUs, implements [acquire] and [release]. *)

From S2P Require Import Prelude.

(** The spin locks of the kernel. *)
Inductive lock_id : Type :=
| LKmem                      (* kmem.lock *)
| LPid                       (* pid_lock *)
| LProc (i : nat)            (* proc[i].lock *)
| LBcache                    (* bcache.lock *)
| LBuf (i : nat)             (* bcache.buf[i].lock.lk *)
| LLog                       (* log.lock *)
| LIcache                    (* icache.lock *)
| LInode (i : nat)           (* icache.inode[i].lock.lk *)
| LFtable                    (* ftable.lock *)
| LPipe (pi : Z)             (* pi->lock *)
| LTicks                     (* tickslock *)
| LCons                      (* cons.lock *)
| LUartTx                    (* uart_tx_lock *)
| LVdisk                     (* disk.vdisk_lock *)
| LPr.                       (* pr.lock *)

#[global] Instance lock_id_eq_dec : EqDecision lock_id.
Proof. solve_decision. Defined.

Definition lock_code (l : lock_id) : Z * Z :=
  match l with
  | LKmem => (0, 0) | LPid => (1, 0) | LProc i => (2, Z.of_nat i) | LBcache => (3, 0)
  | LBuf i => (4, Z.of_nat i) | LLog => (5, 0) | LIcache => (6, 0)
  | LInode i => (7, Z.of_nat i) | LFtable => (8, 0) | LPipe p => (9, p) | LTicks => (10, 0)
  | LCons => (11, 0) | LUartTx => (12, 0) | LVdisk => (13, 0) | LPr => (14, 0)
  end.

Definition lock_decode (c : Z * Z) : lock_id :=
  match c with
  | (0, _) => LKmem | (1, _) => LPid | (2, i) => LProc (Z.to_nat i) | (3, _) => LBcache
  | (4, i) => LBuf (Z.to_nat i) | (5, _) => LLog | (6, _) => LIcache
  | (7, i) => LInode (Z.to_nat i) | (8, _) => LFtable | (9, p) => LPipe p | (10, _) => LTicks
  | (11, _) => LCons | (12, _) => LUartTx | (13, _) => LVdisk | (_, _) => LPr
  end.

#[global] Instance lock_id_countable : Countable lock_id.
Proof.
  refine (inj_countable' lock_code lock_decode _).
  intros []; cbn; rewrite ?Nat2Z.id; done.
Defined.

Abbreviation lockset := (gset lock_id).

Section Locking.
Context {S : Type} `{Lens S lockset}.

Definition holding (lk : lock_id) (s : S) : bool := bool_decide (lk ∈ lget s).

(** [initlock] leaves the lock free. *)
Definition initlock (lk : lock_id) : M S unit := modify (fun s => lput (lget s ∖ {[lk]}) s).

Definition acquire (lk : lock_id) : M S unit := fun s =>
  if holding lk s then Panic "acquire" else Ret tt (lput ({[lk]} ∪ lget s) s).

Definition release (lk : lock_id) : M S unit := fun s =>
  if holding lk s then Ret tt (lput (lget s ∖ {[lk]}) s) else Panic "release".

(** [sleep(chan, lk)]: [sched] insists that no other lock is held; while the
    thread is asleep it holds none. *)
Definition sleep (c : chan) (lk : lock_id) : M S unit := fun s =>
  if negb (holding lk s) then Panic "release"
  else if bool_decide (lget s = {[lk]})
  then Sleep c (lput ∅ s) (fun s' => acquire lk s')
  else Panic "sched locks".

Lemma acquire_ok lk s :
  lk ∉ lget s -> acquire lk s = Ret tt (lput ({[lk]} ∪ lget s) s).
Proof. intros. unfold acquire, holding. by rewrite bool_decide_false. Qed.

Lemma acquire_held lk s : lk ∈ lget s -> acquire lk s = Panic "acquire".
Proof. intros. unfold acquire, holding. by rewrite bool_decide_true. Qed.

Lemma release_ok lk s :
  lk ∈ lget s -> release lk s = Ret tt (lput (lget s ∖ {[lk]}) s).
Proof. intros. unfold release, holding. by rewrite bool_decide_true. Qed.

Lemma sleep_ok c lk s :
  lget s = {[lk]} ->
  sleep c lk s = Sleep c (lput ∅ s) (fun s' => acquire lk s').
Proof.
  intros Hs. unfold sleep, holding. rewrite Hs.
  rewrite (bool_decide_true (lk ∈ _)) by set_solver.
  by rewrite (bool_decide_true (_ = _)).
Qed.
End Locking.

Lemma lockset_add_del (lk : lock_id) (h : lockset) : lk ∉ h -> ({[lk]} ∪ h) ∖ {[lk]} = h.
Proof. intros. set_solver. Qed.

Lemma lockset_in_add (lk : lock_id) (h : lockset) : lk ∈ ({[lk]} ∪ h : lockset).
Proof. set_solver. Qed.

(** [wakeup(chan)]: the channels are recorded, the latest first.  A sleeper that
    is woken runs again when the scheduler picks it: its continuation may be
    called in any state the other threads have produced by then. *)
Definition wakeup {S} `{Lens S (list chan)} (c : chan) : M S unit :=
  modify (fun s => lput (c :: (lget s : list chan)) s).

(** The set of held locks as a state of its own. *)
#[global] Instance lens_lockset : Lens lockset lockset.
Proof. refine {| lget := fun s => s; lput := fun x _ => x |}; done. Defined.

(** A bound on how often one wait may be woken in vain. *)
Class Wakeups := max_wakeups : nat.
