(* ===== verification/Spinlock.v ===== *)
(** kernel/spinlock.c on a multiprocessor.

    [push_off] and [pop_off] are functions on a CPU's own state (the fields
    [noff] and [intena] of [struct cpu] and the hart's [sstatus]).  [acquire]
    and [release] are programs of several atomic steps, each CPU having a
    program counter; the steps of different CPUs interleave arbitrarily, which
    assumes the memory order that the [__sync_synchronize] fences ask for.
    The ghost set [crit c] holds the locks whose [acquire] has completed on
    CPU [c] and whose [release] has not begun. *)

From S2P Require Import Prelude Riscv Sync.

(** [struct spinlock] of kernel/spinlock.h; [lcpu] is the CPU pointer, 0 as [None]. *)
Record spinlock := Spin { locked : Z; lname : string; lcpu : option nat }.

(** The part of [struct cpu] (kernel/proc.h) locking uses, with the hart's
    [sstatus] register. *)
Record cpu := Cpu { noff : Z; intena : bool; sstatus : Z }.

Definition spin_initlock (name : string) : spinlock :=
  {| locked := 0; lname := name; lcpu := None |}.

(** Two loads; that [lk->cpu] is this CPU is true only by what this CPU itself has
    stored there, so that it does not matter what others do between them. *)
Definition spin_holding (lk : spinlock) (mycpu : nat) : bool :=
  negb (locked lk =? 0) && bool_decide (lcpu lk = Some mycpu).

Definition push_off (c : cpu) : cpu :=
  let old := intr_get (sstatus c) in
  let c1 := {| noff := noff c; intena := intena c; sstatus := intr_off (sstatus c) |} in
  let c2 := if noff c1 =? 0
            then {| noff := noff c1; intena := old; sstatus := sstatus c1 |} else c1 in
  {| noff := noff c2 + 1; intena := intena c2; sstatus := sstatus c2 |}.

Definition pop_off (c : cpu) : string + cpu :=
  if intr_get (sstatus c) then inl "pop_off - interruptible"%string
  else if noff c <? 1 then inl "pop_off"%string
  else
    let c1 := {| noff := noff c - 1; intena := intena c; sstatus := sstatus c |} in
    if (noff c1 =? 0) && intena c1
    then inr {| noff := noff c1; intena := intena c1; sstatus := intr_on (sstatus c1) |}
    else inr c1.

(** Where a CPU is inside [acquire] or [release]. *)
Inductive pc : Type :=
| PcIdle
| PcAcqCheck (lk : lock_id)     (* push_off() done; if(holding(lk)) panic *)
| PcAcqSpin (lk : lock_id)      (* while(__sync_lock_test_and_set(&lk->locked, 1) != 0) *)
| PcAcqSetCpu (lk : lock_id)    (* lk->cpu = mycpu() *)
| PcRelClear (lk : lock_id)     (* lk->cpu = 0 *)
| PcRelUnlock (lk : lock_id)    (* __sync_lock_release(&lk->locked) *)
| PcRelPop (lk : lock_id)       (* pop_off() *)
| PcPanic (msg : string).

Record config := Config {
  cpus : nat -> cpu;
  lks : lock_id -> spinlock;
  pcs : nat -> pc;
  crit : nat -> lockset;        (* ghost *)
}.

Definition set_pc (c : nat) (p : pc) (σ : config) : config :=
  {| cpus := cpus σ; lks := lks σ; pcs := <[c := p]> (pcs σ); crit := crit σ |}.
Definition set_lock (l : lock_id) (x : spinlock) (σ : config) : config :=
  {| cpus := cpus σ; lks := <[l := x]> (lks σ); pcs := pcs σ; crit := crit σ |}.
Definition set_cpu (c : nat) (x : cpu) (σ : config) : config :=
  {| cpus := <[c := x]> (cpus σ); lks := lks σ; pcs := pcs σ; crit := crit σ |}.
Definition set_crit (c : nat) (x : lockset) (σ : config) : config :=
  {| cpus := cpus σ; lks := lks σ; pcs := pcs σ; crit := <[c := x]> (crit σ) |}.

(** CPU [c] calls [acquire(lk)]: its first statement. *)
Definition acquire_start (c : nat) (lk : lock_id) (σ : config) : config :=
  set_pc c (PcAcqCheck lk) (set_cpu c (push_off (cpus σ c)) σ).

(** One atomic step of the rest of [acquire]. *)
Definition acquire_step (c : nat) (σ : config) : config :=
  match pcs σ c with
  | PcAcqCheck lk =>
      if spin_holding (lks σ lk) c then set_pc c (PcPanic "acquire") σ
      else set_pc c (PcAcqSpin lk) σ
  | PcAcqSpin lk =>
      let x := lks σ lk in
      let σ' := set_lock lk {| locked := 1; lname := lname x; lcpu := lcpu x |} σ in
      if negb (locked x =? 0) then σ' else set_pc c (PcAcqSetCpu lk) σ'
  | PcAcqSetCpu lk =>
      let x := lks σ lk in
      set_crit c ({[lk]} ∪ crit σ c)
        (set_pc c PcIdle (set_lock lk {| locked := locked x; lname := lname x; lcpu := Some c |} σ))
  | _ => σ
  end.

(** CPU [c] calls [release(lk)]: the check. *)
Definition release_start (c : nat) (lk : lock_id) (σ : config) : config :=
  if negb (spin_holding (lks σ lk) c) then set_pc c (PcPanic "release") σ
  else set_crit c (crit σ c ∖ {[lk]}) (set_pc c (PcRelClear lk) σ).

(** One atomic step of the rest of [release]. *)
Definition release_step (c : nat) (σ : config) : config :=
  match pcs σ c with
  | PcRelClear lk =>
      let x := lks σ lk in
      set_pc c (PcRelUnlock lk) (set_lock lk {| locked := locked x; lname := lname x; lcpu := None |} σ)
  | PcRelUnlock lk =>
      let x := lks σ lk in
      set_pc c (PcRelPop lk) (set_lock lk {| locked := 0; lname := lname x; lcpu := lcpu x |} σ)
  | PcRelPop lk =>
      match pop_off (cpus σ c) with
      | inl msg => set_pc c (PcPanic msg) σ
      | inr x => set_pc c PcIdle (set_cpu c x σ)
      end
  | _ => σ
  end.

Definition in_acquire (p : pc) : bool :=
  match p with PcAcqCheck _ | PcAcqSpin _ | PcAcqSetCpu _ => true | _ => false end.
Definition in_release (p : pc) : bool :=
  match p with PcRelClear _ | PcRelUnlock _ | PcRelPop _ => true | _ => false end.

(** Any CPU may move at any time. *)
Inductive step : config -> config -> Prop :=
| step_acquire_start σ c lk : pcs σ c = PcIdle -> step σ (acquire_start c lk σ)
| step_acquire σ c : in_acquire (pcs σ c) = true -> step σ (acquire_step c σ)
| step_release_start σ c lk : pcs σ c = PcIdle -> step σ (release_start c lk σ)
| step_release σ c : in_release (pcs σ c) = true -> step σ (release_step c σ)
| step_intr σ c (on : bool) :   (* intr_on()/intr_off() with no lock held *)
    pcs σ c = PcIdle -> crit σ c = ∅ ->
    step σ (set_cpu c {| noff := noff (cpus σ c); intena := intena (cpus σ c);
                         sstatus := if on then intr_on (sstatus (cpus σ c))
                                    else intr_off (sstatus (cpus σ c)) |} σ).

Definition initial (σ : config) : Prop :=
  (forall c, pcs σ c = PcIdle /\ crit σ c = ∅ /\ noff (cpus σ c) = 0) /\
  (forall l, exists name, lks σ l = spin_initlock name).

Inductive reachable : config -> Prop :=
| reach_init σ : initial σ -> reachable σ
| reach_step σ σ' : reachable σ -> step σ σ' -> reachable σ'.

(** ** push_off / pop_off *)

Lemma push_off_facts c :
  noff (push_off c) = noff c + 1 /\ intr_get (sstatus (push_off c)) = false /\
  intena (push_off c) = (if noff c =? 0 then intr_get (sstatus c) else intena c) /\
  sstatus (push_off c) = intr_off (sstatus c).
Proof. unfold push_off. cbn. destruct (noff c =? 0); cbn; rewrite intr_get_off; done. Qed.

Lemma pop_off_ok c :
  intr_get (sstatus c) = false -> 1 <= noff c ->
  exists c', pop_off c = inr c' /\ noff c' = noff c - 1 /\ intena c' = intena c /\
    sstatus c' = if (noff c =? 1) && intena c then intr_on (sstatus c) else sstatus c.
Proof.
  intros Hi Hn. unfold pop_off. rewrite Hi. cbn. destruct (Z.ltb_spec (noff c) 1); [lia|].
  replace (noff c - 1 =? 0) with (noff c =? 1) by lia.
  destruct ((noff c =? 1) && intena c) eqn:E; eexists; split_and!; done.
Qed.

(** ** The invariant *)

Definition pc_owns (p : pc) (lk : lock_id) : Prop :=
  match p with PcAcqSetCpu l | PcRelClear l | PcRelUnlock l => l = lk | _ => False end.
Definition pc_clears (p : pc) (lk : lock_id) : Prop :=
  match p with PcRelClear l => l = lk | _ => False end.
Definition pc_outside (p : pc) (lk : lock_id) : Prop :=
  match p with PcAcqSpin l | PcAcqSetCpu l | PcRelClear l | PcRelUnlock l => l = lk | _ => False end.
Definition pc_panicked (p : pc) : Prop := match p with PcPanic _ => True | _ => False end.
Definition pending (p : pc) : Z := match p with PcIdle => 0 | _ => 1 end.

(** CPU [c] has won the test-and-set of [lk] and not yet undone it. *)
Definition own (σ : config) (c : nat) (lk : lock_id) : Prop :=
  lk ∈ crit σ c \/ pc_owns (pcs σ c) lk.

Record inv (σ : config) : Prop := {
  inv_excl : forall c1 c2 lk, own σ c1 lk -> own σ c2 lk -> c1 = c2;
  inv_locked : forall lk, locked (lks σ lk) <> 0 <-> exists c, own σ c lk;
  inv_cpu : forall lk c, lcpu (lks σ lk) = Some c <-> lk ∈ crit σ c \/ pc_clears (pcs σ c) lk;
  inv_out : forall c lk, pc_outside (pcs σ c) lk -> lk ∉ crit σ c;
  inv_noff : forall c, pc_panicked (pcs σ c) \/
               noff (cpus σ c) = Z.of_nat (size (crit σ c)) + pending (pcs σ c);
  inv_intr : forall c, 0 < noff (cpus σ c) -> intr_get (sstatus (cpus σ c)) = false;
}.

Lemma inv_initial σ : initial σ -> inv σ.
Proof.
  intros [Hc Hl]. unfold initial in *.
  assert (Hno : forall c lk, ~ own σ c lk).
  { intros c lk. destruct (Hc c) as (Hp & Hs & _). unfold own. rewrite Hp, Hs. set_solver. }
  split.
  - intros c1 c2 lk H. by apply Hno in H.
  - intros lk. destruct (Hl lk) as [n ->]. cbn. split; [done|]. intros [c H]. by apply Hno in H.
  - intros lk c. destruct (Hl lk) as [n ->]. destruct (Hc c) as (Hp & Hs & _).
    rewrite Hp, Hs. cbn. set_solver.
  - intros c lk. destruct (Hc c) as (Hp & Hs & _). rewrite Hp. done.
  - intros c. destruct (Hc c) as (Hp & Hs & Hn). right. rewrite Hp, Hs, Hn. done.
  - intros c. destruct (Hc c) as (Hp & Hs & Hn). lia.
Qed.

(** [holding] reads [lk->locked] and [lk->cpu] without synchronisation; the
    invariant makes its answer exact for a CPU that is not releasing. *)
Lemma holding_spec σ c lk :
  inv σ -> in_release (pcs σ c) = false ->
  spin_holding (lks σ lk) c = bool_decide (lk ∈ crit σ c).
Proof.
  intros [_ Hl Hc _ _ _] Hr. unfold spin_holding.
  destruct (bool_decide_reflect (lk ∈ crit σ c)) as [Hin|Hin].
  - rewrite bool_decide_true by (apply Hc; auto). rewrite andb_true_r.
    destruct (Z.eqb_spec (locked (lks σ lk)) 0) as [E|]; [|done].
    exfalso. assert (locked (lks σ lk) <> 0) by (apply Hl; exists c; left; done). done.
  - rewrite bool_decide_false; [apply andb_false_r|].
    intros [?|E]%Hc; [done|]. by destruct (pcs σ c).
Qed.

(** Unfold the updates of a step and case on whether an index is the updated one. *)
Ltac upd := unfold own, acquire_start in *;
  cbn [set_pc set_lock set_cpu set_crit cpus lks pcs crit] in *;
  unfold insert, fn_insert in *.

(** A step of CPU [c] that leaves the locks and the critical sections alone and
    does not change what [c] owns keeps the invariant. *)
Lemma inv_local σ σ' c :
  inv σ -> crit σ' = crit σ -> lks σ' = lks σ ->
  (forall c', c' <> c -> pcs σ' c' = pcs σ c' /\ cpus σ' c' = cpus σ c') ->
  (forall lk, pc_owns (pcs σ' c) lk <-> pc_owns (pcs σ c) lk) ->
  (forall lk, pc_clears (pcs σ' c) lk <-> pc_clears (pcs σ c) lk) ->
  (forall lk, pc_outside (pcs σ' c) lk -> lk ∉ crit σ c) ->
  (pc_panicked (pcs σ' c) \/
   noff (cpus σ' c) = Z.of_nat (size (crit σ c)) + pending (pcs σ' c)) ->
  (0 < noff (cpus σ' c) -> intr_get (sstatus (cpus σ' c)) = false) ->
  inv σ'.
Proof.
  intros [He Hl Hc Ho Hn Hi] Ecr Elk Eoth Hown Hcl Hout Hx1 Hx2.
  assert (Hsame : forall c' lk, own σ' c' lk <-> own σ c' lk).
  { intros c' lk. unfold own. rewrite Ecr. destruct (decide (c' = c)) as [->|Hne].
    - by rewrite Hown.
    - by destruct (Eoth c' Hne) as [-> _]. }
  split; rewrite ?Ecr, ?Elk.
  - intros c1 c2 lk H1%Hsame H2%Hsame. by eapply He.
  - intros lk. rewrite Hl. split; intros [c' H']; exists c'; by apply Hsame.
  - intros lk c'. rewrite Hc. destruct (decide (c' = c)) as [->|Hne].
    + by rewrite Hcl.
    + by destruct (Eoth c' Hne) as [-> _].
  - intros c' lk. destruct (decide (c' = c)) as [->|Hne]; [apply Hout|].
    destruct (Eoth c' Hne) as [-> _]. apply Ho.
  - intros c'. destruct (decide (c' = c)) as [->|Hne]; [done|].
    destruct (Eoth c' Hne) as [-> ->]. apply Hn.
  - intros c'. destruct (decide (c' = c)) as [->|Hne]; [done|].
    destruct (Eoth c' Hne) as [_ ->]. apply Hi.
Qed.

Ltac upd_ne := let c' := fresh "c'" in let H := fresh "Hne" in
  intros c' H; upd; rewrite ?decide_False by done; done.

Lemma inv_acquire_start σ c lk :
  inv σ -> pcs σ c = PcIdle -> inv (acquire_start c lk σ).
Proof.
  intros Hinv Hp. destruct (push_off_facts (cpus σ c)) as (Pn & Pi & _).
  eapply (inv_local σ _ c); [done|done|done|upd_ne| | | | |]; upd;
    rewrite ?decide_True, ?Hp by done; try done.
  right. rewrite Pn. destruct (inv_noff _ Hinv c) as [Hpan| ->]; rewrite Hp in *; cbn in *; [done|lia].
Qed.

Lemma inv_intr_step σ c (on : bool) :
  inv σ -> pcs σ c = PcIdle -> crit σ c = ∅ ->
  inv (set_cpu c {| noff := noff (cpus σ c); intena := intena (cpus σ c);
                    sstatus := if on then intr_on (sstatus (cpus σ c))
                               else intr_off (sstatus (cpus σ c)) |} σ).
Proof.
  intros Hinv Hp Hcr.
  destruct (inv_noff _ Hinv c) as [Hpan|Hn]; rewrite Hp in *; cbn in *; [done|].
  rewrite Hcr, size_empty in Hn.
  eapply (inv_local σ _ c); [done|done|done|upd_ne| | | | |]; upd;
    rewrite ?decide_True, ?Hp by done; cbn; try done.
  - right. by rewrite Hcr, size_empty.
  - lia.
Qed.

Lemma inv_acquire_check σ c lk :
  inv σ -> pcs σ c = PcAcqCheck lk ->
  inv (if spin_holding (lks σ lk) c then set_pc c (PcPanic "acquire") σ
       else set_pc c (PcAcqSpin lk) σ).
Proof.
  intros Hinv Hp. rewrite holding_spec by (rewrite ?Hp; done).
  pose proof (inv_noff _ Hinv c) as Hn. pose proof (inv_intr _ Hinv c).
  case_bool_decide; (eapply (inv_local σ _ c); [done|done|done|upd_ne| | | | |]; upd;
    rewrite ?decide_True, ?Hp in * by done; cbn in *; try done).
  - by left.
  - intros ? ->. done.
Qed.

Lemma inv_acquire_spin σ c lk :
  inv σ -> pcs σ c = PcAcqSpin lk -> inv (acquire_step c σ).
Proof.
  intros Hinv Hp. unfold acquire_step. rewrite Hp. destruct Hinv as [He Hl Hc Ho Hn Hi].
  assert (Hcp : forall l, lcpu (lks (set_lock lk {| locked := 1; lname := lname (lks σ lk);
                     lcpu := lcpu (lks σ lk) |} σ) l) = lcpu (lks σ l)).
  { intros l. upd. case_decide; by subst. }
  destruct (Z.eqb_spec (locked (lks σ lk)) 0) as [E0|E0]; cbn [negb].
  - assert (Hfree : forall c', ~ own σ c' lk).
    { intros c' Hown. assert (locked (lks σ lk) <> 0) by (apply Hl; eauto). done. }
    assert (Hown : forall c' l, own (set_pc c (PcAcqSetCpu lk) (set_lock lk {| locked := 1;
       lname := lname (lks σ lk); lcpu := lcpu (lks σ lk) |} σ)) c' l <->
       own σ c' l \/ (c' = c /\ l = lk)).
    { intros c' l. upd. case_decide; subst; [rewrite Hp; cbn|]; intuition congruence. }
    split.
    + intros c1 c2 l H1%Hown H2%Hown.
      destruct H1 as [H1|[E1 E2]], H2 as [H2|[E3 E4]]; subst; try done.
      * by eapply He.
      * by apply Hfree in H1.
      * by apply Hfree in H2.
    + intros l. setoid_rewrite Hown. upd. case_decide; subst; cbn.
      * split; [intros _; exists c; auto|done].
      * rewrite Hl. split; intros [c' H']; exists c'; [auto|]. destruct H' as [?|[_ ->]]; done.
    + intros l c'. cbn [lks set_pc]. rewrite Hcp, Hc. upd. case_decide; subst; [rewrite Hp|]; done.
    + intros c' l. upd. case_decide; subst; cbn; [|apply Ho]. intros ->. apply Ho. by rewrite Hp.
    + intros c'. upd. case_decide; subst; [|apply Hn]. specialize (Hn c'). rewrite Hp in Hn. done.
    + done.
  - split; cbn [pcs crit cpus set_lock]; try done.
    + intros l. upd. case_decide; subst; cbn; [|apply Hl]. rewrite <- Hl. done.
    + intros l c'. rewrite Hcp. apply Hc.
Qed.

Lemma inv_acquire_setcpu σ c lk :
  inv σ -> pcs σ c = PcAcqSetCpu lk -> inv (acquire_step c σ).
Proof.
  intros Hinv Hp. unfold acquire_step. rewrite Hp. destruct Hinv as [He Hl Hc Ho Hn Hi].
  assert (Hlk : own σ c lk) by (right; rewrite Hp; done).
  assert (Hout : lk ∉ crit σ c) by (apply Ho; rewrite Hp; done).
  set (σ' := set_crit _ _ _).
  assert (Hown : forall c' l, own σ' c' l <-> own σ c' l).
  { intros c' l. subst σ'. upd. case_decide; subst; [|done]. rewrite Hp. cbn. set_solver. }
  split.
  - intros c1 c2 l H1%Hown H2%Hown. by eapply He.
  - intros l. setoid_rewrite Hown. rewrite <- Hl. subst σ'. upd. case_decide; by subst.
  - intros l c'. subst σ'. upd. destruct (decide (lk = l)) as [->|Hne]; cbn.
    + split.
      * intros [= ->]. rewrite decide_True by done. set_solver.
      * intros H. f_equal. case_decide; [done|]. apply (He c c' l); [done|].
        unfold own. destruct H as [?|H]; [auto|]. right. by destruct (pcs σ c').
    + rewrite Hc. case_decide; subst; [rewrite Hp; cbn; set_solver|done].
  - intros c' l. subst σ'. upd. case_decide; subst; [done|apply Ho].
  - intros c'. subst σ'. upd. case_decide; subst; [|apply Hn]. specialize (Hn c'). rewrite Hp in Hn.
    destruct Hn as [[]|Hn]. right. rewrite size_union by set_solver. rewrite size_singleton. cbn in *. lia.
  - done.
Qed.

Lemma inv_release_start σ c lk :
  inv σ -> pcs σ c = PcIdle -> inv (release_start c lk σ).
Proof.
  intros Hinv Hp. unfold release_start. rewrite holding_spec by (rewrite ?Hp; done).
  case_bool_decide as Hin; cbn [negb].
  - destruct Hinv as [He Hl Hc Ho Hn Hi]. set (σ' := set_crit _ _ _).
    assert (Hown : forall c' l, own σ' c' l <-> own σ c' l).
    { intros c' l. subst σ'. upd. case_decide; subst; [|done]. rewrite Hp. cbn.
      destruct (decide (l = lk)); set_solver. }
    split.
    + intros c1 c2 l H1%Hown H2%Hown. by eapply He.
    + intros l. setoid_rewrite Hown. apply Hl.
    + intros l c'. subst σ'. upd. rewrite Hc. case_decide; subst; [|done].
      rewrite Hp. cbn. destruct (decide (l = lk)); set_solver.
    + intros c' l. subst σ'. upd. case_decide; subst; [|apply Ho]. cbn. set_solver.
    + intros c'. subst σ'. upd. case_decide; subst; [|apply Hn]. specialize (Hn c'). rewrite Hp in Hn.
      destruct Hn as [[]|Hn]. right. cbn in *. rewrite size_difference by set_solver.
      rewrite size_singleton. assert (size (crit σ c') <> 0)%nat; [|lia].
      rewrite size_non_empty_iff. set_solver.
    + done.
  - pose proof (inv_intr _ Hinv c).
    eapply (inv_local σ _ c); [done|done|done|upd_ne| | | | |]; upd;
      rewrite ?decide_True, ?Hp by done; cbn; try done. by left.
Qed.

Lemma inv_release_clear σ c lk :
  inv σ -> pcs σ c = PcRelClear lk -> inv (release_step c σ).
Proof.
  intros Hinv Hp. unfold release_step. rewrite Hp. destruct Hinv as [He Hl Hc Ho Hn Hi].
  assert (Hlk : own σ c lk) by (right; rewrite Hp; done).
  assert (Hout : lk ∉ crit σ c) by (apply Ho; rewrite Hp; done).
  set (σ' := set_pc _ _ _).
  assert (Hown : forall c' l, own σ' c' l <-> own σ c' l).
  { intros c' l. subst σ'. upd. case_decide; subst; [|done]. by rewrite Hp. }
  split.
  - intros c1 c2 l H1%Hown H2%Hown. by eapply He.
  - intros l. setoid_rewrite Hown. rewrite <- Hl. subst σ'. upd. case_decide; by subst.
  - intros l c'. subst σ'. upd. destruct (decide (lk = l)) as [->|Hne]; cbn.
    + split; [done|]. intros H. exfalso. case_decide as Hcc; [subst; cbn in H; set_solver|].
      apply Hcc. apply (He c c' l); [done|]. destruct H as [?|H]; [by left|right].
      by destruct (pcs σ c').
    + rewrite Hc. case_decide; subst; [|done]. rewrite Hp. cbn. intuition congruence.
  - intros c' l. subst σ'. upd. case_decide; subst; cbn; [|apply Ho]. by intros <-.
  - intros c'. subst σ'. upd. case_decide; subst; [|apply Hn]. specialize (Hn c'). by rewrite Hp in Hn.
  - done.
Qed.

Lemma inv_release_unlock σ c lk :
  inv σ -> pcs σ c = PcRelUnlock lk -> inv (release_step c σ).
Proof.
  intros Hinv Hp. unfold release_step. rewrite Hp. destruct Hinv as [He Hl Hc Ho Hn Hi].
  assert (Hlk : own σ c lk) by (right; rewrite Hp; done).
  assert (Hout : lk ∉ crit σ c) by (apply Ho; rewrite Hp; done).
  set (σ' := set_pc _ _ _).
  assert (Hown : forall c' l, own σ' c' l <-> own σ c' l /\ l <> lk).
  { intros c' l. subst σ'. upd. case_decide as Hcc; subst.
    - rewrite Hp. cbn. split; [intros [?|[]]; split; [auto|]; by intros -> | intuition congruence].
    - split; [|tauto]. intros H. split; [done|]. intros ->. apply Hcc. by apply (He c c' lk). }
  split.
  - intros c1 c2 l [H1 _]%Hown [H2 _]%Hown. by eapply He.
  - intros l. setoid_rewrite Hown. subst σ'. upd. destruct (decide (lk = l)) as [->|Hne]; cbn.
    + split; [done|]. intros (? & _ & ?). done.
    + rewrite Hl. split; intros [c' H']; exists c'; [|tauto]. split; [done|congruence].
  - intros l c'. transitivity (lcpu (lks σ l) = Some c').
    { subst σ'. upd. case_decide; by subst. }
    rewrite Hc. subst σ'. upd. case_decide; subst; [rewrite Hp|]; done.
  - intros c' l. subst σ'. upd. case_decide; subst; [done|apply Ho].
  - intros c'. subst σ'. upd. case_decide; subst; [|apply Hn]. specialize (Hn c'). by rewrite Hp in Hn.
  - done.
Qed.

(** [pop_off] at the end of [release] cannot panic. *)
Lemma release_pop_ok σ c lk :
  inv σ -> pcs σ c = PcRelPop lk ->
  exists x, pop_off (cpus σ c) = inr x /\ noff x = noff (cpus σ c) - 1 /\
    noff x = Z.of_nat (size (crit σ c)) /\
    sstatus x = if (noff (cpus σ c) =? 1) && intena (cpus σ c)
                then intr_on (sstatus (cpus σ c)) else sstatus (cpus σ c).
Proof.
  intros Hinv Hp. destruct (inv_noff _ Hinv c) as [Hf|Hn]; rewrite Hp in *; [done|]. cbn in Hn.
  destruct (pop_off_ok (cpus σ c)) as (x & H1 & H2 & H3 & H4);
    [apply (inv_intr _ Hinv); lia | lia |].
  exists x. split_and!; [done|done|lia|done].
Qed.

Lemma inv_release_pop σ c lk :
  inv σ -> pcs σ c = PcRelPop lk -> inv (release_step c σ).
Proof.
  intros Hinv Hp. destruct (release_pop_ok σ c lk Hinv Hp) as (x & Hx & Hn & Hs & Hst).
  unfold release_step. rewrite Hp, Hx.
  pose proof (inv_intr _ Hinv c) as Hi.
  eapply (inv_local σ _ c); [done|done|done|upd_ne| | | | |]; upd;
    rewrite ?decide_True, ?Hp by done; cbn; try done.
  - right. lia.
  - intros H. rewrite Hst. destruct (Z.eqb_spec (noff (cpus σ c)) 1); [lia|]. cbn. apply Hi. lia.
Qed.

Lemma inv_step σ σ' : inv σ -> step σ σ' -> inv σ'.
Proof.
  intros Hinv Hs. destruct Hs as [σ c lk Hp|σ c Hp|σ c lk Hp|σ c Hp|σ c on Hp Hcr].
  - by apply inv_acquire_start.
  - destruct (pcs σ c) eqn:E; try done.
    + unfold acquire_step. rewrite E. by apply inv_acquire_check.
    + by eapply inv_acquire_spin.
    + by eapply inv_acquire_setcpu.
  - by apply inv_release_start.
  - destruct (pcs σ c) eqn:E; try done.
    + by eapply inv_release_clear.
    + by eapply inv_release_unlock.
    + by eapply inv_release_pop.
  - by apply inv_intr_step.
Qed.

Lemma inv_reachable σ : reachable σ -> inv σ.
Proof. induction 1; eauto using inv_initial, inv_step. Qed.

(** ** Correctness *)

(** What a step of an execution may do to the locks the CPUs hold, in terms of
    the abstract operations of file Sync. *)
Definition refines_step (σ σ' : config) : Prop :=
  (crit σ' = crit σ /\ (forall c msg, pcs σ' c = PcPanic msg -> pcs σ c = PcPanic msg)) \/
  (exists c lk, (forall c', lk ∉ crit σ c') /\ acquire lk (crit σ c) = Ret tt (crit σ' c) /\
     forall c', c' <> c -> crit σ' c' = crit σ c') \/
  (exists c lk, release lk (crit σ c) = Ret tt (crit σ' c) /\
     forall c', c' <> c -> crit σ' c' = crit σ c') \/
  (exists c lk msg, crit σ' = crit σ /\ pcs σ' c = PcPanic msg /\
     (acquire lk (crit σ c) = Panic msg \/ release lk (crit σ c) = Panic msg)).

(** C34: Mutual exclusion: in every state the interleaved steps of any number of
    CPUs can reach, at most one CPU is between the end of [acquire(lk)] and
    the start of the matching [release(lk)]; its lock word is set, it is
    recorded in [lk->cpu], and its interrupts are off, unless it has stopped in a
    [panic]. *)
Theorem mutual_exclusion σ c lk :
  reachable σ -> lk ∈ crit σ c ->
  (forall c', lk ∈ crit σ c' -> c' = c) /\
  locked (lks σ lk) <> 0 /\ lcpu (lks σ lk) = Some c /\
  (pc_panicked (pcs σ c) \/ intr_get (sstatus (cpus σ c)) = false).
Proof.
  intros Hr%inv_reachable Hin. split_and!.
  - intros c' Hin'. eapply (inv_excl _ Hr); left; done.
  - apply (inv_locked _ Hr). exists c. by left.
  - apply (inv_cpu _ Hr). by left.
  - destruct (inv_noff _ Hr c) as [?|Hn]; [by left|right]. apply (inv_intr _ Hr).
    assert (size (crit σ c) <> 0)%nat by (rewrite size_non_empty_iff; set_solver).
    destruct (pcs σ c); cbn in Hn; lia.
Qed.

(** The code of kernel/spinlock.c implements the abstract locking interface:
    every step of an interleaved execution is invisible, or is exactly an
    abstract [acquire] of a lock nobody holds, or an abstract [release], on
    the set of locks the CPU holds; and a CPU panics only where the abstract
    operation panics (acquiring a lock it holds, releasing one it does not). *)
Theorem spinlock_refines_sync σ σ' :
  reachable σ -> step σ σ' -> refines_step σ σ'.
Proof.
  intros Hr%inv_reachable Hs.
  destruct Hs as [σ c lk Hp|σ c Hp|σ c lk Hp|σ c Hp|σ c on Hp Hcr].
  - left. split; [done|]. intros c' msg. upd. by case_decide.
  - unfold acquire_step. destruct (pcs σ c) eqn:E; try done.
    + rewrite holding_spec by (rewrite ?E; done). case_bool_decide as Hin.
      * right; right; right. exists c, lk, "acquire"%string. split; [done|]. split.
        -- upd. by rewrite decide_True.
        -- left. by apply acquire_held.
      * left. split; [done|]. intros c' msg. upd. by case_decide.
    + left. destruct (negb _); (split; [done|]); intros c' msg; upd; by try case_decide.
    + right; left. exists c, lk.
      assert (Hown : own σ c lk) by (right; by rewrite E).
      assert (Hno : forall c', lk ∉ crit σ c').
      { intros c' Hin. assert (c' = c) as -> by (eapply (inv_excl _ Hr); [by left|done]).
        revert Hin. apply (inv_out _ Hr). by rewrite E. }
      split; [done|]. split.
      * rewrite acquire_ok by apply Hno. upd. by rewrite decide_True.
      * intros c' Hne. upd. by rewrite decide_False.
  - unfold release_start. rewrite holding_spec by (rewrite ?Hp; done). case_bool_decide as Hin; cbn [negb].
    + right; right; left. exists c, lk. rewrite release_ok by done. split.
      * upd. by rewrite decide_True.
      * intros c' Hne. upd. by rewrite decide_False.
    + right; right; right. exists c, lk, "release"%string. split; [done|]. split.
      * upd. by rewrite decide_True.
      * right. unfold release, holding. by rewrite bool_decide_false.
  - left. unfold release_step. destruct (pcs σ c) eqn:E; try done.
    1,2: split; [done|]; intros c' msg; upd; by case_decide.
    destruct (release_pop_ok σ c lk Hr E) as (x & -> & _). split; [done|].
    intros c' msg. upd. by case_decide.
  - left. done.
Qed.

(** Nested calls, as around nested [acquire]s and [release]s. *)
Fixpoint push_offs (n : nat) (c : cpu) : cpu :=
  match n with O => c | S n' => push_off (push_offs n' c) end.
Fixpoint pop_offs (n : nat) (c : cpu) : string + cpu :=
  match n with
  | O => inr c
  | S n' => match pop_off c with inl msg => inl msg | inr c' => pop_offs n' c' end
  end.

Lemma push_offs_facts c n :
  noff c = 0 ->
  let x := push_offs (S n) c in
  noff x = Z.of_nat (S n) /\ intena x = intr_get (sstatus c) /\ sstatus x = intr_off (sstatus c).
Proof.
  intros H0. cbn zeta. induction n as [|n IH].
  - change (push_offs 1 c) with (push_off c).
    destruct (push_off_facts c) as (P1 & _ & P3 & P4). rewrite P1, P3, P4, H0. done.
  - change (push_offs (S (S n)) c) with (push_off (push_offs (S n) c)).
    destruct IH as (I1 & I2 & I3).
    destruct (push_off_facts (push_offs (S n) c)) as (P1 & _ & P3 & P4).
    rewrite P1, P3, P4, I1. destruct (Z.eqb_spec (Z.of_nat (S n)) 0); [lia|].
    rewrite I2, I3, intr_off_off. split_and!; [lia|done|done].
Qed.

Lemma pop_offs_restore st n x :
  noff x = Z.of_nat (S n) -> intena x = intr_get st -> sstatus x = intr_off st ->
  exists c', pop_offs (S n) x = inr c' /\ noff c' = 0 /\ sstatus c' = st.
Proof.
  revert x. induction n as [|n IH]; intros x X1 X2 X3;
    (destruct (pop_off_ok x) as (y & Hy & Y1 & Y2 & Y3); [by rewrite X3, intr_get_off | lia |]);
    cbn [pop_offs]; rewrite Hy.
  - exists y. split; [done|]. split; [lia|]. rewrite Y3, X1, X2, X3. cbn [andb Z.eqb].
    change (Z.of_nat 1 =? 1) with true. cbn [andb].
    destruct (intr_get st) eqn:E; [by apply intr_on_off | by apply intr_off_id].
  - apply IH; [lia|congruence|]. rewrite Y3, X1, X3.
    destruct (Z.eqb_spec (Z.of_nat (S (S n))) 1); [lia|done].
Qed.

(** Interrupt state nests: [n] calls of [push_off] from [noff = 0] followed by
    [n] calls of [pop_off] do not panic and give back the [sstatus] register
    exactly, whether interrupts were on or off; in between they are off. *)
Theorem push_pop_nest c n :
  noff c = 0 ->
  (exists c', pop_offs (S n) (push_offs (S n) c) = inr c' /\ noff c' = 0 /\ sstatus c' = sstatus c) /\
  intr_get (sstatus (push_offs (S n) c)) = false.
Proof.
  intros H0. destruct (push_offs_facts c n H0) as (P1 & P2 & P3).
  split; [by apply pop_offs_restore | by rewrite P3, intr_get_off].
Qed.

(** ** Examples *)

(** Two or more CPUs just booted, interrupts on; CPU 0 then takes [kmem.lock]. *)
Definition boot_config : config :=
  {| cpus := fun _ => {| noff := 0; intena := false; sstatus := 2 |};
     lks := fun _ => spin_initlock "lock"; pcs := fun _ => PcIdle; crit := fun _ => ∅ |}.
Definition holder_config : config :=
  acquire_step 0 (acquire_step 0 (acquire_step 0 (acquire_start 0 LKmem boot_config))).

Lemma boot_reachable : reachable boot_config.
Proof. apply reach_init. split; intros; [done|]. by exists "lock"%string. Qed.

Lemma holder_reachable : reachable holder_config.
Proof.
  unfold holder_config.
  do 3 (eapply reach_step; [|apply step_acquire; reflexivity]).
  eapply reach_step; [apply boot_reachable|by apply step_acquire_start].
Qed.

Lemma holder_crit : LKmem ∈ crit holder_config 0.
Proof. apply (bool_decide_unpack _). vm_compute. exact I. Qed.

Lemma mutual_exclusion_witness :
  reachable holder_config /\ LKmem ∈ crit holder_config 0 /\
  (forall c', LKmem ∈ crit holder_config c' -> c' = 0%nat).
Proof.
  split; [exact holder_reachable|]. split; [exact holder_crit|].
  apply (mutual_exclusion holder_config 0 LKmem holder_reachable holder_crit).
Defined.

Lemma spinlock_refines_sync_witness :
  reachable holder_config /\ refines_step holder_config (release_start 0 LKmem holder_config).
Proof.
  split; [exact holder_reachable|].
  apply spinlock_refines_sync; [exact holder_reachable|]. apply step_release_start. reflexivity.
Defined.

Lemma push_pop_nest_witness :
  intr_get (sstatus (push_offs 3 (cpus boot_config 0))) = false.
Proof. apply (push_pop_nest (cpus boot_config 0) 2). reflexivity. Defined.
