(* ===== verification/Kalloc.v ===== *)
(** kernel/kalloc.c: the physical page allocator.

    The free pages form a linked list threaded through the pages themselves:
    the first eight bytes of a free page hold the address of the next one
    ([struct run]).  The state is the physical memory, the head pointer
    [kmem.freelist] and the set of locks the running thread holds. *)

From S2P Require Import Prelude Riscv Mem Sync.

(** Physical memory with [kmem]. *)
Record pmem := PMem { mem : memory; freelist : Z; held : lockset }.

Definition set_mem (m : memory) (s : pmem) : pmem :=
  {| mem := m; freelist := freelist s; held := held s |}.
Definition set_freelist (x : Z) (s : pmem) : pmem :=
  {| mem := mem s; freelist := x; held := held s |}.
Definition set_held (h : lockset) (s : pmem) : pmem :=
  {| mem := mem s; freelist := freelist s; held := h |}.

#[global] Instance pmem_held : Lens pmem lockset.
Proof. refine {| lget := held; lput := set_held |}; lens_laws pmem. Defined.

(** Memory accesses of kernel code (the kernel maps physical memory directly). *)
Definition rd64 (a : Z) : M pmem Z := gets (fun s => load64 (mem s) a).
Definition wr64 (a v : Z) : M pmem unit := modify (fun s => set_mem (store64 (mem s) a v) s).
Definition memset_ (dst c n : Z) : M pmem unit :=
  modify (fun s => set_mem (memset (mem s) dst c n) s).
Definition memmove_ (dst src n : Z) : M pmem unit :=
  modify (fun s => set_mem (memmove (mem s) dst src n) s).

Section Kalloc.
Context {LY : Layout}.

Definition kfree (pa : Z) : M pmem unit :=
  if negb (pa mod PGSIZE =? 0) || (pa <? kend) || (PHYSTOP <=? pa) then panic "kfree"
  else
    memset_ pa 1 PGSIZE ;;
    let r := pa in
    acquire LKmem ;;
    let! next := gets freelist in
    wr64 r next ;;
    modify (set_freelist r) ;;
    release LKmem.

Definition kalloc : M pmem Z :=
  acquire LKmem ;;
  let! r := gets freelist in
  (if negb (r =? 0) then let! next := rd64 r in modify (set_freelist next) else mret_ tt) ;;
  release LKmem ;;
  (if negb (r =? 0) then memset_ r 5 PGSIZE else mret_ tt) ;;
  mret_ r.

(** [for(; p + PGSIZE <= pa_end; p += PGSIZE) kfree(p)] *)
Fixpoint freerange_loop (fuel : nat) (p pa_end : Z) : M pmem unit :=
  match fuel with
  | O => nofuel
  | S fuel' =>
      if p + PGSIZE <=? pa_end then kfree p ;; freerange_loop fuel' (p + PGSIZE) pa_end
      else mret_ tt
  end.
Definition freerange (pa_start pa_end : Z) : M pmem unit :=
  let p := PGROUNDUP pa_start in
  freerange_loop (Z.to_nat ((pa_end - p) / PGSIZE + 1)) p pa_end.

Definition kinit : M pmem unit := initlock LKmem ;; freerange kend PHYSTOP.

(** ** Representation of the free list *)

Inductive chain (m : memory) : Z -> list Z -> Prop :=
| chain_nil : chain m 0 []
| chain_cons p l : p <> 0 -> chain m (load64 m p) l -> chain m p (p :: l).

Definition page_ok (p : Z) : Prop := p mod PGSIZE = 0 /\ kend <= p < PHYSTOP.

(** The pages [l] are the free ones, in list order. *)
Record free_pages (s : pmem) (l : list Z) : Prop := {
  fp_chain : chain (mem s) (freelist s) l;
  fp_nodup : NoDup l;
  fp_ok : Forall page_ok l;
}.

Lemma chain_frame m m' h l :
  chain m h l -> (forall p, p ∈ l -> load64 m' p = load64 m p) -> chain m' h l.
Proof.
  induction 1 as [|p l Hp Hc IH]; intros Hm; constructor; [done|].
  rewrite Hm by set_solver. apply IH. set_solver.
Qed.

Lemma chain_zero m l : chain m 0 l -> l = [].
Proof. by inversion 1. Qed.

(** Distinct pages do not overlap. *)
Lemma page_disjoint p q :
  p mod PGSIZE = 0 -> q mod PGSIZE = 0 -> p <> q -> p + PGSIZE <= q \/ q + PGSIZE <= p.
Proof.
  unfold PGSIZE. intros Hp Hq Hne. apply Z.div_exact in Hp, Hq; lia.
Qed.

(** Writing inside a page that is not free leaves the free list alone. *)
Lemma free_pages_frame s s' l p :
  free_pages s l -> freelist s' = freelist s -> p ∉ l -> p mod PGSIZE = 0 ->
  (forall a, ~ (p <= a < p + PGSIZE) -> load8 (mem s') a = load8 (mem s) a) ->
  free_pages s' l.
Proof.
  intros [Hc Hn Ho] Hf Hp Hpa Hm. split; [|done|done]. rewrite Hf.
  eapply chain_frame; [done|]. intros q Hq. apply load_le_ext. intros b Hb. apply Hm.
  rewrite Forall_forall in Ho. destruct (Ho q Hq) as [Hqa _].
  assert (p <> q) by (intros ->; done).
  destruct (page_disjoint p q Hpa Hqa); unfold PGSIZE in *; lia.
Qed.

(** The state [kfree] leaves. *)
Definition kfree_post (pa : Z) (s : pmem) : pmem :=
  {| mem := store64 (memset (mem s) pa 1 PGSIZE) pa (freelist s); freelist := pa; held := held s |}.

Lemma kfree_ok pa s :
  page_ok pa -> LKmem ∉ held s -> kfree pa s = Ret tt (kfree_post pa s).
Proof.
  intros [Ha Hr] Hh. unfold kfree. rewrite Ha.
  destruct (Z.ltb_spec pa kend); [lia|]. destruct (Z.leb_spec PHYSTOP pa); [lia|]. cbn [negb orb Z.eqb].
  mstep. erewrite bind_ret by (apply acquire_ok; done). do 3 mstep.
  rewrite release_ok by apply lockset_in_add. cbn. unfold set_held, set_mem. cbn.
  rewrite lockset_add_del by done. done.
Qed.

Lemma kfree_free_pages pa s l :
  0 < kend -> free_pages s l -> page_ok pa -> pa ∉ l -> free_pages (kfree_post pa s) (pa :: l).
Proof.
  intros Hk [Hc Hn Ho] Hpa Hnin. split; cbn.
  - constructor; [destruct Hpa; lia|]. rewrite load64_store64_eq, u64_small.
    + eapply chain_frame; [done|]. intros q Hq. rewrite Forall_forall in Ho.
      destruct (Ho q Hq) as [Hqa _]. destruct Hpa as [Hpal _].
      assert (pa <> q) by (intros ->; done).
      destruct (page_disjoint pa q) as [?|?]; [done..| |];
        rewrite load64_store64_ne, load64_memset_out; unfold PGSIZE in *; try done; lia.
    + inversion Hc; subst; [lia|]. apply Forall_cons in Ho as [[? ?] _].
      unfold PHYSTOP, KERNBASE in *. lia.
  - by constructor.
  - by constructor.
Qed.

Lemma kfree_post_out pa s a :
  ~ (pa <= a < pa + PGSIZE) -> load8 (mem (kfree_post pa s)) a = load8 (mem s) a.
Proof.
  intros. unfold kfree_post; cbn. rewrite load8_store64_out by (unfold PGSIZE in *; lia).
  by apply load8_memset_out.
Qed.

Lemma kalloc_empty s :
  free_pages s [] -> LKmem ∉ held s -> kalloc s = Ret 0 s.
Proof.
  intros [Hc _ _] Hh. inversion Hc as [Hf|]. unfold kalloc.
  erewrite bind_ret by (apply acquire_ok; done). cbn. rewrite <- Hf. cbn.
  unfold mbind_ at 1. rewrite release_ok by apply lockset_in_add. cbn.
  unfold set_held. cbn. rewrite lockset_add_del by done. unfold mret_. destruct s; cbn in *; by subst.
Qed.

(** The state [kalloc] leaves when it hands out the first free page. *)
Definition kalloc_post (p : Z) (s : pmem) : pmem :=
  {| mem := memset (mem s) p 5 PGSIZE; freelist := load64 (mem s) p; held := held s |}.

Lemma kalloc_cons p l s :
  free_pages s (p :: l) -> LKmem ∉ held s -> kalloc s = Ret p (kalloc_post p s).
Proof.
  intros [Hc _ _] Hh. inversion Hc as [|q l' Hp Hl Hq]. subst. unfold kalloc.
  erewrite bind_ret by (apply acquire_ok; done). cbn.
  destruct (Z.eqb_spec (freelist s) 0); [done|]. cbn.
  unfold mbind_ at 1. cbn. rewrite release_ok by apply lockset_in_add. cbn.
  unfold set_held, kalloc_post. cbn. rewrite lockset_add_del by done. done.
Qed.

Lemma kalloc_free_pages p l s :
  free_pages s (p :: l) -> free_pages (kalloc_post p s) l.
Proof.
  intros Hf. pose proof Hf as [Hc Hn Ho].
  apply NoDup_cons in Hn as [Hp Hn]. apply Forall_cons in Ho as [[Hpa _] Ho].
  inversion Hc as [|q l' Hp0 Hl Hq]. subst.
  eapply (free_pages_frame (set_freelist (load64 (mem s) (freelist s)) s)); [by split|done| | |].
  - exact Hp.
  - done.
  - intros a Ha. by apply load8_memset_out.
Qed.

Lemma kalloc_post_out p s a :
  ~ (p <= a < p + PGSIZE) -> load8 (mem (kalloc_post p s)) a = load8 (mem s) a.
Proof. intros. by apply load8_memset_out. Qed.

Lemma PHYSTOP_aligned : PHYSTOP mod PGSIZE = 0.
Proof. reflexivity. Qed.

(** ** A client of the allocator

    [kreach pages s out]: from a free list holding the pages [pages], the
    kernel has called [kalloc] and [kfree] and written into the pages it was
    given; [out] are the pages it holds. *)
Inductive kreach (pages : list Z) : pmem -> list Z -> Prop :=
| kr_init s : free_pages s pages -> LKmem ∉ held s -> kreach pages s []
| kr_alloc s out p s' :
    kreach pages s out -> kalloc s = Ret p s' -> kreach pages s' (if p =? 0 then out else p :: out)
| kr_free s out1 p out2 s' :
    kreach pages s (out1 ++ p :: out2) -> kfree p s = Ret tt s' -> kreach pages s' (out1 ++ out2)
| kr_write s out m' :
    kreach pages s out ->
    (forall a, (forall p, p ∈ out -> ~ (p <= a < p + PGSIZE)) -> load8 m' a = load8 (mem s) a) ->
    kreach pages (set_mem m' s) out.

Context {LYok : LayoutOk}.

Lemma kend_pos : 0 < kend.
Proof. pose proof kernbase_le_etext. pose proof etext_le_kend. unfold KERNBASE in *. lia. Qed.

Lemma freerange_loop_spec fuel p s l :
  p mod PGSIZE = 0 -> kend <= p <= PHYSTOP -> (PHYSTOP - p) / PGSIZE < Z.of_nat fuel ->
  free_pages s l -> (forall q, q ∈ l -> q < p) -> LKmem ∉ held s ->
  exists s' l', freerange_loop fuel p PHYSTOP s = Ret tt s' /\ free_pages s' l' /\
    held s' = held s /\ forall q, q ∈ l' <-> q ∈ l \/ (page_ok q /\ p <= q).
Proof.
  revert p s l. induction fuel as [|fuel IH]; intros p s l Hal Hk Hfuel Hf Hlt Hh.
  { pose proof (Z.div_pos (PHYSTOP - p) PGSIZE). unfold PGSIZE in *. lia. }
  cbn [freerange_loop]. pose proof PHYSTOP_aligned as HP.
  destruct (Z.leb_spec (p + PGSIZE) PHYSTOP) as [Hle|Hgt].
  - assert (Hpok : page_ok p) by (split; [done|]; unfold PGSIZE in *; lia).
    assert (Hpl : p ∉ l) by (intros Hp; apply Hlt in Hp; lia).
    rewrite (bind_ret _ _ _ _ _ (kfree_ok p s Hpok Hh)).
    destruct (IH (p + PGSIZE) (kfree_post p s) (p :: l)) as (s' & l' & E & Hf' & Hh' & Hl').
    + unfold PGSIZE in *. rewrite <- Z.add_mod_idemp_l, Hal by lia. done.
    + unfold PGSIZE in *. lia.
    + replace (PHYSTOP - (p + PGSIZE)) with (PHYSTOP - p + (-1) * PGSIZE) by lia.
      rewrite Z.div_add by done. lia.
    + apply kfree_free_pages; [apply kend_pos|done..].
    + intros q [->|Hq]%elem_of_cons; [|apply Hlt in Hq]; unfold PGSIZE; lia.
    + done.
    + exists s', l'. split; [done|]. split; [done|]. split; [done|].
      intros q. rewrite Hl', elem_of_cons. split.
      * intros [[->|?]|[? ?]]; [right; split; [done|lia] | auto | right; split; [done|unfold PGSIZE in *; lia]].
      * intros [?|[Hq Hpq]]; [auto|]. destruct (decide (q = p)) as [->|Hne]; [auto|].
        right. split; [done|]. destruct Hq as [Hqa _].
        destruct (page_disjoint p q Hal Hqa); [done|lia|unfold PGSIZE in *; lia].
  - exists s, l. split; [done|]. split; [done|]. split; [done|].
    intros q. split; [auto|]. intros [?|[[Hqa Hqr] Hpq]]; [done|]. exfalso.
    destruct (page_disjoint q PHYSTOP Hqa HP); [lia| |unfold PGSIZE in *; lia].
    unfold PGSIZE in *. lia.
Qed.

Lemma PGROUNDUP_kend : kend <= PGROUNDUP kend <= PHYSTOP.
Proof.
  pose proof kend_pos. pose proof kend_le_phystop as Hk.
  assert (HP : PHYSTOP < 2 ^ 40) by reflexivity.
  assert (Hb : kend <= PGROUNDUP kend < kend + PGSIZE)
    by (apply PGROUNDUP_bounds; unfold PGSIZE; lia).
  split; [lia|]. pose proof (PGROUNDUP_aligned kend) as Hu.
  destruct (decide (PGROUNDUP kend = PHYSTOP)) as [->|Hne]; [lia|].
  destruct (page_disjoint _ _ Hu PHYSTOP_aligned Hne); [|unfold PGSIZE in *; lia].
  unfold PGSIZE in *. lia.
Qed.

Lemma kreach_inv pages s out :
  kreach pages s out ->
  exists l, free_pages s l /\ LKmem ∉ held s /\ out ++ l ≡ₚ pages /\ NoDup (out ++ l) /\
            Forall page_ok out.
Proof.
  induction 1 as [s Hf Hh|s out p s' _ (l & Hf & Hh & Hp & Hn & Ho) E
                 |s out1 p out2 s' _ (l & Hf & Hh & Hp & Hn & Ho) E
                 |s out m' _ (l & Hf & Hh & Hp & Hn & Ho) Hm].
  - exists pages. split_and!; [done|done|done|apply Hf|constructor].
  - destruct l as [|q l].
    + rewrite kalloc_empty in E by done. injection E as <- <-. exists []. done.
    + rewrite (kalloc_cons q l) in E by done. injection E as <- <-.
      assert (q <> 0) as Hq0 by (destruct Hf as [Hc _ _]; by inversion Hc).
      destruct (Z.eqb_spec q 0); [done|].
      assert (Hq : page_ok q) by (destruct Hf as [_ _ Hok]; by inversion Hok).
      exists l. cbn. split_and!; [by apply kalloc_free_pages|done| | |by constructor].
      * by rewrite <- Hp, Permutation_middle.
      * by rewrite Permutation_middle.
  - assert (Hpok : page_ok p) by (rewrite Forall_forall in Ho; apply Ho; set_solver).
    rewrite kfree_ok in E by done. injection E as <-.
    exists (p :: l). split_and!.
    + apply kfree_free_pages; [apply kend_pos|done|done|].
      intros Hin. apply NoDup_app in Hn as (_ & Hd & _). apply (Hd p); set_solver.
    + done.
    + rewrite <- Hp. rewrite <- !app_assoc. apply Permutation_app_head. cbn.
      by rewrite <- Permutation_middle.
    + assert (Hpm : (out1 ++ out2) ++ p :: l ≡ₚ (out1 ++ p :: out2) ++ l).
      { rewrite <- !app_assoc. apply Permutation_app_head. cbn. by rewrite <- Permutation_middle. }
      by rewrite Hpm.
    + rewrite !Forall_app, Forall_cons in Ho. rewrite Forall_app. tauto.
  - exists l. split_and!; [|done..]. destruct Hf as [Hc Hn' Hok]. split; [|done|done].
    cbn. eapply chain_frame; [done|]. intros q Hq. apply load_le_ext. intros b Hb. apply Hm.
    intros p Hpo. rewrite Forall_forall in Ho, Hok. destruct (Ho p Hpo) as [Hpa _].
    destruct (Hok q Hq) as [Hqa _]. apply NoDup_app in Hn as (_ & Hd & _).
    assert (p <> q) by (intros ->; by apply (Hd q)).
    destruct (page_disjoint p q Hpa Hqa); [done| |]; unfold PGSIZE in *; lia.
Qed.

(** ** Correctness *)

(** [kinit] never panics or loops forever and puts every page between the
    end of the kernel and [PHYSTOP] on the free list, each exactly once. *)
Theorem kinit_frees_all s :
  freelist s = 0 ->
  exists s' l, kinit s = Ret tt s' /\ free_pages s' l /\ (forall q, q ∈ l <-> page_ok q).
Proof.
  intros H0. unfold kinit, freerange. mstep. cbn [lput lget pmem_held].
  pose proof PGROUNDUP_kend as Hk.
  destruct (freerange_loop_spec (Z.to_nat ((PHYSTOP - PGROUNDUP kend) / PGSIZE + 1)) (PGROUNDUP kend)
     (set_held (held s ∖ {[LKmem]}) s) []) as (s' & l & E & Hf & _ & Hl).
  - apply PGROUNDUP_aligned.
  - lia.
  - pose proof (Z.div_pos (PHYSTOP - PGROUNDUP kend) PGSIZE). unfold PGSIZE in *. lia.
  - split; cbn; [rewrite H0; constructor|constructor|constructor].
  - intros q. by rewrite elem_of_nil.
  - cbn. set_solver.
  - exists s', l. split; [done|]. split; [done|]. intros q. rewrite Hl, elem_of_nil.
    split; [by intros [[]|[]] || (intros [?|[? ?]]; done)|]. intros Hq. right. split; [done|].
    destruct Hq as [Hqa Hqr]. destruct (decide (q = PGROUNDUP kend)) as [->|Hne]; [lia|].
    destruct (page_disjoint q (PGROUNDUP kend) Hqa (PGROUNDUP_aligned kend) Hne) as [Hd|Hd];
      [|unfold PGSIZE in *; lia].
    pose proof kend_pos. assert (HP : PHYSTOP < 2 ^ 40) by reflexivity. pose proof kend_le_phystop.
    assert (kend <= PGROUNDUP kend < kend + PGSIZE)
      by (apply PGROUNDUP_bounds; unfold PGSIZE; lia). lia.
Qed.

(** C35: No page is handed out twice, none is lost: whatever sequence of [kalloc],
    [kfree] and writes into owned pages the kernel has performed, [kalloc]
    either returns 0, when every page is out, or a page of the pool the
    kernel does not hold, filled with 5s; and [kfree] of a held page succeeds. *)
Theorem kalloc_no_double s pages out :
  kreach pages s out ->
  (exists p s', kalloc s = Ret p s' /\
     (p = 0 /\ out ≡ₚ pages \/
      p <> 0 /\ p ∈ pages /\ p ∉ out /\ forall a, p <= a < p + PGSIZE -> load8 (mem s') a = 5)) /\
  (forall p, p ∈ out -> exists s', kfree p s = Ret tt s').
Proof.
  intros (l & Hf & Hh & Hp & Hn & Ho)%kreach_inv. split.
  - destruct l as [|q l].
    + exists 0, s. split; [by apply kalloc_empty|]. left. split; [done|].
      by rewrite <- Hp, app_nil_r.
    + exists q, (kalloc_post q s). split; [by eapply kalloc_cons|]. right.
      split; [by destruct Hf as [Hc _ _]; inversion Hc|]. split; [rewrite <- Hp; set_solver|].
      split; [apply NoDup_app in Hn as (_ & Hd & _); intros Hq; apply (Hd q Hq); set_solver|].
      intros a Ha. cbn. rewrite load8_memset, decide_True by done. done.
  - intros p Hpo. rewrite Forall_forall in Ho. exists (kfree_post p s). apply kfree_ok; [by apply Ho|done].
Qed.

(** [kfree] panics on every address that is not page aligned or not between
    [end] and [PHYSTOP], and on no other (the lock being free). *)
Theorem kfree_panic_iff pa s :
  LKmem ∉ held s -> (kfree pa s = Panic "kfree" <-> ~ page_ok pa).
Proof.
  intros Hh. split.
  - intros E Hok. by rewrite kfree_ok in E.
  - intros Hno. unfold kfree. destruct (negb _ || _ || _) eqn:E; [done|]. exfalso. apply Hno.
    rewrite !orb_false_iff, negb_false_iff, Z.eqb_eq, Z.ltb_ge, Z.leb_gt in E.
    unfold page_ok. tauto.
Qed.
End Kalloc.

(** ** Examples *)

(** A small machine: two free pages at the top of memory. *)
Definition small_layout : Layout :=
  {| etext := KERNBASE + 8 * PGSIZE; kend := PHYSTOP - 2 * PGSIZE - 100; trampoline := KERNBASE |}.
#[local] Existing Instance small_layout.
Lemma small_layout_ok : LayoutOk.
Proof. split; vm_compute; try done; split; done. Qed.
#[local] Existing Instance small_layout_ok.
Definition boot_pmem : pmem := {| mem := ∅; freelist := 0; held := ∅ |}.

Lemma kinit_frees_all_witness :
  exists s' l, kinit boot_pmem = Ret tt s' /\ free_pages s' l /\ (forall q, q ∈ l <-> page_ok q).
Proof. apply kinit_frees_all. reflexivity. Defined.

Definition one_page : pmem :=
  {| mem := ∅; freelist := PHYSTOP - PGSIZE; held := ∅ |}.

Lemma one_page_free : free_pages one_page [PHYSTOP - PGSIZE].
Proof.
  split.
  - constructor; [done|]. apply chain_nil.
  - apply NoDup_singleton.
  - constructor; [|constructor]. split; vm_compute; done.
Qed.

Lemma kalloc_no_double_witness :
  kreach [PHYSTOP - PGSIZE] one_page [] /\
  exists p s', kalloc one_page = Ret p s' /\
    (p = 0 /\ [] ≡ₚ [PHYSTOP - PGSIZE] \/
     p <> 0 /\ p ∈ [PHYSTOP - PGSIZE] /\ p ∉ [] /\
     forall a, p <= a < p + PGSIZE -> load8 (mem s') a = 5).
Proof.
  assert (Hk : kreach [PHYSTOP - PGSIZE] one_page []).
  { apply kr_init; [exact one_page_free|]. set_solver. }
  split; [exact Hk|]. apply (kalloc_no_double one_page [PHYSTOP - PGSIZE] [] Hk).
Defined.

Lemma kfree_panic_iff_witness : kfree 12345 boot_pmem = Panic "kfree".
Proof.
  apply (kfree_panic_iff 12345 boot_pmem); [set_solver|]. intros [Ha _]. vm_compute in Ha. done.
Defined.
