(* ===== verification/Vm.v ===== *)
(** kernel/vm.c: Sv39 page tables and user address spaces.

    A page table is the physical address of its root page; its entries are
    64-bit words in physical memory.  The functions run in the state of file
    Kalloc (physical memory and the free list).  A kernel buffer that the code
    copies from or to ([src] of [copyout], [dst] of [copyin]) is passed as its
    list of bytes: it lies in kernel memory, outside every user page. *)

From S2P Require Import Prelude Riscv Mem Sync Kalloc.

Definition valid (pte : Z) : bool := negb (Z.land pte PTE_V =? 0).

Definition put_bytes (a : Z) (l : list Z) : M pmem unit :=
  modify (fun s => set_mem (store_bytes (mem s) a l) s).
Definition get_bytes (a : Z) (n : nat) : M pmem (list Z) := gets (fun s => bytes_at (mem s) a n).

Section Vm.
Context {LY : Layout}.

(** The [for(level = 2; level > 0; level--)] loop of [walk]. *)
Fixpoint walk_loop (level : nat) (pagetable va : Z) (alloc : bool) : M pmem Z :=
  match level with
  | O => mret_ (pagetable + 8 * PX 0 va)
  | S level' =>
      let pte := pagetable + 8 * PX (Z.of_nat level) va in
      let! v := rd64 pte in
      if valid v then walk_loop level' (PTE2PA v) va alloc
      else if negb alloc then mret_ 0
      else
        let! p := kalloc in
        if p =? 0 then mret_ 0
        else
          memset_ p 0 PGSIZE ;;
          wr64 pte (Z.lor (PA2PTE p) PTE_V) ;;
          walk_loop level' p va alloc
  end.

(** The address of the entry for [va], 0 when there is none. *)
Definition walk (pagetable va : Z) (alloc : bool) : M pmem Z :=
  if MAXVA <=? va then panic "walk" else walk_loop 2 pagetable va alloc.

Definition walkaddr (pagetable va : Z) : M pmem Z :=
  if MAXVA <=? va then mret_ 0
  else
    let! pte := walk pagetable va false in
    if pte =? 0 then mret_ 0
    else
      let! v := rd64 pte in
      if Z.land v PTE_V =? 0 then mret_ 0
      else if Z.land v PTE_U =? 0 then mret_ 0
      else mret_ (PTE2PA v).

(** The [for(;;)] loop of [mappages]. *)
Fixpoint mappages_loop (fuel : nat) (pagetable a last pa perm : Z) : M pmem Z :=
  match fuel with
  | O => nofuel
  | S fuel' =>
      let! pte := walk pagetable a true in
      if pte =? 0 then mret_ (-1)
      else
        let! v := rd64 pte in
        if valid v then panic "remap"
        else
          wr64 pte (Z.lor (Z.lor (PA2PTE pa) perm) PTE_V) ;;
          if a =? last then mret_ 0
          else mappages_loop fuel' pagetable (u64 (a + PGSIZE)) last (u64 (pa + PGSIZE)) perm
  end.
Definition mappages (pagetable va size pa perm : Z) : M pmem Z :=
  let a := PGROUNDDOWN va in
  let last := PGROUNDDOWN (u64 (va + size - 1)) in
  let steps := if a <=? last then (last - a) / PGSIZE + 1 else (MAXVA - a) / PGSIZE + 2 in
  mappages_loop (Z.to_nat steps) pagetable a last pa perm.

(** [for(a = va; a < va + npages*PGSIZE; a += PGSIZE)] *)
Fixpoint uvmunmap_loop (fuel : nat) (pagetable a stop : Z) (do_free : bool) : M pmem unit :=
  match fuel with
  | O => nofuel
  | S fuel' =>
      if negb (a <? stop) then mret_ tt
      else
        let! pte := walk pagetable a false in
        if pte =? 0 then panic "uvmunmap: walk"
        else
          let! v := rd64 pte in
          if Z.land v PTE_V =? 0 then panic "uvmunmap: not mapped"
          else if PTE_FLAGS v =? PTE_V then panic "uvmunmap: not a leaf"
          else
            (if do_free then kfree (PTE2PA v) else mret_ tt) ;;
            wr64 pte 0 ;;
            uvmunmap_loop fuel' pagetable (u64 (a + PGSIZE)) stop do_free
  end.
Definition uvmunmap (pagetable va npages : Z) (do_free : bool) : M pmem unit :=
  if negb (va mod PGSIZE =? 0) then panic "uvmunmap: not aligned"
  else uvmunmap_loop (Z.to_nat (npages + 1)) pagetable va (u64 (va + u64 (npages * PGSIZE))) do_free.

Definition uvmcreate : M pmem Z :=
  let! pagetable := kalloc in
  if pagetable =? 0 then mret_ 0
  else memset_ pagetable 0 PGSIZE ;; mret_ pagetable.

(** The user initcode [src] of [sz] bytes at address 0. *)
Definition uvminit (pagetable : Z) (src : list Z) (sz : Z) : M pmem unit :=
  if PGSIZE <=? sz then panic "inituvm: more than a page"
  else
    let! pmem_ := kalloc in
    memset_ pmem_ 0 PGSIZE ;;
    mappages pagetable 0 PGSIZE pmem_ (Z.lor (Z.lor (Z.lor PTE_W PTE_R) PTE_X) PTE_U) ;;
    put_bytes pmem_ (take (Z.to_nat sz) src).

Definition uvmdealloc (pagetable oldsz newsz : Z) : M pmem Z :=
  if oldsz <=? newsz then mret_ oldsz
  else
    (if PGROUNDUP newsz <? PGROUNDUP oldsz then
       let npages := s32 ((PGROUNDUP oldsz - PGROUNDUP newsz) / PGSIZE) in
       uvmunmap pagetable (PGROUNDUP newsz) (u64 npages) true
     else mret_ tt) ;;
    mret_ newsz.

(** [for(a = oldsz; a < newsz; a += PGSIZE)], [oldsz] already rounded up. *)
Fixpoint uvmalloc_loop (fuel : nat) (pagetable oldsz a newsz : Z) : M pmem Z :=
  match fuel with
  | O => nofuel
  | S fuel' =>
      if negb (a <? newsz) then mret_ newsz
      else
        let! pg := kalloc in
        if pg =? 0 then uvmdealloc pagetable a oldsz ;; mret_ 0
        else
          memset_ pg 0 PGSIZE ;;
          let! r := mappages pagetable a PGSIZE pg (Z.lor (Z.lor (Z.lor PTE_W PTE_X) PTE_R) PTE_U) in
          if negb (r =? 0) then kfree pg ;; uvmdealloc pagetable a oldsz ;; mret_ 0
          else uvmalloc_loop fuel' pagetable oldsz (u64 (a + PGSIZE)) newsz
  end.
Definition uvmalloc (pagetable oldsz newsz : Z) : M pmem Z :=
  if newsz <? oldsz then mret_ oldsz
  else
    let oldsz := PGROUNDUP oldsz in
    uvmalloc_loop (Z.to_nat ((newsz - oldsz) / PGSIZE + 2)) pagetable oldsz oldsz newsz.

(** The loop over the 512 entries, [rec] freeing a lower-level table. *)
Fixpoint freewalk_loop (rec : Z -> M pmem unit) (n : nat) (pagetable i : Z) : M pmem unit :=
  match n with
  | O => mret_ tt
  | S n' =>
      let! pte := rd64 (pagetable + 8 * i) in
      (if valid pte && (Z.land pte (Z.lor (Z.lor PTE_R PTE_W) PTE_X) =? 0) then
         rec (PTE2PA pte) ;; wr64 (pagetable + 8 * i) 0
       else if valid pte then panic "freewalk: leaf"
       else mret_ tt) ;;
      freewalk_loop rec n' pagetable (i + 1)
  end.
Fixpoint freewalk (depth : nat) (pagetable : Z) : M pmem unit :=
  match depth with
  | O => nofuel
  | S depth' => freewalk_loop (freewalk depth') 512 pagetable 0 ;; kfree pagetable
  end.

Definition uvmfree (pagetable sz : Z) : M pmem unit :=
  (if 0 <? sz then uvmunmap pagetable 0 (PGROUNDUP sz / PGSIZE) true else mret_ tt) ;;
  freewalk 3 pagetable.

(** [for(i = 0; i < sz; i += PGSIZE)]; both failures jump to [err]. *)
Fixpoint uvmcopy_loop (fuel : nat) (old new i sz : Z) : M pmem Z :=
  match fuel with
  | O => nofuel
  | S fuel' =>
      let err := uvmunmap new 0 (i / PGSIZE) true ;; mret_ (-1) in
      if negb (i <? sz) then mret_ 0
      else
        let! pte := walk old i false in
        if pte =? 0 then panic "uvmcopy: pte should exist"
        else
          let! v := rd64 pte in
          if Z.land v PTE_V =? 0 then panic "uvmcopy: page not present"
          else
            let pa := PTE2PA v in
            let flags := PTE_FLAGS v in
            let! pg := kalloc in
            if pg =? 0 then err
            else
              memmove_ pg pa PGSIZE ;;
              let! r := mappages new i PGSIZE pg flags in
              if negb (r =? 0) then kfree pg ;; err
              else uvmcopy_loop fuel' old new (u64 (i + PGSIZE)) sz
  end.
Definition uvmcopy (old new sz : Z) : M pmem Z :=
  uvmcopy_loop (Z.to_nat (sz / PGSIZE + 2)) old new 0 sz.

Definition uvmclear (pagetable va : Z) : M pmem unit :=
  let! pte := walk pagetable va false in
  if pte =? 0 then panic "uvmclear"
  else let! v := rd64 pte in wr64 pte (Z.land v (Z.lnot PTE_U)).

(** [while(len > 0)] of [copyout]: [src] is what is left to copy. *)
Fixpoint copyout_loop (fuel : nat) (pagetable dstva : Z) (src : list Z) : M pmem Z :=
  match fuel with
  | O => nofuel
  | S fuel' =>
      let len := Z.of_nat (length src) in
      if negb (0 <? len) then mret_ 0
      else
        let va0 := PGROUNDDOWN dstva in
        let! pa0 := walkaddr pagetable va0 in
        if pa0 =? 0 then mret_ (-1)
        else
          let n := PGSIZE - (dstva - va0) in
          let n := if len <? n then len else n in
          put_bytes (pa0 + (dstva - va0)) (take (Z.to_nat n) src) ;;
          copyout_loop fuel' pagetable (u64 (va0 + PGSIZE)) (drop (Z.to_nat n) src)
  end.
Definition copyout (pagetable dstva : Z) (src : list Z) : M pmem Z :=
  copyout_loop (S (length src)) pagetable dstva src.

(** [while(len > 0)] of [copyin]: the status and the bytes stored in [dst]. *)
Fixpoint copyin_loop (fuel : nat) (pagetable srcva len : Z) : M pmem (Z * list Z) :=
  match fuel with
  | O => nofuel
  | S fuel' =>
      if negb (0 <? len) then mret_ (0, [])
      else
        let va0 := PGROUNDDOWN srcva in
        let! pa0 := walkaddr pagetable va0 in
        if pa0 =? 0 then mret_ (-1, [])
        else
          let n := PGSIZE - (srcva - va0) in
          let n := if len <? n then len else n in
          let! bs := get_bytes (pa0 + (srcva - va0)) (Z.to_nat n) in
          let! '(r, rest) := copyin_loop fuel' pagetable (u64 (va0 + PGSIZE)) (len - n) in
          mret_ (r, bs ++ rest)
  end.
Definition copyin (pagetable srcva len : Z) : M pmem (Z * list Z) :=
  copyin_loop (S (Z.to_nat len)) pagetable srcva len.

(** The inner [while(n > 0)] of [copyinstr] over the bytes of one page: whether a
    NUL was met, and the bytes stored in [dst]. *)
Fixpoint copyinstr_page (p : list Z) : bool * list Z :=
  match p with
  | [] => (false, [])
  | b :: p' =>
      if b =? 0 then (true, [0])
      else let '(got_null, bs) := copyinstr_page p' in (got_null, b :: bs)
  end.
Fixpoint copyinstr_loop (fuel : nat) (pagetable srcva max : Z) : M pmem (Z * list Z) :=
  match fuel with
  | O => nofuel
  | S fuel' =>
      if negb (0 <? max) then mret_ (-1, [])
      else
        let va0 := PGROUNDDOWN srcva in
        let! pa0 := walkaddr pagetable va0 in
        if pa0 =? 0 then mret_ (-1, [])
        else
          let n := PGSIZE - (srcva - va0) in
          let n := if max <? n then max else n in
          let! p := get_bytes (pa0 + (srcva - va0)) (Z.to_nat n) in
          let '(got_null, bs) := copyinstr_page p in
          if got_null then mret_ (0, bs)
          else
            let! '(r, rest) := copyinstr_loop fuel' pagetable (u64 (va0 + PGSIZE)) (max - n) in
            mret_ (r, bs ++ rest)
  end.
Definition copyinstr (pagetable srcva max : Z) : M pmem (Z * list Z) :=
  copyinstr_loop (S (Z.to_nat max)) pagetable srcva max.

(** Copying between a kernel buffer and either user or kernel memory: the work of
    [either_copyout] and [either_copyin] of kernel/proc.c. *)
Definition copyout_either (user : bool) (pagetable dst : Z) (src : list Z) : M pmem Z :=
  if user then copyout pagetable dst src else put_bytes dst src ;; mret_ 0.
Definition copyin_either (user : bool) (pagetable src len : Z) : M pmem (Z * list Z) :=
  if user then copyin pagetable src len else let! d := get_bytes src (Z.to_nat len) in mret_ (0, d).

(** ** The kernel page table *)

(** Physical memory with the global [kernel_pagetable] and the hart's [satp]. *)
Record kvm := KVm { kv_pmem : pmem; kernel_pagetable : Z; satp : Z }.
#[global] Instance kvm_pmem : Lens kvm pmem.
Proof.
  refine {| lget := kv_pmem;
            lput := fun x s => {| kv_pmem := x; kernel_pagetable := kernel_pagetable s; satp := satp s |} |};
  lens_laws kvm.
Defined.

Definition kvmmap (va pa sz perm : Z) : M kvm unit :=
  let! kpt := gets kernel_pagetable in
  let! r := zoom (mappages kpt va sz pa perm) in
  if negb (r =? 0) then panic "kvmmap" else mret_ tt.

Definition kvminit : M kvm unit :=
  let! p := zoom kalloc in
  modify (fun s => {| kv_pmem := kv_pmem s; kernel_pagetable := p; satp := satp s |}) ;;
  zoom (memset_ p 0 PGSIZE) ;;
  kvmmap UART0 UART0 PGSIZE (Z.lor PTE_R PTE_W) ;;
  kvmmap VIRTIO0 VIRTIO0 PGSIZE (Z.lor PTE_R PTE_W) ;;
  kvmmap CLINT CLINT 0x10000 (Z.lor PTE_R PTE_W) ;;
  kvmmap PLIC PLIC 0x400000 (Z.lor PTE_R PTE_W) ;;
  kvmmap KERNBASE KERNBASE (etext - KERNBASE) (Z.lor PTE_R PTE_X) ;;
  kvmmap etext etext (PHYSTOP - etext) (Z.lor PTE_R PTE_W) ;;
  kvmmap TRAMPOLINE trampoline PGSIZE (Z.lor PTE_R PTE_X).

Definition kvminithart : M kvm unit :=
  modify (fun s => {| kv_pmem := kv_pmem s; kernel_pagetable := kernel_pagetable s;
                      satp := MAKE_SATP (kernel_pagetable s) |}).

Definition kvmpa (va : Z) : M kvm Z :=
  let off := va mod PGSIZE in
  let! kpt := gets kernel_pagetable in
  let! pte := zoom (walk kpt va false) in
  if pte =? 0 then panic "kvmpa"
  else
    let! v := zoom (rd64 pte) in
    if Z.land v PTE_V =? 0 then panic "kvmpa"
    else mret_ (u64 (PTE2PA v + off)).
End Vm.
