(* ===== verification/VmPt.v ===== *)
(** Page tables as finite maps: the representation of an Sv39 page table in
    physical memory and the correctness of [walk] (kernel/vm.c).

    A page table is described by two maps.  The shape [t] sends the path of
    page-table indices leading to a page-table page ([[]] for the root,
    [[i2]], [[i2; i1]]) to the page's physical address.  The address space [u]
    sends a page-aligned virtual address to its valid leaf entry. *)

From S2P Require Import Prelude Riscv Mem Sync Kalloc Vm.

Abbreviation ptshape := (gmap (list Z) Z).
Abbreviation aspace := (gmap Z Z).

(** The valid leaf entry for [va]. *)
Definition pt_map (m : memory) (t : ptshape) (va : Z) : option Z :=
  match t !! [PX 2 va; PX 1 va] with
  | Some p => let v := load64 m (p + 8 * PX 0 va) in if valid v then Some v else None
  | None => None
  end.

Section Rep.
Context {LY : Layout}.

Record pt_rep (m : memory) (root : Z) (t : ptshape) : Prop := {
  pr_root : t !! [] = Some root;
  pr_len : forall k p, t !! k = Some p -> (length k <= 2)%nat;
  pr_closed : forall k i, t !! k = None -> t !! (k ++ [i]) = None;
  pr_inj : forall k k' p, t !! k = Some p -> t !! k' = Some p -> k = k';
  pr_ok : forall k p, t !! k = Some p -> page_ok p;
  pr_idx : forall k i p, t !! (k ++ [i]) = Some p -> 0 <= i < 512;
  pr_pte : forall k p i, t !! k = Some p -> (length k <= 1)%nat -> 0 <= i < 512 ->
    match t !! (k ++ [i]) with
    | Some q => load64 m (p + 8 * i) = Z.lor (PA2PTE q) PTE_V
    | None => valid (load64 m (p + 8 * i)) = false
    end;
}.

(** The state [s] holds a page table of shape [t] for the address space [u],
    and [l] are the free pages. *)
Record as_rep (s : pmem) (root : Z) (t : ptshape) (u : aspace) (l : list Z) : Prop := {
  ar_pt : pt_rep (mem s) root t;
  ar_map39 : forall va, 0 <= va < 2 ^ 39 -> va mod PGSIZE = 0 -> pt_map (mem s) t va = u !! va;
  ar_dom : forall va pte, u !! va = Some pte -> 0 <= va < MAXVA /\ va mod PGSIZE = 0;
  ar_free : free_pages s l;
  ar_disj : forall k p, t !! k = Some p -> p ∉ l;
  ar_lock : LKmem ∉ held s;
}.

Lemma ar_map s root t u l va :
  as_rep s root t u l -> 0 <= va < MAXVA -> va mod PGSIZE = 0 -> pt_map (mem s) t va = u !! va.
Proof. intros R Hva. apply (ar_map39 _ _ _ _ _ R). change MAXVA with (2 ^ 38) in Hva. lia. Qed.
End Rep.

(** [m'] is [m] outside the pages [P]. *)
Definition same_outside (m m' : memory) (P : Z -> Prop) : Prop :=
  forall a, (forall p, P p -> ~ (p <= a < p + PGSIZE)) -> load8 m' a = load8 m a.

Lemma same_outside_refl m P : same_outside m m P.
Proof. done. Qed.

Lemma same_outside_trans m1 m2 m3 (P Q R : Z -> Prop) :
  same_outside m1 m2 P -> same_outside m2 m3 Q ->
  (forall p, P p -> R p) -> (forall p, Q p -> R p) -> same_outside m1 m3 R.
Proof. intros H1 H2 HP HQ a Ha. rewrite H2, H1; auto. Qed.

Lemma same_outside_mono m m' (P Q : Z -> Prop) :
  same_outside m m' P -> (forall p, P p -> Q p) -> same_outside m m' Q.
Proof. intros H HPQ a Ha. apply H. auto. Qed.

(** ** Entries of page-table pages *)

Lemma slot_in_page i : 0 <= i < 512 -> 0 <= 8 * i /\ 8 * i + 8 <= PGSIZE.
Proof. unfold PGSIZE. lia. Qed.

Lemma slot_disjoint p q i j :
  p mod PGSIZE = 0 -> q mod PGSIZE = 0 -> 0 <= i < 512 -> 0 <= j < 512 ->
  p <> q \/ i <> j -> p + 8 * i + 8 <= q + 8 * j \/ q + 8 * j + 8 <= p + 8 * i.
Proof.
  intros Hp Hq Hi Hj Hne. destruct (decide (p = q)) as [->|Hpq]; [lia|].
  destruct (page_disjoint p q Hp Hq Hpq); unfold PGSIZE in *; lia.
Qed.

Lemma valid_testbit v : valid v = Z.testbit v 0.
Proof. unfold valid. change PTE_V with (2 ^ 0). rewrite PTE_bit_spec by lia. apply negb_involutive. Qed.

Lemma land_V_valid v : (Z.land v PTE_V =? 0) = negb (valid v).
Proof. unfold valid. by rewrite negb_involutive. Qed.

Lemma valid_lor_V a : valid (Z.lor a PTE_V) = true.
Proof. rewrite valid_testbit, Z.lor_spec. apply orb_true_r. Qed.

Lemma valid_zero : valid 0 = false.
Proof. reflexivity. Qed.

Lemma load64_same_page m m' p i :
  (forall a, p <= a < p + PGSIZE -> load8 m' a = load8 m a) -> 0 <= i < 512 ->
  load64 m' (p + 8 * i) = load64 m (p + 8 * i).
Proof. intros H Hi. apply load64_ext. intros b Hb. apply H. unfold PGSIZE. lia. Qed.

(** [p] is a page of the table. *)
Definition in_table (t : ptshape) (p : Z) : Prop := exists k, t !! k = Some p.

(** Only writes inside pages of [P]; [q] is another page. *)
Lemma same_outside_page m m' (P : Z -> Prop) q a :
  same_outside m m' P -> (forall p, P p -> p mod PGSIZE = 0 /\ p <> q) -> q mod PGSIZE = 0 ->
  q <= a < q + PGSIZE -> load8 m' a = load8 m a.
Proof.
  intros Hs HP Hq Ha. apply Hs. intros p Hp Hin. destruct (HP p Hp) as [Hpa Hne].
  destruct (page_disjoint p q Hpa Hq Hne); lia.
Qed.

Section RepFacts.
Context {LY : Layout} {LYok : LayoutOk}.

Lemma page_ok_range p : page_ok p -> 0 < p < 2 ^ 56.
Proof. intros [_ Hp]. pose proof kend_pos. unfold PHYSTOP, KERNBASE in *. lia. Qed.

Lemma page_ok_aligned p : page_ok p -> p mod PGSIZE = 0.
Proof. by intros [? _]. Qed.

Lemma pte_of_page_range p f : page_ok p -> 0 <= f < 1024 -> 0 <= Z.lor (PA2PTE p) f < 2 ^ 54.
Proof.
  intros Hp Hf. pose proof (page_ok_range p Hp). rewrite PA2PTE_lor by lia.
  pose proof (Z.div_pos p PGSIZE). pose proof (Z.div_lt_upper_bound p PGSIZE (2 ^ 44)).
  unfold PGSIZE in *. lia.
Qed.

Lemma pte_of_page_u64 p f : page_ok p -> 0 <= f < 1024 -> u64 (Z.lor (PA2PTE p) f) = Z.lor (PA2PTE p) f.
Proof. intros Hp Hf. pose proof (pte_of_page_range p f Hp Hf). apply u64_small. lia. Qed.

Lemma PTE2PA_V p : page_ok p -> PTE2PA (Z.lor (PA2PTE p) PTE_V) = p.
Proof.
  intros Hp. apply PTE2PA_PA2PTE; [|by apply page_ok_aligned|done].
  pose proof (page_ok_range p Hp). lia.
Qed.

(** Writes to pages that are not free leave the free list alone. *)
Lemma free_pages_outside s s' l (P : Z -> Prop) :
  free_pages s l -> freelist s' = freelist s -> same_outside (mem s) (mem s') P ->
  (forall p, P p -> p mod PGSIZE = 0 /\ p ∉ l) -> free_pages s' l.
Proof.
  intros [Hc Hn Ho] Hf Hm HP. split; [|done|done]. rewrite Hf.
  eapply chain_frame; [done|]. intros q Hq. rewrite Forall_forall in Ho.
  apply load64_ext. intros a Ha. eapply (same_outside_page _ _ P q); [done| |apply Ho; done|unfold PGSIZE; lia].
  intros p Hp. destruct (HP p Hp). split; [done|]. by intros ->.
Qed.

(** A change of memory that keeps every page-table page keeps the table. *)
Lemma pt_rep_frame m m' root t :
  pt_rep m root t ->
  (forall k p a, t !! k = Some p -> p <= a < p + PGSIZE -> load8 m' a = load8 m a) ->
  pt_rep m' root t.
Proof.
  intros Hpt Hm. split; try apply Hpt. intros k p i Hk Hl Hi.
  rewrite (load64_same_page m m') by eauto. by apply Hpt.
Qed.

Lemma pt_map_frame m m' t va :
  (forall k p a, t !! k = Some p -> p <= a < p + PGSIZE -> load8 m' a = load8 m a) ->
  pt_map m' t va = pt_map m t va.
Proof.
  intros Hm. unfold pt_map. destruct (t !! _) eqn:E; [|done].
  rewrite (load64_same_page m m'); [done|by intros; eapply Hm|]. by apply PX_range.
Qed.

(** ** walk *)

(** One level of the walk through an existing table. *)
Lemma walk_down m root t k p level va alloc s :
  mem s = m -> pt_rep m root t -> t !! k = Some p -> (length k <= 1)%nat ->
  walk_loop (S level) p va alloc s =
  match t !! (k ++ [PX (Z.of_nat (S level)) va]) with
  | Some q => walk_loop level q va alloc s
  | None => (if negb alloc then mret_ 0
      else
        let! p' := kalloc in
        if p' =? 0 then mret_ 0
        else
          memset_ p' 0 PGSIZE ;;
          wr64 (p + 8 * PX (Z.of_nat (S level)) va) (Z.lor (PA2PTE p') PTE_V) ;;
          walk_loop level p' va alloc) s
  end.
Proof.
  intros Hm Hpt Hk Hl. cbn [walk_loop]. mstep. rewrite Hm.
  pose proof (pr_pte _ _ _ Hpt k p (PX (Z.of_nat (S level)) va) Hk Hl) as Hpte.
  destruct (t !! (k ++ _)) as [q|] eqn:E; rewrite Hpte by (apply PX_range; lia); [|done].
  rewrite valid_lor_V, PTE2PA_V; [done|]. eapply pr_ok; eauto.
Qed.

(** Looking up never changes memory: it returns the address of the leaf entry
    when the two tables above it exist, 0 otherwise. *)
Lemma walk_lookup root t va s :
  pt_rep (mem s) root t -> 0 <= va < MAXVA ->
  walk root va false s =
  Ret (match t !! [PX 2 va; PX 1 va] with Some p => p + 8 * PX 0 va | None => 0 end) s.
Proof.
  intros Hpt Hva. unfold walk. destruct (Z.leb_spec MAXVA va); [lia|].
  rewrite (walk_down _ root t [] root) by (try done; try apply Hpt; cbn; lia). cbn [app].
  change (Z.of_nat 2) with 2. destruct (t !! [PX 2 va]) as [p1|] eqn:E1.
  - rewrite (walk_down _ root t [PX 2 va] p1) by (try done; cbn; lia). cbn [app].
    change (Z.of_nat 1) with 1. by destruct (t !! [PX 2 va; PX 1 va]).
  - by rewrite (pr_closed _ _ _ Hpt [PX 2 va] (PX 1 va) E1 : t !! [PX 2 va; PX 1 va] = None).
Qed.

(** The state after linking the free page [p] at slot [i] of table page [pk]. *)
Definition link_post (p pk i : Z) (s : pmem) : pmem :=
  let s1 := kalloc_post p s in
  set_mem (store64 (memset (mem s1) p 0 PGSIZE) (pk + 8 * i) (Z.lor (PA2PTE p) PTE_V)) s1.

Lemma link_out p pk i s :
  0 <= i < 512 -> same_outside (mem s) (mem (link_post p pk i s)) (fun q => q = p \/ q = pk).
Proof.
  intros Hi a Ha. pose proof (Ha p (or_introl eq_refl)). pose proof (Ha pk (or_intror eq_refl)).
  cbn. rewrite load8_store64_out by (unfold PGSIZE in *; lia). by rewrite !load8_memset_out by done.
Qed.

Lemma link_slot p pk i s q j :
  page_ok p -> page_ok pk -> page_ok q -> 0 <= i < 512 -> 0 <= j < 512 -> p <> pk ->
  load64 (mem (link_post p pk i s)) (q + 8 * j) =
  if decide (q = p) then 0
  else if decide (q = pk /\ j = i) then Z.lor (PA2PTE p) PTE_V
  else load64 (mem s) (q + 8 * j).
Proof.
  intros Hp Hpk Hq Hi Hj Hne. pose proof (page_ok_aligned _ Hp). pose proof (page_ok_aligned _ Hpk).
  pose proof (page_ok_aligned _ Hq). cbn. pose proof (slot_in_page j Hj). case_decide as E1.
  - subst q. rewrite load64_store64_ne by (apply slot_disjoint; auto).
    apply load64_memset_zero; lia.
  - destruct (page_disjoint p q) as [Hd|Hd]; [done..| |]; case_decide as E2;
      try (destruct E2 as [-> ->]; by rewrite load64_store64_eq, pte_of_page_u64).
    all: rewrite load64_store64_ne
           by (apply slot_disjoint; [done..|]; destruct (decide (q = pk)); [right|by left];
               intros ->; by apply E2).
    all: rewrite !load64_memset_out by lia; done.
Qed.

Lemma link_pt_rep s root t k pk i p :
  pt_rep (mem s) root t -> t !! k = Some pk -> (length k <= 1)%nat -> 0 <= i < 512 ->
  t !! (k ++ [i]) = None -> page_ok p -> (forall k', t !! k' <> Some p) ->
  pt_rep (mem (link_post p pk i s)) root (<[k ++ [i] := p]> t).
Proof.
  intros Hpt Hk Hl Hi Hn Hp Hfresh. pose proof Hpt as [Hr Hlen Hcl Hinj Hok Hidx Hpte].
  assert (Hpk : page_ok pk) by eauto. assert (Hne : p <> pk) by (intros ->; by apply (Hfresh k)).
  assert (Hnk : forall j, k ++ [i] <> k ++ [i] ++ [j])
    by (intros j Hj; apply (f_equal length) in Hj; rewrite !length_app in Hj; cbn in Hj; lia).
  split.
  - rewrite lookup_insert_ne; [done|]. by destruct k.
  - intros k' q. rewrite lookup_insert_Some. intros [[<- _]|[_ ?]]; [rewrite length_app; cbn; lia|eauto].
  - intros k' j. rewrite !lookup_insert_None. intros [Hn' Hne']. split; [eauto|].
    intros [-> ->]%app_inj_tail. naive_solver.
  - intros k1 k2 q. rewrite !lookup_insert_Some. naive_solver.
  - intros k' q. rewrite lookup_insert_Some. naive_solver.
  - intros k' j q. rewrite lookup_insert_Some. intros [[[_ ->]%app_inj_tail _]|[_ ?]]; [done|eauto].
  - intros k' q j. rewrite lookup_insert_Some. intros [[<- <-]|[Hk' Hq]] Hl' Hj.
    + rewrite lookup_insert_ne, <- app_assoc by (rewrite <- app_assoc; apply Hnk).
      rewrite app_assoc, Hcl by done. rewrite link_slot by done. by rewrite decide_True.
    + assert (q <> p) by (intros ->; by apply (Hfresh k')).
      rewrite link_slot by eauto. rewrite decide_False by done.
      specialize (Hpte k' q j Hq Hl' Hj). destruct (decide (k' = k /\ j = i)) as [[-> ->]|Hx].
      * rewrite lookup_insert_eq, decide_True by naive_solver. done.
      * rewrite lookup_insert_ne by (intros [-> ->]%app_inj_tail; naive_solver).
        rewrite decide_False; [done|]. naive_solver.
Qed.

Lemma link_as_rep s root t u l k pk i p :
  as_rep s root t u (p :: l) -> t !! k = Some pk -> (length k <= 1)%nat -> 0 <= i < 512 ->
  t !! (k ++ [i]) = None -> as_rep (link_post p pk i s) root (<[k ++ [i] := p]> t) u l.
Proof.
  intros [Hpt Hmap Hdom Hfree Hdisj Hlock] Hk Hl Hi Hn.
  assert (Hp : page_ok p) by (destruct Hfree as [_ _ Ho]; by inversion Ho).
  assert (Hpl : p ∉ l) by (destruct Hfree as [_ Hnd _]; by inversion Hnd).
  assert (Hfresh : forall k', t !! k' <> Some p) by (intros k' E; apply (Hdisj _ _ E); set_solver).
  assert (Hpk : page_ok pk) by (eapply pr_ok; eauto).
  assert (Hne : p <> pk) by (intros ->; by apply (Hfresh k)).
  split; [by apply link_pt_rep| |done| | |done].
  - intros va Hva Hal. rewrite <- Hmap by done. unfold pt_map. pose proof (PX_range 0 va).
    destruct (decide ([PX 2 va; PX 1 va] = k ++ [i])) as [E|E].
    + rewrite E, lookup_insert_eq, Hn, link_slot by (done || lia). by rewrite decide_True.
    + rewrite lookup_insert_ne by done. destruct (t !! [PX 2 va; PX 1 va]) as [q|] eqn:Hq; [|done].
      assert (q <> p) by (intros ->; by apply (Hfresh _ Hq)).
      assert (q <> pk).
      { intros ->. pose proof (pr_inj _ _ _ Hpt _ _ _ Hk Hq) as E'. rewrite E' in Hl. cbn in Hl. lia. }
      rewrite link_slot by (done || lia || by eapply pr_ok). by rewrite !decide_False by naive_solver.
  - eapply free_pages_outside with (s := kalloc_post p s) (P := fun q => q = p \/ q = pk);
      [by apply kalloc_free_pages|done| |].
    + intros a Ha. rewrite link_out by done. by rewrite kalloc_post_out by auto.
    + intros q [-> | ->]; (split; [by apply page_ok_aligned|]); [done|].
      intros ?. apply (Hdisj _ _ Hk). set_solver.
  - intros k' q. rewrite lookup_insert_Some. intros [[_ <-]|[_ Hq]]; [done|].
    intros ?. apply (Hdisj _ _ Hq). set_solver.
Qed.

(** [s'] comes from [s] by a change of page-table pages that takes at most [n] new
    pages, from the front of the free list [l]. *)
Record grown (n : nat) (s : pmem) (t : ptshape) (l : list Z)
    (s' : pmem) (t' : ptshape) (l' : list Z) : Prop := {
  gr_sub : t ⊆ t';
  gr_new : exists new, l = new ++ l' /\ (length new <= n)%nat /\
    forall k p, t' !! k = Some p -> t !! k = Some p \/ p ∈ new;
  gr_mem : same_outside (mem s) (mem s') (in_table t');
  gr_held : held s' = held s;
}.

Lemma grown_refl s t l : grown 0 s t l s t l.
Proof. split; [done| |done|done]. exists []. naive_solver. Qed.

Lemma in_table_sub t t' p : t ⊆ t' -> in_table t p -> in_table t' p.
Proof. intros Hs [k Hk]. exists k. by eapply lookup_weaken. Qed.

Lemma grown_trans n1 n2 s1 t1 l1 s2 t2 l2 s3 t3 l3 :
  grown n1 s1 t1 l1 s2 t2 l2 -> grown n2 s2 t2 l2 s3 t3 l3 ->
  grown (n1 + n2) s1 t1 l1 s3 t3 l3.
Proof.
  intros [S1 (new1 & -> & L1 & N1) M1 H1] [S2 (new2 & -> & L2 & N2) M2 H2]. split.
  - by transitivity t2.
  - exists (new1 ++ new2). split; [by rewrite app_assoc|]. split; [rewrite length_app; lia|].
    intros k p Hp. destruct (N2 _ _ Hp) as [Hp'|]; [destruct (N1 _ _ Hp')|]; set_solver.
  - eapply same_outside_trans; [done..| |done]. intros p. by apply in_table_sub.
  - congruence.
Qed.

Lemma grown_le n n' s t l s' t' l' : grown n s t l s' t' l' -> (n <= n')%nat -> grown n' s t l s' t' l'.
Proof. intros [? (new & ? & ? & ?) ? ?] ?. split; [done| |done|done]. exists new. split; [done|]. split; [lia|done]. Qed.

(** One level of [walk] with [alloc]: the lower table is found or made, or
    there is no free page left. *)
Lemma walk_alloc_level s root t u l k p level va :
  as_rep s root t u l -> t !! k = Some p -> (length k <= 1)%nat ->
  let i := PX (Z.of_nat (S level)) va in
  (l = [] /\ t !! (k ++ [i]) = None /\ walk_loop (S level) p va true s = Ret 0 s) \/
  exists q s' t' l', walk_loop (S level) p va true s = walk_loop level q va true s' /\
    t' !! (k ++ [i]) = Some q /\ as_rep s' root t' u l' /\ grown 1 s t l s' t' l'.
Proof.
  intros Hrep Hk Hl i. rewrite (walk_down _ root t k p) by (done || apply Hrep). fold i.
  assert (Hi : 0 <= i < 512) by (apply PX_range; lia).
  destruct (t !! (k ++ [i])) as [q|] eqn:E.
  { right. exists q, s, t, l. split; [done|]. split; [done|]. split; [done|].
    eapply grown_le; [apply grown_refl|lia]. }
  cbn [negb]. destruct l as [|q l].
  - left. split; [done|]. split; [done|]. by rewrite (bind_ret _ _ _ 0 s) by (apply kalloc_empty; apply Hrep).
  - right. assert (Hq : page_ok q) by (destruct (ar_free _ _ _ _ _ Hrep) as [_ _ Ho]; by inversion Ho).
    exists q, (link_post q p i s), (<[k ++ [i] := q]> t), l.
    split; [|split; [by rewrite lookup_insert_eq|split; [by apply link_as_rep|]]].
    + erewrite bind_ret by (eapply kalloc_cons; apply Hrep).
      pose proof (page_ok_range q Hq). destruct (Z.eqb_spec q 0); [lia|]. done.
    + split; [by apply insert_subseteq| | |done].
      * exists [q]. split; [done|]. split; [done|]. intros k' p'. rewrite lookup_insert_Some. set_solver.
      * eapply same_outside_mono; [by apply link_out|]. intros p' [-> | ->].
        -- exists (k ++ [i]). apply lookup_insert_eq.
        -- exists k. rewrite lookup_insert_ne; [done|]. intros Ek. rewrite Ek in E. congruence.
Qed.

(** [walk] with [alloc] keeps the address space, takes at most two free pages,
    and fails only when they run out. *)
Lemma walk_alloc s root t u l va :
  as_rep s root t u l -> 0 <= va < MAXVA ->
  exists r s' t' l', walk root va true s = Ret r s' /\ as_rep s' root t' u l' /\
    grown 2 s t l s' t' l' /\
    (r = 0 /\ l' = [] /\ (length l < 2)%nat /\ t !! [PX 2 va; PX 1 va] = None \/
     exists p, t' !! [PX 2 va; PX 1 va] = Some p /\ r = p + 8 * PX 0 va).
Proof.
  intros Hrep Hva. unfold walk. destruct (Z.leb_spec MAXVA va); [lia|].
  destruct (walk_alloc_level s root t u l [] root 1 va Hrep) as [(-> & Hn & E)|(q & s1 & t1 & l1 & E & Hq & R1 & G1)];
    [apply Hrep|cbn; lia| |]; cbn [app] in *.
  { exists 0, s, t, []. split; [done|]. split; [done|]. split; [eapply grown_le; [apply grown_refl|lia]|].
    left. split_and!; [done|done|cbn; lia|]. apply (pr_closed _ _ _ (ar_pt _ _ _ _ _ Hrep) _ _ Hn). }
  rewrite E.
  destruct (walk_alloc_level s1 root t1 u l1 _ q 0 va R1 Hq) as [(-> & Hn & E')|(q' & s2 & t2 & l2 & E' & Hq' & R2 & G2)];
    [cbn; lia| |]; rewrite E'.
  - exists 0, s1, t1, []. split; [done|]. split; [done|]. split; [eapply grown_le; [done|lia]|].
    left. destruct G1 as [Hs (new & -> & Hlen & _) _ _]. split_and!; [done|done|rewrite app_nil_r; lia|].
    eapply lookup_weaken_None; [|done]. exact Hn.
  - exists (q' + 8 * PX 0 va), s2, t2, l2. split; [done|]. split; [done|].
    split; [exact (grown_trans 1 1 _ _ _ _ _ _ _ _ _ G1 G2)|]. right. by exists q'.
Qed.
End RepFacts.
