(* ===== verification/VmMap.v ===== *)
(** [mappages] and [uvmunmap] (kernel/vm.c) on the finite-map view of an address
    space: mapping a range inserts its entries, unmapping deletes them and
    gives the pages back. *)

From S2P Require Import Prelude Riscv Mem Sync Kalloc Vm VmPt.

(** The entry [mappages] writes. *)
Definition leaf_pte (pa perm : Z) : Z := Z.lor (Z.lor (PA2PTE pa) perm) PTE_V.

(** [n] pages from [a] mapped to the pages from [pa]. *)
Fixpoint map_range (n : nat) (a pa perm : Z) (u : aspace) : aspace :=
  match n with
  | O => u
  | S n' => map_range n' (a + PGSIZE) (pa + PGSIZE) perm (<[a := leaf_pte pa perm]> u)
  end.

(** [n] pages from [a] unmapped. *)
Fixpoint unmap_range (n : nat) (a : Z) (u : aspace) : aspace :=
  match n with
  | O => u
  | S n' => unmap_range n' (a + PGSIZE) (delete a u)
  end.

Lemma mod_add_PGSIZE a : a mod PGSIZE = 0 -> (a + PGSIZE) mod PGSIZE = 0.
Proof. intros. page_lia. Qed.

Lemma lookup_map_range n a pa perm u va :
  a mod PGSIZE = 0 ->
  map_range n a pa perm u !! va =
  if decide (va mod PGSIZE = 0 /\ a <= va < a + Z.of_nat n * PGSIZE)
  then Some (leaf_pte (pa + (va - a)) perm) else u !! va.
Proof.
  revert a pa u. induction n as [|n IH]; intros a pa u Ha; cbn [map_range].
  - rewrite decide_False by lia. done.
  - rewrite IH by by apply mod_add_PGSIZE. repeat case_decide; try page_lia.
    + do 2 f_equal. lia.
    + replace va with a by page_lia. rewrite lookup_insert_eq. do 2 f_equal. lia.
    + apply lookup_insert_ne. intros ->. page_lia.
    + apply lookup_insert_ne. intros ->. page_lia.
Qed.

Lemma lookup_unmap_range n a u va :
  a mod PGSIZE = 0 ->
  unmap_range n a u !! va =
  if decide (va mod PGSIZE = 0 /\ a <= va < a + Z.of_nat n * PGSIZE) then None else u !! va.
Proof.
  revert a u. induction n as [|n IH]; intros a u Ha; cbn [unmap_range].
  - rewrite decide_False by lia. done.
  - rewrite IH by by apply mod_add_PGSIZE. repeat case_decide; try page_lia; try done.
    + replace va with a by page_lia. by rewrite lookup_delete_eq.
    + apply lookup_delete_ne. intros ->. page_lia.
    + apply lookup_delete_ne. intros ->. page_lia.
Qed.

Lemma valid_leaf_pte pa perm : valid (leaf_pte pa perm) = true.
Proof. apply valid_lor_V. Qed.

Lemma perm_V_range perm : 0 <= perm < 1024 -> 0 <= Z.lor perm PTE_V < 1024.
Proof.
  intros H. split; [apply Z.lor_nonneg; done || (split; [lia|done])|].
  destruct (decide (Z.lor perm PTE_V = 0)) as [->|Hne]; [done|].
  change 1024 with (2 ^ 10). apply Z.log2_lt_pow2.
  - pose proof (proj2 (Z.lor_nonneg perm PTE_V)). assert (0 <= PTE_V) by done. lia.
  - rewrite Z.log2_lor by (done || lia). apply Z.max_lub_lt; [|done].
    destruct (decide (perm = 0)) as [->|]; [done|]. apply Z.log2_lt_pow2; lia.
Qed.

Lemma leaf_pte_eq pa perm : leaf_pte pa perm = Z.lor (PA2PTE pa) (Z.lor perm PTE_V).
Proof. unfold leaf_pte. by rewrite Z.lor_assoc. Qed.

Lemma leaf_pte_range pa perm : 0 <= pa < 2 ^ 56 -> 0 <= perm < 1024 -> 0 <= leaf_pte pa perm < 2 ^ 54.
Proof.
  intros Hpa Hp. pose proof (perm_V_range perm Hp). rewrite leaf_pte_eq, PA2PTE_lor by lia.
  pose proof (Z.div_pos pa PGSIZE). pose proof (Z.div_lt_upper_bound pa PGSIZE (2 ^ 44)).
  unfold PGSIZE in *. lia.
Qed.

Lemma PTE2PA_leaf pa perm :
  0 <= pa < 2 ^ 56 -> pa mod PGSIZE = 0 -> 0 <= perm < 1024 -> PTE2PA (leaf_pte pa perm) = pa.
Proof. intros. rewrite leaf_pte_eq. apply PTE2PA_PA2PTE; [done..|]. by apply perm_V_range. Qed.

Lemma PTE_FLAGS_leaf pa perm :
  0 <= pa < 2 ^ 56 -> 0 <= perm < 1024 -> PTE_FLAGS (leaf_pte pa perm) = Z.lor perm PTE_V.
Proof. intros. rewrite leaf_pte_eq. apply PTE_FLAGS_PA2PTE; [done|]. by apply perm_V_range. Qed.

Section VmMap.
Context {LY : Layout} {LYok : LayoutOk}.

(** What the entry address [walk] found holds. *)
Lemma leaf_read s root t u l va p :
  as_rep s root t u l -> 0 <= va < MAXVA -> va mod PGSIZE = 0 ->
  t !! [PX 2 va; PX 1 va] = Some p ->
  match u !! va with
  | Some pte => load64 (mem s) (p + 8 * PX 0 va) = pte /\ valid pte = true
  | None => valid (load64 (mem s) (p + 8 * PX 0 va)) = false
  end.
Proof.
  intros R Hva Ha Hp. pose proof (ar_map _ _ _ _ _ va R Hva Ha) as Hm. unfold pt_map in Hm.
  rewrite Hp in Hm. cbv zeta in Hm. destruct (valid _) eqn:E; rewrite <- Hm; done.
Qed.

Lemma leaf_table s root t u l va pte :
  as_rep s root t u l -> u !! va = Some pte ->
  exists p, t !! [PX 2 va; PX 1 va] = Some p /\ load64 (mem s) (p + 8 * PX 0 va) = pte /\ valid pte = true.
Proof.
  intros R Hu. destruct (ar_dom _ _ _ _ _ R va pte Hu) as [Hva Ha].
  pose proof (ar_map _ _ _ _ _ va R Hva Ha) as Hm. unfold pt_map in Hm. rewrite Hu in Hm.
  destruct (t !! _) as [p|] eqn:Hp; [|done]. exists p. split; [done|].
  pose proof (leaf_read _ _ _ _ _ va p R Hva Ha Hp) as Hl. by rewrite Hu in Hl.
Qed.

(** Two page-aligned addresses with the same entry are equal. *)
Lemma leaf_slot_inj root m t va va' p :
  pt_rep m root t -> 0 <= va < 2 ^ 39 -> 0 <= va' < 2 ^ 39 ->
  va mod PGSIZE = 0 -> va' mod PGSIZE = 0 ->
  t !! [PX 2 va; PX 1 va] = Some p -> t !! [PX 2 va'; PX 1 va'] = Some p ->
  PX 0 va = PX 0 va' -> va = va'.
Proof.
  intros Hpt Hva Hva' Ha Ha' Hp Hp' H0. pose proof (pr_inj _ _ _ Hpt _ _ _ Hp Hp') as [= E2 E1].
  assert (E : PGROUNDDOWN va = PGROUNDDOWN va') by (apply PX_inj; done).
  by rewrite !PGROUNDDOWN_id in E.
Qed.

(** Writing the leaf entry of [va] changes the address space at [va] only. *)
Definition leaf_post (p va v : Z) (s : pmem) : pmem :=
  set_mem (store64 (mem s) (p + 8 * PX 0 va) v) s.

Lemma leaf_out p va v s :
  same_outside (mem s) (mem (leaf_post p va v s)) (fun q => q = p).
Proof.
  intros a Ha. specialize (Ha p eq_refl). cbn. pose proof (PX_range 0 va).
  apply load8_store64_out. unfold PGSIZE in *. lia.
Qed.

Lemma leaf_write s root t u l va p v :
  as_rep s root t u l -> 0 <= va < MAXVA -> va mod PGSIZE = 0 ->
  t !! [PX 2 va; PX 1 va] = Some p -> 0 <= v < 2 ^ 64 ->
  as_rep (leaf_post p va v s) root t (if valid v then <[va := v]> u else delete va u) l.
Proof.
  intros R Hva Ha Hp Hv. pose proof R as [Hpt Hmap Hdom Hfree Hdisj Hlock].
  pose proof (pr_ok _ _ _ Hpt) as Hok. pose proof (PX_range 0 va ltac:(lia)) as H0.
  split; [| | | |done|done].
  - split; try apply Hpt. intros k q i Hk Hl Hi. cbn.
    rewrite load64_store64_ne; [by apply Hpt|]. apply slot_disjoint; [by eapply page_ok_aligned, Hok..| | |];
      [done..|]. left. intros ->. pose proof (pr_inj _ _ _ Hpt _ _ _ Hk Hp). subst k. cbn in Hl. lia.
  - intros va' Hva' Ha'. unfold pt_map. destruct (decide (va' = va)) as [->|Hne].
    + rewrite Hp. cbn. rewrite load64_store64_eq, u64_small by done.
      destruct (valid v); [by rewrite lookup_insert_eq|by rewrite lookup_delete_eq].
    + replace ((if valid v then <[va:=v]> u else delete va u) !! va') with (u !! va')
        by (destruct (valid v); [rewrite lookup_insert_ne|rewrite lookup_delete_ne]; done).
      rewrite <- Hmap by done. unfold pt_map. destruct (t !! [PX 2 va'; _]) as [q|] eqn:Hq; [|done].
      cbn. rewrite load64_store64_ne; [done|]. pose proof (PX_range 0 va' ltac:(lia)).
      apply slot_disjoint; [by eapply page_ok_aligned, Hok..|done|done|].
      destruct (decide (q = p)) as [->|]; [right|by left]. intros E. apply Hne.
      assert (MAXVA < 2 ^ 39) by done. eapply leaf_slot_inj; try done; lia.
  - intros va' pte. destruct (valid v).
    + rewrite lookup_insert_Some. naive_solver.
    + rewrite lookup_delete_Some. naive_solver.
  - eapply free_pages_outside; [done|done|apply leaf_out|]. intros q ->.
    split; [by eapply page_ok_aligned, Hok|by eapply Hdisj].
Qed.

Lemma leaf_grown s t l p va v k :
  t !! k = Some p -> grown 0 s t l (leaf_post p va v s) t l.
Proof.
  intros Hp. split; [done| | |done]; [exists []; naive_solver|].
  eapply same_outside_mono; [apply leaf_out|]. intros q ->. by exists k.
Qed.

(** ** mappages *)

(** None of the [n] pages from [a] is mapped. *)
Definition unmapped (n : nat) (a : Z) (u : aspace) : Prop :=
  forall i, 0 <= i < Z.of_nat n -> u !! (a + i * PGSIZE) = None.

(** How mapping [n] pages from [a] can end: all mapped; no free page left, with
    the first [k] pages mapped; or a page was already mapped. *)
Inductive mappages_outcome (n : nat) (s : pmem) (root : Z) (t : ptshape) (u : aspace) (l : list Z)
    (a pa perm : Z) : outcome pmem Z -> Prop :=
| mo_ok s' t' l' :
    unmapped n a u -> as_rep s' root t' (map_range n a pa perm u) l' ->
    grown (2 * n) s t l s' t' l' -> mappages_outcome n s root t u l a pa perm (Ret 0 s')
| mo_nomem k s' t' :
    (k < n)%nat -> (length l < 2 * n)%nat ->
    unmapped k a u -> as_rep s' root t' (map_range k a pa perm u) [] ->
    grown (2 * n) s t l s' t' [] -> mappages_outcome n s root t u l a pa perm (Ret (-1) s')
| mo_remap : ~ unmapped n a u -> mappages_outcome n s root t u l a pa perm (Panic "remap").

(** One iteration of the loop, [k] being the rest of it. *)
Lemma map_page s root t u l a v (k : M pmem Z) :
  as_rep s root t u l -> 0 <= a < MAXVA -> a mod PGSIZE = 0 -> 0 <= v < 2 ^ 64 -> valid v = true ->
  let o := (let! pte := walk root a true in
            if pte =? 0 then mret_ (-1)
            else let! v0 := rd64 pte in if valid v0 then panic "remap" else wr64 pte v ;; k) s in
  (is_Some (u !! a) /\ o = Panic "remap") \/
  u !! a = None /\
  ((exists s' t' l', o = k s' /\ as_rep s' root t' (<[a := v]> u) l' /\ grown 2 s t l s' t' l') \/
   (exists s' t', o = Ret (-1) s' /\ as_rep s' root t' u [] /\ grown 2 s t l s' t' [] /\ (length l < 2)%nat)).
Proof.
  intros R Ha Hal Hv HV o.
  destruct (walk_alloc s root t u l a R Ha) as (r & s1 & t1 & l1 & E & R1 & G1 & Hr).
  subst o. rewrite (bind_ret _ _ _ _ _ E). destruct Hr as [(-> & -> & Hlen & Hn)|(p & Hp & ->)].
  - right. split; [|right; eauto 6].
    pose proof (ar_map _ _ _ _ _ a R Ha Hal) as Hm. unfold pt_map in Hm. by rewrite Hn in Hm.
  - pose proof (PX_range 0 a ltac:(lia)).
    pose proof (page_ok_range p (pr_ok _ _ _ (ar_pt _ _ _ _ _ R1) _ _ Hp)).
    destruct (Z.eqb_spec (p + 8 * PX 0 a) 0); [lia|]. mstep.
    pose proof (leaf_read _ _ _ _ _ a p R1 Ha Hal Hp) as Hl.
    destruct (u !! a) as [pte|] eqn:Hu.
    + left. destruct Hl as [-> ->]. done.
    + right. split; [done|]. left. exists (leaf_post p a v s1), t1, l1. rewrite Hl. split; [done|].
      split.
      * pose proof (leaf_write _ _ _ _ _ a p v R1 Ha Hal Hp Hv) as R2. by rewrite HV in R2.
      * exact (grown_trans 2 0 _ _ _ _ _ _ _ _ _ G1 (leaf_grown s1 t1 l1 p a v _ Hp)).
Qed.

Lemma unmapped_cons n a u v :
  u !! a = None -> unmapped (S n) a u <-> unmapped n (a + PGSIZE) (<[a := v]> u).
Proof.
  intros Hu. split; intros H i Hi.
  - rewrite lookup_insert_ne by (unfold PGSIZE in *; lia).
    rewrite <- (H (i + 1)) by lia. f_equal. lia.
  - destruct (decide (i = 0)) as [->|]; [by rewrite Z.add_0_r|].
    rewrite <- (H (i - 1)) by lia. rewrite lookup_insert_ne by (unfold PGSIZE in *; lia). f_equal. lia.
Qed.

Lemma mappages_loop_spec n fuel s root t u l a pa perm :
  (S n <= fuel)%nat -> as_rep s root t u l -> 0 <= a -> a + Z.of_nat n * PGSIZE < MAXVA ->
  a mod PGSIZE = 0 -> 0 <= pa -> pa + Z.of_nat (S n) * PGSIZE <= 2 ^ 56 -> 0 <= perm < 1024 ->
  mappages_outcome (S n) s root t u l a pa perm
    (mappages_loop fuel root a (a + Z.of_nat n * PGSIZE) pa perm s).
Proof.
  revert fuel s t u l a pa. induction n as [|n IH]; intros [|fuel] s t u l a pa Hf R Ha Hlast Hal Hpa Hpb Hperm;
    try lia; cbn [mappages_loop]; fold (leaf_pte pa perm).
  all: assert (HM : MAXVA < 2 ^ 39) by done.
  all: assert (Hv : 0 <= leaf_pte pa perm < 2 ^ 64)
    by (pose proof (leaf_pte_range pa perm); unfold PGSIZE in *; lia).
  all: match goal with |- mappages_outcome _ _ _ _ _ _ _ _ _ (mbind_ _ (fun pte => if _ then _ else
         mbind_ _ (fun v => if _ then _ else mbind_ _ (fun _ => ?k))) _) =>
      destruct (map_page s root t u l a (leaf_pte pa perm) k R) as
        [[Hs ->]|[Hu [(s1 & t1 & l1 & -> & R1 & G1)|(s1 & t1 & -> & R1 & G1 & Hl)]]];
      [unfold PGSIZE in *; lia|done|done|apply valid_leaf_pte|..] end.
  all: try (apply mo_remap; intros Hun; specialize (Hun 0); rewrite Z.mul_0_l, Z.add_0_r in Hun;
            rewrite Hun in Hs by lia; by destruct Hs).
  all: try (apply (mo_nomem _ _ _ _ _ _ _ _ _ 0 s1 t1); [lia|lia|by intros ??; lia|done|
            eapply grown_le; [done|lia]]).
  - rewrite Z.add_0_r, Z.eqb_refl. apply (mo_ok _ _ _ _ _ _ _ _ _ s1 t1 l1); [|done|done].
    intros i Hi. replace i with 0 by lia. by rewrite Z.add_0_r.
  - destruct (Z.eqb_spec a (a + Z.of_nat (S n) * PGSIZE)); [unfold PGSIZE in *; lia|].
    rewrite !u64_small by (unfold PGSIZE in *; lia).
    replace (a + Z.of_nat (S n) * PGSIZE) with (a + PGSIZE + Z.of_nat n * PGSIZE) by lia.
    destruct (IH fuel s1 t1 (<[a := leaf_pte pa perm]> u) l1 (a + PGSIZE) (pa + PGSIZE))
      as [s2 t2 l2 Hun R2 G2|k s2 t2 Hk Hlen Hun R2 G2|Hun];
      try (unfold PGSIZE in *; lia); try done; [by apply mod_add_PGSIZE|..].
    + apply (mo_ok _ _ _ _ _ _ _ _ _ s2 t2 l2); [by eapply unmapped_cons|done|].
      eapply grown_le; [exact (grown_trans _ _ _ _ _ _ _ _ _ _ _ G1 G2)|lia].
    + apply (mo_nomem _ _ _ _ _ _ _ _ _ (S k) s2 t2); [lia| |by eapply unmapped_cons|done|].
      * destruct G1 as [_ (new & -> & ? & _) _ _]. rewrite length_app. lia.
      * eapply grown_le; [exact (grown_trans _ _ _ _ _ _ _ _ _ _ _ G1 G2)|lia].
    + apply mo_remap. intros H. apply Hun. by apply unmapped_cons.
Qed.

(** The number of pages [mappages] touches. *)
Definition range_pages (va size : Z) : nat :=
  Z.to_nat ((PGROUNDDOWN (va + size - 1) - PGROUNDDOWN va) / PGSIZE + 1).

Lemma mappages_outcome_ok s root t u l va size pa perm :
  as_rep s root t u l -> 0 <= va -> 0 < size -> va + size <= MAXVA -> 0 <= perm < 1024 ->
  0 <= pa -> pa + Z.of_nat (range_pages va size) * PGSIZE <= 2 ^ 56 ->
  mappages_outcome (range_pages va size) s root t u l (PGROUNDDOWN va) pa perm
    (mappages root va size pa perm s).
Proof.
  intros R Hva Hsz Hmax Hperm Hpa Hpb. unfold mappages. assert (HM : MAXVA < 2 ^ 39) by done.
  rewrite u64_small by lia. unfold range_pages in *.
  set (last := PGROUNDDOWN (va + size - 1)) in *. set (a := PGROUNDDOWN va) in *.
  assert (Ha : a mod PGSIZE = 0) by apply PGROUNDDOWN_aligned.
  assert (Hlast : last mod PGSIZE = 0) by apply PGROUNDDOWN_aligned.
  assert (Hle : 0 <= a <= last) by (unfold a, last; rewrite !PGROUNDDOWN_eq; page_lia).
  assert (last <= va + size - 1) by apply PGROUNDDOWN_bounds.
  destruct (Z.leb_spec a last); [|lia].
  assert (Hn : exists n, Z.to_nat ((last - a) / PGSIZE + 1) = S n /\ last = a + Z.of_nat n * PGSIZE).
  { exists (Z.to_nat ((last - a) / PGSIZE)). split; page_lia. }
  destruct Hn as (n & Hn & El). rewrite Hn in *. rewrite El.
  apply mappages_loop_spec; try done; lia.
Qed.

(** Mapping one page, as [uvmalloc] and [uvmcopy] do. *)
Lemma mappages_page s root t u l a pa perm :
  as_rep s root t u l -> 0 <= a < MAXVA -> a mod PGSIZE = 0 -> page_ok pa -> 0 <= perm < 1024 ->
  u !! a = None ->
  (exists s' t' l', mappages root a PGSIZE pa perm s = Ret 0 s' /\
     as_rep s' root t' (<[a := leaf_pte pa perm]> u) l' /\ grown 2 s t l s' t' l') \/
  (exists s' t', mappages root a PGSIZE pa perm s = Ret (-1) s' /\
     as_rep s' root t' u [] /\ grown 2 s t l s' t' [] /\ (length l < 2)%nat).
Proof.
  intros R Ha Hal Hpa Hperm Hu. pose proof (page_ok_range pa Hpa).
  assert (HM : MAXVA mod PGSIZE = 0) by done.
  assert (Hn : range_pages a PGSIZE = 1%nat).
  { unfold range_pages. rewrite !PGROUNDDOWN_eq. page_lia. }
  pose proof (mappages_outcome_ok s root t u l a PGSIZE pa perm R) as Ho.
  rewrite Hn, (PGROUNDDOWN_id a Hal) in Ho.
  assert (Hhi : pa < 2 ^ 40) by (destruct Hpa; unfold PHYSTOP, KERNBASE in *; lia).
  destruct Ho as [s' t' l' _ R' G'|k s' t' Hk Hl _ R' G'|Hun]; try (done || page_lia).
  - left. eauto 6.
  - right. exists s', t'. replace k with O in R' by lia. done.
  - destruct Hun. intros i Hi. replace i with 0 by lia. by rewrite Z.add_0_r.
Qed.

(** ** uvmunmap *)

(** The entries [ptes] of consecutive pages from [a], each one a leaf. *)
Fixpoint mapped_at (u : aspace) (a : Z) (ptes : list Z) : Prop :=
  match ptes with
  | [] => True
  | pte :: ptes' => u !! a = Some pte /\ PTE_FLAGS pte <> PTE_V /\ mapped_at u (a + PGSIZE) ptes'
  end.

(** The pages of [ptes] may be freed: they are distinct allocator pages, neither
    free nor used by the page table. *)
Definition disposable (ptes : list Z) (t : ptshape) (l : list Z) : Prop :=
  NoDup ((PTE2PA <$> ptes) ++ l) /\ Forall page_ok (PTE2PA <$> ptes) /\
  forall p, p ∈ PTE2PA <$> ptes -> ~ in_table t p.

Lemma mapped_at_delete u a b ptes :
  b < a -> mapped_at u a ptes -> mapped_at (delete b u) a ptes.
Proof.
  revert a. induction ptes as [|pte ptes IH]; intros a Hb; [done|]. intros (Hu & Hf & Hr).
  split; [by rewrite lookup_delete_ne by lia|]. split; [done|]. apply IH; [page_lia|done].
Qed.

Lemma kfree_as_rep s root t u l pa :
  as_rep s root t u l -> page_ok pa -> pa ∉ l -> ~ in_table t pa ->
  kfree pa s = Ret tt (kfree_post pa s) /\ as_rep (kfree_post pa s) root t u (pa :: l).
Proof.
  intros [Hpt Hmap Hdom Hfree Hdisj Hlock] Hpa Hl Ht. split; [by apply kfree_ok|].
  assert (Hm : forall k p a, t !! k = Some p -> p <= a < p + PGSIZE ->
    load8 (mem (kfree_post pa s)) a = load8 (mem s) a).
  { intros k p a Hp Ha. apply kfree_post_out. intros Hin.
    assert (pa <> p) by (intros ->; apply Ht; by exists k).
    destruct (page_disjoint pa p) as [?|?]; [by apply page_ok_aligned|
      by eapply page_ok_aligned, (pr_ok _ _ _ Hpt)|done|lia|lia]. }
  split; [by eapply pt_rep_frame| |done|by apply kfree_free_pages; [apply kend_pos|..]| |done].
  - intros va Hva Ha. rewrite <- Hmap by done. by apply pt_map_frame.
  - intros k p Hp [->|Hin]%elem_of_cons; [apply Ht; by exists k|by apply (Hdisj k p)].
Qed.

(** One iteration of [uvmunmap]'s loop, [k] being the rest of it. *)
Lemma unmap_page s root t u l a pte (do_free : bool) (k : M pmem unit) :
  as_rep s root t u l -> u !! a = Some pte -> PTE_FLAGS pte <> PTE_V ->
  (do_free = true -> page_ok (PTE2PA pte) /\ PTE2PA pte ∉ l /\ ~ in_table t (PTE2PA pte)) ->
  exists s', (let! pte := walk root a false in
     if pte =? 0 then panic "uvmunmap: walk"
     else let! v := rd64 pte in
       if Z.land v PTE_V =? 0 then panic "uvmunmap: not mapped"
       else if PTE_FLAGS v =? PTE_V then panic "uvmunmap: not a leaf"
       else (if do_free then kfree (PTE2PA v) else mret_ tt) ;; wr64 pte 0 ;; k) s = k s' /\
   as_rep s' root t (delete a u) (if do_free then PTE2PA pte :: l else l) /\
   same_outside (mem s) (mem s') (fun q => in_table t q \/ do_free = true /\ q = PTE2PA pte) /\
   held s' = held s.
Proof.
  intros R Hu Hf Hfree. destruct (ar_dom _ _ _ _ _ R a pte Hu) as [Ha Hal].
  destruct (leaf_table _ _ _ _ _ a pte R Hu) as (p & Hp & Hld & Hv).
  rewrite (bind_ret _ _ _ _ _ (walk_lookup root t a s (ar_pt _ _ _ _ _ R) Ha)), Hp.
  pose proof (PX_range 0 a ltac:(lia)).
  pose proof (page_ok_range p (pr_ok _ _ _ (ar_pt _ _ _ _ _ R) _ _ Hp)).
  destruct (Z.eqb_spec (p + 8 * PX 0 a) 0); [lia|]. mstep. rewrite Hld, land_V_valid, Hv. cbn [negb].
  destruct (Z.eqb_spec (PTE_FLAGS pte) PTE_V); [done|]. destruct do_free.
  - destruct (Hfree eq_refl) as (Hpa & Hl & Ht).
    destruct (kfree_as_rep s root t u l _ R Hpa Hl Ht) as [E R1].
    exists (leaf_post p a 0 (kfree_post (PTE2PA pte) s)). rewrite (bind_ret _ _ _ _ _ E).
    split; [done|]. split; [exact (leaf_write _ _ _ _ _ a p 0 R1 Ha Hal Hp ltac:(lia))|]. split; [|done].
    intros b Hb. rewrite leaf_out by (intros q ->; apply Hb; left; by eexists).
    apply kfree_post_out. apply Hb. by right.
  - exists (leaf_post p a 0 s). split; [done|].
    split; [exact (leaf_write _ _ _ _ _ a p 0 R Ha Hal Hp ltac:(lia))|]. split; [|done].
    eapply same_outside_mono; [apply leaf_out|]. intros q ->. left. by eexists.
Qed.

Lemma uvmunmap_loop_spec ptes fuel s root t u l a (do_free : bool) :
  (length ptes < fuel)%nat -> as_rep s root t u l -> 0 <= a ->
  a + Z.of_nat (length ptes) * PGSIZE <= MAXVA -> mapped_at u a ptes ->
  (do_free = true -> disposable ptes t l) ->
  exists s', uvmunmap_loop fuel root a (a + Z.of_nat (length ptes) * PGSIZE) do_free s = Ret tt s' /\
    as_rep s' root t (unmap_range (length ptes) a u)
      (if do_free then reverse (PTE2PA <$> ptes) ++ l else l) /\
    same_outside (mem s) (mem s') (fun q => in_table t q \/ do_free = true /\ q ∈ PTE2PA <$> ptes) /\
    held s' = held s.
Proof.
  assert (HM : MAXVA < 2 ^ 39) by done.
  revert fuel s u l a. induction ptes as [|pte ptes IH]; intros [|fuel] s u l a Hfu R Ha Hmax Hmp Hd;
    cbn [length] in *; try lia; cbn [uvmunmap_loop].
  { rewrite Z.mul_0_l, Z.add_0_r, Z.ltb_irrefl. exists s. split; [done|].
    split; [by destruct do_free|done]. }
  destruct Hmp as (Hu & Hf & Hr). assert (0 <= Z.of_nat (length ptes)) by lia.
  destruct (Z.ltb_spec a (a + Z.of_nat (S (length ptes)) * PGSIZE)); [|unfold PGSIZE in *; lia].
  cbn [negb].
  destruct (unmap_page s root t u l a pte do_free
     (uvmunmap_loop fuel root (u64 (a + PGSIZE)) (a + Z.of_nat (S (length ptes)) * PGSIZE) do_free) R Hu Hf)
    as (s1 & -> & R1 & M1 & H1).
  { intros Hdo. destruct (Hd Hdo) as (Hn & Ho & Ht). cbn in Hn, Ho. inversion Hn. inversion Ho. subst.
    split; [done|]. split; [set_solver|]. apply Ht. by left. }
  rewrite u64_small by (unfold PGSIZE in *; lia).
  replace (a + Z.of_nat (S (length ptes)) * PGSIZE) with (a + PGSIZE + Z.of_nat (length ptes) * PGSIZE) by lia.
  destruct (IH fuel s1 (delete a u) (if do_free then PTE2PA pte :: l else l) (a + PGSIZE))
    as (s2 & E2 & R2 & M2 & H2); [lia|done|unfold PGSIZE in *; lia|lia|
      apply mapped_at_delete; [unfold PGSIZE; lia|done]| |].
  { intros Hdo. destruct (Hd Hdo) as (Hn & Ho & Ht). subst do_free. cbn in Hn, Ho. inversion Ho. subst.
    split; [by rewrite <- Permutation_middle|]. split; [done|]. intros p Hp. apply Ht. by right. }
  exists s2. split; [done|]. split.
  - destruct do_free; [|done]. cbn [fmap list_fmap]. rewrite reverse_cons, <- app_assoc. done.
  - split; [|congruence]. eapply same_outside_trans; [exact M1|exact M2|..]; cbn; set_solver.
Qed.

Lemma uvmunmap_ok ptes s root t u l va (do_free : bool) :
  as_rep s root t u l -> 0 <= va -> va mod PGSIZE = 0 ->
  va + Z.of_nat (length ptes) * PGSIZE <= MAXVA -> mapped_at u va ptes ->
  (do_free = true -> disposable ptes t l) ->
  exists s', uvmunmap root va (Z.of_nat (length ptes)) do_free s = Ret tt s' /\
    as_rep s' root t (unmap_range (length ptes) va u)
      (if do_free then reverse (PTE2PA <$> ptes) ++ l else l) /\
    same_outside (mem s) (mem s') (fun q => in_table t q \/ do_free = true /\ q ∈ PTE2PA <$> ptes) /\
    held s' = held s.
Proof.
  intros R Hva Hal Hmax Hmp Hd. unfold uvmunmap. rewrite Hal. cbn [negb Z.eqb].
  assert (HM : MAXVA < 2 ^ 39) by done.
  rewrite (u64_small (_ * PGSIZE)), u64_small by (unfold PGSIZE in *; lia).
  apply uvmunmap_loop_spec; try done. lia.
Qed.
End VmMap.
