(* ===== verification/VmUser.v ===== *)
(** User address spaces (kernel/vm.c): growing and shrinking one ([uvmalloc],
    [uvmdealloc]) and copying one for [fork] ([uvmcopy]).

    The two loops that add pages, in [uvmalloc] and [uvmcopy], have the same
    shape: take a page, fill it, map it, and on failure undo the whole range.
    [add_page] is one iteration of it and [undo_pages] the way back. *)

From S2P Require Import Prelude Riscv Mem Sync Kalloc Vm VmPt VmMap.

(** Consecutive pages from [a] given the entries [ptes]. *)
Fixpoint map_list (a : Z) (ptes : list Z) (u : aspace) : aspace :=
  match ptes with
  | [] => u
  | pte :: ptes' => map_list (a + PGSIZE) ptes' (<[a := pte]> u)
  end.

Lemma map_list_app a ptes pte u :
  map_list a (ptes ++ [pte]) u = <[a + Z.of_nat (length ptes) * PGSIZE := pte]> (map_list a ptes u).
Proof.
  revert a u. induction ptes as [|x ptes IH]; intros a u; cbn [map_list app length].
  - by rewrite Z.mul_0_l, Z.add_0_r.
  - rewrite IH. f_equal. lia.
Qed.

Lemma map_list_lookup_out a ptes u va :
  va < a \/ a + Z.of_nat (length ptes) * PGSIZE <= va -> map_list a ptes u !! va = u !! va.
Proof.
  revert a u. induction ptes as [|x ptes IH]; intros a u H; [done|]. cbn [map_list length] in *.
  unfold PGSIZE in *. rewrite IH by lia. apply lookup_insert_ne. lia.
Qed.

Lemma map_list_mapped a ptes u :
  Forall (fun pte => PTE_FLAGS pte <> PTE_V) ptes -> mapped_at (map_list a ptes u) a ptes.
Proof.
  revert a u. induction ptes as [|x ptes IH]; intros a u; [done|]. intros [Hx Hp]%Forall_cons.
  cbn [map_list mapped_at]. split; [|split; [done|by apply IH]].
  rewrite map_list_lookup_out by (unfold PGSIZE; lia). apply lookup_insert_eq.
Qed.

Lemma unmap_map_list a ptes u :
  a mod PGSIZE = 0 -> unmapped (length ptes) a u -> unmap_range (length ptes) a (map_list a ptes u) = u.
Proof.
  intros Ha Hu. apply map_eq. intros va. rewrite lookup_unmap_range by done. case_decide as Hc.
  - symmetry. rewrite <- (Hu ((va - a) / PGSIZE)) by page_lia. f_equal. page_lia.
  - destruct (decide (va < a \/ a + Z.of_nat (length ptes) * PGSIZE <= va));
      [by apply map_list_lookup_out|].
    assert (Hva : va mod PGSIZE <> 0) by lia. clear Hu Hc n.
    revert a u Ha. induction ptes as [|x ptes IH]; intros a u Ha; [done|]. cbn [map_list].
    rewrite IH by by apply mod_add_PGSIZE. apply lookup_insert_ne. by intros ->.
Qed.

Section VmUser.
Context {LY : Layout} {LYok : LayoutOk}.

(** From [s] to [s'] the pages [pgs] and at most [n] page-table pages were taken
    from the free list; only these and table pages were written. *)
Record took (n : nat) (pgs : list Z) (s : pmem) (t : ptshape) (l : list Z)
    (s' : pmem) (t' : ptshape) (l' : list Z) : Prop := {
  tk_sub : t ⊆ t';
  tk_new : exists tabs, l ≡ₚ pgs ++ tabs ++ l' /\ (length tabs <= n)%nat /\
    forall k p, t' !! k = Some p -> t !! k = Some p \/ p ∈ tabs;
  tk_mem : same_outside (mem s) (mem s') (fun q => in_table t q \/ q ∈ l);
  tk_held : held s' = held s;
}.

Lemma took_refl s t l : took 0 [] s t l s t l.
Proof. split; [done| |done|done]. exists []. naive_solver. Qed.

Lemma took_in n pgs s t l s' t' l' q :
  took n pgs s t l s' t' l' -> in_table t' q \/ q ∈ l' -> in_table t q \/ q ∈ l.
Proof.
  intros [_ (tabs & Hl & _ & Ht) _ _] [[k Hk]|Hq]; [|right; rewrite Hl; set_solver].
  destruct (Ht _ _ Hk); [left; by exists k|right; rewrite Hl; set_solver].
Qed.

Lemma took_trans n1 n2 pgs1 pgs2 s1 t1 l1 s2 t2 l2 s3 t3 l3 :
  took n1 pgs1 s1 t1 l1 s2 t2 l2 -> took n2 pgs2 s2 t2 l2 s3 t3 l3 ->
  took (n1 + n2) (pgs1 ++ pgs2) s1 t1 l1 s3 t3 l3.
Proof.
  intros T1 T2. pose proof (fun q => took_in _ _ _ _ _ _ _ _ q T1) as Hin.
  destruct T1 as [S1 (tb1 & P1 & L1 & N1) M1 H1], T2 as [S2 (tb2 & P2 & L2 & N2) M2 H2]. split.
  - by transitivity t2.
  - exists (tb1 ++ tb2). split.
    + rewrite P1, P2. rewrite <- !app_assoc. apply Permutation_app_head.
      rewrite !app_assoc. do 2 apply Permutation_app_tail. apply Permutation_app_comm.
    + split; [rewrite length_app; lia|]. intros k p Hp.
      destruct (N2 _ _ Hp) as [Hp'|]; [destruct (N1 _ _ Hp')|]; set_solver.
  - by eapply same_outside_trans.
  - congruence.
Qed.

Lemma took_le n n' pgs s t l s' t' l' :
  took n pgs s t l s' t' l' -> (n <= n')%nat -> took n' pgs s t l s' t' l'.
Proof.
  intros [? (tb & ? & ? & ?) ? ?] ?. split; [done| |done|done]. exists tb. split; [done|]. split; [lia|done].
Qed.

Lemma grown_took n s t l s' t' l' : grown n s t l s' t' l' -> took n [] s t l s' t' l'.
Proof.
  intros [Hs (new & -> & Hl & Hn) Hm Hh]. split; [done| | |done].
  - exists new. done.
  - eapply same_outside_mono; [done|]. intros p [k Hk]. destruct (Hn _ _ Hk); [left; by exists k|set_solver].
Qed.

(** Taking the first free page and writing into it. *)
Definition take_post (pg : Z) (m : memory) (s : pmem) : pmem := set_mem m (kalloc_post pg s).

Lemma take_as_rep s root t u l pg m :
  as_rep s root t u (pg :: l) -> same_outside (mem s) m (fun q => q = pg) ->
  as_rep (take_post pg m s) root t u l /\ page_ok pg /\ pg ∉ l /\ ~ in_table t pg /\
  took 0 [pg] s t (pg :: l) (take_post pg m s) t l.
Proof.
  intros [Hpt Hmap Hdom Hfree Hdisj Hlock] Hm.
  assert (Hpg : page_ok pg) by (destruct Hfree as [_ _ Ho]; by inversion Ho).
  assert (Hnl : pg ∉ l) by (destruct Hfree as [_ Hn _]; by inversion Hn).
  assert (Hnt : ~ in_table t pg) by (intros [k Hk]; apply (Hdisj _ _ Hk); set_solver).
  assert (Hframe : forall k p a, t !! k = Some p -> p <= a < p + PGSIZE -> load8 m a = load8 (mem s) a).
  { intros k p a Hk Ha. eapply same_outside_page; [done| | |done].
    - intros q ->. split; [by apply page_ok_aligned|]. intros ->. apply Hnt. by exists k.
    - by eapply page_ok_aligned, (pr_ok _ _ _ Hpt). }
  split; [|split; [done|split; [done|split; [done|]]]].
  - split; [by eapply pt_rep_frame| |done| | |done].
    + intros va Hva Ha. rewrite <- Hmap by done. by apply pt_map_frame.
    + eapply (free_pages_outside (kalloc_post pg s) _ l (fun q => q = pg)); [by apply kalloc_free_pages|done| |].
      * intros a Ha. rewrite kalloc_post_out by by apply Ha. by apply Hm.
      * intros q ->. split; [by apply page_ok_aligned|done].
    + intros k p Hk Hin. apply (Hdisj _ _ Hk). set_solver.
  - split; [done| | |done]; [exists []; naive_solver|].
    eapply same_outside_mono; [done|]. set_solver.
Qed.

(** One page of [uvmalloc]'s and [uvmcopy]'s loops: [fill] writes the page
    taken, [fail] undoes the loop, [k] goes on. *)
Lemma add_page s root t u l a perm (fill : Z -> memory -> memory) (fail k : M pmem Z) :
  as_rep s root t u l -> 0 <= a < MAXVA -> a mod PGSIZE = 0 -> 0 <= perm < 1024 -> u !! a = None ->
  (forall pg m, same_outside m (fill pg m) (fun q => q = pg)) ->
  let o := (let! pg := kalloc in
    if pg =? 0 then fail
    else modify (fun s => set_mem (fill pg (mem s)) s) ;;
      let! r := mappages root a PGSIZE pg perm in
      if negb (r =? 0) then kfree pg ;; fail else k) s in
  (exists s' t' l' pg, o = k s' /\ page_ok pg /\ as_rep s' root t' (<[a := leaf_pte pg perm]> u) l' /\
     took 2 [pg] s t l s' t' l' /\
     forall b, pg <= b < pg + PGSIZE -> load8 (mem s') b = load8 (fill pg (mem (kalloc_post pg s))) b) \/
  (exists s' t' l', o = fail s' /\ as_rep s' root t' u l' /\ took 2 [] s t l s' t' l' /\ (length l < 3)%nat).
Proof.
  intros R Ha Hal Hperm Hu Hfill o. destruct l as [|pg l].
  { right. exists s, t, []. subst o. rewrite (bind_ret _ _ _ 0 s) by (apply kalloc_empty; apply R).
    split; [done|]. split; [done|]. split; [eapply took_le; [apply took_refl|lia]|cbn; lia]. }
  set (m1 := fill pg (mem (kalloc_post pg s))).
  destruct (take_as_rep s root t u l pg m1 R) as (R1 & Hpg & Hnl & Hnt & T1).
  { intros b Hb. unfold m1. rewrite Hfill by done. rewrite kalloc_post_out; [done|by apply Hb]. }
  subst o. rewrite (bind_ret _ _ _ _ _ (kalloc_cons pg l s (ar_free _ _ _ _ _ R) (ar_lock _ _ _ _ _ R))).
  pose proof (page_ok_range pg Hpg). destruct (Z.eqb_spec pg 0); [lia|]. mstep. cbv beta.
  change (set_mem _ (kalloc_post pg s)) with (take_post pg m1 s).
  destruct (mappages_page _ root t u l a pg perm R1 Ha Hal Hpg Hperm Hu)
    as [(s2 & t2 & l2 & E & R2 & G2)|(s2 & t2 & E & R2 & G2 & Hlen)];
    rewrite (bind_ret _ _ _ _ _ E); cbn [negb Z.eqb].
  all: pose proof (took_trans _ _ _ _ _ _ _ _ _ _ _ _ _ T1 (grown_took _ _ _ _ _ _ _ G2)) as T2.
  all: assert (Hnt2 : ~ in_table t2 pg)
    by (intros Hin; destruct (took_in _ _ _ _ _ _ _ _ pg (grown_took _ _ _ _ _ _ _ G2) (or_introl Hin)); done).
  - left. exists s2, t2, l2, pg. split; [done|]. split; [done|]. split; [done|]. split; [done|].
    intros b Hb. eapply (same_outside_page m1 _ _ pg b (gr_mem _ _ _ _ _ _ _ G2)); [|by apply page_ok_aligned|done].
    intros p Hp. split; [|intros ->; done]. destruct Hp as [k' Hk'].
    by eapply page_ok_aligned, (pr_ok _ _ _ (ar_pt _ _ _ _ _ R2)).
  - right. destruct (kfree_as_rep s2 root t2 u [] pg R2 Hpg) as [E3 R3]; [set_solver|done|].
    rewrite (bind_ret _ _ _ _ _ E3). exists (kfree_post pg s2), t2, [pg].
    split; [done|]. split; [done|]. split; [|cbn; lia].
    destruct T2 as [Hs (tb & P & Hl & Hn) Hm Hh]. split; [done| | |done].
    + exists tb. split; [|done]. rewrite P. cbn [app]. by rewrite app_nil_r, Permutation_cons_append.
    + intros b Hb. rewrite kfree_post_out; [by apply Hm|]. apply Hb. set_solver.
Qed.

(** ** Filling a range *)

(** The entries of the pages [pgs], with the permissions [perms] by position. *)
Definition leaves (perms : nat -> Z) (pgs : list Z) : list Z :=
  imap (fun i pg => leaf_pte pg (perms i)) pgs.

(** Page [i] of [pgs] holds the bytes [want i]. *)
Definition filled (want : nat -> Z -> Z) (pgs : list Z) (m : memory) : Prop :=
  forall i pg b, pgs !! i = Some pg -> 0 <= b < PGSIZE -> load8 m (pg + b) = want i b.

Lemma leaves_app perms pgs pg :
  leaves perms (pgs ++ [pg]) = leaves perms pgs ++ [leaf_pte pg (perms (length pgs))].
Proof. unfold leaves. rewrite imap_app. cbn. by rewrite Nat.add_0_r. Qed.

Lemma length_leaves perms pgs : length (leaves perms pgs) = length pgs.
Proof. apply length_imap. Qed.

Section Fill.
Context (perms : nat -> Z) (want : nat -> Z -> Z).
Context (s0 : pmem) (root : Z) (t0 : ptshape) (u0 : aspace) (l0 : list Z) (base : Z).
Context (Hperms : forall i, 0 <= perms i < 1024 /\ Z.lor (perms i) PTE_V <> PTE_V).
Context (R0 : as_rep s0 root t0 u0 l0) (Hbase : 0 <= base) (Hal : base mod PGSIZE = 0).

(** The pages [pgs] have been added from [base] on, starting from [s0]. *)
Record filling (n : nat) (pgs : list Z) (s : pmem) (t : ptshape) (l : list Z) : Prop := {
  fl_rep : as_rep s root t (map_list base (leaves perms pgs) u0) l;
  fl_took : took n pgs s0 t0 l0 s t l;
  fl_ok : Forall page_ok pgs;
  fl_want : filled want pgs (mem s);
}.

Lemma filling_nil : filling 0 [] s0 t0 l0.
Proof. split; [done|apply took_refl|constructor|done]. Qed.

Lemma leaves_PTE2PA pgs : Forall page_ok pgs -> PTE2PA <$> leaves perms pgs = pgs.
Proof.
  intros Hok. apply list_eq. intros i. unfold leaves. rewrite list_lookup_fmap, list_lookup_imap.
  destruct (pgs !! i) as [pg|] eqn:E; [|done]. cbn. f_equal.
  rewrite Forall_lookup in Hok. specialize (Hok i pg E). pose proof (page_ok_range pg Hok).
  apply PTE2PA_leaf; [lia|by apply page_ok_aligned|apply Hperms].
Qed.

Lemma leaves_flags pgs : Forall page_ok pgs -> Forall (fun pte => PTE_FLAGS pte <> PTE_V) (leaves perms pgs).
Proof.
  intros Hok. rewrite Forall_lookup in *. intros i pte. unfold leaves. rewrite list_lookup_imap.
  destruct (pgs !! i) as [pg|] eqn:E; [|done]. intros [= <-]. specialize (Hok i pg E).
  pose proof (page_ok_range pg Hok). rewrite PTE_FLAGS_leaf by (lia || apply Hperms). apply Hperms.
Qed.

(** The pages added are neither free nor page-table pages. *)
Lemma filling_fresh n pgs s t l pg :
  filling n pgs s t l -> pg ∈ pgs -> pg ∉ l /\ ~ in_table t pg /\ pg ∈ l0 /\ ~ in_table t0 pg.
Proof.
  intros [_ [_ (tabs & P & _ & Ht) _ _] _ _] Hin.
  pose proof (fp_nodup _ _ (ar_free _ _ _ _ _ R0)) as Hn. rewrite P in Hn.
  apply NoDup_app in Hn as (_ & Hd & _). specialize (Hd pg Hin).
  assert (Hl0 : pg ∈ l0) by (rewrite P; set_solver).
  assert (Ht0 : ~ in_table t0 pg) by (intros [k Hk]; by apply (ar_disj _ _ _ _ _ R0 _ _ Hk)).
  split; [set_solver|]. split; [|done]. intros [k Hk]. destruct (Ht _ _ Hk); [apply Ht0; by exists k|set_solver].
Qed.

Lemma filling_nodup n pgs s t l : filling n pgs s t l -> NoDup (pgs ++ l).
Proof.
  intros [_ [_ (tabs & P & _ & _) _ _] _ _].
  pose proof (fp_nodup _ _ (ar_free _ _ _ _ _ R0)) as Hn. rewrite P in Hn.
  rewrite (Permutation_app_comm tabs) in Hn. rewrite app_assoc in Hn. by apply NoDup_app in Hn as (? & _ & _).
Qed.

Lemma filled_frame n pgs s t l s' :
  filling n pgs s t l ->
  same_outside (mem s) (mem s') (fun q => in_table t q \/ q ∈ l) -> filled want pgs (mem s').
Proof.
  intros F Hm i pg b Hi Hb. pose proof (list_elem_of_lookup_2 _ _ _ Hi) as Hin.
  destruct (filling_fresh _ _ _ _ _ pg F Hin) as (Hnl & Hnt & _).
  pose proof F as [R _ Hok Hw]. rewrite <- (Hw i pg b Hi Hb).
  rewrite Forall_forall in Hok.
  eapply (same_outside_page _ _ _ pg); [done| |by apply page_ok_aligned, Hok|lia].
  intros p [[k Hk]|Hp]; (split; [|intros ->; try done]).
  - by eapply page_ok_aligned, (pr_ok _ _ _ (ar_pt _ _ _ _ _ R)).
  - apply Hnt. by exists k.
  - pose proof (fp_ok _ _ (ar_free _ _ _ _ _ R)) as Ho. rewrite Forall_forall in Ho. by apply page_ok_aligned, Ho.
Qed.

Lemma filling_add n pgs s t l pg s' t' l' :
  filling n pgs s t l -> page_ok pg ->
  as_rep s' root t' (<[base + Z.of_nat (length pgs) * PGSIZE := leaf_pte pg (perms (length pgs))]>
     (map_list base (leaves perms pgs) u0)) l' ->
  took 2 [pg] s t l s' t' l' ->
  (forall b, 0 <= b < PGSIZE -> load8 (mem s') (pg + b) = want (length pgs) b) ->
  filling (n + 2) (pgs ++ [pg]) s' t' l'.
Proof.
  intros F Hpg R' T' Hw. split.
  - rewrite leaves_app, map_list_app, length_leaves. done.
  - eapply took_trans; [apply F|done].
  - apply Forall_app. split; [apply F|by constructor].
  - intros i q b [Hi|[Hi Hq]]%lookup_app_Some Hb.
    + by eapply (filled_frame _ _ _ _ _ s' F (tk_mem _ _ _ _ _ _ _ _ T')).
    + destruct (i - length pgs)%nat eqn:E; [|done]. injection Hq as <-.
      replace i with (length pgs) by lia. by apply Hw.
Qed.

Lemma filling_fail n pgs s t l s' t' l' :
  filling n pgs s t l -> as_rep s' root t' (map_list base (leaves perms pgs) u0) l' ->
  took 2 [] s t l s' t' l' -> filling (n + 2) pgs s' t' l'.
Proof.
  intros F R' T'. split; [done| |apply F|].
  - rewrite <- (app_nil_r pgs). eapply took_trans; [apply F|done].
  - by eapply (filled_frame _ _ _ _ _ s' F (tk_mem _ _ _ _ _ _ _ _ T')).
Qed.

(** Unmapping the range gives every page back and restores the address space. *)
Lemma undo_pages n pgs s t l :
  filling n pgs s t l -> base + Z.of_nat (length pgs) * PGSIZE <= MAXVA -> unmapped (length pgs) base u0 ->
  exists s' l', uvmunmap root base (Z.of_nat (length pgs)) true s = Ret tt s' /\
    as_rep s' root t u0 l' /\ took n [] s0 t0 l0 s' t l'.
Proof.
  intros F Hmax Hun. pose proof F as [R T Hok _].
  destruct (uvmunmap_ok (leaves perms pgs) s root t (map_list base (leaves perms pgs) u0) l base true)
    as (s' & E & R' & M' & H'); rewrite ?length_leaves in *; try done.
  - apply map_list_mapped. by apply leaves_flags.
  - intros _. unfold disposable. rewrite leaves_PTE2PA by done.
    split; [by eapply filling_nodup|]. split; [done|]. intros p Hp. by eapply filling_fresh.
  - rewrite leaves_PTE2PA in R', M' by done.
    rewrite <- (length_leaves perms pgs), unmap_map_list in R' by (done || by rewrite length_leaves).
    exists s', (reverse pgs ++ l). split; [done|]. split; [done|].
    pose proof (fun q => took_in _ _ _ _ _ _ _ _ q T) as Hin.
    destruct T as [Hs (tabs & P & Hlen & Ht) Hm Hh]. split; [done| | |congruence].
    + exists tabs. split; [|done]. rewrite P, reverse_Permutation. cbn [app].
      rewrite !app_assoc. apply Permutation_app_tail, Permutation_app_comm.
    + eapply same_outside_trans; [exact Hm|exact M'|done|].
      intros q [Hq|[_ Hq]]; [apply Hin; by left|right]. rewrite P. set_solver.
Qed.

(** [uvmdealloc] back to [base] is that unmapping. *)
Lemma uvmdealloc_undo n pgs s t l :
  filling n pgs s t l -> base + Z.of_nat (length pgs) * PGSIZE <= MAXVA -> unmapped (length pgs) base u0 ->
  exists s' l', uvmdealloc root (base + Z.of_nat (length pgs) * PGSIZE) base s = Ret base s' /\
    as_rep s' root t u0 l' /\ took n [] s0 t0 l0 s' t l'.
Proof.
  intros F Hmax Hun. unfold uvmdealloc. assert (HM : MAXVA = 2 ^ 38) by done.
  assert (Ha : (base + Z.of_nat (length pgs) * PGSIZE) mod PGSIZE = 0) by page_lia.
  rewrite !PGROUNDUP_id by (done || page_lia). destruct (Z.leb_spec (base + Z.of_nat (length pgs) * PGSIZE) base).
  - assert (pgs = []) as -> by (destruct pgs; [done|cbn in *; unfold PGSIZE in *; lia]).
    exists s, l. pose proof F as [R T _ _]. cbn in *. rewrite Z.add_0_r. done.
  - destruct (Z.ltb_spec base (base + Z.of_nat (length pgs) * PGSIZE)); [|lia].
    destruct (undo_pages n pgs s t l F Hmax Hun) as (s' & l' & E & R' & T').
    replace (base + Z.of_nat (length pgs) * PGSIZE - base) with (Z.of_nat (length pgs) * PGSIZE) by lia.
    rewrite Z.div_mul, s32_small, u64_small by page_lia. rewrite (bind_ret _ _ _ _ _ E). eauto.
Qed.
End Fill.

(** ** uvmalloc *)

Definition user_perm : Z := Z.lor (Z.lor (Z.lor PTE_W PTE_X) PTE_R) PTE_U.

Lemma memset_page_out pg c m : same_outside m (memset m pg c PGSIZE) (fun q => q = pg).
Proof. intros a Ha. apply load8_memset_out. by apply Ha. Qed.

Lemma unmapped_le n n' a u : unmapped n a u -> (n' <= n)%nat -> unmapped n' a u.
Proof. intros H Hn i Hi. apply H. lia. Qed.

(** Rounding up the number of bytes still to allocate gives the number of pages. *)
Definition pages_of (sz : Z) : nat := Z.to_nat ((sz + PGSIZE - 1) / PGSIZE).

Section UvmAlloc.
Context (s0 : pmem) (root : Z) (t0 : ptshape) (u0 : aspace) (l0 : list Z) (base newsz : Z).
Context (R0 : as_rep s0 root t0 u0 l0) (Hbase : 0 <= base) (Hal : base mod PGSIZE = 0).
Context (Hnew : base <= newsz <= MAXVA).
Let N := pages_of (newsz - base).
Context (Hun : unmapped N base u0).
Let zeros := (fun (_ : nat) (_ : Z) => 0).
Let perms := (fun _ : nat => user_perm).

Lemma user_perms_ok (i : nat) : 0 <= perms i < 1024 /\ Z.lor (perms i) PTE_V <> PTE_V.
Proof. vm_compute. done. Qed.

Lemma uvmalloc_loop_spec m fuel pgs s t l :
  (length pgs + m = N)%nat -> (m < fuel)%nat ->
  filling perms zeros s0 root t0 u0 l0 base (2 * length pgs) pgs s t l ->
  let o := uvmalloc_loop fuel root base (base + Z.of_nat (length pgs) * PGSIZE) newsz s in
  (exists s' t' l' pgs', o = Ret newsz s' /\ length pgs' = N /\
     filling perms zeros s0 root t0 u0 l0 base (2 * N) pgs' s' t' l') \/
  (exists s' t' l', o = Ret 0 s' /\ as_rep s' root t' u0 l' /\ took (2 * N) [] s0 t0 l0 s' t' l' /\
     (length l0 < 3 * N)%nat).
Proof.
  assert (HM : MAXVA = 2 ^ 38) by done. unfold N, pages_of in *.
  revert fuel pgs s t l. induction m as [|m IH]; intros [|fuel] pgs s t l Hm Hf F; try lia;
    cbn [uvmalloc_loop]; unfold memset_; fold user_perm; set (a := base + Z.of_nat (length pgs) * PGSIZE).
  { destruct (Z.ltb_spec a newsz); [page_lia|]. left. exists s, t, l, pgs.
    split; [done|]. split; [lia|]. by replace (Z.to_nat _) with (length pgs) by lia. }
  destruct (Z.ltb_spec a newsz); [|page_lia]. cbn [negb].
  assert (Hfail : forall s1 t1 l1,
    as_rep s1 root t1 (map_list base (leaves perms pgs) u0) l1 -> took 2 [] s t l s1 t1 l1 ->
    (length l < 3)%nat -> exists s' l', (uvmdealloc root a base ;; mret_ 0) s1 = Ret 0 s' /\
      as_rep s' root t1 u0 l' /\ took (2 * length pgs + 2) [] s0 t0 l0 s' t1 l' /\
      (length l0 < 3 * (length pgs + 1))%nat).
  { intros s1 t1 l1 R1 T1 Hlen.
    assert (F1 : filling perms zeros s0 root t0 u0 l0 base (2 * length pgs + 2) pgs s1 t1 l1)
      by (eapply filling_fail; eauto using user_perms_ok).
    eapply uvmdealloc_undo in F1 as (s2 & l2 & E & R2 & T2);
      [|apply user_perms_ok|done|done|done|page_lia|eapply unmapped_le; [done|lia]].
    exists s2, l2. fold a in E. rewrite (bind_ret _ _ _ _ _ E). split; [done|]. split; [done|].
    split; [done|]. destruct F as [_ [_ (tabs & P & Hl & _) _ _] _ _]. rewrite P, !length_app. lia. }
  destruct (add_page s root t _ l a user_perm (fun pg m => memset m pg 0 PGSIZE)
     (uvmdealloc root a base ;; mret_ 0) (uvmalloc_loop fuel root base (u64 (a + PGSIZE)) newsz)
     (fl_rep _ _ _ _ _ _ _ _ _ _ _ _ _ F))
    as [(s1 & t1 & l1 & pg & -> & Hpg & R1 & T1 & Hz)|(s1 & t1 & l1 & -> & R1 & T1 & Hlen)].
  - page_lia.
  - unfold a. page_lia.
  - vm_compute; done.
  - rewrite map_list_lookup_out by (rewrite length_leaves; lia).
    apply Hun. split; lia.
  - intros. apply memset_page_out.
  - rewrite u64_small by (unfold PGSIZE in *; lia).
    replace (a + PGSIZE) with (base + Z.of_nat (length (pgs ++ [pg])) * PGSIZE)
      by (rewrite length_app; cbn; unfold a; lia).
    apply (IH fuel (pgs ++ [pg]) s1 t1 l1); [rewrite length_app; cbn; lia|lia|].
    rewrite length_app. replace (2 * _)%nat with (2 * length pgs + 2)%nat by (cbn; lia).
    eapply filling_add; try done; try apply user_perms_ok. intros b Hb. rewrite Hz by lia. rewrite load8_memset.
    by rewrite decide_True by lia.
  - right. destruct (Hfail s1 t1 l1 R1 T1 Hlen) as (s2 & l2 & -> & R2 & T2 & Hl).
    exists s2, t1, l2. split; [done|]. split; [done|]. split; [eapply took_le; [done|lia]|lia].
Qed.
End UvmAlloc.

(** ** uvmcopy *)

(** A page table whose pages and entries are untouched is still there. *)
Lemma as_rep_lookup s s' root t u l va pte (P : Z -> Prop) :
  as_rep s root t u l -> same_outside (mem s) (mem s') P ->
  (forall p, P p -> p mod PGSIZE = 0 /\ ~ in_table t p) -> u !! va = Some pte ->
  exists a, a <> 0 /\ walk root va false s' = Ret a s' /\ load64 (mem s') a = pte /\ valid pte = true.
Proof.
  intros R Hm HP Hu. destruct (ar_dom _ _ _ _ _ R va pte Hu) as [Hva Ha].
  destruct (leaf_table _ _ _ _ _ va pte R Hu) as (p & Hp & Hld & Hv).
  assert (Hframe : forall k q a, t !! k = Some q -> q <= a < q + PGSIZE -> load8 (mem s') a = load8 (mem s) a).
  { intros k q a Hk Hin. eapply same_outside_page; [done| | |done].
    - intros x Hx. destruct (HP x Hx) as [? Hn]. split; [done|]. intros ->. apply Hn. by exists k.
    - by eapply page_ok_aligned, (pr_ok _ _ _ (ar_pt _ _ _ _ _ R)). }
  pose proof (pt_rep_frame _ _ _ _ (ar_pt _ _ _ _ _ R) Hframe) as Hpt.
  exists (p + 8 * PX 0 va). pose proof (PX_range 0 va ltac:(lia)).
  pose proof (page_ok_range p (pr_ok _ _ _ Hpt _ _ Hp)). split; [lia|].
  split; [|split; [|done]].
  - rewrite (walk_lookup root t va s' Hpt Hva). by rewrite Hp.
  - rewrite <- Hld. apply load64_same_page; [|done]. intros. by eapply Hframe.
Qed.

Lemma PTE_FLAGS_range pte : 0 <= PTE_FLAGS pte < 1024.
Proof.
  unfold PTE_FLAGS. change 0x3FF with (Z.ones 10). rewrite Z.land_ones by lia. apply Z.mod_pos_bound. lia.
Qed.

Lemma PTE_FLAGS_V pte : valid pte = true -> Z.lor (PTE_FLAGS pte) PTE_V = PTE_FLAGS pte.
Proof.
  rewrite valid_testbit. intros Hv. apply Z.bits_inj'. intros n Hn. unfold PTE_FLAGS.
  rewrite Z.lor_spec, Z.land_spec. change PTE_V with (2 ^ 0).
  destruct (decide (n = 0)) as [->|]; [by rewrite Hv|].
  rewrite Z.pow2_bits_false by lia. apply orb_false_r.
Qed.

Lemma mapped_at_lookup u a ptes i pte :
  mapped_at u a ptes -> ptes !! i = Some pte ->
  u !! (a + Z.of_nat i * PGSIZE) = Some pte /\ PTE_FLAGS pte <> PTE_V.
Proof.
  revert a i. induction ptes as [|x ptes IH]; intros a i Hm Hi; [done|]. destruct Hm as (Hu & Hf & Hr).
  destruct i as [|i]; [injection Hi as <-; by rewrite Z.add_0_r|].
  destruct (IH _ _ Hr Hi) as [<- ?]. split; [f_equal; lia|done].
Qed.

Section UvmCopy.
Context (s0 : pmem) (old new : Z) (to tn : ptshape) (uo un : aspace) (l0 ptes : list Z) (sz : Z).
Context (Ro : as_rep s0 old to uo l0) (Rn : as_rep s0 new tn un l0).
Context (Hsz : 0 <= sz <= MAXVA) (Hlen : length ptes = pages_of sz).
Context (Hmap : mapped_at uo 0 ptes) (Hdisp : disposable ptes to l0).
Context (Htab : forall p, in_table tn p -> ~ in_table to p).
Context (Hdata : forall p, in_table tn p -> p ∉ PTE2PA <$> ptes).
Context (Hun : unmapped (length ptes) 0 un).
Let N := length ptes.

(** The permissions and the contents of the pages copied. *)
Definition copy_perms (i : nat) : Z := match ptes !! i with Some pte => PTE_FLAGS pte | None => PTE_R end.
Definition copy_bytes (i : nat) (b : Z) : Z :=
  match ptes !! i with Some pte => load8 (mem s0) (PTE2PA pte + b) | None => 0 end.

Lemma copy_perms_ok i : 0 <= copy_perms i < 1024 /\ Z.lor (copy_perms i) PTE_V <> PTE_V.
Proof.
  unfold copy_perms. destruct (ptes !! i) as [pte|] eqn:E; [|by vm_compute].
  split; [apply PTE_FLAGS_range|]. destruct (mapped_at_lookup _ _ _ _ _ Hmap E) as [Hu Hf].
  destruct (leaf_table _ _ _ _ _ _ _ Ro Hu) as (p & _ & _ & Hv). by rewrite PTE_FLAGS_V.
Qed.

(** Pages the copy may write are not the parent's. *)
Lemma copy_writes p :
  in_table tn p \/ p ∈ l0 -> p mod PGSIZE = 0 /\ ~ in_table to p /\ p ∉ PTE2PA <$> ptes.
Proof.
  destruct Hdisp as (Hn & _ & _). apply NoDup_app in Hn as (_ & Hd & _). intros [[k Hk]|Hp].
  - split; [by eapply page_ok_aligned, (pr_ok _ _ _ (ar_pt _ _ _ _ _ Rn))|].
    split; [apply Htab|apply Hdata]; by exists k.
  - pose proof (fp_ok _ _ (ar_free _ _ _ _ _ Rn)) as Ho. rewrite Forall_forall in Ho.
    split; [by apply page_ok_aligned, Ho|]. split; [|intros Hq; by apply (Hd p)].
    intros [k Hk]. by apply (ar_disj _ _ _ _ _ Ro _ _ Hk).
Qed.

Lemma memmove_page_out pg pa m : same_outside m (memmove m pg pa PGSIZE) (fun q => q = pg).
Proof. intros a Ha. apply load8_memmove_out. by apply Ha. Qed.

(** The bytes copied into a new page [pg] are the parent's. *)
Lemma copy_source n pgs s t l i pte pg b :
  filling copy_perms copy_bytes s0 new tn un l0 0 n pgs s t l -> ptes !! i = Some pte -> pg ∈ l ->
  0 <= b < PGSIZE ->
  load8 (memmove (mem (kalloc_post pg s)) pg (PTE2PA pte) PGSIZE) (pg + b) = copy_bytes i b.
Proof.
  intros F Hi Hpg Hb. pose proof (fl_took _ _ _ _ _ _ _ _ _ _ _ _ _ F) as T.
  assert (Hin : PTE2PA pte ∈ PTE2PA <$> ptes) by (apply list_elem_of_fmap_2, (list_elem_of_lookup_2 _ _ _ Hi)).
  assert (Hok : PTE2PA pte mod PGSIZE = 0).
  { destruct Hdisp as (_ & Ho & _). rewrite Forall_forall in Ho. by apply page_ok_aligned, Ho. }
  destruct (copy_writes pg (took_in _ _ _ _ _ _ _ _ pg T (or_intror Hpg))) as (Hpa & _ & Hne).
  unfold copy_bytes. rewrite Hi, load8_memmove, decide_True by lia.
  replace (PTE2PA pte + (pg + b - pg)) with (PTE2PA pte + b) by lia. rewrite kalloc_post_out.
  - eapply (same_outside_page _ _ _ (PTE2PA pte)); [apply (tk_mem _ _ _ _ _ _ _ _ T)| |done|lia].
    intros p Hp. destruct (copy_writes p Hp) as (? & _ & Hx). split; [done|]. by intros ->.
  - assert (pg <> PTE2PA pte) as Hx by (by intros ->).
    destruct (page_disjoint pg (PTE2PA pte) Hpa Hok Hx); lia.
Qed.

Lemma uvmcopy_loop_spec m fuel pgs s t l :
  (length pgs + m = N)%nat -> (m < fuel)%nat ->
  filling copy_perms copy_bytes s0 new tn un l0 0 (2 * length pgs) pgs s t l ->
  let o := uvmcopy_loop fuel old new (Z.of_nat (length pgs) * PGSIZE) sz s in
  (exists s' t' l' pgs', o = Ret 0 s' /\ length pgs' = N /\
     filling copy_perms copy_bytes s0 new tn un l0 0 (2 * N) pgs' s' t' l') \/
  (exists s' t' l', o = Ret (-1) s' /\ as_rep s' new t' un l' /\ took (2 * N) [] s0 tn l0 s' t' l' /\
     (length l0 < 3 * N)%nat).
Proof.
  assert (HM : MAXVA = 2 ^ 38) by done. unfold N, pages_of in *.
  revert fuel pgs s t l. induction m as [|m IH]; intros [|fuel] pgs s t l Hm Hf F; try lia;
    cbn [uvmcopy_loop]; unfold memmove_; set (a := Z.of_nat (length pgs) * PGSIZE).
  { destruct (Z.ltb_spec a sz); [page_lia|]. left. exists s, t, l, pgs.
    split; [done|]. split; [lia|]. by replace (length ptes) with (length pgs) by lia. }
  destruct (Z.ltb_spec a sz); [|page_lia]. cbn [negb].
  destruct (lookup_lt_is_Some_2 ptes (length pgs)) as [pte Hpte]; [lia|].
  destruct (mapped_at_lookup _ _ _ _ _ Hmap Hpte) as [Hu Hfl].
  destruct (as_rep_lookup s0 s old to uo l0 a pte _ Ro (tk_mem _ _ _ _ _ _ _ _ (fl_took _ _ _ _ _ _ _ _ _ _ _ _ _ F)))
    as (pa & Hpa0 & Ew & Hld & Hv); [intros p Hp; by destruct (copy_writes p Hp) as (? & ? & _)|done|].
  rewrite (bind_ret _ _ _ _ _ Ew). destruct (Z.eqb_spec pa 0); [done|]. mstep.
  rewrite Hld, land_V_valid, Hv. cbn [negb].
  assert (Hperm : PTE_FLAGS pte = copy_perms (length pgs)) by (unfold copy_perms; by rewrite Hpte).
  rewrite Hperm.
  destruct (add_page s new t _ l a (copy_perms (length pgs)) (fun pg m => memmove m pg (PTE2PA pte) PGSIZE)
     (uvmunmap new 0 (a / PGSIZE) true ;; mret_ (-1)) (uvmcopy_loop fuel old new (u64 (a + PGSIZE)) sz)
     (fl_rep _ _ _ _ _ _ _ _ _ _ _ _ _ F))
    as [(s1 & t1 & l1 & pg & -> & Hpg & R1 & T1 & Hz)|(s1 & t1 & l1 & -> & R1 & T1 & Hl)].
  - page_lia.
  - unfold a. page_lia.
  - apply copy_perms_ok.
  - rewrite map_list_lookup_out by (rewrite length_leaves; lia). apply (Hun (Z.of_nat (length pgs))). lia.
  - intros. apply memmove_page_out.
  - rewrite u64_small by (unfold PGSIZE in *; lia).
    replace (a + PGSIZE) with (Z.of_nat (length (pgs ++ [pg])) * PGSIZE)
      by (rewrite length_app; cbn; unfold a; lia).
    apply (IH fuel (pgs ++ [pg]) s1 t1 l1); [rewrite length_app; cbn; lia|lia|].
    rewrite length_app. replace (2 * _)%nat with (2 * length pgs + 2)%nat by (cbn; lia).
    eapply filling_add; try done; try apply copy_perms_ok.
    intros b Hb. rewrite Hz by lia. eapply copy_source; [done|done| |done].
    destruct (tk_new _ _ _ _ _ _ _ _ T1) as (tabs & -> & _). set_solver.
  - right. assert (F1 : filling copy_perms copy_bytes s0 new tn un l0 0 (2 * length pgs + 2) pgs s1 t1 l1)
      by (eapply filling_fail; try done; apply copy_perms_ok).
    eapply undo_pages in F1 as (s2 & l2 & E & R2 & T2);
      [|apply copy_perms_ok|done|done|done|page_lia|eapply unmapped_le; [done|lia]].
    replace (a / PGSIZE) with (Z.of_nat (length pgs)) by (unfold a; by rewrite Z.div_mul).
    rewrite (bind_ret _ _ _ _ _ E). exists s2, t1, l2. split; [done|]. split; [done|].
    split; [eapply took_le; [done|lia]|].
    destruct F as [_ [_ (tabs & P & Htl & _) _ _] _ _]. rewrite P, !length_app. lia.
Qed.
End UvmCopy.
End VmUser.
