(* ===== verification/VmFree.v ===== *)
(** Freeing an address space (kernel/vm.c): [freewalk] and [uvmfree] return
    every page of the page table and of user memory to the allocator. *)

From S2P Require Import Prelude Riscv Mem Sync Kalloc Vm VmPt VmMap VmUser.

(** Any three indices are those of some page. *)
Lemma PX_compose i2 i1 i0 :
  0 <= i2 < 512 -> 0 <= i1 < 512 -> 0 <= i0 < 512 ->
  let va := i2 * 2 ^ 30 + i1 * 2 ^ 21 + i0 * 2 ^ 12 in
  0 <= va < 2 ^ 39 /\ va mod PGSIZE = 0 /\ PX 2 va = i2 /\ PX 1 va = i1 /\ PX 0 va = i0.
Proof.
  intros H2 H1 H0 va. rewrite !PX_eq by lia.
  change (2 ^ (12 + 9 * 2)) with (2 ^ 30). change (2 ^ (12 + 9 * 1)) with (2 ^ 21).
  change (2 ^ (12 + 9 * 0)) with (2 ^ 12). unfold va, PGSIZE.
  split; [lia|]. repeat split; Z.to_euclidean_division_equations; lia.
Qed.

Section VmFree.
Context {LY : Layout} {LYok : LayoutOk}.

(** Slot [i] of the table page [p] at path [k] is as the shape [t] says, and no
    slot of a last-level table is valid. *)
Definition slot_ok (m : memory) (t : ptshape) (k : list Z) (p i : Z) : Prop :=
  match t !! (k ++ [i]) with
  | Some q => load64 m (p + 8 * i) = Z.lor (PA2PTE q) PTE_V
  | None => valid (load64 m (p + 8 * i)) = false
  end.

(** A table that maps nothing. *)
Lemma empty_slots s root t l k p i :
  as_rep s root t ∅ l -> t !! k = Some p -> 0 <= i < 512 -> slot_ok (mem s) t k p i.
Proof.
  intros R Hk Hi. pose proof (ar_pt _ _ _ _ _ R) as Hpt.
  destruct (decide (length k <= 1)%nat); [by apply (pr_pte _ _ _ Hpt)|].
  pose proof (pr_len _ _ _ Hpt _ _ Hk). destruct k as [|i2 [|i1 [|]]]; cbn in *; try lia.
  unfold slot_ok. destruct (t !! ([i2; i1] ++ [i])) as [q|] eqn:E.
  { apply (pr_len _ _ _ Hpt) in E. cbn in E. lia. }
  assert (H1 : 0 <= i1 < 512) by (apply (pr_idx _ _ _ Hpt [i2] i1 p Hk)).
  assert (H2 : 0 <= i2 < 512).
  { destruct (t !! [i2]) as [q|] eqn:E2; [by apply (pr_idx _ _ _ Hpt [] i2 q)|].
    pose proof (pr_closed _ _ _ Hpt [i2] i1 E2) as E3. cbn in E3. congruence. }
  destruct (PX_compose i2 i1 i H2 H1 Hi) as (Hva & Ha & P2 & P1 & P0).
  pose proof (ar_map39 _ _ _ _ _ R _ Hva Ha) as Hm. unfold pt_map in Hm.
  rewrite P2, P1, P0, Hk, lookup_empty in Hm. cbv zeta in Hm. by destruct (valid _).
Qed.

(** [k'] is at or below the path [k]. *)
Definition under (k k' : list Z) : Prop := exists r, k' = k ++ r.

Section Walk.
Context (root : Z) (t : ptshape) (m0 : memory) (Hpt : pt_rep m0 root t).

Definition table_slots (m : memory) (k : list Z) : Prop :=
  forall k' q i, under k k' -> t !! k' = Some q -> 0 <= i < 512 -> slot_ok m t k' q i.

(** What freeing the pages [fr] out of the table does to the state. *)
Record freed (fr : list Z) (s : pmem) (l : list Z) (s' : pmem) (P : Z -> Prop) : Prop := {
  fd_free : free_pages s' (fr ++ l);
  fd_mem : same_outside (mem s) (mem s') P;
  fd_held : held s' = held s;
}.

Lemma slot_ok_frame m m' k p i :
  slot_ok m t k p i -> load64 m' (p + 8 * i) = load64 m (p + 8 * i) -> slot_ok m' t k p i.
Proof. intros H E. unfold slot_ok in *. by rewrite E. Qed.

Lemma under_app k i k' : under (k ++ [i]) k' -> under k k'.
Proof. intros [r ->]. exists ([i] ++ r). by rewrite app_assoc. Qed.

Lemma under_inj k i j k' : under (k ++ [i]) k' -> under (k ++ [j]) k' -> i = j.
Proof. intros [r ->] [r' E]. rewrite <- !app_assoc in E. apply app_inv_head in E. by injection E. Qed.

Lemma under_not_self k i : ~ under (k ++ [i]) k.
Proof. intros [r E]. apply (f_equal length) in E. rewrite !length_app in E. cbn in E. lia. Qed.

(** Writes to table pages not at or below [k] keep that part of the table. *)
Lemma table_slots_frame m m' k (P : Z -> Prop) :
  table_slots m k -> same_outside m m' P ->
  (forall p, P p -> p mod PGSIZE = 0 /\ forall k', under k k' -> t !! k' <> Some p) ->
  table_slots m' k.
Proof.
  intros Hs Hm HP k' q i Hu Hq Hi. eapply slot_ok_frame; [by apply Hs|].
  apply load64_same_page; [|done]. intros a Ha. eapply same_outside_page; [done| | |done].
  - intros p Hp. destruct (HP p Hp) as [? Hn]. split; [done|]. intros ->. by apply (Hn k').
  - by eapply page_ok_aligned, (pr_ok _ _ _ Hpt).
Qed.

Lemma land_RWX_branch q :
  page_ok q -> Z.land (Z.lor (PA2PTE q) PTE_V) (Z.lor (Z.lor PTE_R PTE_W) PTE_X) = 0.
Proof.
  intros Hq. pose proof (page_ok_range q Hq). apply Z.bits_inj'. intros n Hn.
  rewrite PA2PTE_eq, Z.land_spec, Z.lor_spec, Z.bits_0 by lia.
  change (Z.lor (Z.lor PTE_R PTE_W) PTE_X) with 14. change 1024 with (2 ^ 10).
  destruct (decide (n < 10)) as [Hlt|Hge].
  - rewrite Z.mul_pow2_bits_low by lia.
    assert (Hc : n = 0 \/ n = 1 \/ n = 2 \/ n = 3 \/ 3 < n) by lia.
    destruct Hc as [->|[->|[->|[->|Hc]]]]; try reflexivity.
    rewrite (Z.bits_above_log2 14) by (cbn; lia). apply andb_false_r.
  - rewrite (Z.bits_above_log2 14) by (cbn; lia). apply andb_false_r.
Qed.

Lemma under_none k k' : t !! k = None -> under k k' -> t !! k' = None.
Proof.
  intros Hk [r ->]. induction r as [|i r IH] using rev_ind; [by rewrite app_nil_r|].
  rewrite app_assoc. by apply (pr_closed _ _ _ Hpt).
Qed.

Lemma freed_trans fr1 fr2 s1 l s2 s3 p :
  freed fr1 s1 l s2 (fun x => x = p \/ x ∈ fr1) -> freed fr2 s2 (fr1 ++ l) s3 (fun x => x = p \/ x ∈ fr2) ->
  freed (fr2 ++ fr1) s1 l s3 (fun x => x = p \/ x ∈ fr2 ++ fr1).
Proof.
  intros [F1 M1 H1] [F2 M2 H2]. split; [by rewrite <- app_assoc| |congruence].
  eapply same_outside_trans; [done..| |]; cbv beta; set_solver.
Qed.

(** What [freewalk] does to the table at path [k]: it frees the pages at and
    below [k] and writes nothing else. *)
Definition frees_table (rec : Z -> M pmem unit) (k : list Z) : Prop :=
  forall q s l, t !! k = Some q -> table_slots (mem s) k -> free_pages s l -> LKmem ∉ held s ->
    (forall k' x, under k k' -> t !! k' = Some x -> x ∉ l) ->
    exists s' fr, rec q s = Ret tt s' /\ freed fr s l s' (fun x => x ∈ fr) /\
      forall x, x ∈ fr <-> exists k', under k k' /\ t !! k' = Some x.

(** Freeing the table below entry [i] and clearing the entry. *)
Lemma freewalk_entry (rec : Z -> M pmem unit) k p i q s l :
  t !! k = Some p -> t !! (k ++ [i]) = Some q -> 0 <= i < 512 -> frees_table rec (k ++ [i]) ->
  table_slots (mem s) (k ++ [i]) -> free_pages s l -> LKmem ∉ held s -> p ∉ l ->
  (forall k' x, under (k ++ [i]) k' -> t !! k' = Some x -> x ∉ l) ->
  exists s' fr, (rec q ;; wr64 (p + 8 * i) 0) s = Ret tt s' /\ freed fr s l s' (fun x => x = p \/ x ∈ fr) /\
    (forall x, x ∈ fr <-> exists k', under (k ++ [i]) k' /\ t !! k' = Some x) /\ p ∉ fr /\
    forall j, 0 <= j < 512 -> j <> i -> load64 (mem s') (p + 8 * j) = load64 (mem s) (p + 8 * j).
Proof.
  intros Hk Hq Hi Hrec Hs Hf Hlk Hpl Hl.
  destruct (Hrec q s l Hq Hs Hf Hlk Hl) as (s1 & fr & E & [F1 M1 H1] & Hfr).
  assert (Hal : forall k' x, t !! k' = Some x -> x mod PGSIZE = 0)
    by (intros; by eapply page_ok_aligned, (pr_ok _ _ _ Hpt)).
  assert (Hp : p ∉ fr).
  { rewrite Hfr. intros (k' & Hu & Hk'). rewrite (pr_inj _ _ _ Hpt _ _ _ Hk' Hk) in Hu.
    by apply under_not_self in Hu. }
  exists (set_mem (store64 (mem s1) (p + 8 * i) 0) s1), fr. rewrite (bind_ret _ _ _ _ _ E).
  assert (Hw : same_outside (mem s1) (store64 (mem s1) (p + 8 * i) 0) (fun x => x = p)).
  { intros a Ha. specialize (Ha p eq_refl). apply load8_store64_out. unfold PGSIZE in *. lia. }
  split; [done|]. split; [|split; [done|split; [done|]]].
  - split; [|eapply same_outside_trans; [done..| |]; cbv beta; set_solver|done].
    eapply free_pages_outside; [exact F1|done|exact Hw|]. intros x ->. split; [by eapply Hal|set_solver].
  - intros j Hj Hne. cbn. rewrite load64_store64_ne by (apply slot_disjoint; eauto).
    apply load64_same_page; [|done]. intros a Ha. eapply (same_outside_page _ _ _ p); [exact M1| |by eapply Hal|done].
    intros x Hx. split; [|intros ->; done]. apply Hfr in Hx as (k' & _ & Hk'). by eapply Hal.
Qed.

(** The loop over the entries from [i] on. *)
Lemma freewalk_loop_spec (rec : Z -> M pmem unit) k p n i s l :
  t !! k = Some p -> 0 <= i -> i + Z.of_nat n = 512 -> (forall j, frees_table rec (k ++ [j])) ->
  (forall j, i <= j < 512 -> slot_ok (mem s) t k p j /\ table_slots (mem s) (k ++ [j])) ->
  free_pages s l -> LKmem ∉ held s -> p ∉ l ->
  (forall j k' x, i <= j -> under (k ++ [j]) k' -> t !! k' = Some x -> x ∉ l) ->
  exists s' fr, freewalk_loop rec n p i s = Ret tt s' /\ freed fr s l s' (fun x => x = p \/ x ∈ fr) /\
    (forall x, x ∈ fr <-> exists j k', i <= j < 512 /\ under (k ++ [j]) k' /\ t !! k' = Some x) /\ p ∉ fr.
Proof.
  intros Hk Hi0 Hin Hrec. revert i s l Hi0 Hin. induction n as [|n IH]; intros i s l Hi0 Hin Hs Hf Hlk Hpl Hl;
    cbn [freewalk_loop].
  { exists s, []. split; [done|]. split; [by split|]. split; [|set_solver].
    intros x. split; [by rewrite elem_of_nil|]. intros (j & _ & ? & _). lia. }
  destruct (Hs i) as [Hsl Hsub]; [lia|]. unfold slot_ok in Hsl.
  mstep. destruct (t !! (k ++ [i])) as [q|] eqn:Hq.
  - rewrite Hsl, valid_lor_V, land_RWX_branch, PTE2PA_V by (eapply pr_ok; eauto). cbn [andb Z.eqb].
    destruct (freewalk_entry rec k p i q s l) as (s1 & fr1 & E & D1 & Hfr1 & Hp1 & Hld); try done;
      [lia|by intros; eapply Hl|]. pose proof D1 as [F1 M1 H1].
    assert (Hdis : forall j x, i < j -> (x = p \/ x ∈ fr1) -> forall k', under (k ++ [j]) k' -> t !! k' <> Some x).
    { intros j x Hj Hx k' Hu Hk'. destruct Hx as [->|Hx].
      - rewrite (pr_inj _ _ _ Hpt _ _ _ Hk' Hk) in Hu. by apply under_not_self in Hu.
      - apply Hfr1 in Hx as (k2 & Hu2 & Hk2). rewrite (pr_inj _ _ _ Hpt _ _ _ Hk2 Hk') in Hu2.
        pose proof (under_inj _ _ _ _ Hu Hu2). lia. }
    rewrite (bind_ret _ _ _ _ _ E).
    destruct (IH (i + 1) s1 (fr1 ++ l)) as (s2 & fr2 & E2 & D2 & Hfr2 & Hp2); try lia; try done.
    + intros j Hj. destruct (Hs j) as [Hj1 Hj2]; [lia|]. split.
      * eapply slot_ok_frame; [done|]. apply Hld; lia.
      * eapply table_slots_frame; [done|exact M1|]. intros x Hx. split; [|apply Hdis; [lia|done]].
        destruct Hx as [->|Hx]; [|apply Hfr1 in Hx as (k2 & _ & Hk2)]; by eapply page_ok_aligned, (pr_ok _ _ _ Hpt).
    + congruence.
    + set_solver.
    + intros j k' x Hj Hu Hx [Hin'|Hin']%elem_of_app.
      * by apply (Hdis j x) with k'; [lia|right|..].
      * by apply (Hl j k' x); [lia|..].
    + exists s2, (fr2 ++ fr1). split; [done|]. split; [by eapply freed_trans|]. split; [|set_solver].
      intros x. rewrite elem_of_app, Hfr1, Hfr2. split.
      * intros [(j & k' & ? & ?)|(k' & ?)]; [exists j|exists i]; exists k'; (split; [lia|done]).
      * intros (j & k' & Hj & Hu). destruct (decide (j = i)) as [->|]; [right; by exists k'|].
        left. exists j, k'. split; [lia|done].
  - rewrite Hsl. cbn [andb]. mstep.
    destruct (IH (i + 1) s l) as (s2 & fr2 & E2 & D2 & Hfr2 & Hp2); try lia; try done;
      [intros j Hj; apply Hs; lia|intros j k' x Hj; apply Hl; lia|].
    exists s2, fr2. split; [done|]. split; [done|]. split; [|done]. intros x. rewrite Hfr2. split.
    + intros (j & k' & ? & ?). exists j, k'. split; [lia|done].
    + intros (j & k' & Hj & Hu & Hx). exists j, k'. split; [|done].
      assert (j <> i); [|lia]. intros ->. by rewrite (under_none _ _ Hq Hu) in Hx.
Qed.

Lemma freewalk_spec d k : (length k + d = 3)%nat -> frees_table (freewalk d) k.
Proof.
  revert k. induction d as [|d IH]; intros k Hlen p s l Hp Hs Hf Hlk Hl; cbn [freewalk].
  { pose proof (pr_len _ _ _ Hpt _ _ Hp). lia. }
  assert (Hu : under k k) by (exists []; by rewrite app_nil_r).
  assert (Hpok : page_ok p) by (eapply pr_ok; eauto).
  destruct (freewalk_loop_spec (freewalk d) k p 512 0 s l) as (s1 & fr & E & [F1 M1 H1] & Hfr & Hpf);
    try done.
  - intros j. apply IH. rewrite length_app. cbn. lia.
  - intros j Hj. split; [by apply Hs|]. intros k' q i Hu' Hq Hi. apply Hs; [by eapply under_app|done|done].
  - by eapply Hl.
  - intros j k' x _ Hu'. apply Hl. by eapply under_app.
  - rewrite (bind_ret _ _ _ _ _ E). assert (p ∉ fr ++ l) by (intros [?|Hin]%elem_of_app; [done|by eapply Hl]).
    exists (kfree_post p s1), (p :: fr). split; [apply kfree_ok; [done|congruence]|]. split; [split|].
    + by apply kfree_free_pages; [apply kend_pos|..].
    + intros a Ha. rewrite kfree_post_out by (apply Ha; by left). apply M1.
      intros x [->|Hx]; apply Ha; [by left|by right].
    + done.
    + intros x. rewrite elem_of_cons, Hfr. split.
      * intros [->|(j & k' & _ & Hu' & Hx)]; [by exists k|]. exists k'. split; [by eapply under_app|done].
      * intros (k' & [r ->] & Hx). destruct r as [|j r].
        { left. rewrite app_nil_r in Hx. congruence. }
        right. exists j, (k ++ j :: r).
        assert (Huj : under (k ++ [j]) (k ++ j :: r)) by (exists r; by rewrite <- app_assoc).
        split; [|done]. destruct (t !! (k ++ [j])) as [y|] eqn:Hy; [by eapply (pr_idx _ _ _ Hpt)|].
        by rewrite (under_none _ _ Hy Huj) in Hx.
Qed.
End Walk.

(** Freeing a table that maps nothing frees exactly its pages. *)
Lemma freewalk_ok s root t l :
  as_rep s root t ∅ l ->
  exists s' fr, freewalk 3 root s = Ret tt s' /\ free_pages s' (fr ++ l) /\
    (forall x, x ∈ fr <-> in_table t x) /\ held s' = held s.
Proof.
  intros R. destruct (freewalk_spec root t (mem s) (ar_pt _ _ _ _ _ R) 3 [] eq_refl root s l)
    as (s' & fr & E & [F _ H] & Hfr).
  - apply R.
  - intros k' q i _ Hq Hi. by eapply empty_slots.
  - apply R.
  - apply R.
  - intros k' x _ Hx. by eapply (ar_disj _ _ _ _ _ R).
  - exists s', fr. split; [done|]. split; [done|]. split; [|done]. intros x. rewrite Hfr. split.
    + intros (k' & _ & Hx). by exists k'.
    + intros [k' Hx]. exists k'. split; [by exists k'|done].
Qed.
End VmFree.
