(* ===== verification/VmCopy.v ===== *)
(** Copies between the kernel and user memory (kernel/vm.c): [walkaddr],
    [copyin], [copyinstr] and [copyout] against a page-free view of user
    memory, one byte per user virtual address. *)

From S2P Require Import Prelude Riscv Mem Sync Kalloc Vm VmPt VmMap.

(** The user page at [va0] (page aligned), 0 when the user may not access it. *)
Definition uaddr (u : aspace) (va0 : Z) : Z :=
  match u !! va0 with
  | Some pte => if Z.land pte PTE_U =? 0 then 0 else PTE2PA pte
  | None => 0
  end.

(** The physical address of a user virtual address. *)
Definition utrans (u : aspace) (va : Z) : option Z :=
  let va0 := PGROUNDDOWN va in
  if uaddr u va0 =? 0 then None else Some (uaddr u va0 + (va - va0)).

(** User memory, byte by byte. *)
Definition ubyte (m : memory) (u : aspace) (va : Z) : option Z := load8 m <$> utrans u va.

Fixpoint ubytes (f : Z -> option Z) (va : Z) (n : nat) : option (list Z) :=
  match n with
  | O => Some []
  | S n' => b ← f va; bs ← ubytes f (va + 1) n'; Some (b :: bs)
  end.

(** The NUL-terminated string at [va], its NUL included, within [n] bytes. *)
Fixpoint ustr (f : Z -> option Z) (va : Z) (n : nat) : option (list Z) :=
  match n with
  | O => None
  | S n' => b ← f va; if b =? 0 then Some [0] else bs ← ustr f (va + 1) n'; Some (b :: bs)
  end.

Lemma ubytes_app f va n m :
  ubytes f va (n + m) =
  (l1 ← ubytes f va n; l2 ← ubytes f (va + Z.of_nat n) m; Some (l1 ++ l2)).
Proof.
  revert va. induction n as [|n IH]; intros va; cbn [ubytes Nat.add].
  - rewrite Z.add_0_r. cbn. by destruct (ubytes f va m).
  - rewrite IH. replace (va + Z.of_nat (S n)) with (va + 1 + Z.of_nat n) by lia.
    destruct (f va) as [b|]; cbn; [|done]. destruct (ubytes f (va + 1) n) as [l1|]; cbn; [|done].
    by destruct (ubytes _ _ m).
Qed.

Lemma ubytes_some f g va n :
  (forall i, 0 <= i < Z.of_nat n -> f (va + i) = Some (g i)) -> ubytes f va n = Some (g <$> seqZ 0 (Z.of_nat n)).
Proof.
  revert va g. induction n as [|n IH]; intros va g H; [done|]. cbn [ubytes].
  rewrite <- (Z.add_0_r va) at 1. rewrite H by lia. cbn [mbind option_bind].
  rewrite (IH (va + 1) (fun i => g (i + 1))).
  - cbn [mbind option_bind]. f_equal. rewrite (seqZ_cons 0 (Z.of_nat (S n))) by lia. cbn [fmap list_fmap]. f_equal.
    replace (Z.pred (Z.of_nat (S n))) with (Z.of_nat n) by lia.
    apply list_eq. intros i. rewrite !list_lookup_fmap.
    destruct (decide (Z.of_nat i < Z.of_nat n)).
    + rewrite !lookup_seqZ_lt by lia. cbn. do 2 f_equal. lia.
    + rewrite !lookup_seqZ_ge by lia. done.
  - intros i Hi. rewrite <- H by lia. f_equal. lia.
Qed.

Lemma ubytes_length f va n l : ubytes f va n = Some l -> length l = n.
Proof.
  revert va l. induction n as [|n IH]; intros va l; cbn [ubytes]; [by intros [= <-]|].
  destruct (f va); cbn; [|done]. destruct (ubytes f (va + 1) n) eqn:E; cbn; [|done].
  intros [= <-]. cbn. f_equal. eauto.
Qed.

Section VmCopy.
Context {LY : Layout} {LYok : LayoutOk}.

Lemma uaddr_high s root t u l va : as_rep s root t u l -> MAXVA <= va -> uaddr u va = 0.
Proof.
  intros R Hva. unfold uaddr. destruct (u !! va) as [pte|] eqn:E; [|done].
  destruct (ar_dom _ _ _ _ _ R va pte E). lia.
Qed.

Lemma walkaddr_ok s root t u l va :
  as_rep s root t u l -> 0 <= va -> va mod PGSIZE = 0 -> walkaddr root va s = Ret (uaddr u va) s.
Proof.
  intros R Hva Ha. unfold walkaddr. destruct (Z.leb_spec MAXVA va) as [Hm|Hm].
  { by rewrite (uaddr_high _ _ _ _ _ _ R Hm). }
  rewrite (bind_ret _ _ _ _ _ (walk_lookup root t va s (ar_pt _ _ _ _ _ R) (conj Hva Hm))).
  unfold uaddr. destruct (t !! _) as [p|] eqn:Hp.
  - pose proof (PX_range 0 va ltac:(lia)).
    pose proof (page_ok_range p (pr_ok _ _ _ (ar_pt _ _ _ _ _ R) _ _ Hp)).
    destruct (Z.eqb_spec (p + 8 * PX 0 va) 0); [lia|]. mstep. rewrite land_V_valid.
    pose proof (leaf_read _ _ _ _ _ va p R (conj Hva Hm) Ha Hp) as Hl.
    destruct (u !! va) as [pte|]; [|by rewrite Hl]. destruct Hl as [-> ->]. cbn [negb]. by destruct (_ =? 0).
  - pose proof (ar_map _ _ _ _ _ va R (conj Hva Hm) Ha) as Hmap. unfold pt_map in Hmap. rewrite Hp in Hmap.
    by rewrite <- Hmap.
Qed.

Lemma PGROUNDDOWN_nonneg va : 0 <= va -> 0 <= PGROUNDDOWN va.
Proof. rewrite PGROUNDDOWN_eq. intros. page_lia. Qed.

Lemma walkaddr_page s root t u l va :
  as_rep s root t u l -> 0 <= va ->
  walkaddr root (PGROUNDDOWN va) s = Ret (uaddr u (PGROUNDDOWN va)) s.
Proof. intros R Hva. by eapply walkaddr_ok, PGROUNDDOWN_aligned; [|apply PGROUNDDOWN_nonneg]. Qed.

Lemma ubyte_none m u va : uaddr u (PGROUNDDOWN va) = 0 -> ubyte m u va = None.
Proof. intros Hu. unfold ubyte, utrans. by rewrite Hu. Qed.

Lemma utrans_in_page u va i :
  let va0 := PGROUNDDOWN va in
  0 <= i < PGSIZE - (va - va0) ->
  utrans u (va + i) = if uaddr u va0 =? 0 then None else Some (uaddr u va0 + (va - va0) + i).
Proof.
  intros va0 Hi. unfold utrans. assert (E : PGROUNDDOWN (va + i) = va0).
  { unfold va0 in *. rewrite !PGROUNDDOWN_eq in *. page_lia. }
  rewrite E. case_match; [done|]. f_equal. lia.
Qed.

(** The chunk of a copy that lies in one page. *)
Definition chunk (va len : Z) : Z :=
  let n := PGSIZE - (va - PGROUNDDOWN va) in if len <? n then len else n.

Lemma chunk_range va len : 0 < len -> 0 < chunk va len <= len /\ chunk va len <= PGSIZE - (va - PGROUNDDOWN va).
Proof.
  intros Hl. unfold chunk. pose proof (PGROUNDDOWN_bounds va).
  destruct (Z.ltb_spec len (PGSIZE - (va - PGROUNDDOWN va))); lia.
Qed.

Lemma page_bytes m u va len :
  0 < len -> uaddr u (PGROUNDDOWN va) <> 0 ->
  ubytes (ubyte m u) va (Z.to_nat (chunk va len)) =
  Some (bytes_at m (uaddr u (PGROUNDDOWN va) + (va - PGROUNDDOWN va)) (Z.to_nat (chunk va len))).
Proof.
  intros Hl Hu. pose proof (chunk_range va len Hl). unfold bytes_at. apply ubytes_some.
  intros i Hi. unfold ubyte. rewrite utrans_in_page by lia. destruct (Z.eqb_spec (uaddr u (PGROUNDDOWN va)) 0); [done|].
  done.
Qed.

(** After a page that is mapped comes the next one, below [2^64]. *)
Lemma next_page s root t u l va len :
  as_rep s root t u l -> 0 <= va -> 0 < len -> uaddr u (PGROUNDDOWN va) <> 0 ->
  u64 (PGROUNDDOWN va + PGSIZE) = PGROUNDDOWN va + PGSIZE /\
  (chunk va len < len -> PGROUNDDOWN va + PGSIZE = va + chunk va len).
Proof.
  intros R Hva Hl Hu. assert (HM : MAXVA = 2 ^ 38) by done. split.
  - apply u64_small. rewrite PGROUNDDOWN_eq in *. destruct (decide (MAXVA <= va / PGSIZE * PGSIZE)) as [Hm|].
    + by rewrite (uaddr_high _ _ _ _ _ _ R Hm) in Hu.
    + page_lia.
  - unfold chunk. destruct (Z.ltb_spec len (PGSIZE - (va - PGROUNDDOWN va))); lia.
Qed.

Lemma copyin_loop_spec fuel s root t u l srcva len :
  as_rep s root t u l -> 0 <= srcva -> 0 <= len < Z.of_nat fuel ->
  exists r bs, copyin_loop fuel root srcva len s = Ret (r, bs) s /\
    match ubytes (ubyte (mem s) u) srcva (Z.to_nat len) with
    | Some bs' => r = 0 /\ bs = bs'
    | None => r = -1
    end.
Proof.
  intros R. revert srcva len. induction fuel as [|fuel IH]; intros srcva len Hva Hf; [lia|].
  cbn [copyin_loop]. destruct (Z.ltb_spec 0 len) as [Hl|]; cbn [negb].
  2:{ replace (Z.to_nat len) with O by lia. by exists 0, []. }
  pose proof (chunk_range srcva len Hl).
  rewrite (bind_ret _ _ _ _ _ (walkaddr_page s root t u l srcva R Hva)).
  fold (chunk srcva len). destruct (Z.eqb_spec (uaddr u (PGROUNDDOWN srcva)) 0) as [Hu|Hu].
  - exists (-1), []. split; [done|]. replace (Z.to_nat len) with (S (Z.to_nat (len - 1))) by lia. cbn [ubytes].
    by rewrite ubyte_none.
  - destruct (next_page s root t u l srcva len R Hva Hl Hu) as [E64 Enext]. rewrite E64. mstep.
    destruct (IH (PGROUNDDOWN srcva + PGSIZE) (len - chunk srcva len)) as (r & rest & E & Hr);
      [rewrite PGROUNDDOWN_eq; page_lia|lia|].
    rewrite (bind_ret _ _ _ _ _ E). exists r. eexists. split; [done|].
    replace (Z.to_nat len) with (Z.to_nat (chunk srcva len) + Z.to_nat (len - chunk srcva len))%nat by lia.
    rewrite ubytes_app, page_bytes by done. cbn [mbind option_bind].
    destruct (decide (chunk srcva len < len)) as [Hc|Hc].
    + rewrite Z2Nat.id, <- Enext by lia. destruct (ubytes _ _ _) as [rest'|]; cbn; [|done].
      destruct Hr as [-> ->]. done.
    + replace (len - chunk srcva len) with 0 in * by lia. cbn in Hr |- *. by destruct Hr as [-> ->].
Qed.

(** ** copyinstr *)

Lemma ustr_page f va l m :
  (forall i b, l !! i = Some b -> f (va + Z.of_nat i) = Some b) ->
  ustr f va (length l + m) =
  let '(got_null, bs) := copyinstr_page l in
  if got_null then Some bs else app bs <$> ustr f (va + Z.of_nat (length l)) m.
Proof.
  revert va. induction l as [|b l IH]; intros va H; cbn [ustr length Nat.add copyinstr_page].
  - rewrite Z.add_0_r. by destruct (ustr f va m).
  - pose proof (H O b eq_refl) as Hb. rewrite Z.add_0_r in Hb. rewrite Hb. cbn [mbind option_bind].
    destruct (b =? 0); [done|]. rewrite IH.
    + destruct (copyinstr_page l) as [[] bs]; [done|].
      replace (va + Z.of_nat (S (length l))) with (va + 1 + Z.of_nat (length l)) by lia. by destruct (ustr _ _ m).
    + intros i x Hi. rewrite <- (H (S i) x Hi). f_equal. lia.
Qed.

Lemma copyinstr_loop_spec fuel s root t u l srcva max :
  as_rep s root t u l -> 0 <= srcva -> 0 <= max < Z.of_nat fuel ->
  exists r bs, copyinstr_loop fuel root srcva max s = Ret (r, bs) s /\
    match ustr (ubyte (mem s) u) srcva (Z.to_nat max) with
    | Some bs' => r = 0 /\ bs = bs'
    | None => r = -1
    end.
Proof.
  intros R. revert srcva max. induction fuel as [|fuel IH]; intros srcva len Hva Hf; [lia|].
  cbn [copyinstr_loop]. destruct (Z.ltb_spec 0 len) as [Hl|]; cbn [negb].
  2:{ replace (Z.to_nat len) with O by lia. by exists (-1), []. }
  pose proof (chunk_range srcva len Hl).
  rewrite (bind_ret _ _ _ _ _ (walkaddr_page s root t u l srcva R Hva)).
  fold (chunk srcva len). destruct (Z.eqb_spec (uaddr u (PGROUNDDOWN srcva)) 0) as [Hu|Hu].
  - exists (-1), []. split; [done|]. replace (Z.to_nat len) with (S (Z.to_nat (len - 1))) by lia. cbn [ustr].
    by rewrite ubyte_none.
  - destruct (next_page s root t u l srcva len R Hva Hl Hu) as [E64 Enext]. rewrite E64. mstep.
    set (p := bytes_at _ _ _).
    assert (Hp : length p = Z.to_nat (chunk srcva len)) by apply length_bytes_at.
    replace (Z.to_nat len) with (length p + Z.to_nat (len - chunk srcva len))%nat by lia.
    rewrite (ustr_page (ubyte (mem s) u) srcva p).
    2:{ intros i b Hi. pose proof (lookup_lt_Some _ _ _ Hi). unfold p in Hi. rewrite bytes_at_lookup in Hi by lia.
        injection Hi as <-. unfold ubyte. rewrite utrans_in_page by lia.
        by destruct (Z.eqb_spec (uaddr u (PGROUNDDOWN srcva)) 0). }
    destruct (copyinstr_page p) as [[] bs]; [by exists 0, bs|].
    destruct (IH (PGROUNDDOWN srcva + PGSIZE) (len - chunk srcva len)) as (r & rest & E & Hr);
      [pose proof (PGROUNDDOWN_nonneg srcva Hva); unfold PGSIZE; lia|lia|].
    rewrite (bind_ret _ _ _ _ _ E). exists r. eexists. split; [done|].
    destruct (decide (chunk srcva len < len)) as [Hc|Hc].
    + rewrite Hp, Z2Nat.id, <- Enext by lia. destruct (ustr _ _ _) as [rest'|]; cbn; [|done].
      by destruct Hr as [-> ->].
    + replace (len - chunk srcva len) with 0 in * by lia. cbn in Hr |- *. done.
Qed.

(** ** copyout *)

(** User pages are allocator pages, neither free nor page-table pages, and no
    two user addresses share one. *)
Record user_pages (u : aspace) (t : ptshape) (l : list Z) : Prop := {
  up_ok : forall va0, uaddr u va0 <> 0 ->
    page_ok (uaddr u va0) /\ uaddr u va0 ∉ l /\ ~ in_table t (uaddr u va0);
  up_inj : forall va0 va1, uaddr u va0 <> 0 -> uaddr u va0 = uaddr u va1 -> va0 = va1;
}.

Lemma as_rep_data s root t u l m' pa :
  as_rep s root t u l -> page_ok pa -> pa ∉ l -> ~ in_table t pa ->
  same_outside (mem s) m' (fun q => q = pa) -> as_rep (set_mem m' s) root t u l.
Proof.
  intros [Hpt Hmap Hdom Hfree Hdisj Hlock] Hpa Hl Ht Hm.
  assert (Hf : forall k p a, t !! k = Some p -> p <= a < p + PGSIZE -> load8 m' a = load8 (mem s) a).
  { intros k p a Hk Ha. eapply (same_outside_page _ _ _ p); [done| | |done].
    - intros q ->. split; [by apply page_ok_aligned|]. intros ->. apply Ht. by exists k.
    - by eapply page_ok_aligned, (pr_ok _ _ _ Hpt). }
  split; [by eapply pt_rep_frame| |done| |done|done].
  - intros va Hva Ha. rewrite <- Hmap by done. by apply pt_map_frame.
  - eapply free_pages_outside; [exact Hfree|done|exact Hm|]. intros q ->. split; [by apply page_ok_aligned|done].
Qed.

(** Storing a chunk into the page of [va] changes user memory there only. *)
Lemma chunk_write m u t l va bs :
  user_pages u t l -> uaddr u (PGROUNDDOWN va) <> 0 ->
  Z.of_nat (length bs) <= PGSIZE - (va - PGROUNDDOWN va) ->
  let pa := uaddr u (PGROUNDDOWN va) in
  let m' := store_bytes m (pa + (va - PGROUNDDOWN va)) bs in
  same_outside m m' (fun q => q = pa) /\
  forall va', ubyte m' u va' =
    if decide (va <= va' < va + Z.of_nat (length bs)) then Some (u8 (bs !!! Z.to_nat (va' - va))) else ubyte m u va'.
Proof.
  intros [Hok Hinj] Hu Hlen pa m'. pose proof (PGROUNDDOWN_bounds va) as Hb. split.
  { intros a Ha. specialize (Ha pa eq_refl). unfold m'. rewrite load8_store_bytes, decide_False by lia. done. }
  intros va'. unfold ubyte, utrans. pose proof (PGROUNDDOWN_bounds va') as Hb'.
  destruct (decide (PGROUNDDOWN va' = PGROUNDDOWN va)) as [E|E].
  - rewrite E. destruct (Z.eqb_spec (uaddr u (PGROUNDDOWN va)) 0); [done|]. cbn. fold pa. unfold m'.
    rewrite load8_store_bytes. rewrite E in Hb'. repeat case_decide; try lia; try done. do 3 f_equal. lia.
  - rewrite decide_False.
    2:{ intros Hin. apply E. rewrite !PGROUNDDOWN_eq in *. page_lia. }
    destruct (Z.eqb_spec (uaddr u (PGROUNDDOWN va')) 0) as [|Hu']; [done|]. cbn. f_equal.
    unfold m'. rewrite load8_store_bytes, decide_False; [done|].
    assert (Hne : uaddr u (PGROUNDDOWN va') <> pa) by (intros Heq; by apply E, Hinj).
    destruct (Hok _ Hu) as [[Hal _] _], (Hok _ Hu') as [[Hal' _] _].
    destruct (page_disjoint _ _ Hal' Hal Hne) as [Hd|Hd]; fold pa in Hd; lia.
Qed.

Lemma copyout_loop_spec fuel s root t u l dstva src :
  as_rep s root t u l -> user_pages u t l -> 0 <= dstva -> (length src < fuel)%nat ->
  exists r s' k, copyout_loop fuel root dstva src s = Ret r s' /\ as_rep s' root t u l /\ held s' = held s /\
    (forall va, ubyte (mem s') u va =
       if decide (dstva <= va < dstva + k) then Some (u8 (src !!! Z.to_nat (va - dstva))) else ubyte (mem s) u va) /\
    (r = 0 /\ k = Z.of_nat (length src) \/
     r = -1 /\ 0 <= k < Z.of_nat (length src) /\ ubyte (mem s) u (dstva + k) = None).
Proof.
  intros R UP. revert s dstva src R. induction fuel as [|fuel IH]; intros s dstva src R Hva Hf; [lia|].
  cbn [copyout_loop]. set (len := Z.of_nat (length src)) in *.
  destruct (Z.ltb_spec 0 len) as [Hl|]; cbn [negb].
  2:{ exists 0, s, 0. split; [done|]. split; [done|]. split; [done|]. split; [|left; lia]. intros va. by rewrite decide_False by lia. }
  pose proof (chunk_range dstva len Hl).
  rewrite (bind_ret _ _ _ _ _ (walkaddr_page s root t u l dstva R Hva)). fold (chunk dstva len).
  destruct (Z.eqb_spec (uaddr u (PGROUNDDOWN dstva)) 0) as [Hu|Hu].
  { exists (-1), s, 0. split; [done|]. split; [done|]. split; [done|]. split.
    - intros va. by rewrite decide_False by lia.
    - right. split; [done|]. split; [lia|]. rewrite Z.add_0_r. by apply ubyte_none. }
  destruct (next_page s root t u l dstva len R Hva Hl Hu) as [E64 Enext]. rewrite E64. mstep.
  set (n := chunk dstva len) in *. set (bs := take (Z.to_nat n) src).
  assert (Hbs : Z.of_nat (length bs) = n) by (unfold bs; rewrite length_take; lia).
  destruct (chunk_write (mem s) u t l dstva bs UP Hu) as [Hout Hw]; [lia|]. rewrite Hbs in Hw.
  destruct (up_ok _ _ _ UP _ Hu) as (Hpa & Hpl & Hpt).
  set (s1 := set_mem _ s). assert (R1 : as_rep s1 root t u l) by (by eapply as_rep_data).
  destruct (IH s1 (PGROUNDDOWN dstva + PGSIZE) (drop (Z.to_nat n) src) R1)
    as (r & s2 & k & E & R2 & Hh & Hk & Hr); [pose proof (PGROUNDDOWN_nonneg dstva Hva); unfold PGSIZE; lia|
      rewrite length_drop; lia|]. rewrite E.
  rewrite length_drop in Hr. exists r, s2, (n + k). split; [done|]. split; [done|]. split; [done|].
  destruct (decide (n < len)) as [Hc|Hc].
  - rewrite (Enext Hc) in *. split; [|destruct Hr as [[-> ->]|(-> & ? & Hn)]; [left; lia|right]].
    + intros va. rewrite Hk, Hw. repeat case_decide; try lia; try done; do 2 f_equal.
      * rewrite lookup_total_drop. f_equal. lia.
      * unfold bs. by rewrite lookup_total_take_lt by lia.
    + split; [done|]. split; [lia|]. rewrite Hw in Hn. rewrite decide_False in Hn by lia. rewrite <- Hn. f_equal. lia.
  - assert (k = 0 /\ r = 0) as [-> ->] by (destruct Hr as [?|(_ & ? & _)]; lia).
    split; [|left; lia]. intros va. rewrite Hk, Hw. repeat case_decide; try lia; try done.
    do 2 f_equal. unfold bs. by rewrite lookup_total_take_lt by lia.
Qed.
(** The locks held do not matter to an address space, but for that of the allocator. *)
Lemma as_rep_held s root t u l h :
  as_rep s root t u l -> LKmem ∉ h -> as_rep (set_held h s) root t u l.
Proof. intros [? ? ? [? ? ?] ? ?] Hh. by split. Qed.

End VmCopy.
