(* ===== verification/VmProps.v ===== *)
(** What kernel/vm.c guarantees: the theorems about user address spaces, stated
    with the representation of VmPt, VmMap, VmUser, VmFree and VmCopy. *)

From S2P Require Import Prelude Riscv Mem Sync Kalloc Vm VmPt VmMap VmUser VmFree VmCopy.

Section VmProps.
Context {LY : Layout} {LYok : LayoutOk}.

(** A zeroed page is the root of an empty page table. *)
Lemma fresh_as_rep s root l :
  page_ok root -> root ∉ l -> free_pages s l -> LKmem ∉ held s ->
  (forall i, 0 <= i < 512 -> load64 (mem s) (root + 8 * i) = 0) ->
  as_rep s root {[ [] := root ]} ∅ l.
Proof.
  intros Hok Hl Hf Hlk Hz. split.
  - split.
    + by rewrite lookup_singleton_eq.
    + intros k p. rewrite lookup_singleton_Some. intros [<- _]. cbn. lia.
    + intros k i _. apply lookup_singleton_None. by destruct k.
    + intros k k' p. rewrite !lookup_singleton_Some. naive_solver.
    + intros k p. rewrite lookup_singleton_Some. naive_solver.
    + intros k i p. rewrite lookup_singleton_Some. intros [E _]. by destruct k.
    + intros k p i Hk _ Hi. apply lookup_singleton_Some in Hk as [<- <-].
      rewrite lookup_singleton_ne by done. by rewrite Hz.
  - intros va Hva Ha. unfold pt_map. by rewrite lookup_singleton_ne, lookup_empty by done.
  - intros va pte. by rewrite lookup_empty.
  - done.
  - intros k p. rewrite lookup_singleton_Some. by intros [_ <-].
  - done.
Qed.

(** [uvmcreate] returns an empty address space, or 0 when memory is used up. *)
Lemma uvmcreate_ok s l :
  free_pages s l -> LKmem ∉ held s ->
  match l with
  | [] => uvmcreate s = Ret 0 s
  | root :: l' => exists s', uvmcreate s = Ret root s' /\ as_rep s' root {[ [] := root ]} ∅ l'
  end.
Proof.
  intros Hf Hlk. unfold uvmcreate. destruct l as [|root l].
  - by rewrite (bind_ret _ _ _ _ _ (kalloc_empty s Hf Hlk)).
  - assert (Hok : page_ok root) by (destruct Hf as [_ _ Ho]; by inversion Ho).
    assert (Hnl : root ∉ l) by (destruct Hf as [_ Hn _]; by inversion Hn).
    rewrite (bind_ret _ _ _ _ _ (kalloc_cons root l s Hf Hlk)). pose proof (page_ok_range root Hok).
    destruct (Z.eqb_spec root 0); [lia|]. mstep. eexists. split; [done|].
    apply fresh_as_rep; [done|done| |done|].
    + eapply (free_pages_outside _ _ _ _ (kalloc_free_pages _ _ _ Hf)); [done|apply memset_page_out|].
      intros q ->. split; [by apply page_ok_aligned|done].
    + intros i Hi. pose proof (slot_in_page i Hi). apply load64_memset_zero; lia.
Qed.

(** Work on one address space leaves every other one as it was. *)
Lemma other_space n pgs s t l s' t' u' l' root root2 t2 u2 :
  as_rep s root2 t2 u2 l -> took n pgs s t l s' t' l' -> as_rep s' root t' u' l' ->
  (forall p, in_table t p -> page_ok p /\ ~ in_table t2 p) ->
  as_rep s' root2 t2 u2 l'.
Proof.
  intros [Hpt Hmap Hdom Hfree Hdisj Hlock] T R' Ht.
  assert (Hf : forall k p a, t2 !! k = Some p -> p <= a < p + PGSIZE -> load8 (mem s') a = load8 (mem s) a).
  { intros k p a Hk Ha. eapply (same_outside_page _ _ _ p); [apply T| | |done].
    - intros q [Hq|Hq].
      + destruct (Ht q Hq) as [? Hn]. split; [by apply page_ok_aligned|]. intros ->. apply Hn. by exists k.
      + pose proof (fp_ok _ _ Hfree) as Ho. rewrite Forall_forall in Ho.
        split; [by apply page_ok_aligned, Ho|]. intros ->. by apply (Hdisj _ _ Hk).
    - by eapply page_ok_aligned, (pr_ok _ _ _ Hpt). }
  split; [by eapply pt_rep_frame| |done|apply R'| |apply R'].
  - intros va Hva Ha. rewrite <- Hmap by done. by apply pt_map_frame.
  - intros k p Hk Hin. apply (Hdisj _ _ Hk).
    destruct (tk_new _ _ _ _ _ _ _ _ T) as (tabs & -> & _). set_solver.
Qed.

(** [mappages] on an address space refines inserting the range into a finite
    map: it maps exactly the pages of [va, va+size) to consecutive physical
    pages with the permissions asked for and changes no other mapping; when
    memory runs out it returns -1 having mapped a prefix of the range; it
    panics exactly when a page of the range is already mapped. *)
Theorem mappages_correct s root t u l va size pa perm :
  as_rep s root t u l -> 0 <= va -> 0 < size -> va + size <= MAXVA -> 0 <= perm < 1024 ->
  0 <= pa -> pa + Z.of_nat (range_pages va size) * PGSIZE <= 2 ^ 56 ->
  mappages_outcome (range_pages va size) s root t u l (PGROUNDDOWN va) pa perm
    (mappages root va size pa perm s) /\
  forall n va', map_range n (PGROUNDDOWN va) pa perm u !! va' =
    if decide (va' mod PGSIZE = 0 /\ PGROUNDDOWN va <= va' < PGROUNDDOWN va + Z.of_nat n * PGSIZE)
    then Some (leaf_pte (pa + (va' - PGROUNDDOWN va)) perm) else u !! va'.
Proof.
  intros. split; [by apply mappages_outcome_ok|]. intros. apply lookup_map_range, PGROUNDDOWN_aligned.
Qed.

(** [uvmunmap] of a mapped range removes exactly its pages from the address
    space and, with [do_free], puts each physical page back on the free list;
    it writes only page-table pages and the pages it frees. *)
Theorem uvmunmap_correct ptes s root t u l va (do_free : bool) :
  as_rep s root t u l -> 0 <= va -> va mod PGSIZE = 0 ->
  va + Z.of_nat (length ptes) * PGSIZE <= MAXVA -> mapped_at u va ptes ->
  (do_free = true -> disposable ptes t l) ->
  exists s' u', uvmunmap root va (Z.of_nat (length ptes)) do_free s = Ret tt s' /\
    as_rep s' root t u' (if do_free then reverse (PTE2PA <$> ptes) ++ l else l) /\
    (forall va', u' !! va' =
       if decide (va' mod PGSIZE = 0 /\ va <= va' < va + Z.of_nat (length ptes) * PGSIZE)
       then None else u !! va') /\
    same_outside (mem s) (mem s') (fun q => in_table t q \/ do_free = true /\ q ∈ PTE2PA <$> ptes).
Proof.
  intros R Hva Ha Hmax Hm Hd. destruct (uvmunmap_ok ptes s root t u l va do_free) as (s' & E & R' & M' & _);
    try done. exists s', (unmap_range (length ptes) va u). split; [done|]. split; [done|]. split; [|done].
  intros va'. by apply lookup_unmap_range.
Qed.

(** C33: [uvmalloc] is all or nothing.  Either it returns [newsz] and the address
    space has gained, after [PGROUNDUP oldsz], just the pages needed, zeroed,
    user-accessible and taken from the free list; or it returns 0, which
    happens only when fewer than three free pages per new page were left, and
    the address space is exactly what it was, with every page but new
    page-table pages back on the free list. *)
Theorem uvmalloc_all_or_nothing s root t u l oldsz newsz :
  as_rep s root t u l -> 0 <= oldsz <= newsz -> newsz <= MAXVA ->
  let base := PGROUNDUP oldsz in
  let N := pages_of (newsz - base) in
  unmapped N base u ->
  (exists s' t' l' pgs, uvmalloc root oldsz newsz s = Ret newsz s' /\ length pgs = N /\
     as_rep s' root t' (map_list base (leaves (fun _ => user_perm) pgs) u) l' /\
     took (2 * N) pgs s t l s' t' l' /\ filled (fun _ _ => 0) pgs (mem s')) \/
  (exists s' t' l', uvmalloc root oldsz newsz s = Ret 0 s' /\ as_rep s' root t' u l' /\
     took (2 * N) [] s t l s' t' l' /\ (length l < 3 * N)%nat).
Proof.
  intros R Hsz Hmax base N Hun. assert (HM : MAXVA = 2 ^ 38) by done.
  unfold uvmalloc. destruct (Z.ltb_spec newsz oldsz); [lia|]. fold base.
  assert (Hb : oldsz <= base < oldsz + PGSIZE) by (apply PGROUNDUP_bounds; unfold PGSIZE; lia).
  assert (Hal : base mod PGSIZE = 0) by apply PGROUNDUP_aligned.
  destruct (decide (base <= newsz)) as [Hle|Hgt].
  - destruct (uvmalloc_loop_spec s root t u l base newsz R ltac:(lia) Hal ltac:(lia) Hun N
      (Z.to_nat ((newsz - base) / PGSIZE + 2)) [] s t l)
      as [(s' & t' & l' & pgs & E & Hlen & F)|(s' & t' & l' & E & R' & T' & Hlen)].
    + done.
    + unfold N, pages_of. page_lia.
    + by apply filling_nil.
    + cbn [length] in E. rewrite Z.mul_0_l, Z.add_0_r in E.
      left. destruct F as [? ? ? ?]. by exists s', t', l', pgs.
    + cbn [length] in E. rewrite Z.mul_0_l, Z.add_0_r in E. right. by exists s', t', l'.
  - left. assert (HN : N = O) by (unfold N, pages_of; page_lia).
    exists s, t, l, []. rewrite HN. destruct (Z.to_nat _) eqn:E; [page_lia|]. cbn [uvmalloc_loop].
    destruct (Z.ltb_spec base newsz); [lia|]. split; [done|]. split; [done|]. split; [done|].
    split; [apply took_refl|done].
Qed.

(** C32: [uvmcopy], the heart of [fork], gives the child a private copy: on success
    every page of the parent below [sz] has a distinct new page with the same
    bytes and flags at the same address, and the parent is unchanged; on
    failure, possible only when fewer than three free pages per page were
    left, the child's address space is what it was and only page-table pages
    stay allocated. *)
Theorem uvmcopy_correct s old new to tn uo un l ptes sz :
  as_rep s old to uo l -> as_rep s new tn un l -> 0 <= sz <= MAXVA -> length ptes = pages_of sz ->
  mapped_at uo 0 ptes -> disposable ptes to l ->
  (forall p, in_table tn p -> ~ in_table to p /\ p ∉ PTE2PA <$> ptes) ->
  unmapped (length ptes) 0 un ->
  let N := length ptes in
  (exists s' t' l' pgs, uvmcopy old new sz s = Ret 0 s' /\ length pgs = N /\
     as_rep s' new t' (map_list 0 (leaves (copy_perms ptes) pgs) un) l' /\ as_rep s' old to uo l' /\
     filled (copy_bytes s ptes) pgs (mem s') /\ NoDup ((PTE2PA <$> ptes) ++ pgs) /\
     took (2 * N) pgs s tn l s' t' l') \/
  (exists s' t' l', uvmcopy old new sz s = Ret (-1) s' /\ as_rep s' new t' un l' /\ as_rep s' old to uo l' /\
     took (2 * N) [] s tn l s' t' l' /\ (length l < 3 * N)%nat).
Proof.
  intros Ro Rn Hsz Hlen Hm Hd Ht Hun N.
  assert (Hto : forall p, in_table tn p -> page_ok p /\ ~ in_table to p).
  { intros p Hp. split; [|by apply Ht]. destruct Hp as [k Hk]. by eapply (pr_ok _ _ _ (ar_pt _ _ _ _ _ Rn)). }
  unfold uvmcopy.
  destruct (uvmcopy_loop_spec s old new to tn uo un l ptes sz Ro Rn Hsz Hlen Hm Hd
    (fun p Hp => proj1 (Ht p Hp)) (fun p Hp => proj2 (Ht p Hp)) Hun N (Z.to_nat (sz / PGSIZE + 2)) [] s tn l)
    as [(s' & t' & l' & pgs & E & Hl & F)|(s' & t' & l' & E & R' & T' & Hl)].
  - done.
  - unfold N. rewrite Hlen. unfold pages_of. page_lia.
  - by apply filling_nil.
  - left. pose proof F as [R' T' _ Hw]. exists s', t', l', pgs.
    split; [done|]. split; [done|]. split; [done|]. split; [by eapply other_space|]. split; [done|].
    split; [|done]. destruct Hd as (Hn & _ & _). apply NoDup_app in Hn as (Hn1 & Hn2 & _).
    destruct (tk_new _ _ _ _ _ _ _ _ T') as (tabs & P & _ & _).
    pose proof (fp_nodup _ _ (ar_free _ _ _ _ _ Ro)) as Hnl. rewrite P in Hnl.
    apply NoDup_app. split; [done|]. split; [|by apply NoDup_app in Hnl as (? & _ & _)].
    intros p Hp Hp'. apply (Hn2 p Hp). rewrite P. apply elem_of_app. by left.
  - right. exists s', t', l'. split; [done|]. split; [done|]. split; [by eapply other_space|]. done.
Qed.

(** C37: [uvmfree] of an address space whose user memory is the [sz] bytes from 0
    leaks nothing: afterwards the free pages are those free before, the pages
    of user memory and every page of the page table, each exactly once. *)
Theorem uvmfree_no_leak s root t u l ptes sz :
  as_rep s root t u l -> 0 <= sz <= MAXVA -> length ptes = pages_of sz ->
  mapped_at u 0 ptes -> disposable ptes t l ->
  (forall va pte, u !! va = Some pte -> 0 <= va < Z.of_nat (length ptes) * PGSIZE) ->
  exists s' l', uvmfree root sz s = Ret tt s' /\ free_pages s' l' /\
    forall q, q ∈ l' <-> q ∈ l \/ q ∈ PTE2PA <$> ptes \/ in_table t q.
Proof.
  intros R Hsz Hlen Hm Hd Hdom. assert (HM : MAXVA = 2 ^ 38) by done. unfold pages_of in Hlen.
  assert (Hu : unmap_range (length ptes) 0 u = ∅).
  { apply map_eq. intros va. rewrite lookup_unmap_range, lookup_empty by done. case_decide as Hc; [done|].
    destruct (u !! va) as [pte|] eqn:E; [|done]. destruct Hc.
    destruct (ar_dom _ _ _ _ _ R va pte E). pose proof (Hdom va pte E). split; [done|lia]. }
  destruct (uvmunmap_ok ptes s root t u l 0 true) as (s1 & E1 & R1 & _ & _); try done; [page_lia|].
  rewrite Hu in R1. unfold uvmfree.
  destruct (freewalk_ok s1 root t (reverse (PTE2PA <$> ptes) ++ l) R1) as (s2 & fr & E2 & F2 & Hfr & _).
  exists s2, (fr ++ reverse (PTE2PA <$> ptes) ++ l). split; [|split; [done|]].
  - destruct (Z.ltb_spec 0 sz) as [Hpos|Hz].
    + replace (PGROUNDUP sz / PGSIZE) with (Z.of_nat (length ptes)).
      * by rewrite (bind_ret _ _ _ _ _ E1).
      * rewrite PGROUNDUP_eq by (unfold PGSIZE; lia). rewrite Z.div_mul by done. page_lia.
    + assert (ptes = []) as -> by (apply nil_length_inv; page_lia).
      unfold uvmunmap in E1. cbn in E1. injection E1 as <-. by mstep.
  - intros q. rewrite !elem_of_app, elem_of_reverse, Hfr. tauto.
Qed.

(** [copyin] reads user memory byte for byte whatever the page boundaries: it
    returns 0 with the [len] bytes at [srcva] when the user can access all of
    them and -1 when not, and changes nothing. *)
Theorem copyin_correct s root t u l srcva len :
  as_rep s root t u l -> 0 <= srcva -> 0 <= len ->
  exists r bs, copyin root srcva len s = Ret (r, bs) s /\
    match ubytes (ubyte (mem s) u) srcva (Z.to_nat len) with
    | Some bs' => r = 0 /\ bs = bs'
    | None => r = -1
    end.
Proof. intros R Hva Hlen. eapply copyin_loop_spec; [done|done|lia]. Qed.

(** [copyinstr] returns 0 with the string at [srcva], NUL included, when a
    NUL comes within [max] bytes and the user can access all bytes up to it,
    and -1 in every other case; it changes nothing. *)
Theorem copyinstr_correct s root t u l srcva max :
  as_rep s root t u l -> 0 <= srcva -> 0 <= max ->
  exists r bs, copyinstr root srcva max s = Ret (r, bs) s /\
    match ustr (ubyte (mem s) u) srcva (Z.to_nat max) with
    | Some bs' => r = 0 /\ bs = bs'
    | None => r = -1
    end.
Proof. intros R Hva Hmax. eapply copyinstr_loop_spec; [done|done|lia]. Qed.

(** [copyout] writes user memory byte for byte and nothing else: the first
    [k] bytes of the source appear at [dstva], every other user byte, the page
    table and the free list are as before; it returns 0 with everything
    written, or -1 with [k] the distance to the first inaccessible byte. *)
Theorem copyout_correct s root t u l dstva src :
  as_rep s root t u l -> user_pages u t l -> 0 <= dstva ->
  exists r s' k, copyout root dstva src s = Ret r s' /\ as_rep s' root t u l /\
    (forall va, ubyte (mem s') u va =
       if decide (dstva <= va < dstva + k) then Some (u8 (src !!! Z.to_nat (va - dstva))) else ubyte (mem s) u va) /\
    (r = 0 /\ k = Z.of_nat (length src) \/
     r = -1 /\ 0 <= k < Z.of_nat (length src) /\ ubyte (mem s) u (dstva + k) = None).
Proof.
  intros R UP Hva. destruct (copyout_loop_spec (S (length src)) s root t u l dstva src R UP Hva ltac:(lia))
    as (r & s' & k & E & R' & _ & Hk). by exists r, s', k.
Qed.

(** Reading back what was written: after [copyout] of some bytes succeeds,
    [copyin] from the same address returns them. *)
Theorem copyin_copyout s root t u l va src s' :
  as_rep s root t u l -> user_pages u t l -> 0 <= va -> Forall (fun b => 0 <= b < 256) src ->
  copyout root va src s = Ret 0 s' -> copyin root va (Z.of_nat (length src)) s' = Ret (0, src) s'.
Proof.
  intros R UP Hva Hsrc E.
  destruct (copyout_loop_spec (S (length src)) s root t u l va src R UP Hva ltac:(lia))
    as (r & s1 & k & E1 & R1 & _ & Hk & Hr). unfold copyout in E. rewrite E in E1. injection E1 as <- <-.
  destruct Hr as [[_ ->]|[? _]]; [|done]. unfold copyin. rewrite Nat2Z.id.
  destruct (copyin_loop_spec (S (length src)) s' root t u l va (Z.of_nat (length src)) R1 Hva ltac:(lia))
    as (r & bs & E2 & Hb). rewrite E2. rewrite Nat2Z.id in Hb.
  rewrite (ubytes_some _ (fun i => u8 (src !!! Z.to_nat i))) in Hb.
  - destruct Hb as [-> ->]. do 2 f_equal. apply list_eq. intros i. rewrite list_lookup_fmap.
    destruct (src !! i) as [b|] eqn:Ei.
    + pose proof (lookup_lt_Some _ _ _ Ei). rewrite lookup_seqZ_lt by lia. cbn [fmap option_fmap option_map]. f_equal.
      rewrite Forall_lookup in Hsrc. pose proof (Hsrc _ _ Ei).
      replace (Z.to_nat (0 + Z.of_nat i)) with i by lia.
      rewrite (list_lookup_total_correct _ _ _ Ei). apply u8_small. lia.
    + apply lookup_ge_None in Ei. rewrite lookup_seqZ_ge by lia. done.
  - intros i Hi. rewrite Hk, decide_True by lia. do 3 f_equal. lia.
Qed.
End VmProps.

(** ** Examples *)

(** A machine with sixteen pages after the kernel; the last two are the roots of
    empty page tables and six more are free. *)
Module Demo.
Definition demo_layout : Layout :=
  {| etext := KERNBASE + 8 * PGSIZE; kend := PHYSTOP - 16 * PGSIZE; trampoline := KERNBASE |}.
#[local] Existing Instance demo_layout.
Lemma demo_layout_ok : LayoutOk.
Proof. split; vm_compute; try done; split; done. Qed.
#[local] Existing Instance demo_layout_ok.

Definition page (k : Z) : Z := PHYSTOP - k * PGSIZE.
Definition demo_free : list Z := [page 3; page 4; page 5; page 6; page 7; page 8].
Definition demo : pmem :=
  {| mem := store64 (store64 (store64 (store64 (store64 ∅ (page 3) (page 4)) (page 4) (page 5))
       (page 5) (page 6)) (page 6) (page 7)) (page 7) (page 8);
     freelist := page 3; held := ∅ |}.

Lemma demo_free_pages : free_pages demo demo_free.
Proof.
  split.
  - repeat (constructor; [done|]; match goal with |- chain ?m (load64 ?m ?a) _ =>
      let v := eval vm_compute in (load64 m a) in
      replace (load64 m a) with v by (vm_compute; reflexivity) end). constructor.
  - by apply (bool_decide_unpack _).
  - repeat (constructor; [split; vm_compute; done|]). constructor.
Qed.

Lemma demo_root k : k = 1 \/ k = 2 -> as_rep demo (page k) {[ [] := page k ]} ∅ demo_free.
Proof.
  intros Hk. apply fresh_as_rep.
  - destruct Hk as [-> | ->]; split; vm_compute; done.
  - destruct Hk as [-> | ->]; by apply (bool_decide_unpack _).
  - apply demo_free_pages.
  - set_solver.
  - intros i Hi. cbn. rewrite !load64_store64_ne
      by (right; unfold page, PGSIZE; destruct Hk; lia).
    apply load64_empty.
Qed.

Definition perms1 : nat -> Z := fun _ => user_perm.

(** Page table 1 with one page of user memory. *)
Lemma demo_user :
  exists s t l pg, filling perms1 (fun _ _ => 0) demo (page 1) {[ [] := page 1 ]} ∅ demo_free 0 2 [pg] s t l /\
    as_rep s (page 2) {[ [] := page 2 ]} ∅ l.
Proof.
  pose proof (demo_root 1 ltac:(auto)) as R1. pose proof (demo_root 2 ltac:(auto)) as R2.
  assert (Hmax : 0 <= 100 <= MAXVA) by (split; vm_compute; done).
  assert (Hun : unmapped (pages_of (100 - 0)) 0 ∅) by (by intros i _).
  destruct (uvmalloc_loop_spec demo (page 1) _ ∅ demo_free 0 100 R1 (Z.le_refl 0) eq_refl Hmax Hun
    1 2 [] demo _ _ eq_refl (le_n 2) (filling_nil _ _ _ _ _ _ _ _ R1))
    as [(s & t & l & pgs & _ & Hlen & F)|(s & t & l & _ & _ & _ & Hlen)].
  - change (pages_of (100 - 0)) with 1%nat in *. destruct pgs as [|pg [|]]; try done. exists s, t, l, pg.
    split; [done|]. eapply other_space; [exact R2|apply F|apply F|].
    intros p [k Hk]. apply lookup_singleton_Some in Hk as [_ <-]. split; [split; vm_compute; done|].
    intros [k' Hk']. by apply lookup_singleton_Some in Hk' as [_ [=]].
  - vm_compute in Hlen. lia.
Qed.

Lemma demo_space :
  exists s t l pte, let u : aspace := {[ 0 := pte ]} in
    as_rep s (page 1) t u l /\ as_rep s (page 2) {[ [] := page 2 ]} ∅ l /\ mapped_at u 0 [pte] /\
    disposable [pte] t l /\ user_pages u t l /\ PTE2PA pte <> page 2 /\ ~ in_table t (page 2) /\ held s = ∅ /\
    uaddr u 0 <> 0.
Proof.
  destruct demo_user as (s & t & l & pg & F & R2). exists s, t, l, (leaf_pte pg user_perm).
  pose proof (demo_root 1 ltac:(auto)) as R1. pose proof (user_perms_ok : forall i, _) as Hperm.
  pose proof F as [R T Hok _]. assert (Hpg : page_ok pg) by (by inversion Hok).
  assert (Hfr : pg ∉ l /\ ~ in_table t pg /\ pg ∈ demo_free /\ ~ in_table {[ [] := page 1 ]} pg)
    by (eapply filling_fresh; try done; by left). destruct Hfr as (Hl & Ht & Hd & _).
  pose proof (page_ok_range pg Hpg). assert (Hal := page_ok_aligned pg Hpg).
  assert (Hpa : PTE2PA (leaf_pte pg user_perm) = pg) by (apply PTE2PA_leaf; [lia|done|apply (Hperm O)]).
  assert (Hu : forall va0, uaddr {[ 0 := leaf_pte pg user_perm ]} va0 <> 0 ->
    va0 = 0 /\ uaddr {[ 0 := leaf_pte pg user_perm ]} va0 = pg).
  { intros va0. unfold uaddr. destruct (decide (0 = va0)) as [<-|]; [|by rewrite lookup_singleton_ne].
    rewrite lookup_singleton_eq, Hpa. by destruct (_ =? 0). }
  cbv zeta. split; [exact R|]. split; [done|]. split; [|split; [|split; [|split; [|split; [|split; [apply T|]]]]]].
  - split; [apply lookup_singleton_eq|]. split; [|done]. rewrite PTE_FLAGS_leaf by (lia || apply (Hperm O)).
    apply (Hperm O).
  - split; [|split]; cbn [fmap list_fmap]; rewrite Hpa.
    + eapply (filling_nodup perms1 (fun _ _ => 0) demo); done.
    + done.
    + by intros p ->%list_elem_of_singleton.
  - split.
    + intros va0 Hne. destruct (Hu va0 Hne) as [_ ->]. done.
    + intros va0 va1 Hne He. destruct (Hu va0 Hne) as [-> _]. rewrite He in Hne. by destruct (Hu va1 Hne) as [-> _].
  - rewrite Hpa. intros ->. revert Hd. by apply (bool_decide_unpack _).
  - intros [k Hk]. destruct (tk_new _ _ _ _ _ _ _ _ T) as (tabs & P & _ & Htab).
    destruct (Htab _ _ Hk) as [[_ [=]]%lookup_singleton_Some|Hin].
    assert (page 2 ∈ demo_free) as Hbad by (rewrite P; set_solver). revert Hbad. by apply (bool_decide_unpack _).
  - unfold uaddr. rewrite lookup_singleton_eq. change PTE_U with (2 ^ 4). rewrite PTE_bit_spec by lia.
    unfold leaf_pte. rewrite !Z.lor_spec. change (Z.testbit user_perm 4) with true.
    rewrite orb_true_r. cbn. fold (leaf_pte pg user_perm). lia.
Qed.

Lemma mappages_correct_witness :
  exists o, mappages (page 1) 0 PGSIZE (page 9) PTE_R demo = o /\
  mappages_outcome 1 demo (page 1) {[ [] := page 1 ]} ∅ demo_free 0 (page 9) PTE_R o.
Proof.
  eexists. split; [reflexivity|].
  apply (mappages_correct demo (page 1) {[ [] := page 1 ]} ∅ demo_free 0 PGSIZE (page 9) PTE_R
    (demo_root 1 (or_introl eq_refl))); vm_compute; try done; split; done.
Defined.

Lemma uvmunmap_correct_witness :
  exists s t l pte s' u', as_rep s (page 1) t {[ 0 := pte ]} l /\
    uvmunmap (page 1) 0 1 true s = Ret tt s' /\ as_rep s' (page 1) t u' (PTE2PA pte :: l).
Proof.
  destruct demo_space as (s & t & l & pte & R & _ & Hm & Hd & _).
  destruct (uvmunmap_correct [pte] s (page 1) t _ l 0 true R) as (s' & u' & E & R' & _);
    [lia|done|vm_compute; done|done|done|]. exists s, t, l, pte, s', u'. done.
Defined.

Lemma uvmalloc_all_or_nothing_witness :
  (exists s' t' l' pgs, uvmalloc (page 1) 0 100 demo = Ret 100 s' /\
     length pgs = pages_of (100 - PGROUNDUP 0) /\
     as_rep s' (page 1) t' (map_list (PGROUNDUP 0) (leaves (fun _ => user_perm) pgs) ∅) l') \/
  (exists s', uvmalloc (page 1) 0 100 demo = Ret 0 s').
Proof.
  destruct (uvmalloc_all_or_nothing demo (page 1) {[ [] := page 1 ]} ∅ demo_free 0 100
    (demo_root 1 (or_introl eq_refl))) as [(s' & t' & l' & pgs & ? & ? & ? & _)|(s' & t' & l' & ? & _)].
  - lia.
  - vm_compute; done.
  - by intros i _.
  - left. exists s', t', l', pgs. split; [assumption|]. split; assumption.
  - right. exists s'. assumption.
Defined.

Lemma uvmcopy_correct_witness :
  exists s t l pte r s', as_rep s (page 1) t {[ 0 := pte ]} l /\ uvmcopy (page 1) (page 2) 100 s = Ret r s'.
Proof.
  destruct demo_space as (s & t & l & pte & R & R2 & Hm & Hd & _ & Hne & Hn2 & _ & _). exists s, t, l, pte.
  destruct (uvmcopy_correct s (page 1) (page 2) t _ _ _ l [pte] 100 R R2)
    as [(s' & t' & l' & pgs & E & _)|(s' & t' & l' & E & _)].
  - split; vm_compute; done.
  - reflexivity.
  - exact Hm.
  - exact Hd.
  - intros p [k Hk]. apply lookup_singleton_Some in Hk as [_ <-]. split; [done|].
    intros Hin%list_elem_of_singleton. by apply Hne.
  - by intros i _.
  - exists 0, s'. split; assumption.
  - exists (-1), s'. split; assumption.
Defined.

Lemma uvmfree_no_leak_witness :
  exists s t l pte s' l', as_rep s (page 1) t {[ 0 := pte ]} l /\ uvmfree (page 1) 100 s = Ret tt s' /\
    free_pages s' l' /\ forall q, q ∈ l' <-> q ∈ l \/ q ∈ [PTE2PA pte] \/ in_table t q.
Proof.
  destruct demo_space as (s & t & l & pte & R & _ & Hm & Hd & _).
  destruct (uvmfree_no_leak s (page 1) t _ l [pte] 100 R) as (s' & l' & E & F & H);
    [split; vm_compute; done|reflexivity|exact Hm|exact Hd| |by exists s, t, l, pte, s', l'].
  intros va x [<- _]%lookup_singleton_Some. split; vm_compute; done.
Defined.

Lemma copyin_correct_witness :
  exists s t l pte r bs, as_rep s (page 1) t {[ 0 := pte ]} l /\ copyin (page 1) 50 20 s = Ret (r, bs) s.
Proof.
  destruct demo_space as (s & t & l & pte & R & _).
  destruct (copyin_correct s (page 1) t _ l 50 20 R) as (r & bs & E & _); [lia|lia|]. by exists s, t, l, pte, r, bs.
Defined.

Lemma copyinstr_correct_witness :
  exists s t l pte r bs, as_rep s (page 1) t {[ 0 := pte ]} l /\ copyinstr (page 1) 50 20 s = Ret (r, bs) s.
Proof.
  destruct demo_space as (s & t & l & pte & R & _).
  destruct (copyinstr_correct s (page 1) t _ l 50 20 R) as (r & bs & E & _); [lia|lia|]. by exists s, t, l, pte, r, bs.
Defined.

Lemma copyout_correct_witness :
  exists s t l pte r s', as_rep s (page 1) t {[ 0 := pte ]} l /\ copyout (page 1) 4090 [1; 2; 3] s = Ret r s' /\
    as_rep s' (page 1) t {[ 0 := pte ]} l.
Proof.
  destruct demo_space as (s & t & l & pte & R & _ & _ & _ & UP & _).
  destruct (copyout_correct s (page 1) t _ l 4090 [1; 2; 3] R UP) as (r & s' & k & E & R' & _); [lia|].
  by exists s, t, l, pte, r, s'.
Defined.

Lemma copyin_copyout_witness :
  exists s t l pte, as_rep s (page 1) t {[ 0 := pte ]} l /\
    forall s', copyout (page 1) 10 [1; 2; 3] s = Ret 0 s' -> copyin (page 1) 10 3 s' = Ret (0, [1; 2; 3]) s'.
Proof.
  destruct demo_space as (s & t & l & pte & R & _ & _ & _ & UP & _). exists s, t, l, pte. split; [exact R|].
  intros s'. apply (copyin_copyout s (page 1) t _ l 10 [1; 2; 3] s' R UP); [lia|].
  repeat (constructor; [lia|]). constructor.
Defined.
End Demo.
