(* ===== verification/Pipe.v ===== *)
(** kernel/pipe.c: pipes.

    A pipe is a 512-byte ring buffer indexed by two 32-bit counters that wrap
    around.  A reader finding the ring empty and a writer finding it full
    sleep.  The ghost fields [sent] and [rcvd] record every byte put into and
    taken out of the ring. *)

From S2P Require Import Prelude Riscv Mem Sync Kalloc Vm VmPt VmMap VmCopy.

Definition PIPESIZE : Z := 512.

Record pipe := Pipe {
  pdata : list Z; nread : Z; nwrite : Z; readopen : Z; writeopen : Z;
  sent : list Z; rcvd : list Z;                           (* ghost *)
}.

(** The pipes by address, memory, and of the running process its page table and
    [killed] flag. *)
Record pstate := PState {
  ps_mem : pmem; pipes : gmap Z pipe; pr_pagetable : Z; pr_killed : bool; woken : list chan }.

#[global] Instance pstate_pmem : Lens pstate pmem.
Proof.
  refine {| lget := ps_mem; lput := fun x s => {| ps_mem := x; pipes := pipes s;
    pr_pagetable := pr_pagetable s; pr_killed := pr_killed s; woken := woken s |} |}; lens_laws pstate.
Defined.
#[global] Instance pstate_held : Lens pstate lockset.
Proof.
  refine {| lget := fun s => held (ps_mem s);
            lput := fun h s => {| ps_mem := set_held h (ps_mem s); pipes := pipes s;
    pr_pagetable := pr_pagetable s; pr_killed := pr_killed s; woken := woken s |} |};
    intros; repeat match goal with t : pstate |- _ => destruct t as [[]] end; reflexivity.
Defined.
#[global] Instance pstate_woken : Lens pstate (list chan).
Proof.
  refine {| lget := woken; lput := fun x s => {| ps_mem := ps_mem s; pipes := pipes s;
    pr_pagetable := pr_pagetable s; pr_killed := pr_killed s; woken := x |} |}; lens_laws pstate.
Defined.

Definition set_pipes (x : gmap Z pipe) (s : pstate) : pstate :=
  {| ps_mem := ps_mem s; pipes := x; pr_pagetable := pr_pagetable s;
     pr_killed := pr_killed s; woken := woken s |}.
Definition no_pipe : pipe :=
  {| pdata := []; nread := 0; nwrite := 0; readopen := 0; writeopen := 0; sent := []; rcvd := [] |}.
Definition getpipe (pi : Z) : M pstate pipe := gets (fun s => default no_pipe (pipes s !! pi)).
Definition setpipe (pi : Z) (p : pipe) : M pstate unit :=
  modify (fun s => set_pipes (<[pi := p]> (pipes s)) s).

Definition set_readopen (x : Z) (p : pipe) : pipe :=
  {| pdata := pdata p; nread := nread p; nwrite := nwrite p; readopen := x; writeopen := writeopen p;
     sent := sent p; rcvd := rcvd p |}.
Definition set_writeopen (x : Z) (p : pipe) : pipe :=
  {| pdata := pdata p; nread := nread p; nwrite := nwrite p; readopen := readopen p; writeopen := x;
     sent := sent p; rcvd := rcvd p |}.

(** [pi->data[pi->nwrite++ % PIPESIZE] = ch] *)
Definition put_byte (ch : Z) (p : pipe) : pipe :=
  {| pdata := <[Z.to_nat (nwrite p mod PIPESIZE) := u8 ch]> (pdata p);
     nread := nread p; nwrite := u32 (nwrite p + 1);
     readopen := readopen p; writeopen := writeopen p;
     sent := sent p ++ [u8 ch]; rcvd := rcvd p |}.
(** [ch = pi->data[pi->nread++ % PIPESIZE]] *)
Definition next_byte (p : pipe) : Z := pdata p !!! Z.to_nat (nread p mod PIPESIZE).
Definition take_byte (p : pipe) : pipe :=
  {| pdata := pdata p; nread := u32 (nread p + 1); nwrite := nwrite p;
     readopen := readopen p; writeopen := writeopen p;
     sent := sent p; rcvd := rcvd p ++ [next_byte p] |}.

(** The pipe [pipealloc] sets up in a fresh page with bytes [garbage]. *)
Definition pipe_init (garbage : list Z) : pipe :=
  {| pdata := garbage; nread := 0; nwrite := 0; readopen := 1; writeopen := 1; sent := []; rcvd := [] |}.

Section Pipe.
Context {LY : Layout}.

Definition pipeclose (pi : Z) (writable : bool) : M pstate unit :=
  acquire (LPipe pi) ;;
  let! p := getpipe pi in
  (if writable
   then setpipe pi (set_writeopen 0 p) ;; wakeup (ChanPipeRead pi)
   else setpipe pi (set_readopen 0 p) ;; wakeup (ChanPipeWrite pi)) ;;
  let! p := getpipe pi in
  if (readopen p =? 0) && (writeopen p =? 0)
  then release (LPipe pi) ;; modify (fun s => set_pipes (delete pi (pipes s)) s) ;; zoom (kfree pi)
  else release (LPipe pi).

(** [while(pi->nwrite == pi->nread + PIPESIZE)]: [false] when it returned -1. *)
Fixpoint pipewrite_full (fuel : nat) (pi : Z) : M pstate bool :=
  match fuel with
  | O => nofuel
  | S fuel' =>
      let! p := getpipe pi in
      if nwrite p =? u32 (nread p + PIPESIZE) then
        let! killed := gets pr_killed in
        if (readopen p =? 0) || killed then release (LPipe pi) ;; mret_ false
        else
          wakeup (ChanPipeRead pi) ;;
          sleep (ChanPipeWrite pi) (LPipe pi) ;;
          pipewrite_full fuel' pi
      else mret_ true
  end.

Definition pipewrite_done (pi i : Z) : M pstate Z :=
  wakeup (ChanPipeRead pi) ;; release (LPipe pi) ;; mret_ i.

(** The [for] loop, with [rem] iterations left. *)
Fixpoint pipewrite_loop (fuel rem : nat) (pi addr i : Z) : M pstate Z :=
  match rem with
  | O => pipewrite_done pi i
  | S rem' =>
      let! ok := pipewrite_full fuel pi in
      if negb ok then mret_ (-1)
      else
        let! pagetable := gets pr_pagetable in
        let! '(r, ch) := zoom (copyin pagetable (u64 (addr + i)) 1) in
        if r =? -1 then pipewrite_done pi i
        else
          let! p := getpipe pi in
          setpipe pi (put_byte (ch !!! O) p) ;;
          pipewrite_loop fuel rem' pi addr (i + 1)
  end.
Definition pipewrite (fuel : nat) (pi addr n : Z) : M pstate Z :=
  acquire (LPipe pi) ;; pipewrite_loop fuel (Z.to_nat n) pi addr 0.

(** [while(pi->nread == pi->nwrite && pi->writeopen)] *)
Fixpoint piperead_empty (fuel : nat) (pi : Z) : M pstate bool :=
  match fuel with
  | O => nofuel
  | S fuel' =>
      let! p := getpipe pi in
      if (nread p =? nwrite p) && negb (writeopen p =? 0) then
        let! killed := gets pr_killed in
        if killed then release (LPipe pi) ;; mret_ false
        else sleep (ChanPipeRead pi) (LPipe pi) ;; piperead_empty fuel' pi
      else mret_ true
  end.

Definition piperead_done (pi i : Z) : M pstate Z :=
  wakeup (ChanPipeWrite pi) ;; release (LPipe pi) ;; mret_ i.

Fixpoint piperead_loop (rem : nat) (pi addr i : Z) : M pstate Z :=
  match rem with
  | O => piperead_done pi i
  | S rem' =>
      let! p := getpipe pi in
      if nread p =? nwrite p then piperead_done pi i
      else
        let ch := next_byte p in
        setpipe pi (take_byte p) ;;
        let! pagetable := gets pr_pagetable in
        let! r := zoom (copyout pagetable (u64 (addr + i)) [ch]) in
        if r =? -1 then piperead_done pi i
        else piperead_loop rem' pi addr (i + 1)
  end.
Definition piperead (fuel : nat) (pi addr n : Z) : M pstate Z :=
  acquire (LPipe pi) ;;
  let! ok := piperead_empty fuel pi in
  if negb ok then mret_ (-1) else piperead_loop (Z.to_nat n) pi addr 0.
End Pipe.

(** ** The ring buffer as a queue *)

(** [q] are the bytes in flight. *)
Record pipe_rep (p : pipe) (q : list Z) : Prop := {
  pp_len : length (pdata p) = 512%nat;
  pp_nread : 0 <= nread p < 2 ^ 32;
  pp_nwrite : nwrite p = u32 (nread p + Z.of_nat (length q));
  pp_size : (length q <= 512)%nat;
  pp_data : forall i b, q !! i = Some b ->
    pdata p !! Z.to_nat ((nread p + Z.of_nat i) mod PIPESIZE) = Some b;
  pp_bytes : Forall (fun b => 0 <= b < 256) q;
  pp_ghost : sent p = rcvd p ++ q;
}.

Lemma u32_mod_PIPESIZE x : u32 x mod PIPESIZE = x mod PIPESIZE.
Proof. unfold u32, PIPESIZE. Z.to_euclidean_division_equations. lia. Qed.

(** The counters tell empty, full and anything between, across the wrap-around. *)
Lemma pipe_empty p q : pipe_rep p q -> (nread p =? nwrite p) = bool_decide (q = []).
Proof.
  intros [Hl Hr Hw Hs _ _ _]. rewrite Hw. unfold u32.
  destruct q as [|b q]; cbn [length] in *.
  - rewrite Z.add_0_r, Z.mod_small by done. rewrite bool_decide_true by done. lia.
  - rewrite bool_decide_false by done. apply Z.eqb_neq. Z.to_euclidean_division_equations. lia.
Qed.

Lemma pipe_full p q :
  pipe_rep p q -> (nwrite p =? u32 (nread p + PIPESIZE)) = bool_decide (length q = 512%nat).
Proof.
  intros [Hl Hr Hw Hs _ _ _]. rewrite Hw. unfold u32, PIPESIZE.
  destruct (decide (length q = 512%nat)) as [E|E].
  - rewrite E, bool_decide_true by done. apply Z.eqb_refl.
  - rewrite bool_decide_false by done. apply Z.eqb_neq. Z.to_euclidean_division_equations. lia.
Qed.

Lemma put_byte_rep p q ch :
  pipe_rep p q -> (length q < 512)%nat -> pipe_rep (put_byte ch p) (q ++ [u8 ch]).
Proof.
  intros [Hl Hr Hw Hs Hd Hb Hg] Hlt. split; cbn.
  - by rewrite length_insert.
  - done.
  - rewrite Hw, length_app. cbn. unfold u32. Z.to_euclidean_division_equations. lia.
  - rewrite length_app. cbn. lia.
  - intros i b. rewrite Hw, u32_mod_PIPESIZE. intros [Hi|[Hi Hc]]%lookup_app_Some.
    + pose proof (lookup_lt_Some _ _ _ Hi). rewrite list_lookup_insert_ne; [by apply Hd|].
      unfold PIPESIZE. Z.to_euclidean_division_equations. lia.
    + destruct (i - length q)%nat eqn:E; [|done]. injection Hc as <-. replace i with (length q) by lia.
      apply list_lookup_insert_eq. rewrite Hl. unfold PIPESIZE. Z.to_euclidean_division_equations. lia.
  - apply Forall_app. split; [done|]. constructor; [apply u8_range|constructor].
  - by rewrite Hg, app_assoc.
Qed.

Lemma take_byte_rep p b q :
  pipe_rep p (b :: q) -> next_byte p = b /\ pipe_rep (take_byte p) q.
Proof.
  intros [Hl Hr Hw Hs Hd Hb Hg]. cbn [length] in *.
  assert (Hn : next_byte p = b).
  { unfold next_byte. apply list_lookup_total_correct. rewrite <- (Hd O b eq_refl). do 2 f_equal. by rewrite Z.add_0_r. }
  split; [done|]. split; cbn.
  - done.
  - apply u32_range.
  - rewrite Hw. unfold u32. Z.to_euclidean_division_equations. lia.
  - lia.
  - intros i x Hi. rewrite <- (Hd (S i) x Hi). do 2 f_equal.
    unfold u32, PIPESIZE. Z.to_euclidean_division_equations. lia.
  - by inversion Hb.
  - rewrite Hg, Hn, <- app_assoc. done.
Qed.
