(* ===== verification/PipeProps.v ===== *)
(** Pipes deliver every byte once and in order (kernel/pipe.c).

    One process runs [pipewrite] or [piperead]; whenever it sleeps, other
    processes may read, write and close the pipe, keeping the invariant. *)

From S2P Require Import Prelude Riscv Mem Sync Kalloc Vm VmPt VmMap VmCopy VmProps Pipe.

Section PipeProps.
Context {LY : Layout} {LYok : LayoutOk}.
Context (pi pt : Z) (u : aspace).

(** The invariant: the ring at [pi] is a queue and the running process has a
    well-formed address space [u] under its page table [pt]. *)
Definition pinv (s : pstate) : Prop :=
  exists p q t l, pipes s !! pi = Some p /\ pipe_rep p q /\ pr_pagetable s = pt /\
    as_rep (ps_mem s) pt t u l /\ user_pages u t l.

(** It holds, and this process holds just the locks [h]. *)
Definition pinv_at (h : lockset) (s : pstate) : Prop := pinv s /\ held (ps_mem s) = h.

Abbreviation user s := (ubyte (mem (ps_mem s)) u).

(** From [s] to [s'] the bytes [new] went into the pipe; this process's memory
    did not change. *)
Definition ext (s s' : pstate) (new : list Z) : Prop :=
  exists p p', pipes s !! pi = Some p /\ pipes s' !! pi = Some p' /\ sent p' = sent p ++ new /\
    rcvd p `prefix_of` rcvd p' /\ forall va, user s' va = user s va.

(** What other processes may do while this one sleeps. *)
Definition others (s s' : pstate) : Prop := exists new, ext s s' new.

Lemma ext_trans s1 s2 s3 n1 n2 : ext s1 s2 n1 -> ext s2 s3 n2 -> ext s1 s3 (n1 ++ n2).
Proof.
  intros (p1 & p2 & H1 & H2 & S1 & R1 & U1) (p2' & p3 & H2' & H3 & S2 & R2 & U2).
  rewrite H2 in H2'. injection H2' as <-. exists p1, p3. split; [done|]. split; [done|].
  split; [by rewrite S2, S1, app_assoc|]. split; [by transitivity (rcvd p2)|].
  intros va. by rewrite U2, U1.
Qed.

Lemma ext_refl s : pinv s -> ext s s [].
Proof. intros (p & _ & _ & _ & H & _). exists p, p. by rewrite app_nil_r. Qed.

(** Changing only the lock set or the record of wakeups. *)
Lemma pinv_frame s s' h :
  pinv s -> pipes s' = pipes s -> pr_pagetable s' = pr_pagetable s -> ps_mem s' = set_held h (ps_mem s) ->
  LKmem ∉ h -> pinv_at h s' /\ ext s s' [].
Proof.
  intros (p & q & t & l & H & Hp & Hpt & R & UP) E1 E2 E3 Hh. split.
  - split; [|by rewrite E3]. exists p, q, t, l. rewrite E1, E2, E3.
    split; [done|]. split; [done|]. split; [done|]. split; [by apply as_rep_held|done].
  - exists p, p. rewrite E1, E3, app_nil_r. done.
Qed.

Lemma LKmem_not_pipe : LKmem ∉ ({[LPipe pi]} : lockset).
Proof. set_solver. Qed.

Lemma acquire_pipe s : pinv_at ∅ s ->
  exists s', acquire (LPipe pi) s = Ret tt s' /\ pinv_at {[LPipe pi]} s' /\ ext s s' [].
Proof.
  intros [Hi Hh]. eexists. split.
  - apply acquire_ok. cbn. rewrite Hh. set_solver.
  - eapply pinv_frame; try done; [|apply LKmem_not_pipe]. cbn. rewrite Hh. f_equal. set_solver.
Qed.

Lemma release_pipe s : pinv_at {[LPipe pi]} s ->
  exists s', release (LPipe pi) s = Ret tt s' /\ pinv_at ∅ s' /\ ext s s' [].
Proof.
  intros [Hi Hh]. eexists. split.
  - apply release_ok. cbn. rewrite Hh. set_solver.
  - eapply pinv_frame; try done. cbn. rewrite Hh. f_equal. set_solver.
Qed.

Lemma set_held_id s : set_held (held s) s = s.
Proof. by destruct s. Qed.

Lemma wakeup_pipe c s h : LKmem ∉ h -> pinv_at h s ->
  exists s', wakeup c s = Ret tt s' /\ pinv_at h s' /\ ext s s' [].
Proof.
  intros Hk [Hi Hh]. eexists. split; [done|]. eapply pinv_frame; try done.
  cbn. by rewrite <- Hh, set_held_id.
Qed.

(** The common end of [pipewrite] and [piperead]. *)
Lemma finish_pipe c (i : Z) s : pinv_at {[LPipe pi]} s ->
  exists s', (wakeup c ;; release (LPipe pi) ;; mret_ i) s = Ret i s' /\ pinv_at ∅ s' /\ ext s s' [] /\
    pipes s' = pipes s.
Proof.
  intros [Hi Hh]. eexists. split.
  - mstep. erewrite bind_ret; [reflexivity|]. apply release_ok. cbn. rewrite Hh. set_solver.
  - match goal with |- pinv_at ∅ ?s' /\ _ => destruct (pinv_frame s s' ∅ Hi) as [? ?]; try done end.
    cbn. rewrite Hh. f_equal. set_solver.
Qed.

(** Sleeping on the pipe: what is known when the process runs again. *)
Lemma sleep_pipe c s (Q : unit -> pstate -> Prop) :
  pinv_at {[LPipe pi]} s ->
  (forall s' new, pinv_at {[LPipe pi]} s' -> ext s s' new -> Q tt s') ->
  safe (pinv_at ∅) others Q (sleep c (LPipe pi) s).
Proof.
  intros [Hi Hh] HQ. rewrite sleep_ok by done. cbn.
  destruct (pinv_frame s (lput (∅ : lockset) s) ∅ Hi) as [I1 X1]; try done.
  split; [exact I1|]. intros s' [new X2] I2. destruct (acquire_pipe s' I2) as (s2 & -> & I3 & X3).
  cbn. eapply (HQ s2 (new ++ [])); [done|]. eapply (ext_trans _ _ _ [] _ X1). by eapply ext_trans.
Qed.

(** Changing the pipe itself. *)
Lemma setpipe_pinv p p' q' s h new :
  pinv_at h s -> pipes s !! pi = Some p -> pipe_rep p' q' -> sent p' = sent p ++ new ->
  rcvd p `prefix_of` rcvd p' ->
  exists s', setpipe pi p' s = Ret tt s' /\ pinv_at h s' /\ ext s s' new /\ pipes s' !! pi = Some p'.
Proof.
  intros [(p0 & q & t & l & H & _ & Hpt & R & UP) Hh] Hp Hrep Hs Hr. eexists. split; [done|].
  assert (Hl : <[pi := p']> (pipes s) !! pi = Some p') by apply lookup_insert_eq.
  split; [split; [|done]|split; [|done]].
  - exists p', q', t, l. done.
  - exists p, p'. done.
Qed.

(** ** Writing *)

Lemma ext_user s s' new va : ext s s' new -> user s' va = user s va.
Proof. by intros (? & ? & _ & _ & _ & _ & ?). Qed.

Lemma ubytes_ext (f g : Z -> option Z) a n : (forall va, f va = g va) -> ubytes f a n = ubytes g a n.
Proof. intros H. revert a. induction n as [|n IH]; intros a; cbn [ubytes]; [done|]. by rewrite H, IH. Qed.

(** [puts Q own s0 o]: as [safe], for a process that has put the bytes [own] into the
    pipe and runs since the state [s0]: what enters the pipe until it sleeps or
    returns is its doing, what enters while it sleeps is not, and it ends in a result
    that satisfies [Q] with all the bytes that it has put there itself. *)
Fixpoint puts {A} (Q : list Z -> A -> pstate -> Prop) (own : list Z) (s0 : pstate) (o : outcome pstate A) : Prop :=
  match o with
  | Ret a s => exists new, ext s0 s new /\ Q (own ++ new) a s
  | Panic _ => False
  | Sleep _ s k => pinv_at ∅ s /\ exists new, ext s0 s new /\
      forall s', others s s' -> pinv_at ∅ s' -> puts Q (own ++ new) s' (k s')
  | NoFuel => True
  end.

(** The process has run from [s0] to [s1]. *)
Lemma puts_from {A} (Q : list Z -> A -> pstate -> Prop) own s0 s1 new o :
  ext s0 s1 new -> puts Q (own ++ new) s1 o -> puts Q own s0 o.
Proof.
  intros X. destruct o as [a s| |c s k|]; cbn [puts]; [|done| |done].
  - intros (n2 & X2 & HQ). exists (new ++ n2). rewrite app_assoc. split; [by eapply ext_trans|done].
  - intros (I & n2 & X2 & Hk). split; [done|]. exists (new ++ n2). rewrite app_assoc. split; [by eapply ext_trans|done].
Qed.

Lemma puts_from_nil {A} (Q : list Z -> A -> pstate -> Prop) own s0 s1 o : ext s0 s1 [] -> puts Q own s1 o -> puts Q own s0 o.
Proof. intros X H. eapply puts_from; [exact X|]. by rewrite app_nil_r. Qed.

Lemma puts_bind {A B} (P : list Z -> A -> pstate -> Prop) (Q : list Z -> B -> pstate -> Prop) (m : M pstate A) (f : A -> M pstate B) own s0 s :
  puts P own s0 (m s) -> (forall own' a s', P own' a s' -> puts Q own' s' (f a s')) -> puts Q own s0 (mbind_ m f s).
Proof.
  intros Hm Hf. unfold mbind_. revert own s0 Hm. induction (m s) as [a s'| |c s' k IH|]; intros own s0; cbn [puts bind_out]; [|done| |done].
  - intros (new & X & HP). eapply puts_from; [exact X|]. by apply Hf.
  - intros (I & new & X & Hk). split; [done|]. exists new. split; [done|]. intros s2 HE I2. apply IH. by apply Hk.
Qed.

Lemma puts_mono {A} (P Q : list Z -> A -> pstate -> Prop) own s0 o :
  puts P own s0 o -> (forall own' a s, P own' a s -> Q own' a s) -> puts Q own s0 o.
Proof.
  intros H HPQ. revert own s0 H. induction o as [a s'| |c s' k IH|]; intros own s0; cbn [puts]; [|done| |done].
  - intros (new & X & HP). eauto.
  - intros (I & new & X & Hk). split; [done|]. exists new. split; [done|]. intros s2 HE I2. apply IH. by apply Hk.
Qed.

Lemma puts_sleep c own s (Q : list Z -> unit -> pstate -> Prop) :
  pinv_at {[LPipe pi]} s ->
  (forall s', pinv_at {[LPipe pi]} s' -> (forall va, user s' va = user s va) -> Q own tt s') ->
  puts Q own s (sleep c (LPipe pi) s).
Proof.
  intros [Hi Hh] HQ. rewrite sleep_ok by done. cbn [puts].
  destruct (pinv_frame s (lput (∅ : lockset) s) ∅ Hi) as [I1 X1]; try done.
  split; [exact I1|]. exists []. split; [exact X1|]. intros s' [new X2] I2. destruct (acquire_pipe s' I2) as (s2 & -> & I3 & X3).
  cbn [puts]. exists []. split; [exact X3|]. rewrite !app_nil_r. apply HQ; [exact I3|].
  intros va. by rewrite (ext_user _ _ _ _ X3), (ext_user _ _ _ _ X2), (ext_user _ _ _ _ X1).
Qed.

(** The reader is gone, or the process was killed. *)
Definition hopeless (s : pstate) : Prop := exists p, pipes s !! pi = Some p /\ (readopen p = 0 \/ pr_killed s = true).

Lemma pipewrite_full_puts fuel own s :
  pinv_at {[LPipe pi]} s ->
  puts (fun own' ok s' => own' = own /\ (forall va, user s' va = user s va) /\
      if ok : bool
      then pinv_at {[LPipe pi]} s' /\ forall p q, pipes s' !! pi = Some p -> pipe_rep p q -> (length q < 512)%nat
      else pinv_at ∅ s' /\ hopeless s')
    own s (pipewrite_full fuel pi s).
Proof.
  revert s. induction fuel as [|fuel IH]; intros s I; [done|]. cbn [pipewrite_full].
  pose proof I as [(p & q & _ & _ & Hp & Hrep & _) Hh]. mstep. rewrite Hp. change (default no_pipe (Some p)) with p.
  rewrite (pipe_full p q Hrep). case_bool_decide as Hfull.
  - mstep. destruct ((readopen p =? 0) || pr_killed s) eqn:Hd.
    + assert (Hr : release (LPipe pi) s = Ret tt (lput ({[LPipe pi]} ∖ {[LPipe pi]} : lockset) s)).
      { rewrite release_ok by (cbn; rewrite Hh; set_solver). cbn. by rewrite Hh. }
      destruct (release_pipe s I) as (s' & E & I' & X). rewrite Hr in E. injection E as <-.
      rewrite (bind_ret _ _ _ _ _ Hr). cbn [mret_ puts]. exists []. split; [done|]. rewrite app_nil_r. split_and!; [done| |done|].
      * intros va. by apply (ext_user _ _ _ _ X).
      * exists p. split; [done|]. apply orb_true_iff in Hd as [Hd|Hd]; [left; by apply Z.eqb_eq|by right].
    + destruct (wakeup_pipe (ChanPipeRead pi) s _ LKmem_not_pipe I) as (s1 & E & I1 & X1).
      rewrite (bind_ret _ _ _ _ _ E). apply (puts_from_nil _ _ _ s1 _ X1).
      apply (puts_bind (fun own' _ s' => own' = own /\ pinv_at {[LPipe pi]} s' /\ forall va, user s' va = user s1 va)); [by apply puts_sleep|].
      intros own' _ s2 (-> & I2 & U2). eapply puts_mono; [by apply IH|]. intros own' ok s3 (-> & U3 & H3). split_and!; [done| |exact H3].
      intros va. by rewrite U3, U2, (ext_user _ _ _ _ X1).
  - cbn [mret_ puts]. exists []. split; [apply ext_refl, I|]. rewrite app_nil_r. split_and!; try done.
    intros p' q' Hp' Hrep'. rewrite Hp in Hp'. injection Hp' as <-.
    pose proof (pp_size _ _ Hrep'). pose proof (pipe_full p q' Hrep') as E1.
    pose proof (pipe_full p q Hrep) as E2. rewrite E1 in E2. rewrite (bool_decide_false _ Hfull) in E2.
    apply bool_decide_eq_false in E2. lia.
Qed.

(** What [pipewrite] started in [s] with [rem] bytes left from [addr + i] returns when
    it has put the bytes [bs]: they are the next bytes of user memory.  It returns
    [i] plus their number, and stops short only where user memory ends; or -1, when
    the reader is gone or the process was killed. *)
Definition write_post (s : pstate) (rem : nat) (addr i : Z) (bs : list Z) (r : Z) (s' : pstate) : Prop :=
  pinv_at ∅ s' /\ (length bs <= rem)%nat /\ ubytes (user s) (addr + i) (length bs) = Some bs /\
  (r = -1 /\ (length bs < rem)%nat /\ hopeless s' \/
   r = i + Z.of_nat (length bs) /\ ((length bs < rem)%nat -> user s (addr + r) = None)).

Lemma pipewrite_done_puts own s rem addr i :
  pinv_at {[LPipe pi]} s -> ((0 < rem)%nat -> user s (addr + i) = None) ->
  puts (fun own' r s' => exists bs, own' = own ++ bs /\ write_post s rem addr i bs r s') own s (pipewrite_done pi i s).
Proof.
  intros I Hf. unfold pipewrite_done. destruct (finish_pipe (ChanPipeRead pi) i s I) as (s2 & -> & I2 & X2 & _).
  cbn [puts]. exists []. split; [done|]. exists []. split; [done|].
  unfold write_post. cbn [length Z.of_nat]. rewrite Z.add_0_r. split_and!; [done|lia|done|right]. split; [done|exact Hf].
Qed.

(** The memory of the process is the same in [s] and [s1]. *)
Lemma write_post_user s s1 rem addr i bs r s' :
  (forall va, user s1 va = user s va) -> write_post s1 rem addr i bs r s' -> write_post s rem addr i bs r s'.
Proof.
  intros U (I & Hl & Hb & Hr). split_and!; [done|done| |].
  - rewrite <- Hb. apply ubytes_ext. intros va. by rewrite U.
  - by rewrite <- (U (addr + r)).
Qed.

(** One more byte in front. *)
Lemma write_post_cons s rem addr i r s' b bs :
  user s (addr + i) = Some b -> write_post s rem addr (i + 1) bs r s' -> write_post s (S rem) addr i (b :: bs) r s'.
Proof.
  intros Hb (I' & Hlen & Hbs & Hr). unfold write_post. cbn [length]. split_and!; [done|lia| |].
  - cbn [ubytes]. rewrite Hb. cbn [mbind option_bind]. replace (addr + i + 1) with (addr + (i + 1)) by lia. by rewrite Hbs.
  - destruct Hr as [(-> & ? & ?)|[-> Hend]]; [left; split_and!; [done|lia|done]|right]. split; [lia|]. intros Hlt.
    rewrite Hend by lia. done.
Qed.

Lemma pipewrite_loop_puts fuel rem addr i own s :
  0 <= addr -> 0 <= i -> addr + i + Z.of_nat rem < 2 ^ 64 -> pinv_at {[LPipe pi]} s ->
  puts (fun own' r s' => exists bs, own' = own ++ bs /\ write_post s rem addr i bs r s') own s (pipewrite_loop fuel rem pi addr i s).
Proof.
  intros Ha. revert i own s. induction rem as [|rem IH]; intros i own s Hi Hmax I; cbn [pipewrite_loop].
  { apply pipewrite_done_puts; [done|lia]. }
  eapply puts_bind; [by apply pipewrite_full_puts|]. intros own' [] s1 (-> & U1 & H1); cbn [negb].
  2:{ destruct H1 as [I1 Hh]. cbn [mret_ puts]. exists []. split; [apply ext_refl, I1|]. exists []. split; [done|].
      split_and!; [done|cbn; lia|done|left]. split_and!; [done|cbn; lia|done]. }
  destruct H1 as [I1 Hroom]. mstep.
  pose proof I1 as [(p & q & t & l & Hp & Hrep & Hpt & R & UP) Hh]. rewrite Hpt.
  destruct (copyin_loop_spec 2 (ps_mem s1) pt t u l (u64 (addr + i)) 1 R) as (r & bs & E & Hr);
    [apply u64_range|lia|].
  assert (E' : zoom (copyin pt (u64 (addr + i)) 1) s1 = Ret (r, bs) s1).
  { rewrite <- (lput_lget s1 (Lens := pstate_pmem)) at 2. apply zoom_ret. exact E. }
  rewrite (bind_ret _ _ _ _ _ E'). rewrite u64_small in Hr by lia.
  change (Z.to_nat 1) with 1%nat in Hr. cbn [ubytes] in Hr.
  rewrite U1 in Hr. destruct (user s (addr + i)) as [b|] eqn:Hb; cbn in Hr.
  - destruct Hr as [-> ->]. cbn [Z.eqb]. mstep. rewrite Hp. change (default no_pipe (Some p)) with p.
    assert (Hb8 : u8 b = b).
    { unfold ubyte in Hb. destruct (utrans u (addr + i)); cbn in Hb; [|done]. injection Hb as <-. apply u8_idem. }
    destruct (setpipe_pinv p (put_byte b p) (q ++ [u8 b]) s1 {[LPipe pi]} [u8 b]) as (s2 & E2 & I2 & X2 & _);
      [done|done|apply put_byte_rep; [done|by eapply Hroom]|done|done|].
    change ([b] !!! 0%nat) with b. rewrite (bind_ret _ _ _ _ _ E2). rewrite Hb8 in X2.
    apply (puts_from _ _ _ s2 [b]); [exact X2|]. eapply puts_mono; [apply IH; [lia|lia|exact I2]|].
    intros own' r s' (bs & -> & Hw). exists (b :: bs). split; [by rewrite <- app_assoc|]. apply write_post_cons; [done|].
    eapply write_post_user; [|exact Hw]. intros va. by rewrite (ext_user _ _ _ _ X2).
  - subst r. change (-1 =? -1) with true. cbv iota.
    eapply puts_mono; [apply (pipewrite_done_puts own s1 (S rem) addr i I1); by rewrite U1|].
    intros own' r s' (bs' & -> & Hw). exists bs'. split; [done|]. by eapply write_post_user.
Qed.

(** ** Reading *)

Lemma piperead_empty_safe fuel s :
  pinv_at {[LPipe pi]} s ->
  safe (pinv_at ∅) others
    (fun ok s' => if ok : bool
      then pinv_at {[LPipe pi]} s' /\ (exists new, ext s s' new) /\
           forall p q, pipes s' !! pi = Some p -> pipe_rep p q -> q = [] -> writeopen p = 0
      else pinv_at ∅ s' /\ exists new, ext s s' new)
    (piperead_empty fuel pi s).
Proof.
  revert s. induction fuel as [|fuel IH]; intros s I; [done|]. cbn [piperead_empty].
  pose proof I as [(p & q & _ & _ & Hp & Hrep & _) _]. mstep. rewrite Hp.
  change (default no_pipe (Some p)) with p. destruct ((nread p =? nwrite p) && _) eqn:Hc.
  - mstep. destruct (pr_killed s).
    + destruct (release_pipe s I) as (s' & E & I' & X). rewrite (bind_ret _ _ _ _ _ E). cbn. eauto.
    + eapply safe_bind with (Q := fun _ s' => pinv_at {[LPipe pi]} s' /\ exists new, ext s s' new).
      * apply sleep_pipe; [done|]. eauto.
      * intros _ s2 [I2 [n2 X2]]. eapply safe_mono; [by apply IH|].
        intros [] s3; [intros (I3 & [n3 X3] & Hq)|intros (I3 & [n3 X3])];
          (split; [done|]); [split; [|done]|]; exists (n2 ++ n3); by eapply ext_trans.
  - cbn. split; [done|]. split; [exists []; apply ext_refl, I|].
    intros p' q' Hp' Hrep' ->. rewrite Hp in Hp'. injection Hp' as <-.
    rewrite (pipe_empty p [] Hrep'), bool_decide_true in Hc by done. cbn in Hc.
    apply negb_false_iff, Z.eqb_eq in Hc. done.
Qed.

(** What the copy loop of [piperead] does with the queue [q]: it delivers the
    first [k] bytes to the user; when the user's buffer ends early, one byte
    more has left the pipe. *)
Definition read_post (s : pstate) (rem : nat) (addr i : Z) (p : pipe) (q : list Z) (r : Z) (s' : pstate) : Prop :=
  exists (k lost : nat) p' q', r = i + Z.of_nat k /\ (k <= rem)%nat /\ pinv_at ∅ s' /\
    pipes s' !! pi = Some p' /\ pipe_rep p' q' /\ sent p' = sent p /\ q' = drop (k + lost) q /\
    (k + lost <= length q)%nat /\
    (forall va, user s' va = if decide (addr + i <= va < addr + r) then q !! Z.to_nat (va - (addr + i)) else user s va) /\
    (lost = O /\ k = Nat.min rem (length q) \/ lost = 1%nat /\ (k < rem)%nat /\ user s (addr + r) = None).

(** The loop stops with [lost] bytes taken and not delivered. *)
Lemma piperead_stop s rem addr i p q lost s1 p1 :
  pinv_at {[LPipe pi]} s1 -> pipes s1 !! pi = Some p1 -> pipe_rep p1 (drop lost q) -> sent p1 = sent p ->
  (lost <= length q)%nat -> (forall va, user s1 va = user s va) ->
  (lost = O /\ (rem = O \/ q = []) \/ lost = 1%nat /\ (0 < rem)%nat /\ user s (addr + i) = None) ->
  exists r s', piperead_done pi i s1 = Ret r s' /\ read_post s rem addr i p q r s'.
Proof.
  intros I Hp Hrep Hsent Hlost Hu Hend. unfold piperead_done.
  destruct (finish_pipe (ChanPipeWrite pi) i s1 I) as (s2 & E & I2 & X2 & Hpi). exists i, s2.
  split; [done|]. exists O, lost, p1, (drop lost q). rewrite Hpi. cbn [Nat.add]. rewrite Z.add_0_r.
  split_and!; try done; [lia| |].
  - intros va. rewrite decide_False by lia. by rewrite (ext_user _ _ _ _ X2).
  - destruct Hend as [[-> [-> | ->]]|(-> & ? & ?)]; [left|left|right]; (split; [done|]); cbn; lia || done.
Qed.

(** One more byte delivered in front. *)
Lemma read_post_cons s s1 rem addr i p p1 b q r s' :
  sent p1 = sent p ->
  (forall va, user s1 va = if decide (va = addr + i) then Some b else user s va) ->
  read_post s1 rem addr (i + 1) p1 q r s' -> read_post s (S rem) addr i p (b :: q) r s'.
Proof.
  intros Hsent Hu (k & lost & p' & q' & -> & Hk & I' & Hp' & Hrep' & Hs' & -> & Hlen & Hu' & Hend).
  exists (S k), lost, p', (drop (k + lost) q). split_and!; try done; try lia; try (cbn; lia).
  - congruence.
  - intros va. rewrite Hu', Hu. repeat case_decide; try lia; try done.
    + replace (Z.to_nat (va - (addr + i))) with (S (Z.to_nat (va - (addr + (i + 1))))) by lia. done.
    + subst va. by replace (Z.to_nat (addr + i - (addr + i))) with O by lia.
  - destruct Hend as [[-> ->]|(-> & ? & Hn)]; [left; cbn; lia|right]. split; [done|]. split; [lia|].
    rewrite Hu, decide_False in Hn by lia. done.
Qed.

Lemma piperead_loop_ok rem addr i s p q :
  0 <= addr -> 0 <= i -> addr + i + Z.of_nat rem < 2 ^ 64 ->
  pinv_at {[LPipe pi]} s -> pipes s !! pi = Some p -> pipe_rep p q ->
  exists r s', piperead_loop rem pi addr i s = Ret r s' /\ read_post s rem addr i p q r s'.
Proof.
  intros Ha. revert i s p q. induction rem as [|rem IH]; intros i s p q Hi Hmax I Hp Hrep; cbn [piperead_loop].
  { eapply (piperead_stop s 0 addr i p q 0); try done; [lia|]. left. auto. }
  mstep. rewrite Hp. change (default no_pipe (Some p)) with p. rewrite (pipe_empty p q Hrep).
  case_bool_decide as Hq.
  { eapply (piperead_stop s (S rem) addr i p q 0); try done; [lia|]. left. auto. }
  destruct q as [|b q]; [done|]. destruct (take_byte_rep p b q Hrep) as [Hb Hrep1]. rewrite Hb.
  destruct (setpipe_pinv p (take_byte p) q s {[LPipe pi]} []) as (s1 & E1 & I1 & X1 & Hp1);
    [done|done|done|by rewrite app_nil_r|by apply prefix_app_r|]. rewrite (bind_ret _ _ _ _ _ E1). mstep.
  pose proof I1 as [(p0 & q0 & t & l & _ & _ & Hpt & R & UP) Hh]. rewrite Hpt.
  destruct (copyout_loop_spec 2 (ps_mem s1) pt t u l (u64 (addr + i)) [b] R UP) as (r & m & k & E & R2 & Hh2 & Hk & Hr);
    [apply u64_range|cbn; lia|]. rewrite u64_small in E, Hk, Hr by lia. rewrite u64_small by lia.
  rewrite (bind_ret _ _ _ _ _ (zoom_ret (H := pstate_pmem) _ s1 _ _ E)). cbn [length] in Hr.
  assert (I2 : pinv_at {[LPipe pi]} (lput m s1)).
  { split; [|cbn; congruence]. exists (take_byte p), q, t, l. done. }
  destruct Hr as [[-> ->]|(-> & Hk0 & Hn)].
  - cbn [Z.eqb]. destruct (IH (i + 1) (lput m s1) (take_byte p) q) as (r & s' & -> & Hpost); try done; try lia.
    exists r, s'. split; [done|]. eapply read_post_cons; [| |exact Hpost]; [done|]. intros va.
    change (ubyte (mem m) u va = if decide (va = addr + i) then Some b else user s va).
    rewrite Hk, <- (ext_user _ _ _ va X1). repeat case_decide; try lia; [|done]. subst va.
    rewrite Z.sub_diag. cbn. f_equal. apply u8_small. pose proof (pp_bytes _ _ Hrep) as Hby. by inversion Hby.
  - change (-1 =? -1) with true. cbv iota. assert (k = 0) as -> by lia.
    apply (piperead_stop s (S rem) addr i p (b :: q) 1 (lput m s1) (take_byte p)); try done; [cbn; lia| |].
    + intros va. change (ubyte (mem m) u va = user s va). rewrite Hk, decide_False by lia. by apply (ext_user _ _ _ va X1).
    + right. split; [done|]. split; [lia|]. rewrite <- (ext_user _ _ _ _ X1), <- Hn. f_equal. lia.
Qed.

(** With room in the ring the loop never sleeps. *)
Lemma pipewrite_loop_room fuel addr bs i s p q :
  0 <= addr -> 0 <= i -> addr + i + Z.of_nat (length bs) < 2 ^ 64 ->
  pinv_at {[LPipe pi]} s -> pipes s !! pi = Some p -> pipe_rep p q ->
  (length q + length bs <= 512)%nat -> ubytes (user s) (addr + i) (length bs) = Some bs ->
  exists s' p', pipewrite_loop (S fuel) (length bs) pi addr i s = Ret (i + Z.of_nat (length bs)) s' /\
    pinv_at ∅ s' /\ pipes s' !! pi = Some p' /\ pipe_rep p' (q ++ bs) /\ forall va, user s' va = user s va.
Proof.
  intros Ha. revert i s p q. induction bs as [|b bs IH]; intros i s p q Hi Hmax I Hp Hrep Hroom Hbs;
    cbn [length] in *; cbn [pipewrite_loop].
  { destruct (finish_pipe (ChanPipeRead pi) i s I) as (s2 & E & I2 & X2 & Hpi). exists s2, p.
    rewrite Hpi, app_nil_r, Z.add_0_r. split_and!; try done. intros va. by apply (ext_user _ _ _ _ X2). }
  cbn [ubytes] in Hbs. destruct (user s (addr + i)) as [b'|] eqn:Hb; cbn [mbind option_bind] in Hbs; [|done].
  destruct (ubytes _ _ (length bs)) as [bs'|] eqn:Hrest; [|done]. injection Hbs as -> ->.
  assert (Ef : pipewrite_full (S fuel) pi s = Ret true s).
  { cbn [pipewrite_full]. mstep. rewrite Hp. change (default no_pipe (Some p)) with p.
    rewrite (pipe_full p q Hrep), bool_decide_false by lia. done. }
  rewrite (bind_ret _ _ _ _ _ Ef). cbn [negb]. mstep.
  pose proof I as [(p0 & q0 & t & l & Hp0 & Hrep0 & Hpt & R & UP) Hh]. rewrite Hpt.
  destruct (copyin_loop_spec 2 (ps_mem s) pt t u l (u64 (addr + i)) 1 R) as (r & bs1 & E & Hr);
    [apply u64_range|lia|]. rewrite u64_small in Hr by lia.
  change (Z.to_nat 1) with 1%nat in Hr. cbn [ubytes] in Hr. rewrite Hb in Hr. cbn in Hr. destruct Hr as [-> ->].
  assert (E' : zoom (copyin pt (u64 (addr + i)) 1) s = Ret (0, [b]) s).
  { rewrite <- (lput_lget s (Lens := pstate_pmem)) at 2. apply zoom_ret. exact E. }
  rewrite (bind_ret _ _ _ _ _ E'). cbn [Z.eqb]. mstep. rewrite Hp. change (default no_pipe (Some p)) with p.
  assert (Hb8 : u8 b = b).
  { unfold ubyte in Hb. destruct (utrans u (addr + i)); cbn in Hb; [|done]. injection Hb as <-. apply u8_idem. }
  pose proof (put_byte_rep p q b Hrep ltac:(lia)) as Hrep2. rewrite Hb8 in Hrep2.
  destruct (setpipe_pinv p (put_byte b p) (q ++ [b]) s {[LPipe pi]} [u8 b]) as (s2 & E2 & I2 & X2 & Hp2); try done.
  change ([b] !!! 0%nat) with b. rewrite (bind_ret _ _ _ _ _ E2).
  destruct (IH (i + 1) s2 (put_byte b p) (q ++ [b])) as (s' & p' & E3 & I3 & Hp3 & Hrep3 & Hu); try done; try lia.
  - rewrite length_app. cbn. lia.
  - replace (addr + (i + 1)) with (addr + i + 1) by lia. rewrite <- Hrest. apply ubytes_ext.
    intros va. by apply (ext_user _ _ _ _ X2).
  - exists s', p'. rewrite <- app_assoc in Hrep3. split_and!; try done.
    + rewrite E3. f_equal. lia.
    + intros va. rewrite Hu. by apply (ext_user _ _ _ _ X2).
Qed.

(** C39: [pipewrite] is safe under any interleaving with other readers and
    writers: it never panics, at every sleep the ring is a well-formed queue
    with what was sent equal to what was received plus what is in flight, and
    the bytes that enter the pipe while it runs, apart from those that others
    write while it sleeps, are exactly the first bytes of the caller's buffer, each
    once and in order.  It returns their number, which is less than [n] only
    because the user memory ends there; or -1, if there is no reader any more or the
    process was killed. *)
Theorem pipewrite_safe fuel addr n s :
  0 <= addr -> 0 <= n -> addr + n < 2 ^ 64 -> pinv_at ∅ s ->
  puts (write_post s (Z.to_nat n) addr 0) [] s (pipewrite fuel pi addr n s).
Proof.
  intros Ha Hn Hmax I. unfold pipewrite. destruct (acquire_pipe s I) as (s1 & E & I1 & X1).
  rewrite (bind_ret _ _ _ _ _ E). apply (puts_from_nil _ _ _ s1 _ X1).
  eapply puts_mono; [apply pipewrite_loop_puts; [done|lia|lia|done]|].
  intros own r s' (bs & -> & Hw). eapply write_post_user; [|exact Hw]. intros va. by apply (ext_user _ _ _ _ X1).
Qed.

(** [piperead] is safe under the same interleavings: it never panics, and
    when it returns [r >= 0] it has, in one atomic step, moved the first [r]
    bytes of the queue to the caller's buffer: [n] of them, or all there were,
    the queue being empty only when the writers have closed; one byte more has
    left the pipe when the buffer ends early. *)
Theorem piperead_safe fuel addr n s :
  0 <= addr -> 0 <= n -> addr + n < 2 ^ 64 -> pinv_at ∅ s ->
  safe (pinv_at ∅) others
    (fun r s' => pinv_at ∅ s' /\
       (r = -1 \/ exists s1 p q, others s s1 /\ pipes s1 !! pi = Some p /\ pipe_rep p q /\
          (q = [] -> writeopen p = 0) /\ read_post s1 (Z.to_nat n) addr 0 p q r s'))
    (piperead fuel pi addr n s).
Proof.
  intros Ha Hn Hmax I. unfold piperead. destruct (acquire_pipe s I) as (s1 & E & I1 & X1).
  rewrite (bind_ret _ _ _ _ _ E). eapply safe_bind; [by apply piperead_empty_safe|].
  intros [] s2; cbn [negb]; [intros (I2 & [n2 X2] & Hopen)|intros (I2 & [n2 X2])].
  - pose proof I2 as [(p & q & _ & _ & Hp & Hrep & _) _].
    destruct (piperead_loop_ok (Z.to_nat n) addr 0 s2 p q) as (r & s' & -> & Hr); try done; try lia. cbn.
    split; [by destruct Hr as (? & ? & ? & ? & _ & _ & ? & _)|]. right. exists s2, p, q. split; [|eauto].
    exists ([] ++ n2). by eapply ext_trans.
  - cbn. split; [done|]. by left.
Qed.

(** With room for the whole buffer [pipewrite] does not wait: it returns [n]
    at once with the buffer's bytes behind those already in the pipe. *)
Theorem pipewrite_room fuel addr bs s p q :
  0 <= addr -> addr + Z.of_nat (length bs) < 2 ^ 64 -> pinv_at ∅ s ->
  pipes s !! pi = Some p -> pipe_rep p q -> (length q + length bs <= 512)%nat ->
  ubytes (user s) addr (length bs) = Some bs ->
  exists s' p', pipewrite (S fuel) pi addr (Z.of_nat (length bs)) s = Ret (Z.of_nat (length bs)) s' /\
    pinv_at ∅ s' /\ pipes s' !! pi = Some p' /\ pipe_rep p' (q ++ bs).
Proof.
  intros Ha Hmax I Hp Hrep Hroom Hbs. unfold pipewrite. pose proof I as [Hi Hh].
  assert (Hacq : acquire (LPipe pi) s = Ret tt (lput ({[LPipe pi]} ∪ ∅ : lockset) s)).
  { rewrite acquire_ok by (cbn; rewrite Hh; set_solver). cbn. by rewrite Hh. }
  rewrite (bind_ret _ _ _ _ _ Hacq), Nat2Z.id.
  assert (I1 : pinv_at {[LPipe pi]} (lput ({[LPipe pi]} ∪ ∅ : lockset) s)).
  { eapply pinv_frame; try done; [|apply LKmem_not_pipe]. cbn. f_equal. set_solver. }
  destruct (pipewrite_loop_room fuel addr bs 0 _ p q Ha ltac:(lia) ltac:(lia) I1) as (s' & p' & E & I' & Hp' & Hrep' & _);
    try done; [by rewrite Z.add_0_r|]. exists s', p'. done.
Qed.

(** Closing the second end of a pipe frees its page and only then: closing the
    first one marks that end closed and wakes whoever waits on the other. *)
Theorem pipeclose_frees (writable : bool) s p l :
  pipes s !! pi = Some p -> held (ps_mem s) = ∅ -> free_pages (ps_mem s) l -> page_ok pi -> pi ∉ l ->
  exists s', pipeclose pi writable s = Ret tt s' /\ held (ps_mem s') = ∅ /\
    woken s' = (if writable then ChanPipeRead pi else ChanPipeWrite pi) :: woken s /\
    if (if writable then readopen p else writeopen p) =? 0
    then pipes s' = delete pi (pipes s) /\ free_pages (ps_mem s') (pi :: l)
    else pipes s' = <[pi := if writable then set_writeopen 0 p else set_readopen 0 p]> (pipes s) /\
         free_pages (ps_mem s') l.
Proof.
  intros Hp Hh Hf Hok Hl. unfold pipeclose.
  erewrite bind_ret by (apply acquire_ok; cbn; rewrite Hh; set_solver). mstep. cbn. rewrite Hp. cbn.
  destruct writable; cbn.
  all: unfold mbind_; cbn; rewrite lookup_insert_eq; cbn.
  all: rewrite ?andb_true_r; match goal with |- context [?x =? 0] => destruct (x =? 0) end.
  all: rewrite release_ok by (cbn; rewrite Hh; set_solver); cbn.
  all: eexists; unfold zoom; cbn.
  1, 3: rewrite kfree_ok by (done || (cbn; rewrite Hh; set_solver)).
  all: cbn; rewrite Hh; split; [reflexivity|]; split; [cbn; set_solver|]; split; [reflexivity|]; cbn.
  1, 2: split; [by rewrite delete_insert_eq|]; apply kfree_free_pages;
    [apply kend_pos|destruct Hf; by split|done|done].
  all: split; [reflexivity|]; destruct Hf; by split.
Qed.
End PipeProps.

(** ** Examples *)

Module PipeDemo.
#[local] Existing Instance Demo.demo_layout.
#[local] Existing Instance Demo.demo_layout_ok.

(** The demonstration address space of VmProps with an empty pipe at page 9. *)
Definition pipe9 : pipe := pipe_init (replicate 512 0).

Lemma pipe9_rep : pipe_rep pipe9 [].
Proof.
  split; [apply length_replicate|cbn; lia|done|cbn; lia|by intros i b|constructor|done].
Qed.

Lemma pipe_space :
  exists pte s, pinv_at (Demo.page 9) (Demo.page 1) {[ 0 := pte ]} ∅ s /\
    pipes s !! Demo.page 9 = Some pipe9 /\ uaddr {[ 0 := pte ]} 0 <> 0.
Proof.
  destruct Demo.demo_space as (m & t & l & pte & R & _ & _ & _ & UP & _ & _ & Hh & Hu).
  exists pte, {| ps_mem := m; pipes := {[ Demo.page 9 := pipe9 ]}; pr_pagetable := Demo.page 1;
                 pr_killed := false; woken := [] |}.
  split; [split; [|done]|split; [apply lookup_singleton_eq|done]].
  exists pipe9, [], t, l. split; [apply lookup_singleton_eq|]. split; [apply pipe9_rep|done].
Qed.

Lemma pipewrite_safe_witness :
  exists pte s, pinv_at (Demo.page 9) (Demo.page 1) {[ 0 := pte ]} ∅ s /\
    puts (Demo.page 9) (Demo.page 1) {[ 0 := pte ]}
      (write_post (Demo.page 9) (Demo.page 1) {[ 0 := pte ]} s 600 10 0) [] s (pipewrite 5 (Demo.page 9) 10 600 s).
Proof.
  destruct pipe_space as (pte & s & I & _). exists pte, s. split; [exact I|].
  apply (pipewrite_safe (Demo.page 9) (Demo.page 1) {[ 0 := pte ]} 5 10 600 s); [lia..|exact I].
Defined.

Lemma piperead_safe_witness :
  exists pte s, pinv_at (Demo.page 9) (Demo.page 1) {[ 0 := pte ]} ∅ s /\
    safe (pinv_at (Demo.page 9) (Demo.page 1) {[ 0 := pte ]} ∅) (others (Demo.page 9) {[ 0 := pte ]})
      (fun _ _ => True) (piperead 5 (Demo.page 9) 10 600 s).
Proof.
  destruct pipe_space as (pte & s & I & _). exists pte, s. split; [exact I|].
  eapply safe_mono; [apply (piperead_safe (Demo.page 9) (Demo.page 1) {[ 0 := pte ]} 5 10 600 s); [lia..|exact I]|done].
Defined.

Lemma pipewrite_room_witness :
  exists pte s b s' p', pinv_at (Demo.page 9) (Demo.page 1) {[ 0 := pte ]} ∅ s /\
    pipewrite 1 (Demo.page 9) 10 1 s = Ret 1 s' /\ pipes s' !! Demo.page 9 = Some p' /\ pipe_rep p' [b].
Proof.
  destruct pipe_space as (pte & s & I & Hp & Hu).
  assert (Hb : exists b, ubytes (ubyte (mem (ps_mem s)) {[ 0 := pte ]}) 10 1 = Some [b]).
  { unfold ubytes, ubyte, utrans. change (PGROUNDDOWN 10) with 0.
    destruct (Z.eqb_spec (uaddr {[ 0 := pte ]} 0) 0); [done|]. by eexists. }
  destruct Hb as [b Hb].
  destruct (pipewrite_room (Demo.page 9) (Demo.page 1) {[ 0 := pte ]} 0 10 [b] s pipe9 []) as (s' & p' & E & _ & Hp' & Hr);
    [lia|cbn; lia|exact I|exact Hp|exact pipe9_rep|cbn; lia|exact Hb|].
  exists pte, s, b, s', p'. split; [exact I|]. split; [exact E|]. split; [exact Hp'|exact Hr].
Defined.

Lemma pipeclose_frees_witness :
  let s := {| ps_mem := boot_pmem; pipes := {[ Demo.page 9 := pipe9 ]}; pr_pagetable := 0;
              pr_killed := false; woken := [] |} in
  exists s', pipeclose (Demo.page 9) true s = Ret tt s' /\ free_pages (ps_mem s') [].
Proof.
  intros s. destruct (pipeclose_frees (Demo.page 9) true s pipe9 []) as (s' & E & _ & _ & H).
  - reflexivity.
  - reflexivity.
  - split; [apply chain_nil|constructor|constructor].
  - split; vm_compute; done.
  - set_solver.
  - exists s'. split; [exact E|apply H].
Defined.
End PipeDemo.
