(* ===== verification/Proc.v ===== *)
(** kernel/proc.c: processes.

    The process table [proc[NPROC]] with [nextpid] and [initproc], beside
    physical memory and the state of the files, of which this file only uses the
    interface [Files].  A process that calls [sched] gives up its CPU: that is
    the outcome [Sleep], which leaves [p->lock] to the scheduler; the process
    goes on, with [p->lock] held, when the scheduler has chosen it again. *)

From S2P Require Import Prelude Riscv Mem Sync Kalloc Vm.

(** enum procstate *)
Inductive procstate := UNUSED | SLEEPING | RUNNABLE | RUNNING | ZOMBIE.
#[global] Instance procstate_eq_dec : EqDecision procstate.
Proof. solve_decision. Defined.

(** Saved registers for kernel context switches; [s0] to [s11] as a list. *)
Record context := Context_ { c_ra : Z; c_sp : Z; c_s : list Z }.

(** [struct proc]; a pointer to a process, file or inode is its index. *)
Record proc := Proc {
  p_state : procstate; p_parent : option nat; p_chan : option chan; p_killed : Z; p_xstate : Z; p_pid : Z;
  p_kstack : Z; p_sz : Z; p_pagetable : Z; p_trapframe : Z; p_context : context;
  p_ofile : list (option nat); p_cwd : option nat; p_name : list Z }.

Definition no_context : context := {| c_ra := 0; c_sp := 0; c_s := replicate 12 0 |}.
(** A zeroed entry of the table. *)
Definition no_proc : proc := {| p_state := UNUSED; p_parent := None; p_chan := None; p_killed := 0; p_xstate := 0;
  p_pid := 0; p_kstack := 0; p_sz := 0; p_pagetable := 0; p_trapframe := 0; p_context := no_context;
  p_ofile := replicate (Z.to_nat NOFILE) None; p_cwd := None; p_name := [] |}.

#[global] Instance proc_inhabited : Inhabited proc := populate no_proc.

(** The table, [nextpid], [initproc], the process running on this CPU, and the
    static [first] of [forkret]. *)
Record ptable := PTable { procs : list proc; nextpid : Z; initproc : option nat; cur : option nat; first : bool }.

(** Field updates. *)
Section Fields.
Variable p : proc.
Local Abbreviation mk a b c d e f g h i j k l m n := {| p_state := a; p_parent := b; p_chan := c; p_killed := d; p_xstate := e; p_pid := f;
  p_kstack := g; p_sz := h; p_pagetable := i; p_trapframe := j; p_context := k; p_ofile := l; p_cwd := m; p_name := n |}.
Definition set_state x := mk x (p_parent p) (p_chan p) (p_killed p) (p_xstate p) (p_pid p) (p_kstack p) (p_sz p) (p_pagetable p) (p_trapframe p) (p_context p) (p_ofile p) (p_cwd p) (p_name p).
Definition set_parent x := mk (p_state p) x (p_chan p) (p_killed p) (p_xstate p) (p_pid p) (p_kstack p) (p_sz p) (p_pagetable p) (p_trapframe p) (p_context p) (p_ofile p) (p_cwd p) (p_name p).
Definition set_chan x := mk (p_state p) (p_parent p) x (p_killed p) (p_xstate p) (p_pid p) (p_kstack p) (p_sz p) (p_pagetable p) (p_trapframe p) (p_context p) (p_ofile p) (p_cwd p) (p_name p).
Definition set_killed x := mk (p_state p) (p_parent p) (p_chan p) x (p_xstate p) (p_pid p) (p_kstack p) (p_sz p) (p_pagetable p) (p_trapframe p) (p_context p) (p_ofile p) (p_cwd p) (p_name p).
Definition set_xstate x := mk (p_state p) (p_parent p) (p_chan p) (p_killed p) x (p_pid p) (p_kstack p) (p_sz p) (p_pagetable p) (p_trapframe p) (p_context p) (p_ofile p) (p_cwd p) (p_name p).
Definition set_pid x := mk (p_state p) (p_parent p) (p_chan p) (p_killed p) (p_xstate p) x (p_kstack p) (p_sz p) (p_pagetable p) (p_trapframe p) (p_context p) (p_ofile p) (p_cwd p) (p_name p).
Definition set_kstack x := mk (p_state p) (p_parent p) (p_chan p) (p_killed p) (p_xstate p) (p_pid p) x (p_sz p) (p_pagetable p) (p_trapframe p) (p_context p) (p_ofile p) (p_cwd p) (p_name p).
Definition set_sz x := mk (p_state p) (p_parent p) (p_chan p) (p_killed p) (p_xstate p) (p_pid p) (p_kstack p) x (p_pagetable p) (p_trapframe p) (p_context p) (p_ofile p) (p_cwd p) (p_name p).
Definition set_pagetable x := mk (p_state p) (p_parent p) (p_chan p) (p_killed p) (p_xstate p) (p_pid p) (p_kstack p) (p_sz p) x (p_trapframe p) (p_context p) (p_ofile p) (p_cwd p) (p_name p).
Definition set_trapframe x := mk (p_state p) (p_parent p) (p_chan p) (p_killed p) (p_xstate p) (p_pid p) (p_kstack p) (p_sz p) (p_pagetable p) x (p_context p) (p_ofile p) (p_cwd p) (p_name p).
Definition set_context x := mk (p_state p) (p_parent p) (p_chan p) (p_killed p) (p_xstate p) (p_pid p) (p_kstack p) (p_sz p) (p_pagetable p) (p_trapframe p) x (p_ofile p) (p_cwd p) (p_name p).
Definition set_ofile x := mk (p_state p) (p_parent p) (p_chan p) (p_killed p) (p_xstate p) (p_pid p) (p_kstack p) (p_sz p) (p_pagetable p) (p_trapframe p) (p_context p) x (p_cwd p) (p_name p).
Definition set_cwd x := mk (p_state p) (p_parent p) (p_chan p) (p_killed p) (p_xstate p) (p_pid p) (p_kstack p) (p_sz p) (p_pagetable p) (p_trapframe p) (p_context p) (p_ofile p) x (p_name p).
Definition set_name x := mk (p_state p) (p_parent p) (p_chan p) (p_killed p) (p_xstate p) (p_pid p) (p_kstack p) (p_sz p) (p_pagetable p) (p_trapframe p) (p_context p) (p_ofile p) (p_cwd p) x.
End Fields.

(** ** The state *)

Record kst (F : Type) := KSt { k_vm : kvm; k_pt : ptable; k_fs : F }.
Arguments KSt {F}.
Arguments k_vm {F}.
Arguments k_pt {F}.
Arguments k_fs {F}.

#[global] Instance kst_kvm {F} : Lens (kst F) kvm.
Proof. refine {| lget := k_vm; lput := fun x s => {| k_vm := x; k_pt := k_pt s; k_fs := k_fs s |} |}; lens_laws (kst F). Defined.
#[global] Instance kst_pmem {F} : Lens (kst F) pmem := lens_comp kst_kvm kvm_pmem.
#[global] Instance kst_held {F} : Lens (kst F) lockset := lens_comp kst_pmem pmem_held.

(** What kernel/file.c, kernel/fs.c and kernel/log.c offer to processes. *)
Class Files (F : Type) := {
  filedup : nat -> M (kst F) nat;
  fileclose : nat -> M (kst F) unit;
  idup : nat -> M (kst F) nat;
  iput : nat -> M (kst F) unit;
  begin_op : M (kst F) unit;
  end_op : M (kst F) unit;
  namei : list Z -> M (kst F) (option nat);
  fsinit : Z -> M (kst F) unit }.

Section Proc.
Context {LY : Layout} {WK : Wakeups} {F : Type} {FS : Files F}.
Abbreviation K := (M (kst F)).
Abbreviation vm m := (zoom (S := pmem) m).

Definition getp (i : nat) : K proc := gets (fun s => procs (k_pt s) !!! i).
Definition set_pt (f : ptable -> ptable) : K unit :=
  modify (fun s => {| k_vm := k_vm s; k_pt := f (k_pt s); k_fs := k_fs s |}).
Definition updp (i : nat) (f : proc -> proc) : K unit :=
  set_pt (fun t => {| procs := alter f i (procs t); nextpid := nextpid t; initproc := initproc t; cur := cur t; first := first t |}).
Definition set_nextpid (x : Z) : K unit :=
  set_pt (fun t => {| procs := procs t; nextpid := x; initproc := initproc t; cur := cur t; first := first t |}).
Definition set_initproc (x : option nat) : K unit :=
  set_pt (fun t => {| procs := procs t; nextpid := nextpid t; initproc := x; cur := cur t; first := first t |}).
Definition set_cur (x : option nat) : K unit :=
  set_pt (fun t => {| procs := procs t; nextpid := nextpid t; initproc := initproc t; cur := x; first := first t |}).
Definition clear_first : K unit :=
  set_pt (fun t => {| procs := procs t; nextpid := nextpid t; initproc := initproc t; cur := cur t; first := false |}).

Definition nproc : nat := Z.to_nat NPROC.

(** A null process pointer that is used faults in the kernel. *)
Definition myproc : K nat :=
  let! c := gets (fun s => cur (k_pt s)) in
  match c with Some p => mret_ p | None => panic "kerneltrap" end.

(** ** Boot *)

Fixpoint procinit_loop (n : nat) (i : nat) : K unit :=
  match n with
  | O => mret_ tt
  | S n' =>
      initlock (LProc i) ;;
      let! pa := vm kalloc in
      if pa =? 0 then panic "kalloc"
      else
        let va := KSTACK (Z.of_nat i) in
        zoom (kvmmap va pa PGSIZE (Z.lor PTE_R PTE_W)) ;;
        updp i (fun p => set_kstack p va) ;;
        procinit_loop n' (S i)
  end.
Definition procinit : K unit := initlock LPid ;; procinit_loop nproc 0 ;; zoom kvminithart.

(** ** Allocation *)

Definition allocpid : K Z :=
  acquire LPid ;;
  let! pid := gets (fun s => nextpid (k_pt s)) in
  set_nextpid (s32 (pid + 1)) ;;
  release LPid ;;
  mret_ pid.

(** A page table for the process whose trap frame is at [trapframe]. *)
Definition proc_pagetable (trapframe : Z) : M pmem Z :=
  let! pagetable := uvmcreate in
  if pagetable =? 0 then mret_ 0
  else
    let! r := mappages pagetable TRAMPOLINE PGSIZE trampoline (Z.lor PTE_R PTE_X) in
    if r <? 0 then uvmfree pagetable 0 ;; mret_ 0
    else
      let! r := mappages pagetable TRAPFRAME PGSIZE trapframe (Z.lor PTE_R PTE_W) in
      if r <? 0 then uvmunmap pagetable TRAMPOLINE 1 false ;; uvmfree pagetable 0 ;; mret_ 0
      else mret_ pagetable.

Definition proc_freepagetable (pagetable sz : Z) : M pmem unit :=
  uvmunmap pagetable TRAMPOLINE 1 false ;;
  uvmunmap pagetable TRAPFRAME 1 false ;;
  uvmfree pagetable sz.

Definition freeproc (p : nat) : K unit :=
  let! x := getp p in
  (if p_trapframe x =? 0 then mret_ tt else vm (kfree (p_trapframe x))) ;;
  updp p (fun q => set_trapframe q 0) ;;
  (if p_pagetable x =? 0 then mret_ tt else vm (proc_freepagetable (p_pagetable x) (p_sz x))) ;;
  updp p (fun q => set_pagetable q 0) ;;
  updp p (fun q => set_sz q 0) ;;
  updp p (fun q => set_pid q 0) ;;
  updp p (fun q => set_parent q None) ;;
  updp p (fun q => set_name q []) ;;
  updp p (fun q => set_chan q None) ;;
  updp p (fun q => set_killed q 0) ;;
  updp p (fun q => set_xstate q 0) ;;
  updp p (fun q => set_state q UNUSED).

(** The first UNUSED entry, with its lock held. *)
Fixpoint find_unused_proc (n : nat) (i : nat) : K (option nat) :=
  match n with
  | O => mret_ None
  | S n' =>
      acquire (LProc i) ;;
      let! x := getp i in
      if bool_decide (p_state x = UNUSED) then mret_ (Some i)
      else release (LProc i) ;; find_unused_proc n' (S i)
  end.

(** [forkret_] is the address of [forkret]. *)
Variable forkret_ : Z.

Definition allocproc : K (option nat) :=
  let! f := find_unused_proc nproc 0 in
  match f with
  | None => mret_ None
  | Some p =>
      let! pid := allocpid in
      updp p (fun q => set_pid q pid) ;;
      let! tf := vm kalloc in
      updp p (fun q => set_trapframe q tf) ;;
      if tf =? 0 then release (LProc p) ;; mret_ None
      else
        let! x := getp p in
        let! pagetable := vm (proc_pagetable (p_trapframe x)) in
        updp p (fun q => set_pagetable q pagetable) ;;
        if pagetable =? 0 then freeproc p ;; release (LProc p) ;; mret_ None
        else
          updp p (fun q => set_context q {| c_ra := forkret_; c_sp := u64 (p_kstack q + PGSIZE); c_s := replicate 12 0 |}) ;;
          mret_ (Some p)
  end.

Definition initcode : list Z :=
  [0x17; 0x05; 0x00; 0x00; 0x13; 0x05; 0x45; 0x02; 0x97; 0x05; 0x00; 0x00; 0x93; 0x85; 0x35; 0x02;
   0x93; 0x08; 0x70; 0x00; 0x73; 0x00; 0x00; 0x00; 0x93; 0x08; 0x20; 0x00; 0x73; 0x00; 0x00; 0x00;
   0xef; 0xf0; 0x9f; 0xff; 0x2f; 0x69; 0x6e; 0x69; 0x74; 0x00; 0x00; 0x24; 0x00; 0x00; 0x00; 0x00;
   0x00; 0x00; 0x00; 0x00].

(** Offsets in [struct trapframe]. *)
Definition tf_epc : Z := 24.
Definition tf_sp : Z := 48.
Definition tf_a0 : Z := 112.
Definition sizeof_trapframe : Z := 288.

(** [safestrcpy] into [name[16]]. *)
Definition short_name (s : list Z) : list Z := take 15 s.

Definition userinit : K unit :=
  let! f := allocproc in
  set_initproc f ;;
  match f with
  | None => panic "kerneltrap"
  | Some p =>
      let! x := getp p in
      vm (uvminit (p_pagetable x) initcode (Z.of_nat (length initcode))) ;;
      updp p (fun q => set_sz q PGSIZE) ;;
      vm (wr64 (p_trapframe x + tf_epc) 0) ;;
      vm (wr64 (p_trapframe x + tf_sp) PGSIZE) ;;
      updp p (fun q => set_name q (short_name (chars "initcode"))) ;;
      let! ip := namei (chars "/") in
      updp p (fun q => set_cwd q ip) ;;
      updp p (fun q => set_state q RUNNABLE) ;;
      release (LProc p)
  end.

(** [uint sz] holds 32 bits of the size. *)
Definition growproc (n : Z) : K Z :=
  let! p := myproc in
  let! x := getp p in
  let sz := u32 (p_sz x) in
  if 0 <? n then
    let! sz := vm (uvmalloc (p_pagetable x) sz (u32 (sz + n))) in
    if u32 sz =? 0 then mret_ (-1) else updp p (fun q => set_sz q (u32 sz)) ;; mret_ 0
  else if n <? 0 then
    let! sz := vm (uvmdealloc (p_pagetable x) sz (u32 (sz + n))) in
    updp p (fun q => set_sz q (u32 sz)) ;; mret_ 0
  else updp p (fun q => set_sz q sz) ;; mret_ 0.

(** ** [fork] *)

(** [for(i = 0; i < NOFILE; i++) if(p->ofile[i]) np->ofile[i] = filedup(p->ofile[i])] *)
Fixpoint fork_files (n : nat) (i p np : nat) : K unit :=
  match n with
  | O => mret_ tt
  | S n' =>
      let! x := getp p in
      match p_ofile x !! i with
      | Some (Some f) =>
          let! f := filedup f in
          updp np (fun q => set_ofile q (<[i := Some f]> (p_ofile q)))
      | _ => mret_ tt
      end ;;
      fork_files n' (S i) p np
  end.

Definition fork : K Z :=
  let! p := myproc in
  let! a := allocproc in
  match a with
  | None => mret_ (-1)
  | Some np =>
      let! x := getp p in
      let! y := getp np in
      let! r := vm (uvmcopy (p_pagetable x) (p_pagetable y) (p_sz x)) in
      if r <? 0 then freeproc np ;; release (LProc np) ;; mret_ (-1)
      else
        updp np (fun q => set_sz q (p_sz x)) ;;
        updp np (fun q => set_parent q (Some p)) ;;
        vm (memmove_ (p_trapframe y) (p_trapframe x) sizeof_trapframe) ;;
        vm (wr64 (p_trapframe y + tf_a0) 0) ;;
        fork_files (Z.to_nat NOFILE) 0 p np ;;
        match p_cwd x with
        | None => panic "kerneltrap"
        | Some ip => let! ip := idup ip in updp np (fun q => set_cwd q (Some ip))
        end ;;
        updp np (fun q => set_name q (short_name (p_name x))) ;;
        let! y := getp np in
        let pid := p_pid y in
        updp np (fun q => set_state q RUNNABLE) ;;
        release (LProc np) ;;
        mret_ pid
  end.

(** ** Giving up the CPU *)

(** [swtch(&p->context, &mycpu()->context)]: the scheduler goes on with [p->lock];
    when the process runs again the scheduler has taken the lock for it. *)
Definition swtch (p : nat) (c : chan) : K unit := fun s =>
  Sleep c (lput ∅ s) (fun s' => Ret tt (lput {[LProc p]} s')).

(** [mycpu()->noff] is the number of locks held, and interrupts are off while it is
    not 0, so that after the first check the last one, "sched interruptible", does not
    fail; file SleepWake has the counter and the interrupts themselves. *)
Definition sched (c : chan) : K unit :=
  let! p := myproc in
  let! h := gets (fun s => lget s : lockset) in
  if negb (bool_decide (LProc p ∈ h)) then panic "sched p->lock"
  else if negb (Z.of_nat (size h) =? 1) then panic "sched locks"
  else
    let! x := getp p in
    if bool_decide (p_state x = RUNNING) then panic "sched running"
    else swtch p c.

Definition yield : K unit :=
  let! p := myproc in
  acquire (LProc p) ;;
  updp p (fun q => set_state q RUNNABLE) ;;
  sched ChanNone ;;
  release (LProc p).

(** [sleep(chan, lk)] *)
Definition psleep (c : chan) (lk : lock_id) : K unit :=
  let! p := myproc in
  (if bool_decide (lk = LProc p) then mret_ tt else acquire (LProc p) ;; release lk) ;;
  updp p (fun q => set_chan q (Some c)) ;;
  updp p (fun q => set_state q SLEEPING) ;;
  sched c ;;
  updp p (fun q => set_chan q None) ;;
  (if bool_decide (lk = LProc p) then mret_ tt else release (LProc p) ;; acquire lk).

(** [wakeup(chan)] *)
Fixpoint wakeup_loop (n : nat) (i : nat) (c : chan) : K unit :=
  match n with
  | O => mret_ tt
  | S n' =>
      acquire (LProc i) ;;
      let! x := getp i in
      (if bool_decide (p_state x = SLEEPING) && bool_decide (p_chan x = Some c)
       then updp i (fun q => set_state q RUNNABLE) else mret_ tt) ;;
      release (LProc i) ;;
      wakeup_loop n' (S i) c
  end.
Definition pwakeup (c : chan) : K unit := wakeup_loop nproc 0 c.

Definition wakeup1 (p : nat) : K unit :=
  let! h := gets (fun s => lget s : lockset) in
  if negb (bool_decide (LProc p ∈ h)) then panic "wakeup1"
  else
    let! x := getp p in
    if bool_decide (p_chan x = Some (ChanProc p)) && bool_decide (p_state x = SLEEPING)
    then updp p (fun q => set_state q RUNNABLE) else mret_ tt.

Definition forkret (usertrapret : K unit) : K unit :=
  let! p := myproc in
  release (LProc p) ;;
  let! b := gets (fun s => first (k_pt s)) in
  (if b then clear_first ;; fsinit ROOTDEV else mret_ tt) ;;
  usertrapret.

(** ** [exit] and [wait] *)

Fixpoint reparent_loop (n : nat) (pp p : nat) : K unit :=
  match n with
  | O => mret_ tt
  | S n' =>
      let! x := getp pp in
      (if bool_decide (p_parent x = Some p) then
         acquire (LProc pp) ;;
         let! init := gets (fun s => initproc (k_pt s)) in
         updp pp (fun q => set_parent q init) ;;
         release (LProc pp)
       else mret_ tt) ;;
      reparent_loop n' (S pp) p
  end.
Definition reparent (p : nat) : K unit := reparent_loop nproc 0 p.

Fixpoint exit_files (n : nat) (fd p : nat) : K unit :=
  match n with
  | O => mret_ tt
  | S n' =>
      let! x := getp p in
      match p_ofile x !! fd with
      | Some (Some f) => fileclose f ;; updp p (fun q => set_ofile q (<[fd := None]> (p_ofile q)))
      | _ => mret_ tt
      end ;;
      exit_files n' (S fd) p
  end.

(** A pointer that must not be null. *)
Definition deref {A} (x : option A) : K A := match x with Some a => mret_ a | None => panic "kerneltrap" end.

Definition exit (status : Z) : K unit :=
  let! p := myproc in
  let! init := gets (fun s => initproc (k_pt s)) in
  if bool_decide (Some p = init) then panic "init exiting"
  else
    exit_files (Z.to_nat NOFILE) 0 p ;;
    let! x := getp p in
    begin_op ;;
    (let! cwd := deref (p_cwd x) in iput cwd) ;;
    end_op ;;
    updp p (fun q => set_cwd q None) ;;
    let! init := deref init in
    acquire (LProc init) ;;
    wakeup1 init ;;
    release (LProc init) ;;
    acquire (LProc p) ;;
    let! x := getp p in
    release (LProc p) ;;
    let! original_parent := deref (p_parent x) in
    acquire (LProc original_parent) ;;
    acquire (LProc p) ;;
    reparent p ;;
    wakeup1 original_parent ;;
    updp p (fun q => set_xstate q status) ;;
    updp p (fun q => set_state q ZOMBIE) ;;
    release (LProc original_parent) ;;
    sched ChanNone ;;
    panic "zombie exit".

(** The result of a scan of the table by [wait]: a value to return, or whether
    there are children. *)
Inductive scan := Reap (r : Z) | Kids (havekids : bool).

(** The bytes of an [int]. *)
Definition int_bytes (x : Z) : list Z := map (fun i => u8 (Z.shiftr (u32 x) (8 * Z.of_nat i))) (seq 0 4).

Fixpoint wait_scan (n : nat) (np p : nat) (addr : Z) (havekids : bool) : K scan :=
  match n with
  | O => mret_ (Kids havekids)
  | S n' =>
      let! y := getp np in
      if bool_decide (p_parent y = Some p) then
        acquire (LProc np) ;;
        let! y := getp np in
        if bool_decide (p_state y = ZOMBIE) then
          let pid := p_pid y in
          let! x := getp p in
          let! r := (if addr =? 0 then mret_ 0 else vm (copyout (p_pagetable x) addr (int_bytes (p_xstate y)))) in
          if r <? 0 then release (LProc np) ;; release (LProc p) ;; mret_ (Reap (-1))
          else freeproc np ;; release (LProc np) ;; release (LProc p) ;; mret_ (Reap pid)
        else release (LProc np) ;; wait_scan n' (S np) p addr true
      else wait_scan n' (S np) p addr havekids
  end.

Fixpoint wait_loop (fuel : nat) (p : nat) (addr : Z) : K Z :=
  match fuel with
  | O => nofuel
  | S fuel' =>
      let! sc := wait_scan nproc 0 p addr false in
      match sc with
      | Reap r => mret_ r
      | Kids havekids =>
          let! x := getp p in
          if negb havekids || negb (p_killed x =? 0) then release (LProc p) ;; mret_ (-1)
          else psleep (ChanProc p) (LProc p) ;; wait_loop fuel' p addr
      end
  end.

Definition wait (addr : Z) : K Z :=
  let! p := myproc in
  acquire (LProc p) ;;
  wait_loop (S max_wakeups) p addr.

(** ** [kill] and copying *)

Fixpoint kill_loop (n : nat) (i : nat) (pid : Z) : K Z :=
  match n with
  | O => mret_ (-1)
  | S n' =>
      acquire (LProc i) ;;
      let! x := getp i in
      if p_pid x =? pid then
        updp i (fun q => set_killed q 1) ;;
        (if bool_decide (p_state x = SLEEPING) then updp i (fun q => set_state q RUNNABLE) else mret_ tt) ;;
        release (LProc i) ;;
        mret_ 0
      else release (LProc i) ;; kill_loop n' (S i) pid
  end.
Definition kill (pid : Z) : K Z := kill_loop nproc 0 pid.

Definition either_copyout (user_dst : bool) (dst : Z) (src : list Z) : K Z :=
  let! p := myproc in
  let! x := getp p in
  vm (copyout_either user_dst (p_pagetable x) dst src).

Definition either_copyin (user_src : bool) (src len : Z) : K (Z * list Z) :=
  let! p := myproc in
  let! x := getp p in
  vm (copyin_either user_src (p_pagetable x) src len).

(** ** The scheduler *)

(** One pass of the loop of [scheduler] over the table; [run p] is what happens
    from the switch to the process until it switches back. *)
Variable run : nat -> K unit.

Fixpoint scheduler_pass (n : nat) (i : nat) (found : bool) : K bool :=
  match n with
  | O => mret_ found
  | S n' =>
      acquire (LProc i) ;;
      let! x := getp i in
      if bool_decide (p_state x = RUNNABLE) then
        updp i (fun q => set_state q RUNNING) ;;
        set_cur (Some i) ;;
        run i ;;
        set_cur None ;;
        release (LProc i) ;;
        scheduler_pass n' (S i) true
      else release (LProc i) ;; scheduler_pass n' (S i) found
  end.

(** [rounds] passes; a pass that finds nothing waits for an interrupt. *)
Fixpoint scheduler_loop (rounds : nat) : K unit :=
  match rounds with
  | O => nofuel
  | S rounds' => scheduler_pass nproc 0 false ;; scheduler_loop rounds'
  end.
Definition scheduler (rounds : nat) : K unit := set_cur None ;; scheduler_loop rounds.
End Proc.
