(* ===== verification/SleepWake.v ===== *)
(** [sleep], [wakeup] and [scheduler] of kernel/proc.c on a multiprocessor.

    The kernel threads of the processes and the schedulers of the CPUs are
    programs whose steps interleave arbitrarily; a thread moves only while a CPU
    runs it.  A thread waits with [while(!cond) sleep(chan, lk)] under the lock
    [lk], another sets the condition under [lk] and calls [wakeup(chan)], any
    thread may yield, and [kill] may wake a sleeper for no reason.  A lock is
    its owner: files Spinlock and Sync justify taking [acquire] and [release]
    for single steps.  The lock of a process passes from the scheduler to the
    process and back with the switch, as in the code.  Every CPU has the state of
    file Spinlock, the depth [noff] and the interrupt enable bit, which [acquire]
    and [release] change with [push_off] and [pop_off]; the checks of [acquire],
    [release], [pop_off] and [sched] that fail stop the machine with their message.

    The lock [lk] is not that of a process: [wait], which sleeps with the lock of
    the process itself, and [exit] are in file Proc. *)

From S2P Require Import Prelude Riscv Sync Spinlock Kalloc Vm Proc.

(** Where a thread is. *)
Inductive tpc : Type :=
| TForkret                   (* forkret: release(&p->lock) *)
| TIdle
| TWait                      (* acquire(lk) *)
| TCheck                     (* while(!cond) *)
| TLockSelf                  (* sleep: acquire(&p->lock) *)
| TUnlock                    (* release(lk) *)
| TChan                      (* p->chan = chan *)
| TState                     (* p->state = SLEEPING *)
| TSched                     (* sched() *)
| TResume                    (* p->chan = 0 *)
| TUnlockSelf                (* release(&p->lock) *)
| TRelock                    (* acquire(lk) *)
| TSignal                    (* acquire(lk) *)
| TSet                       (* cond = 1 *)
| TScan (i : nat)            (* wakeup: acquire(&p->lock), p = &proc[i] *)
| TLook (i : nat)            (* if(p->state == SLEEPING && p->chan == chan) p->state = RUNNABLE *)
| TNext (i : nat)            (* release(&p->lock); p++ *)
| TDone                      (* release(lk) *)
| TKill (i : nat)            (* kill: acquire(&p->lock) *)
| TKillLook (i : nat)        (* if(p->state == SLEEPING) p->state = RUNNABLE *)
| TKillNext (i : nat)        (* release(&p->lock) *)
| TYield                     (* yield: acquire(&p->lock) *)
| TYieldState                (* p->state = RUNNABLE *)
| TYieldSched                (* sched() *)
| TYieldResume.              (* release(&p->lock) *)
#[global] Instance tpc_eq_dec : EqDecision tpc.
Proof. solve_decision. Defined.

(** Where a CPU is: in the loop of [scheduler], or running a process. *)
Inductive cpc : Type :=
| CScan (i : nat)            (* acquire(&p->lock), p = &proc[i] *)
| CLook (i : nat)            (* if(p->state == RUNNABLE) *)
| CRun (i : nat)             (* in the process *)
| CBack (i : nat).           (* back from swtch: release(&p->lock) *)

(** Who holds the lock of a process: itself, another process, or a scheduler. *)
Inductive owner : Type := OSelf | OThread (k : nat) | OCpu (j : nat).
#[global] Instance owner_eq_dec : EqDecision owner.
Proof. solve_decision. Defined.

Record world := World {
  pcs : nat -> tpc; st : nat -> procstate; ch : nat -> bool; plock : nat -> option owner;
  on : nat -> option nat;    (* the CPU running the process *)
  cpu : nat -> cpc; lk : option nat; cond : bool;
  ints : nat -> Spinlock.cpu;    (* noff, intena and sstatus of a CPU *)
  kept : nat -> bool;        (* the variable intena of a call of sched *)
  halted : option string }.  (* the message of a panic *)

Definition set_pc i x w := {| pcs := <[i := x]> (pcs w); st := st w; ch := ch w; plock := plock w; on := on w; cpu := cpu w; lk := lk w; cond := cond w; ints := ints w; kept := kept w; halted := halted w |}.
Definition set_st i x w := {| pcs := pcs w; st := <[i := x]> (st w); ch := ch w; plock := plock w; on := on w; cpu := cpu w; lk := lk w; cond := cond w; ints := ints w; kept := kept w; halted := halted w |}.
Definition set_ch i x w := {| pcs := pcs w; st := st w; ch := <[i := x]> (ch w); plock := plock w; on := on w; cpu := cpu w; lk := lk w; cond := cond w; ints := ints w; kept := kept w; halted := halted w |}.
Definition set_plock i x w := {| pcs := pcs w; st := st w; ch := ch w; plock := <[i := x]> (plock w); on := on w; cpu := cpu w; lk := lk w; cond := cond w; ints := ints w; kept := kept w; halted := halted w |}.
Definition set_on i x w := {| pcs := pcs w; st := st w; ch := ch w; plock := plock w; on := <[i := x]> (on w); cpu := cpu w; lk := lk w; cond := cond w; ints := ints w; kept := kept w; halted := halted w |}.
Definition set_cpu j x w := {| pcs := pcs w; st := st w; ch := ch w; plock := plock w; on := on w; cpu := <[j := x]> (cpu w); lk := lk w; cond := cond w; ints := ints w; kept := kept w; halted := halted w |}.
Definition set_lk x w := {| pcs := pcs w; st := st w; ch := ch w; plock := plock w; on := on w; cpu := cpu w; lk := x; cond := cond w; ints := ints w; kept := kept w; halted := halted w |}.
Definition set_cond x w := {| pcs := pcs w; st := st w; ch := ch w; plock := plock w; on := on w; cpu := cpu w; lk := lk w; cond := x; ints := ints w; kept := kept w; halted := halted w |}.
Definition set_ints j x w := {| pcs := pcs w; st := st w; ch := ch w; plock := plock w; on := on w; cpu := cpu w; lk := lk w; cond := cond w; ints := <[j := x]> (ints w); kept := kept w; halted := halted w |}.
Definition set_kept i x w := {| pcs := pcs w; st := st w; ch := ch w; plock := plock w; on := on w; cpu := cpu w; lk := lk w; cond := cond w; ints := ints w; kept := <[i := x]> (kept w); halted := halted w |}.
Definition set_halted x w := {| pcs := pcs w; st := st w; ch := ch w; plock := plock w; on := on w; cpu := cpu w; lk := lk w; cond := cond w; ints := ints w; kept := kept w; halted := x |}.

Definition halt (msg : string) (w : world) : world := set_halted (Some msg) w.
Definition push (j : nat) (w : world) : world := set_ints j (push_off (ints w j)) w.
Definition pop (j : nat) (w : world) : world :=
  match pop_off (ints w j) with inl msg => halt msg w | inr c => set_ints j c w end.

(** Whether the lock of process [k] is held by thread [i]. *)
Definition mine (i k : nat) (o : option owner) : bool :=
  bool_decide (o = Some (OThread i)) || (bool_decide (k = i) && bool_decide (o = Some OSelf)).

(** Thread [i] on CPU [j] takes the lock of process [k], as [o]; [None] while it is
    held by another. *)
Definition take_plock (i j k : nat) (o : owner) (w : world) : option world :=
  if mine i k (plock w k) then Some (halt "acquire" w)
  else match plock w k with None => Some (push j (set_plock k (Some o) w)) | Some _ => None end.
Definition take_lk (i j : nat) (w : world) : option world :=
  if bool_decide (lk w = Some i) then Some (halt "acquire" w)
  else match lk w with None => Some (push j (set_lk (Some i) w)) | Some _ => None end.
(** The scheduler of CPU [j] takes it. *)
Definition cpu_plock (j k : nat) (w : world) : option world :=
  if bool_decide (plock w k = Some (OCpu j)) then Some (halt "acquire" w)
  else match plock w k with None => Some (push j (set_plock k (Some (OCpu j)) w)) | Some _ => None end.

(** Releasing one. *)
Definition drop_plock (j k : nat) (o : owner) (w : world) : world :=
  if bool_decide (plock w k = Some o) then pop j (set_plock k None w) else halt "release" w.
Definition drop_lk (i j : nat) (w : world) : world :=
  if bool_decide (lk w = Some i) then pop j (set_lk None w) else halt "release" w.

(** [swtch] to the scheduler of CPU [j], which now has the lock of the process. *)
Definition switch_away (i j : nat) (x : tpc) (w : world) : world :=
  set_cpu j (CBack i) (set_on i None (set_plock i (Some (OCpu j)) (set_pc i x w))).

(** [sched], up to the return of [swtch], where the thread goes on at [x]; and the
    line after it. *)
Definition sched_at (i j : nat) (x : tpc) (w : world) : world :=
  if negb (bool_decide (plock w i = Some OSelf)) then halt "sched p->lock" w
  else if negb (noff (ints w j) =? 1) then halt "sched locks" w
  else if bool_decide (st w i = RUNNING) then halt "sched running" w
  else if intr_get (sstatus (ints w j)) then halt "sched interruptible" w
  else switch_away i j x (set_kept i (intena (ints w j)) w).
Definition restore (i j : nat) (w : world) : world :=
  set_ints j {| noff := noff (ints w j); intena := kept w i; sstatus := sstatus (ints w j) |} w.

(** The next entry of the table. *)
Definition next_scan (i : nat) : tpc := if bool_decide (S i < nproc)%nat then TScan (S i) else TDone.
Definition next_proc (i : nat) : nat := if bool_decide (S i < nproc)%nat then S i else 0%nat.

Definition wake (i : nat) (w : world) : world :=
  if bool_decide (st w i = SLEEPING) then set_st i RUNNABLE w else w.

(** One step of thread [i], which runs on CPU [j]. *)
Definition thread_step (i j : nat) (w : world) : option world :=
  match pcs w i with
  | TForkret => Some (set_pc i TIdle (drop_plock j i OSelf w))
  | TIdle => None
  | TWait => set_pc i TCheck <$> take_lk i j w
  | TCheck => Some (if cond w then set_pc i TIdle (drop_lk i j (set_cond false w)) else set_pc i TLockSelf w)
  | TLockSelf => set_pc i TUnlock <$> take_plock i j i OSelf w
  | TUnlock => Some (set_pc i TChan (drop_lk i j w))
  | TChan => Some (set_pc i TState (set_ch i true w))
  | TState => Some (set_pc i TSched (set_st i SLEEPING w))
  | TSched => Some (sched_at i j TResume w)
  | TResume => Some (set_pc i TUnlockSelf (set_ch i false (restore i j w)))
  | TUnlockSelf => Some (set_pc i TRelock (drop_plock j i OSelf w))
  | TRelock => set_pc i TCheck <$> take_lk i j w
  | TSignal => set_pc i TSet <$> take_lk i j w
  | TSet => Some (set_pc i (TScan 0) (set_cond true w))
  | TScan k => set_pc i (TLook k) <$> take_plock i j k (OThread i) w
  | TLook k => Some (set_pc i (TNext k) (if ch w k then wake k w else w))
  | TNext k => Some (set_pc i (next_scan k) (drop_plock j k (OThread i) w))
  | TDone => Some (set_pc i TIdle (drop_lk i j w))
  | TKill k => set_pc i (TKillLook k) <$> take_plock i j k (OThread i) w
  | TKillLook k => Some (set_pc i (TKillNext k) (wake k w))
  | TKillNext k => Some (set_pc i TIdle (drop_plock j k (OThread i) w))
  | TYield => set_pc i TYieldState <$> take_plock i j i OSelf w
  | TYieldState => Some (set_pc i TYieldSched (set_st i RUNNABLE w))
  | TYieldSched => Some (sched_at i j TYieldResume w)
  | TYieldResume => Some (set_pc i TIdle (drop_plock j i OSelf (restore i j w)))
  end.

(** What an idle thread may start. *)
Definition starts (x : tpc) : Prop :=
  match x with TWait | TSignal | TYield => True | TKill i => (i < nproc)%nat | _ => False end.

(** [intr_on] and [intr_off] on CPU [j]. *)
Definition set_intr (j : nat) (b : bool) (w : world) : world :=
  let c := ints w j in
  set_ints j {| noff := noff c; intena := intena c; sstatus := (if b then intr_on else intr_off) (sstatus c) |} w.

(** One step of the scheduler of CPU [j]; a pass over the table begins with [intr_on]. *)
Definition cpu_step (j : nat) (w : world) : option world :=
  match cpu w j with
  | CScan i => set_cpu j (CLook i) <$> cpu_plock j i (if bool_decide (i = 0%nat) then set_intr j true w else w)
  | CLook i =>
      Some (if bool_decide (st w i = RUNNABLE)
            then set_cpu j (CRun i) (set_on i (Some j) (set_plock i (Some OSelf) (set_st i RUNNING w)))
            else set_cpu j (CScan (next_proc i)) (drop_plock j i (OCpu j) w))
  | CRun _ => None
  | CBack i => Some (set_cpu j (CScan (next_proc i)) (drop_plock j i (OCpu j) w))
  end.

(** A thread that holds no lock may also turn interrupts on and off. *)
Inductive wstep : world -> world -> Prop :=
| wstep_thread w w' i j : halted w = None -> on w i = Some j -> thread_step i j w = Some w' -> wstep w w'
| wstep_start w i j x : halted w = None -> on w i = Some j -> pcs w i = TIdle -> starts x -> wstep w (set_pc i x w)
| wstep_intr w i j b : halted w = None -> on w i = Some j -> pcs w i = TIdle -> wstep w (set_intr j b w)
| wstep_cpu w w' j : halted w = None -> cpu_step j w = Some w' -> wstep w w'.

(** At boot the processes that exist are RUNNABLE and start in [forkret]. *)
Definition booted (w : world) : Prop :=
  (forall i, pcs w i = TForkret /\ (st w i = RUNNABLE \/ st w i = UNUSED) /\ ch w i = false /\ plock w i = None /\ on w i = None) /\
  (forall j, cpu w j = CScan 0 /\ noff (ints w j) = 0) /\ lk w = None /\ cond w = false /\ halted w = None.

Inductive runs : world -> Prop :=
| runs_boot w : booted w -> runs w
| runs_step w w' : runs w -> wstep w w' -> runs w'.

(** ** The invariant *)

(** Where a process that is not running may be. *)
Definition parked (x : tpc) : bool := match x with TForkret | TResume | TYieldResume => true | _ => false end.
(** Where a running process holds its own lock. *)
Definition self_pc (x : tpc) : bool :=
  match x with
  | TForkret | TUnlock | TChan | TState | TSched | TResume | TUnlockSelf | TYieldState | TYieldSched | TYieldResume => true
  | _ => false
  end.
(** The process whose lock a thread holds in [wakeup] or [kill]. *)
Definition other_pc (x : tpc) : option nat :=
  match x with TLook i | TNext i | TKillLook i | TKillNext i => Some i | _ => None end.
(** The entry a thread has come to in [wakeup] or [kill]. *)
Definition pos_pc (x : tpc) : option nat :=
  match x with TScan i | TKill i | TLook i | TNext i | TKillLook i | TKillNext i => Some i | _ => None end.
Definition lk_pc (x : tpc) : bool :=
  match x with TCheck | TLockSelf | TUnlock | TSet | TScan _ | TLook _ | TNext _ | TDone => true | _ => false end.
Definition ch_pc (x : tpc) : bool := match x with TState | TSched | TResume => true | _ => false end.
(** The state of a running process. *)
Definition run_st (x : tpc) : procstate := match x with TSched => SLEEPING | TYieldSched => RUNNABLE | _ => RUNNING end.
Definition checked (x : tpc) : bool := match x with TLockSelf | TUnlock => true | _ => false end.
Definition cpu_holds (x : cpc) : option nat := match x with CLook i | CBack i => Some i | _ => None end.
Definition cpu_at (x : cpc) : nat := match x with CScan i | CLook i | CRun i | CBack i => i end.

(** Between finding the condition false and being woken. *)
Definition waiting (x : tpc) (s : procstate) : bool :=
  match x with TChan | TState | TSched => true | TResume => bool_decide (s = SLEEPING) | _ => false end.
(** A [wakeup] that has not come to process [i] yet. *)
Definition ahead (x : tpc) (i : nat) : Prop :=
  match x with TScan k | TLook k => (k <= i)%nat | TNext k => (k < i)%nat | _ => False end.

Record winv (w : world) : Prop := {
  wi_on : forall i j, on w i = Some j <-> cpu w j = CRun i;
  wi_idx : forall i, pcs w i <> TForkret -> (i < nproc)%nat;
  wi_at : forall j, (cpu_at (cpu w j) < nproc)%nat;
  wi_pos : forall i k, pos_pc (pcs w i) = Some k -> (k < nproc)%nat;
  wi_parked : forall i, on w i = None -> parked (pcs w i) = true /\ st w i <> RUNNING /\ (st w i = SLEEPING -> pcs w i = TResume);
  wi_st : forall i j, on w i = Some j -> st w i = run_st (pcs w i);
  wi_self : forall i, plock w i = Some OSelf <-> on w i <> None /\ self_pc (pcs w i) = true;
  wi_other : forall i k, plock w i = Some (OThread k) <-> other_pc (pcs w k) = Some i;
  wi_cpu : forall i j, plock w i = Some (OCpu j) <-> cpu_holds (cpu w j) = Some i;
  wi_lk : forall i, lk w = Some i <-> lk_pc (pcs w i) = true;
  wi_ch : forall i, ch w i = ch_pc (pcs w i);
  wi_checked : forall i, checked (pcs w i) = true -> cond w = false;
  wi_wake : forall i, cond w = true -> waiting (pcs w i) (st w i) = true -> exists k, ahead (pcs w k) i }.

Lemma winv_booted w : booted w -> winv w.
Proof.
  intros (Hi & Hj' & Hlk & Hc & _). assert (Hj : forall j, cpu w j = CScan 0) by (intros j; apply Hj'). split.
  - intros i j. destruct (Hi i) as (_ & _ & _ & _ & ->). rewrite Hj. split; discriminate.
  - intros i. by destruct (Hi i) as (-> & _).
  - intros j. rewrite Hj. unfold nproc, NPROC. cbn. lia.
  - intros i k. by destruct (Hi i) as (-> & _).
  - intros i _. destruct (Hi i) as (-> & [->| ->] & _); done.
  - intros i j. by destruct (Hi i) as (_ & _ & _ & _ & ->).
  - intros i. destruct (Hi i) as (_ & _ & _ & -> & ->). split; [done|]. by intros [].
  - intros i k. destruct (Hi i) as (_ & _ & _ & -> & _). destruct (Hi k) as (-> & _). split; discriminate.
  - intros i j. destruct (Hi i) as (_ & _ & _ & -> & _). rewrite Hj. split; discriminate.
  - intros i. rewrite Hlk. destruct (Hi i) as (-> & _). split; discriminate.
  - intros i. destruct (Hi i) as (-> & _ & -> & _). done.
  - intros i _. done.
  - intros i. rewrite Hc. discriminate.
Qed.

(** Cases on the indices that were updated, and propositional reasoning. *)
Ltac fn := cbn [pcs st ch plock on cpu lk cond set_pc set_st set_ch set_plock set_on set_cpu set_lk set_cond switch_away];
  unfold insert, fn_insert; repeat case_decide; subst.
Ltac ground :=
  repeat match goal with H : pcs _ _ = _ |- _ => rewrite H in * | H : cpu _ _ = _ |- _ => rewrite H in * end;
  cbn [parked self_pc other_pc pos_pc lk_pc ch_pc run_st checked cpu_holds cpu_at waiting] in *; intuition (congruence || lia).

(** One goal for each part of the invariant of the new state, with that part for
    the old state at hand. *)
Ltac fields H w :=
  split;
  [ intros a b; pose proof (wi_on w H a b)
  | intros a; pose proof (wi_idx w H a)
  | intros a; pose proof (wi_at w H a)
  | intros a b; pose proof (wi_pos w H a b)
  | intros a; pose proof (wi_parked w H a)
  | intros a b; pose proof (wi_st w H a b)
  | intros a; pose proof (wi_self w H a)
  | intros a b; pose proof (wi_other w H a b)
  | intros a b; pose proof (wi_cpu w H a b)
  | intros a; pose proof (wi_lk w H a)
  | intros a; pose proof (wi_ch w H a)
  | intros a; pose proof (wi_checked w H a)
  | intros a; pose proof (wi_wake w H a) ]; clear H; fn.

(** What is known of a running thread. *)
Lemma thread_facts w i j : winv w -> on w i = Some j ->
  cpu w j = CRun i /\ (i < nproc)%nat /\ st w i = run_st (pcs w i) /\ ch w i = ch_pc (pcs w i) /\
  (self_pc (pcs w i) = true -> plock w i = Some OSelf) /\ (lk_pc (pcs w i) = true -> lk w = Some i) /\
  (forall k, other_pc (pcs w i) = Some k -> plock w k = Some (OThread i) /\ (k < nproc)%nat).
Proof.
  intros H Hon. pose proof (proj1 (wi_on w H i j) Hon) as Hc. split_and!; [done| | | | | |].
  - pose proof (wi_at w H j) as Ha. by rewrite Hc in Ha.
  - by eapply wi_st.
  - by apply wi_ch.
  - intros Hs. apply (wi_self w H i). by rewrite Hon.
  - intros Hl. by apply (wi_lk w H i).
  - intros k Hk. split; [by apply (wi_other w H)|]. apply (wi_pos w H i k). by destruct (pcs w i).
Qed.

(** A [wakeup] that has not come to [a] is still ahead when thread [i], which is
    not in it, moves. *)
Lemma still_ahead w i x a :
  (exists k, ahead (pcs w k) a) -> (ahead (pcs w i) a -> ahead x a) -> exists k, ahead (<[i := x]> (pcs w) k) a.
Proof.
  intros [k Hk] Hx. exists k. unfold insert, fn_insert. case_decide; subst; auto.
Qed.

(** A thread that moves and changes nothing else. *)
Lemma winv_move w i j x :
  winv w -> on w i = Some j -> self_pc x = self_pc (pcs w i) -> other_pc x = other_pc (pcs w i) -> lk_pc x = lk_pc (pcs w i) ->
  ch_pc x = ch_pc (pcs w i) -> run_st x = run_st (pcs w i) -> (checked x = true -> cond w = false) ->
  (forall k, pos_pc x = Some k -> (k < nproc)%nat) -> waiting x (st w i) = waiting (pcs w i) (st w i) ->
  (forall a, waiting (pcs w a) (st w a) = true -> ahead (pcs w i) a -> ahead x a) -> winv (set_pc i x w).
Proof.
  intros H Hon H1 H2 H3 H4 H5 H6 H7 H8 H9. destruct (thread_facts w i j H Hon) as (Fc & Fi & _).
  fields H w. all: try solve [ground].
  - apply H7.
  - by rewrite H1.
  - by rewrite H2.
  - by rewrite H3.
  - intros Hc Hw. rewrite H8 in Hw. apply still_ahead; auto.
  - intros Hc Hw. apply still_ahead; auto.
Qed.

(** Waking a process whose lock is held by thread [i]. *)
Lemma winv_wake w i k : winv w -> plock w k = Some (OThread i) -> winv (wake k w).
Proof.
  intros H Hk. unfold wake. case_bool_decide as Hst; [|done].
  assert (Hon : on w k = None).
  { destruct (on w k) as [j|] eqn:E; [|done]. destruct (thread_facts w k j H E) as (_ & _ & Hs & _ & Hself & _).
    rewrite Hst in Hs. destruct (pcs w k) eqn:E'; try discriminate Hs. rewrite Hself in Hk by done. discriminate Hk. }
  pose proof (wi_parked w H k Hon) as (_ & _ & Hpc). specialize (Hpc Hst).
  fields H w. all: try solve [ground].
  intros Hc Hw. by rewrite Hpc in Hw.
Qed.

(** The part of the invariant on wakeups, when thread [i] moves outside [wakeup]. *)
Ltac moved E :=
  intros Hc Hw; apply still_ahead; [|by rewrite E];
  match goal with H : _ -> _ -> exists k, _ |- _ => apply H; [done|rewrite ?E; done] end.

(** [wakeup] and [kill] release the lock of process [k]. *)
Lemma winv_unlock_other w i j k x :
  winv w -> on w i = Some j -> other_pc (pcs w i) = Some k -> self_pc x = false -> other_pc x = None ->
  lk_pc x = lk_pc (pcs w i) -> ch_pc x = ch_pc (pcs w i) -> run_st x = run_st (pcs w i) -> checked x = false ->
  (forall b, pos_pc x = Some b -> (b < nproc)%nat) -> (forall s, waiting x s = false) ->
  (forall a, (a < nproc)%nat -> ahead (pcs w i) a -> ahead x a) ->
  winv (set_pc i x (set_plock k None w)).
Proof.
  intros H Hon Hk H1 H2 H3 H4 H5 H6 H7 H8 H9. destruct (thread_facts w i j H Hon) as (Fc & Fi & Fst & Fch & _ & _ & Fo).
  destruct (Fo k Hk) as [Fp _]. pose proof (wi_idx w H) as Fx. fields H w. all: try solve [ground].
  - apply H7.
  - assert (Hns : self_pc (pcs w a) = false) by by destruct (pcs w a). rewrite H1, <- Hns. done.
  - by rewrite H3.
  - intros Hc Hw. apply still_ahead; [by auto|]. apply H9, Fx. intros E. by rewrite E in Hw.
Qed.

(** [cond = 1]: the [wakeup] starts. *)
Lemma winv_set w i j : winv w -> on w i = Some j -> pcs w i = TSet -> winv (set_pc i (TScan 0) (set_cond true w)).
Proof.
  intros H Hon E. destruct (thread_facts w i j H Hon) as (Fc & Fi & Fst & Fch & _ & Fl & _). rewrite E in *. specialize (Fl eq_refl).
  pose proof (wi_lk w H) as Fk. fields H w. all: try solve [ground].
  - intros [= <-]. lia.
  - intros Hch. assert (lk_pc (pcs w a) = true) as Hl%Fk by by destruct (pcs w a). congruence.
  - intros _ _. exists i. case_decide; [|done]. cbn. lia.
Qed.

(** [wakeup] and [kill] look at process [k]. *)
Lemma winv_look w i j k x :
  winv w -> on w i = Some j -> pcs w i = TLook k /\ x = TNext k /\ (ch w k = false \/ st w k <> SLEEPING) \/ pcs w i = TKillLook k /\ x = TKillNext k ->
  winv (set_pc i x w).
Proof.
  intros H Hon Hx. destruct (thread_facts w i j H Hon) as (Fc & Fi & Fst & Fch & _ & _ & Fo).
  assert (plock w k = Some (OThread i) /\ (k < nproc)%nat) as [Fk Fn] by (destruct Hx as [(E & _)|(E & _)]; rewrite E in Fo; apply (Fo k eq_refl)).
  apply (winv_move w i j); try done; try (destruct Hx as [(E & -> & _)|(E & ->)]; rewrite ?E; done).
  { intros b Hb. destruct Hx as [(_ & -> & _)|(_ & ->)]; cbn in Hb; congruence. }
  intros a Hw. destruct Hx as [(-> & -> & Hn)|(-> & ->)]; [|done]. cbn. intros Ha.
  destruct (decide (a = k)) as [->|]; [|lia]. pose proof (wi_ch w H k) as Hck. pose proof (wi_self w H k) as Hs.
  pose proof (wi_parked w H k) as Hp. rewrite Fk in Hs.
  destruct (pcs w k) eqn:E; cbn in *; try discriminate Hw.
  - destruct (on w k) eqn:Eon; [naive_solver|]. by destruct (Hp eq_refl).
  - destruct (on w k) eqn:Eon; [naive_solver|]. by destruct (Hp eq_refl).
  - destruct (on w k) eqn:Eon; [naive_solver|]. by destruct (Hp eq_refl).
  - apply bool_decide_eq_true in Hw. destruct Hn; congruence.
Qed.

(** ** Steps without interrupts

    What a step does to locks and processes when no check fails. *)

Definition free_plock (k : nat) (o : owner) (w : world) : option world :=
  match plock w k with None => Some (set_plock k (Some o) w) | Some _ => None end.
Definition free_lk (i : nat) (w : world) : option world :=
  match lk w with None => Some (set_lk (Some i) w) | Some _ => None end.

Definition plain_step (i j : nat) (w : world) : option world :=
  match pcs w i with
  | TForkret | TYieldResume => Some (set_pc i TIdle (set_plock i None w))
  | TIdle => None
  | TWait | TRelock => set_pc i TCheck <$> free_lk i w
  | TCheck => Some (if cond w then set_pc i TIdle (set_lk None (set_cond false w)) else set_pc i TLockSelf w)
  | TLockSelf => set_pc i TUnlock <$> free_plock i OSelf w
  | TUnlock => Some (set_pc i TChan (set_lk None w))
  | TChan => Some (set_pc i TState (set_ch i true w))
  | TState => Some (set_pc i TSched (set_st i SLEEPING w))
  | TSched => Some (switch_away i j TResume w)
  | TResume => Some (set_pc i TUnlockSelf (set_ch i false w))
  | TUnlockSelf => Some (set_pc i TRelock (set_plock i None w))
  | TSignal => set_pc i TSet <$> free_lk i w
  | TSet => Some (set_pc i (TScan 0) (set_cond true w))
  | TScan k => set_pc i (TLook k) <$> free_plock k (OThread i) w
  | TLook k => Some (set_pc i (TNext k) (if ch w k then wake k w else w))
  | TNext k => Some (set_pc i (next_scan k) (set_plock k None w))
  | TDone => Some (set_pc i TIdle (set_lk None w))
  | TKill k => set_pc i (TKillLook k) <$> free_plock k (OThread i) w
  | TKillLook k => Some (set_pc i (TKillNext k) (wake k w))
  | TKillNext k => Some (set_pc i TIdle (set_plock k None w))
  | TYield => set_pc i TYieldState <$> free_plock i OSelf w
  | TYieldState => Some (set_pc i TYieldSched (set_st i RUNNABLE w))
  | TYieldSched => Some (switch_away i j TYieldResume w)
  end.
Definition plain_cpu (j : nat) (w : world) : option world :=
  match cpu w j with
  | CScan i => set_cpu j (CLook i) <$> free_plock i (OCpu j) w
  | CLook i =>
      Some (if bool_decide (st w i = RUNNABLE)
            then set_cpu j (CRun i) (set_on i (Some j) (set_plock i (Some OSelf) (set_st i RUNNING w)))
            else set_cpu j (CScan (next_proc i)) (set_plock i None w))
  | CRun _ => None
  | CBack i => Some (set_cpu j (CScan (next_proc i)) (set_plock i None w))
  end.

(** The steps of [sleep] and [yield] and of taking and releasing [lk]. *)
Lemma winv_plain w i j w' : winv w -> on w i = Some j -> plain_step i j w = Some w' -> winv w'.
Proof.
  intros H Hon Hs. unfold plain_step in Hs. destruct (thread_facts w i j H Hon) as (Fc & Fi & Fst & Fch & Fs & Fl & Fo).
  destruct (pcs w i) as [ | | | | | | | | | | | | | |k|k|k| |k|k|k| | | | ] eqn:E; cbn [self_pc lk_pc other_pc run_st ch_pc] in *;
    try specialize (Fs eq_refl); try specialize (Fl eq_refl); try (destruct (Fo _ eq_refl) as [Fp Fk]); clear Fo;
    unfold free_lk, free_plock in Hs;
    try match type of Hs with context [match ?x with None => _ | Some _ => _ end] => destruct x eqn:El; [discriminate Hs|] end;
    cbn in Hs; simplify_eq.
  all: try (fields H w; solve [ground|moved E]).
  - destruct (cond w) eqn:Ec; [fields H w; solve [ground|moved E]|].
    by apply (winv_move w i j); rewrite ?E.
  - pose proof (wi_checked w H i) as Fk. rewrite E in Fk. specialize (Fk eq_refl). fields H w; solve [ground|moved E].
  - by eapply winv_set.
  - destruct (ch w k) eqn:Ech; [|eapply winv_look; eauto].
    eapply (winv_look _ i j k); [by eapply winv_wake|by unfold wake; case_bool_decide|]. left. unfold wake.
    case_bool_decide; cbn; (split_and!; [done|done|right]); [by rewrite fn_lookup_insert|done].
  - unfold next_scan. case_bool_decide; eapply winv_unlock_other; rewrite ?E; try done; cbn; intros; simplify_eq; lia.
  - eapply (winv_look _ i j k); [by eapply winv_wake|by unfold wake; case_bool_decide|]. right. unfold wake. by case_bool_decide.
Qed.

Lemma winv_start w i j x : winv w -> on w i = Some j -> pcs w i = TIdle -> starts x -> winv (set_pc i x w).
Proof.
  intros H Hon E Hx. apply (winv_move w i j); try done; rewrite ?E; try (by destruct x).
  by destruct x; try done; intros ? [= <-].
Qed.

Lemma winv_plain_cpu w j w' : winv w -> plain_cpu j w = Some w' -> winv w'.
Proof.
  intros H Hs. unfold plain_cpu, free_plock in Hs. pose proof (wi_at w H j) as Fa.
  destruct (cpu w j) as [i|i|i|i] eqn:E; cbn [cpu_at] in Fa.
  - destruct (plock w i) eqn:Ep; [done|]. cbn in Hs. simplify_eq. fields H w; solve [ground|auto].
  - assert (Fp : plock w i = Some (OCpu j)) by (apply (wi_cpu w H); by rewrite E). apply (inj Some) in Hs. subst w'.
    case_bool_decide as Hst; [|unfold next_proc; case_bool_decide; fields H w; solve [ground|auto]].
    assert (Hon : on w i = None).
    { destruct (on w i) as [j'|] eqn:Eo; [|done]. destruct (thread_facts w i j' H Eo) as (_ & _ & Hs & _ & Hself & _).
      rewrite Hst in Hs. destruct (pcs w i) eqn:E'; try discriminate Hs. rewrite Hself in Fp by done. discriminate Fp. }
    pose proof (wi_parked w H i Hon) as (Hp & _ & _).
    assert (self_pc (pcs w i) = true /\ run_st (pcs w i) = RUNNING) as [Hself Hrun] by by destruct (pcs w i).
    fields H w; try solve [ground|auto]. intros _ Hw. by destruct (pcs w a).
  - done.
  - assert (Fp : plock w i = Some (OCpu j)) by (apply (wi_cpu w H); by rewrite E). simplify_eq.
    unfold next_proc. case_bool_decide; fields H w; solve [ground|auto].
Qed.

(** ** Interrupts

    [noff] of a CPU is the number of locks that what runs on it holds, and interrupts
    are off while it is not zero. *)

Definition locks_at (x : tpc) : Z :=
  Z.b2z (self_pc x) + Z.b2z (lk_pc x) + match other_pc x with Some _ => 1 | None => 0 end.
Definition depth (w : world) (j : nat) : Z :=
  match cpu w j with CScan _ => 0 | CLook _ | CBack _ => 1 | CRun i => locks_at (pcs w i) end.
Definition calm (c : Spinlock.cpu) (n : Z) : Prop := noff c = n /\ (0 < n -> intr_get (sstatus c) = false).
Definition iinv (w : world) : Prop := forall j, calm (ints w j) (depth w j).

Lemma calm_push c n : calm c n -> calm (push_off c) (n + 1).
Proof. intros [Hn _]. destruct (push_off_facts c) as (P1 & P2 & _). split; [by rewrite P1, Hn|done]. Qed.

Lemma calm_pop c n : calm c n -> 1 <= n -> exists c', pop_off c = inr c' /\ calm c' (n - 1).
Proof.
  intros [Hn Hi] H1. destruct (pop_off_ok c) as (c' & E & P1 & _ & P3); [apply Hi; lia|lia|]. exists c'. split; [done|].
  split; [lia|]. intros Hp. rewrite P3, (proj2 (Z.eqb_neq _ _)) by lia. apply Hi. lia.
Qed.

(** The worlds agree on all but interrupts. *)
Definition same (w w' : world) : Prop :=
  pcs w = pcs w' /\ st w = st w' /\ ch w = ch w' /\ plock w = plock w' /\ on w = on w' /\ cpu w = cpu w' /\ lk w = lk w' /\ cond w = cond w'.

Lemma winv_same w w' : same w' w -> winv w -> winv w'.
Proof.
  destruct w, w'. unfold same. cbn [pcs st ch plock on cpu lk cond]. intros (-> & -> & -> & -> & -> & -> & -> & ->) [].
  split; assumption.
Qed.

(** What a step on CPU [j] that ends in [w'] does to its interrupts, [w0] being the
    world without them. *)
Definition tracks (j : nat) (w w0 w' : world) : Prop :=
  same w' w0 /\ (forall a, a <> j -> ints w' a = ints w a) /\ calm (ints w' j) (depth w0 j) /\ halted w' = halted w.

Lemma take_lk_ok i j w w1 : lk w <> Some i -> take_lk i j w = Some w1 -> free_lk i w = Some (set_lk (Some i) w) /\ w1 = push j (set_lk (Some i) w).
Proof. intros H. unfold take_lk, free_lk. rewrite bool_decide_false by done. destruct (lk w); [done|]. by intros [= <-]. Qed.

Lemma take_plock_ok i j k o w w1 :
  mine i k (plock w k) = false -> take_plock i j k o w = Some w1 ->
  free_plock k o w = Some (set_plock k (Some o) w) /\ w1 = push j (set_plock k (Some o) w).
Proof. intros H. unfold take_plock, free_plock. rewrite H. destruct (plock w k); [done|]. by intros [= <-]. Qed.

Lemma drop_lk_ok i j w n :
  lk w = Some i -> calm (ints w j) n -> 1 <= n -> exists c, drop_lk i j w = set_ints j c (set_lk None w) /\ calm c (n - 1).
Proof.
  intros Hl Hc Hn. destruct (calm_pop _ _ Hc Hn) as (c & E & H). exists c. split; [|done].
  unfold drop_lk, pop. rewrite bool_decide_true by done. cbn [ints set_lk]. by rewrite E.
Qed.

Lemma drop_plock_ok j k o w n :
  plock w k = Some o -> calm (ints w j) n -> 1 <= n -> exists c, drop_plock j k o w = set_ints j c (set_plock k None w) /\ calm c (n - 1).
Proof.
  intros Hl Hc Hn. destruct (calm_pop _ _ Hc Hn) as (c & E & H). exists c. split; [|done].
  unfold drop_plock, pop. rewrite bool_decide_true by done. cbn [ints set_plock]. by rewrite E.
Qed.

Lemma sched_at_ok i j x w :
  plock w i = Some OSelf -> calm (ints w j) 1 -> st w i <> RUNNING ->
  sched_at i j x w = switch_away i j x (set_kept i (intena (ints w j)) w).
Proof.
  intros Hp [Hn Hi] Hs. unfold sched_at. rewrite bool_decide_true by done. rewrite Hn, bool_decide_false by done. by rewrite Hi.
Qed.

Lemma not_mine w i k : winv w -> self_pc (pcs w i) = false -> other_pc (pcs w i) = None -> mine i k (plock w k) = false.
Proof.
  intros H Hs Ho. unfold mine. rewrite bool_decide_false by (intros E%(wi_other w H); congruence). cbn [orb].
  case_bool_decide as Hk; [subst k|done]. rewrite bool_decide_false; [done|]. intros [_ E]%(wi_self w H). congruence.
Qed.

Lemma not_lk w i : winv w -> lk_pc (pcs w i) = false -> lk w <> Some i.
Proof. intros H Hl E%(wi_lk w H). congruence. Qed.

(** The parts of [tracks] that are clear from the form of the worlds; what is left is
    the state of the CPU. *)
Ltac track Fc :=
  split; [by repeat split|]; split; [intros a Ha; cbn; unfold insert, fn_insert; by rewrite ?decide_False by done|];
  split; [|done]; unfold depth; cbn [cpu pcs ints set_pc set_st set_ch set_plock set_on set_cpu set_lk set_cond set_ints set_kept set_intr switch_away push restore];
  rewrite ?Fc, ?fn_lookup_insert.

Lemma thread_tracks w i j w' :
  winv w -> iinv w -> on w i = Some j -> thread_step i j w = Some w' -> exists w0, plain_step i j w = Some w0 /\ tracks j w w0 w'.
Proof.
  intros H HI Hon Hs. destruct (thread_facts w i j H Hon) as (Fc & _ & Fst & _ & Fs & Fl & Fo).
  pose proof (HI j) as Hc. unfold depth in Hc. rewrite Fc in Hc. pose proof (not_mine w i) as Hm. pose proof (not_lk w i H) as Hn.
  unfold thread_step in Hs. unfold plain_step.
  destruct (pcs w i) as [ | | | | | | | | | | | | | |k|k|k| |k|k|k| | | | ] eqn:E; cbn [self_pc lk_pc other_pc run_st] in *;
    try specialize (Fs eq_refl); try specialize (Fl eq_refl); try (destruct (Fo _ eq_refl) as [Fp _]);
    try (apply fmap_Some in Hs as (w1 & Ht & ->));
    try (apply take_lk_ok in Ht as [-> ->]; [|by apply Hn]); try (apply take_plock_ok in Ht as [-> ->]; [|by apply Hm]); try done.
  all: try (eexists; split; [reflexivity|]; track Fc; by apply (calm_push _ _ Hc)).
  all: apply (inj Some) in Hs; subst w'; eexists; (split; [reflexivity|]).
  all: try (track Fc; exact Hc).
  all: try (rewrite sched_at_ok by (done || by rewrite Fst); track Fc; exact Hc).
  all: try (destruct (drop_plock_ok j i OSelf w _ Fs Hc) as (c & -> & Hd); [done|]; track Fc; exact Hd).
  all: try (destruct (drop_lk_ok i j w _ Fl Hc) as (c & -> & Hd); [done|]; track Fc; exact Hd).
  - destruct (cond w); [|track Fc; exact Hc].
    destruct (drop_lk_ok i j (set_cond false w) _ Fl Hc) as (c & -> & Hd); [done|]. track Fc. exact Hd.
  - destruct (ch w k); [unfold wake; case_bool_decide|]; track Fc; exact Hc.
  - destruct (drop_plock_ok j k (OThread i) w _ Fp Hc) as (c & -> & Hd); [done|]. unfold next_scan. case_bool_decide; track Fc; exact Hd.
  - unfold wake; case_bool_decide; track Fc; exact Hc.
  - destruct (drop_plock_ok j k (OThread i) w _ Fp Hc) as (c & -> & Hd); [done|]. track Fc. exact Hd.
  - assert (Hr : calm (ints (restore i j w) j) (locks_at TYieldResume)) by (cbn; by rewrite fn_lookup_insert).
    destruct (drop_plock_ok j i OSelf (restore i j w) _ Fs Hr) as (c & -> & Hd); [done|]. track Fc. exact Hd.
Qed.

Lemma cpu_tracks w j w' :
  winv w -> iinv w -> cpu_step j w = Some w' -> exists w0, plain_cpu j w = Some w0 /\ tracks j w w0 w'.
Proof.
  intros H HI Hs. pose proof (HI j) as Hc. unfold depth in Hc. unfold cpu_step in Hs. unfold plain_cpu.
  destruct (cpu w j) as [i|i|i|i] eqn:E; [| |done|].
  - set (w1 := if bool_decide (i = 0%nat) then set_intr j true w else w) in Hs.
    assert (Hw1 : plock w1 = plock w /\ same w1 w /\ (forall a, a <> j -> ints w1 a = ints w a) /\ calm (ints w1 j) 0 /\ halted w1 = halted w).
    { unfold w1. case_bool_decide; [|by repeat split; apply Hc]. split; [done|]. split; [by repeat split|].
      split; [intros a Ha; cbn; unfold insert, fn_insert; by rewrite decide_False by done|]. split; [|done]. cbn. rewrite fn_lookup_insert. split; [apply Hc|lia]. }
    clearbody w1. destruct Hw1 as (Hp & Hsame & Ha & Hc1 & Hh). unfold cpu_plock in Hs. rewrite Hp in Hs.
    rewrite bool_decide_false in Hs by (intros Eo%(wi_cpu w H); rewrite E in Eo; discriminate Eo).
    unfold free_plock. destruct (plock w i) eqn:Ep; [done|]. cbn in Hs. injection Hs as <-. eexists. split; [reflexivity|].
    destruct Hsame as (E1 & E2 & E3 & E4 & E5 & E6 & E7 & E8). unfold tracks, same. cbn. rewrite E1, E2, E3, E4, E5, E6, E7, E8.
    split; [done|]. split_and!; [|unfold depth; cbn|done]; rewrite ?fn_lookup_insert.
    + intros a Hne. unfold insert, fn_insert. rewrite decide_False by done. by apply Ha.
    + by apply calm_push in Hc1.
  - assert (Fp : plock w i = Some (OCpu j)) by (apply (wi_cpu w H); by rewrite E). apply (inj Some) in Hs. subst w'. eexists. split; [reflexivity|].
    case_bool_decide as Hr.
    + track E. pose proof (wi_parked w H i) as Hpk. destruct (on w i) as [j'|] eqn:Eo.
      * exfalso. destruct (thread_facts w i j' H Eo) as (_ & _ & Fst & _ & Fs & _). rewrite Hr in Fst.
        destruct (pcs w i); try discriminate Fst. rewrite Fs in Fp by done. discriminate Fp.
      * destruct (Hpk eq_refl) as (Hpc & _). by destruct (pcs w i).
    + destruct (drop_plock_ok j i (OCpu j) w _ Fp Hc) as (c & -> & Hd); [done|]. track E. exact Hd.
  - assert (Fp : plock w i = Some (OCpu j)) by (apply (wi_cpu w H); by rewrite E). apply (inj Some) in Hs. subst w'. eexists. split; [reflexivity|].
    destruct (drop_plock_ok j i (OCpu j) w _ Fp Hc) as (c & -> & Hd); [done|]. track E. exact Hd.
Qed.

(** Another CPU is not affected. *)
Lemma iinv_tracks w w0 w' j :
  iinv w -> tracks j w w0 w' -> (forall a, a <> j -> depth w0 a = depth w a) -> iinv w'.
Proof.
  intros HI ((Hp & _ & _ & _ & _ & Hcpu & _) & Ha & Hc & _) Hd a.
  assert (E : depth w' a = depth w0 a) by (unfold depth; by rewrite Hp, Hcpu). rewrite E.
  destruct (decide (a = j)) as [->|Hne]; [done|]. rewrite Ha, Hd by done. apply HI.
Qed.

(** The invariant of the machine: that of locks and processes, that of interrupts, and no
    check has failed. *)
Definition sound (w : world) : Prop := winv w /\ iinv w /\ halted w = None.

Lemma depth_other w i j a x : winv w -> on w i = Some j -> a <> j -> forall w0, cpu w0 a = cpu w a -> pcs w0 = <[i := x]> (pcs w) -> depth w0 a = depth w a.
Proof.
  intros H Hon Ha w0 Hc Hp. unfold depth. rewrite Hc, Hp. destruct (cpu w a) as [k|k|k|k] eqn:E; try done.
  unfold insert, fn_insert. case_decide as Hk; [|done]. subst k. apply (wi_on w H) in E. congruence.
Qed.

(** A step of thread [i] moves only this thread, and only its own CPU. *)
Lemma plain_other w i j w0 :
  plain_step i j w = Some w0 -> (exists x, pcs w0 = <[i := x]> (pcs w)) /\ forall a, a <> j -> cpu w0 a = cpu w a.
Proof.
  intros Hs. unfold plain_step, free_lk, free_plock in Hs.
  assert (Hw : forall k, pcs (wake k w) = pcs w /\ cpu (wake k w) = cpu w) by (intros k; unfold wake; by case_bool_decide).
  destruct (pcs w i); repeat case_match; cbn in Hs; simplify_eq; cbn; rewrite ?(proj1 (Hw _)), ?(proj2 (Hw _)); (split; [by eexists|]);
    intros a Ha; unfold insert, fn_insert; by rewrite ?decide_False by done.
Qed.

Lemma sound_runs w : runs w -> sound w.
Proof.
  induction 1 as [w Hb|w w' _ (H & HI & Hh) Hs].
  { split; [by apply winv_booted|]. destruct Hb as (_ & Hj & _ & _ & Hh). split; [|done]. intros j. destruct (Hj j) as [Hc Hn].
    unfold depth. rewrite Hc. split; [done|lia]. }
  destruct Hs as [w w' i j _ Hon Hs|w i j x _ Hon Hi Hx|w i j b _ Hon Hi|w w' j _ Hs].
  - destruct (thread_tracks w i j w' H HI Hon Hs) as (w0 & Hp & T). destruct (plain_other _ _ _ _ Hp) as [[x Hx] Ho].
    split_and!; [eapply winv_same; [apply T|by eapply winv_plain]| |by rewrite <- Hh; apply T].
    eapply iinv_tracks; [exact HI|exact T|]. intros a Ha. eapply depth_other; eauto.
  - split_and!; [by eapply winv_start| |done]. intros a. destruct (decide (a = j)) as [->|Ha].
    + pose proof (HI j) as Hj. unfold depth in *. cbn. rewrite (proj1 (wi_on w H i j) Hon) in *. rewrite fn_lookup_insert, Hi in *. by destruct x.
    + erewrite (depth_other w i j a x H Hon Ha (set_pc i x w)) by done. apply HI.
  - split_and!; [eapply winv_same; [|exact H]; by repeat split| |done]. intros a. pose proof (HI a) as Hj.
    change (depth (set_intr j b w) a) with (depth w a). cbn. unfold insert, fn_insert. case_decide as Ha; [|done]. subst a.
    unfold depth in *. rewrite (proj1 (wi_on w H i j) Hon), Hi in *. split; [apply Hj|]. intros Hl. vm_compute in Hl. discriminate Hl.
  - destruct (cpu_tracks w j w' H HI Hs) as (w0 & Hp & T).
    split_and!; [eapply winv_same; [apply T|by eapply winv_plain_cpu]| |by rewrite <- Hh; apply T].
    eapply iinv_tracks; [exact HI|exact T|]. intros a Ha. clear T Hs. unfold plain_cpu, free_plock in Hp. unfold depth.
    destruct (cpu w j); repeat case_match; cbn in *; simplify_eq; cbn in *; unfold insert, fn_insert in *; rewrite ?decide_False in * by done; congruence.
Qed.

(** ** Correctness *)

Lemma sleeping_waits w i : winv w -> st w i = SLEEPING -> waiting (pcs w i) (st w i) = true.
Proof.
  intros H Hs. destruct (on w i) as [j|] eqn:Hon.
  - pose proof (wi_st w H i j Hon) as Hr. rewrite Hs in Hr. by destruct (pcs w i).
  - destruct (wi_parked w H i Hon) as (_ & _ & Hp). rewrite (Hp Hs), Hs. done.
Qed.

(** C14: no wakeup is lost: in every reachable state in which the condition holds,
    a process is asleep only while the thread that set the condition still holds
    the lock and its [wakeup] has not come to that process; once the lock is free
    no process sleeps although the condition holds. *)
Theorem no_lost_wakeup w i :
  runs w -> cond w = true -> st w i = SLEEPING -> exists k, lk w = Some k /\ ahead (pcs w k) i.
Proof.
  intros (H & _)%sound_runs Hc Hs. destruct (wi_wake w H i Hc (sleeping_waits w i H Hs)) as [k Hk]. exists k.
  split; [|done]. apply (wi_lk w H). by destruct (pcs w k).
Qed.

(** C26: in any interleaving of [sleep] with a lock that is not that of a process,
    [wakeup], [kill], [yield] and the schedulers of the CPUs, no check fails: no
    [acquire] of a lock that the thread holds, no [release] of one that it does not, no unmatched
    [pop_off], and no [sched] without the lock of the process, with another lock,
    in state RUNNING or with interrupts on.  A process runs on at most one CPU at a
    time, and [noff] of its CPU is the number of the locks that it holds, which is
    one when it calls [sched]. *)
Theorem sched_safe w i j :
  runs w ->
  halted w = None /\ (cpu w j = CRun i -> forall j', cpu w j' = CRun i -> j' = j) /\
  (cpu w j = CRun i -> noff (ints w j) = locks_at (pcs w i)) /\
  (cpu w j = CRun i -> pcs w i = TSched \/ pcs w i = TYieldSched ->
   plock w i = Some OSelf /\ noff (ints w j) = 1 /\ st w i <> RUNNING /\ intr_get (sstatus (ints w j)) = false).
Proof.
  intros (H & HI & Hh)%sound_runs. pose proof (HI j) as [Hn Hi]. unfold depth in *. split_and!; [done| | |].
  - intros Hj%(wi_on w H) j' Hj'%(wi_on w H). congruence.
  - intros Hj. by rewrite Hj in Hn.
  - intros Hj Hp. rewrite Hj in *. pose proof (proj2 (wi_on w H i j) Hj) as Hon.
    destruct (thread_facts w i j H Hon) as (_ & _ & Fst & _ & Fs & _).
    destruct Hp as [E|E]; rewrite E in *; (split_and!; [by apply Fs|exact Hn|by rewrite Fst|by apply Hi]).
Qed.

(** A run: process 0 goes to sleep on CPU 0 while process 1 sets the condition. *)
Module WakeDemo.
Inductive act := AThread (i j : nat) | AStart (i j : nat) (x : tpc) | ACpu (j : nat).

Definition act_step (a : act) (w : world) : option world :=
  if negb (bool_decide (halted w = None)) then None else
  match a with
  | AThread i j => if bool_decide (on w i = Some j) then thread_step i j w else None
  | AStart i j x =>
      if bool_decide (on w i = Some j) && bool_decide (pcs w i = TIdle) && bool_decide (x = TWait \/ x = TSignal)
      then Some (set_pc i x w) else None
  | ACpu j => cpu_step j w
  end.
Definition acts (l : list act) (w : world) : option world := foldl (fun o a => o ≫= act_step a) (Some w) l.

Lemma act_step_runs a w w' : runs w -> act_step a w = Some w' -> runs w'.
Proof.
  intros H Hs. unfold act_step in Hs. destruct (bool_decide_reflect (halted w = None)) as [Hh|]; [cbn [negb] in Hs|done]. destruct a as [i j|i j x|j].
  - case_bool_decide; [|done]. eapply runs_step; [done|by eapply wstep_thread].
  - repeat case_bool_decide; try done. cbn in Hs. simplify_eq. eapply runs_step; [done|]. eapply wstep_start; [done|done|done|].
    destruct_or!; by subst x.
  - eapply runs_step; [done|by eapply wstep_cpu].
Qed.

Lemma acts_runs l w w' : runs w -> acts l w = Some w' -> runs w'.
Proof.
  revert w'. induction l as [|a l IH] using rev_ind; intros w' H Hs; [by injection Hs as <-|].
  unfold acts in Hs. rewrite foldl_app in Hs. cbn in Hs. apply bind_Some in Hs as (w1 & H1 & H2).
  eapply act_step_runs; [by apply IH|done].
Qed.

Definition boot : world := {| pcs := fun _ => TForkret; st := fun i => if decide (i < 2)%nat then RUNNABLE else UNUSED;
  ch := fun _ => false; plock := fun _ => None; on := fun _ => None; cpu := fun _ => CScan 0; lk := None; cond := false;
  ints := fun _ => {| noff := 0; intena := false; sstatus := 0 |}; kept := fun _ => false; halted := None |}.

Definition trace : list act :=
  [ACpu 0; ACpu 0; AThread 0 0; ACpu 1; ACpu 1; ACpu 1; ACpu 1; AThread 1 1;
   AStart 0 0 TWait; AThread 0 0; AThread 0 0; AThread 0 0; AThread 0 0; AThread 0 0; AThread 0 0;
   AStart 1 1 TSignal; AThread 1 1; AThread 1 1].

Definition asleep : world := default boot (acts trace boot).

Lemma asleep_runs : runs asleep.
Proof.
  apply (acts_runs trace boot); [apply runs_boot|].
  - split; [|done]. intros i. split_and!; try done. cbn. case_decide; auto.
  - unfold asleep. destruct (acts trace boot) eqn:E; [done|vm_compute in E; discriminate E].
Defined.
End WakeDemo.

Lemma no_lost_wakeup_witness : exists k, lk WakeDemo.asleep = Some k /\ ahead (pcs WakeDemo.asleep k) 0.
Proof. apply (no_lost_wakeup WakeDemo.asleep 0); [apply WakeDemo.asleep_runs|by vm_compute|by vm_compute]. Defined.

Lemma sched_safe_witness :
  halted WakeDemo.asleep = None /\ plock WakeDemo.asleep 0 = Some OSelf /\ noff (ints WakeDemo.asleep 0) = 1.
Proof.
  destruct (sched_safe WakeDemo.asleep 0 0 WakeDemo.asleep_runs) as (Hh & _ & _ & H).
  destruct H as (H1 & H2 & _); [by vm_compute|left; by vm_compute|]. split; [exact Hh|]. split; [exact H1|exact H2].
Defined.
