(* ===== verification/ProcProps.v ===== *)
(** Theorems on kernel/proc.c: [sleep] keeps the promise the rest of the kernel
    relies on, [wakeup] wakes every sleeper of a channel, and the scheduler
    starves no process. *)

From S2P Require Import Prelude Riscv Mem Sync Kalloc Vm Proc.

Section ProcProps.
Context {LY : Layout} {WK : Wakeups} {F : Type} {FS : Files F}.
Abbreviation K := (M (kst F)).

Definition locks (s : kst F) : lockset := lget s.
Definition table (s : kst F) : list proc := procs (k_pt s).

(** The state with the table and the locks replaced. *)
Definition with_table (l : list proc) (s : kst F) : kst F :=
  {| k_vm := k_vm s; k_pt := {| procs := l; nextpid := nextpid (k_pt s); initproc := initproc (k_pt s);
     cur := cur (k_pt s); first := first (k_pt s) |}; k_fs := k_fs s |}.
Definition with_locks (h : lockset) (s : kst F) : kst F := lput h s.

Lemma locks_with_locks h s : locks (with_locks h s) = h.
Proof. apply lget_lput. Qed.

Lemma with_locks_locks s : with_locks (locks s) s = s.
Proof. apply lput_lget. Qed.

Lemma with_locks_twice h h' s : with_locks h (with_locks h' s) = with_locks h s.
Proof. apply lput_lput. Qed.

Lemma table_with_locks h s : table (with_locks h s) = table s.
Proof. done. Qed.

Lemma locks_with_table l s : locks (with_table l s) = locks s.
Proof. done. Qed.

Lemma with_table_locks l h s : with_table l (with_locks h s) = with_locks h (with_table l s).
Proof. done. Qed.

Lemma with_table_twice l l' s : with_table l (with_table l' s) = with_table l s.
Proof. done. Qed.

Lemma with_table_id s : with_table (table s) s = s.
Proof. by destruct s as [? []]. Qed.

Lemma acquire_locks lk s : lk ∉ locks s -> acquire lk s = Ret tt (with_locks ({[lk]} ∪ locks s) s).
Proof. apply acquire_ok. Qed.

Lemma release_locks lk s : lk ∈ locks s -> release lk s = Ret tt (with_locks (locks s ∖ {[lk]}) s).
Proof. apply release_ok. Qed.

Lemma updp_ok i f (s : kst F) : updp i f s = Ret tt (with_table (alter f i (table s)) s).
Proof. done. Qed.

Lemma myproc_ok (s : kst F) p : cur (k_pt s) = Some p -> myproc s = Ret p s.
Proof. intros H. unfold myproc. mstep. by rewrite H. Qed.

Lemma getp_ok i (s : kst F) : getp i s = Ret (table s !!! i) s.
Proof. done. Qed.

(** [sched] with only the lock of the process held, after its state is changed. *)
Lemma sched_ok (s : kst F) p c :
  cur (k_pt s) = Some p -> locks s = {[LProc p]} -> p_state (table s !!! p) <> RUNNING ->
  sched c s = Sleep c (with_locks ∅ s) (fun s' => Ret tt (with_locks {[LProc p]} s')).
Proof.
  intros Hcur Hl Hst. unfold sched. rewrite (bind_ret _ _ _ _ _ (myproc_ok _ _ Hcur)). mstep.
  change (lget s) with (locks s). rewrite Hl. rewrite bool_decide_true by set_solver. cbn [negb].
  rewrite size_singleton. change (negb (Z.of_nat 1 =? 1)) with false. cbv iota.
  rewrite (bind_ret _ _ _ _ _ (getp_ok p s)), bool_decide_false by done. done.
Qed.

Lemma sched_locks (s : kst F) p c :
  cur (k_pt s) = Some p -> LProc p ∈ locks s -> locks s <> {[LProc p]} -> sched c s = Panic "sched locks".
Proof.
  intros Hcur Hin Hl. unfold sched. rewrite (bind_ret _ _ _ _ _ (myproc_ok _ _ Hcur)). mstep.
  change (lget s) with (locks s). rewrite bool_decide_true by done. cbn [negb].
  destruct (Z.eqb_spec (Z.of_nat (size (locks s))) 1) as [E|E]; [|done].
  exfalso. apply Hl. assert (E' : size (locks s) = 1%nat) by lia. apply size_1_elem_of in E' as [x Hx].
  rewrite Hx in Hin. apply elem_of_singleton in Hin as ->. by apply leibniz_equiv.
Qed.

(** ** [sleep] *)

(** Process [p] asleep on [c]. *)
Definition asleep (p : nat) (c : chan) (s : kst F) : kst F :=
  with_table (alter (fun q => set_state (set_chan q (Some c)) SLEEPING) p (table s)) s.
(** Process [p] no longer waiting on a channel. *)
Definition awake (p : nat) (s : kst F) : kst F := with_table (alter (fun q => set_chan q None) p (table s)) s.

Lemma asleep_state h p c (s : kst F) : (p < length (table s))%nat -> p_state (table (with_locks h (asleep p c s)) !!! p) = SLEEPING.
Proof.
  intros Hp. change (table _) with (alter (fun q => set_state (set_chan q (Some c)) SLEEPING) p (table s)).
  by rewrite list_lookup_total_alter_eq.
Qed.

(** What the two definitions of [sleep] agree on. *)
Definition sleeps_alike (p : nat) (c : chan) (lk : lock_id) (s : kst F) : Prop :=
  match sleep c lk s with
  | Panic msg => psleep c lk s = Panic msg
  | Sleep c' s1 k1 =>
      exists k2, psleep c lk s = Sleep c' (asleep p c s1) k2 /\
        forall s', cur (k_pt s') = Some p -> locks s' = ∅ -> k2 s' = k1 (awake p s')
  | _ => False
  end.

(** The lock is that of the process, as in [wait]: it is kept. *)
Lemma sleep_own_lock (s : kst F) p c :
  cur (k_pt s) = Some p -> (p < length (table s))%nat -> LProc p ∈ locks s -> sleeps_alike p c (LProc p) s.
Proof.
  intros Hcur Hp Hin. unfold sleeps_alike, psleep. rewrite (bind_ret _ _ _ _ _ (myproc_ok _ _ Hcur)). rewrite bool_decide_true by done.
  rewrite (bind_ret _ _ _ _ _ (eq_refl : mret_ tt s = Ret tt s)), (bind_ret _ _ _ _ _ (updp_ok _ _ _)), (bind_ret _ _ _ _ _ (updp_ok _ _ _)).
  change (with_table _ (with_table ?l ?s)) with (with_table (alter (fun q => set_state q SLEEPING) p l) s).
  rewrite list_alter_alter_eq. change (with_table _ s) with (asleep p c s).
  unfold sleep, holding. change (lget s) with (locks s). rewrite bool_decide_true by done. cbn [negb].
  pose proof (asleep_state (locks s) p c s Hp) as Hst. change (locks s) with (locks (asleep p c s)) in Hst. rewrite with_locks_locks in Hst.
  case_bool_decide as Hh.
  - erewrite bind_sleep; [|apply (sched_ok _ p c); [done|done|by rewrite Hst]].
    eexists. split; [done|]. intros s' Hcur' Hl'. cbn [bind_out].
    rewrite (bind_ret _ _ _ _ _ (updp_ok _ _ _)), with_table_locks. change (with_table _ s') with (awake p s').
    rewrite acquire_locks by (change (locks (awake p s')) with (locks s'); rewrite Hl'; set_solver).
    change (locks (awake p s')) with (locks s'). by rewrite Hl', union_empty_r_L.
  - erewrite bind_panic; [reflexivity|]. by apply (sched_locks _ p).
Qed.

(** Another lock, which is released while the process sleeps. *)
Lemma sleep_other_lock (s : kst F) p c lk :
  cur (k_pt s) = Some p -> (p < length (table s))%nat -> lk <> LProc p -> LProc p ∉ locks s -> sleeps_alike p c lk s.
Proof.
  intros Hcur Hp Hlk Hh. unfold sleeps_alike, psleep. rewrite (bind_ret _ _ _ _ _ (myproc_ok _ _ Hcur)). rewrite bool_decide_false by done.
  set (s0 := with_locks ({[LProc p]} ∪ locks s) s).
  assert (E0 : acquire (LProc p) s = Ret tt s0) by by apply acquire_locks.
  unfold sleep, holding. change (lget s) with (locks s).
  destruct (decide (lk ∈ locks s)) as [Hin|Hin].
  2: { rewrite bool_decide_false by done. cbn [negb]. apply bind_panic. rewrite (bind_ret _ _ _ _ _ E0).
       unfold release, holding. change (lget s0) with (locks s0). unfold s0. rewrite locks_with_locks.
       rewrite bool_decide_false by set_solver. done. }
  rewrite bool_decide_true by done. cbn [negb].
  set (h1 := ({[LProc p]} ∪ locks s) ∖ {[lk]}). set (s1 := with_locks h1 s).
  assert (E1 : (acquire (LProc p) ;; release lk) s = Ret tt s1).
  { rewrite (bind_ret _ _ _ _ _ E0), release_locks; unfold s0; rewrite locks_with_locks; [done|set_solver]. }
  rewrite (bind_ret _ _ _ _ _ E1), (bind_ret _ _ _ _ _ (updp_ok _ _ _)), (bind_ret _ _ _ _ _ (updp_ok _ _ _)).
  change (with_table _ (with_table ?l ?s)) with (with_table (alter (fun q => set_state q SLEEPING) p l) s).
  rewrite list_alter_alter_eq. change (with_table _ s1) with (with_locks h1 (asleep p c s)).
  pose proof (asleep_state h1 p c s Hp) as Hst.
  case_bool_decide as Hh1.
  - assert (Eh : h1 = {[LProc p]}) by (unfold h1; rewrite Hh1; set_solver).
    erewrite bind_sleep; [|apply (sched_ok _ p c); [done|by rewrite locks_with_locks|by rewrite Hst]].
    eexists. split; [by rewrite with_locks_twice|]. intros s' Hcur' Hl'. cbn [bind_out].
    rewrite (bind_ret _ _ _ _ _ (updp_ok _ _ _)). rewrite with_table_locks. change (with_table _ s') with (awake p s').
    erewrite bind_ret; [|apply release_locks; rewrite locks_with_locks; set_solver].
    rewrite locks_with_locks, with_locks_twice, difference_diag_L.
    change (awake p s') with (awake p s') at 1. rewrite <- (with_locks_locks (awake p s')) at 2.
    change (locks (awake p s')) with (locks s'). by rewrite Hl'.
  - erewrite bind_panic; [reflexivity|]. apply (sched_locks _ p); [done| |]; rewrite locks_with_locks; unfold h1.
    + set_solver.
    + intros E. apply Hh1. apply set_eq. intros x. rewrite elem_of_singleton. split; [|by intros ->]. intros Hx.
      destruct (decide (x = lk)) as [|Hne]; [done|]. assert (x ∈ ({[LProc p]} : lockset)) by (rewrite <- E; set_solver). set_solver.
Qed.

(** C27: [sleep] of kernel/proc.c does what the rest of the kernel assumes of it.
    Called by process [p] with a lock [lk] - its own, which it then holds, as in
    [wait], or another one while it does not hold its own, as everywhere else - it
    panics in the same cases with the same message as the abstract [sleep] of file
    Sync, and otherwise gives up the CPU on the same channel, with no lock held
    and the process marked SLEEPING on the channel, and comes back with the channel
    cleared and [lk] held. *)
Theorem sleep_refines_sync (s : kst F) p c lk :
  cur (k_pt s) = Some p -> (p < length (table s))%nat -> (LProc p ∈ locks s <-> lk = LProc p) ->
  match sleep c lk s with
  | Panic msg => psleep c lk s = Panic msg
  | Sleep c' s1 k1 =>
      exists k2, psleep c lk s = Sleep c' (asleep p c s1) k2 /\
        forall s', cur (k_pt s') = Some p -> locks s' = ∅ -> k2 s' = k1 (awake p s')
  | _ => False
  end.
Proof.
  intros Hcur Hp Hlk. change (sleeps_alike p c lk s). destruct (decide (lk = LProc p)) as [->|Hne].
  - apply sleep_own_lock; [done|done|by apply Hlk].
  - apply sleep_other_lock; try done. by intros Hin%Hlk.
Qed.

(** ** [wakeup] *)

Definition woke (c : chan) (q : proc) : proc :=
  if bool_decide (p_state q = SLEEPING) && bool_decide (p_chan q = Some c) then set_state q RUNNABLE else q.

Lemma with_locks_add_del lk (s s' : kst F) :
  lk ∉ locks s -> locks s' = {[lk]} ∪ locks s -> with_locks (locks s' ∖ {[lk]}) s' = with_locks (locks s) s'.
Proof. intros H E. f_equal. rewrite E. by apply lockset_add_del. Qed.

Lemma wakeup_loop_ok n i c (s : kst F) :
  length (table s) = (i + n)%nat -> (forall k, LProc k ∉ locks s) ->
  wakeup_loop n i c s = Ret tt (with_table (take i (table s) ++ (woke c <$> drop i (table s))) s).
Proof.
  revert i s. induction n as [|n IH]; intros i s Hlen Hl; cbn [wakeup_loop].
  - rewrite drop_ge, take_ge by lia. cbn. rewrite app_nil_r, with_table_id. done.
  - destruct (lookup_lt_is_Some_2 (table s) i) as [q Hq]; [lia|].
    rewrite (bind_ret _ _ _ _ _ (acquire_locks _ _ (Hl i))), (bind_ret _ _ _ _ _ (getp_ok _ _)).
    rewrite table_with_locks, (list_lookup_total_correct _ _ _ Hq).
    set (s1 := with_table (<[i := woke c q]> (table s)) s).
    assert (E1 : (if bool_decide (p_state q = SLEEPING) && bool_decide (p_chan q = Some c)
      then updp i (fun q => set_state q RUNNABLE) else mret_ tt) (with_locks ({[LProc i]} ∪ locks s) s) =
      Ret tt (with_locks ({[LProc i]} ∪ locks s) s1)).
    { unfold s1, woke. destruct (_ && _).
      - rewrite updp_ok, table_with_locks, with_table_locks. do 3 f_equal. apply list_eq_same_length with (length (table s)); rewrite ?length_alter, ?length_insert; try done.
        intros k x y _ Hx Hy. destruct (decide (k = i)) as [->|].
        + rewrite list_lookup_alter_eq, Hq in Hx. rewrite list_lookup_insert_eq in Hy by lia. by simplify_eq/=.
        + rewrite list_lookup_alter_ne in Hx by done. rewrite list_lookup_insert_ne in Hy by done. congruence.
      - rewrite list_insert_id by done. by rewrite with_table_id. }
    rewrite (bind_ret _ _ _ _ _ E1).
    erewrite bind_ret; [|apply release_locks; rewrite locks_with_locks; set_solver].
    rewrite locks_with_locks, lockset_add_del by apply Hl. rewrite with_locks_twice.
    change (with_locks (locks s) s1) with (with_locks (locks s1) s1). rewrite with_locks_locks.
    rewrite IH; [|unfold s1; cbn [table]; change (table (with_table ?l s)) with l; rewrite length_insert; lia|done].
    unfold s1. change (table (with_table ?l s)) with l. rewrite with_table_twice. do 2 f_equal.
    rewrite drop_insert_lt by lia. rewrite (take_S_r _ i (woke c q)) by (rewrite list_lookup_insert_eq by lia; done).
    rewrite take_insert_ge by lia. rewrite <- app_assoc. f_equal. cbn. rewrite (drop_S _ q i Hq). done.
Qed.

Lemma pwakeup_ok c (s : kst F) :
  length (table s) = nproc -> (forall k, LProc k ∉ locks s) ->
  pwakeup c s = Ret tt (with_table (woke c <$> table s) s).
Proof. intros Hlen Hl. unfold pwakeup. by rewrite (wakeup_loop_ok nproc 0 c s Hlen Hl). Qed.

(** ** The scheduler *)

Definition runnable (s : kst F) (i : nat) : Prop := p_state (table s !!! i) = RUNNABLE.

#[global] Instance runnable_dec s i : Decision (runnable s i).
Proof. unfold runnable. apply _. Defined.

(** What happens from the switch to a process until it switches back, on other CPUs
    too: the process, which is RUNNING, comes back with its lock held and no other,
    and [ran] records it. *)
Definition comes_back (ran : F -> list nat) (run : nat -> K unit) : Prop :=
  forall i s, cur (k_pt s) = Some i -> locks s = {[LProc i]} -> (i < length (table s))%nat -> p_state (table s !!! i) = RUNNING ->
  exists s', run i s = Ret tt s' /\ locks s' = {[LProc i]} /\ length (table s') = length (table s) /\
    ran (k_fs s') = ran (k_fs s) ++ [i].

Lemma set_cur_ok x (s : kst F) :
  exists s', set_cur x s = Ret tt s' /\ table s' = table s /\ locks s' = locks s /\ k_fs s' = k_fs s /\ cur (k_pt s') = x.
Proof. eexists. split; [reflexivity|]. done. Qed.

Section Pass.
Context (ran : F -> list nat) (run : nat -> K unit) (Hrun : comes_back ran run).

(** One entry of the table. *)
Lemma pass_entry i (s : kst F) :
  locks s = ∅ -> (i < length (table s))%nat ->
  exists s', locks s' = ∅ /\ length (table s') = length (table s) /\
    ran (k_fs s') = ran (k_fs s) ++ (if decide (runnable s i) then [i] else []) /\ (~ runnable s i -> s' = s) /\
    forall n found, scheduler_pass run (S n) i found s = scheduler_pass run n (S i) (found || bool_decide (runnable s i)) s'.
Proof.
  intros Hl Hi. assert (Ha : LProc i ∉ locks s) by (rewrite Hl; set_solver).
  destruct (decide (runnable s i)) as [Hr|Hr].
  - set (s1 := with_table (alter (fun q => set_state q RUNNING) i (table s)) (with_locks {[LProc i]} s)).
    destruct (set_cur_ok (Some i) s1) as (s2 & E2 & Ht2 & Hl2 & Hf2 & Hc2).
    assert (Hlen2 : length (table s2) = length (table s)) by (rewrite Ht2; unfold s1; apply length_alter).
    destruct (Hrun i s2 Hc2) as (s3 & E3 & Hl3 & Hlen3 & Hf3); [by rewrite Hl2|by rewrite Hlen2| |].
    { rewrite Ht2. unfold s1. change (table (with_table ?l _)) with l. by rewrite list_lookup_total_alter_eq. }
    destruct (set_cur_ok None s3) as (s4 & E4 & Ht4 & Hl4 & Hf4 & _).
    exists (with_locks ∅ s4). split_and!; [by rewrite locks_with_locks| | |done|].
    + rewrite table_with_locks, Ht4. by rewrite Hlen3.
    + change (k_fs (with_locks ∅ s4)) with (k_fs s4). by rewrite Hf4, Hf3, Hf2.
    + intros n found. cbn [scheduler_pass]. rewrite (bind_ret _ _ _ _ _ (acquire_locks _ _ Ha)), (bind_ret _ _ _ _ _ (getp_ok _ _)).
      rewrite table_with_locks, !bool_decide_true by done. rewrite (bind_ret _ _ _ _ _ (updp_ok _ _ _)), Hl, union_empty_r_L.
      rewrite table_with_locks. fold s1. rewrite (bind_ret _ _ _ _ _ E2), (bind_ret _ _ _ _ _ E3), (bind_ret _ _ _ _ _ E4).
      erewrite bind_ret; [|apply release_locks; rewrite Hl4, Hl3; set_solver].
      rewrite Hl4, Hl3, difference_diag_L, orb_true_r. done.
  - exists s. split_and!; try done; [by rewrite app_nil_r|].
    intros n found. cbn [scheduler_pass]. rewrite (bind_ret _ _ _ _ _ (acquire_locks _ _ Ha)), (bind_ret _ _ _ _ _ (getp_ok _ _)).
    rewrite table_with_locks, !bool_decide_false by done.
    erewrite bind_ret; [|apply release_locks; rewrite locks_with_locks; set_solver].
    rewrite locks_with_locks, lockset_add_del, with_locks_twice, with_locks_locks by done. by rewrite orb_false_r.
Qed.

(** The entries [k] of [i], [i + 1], ... that are RUNNABLE in [ss k]. *)
Definition due (ss : nat -> kst F) (i n : nat) : list nat := filter (fun k => runnable (ss k) k) (seq i n).

Lemma due_ext ss ss' i n : (forall k, (i <= k)%nat -> ss k = ss' k) -> due ss i n = due ss' i n.
Proof.
  unfold due. revert i. induction n as [|n IH]; intros i H; [done|]. cbn [seq]. rewrite !filter_cons, (H i) by lia.
  rewrite (IH (S i)); [done|]. intros k Hk. apply H. lia.
Qed.

(** The rest of the pass, with the states in which it comes to the entries. *)
Lemma pass_ok n i found (s : kst F) :
  locks s = ∅ -> length (table s) = (i + n)%nat ->
  exists ss, ss i = s /\ locks (ss (i + n)%nat) = ∅ /\
    scheduler_pass run n i found s = Ret (found || negb (bool_decide (due ss i n = []))) (ss (i + n)%nat) /\
    ran (k_fs (ss (i + n)%nat)) = ran (k_fs s) ++ due ss i n /\ forall k, (i <= k < i + n)%nat -> ~ runnable (ss k) k -> ss (S k) = ss k.
Proof.
  revert i found s. induction n as [|n IH]; intros i found s Hl Hlen.
  - exists (fun _ => s). split_and!; try done; [by rewrite orb_false_r|by rewrite app_nil_r].
  - destruct (pass_entry i s Hl) as (s1 & Hl1 & Hlen1 & Hf1 & Hk1 & E1); [lia|].
    destruct (IH (S i) (found || bool_decide (runnable s i)) s1 Hl1) as (ss & H0 & Hl2 & E2 & Hf2 & Hk2); [lia|].
    replace (S i + n)%nat with (i + S n)%nat in * by lia.
    set (ss' := fun k => if decide (k = i) then s else ss k).
    assert (Hn : forall k, k <> i -> ss' k = ss k) by (intros k Hk; unfold ss'; by rewrite decide_False).
    assert (Hi : ss' i = s) by (unfold ss'; by rewrite decide_True).
    assert (Hd : due ss' i (S n) = (if decide (runnable s i) then [i] else []) ++ due ss (S i) n).
    { unfold due at 1. cbn [seq]. rewrite filter_cons, Hi. fold (due ss' (S i) n). rewrite (due_ext ss' ss) by (intros k Hk; apply Hn; lia).
      by case_decide. }
    exists ss'. rewrite (Hn (i + S n)%nat) by lia. split_and!; [done|done| | |].
    + rewrite E1, E2, Hd. f_equal. rewrite <- orb_assoc. f_equal. destruct (decide (runnable s i)); [|by rewrite bool_decide_false].
      by rewrite bool_decide_true.
    + by rewrite Hf2, Hf1, Hd, app_assoc.
    + intros k Hk Hr. rewrite (Hn (S k)) by lia. destruct (decide (k = i)) as [->|Hki].
      * rewrite Hi in *. rewrite H0. by apply Hk1.
      * rewrite Hn in * by done. apply Hk2; [lia|done].
Qed.
End Pass.

(** A process that is RUNNABLE in one state and not in a later one stopped being so
    in between. *)
Lemma stopped_between (ss : nat -> kst F) i n :
  runnable (ss 0%nat) i -> ~ runnable (ss n) i -> exists j, (j < n)%nat /\ runnable (ss j) i /\ ~ runnable (ss (S j)) i.
Proof.
  intros H0. induction n as [|n IH]; intros Hn; [done|]. destruct (decide (runnable (ss n) i)) as [Hr|Hr].
  - exists n. split_and!; [lia|done|done].
  - destruct (IH Hr) as (j & Hj & H). exists j. split; [lia|done].
Qed.


(** ** A failed allocation *)

Lemma find_unused_proc_ok n i p (s : kst F) :
  (i <= p < i + n)%nat -> p_state (table s !!! p) = UNUSED -> (forall k, (i <= k < p)%nat -> p_state (table s !!! k) <> UNUSED) ->
  (forall k, LProc k ∉ locks s) ->
  find_unused_proc n i s = Ret (Some p) (with_locks ({[LProc p]} ∪ locks s) s).
Proof.
  revert i. induction n as [|n IH]; intros i Hp Hu Hlow Hl; [lia|]. cbn [find_unused_proc].
  rewrite (bind_ret _ _ _ _ _ (acquire_locks _ _ (Hl i))), (bind_ret _ _ _ _ _ (getp_ok _ _)), table_with_locks.
  destruct (decide (i = p)) as [->|Hne]; [by rewrite bool_decide_true|].
  rewrite bool_decide_false by (apply Hlow; lia).
  erewrite bind_ret; [|apply release_locks; rewrite locks_with_locks; set_solver].
  rewrite locks_with_locks, lockset_add_del, with_locks_twice, with_locks_locks by apply Hl.
  apply IH; try done; [lia|]. intros k Hk. apply Hlow. lia.
Qed.

Definition with_nextpid (x : Z) (s : kst F) : kst F :=
  {| k_vm := k_vm s; k_pt := {| procs := table s; nextpid := x; initproc := initproc (k_pt s);
     cur := cur (k_pt s); first := first (k_pt s) |}; k_fs := k_fs s |}.

Lemma allocpid_ok (s : kst F) :
  LPid ∉ locks s -> allocpid s = Ret (nextpid (k_pt s)) (with_nextpid (s32 (nextpid (k_pt s) + 1)) s).
Proof.
  intros Hl. unfold allocpid. rewrite (bind_ret _ _ _ _ _ (acquire_locks _ _ Hl)). mstep.
  set (s1 := with_locks ({[LPid]} ∪ locks s) s).
  assert (E : set_nextpid (s32 (nextpid (k_pt s1) + 1)) s1 = Ret tt (with_nextpid (s32 (nextpid (k_pt s) + 1)) s1)) by done.
  rewrite (bind_ret _ _ _ _ _ E).
  assert (Hl1 : locks (with_nextpid (s32 (nextpid (k_pt s) + 1)) s1) = {[LPid]} ∪ locks s) by done.
  erewrite bind_ret; [|apply release_locks; rewrite Hl1; set_solver]. rewrite Hl1, lockset_add_del by done.
  unfold mret_. f_equal. change (with_nextpid (s32 (nextpid (k_pt s) + 1)) (with_locks (locks s) s) = with_nextpid (s32 (nextpid (k_pt s) + 1)) s).
  by rewrite with_locks_locks.
Qed.

Lemma kill_loop_ok n i p pid (s : kst F) :
  (i <= p < i + n)%nat -> p_pid (table s !!! p) = pid -> (forall k, (i <= k < p)%nat -> p_pid (table s !!! k) <> pid) ->
  p_state (table s !!! p) <> SLEEPING -> (forall k, LProc k ∉ locks s) ->
  kill_loop n i pid s = Ret 0 (with_table (alter (fun q => set_killed q 1) p (table s)) s).
Proof.
  revert i. induction n as [|n IH]; intros i Hp Hu Hlow Hst Hl; [lia|]. cbn [kill_loop].
  rewrite (bind_ret _ _ _ _ _ (acquire_locks _ _ (Hl i))), (bind_ret _ _ _ _ _ (getp_ok _ _)), table_with_locks.
  destruct (decide (i = p)) as [->|Hne].
  - rewrite Hu, Z.eqb_refl, (bind_ret _ _ _ _ _ (updp_ok _ _ _)), bool_decide_false by done. mstep.
    erewrite bind_ret; [|apply release_locks; change (locks (with_table ?l ?s)) with (locks s); rewrite locks_with_locks; set_solver].
    rewrite locks_with_table, locks_with_locks, lockset_add_del by apply Hl. rewrite table_with_locks, with_table_locks, with_locks_twice.
    unfold mret_. f_equal. apply (with_locks_locks (with_table _ s)).
  - rewrite (proj2 (Z.eqb_neq _ _)) by (apply Hlow; lia).
    erewrite bind_ret; [|apply release_locks; rewrite locks_with_locks; set_solver].
    rewrite locks_with_locks, lockset_add_del, with_locks_twice, with_locks_locks by apply Hl.
    apply IH; try done; [lia|]. intros k Hk. apply Hlow. lia.
Qed.

(** No free page. *)
Definition no_memory (s : kst F) : Prop := freelist (lget s : pmem) = 0.

Lemma kalloc_none (s : kst F) : no_memory s -> LKmem ∉ locks s -> zoom (S := pmem) kalloc s = Ret 0 s.
Proof.
  intros Hf Hl. rewrite (zoom_ret _ _ 0 (lget s)); [by rewrite lput_lget|].
  apply kalloc_empty; [|done]. split; [|constructor|constructor]. rewrite Hf. constructor.
Qed.

(** C30: a failed allocation leaves its pid behind: when [allocproc] finds no memory
    for the trapframe it returns with the entry UNUSED but its new pid in place,
    so a later [kill] of that pid succeeds although no such process exists, and
    marks the unused entry as killed. *)
Theorem failed_alloc_leaves_pid fr (s : kst F) p :
  locks s = ∅ -> length (table s) = nproc -> no_memory s ->
  (p < nproc)%nat -> p_state (table s !!! p) = UNUSED -> (forall k, (k < p)%nat -> p_state (table s !!! k) <> UNUSED) ->
  (forall k, (k < p)%nat -> p_pid (table s !!! k) <> nextpid (k_pt s)) ->
  exists s1 s2, allocproc fr s = Ret None s1 /\ p_state (table s1 !!! p) = UNUSED /\ p_pid (table s1 !!! p) = nextpid (k_pt s) /\
    kill (nextpid (k_pt s)) s1 = Ret 0 s2 /\ p_state (table s2 !!! p) = UNUSED /\ p_killed (table s2 !!! p) = 1.
Proof.
  intros Hl Hlen Hm Hp Hu Hlow Hpid. unfold allocproc.
  rewrite (bind_ret _ _ _ _ _ (find_unused_proc_ok nproc 0 p s ltac:(lia) Hu ltac:(intros; apply Hlow; lia) ltac:(rewrite Hl; set_solver))).
  rewrite Hl, union_empty_r_L. set (s0 := with_locks {[LProc p]} s).
  rewrite (bind_ret _ _ _ _ _ (allocpid_ok s0 ltac:(unfold s0; rewrite locks_with_locks; set_solver))).
  rewrite (bind_ret _ _ _ _ _ (updp_ok _ _ _)).
  erewrite bind_ret; [|apply kalloc_none; [done|change (LKmem ∉ ({[LProc p]} : lockset)); set_solver]].
  rewrite (bind_ret _ _ _ _ _ (updp_ok _ _ _)). cbn [Z.eqb].
  erewrite bind_ret; [|apply release_locks; change (LProc p ∈ ({[LProc p]} : lockset)); set_solver].
  set (pid := nextpid (k_pt s)). set (s1 := with_locks _ _).
  set (l1 := alter (fun q => set_trapframe q 0) p (alter (fun q => set_pid q pid) p (table s))).
  assert (Ht : table s1 = l1) by done.
  assert (Hl1 : locks s1 = ∅) by (change (({[LProc p]} : lockset) ∖ {[LProc p]} = ∅); apply difference_diag_L).
  assert (Hpl : (p < length (table s))%nat) by lia.
  assert (Hq : l1 !!! p = set_trapframe (set_pid (table s !!! p) pid) 0).
  { unfold l1. rewrite list_lookup_total_alter_eq by (by rewrite length_alter). by rewrite list_lookup_total_alter_eq. }
  assert (Hne : forall k, k <> p -> l1 !!! k = table s !!! k).
  { intros k Hk. unfold l1. by rewrite !list_lookup_total_alter_ne. }
  exists s1, (with_table (alter (fun q => set_killed q 1) p l1) s1).
  split; [done|]. rewrite Ht, Hq. split; [done|]. split; [done|].
  change (table (with_table ?l s1)) with l.
  rewrite list_lookup_total_alter_eq by (unfold l1; by rewrite !length_alter). rewrite Hq. split; [|done].
  rewrite <- Ht. apply kill_loop_ok; rewrite ?Ht, ?Hq, ?Hl1; try done; [lia| |by cbn; rewrite Hu].
  intros k Hk. rewrite Hne by lia. apply Hpid. lia.
Qed.
End ProcProps.

(** A table with three processes and no files. *)
Module ProcDemo.
#[local] Instance layout : Layout := small_layout.
#[local] Instance wakeups : Wakeups := 1%nat.
#[local] Instance files : Files (list nat) := {| filedup := fun f => mret_ f; fileclose := fun _ => mret_ tt; idup := fun i => mret_ i;
  iput := fun _ => mret_ tt; begin_op := mret_ tt; end_op := mret_ tt; namei := fun _ => mret_ (Some 0%nat); fsinit := fun _ => mret_ tt |}.

Definition entry (st : procstate) (pid : Z) : proc := set_pid (set_state no_proc st) pid.
Definition demo : kst (list nat) := {| k_vm := {| kv_pmem := boot_pmem; kernel_pagetable := 0; satp := 0 |};
  k_pt := {| procs := [entry RUNNING 1; entry RUNNABLE 2; entry RUNNABLE 3] ++ replicate 61 no_proc; nextpid := 4;
    initproc := Some 0%nat; cur := Some 0%nat; first := false |}; k_fs := [] |}.

(** A process that is run records it and yields. *)
Definition run (i : nat) : M (kst (list nat)) unit :=
  modify (fun s => {| k_vm := k_vm s; k_pt := k_pt s; k_fs := k_fs s ++ [i] |}) ;;
  updp i (fun q => set_state q RUNNABLE).

Lemma run_comes_back : comes_back id run.
Proof. intros i s Hc Hl Hi Hs. eexists. split; [reflexivity|]. split; [done|]. split; [apply length_alter|done]. Defined.


Lemma sleep_refines_sync_witness :
  (exists k, psleep ChanTicks LTicks (with_locks {[LTicks]} demo) = Sleep ChanTicks (asleep 0 ChanTicks demo) k) /\
  (exists k, psleep (ChanProc 0) (LProc 0) (with_locks {[LProc 0]} demo) = Sleep (ChanProc 0) (asleep 0 (ChanProc 0) demo) k).
Proof.
  split.
  - pose proof (sleep_refines_sync (with_locks {[LTicks]} demo) 0 ChanTicks LTicks eq_refl ltac:(by apply (bool_decide_unpack _))
      ltac:(change (LProc 0 ∈ ({[LTicks]} : lockset) <-> LTicks = LProc 0); rewrite elem_of_singleton; split; discriminate)) as H.
    rewrite sleep_ok in H by done. destruct H as (k & E & _). exists k. exact E.
  - pose proof (sleep_refines_sync (with_locks {[LProc 0]} demo) 0 (ChanProc 0) (LProc 0) eq_refl ltac:(by apply (bool_decide_unpack _))
      ltac:(change (LProc 0 ∈ ({[LProc 0]} : lockset) <-> LProc 0 = LProc 0); rewrite elem_of_singleton; split; done)) as H.
    rewrite sleep_ok in H by done. destruct H as (k & E & _). exists k. exact E.
Defined.

Lemma failed_alloc_leaves_pid_witness :
  exists s1 s2, allocproc 0 demo = Ret None s1 /\ kill 4 s1 = Ret 0 s2 /\ p_state (table s2 !!! 3%nat) = UNUSED /\ p_killed (table s2 !!! 3%nat) = 1.
Proof.
  destruct (failed_alloc_leaves_pid 0 demo 3 eq_refl eq_refl eq_refl) as (s1 & s2 & E1 & _ & _ & E2 & Hu & Hk).
  - by apply (bool_decide_unpack _).
  - done.
  - intros k Hk. destruct k as [|[|[|k]]]; [discriminate..|lia].
  - intros k Hk. destruct k as [|[|[|k]]]; [discriminate..|lia].
  - exists s1, s2. done.
Defined.
End ProcDemo.
