(* ===== verification/Syscall.v ===== *)
(** kernel/syscall.c: the arguments of system calls and their dispatch.

    The routines work on any state that has memory and a running process (class
    [Myproc]). *)

From S2P Require Import Prelude Riscv Mem Sync Kalloc Vm Proc.

(** What the system calls use of [myproc()]. *)
Class Myproc (T : Type) := {
  my_pmem :: Lens T pmem;
  my_pagetable : T -> Z;
  my_sz : T -> Z;
  my_trapframe : T -> Z }.

(** The offsets of the argument registers in [struct trapframe]. *)
Definition tf_arg (n : Z) : Z := 112 + 8 * n.
Definition tf_a7 : Z := 168.

(** How far [strlen] may have to look in a kernel buffer: one page. *)
Definition str_fuel : nat := Z.to_nat PGSIZE.

(** The system calls, and the table [syscalls] of kernel/syscall.c by number. *)
Inductive call :=
| Cfork | Cexit | Cwait | Cpipe | Cread | Ckill | Cexec | Cfstat | Cchdir | Cdup | Cgetpid | Csbrk | Csleep | Cuptime
| Copen | Cwrite | Cmknod | Cunlink | Clink | Cmkdir | Cclose.
Definition syscalls : list (option call) :=
  [None; Some Cfork; Some Cexit; Some Cwait; Some Cpipe; Some Cread; Some Ckill; Some Cexec; Some Cfstat; Some Cchdir; Some Cdup;
   Some Cgetpid; Some Csbrk; Some Csleep; Some Cuptime; Some Copen; Some Cwrite; Some Cmknod; Some Cunlink; Some Clink;
   Some Cmkdir; Some Cclose].

Section Syscall.
Context {LY : Layout} {T : Type} {MP : Myproc T}.
Abbreviation vm m := (zoom (S := pmem) m).

(** [p->trapframe->r], read and written. *)
Definition tf_get (r : Z) : M T Z := let! tf := gets my_trapframe in vm (rd64 (tf + r)).
Definition tf_set (r v : Z) : M T unit := let! tf := gets my_trapframe in vm (wr64 (tf + r) (u64 v)).

(** The value at [addr], or nothing when -1 is returned. *)
Definition fetchaddr (addr : Z) : M T (option Z) :=
  let! sz := gets my_sz in
  if (sz <=? addr) || (sz <? u64 (addr + 8)) then mret_ None
  else
    let! pt := gets my_pagetable in
    let! '(r, bs) := vm (copyin pt addr 8) in
    mret_ (if negb (r =? 0) then None else Some (le_value bs)).

(** The string at [addr] goes to the kernel buffer [buf]. *)
Definition fetchstr (addr buf max : Z) : M T Z :=
  let! pt := gets my_pagetable in
  let! '(err, bs) := vm (copyinstr pt addr max) in
  vm (put_bytes buf bs) ;;
  if err <? 0 then mret_ err
  else
    let! m := vm (gets mem) in
    match strlen str_fuel m buf with
    | Some n => mret_ (s32 n)
    | None => nofuel
    end.

Definition argraw (n : Z) : M T Z :=
  if (0 <=? n) && (n <=? 5) then tf_get (tf_arg n) else panic "argraw".
Definition argint (n : Z) : M T Z := let! x := argraw n in mret_ (s32 x).
Definition argaddr (n : Z) : M T Z := argraw n.
Definition argstr (n buf max : Z) : M T Z := let! addr := argaddr n in fetchstr addr buf max.

(** [syscall]: [run] has the functions of the table, and [complain] is the call of
    printf for a number that is not in it. *)
Context (run : call -> M T Z) (complain : Z -> M T unit).
Definition syscall : M T unit :=
  let! a7 := tf_get tf_a7 in
  let num := s32 a7 in
  match (if (0 <? num) && (num <? Z.of_nat (length syscalls)) then syscalls !!! Z.to_nat num else None) with
  | Some f => let! r := run f in tf_set (tf_arg 0) r
  | None => complain num ;; tf_set (tf_arg 0) (-1)
  end.
End Syscall.
