(* ===== verification/Trap.v ===== *)
(** kernel/trap.c and kernel/sysproc.c: traps, the clock, and the system calls on
    processes.

    The state adds to that of kernel/proc.c the control registers, the clock and
    the interrupts the PLIC has to hand out.  The handlers of devices and
    [syscall] are arguments: they are in other files.  What is printed about traps
    nobody expects is left out. *)

From S2P Require Import Prelude Riscv Mem Csr Sync Kalloc Vm Proc Syscall.

Record trapst (F : Type) := TrapSt {
  tr_k : kst F; tr_csr : csrs; tr_ticks : Z; tr_irqs : list Z; tr_done : list Z }.
Arguments TrapSt {F}.
Arguments tr_k {F}.
Arguments tr_csr {F}.
Arguments tr_ticks {F}.
Arguments tr_irqs {F}.
Arguments tr_done {F}.

#[global] Instance tr_kst {F} : Lens (trapst F) (kst F).
Proof.
  refine {| lget := tr_k; lput := fun x s => {| tr_k := x; tr_csr := tr_csr s; tr_ticks := tr_ticks s; tr_irqs := tr_irqs s; tr_done := tr_done s |} |}; lens_laws (trapst F).
Defined.
#[global] Instance tr_csrs {F} : Lens (trapst F) csrs.
Proof.
  refine {| lget := tr_csr; lput := fun x s => {| tr_k := tr_k s; tr_csr := x; tr_ticks := tr_ticks s; tr_irqs := tr_irqs s; tr_done := tr_done s |} |}; lens_laws (trapst F).
Defined.
#[global] Instance tr_held {F} : Lens (trapst F) lockset := lens_comp tr_kst kst_held.

(** The running process; a process that is not there has the fields of [no_proc]. *)
Definition running {F} (s : kst F) : proc := match cur (k_pt s) with Some p => procs (k_pt s) !!! p | None => no_proc end.
#[global] Instance kst_myproc {F} : Myproc (kst F) := {|
  my_pmem := kst_pmem; my_pagetable := fun s => p_pagetable (running s); my_sz := fun s => p_sz (running s);
  my_trapframe := fun s => p_trapframe (running s) |}.

Definition tf_kernel_satp : Z := 0.
Definition tf_kernel_sp : Z := 8.
Definition tf_kernel_trap : Z := 16.
Definition tf_kernel_hartid : Z := 32.

Section Trap.
Context {LY : Layout} {WK : Wakeups} {F : Type} {FS : Files F}.
Abbreviation T := (M (trapst F)).
Abbreviation k m := (zoom (S := kst F) m).
Abbreviation csr_ m := (zoom (S := csrs) m).

(** The addresses of [kernelvec], [uservec], [userret], [usertrap] and [forkret], and what other
    files provide. *)
Context (kernelvec uservec userret usertrap_ forkret_ : Z).
Context (syscall uartintr virtio_disk_intr : T unit).

Definition set_ticks (x : Z) : T unit :=
  modify (fun s => {| tr_k := tr_k s; tr_csr := tr_csr s; tr_ticks := x; tr_irqs := tr_irqs s; tr_done := tr_done s |}).

Definition trapinit : T unit := initlock LTicks.
Definition trapinithart : T unit := csr_ (w_stvec kernelvec).

(** ** kernel/plic.c *)

(** The claim register gives the next interrupt, 0 when there is none; writing it
    completes one. *)
Definition plic_claim : T Z :=
  let! l := gets tr_irqs in
  modify (fun s => {| tr_k := tr_k s; tr_csr := tr_csr s; tr_ticks := tr_ticks s; tr_irqs := tail l; tr_done := tr_done s |}) ;;
  mret_ (default 0 (head l)).
Definition plic_complete (irq : Z) : T unit :=
  modify (fun s => {| tr_k := tr_k s; tr_csr := tr_csr s; tr_ticks := tr_ticks s; tr_irqs := tr_irqs s;
    tr_done := irq :: tr_done s |}).

(** ** Interrupts *)

Definition clockintr : T unit :=
  acquire LTicks ;;
  let! t := gets tr_ticks in
  set_ticks (u32 (t + 1)) ;;
  k (pwakeup ChanTicks) ;;
  release LTicks.

Definition cpuid : T Z := let! x := csr_ r_tp in mret_ (s32 x).

Definition devintr : T Z :=
  let! scause := csr_ r_scause in
  if negb (Z.land scause 0x8000000000000000 =? 0) && (Z.land scause 0xff =? 9) then
    let! irq := plic_claim in
    (if irq =? UART0_IRQ then uartintr
     else if irq =? VIRTIO0_IRQ then virtio_disk_intr
     else mret_ tt) ;;
    (if negb (irq =? 0) then plic_complete irq else mret_ tt) ;;
    mret_ 1
  else if scause =? 0x8000000000000001 then
    let! id := cpuid in
    (if id =? 0 then clockintr else mret_ tt) ;;
    csr_ (let! x := r_sip in w_sip (Z.land x (Z.lnot 2))) ;;
    mret_ 2
  else mret_ 0.

(** ** Traps *)

(** [usertrapret] ends in trampoline.S: the address jumped to, and the page table it
    is given. *)
Definition usertrapret : T (Z * Z) :=
  let! p := k (let! p := myproc in getp p) in
  csr_ intr_off ;;
  csr_ (w_stvec (TRAMPOLINE + (uservec - trampoline))) ;;
  let! satp := csr_ r_satp in
  k (tf_set tf_kernel_satp satp) ;;
  k (tf_set tf_kernel_sp (p_kstack p + PGSIZE)) ;;
  k (tf_set tf_kernel_trap usertrap_) ;;
  let! tp := csr_ r_tp in
  k (tf_set tf_kernel_hartid tp) ;;
  csr_ (let! x := r_sstatus in w_sstatus (Z.lor (Z.land x (Z.lnot SSTATUS_SPP)) SSTATUS_SPIE)) ;;
  let! epc := k (tf_get tf_epc) in
  csr_ (w_sepc epc) ;;
  mret_ (TRAMPOLINE + (userret - trampoline), MAKE_SATP (p_pagetable p)).

(** A system call, an interrupt of a device, or an exception, which kills the
    process; the result is that of [devintr]. *)
Definition usertrap_cause (p : nat) : T Z :=
  let! scause := csr_ r_scause in
  if scause =? 8 then
    let! x := k (getp p) in
    (if negb (p_killed x =? 0) then k (exit (-1)) else mret_ tt) ;;
    let! epc := k (tf_get tf_epc) in
    k (tf_set tf_epc (epc + 4)) ;;
    csr_ intr_on ;;
    syscall ;;
    mret_ 0
  else
    let! which_dev := devintr in
    if negb (which_dev =? 0) then mret_ which_dev
    else k (updp p (fun q => set_killed q 1)) ;; mret_ 0.

Definition usertrap_end (p : nat) (which_dev : Z) : T (Z * Z) :=
  let! x := k (getp p) in
  (if negb (p_killed x =? 0) then k (exit (-1)) else mret_ tt) ;;
  (if which_dev =? 2 then k yield else mret_ tt) ;;
  usertrapret.

Definition usertrap : T (Z * Z) :=
  let! st := csr_ r_sstatus in
  if negb (Z.land st SSTATUS_SPP =? 0) then panic "usertrap: not from user mode"
  else
    csr_ (w_stvec kernelvec) ;;
    let! p := k myproc in
    let! epc := csr_ r_sepc in
    k (tf_set tf_epc epc) ;;
    let! which_dev := usertrap_cause p in
    usertrap_end p which_dev.

Definition kerneltrap : T unit :=
  let! sepc := csr_ r_sepc in
  let! sstatus := csr_ r_sstatus in
  if Z.land sstatus SSTATUS_SPP =? 0 then panic "kerneltrap: not from supervisor mode"
  else
    let! on := csr_ intr_get in
    if (on : bool) then panic "kerneltrap: interrupts enabled"
    else
      let! which_dev := devintr in
      if which_dev =? 0 then panic "kerneltrap"
      else
        let! c := gets (fun s => cur (k_pt (tr_k s))) in
        let! x := gets (fun s => running (tr_k s)) in
        (if (which_dev =? 2) && bool_decide (c <> None) && bool_decide (p_state x = RUNNING) then k yield else mret_ tt) ;;
        csr_ (w_sepc sepc) ;;
        csr_ (w_sstatus sstatus).

(** ** kernel/sysproc.c *)

Definition sys_exit : T Z := let! n := k (argint 0) in k (exit n) ;; mret_ 0.
Definition sys_getpid : T Z := k (let! p := myproc in let! x := getp p in mret_ (p_pid x)).
Definition sys_fork : T Z := k (fork forkret_).
Definition sys_wait : T Z := let! p := k (argaddr 0) in k (wait p).
Definition sys_sbrk : T Z :=
  let! n := k (argint 0) in
  let! x := k (let! p := myproc in getp p) in
  let addr := s32 (p_sz x) in
  let! r := k (growproc n) in
  mret_ (if r <? 0 then -1 else addr).

(** [while(ticks - ticks0 < n)]: [false] when the process has been killed. *)
Fixpoint sleep_loop (fuel : nat) (ticks0 n : Z) : T bool :=
  match fuel with
  | O => nofuel
  | S fuel' =>
      let! t := gets tr_ticks in
      if u32 (t - ticks0) <? u32 n then
        let! x := k (let! p := myproc in getp p) in
        if negb (p_killed x =? 0) then mret_ false
        else k (psleep ChanTicks LTicks) ;; sleep_loop fuel' ticks0 n
      else mret_ true
  end.
Definition sys_sleep : T Z :=
  let! n := k (argint 0) in
  acquire LTicks ;;
  let! ticks0 := gets tr_ticks in
  let! ok := sleep_loop (S max_wakeups) ticks0 n in
  release LTicks ;;
  mret_ (if (ok : bool) then 0 else -1).

Definition sys_kill : T Z := let! pid := k (argint 0) in k (kill pid).
Definition sys_uptime : T Z :=
  acquire LTicks ;;
  let! xticks := gets tr_ticks in
  release LTicks ;;
  mret_ xticks.
End Trap.
