(* ===== verification/TrapProps.v ===== *)
(** * Traps: coming from user mode and going back

    A process that is killed, or that takes an exception, does not go back to user
    mode; the way of a system call through [usertrap], and the state it leaves in;
    [sleep] waits for the clock. *)

From S2P Require Import Prelude Riscv Mem Csr Sync Kalloc Vm Proc Syscall Trap.

Section Props.
Context {LY : Layout} {WK : Wakeups} {F : Type} {FS : Files F}.
Context (kernelvec uservec userret usertrap_ forkret_ : Z).
Abbreviation T := (M (trapst F)).

(** Reading a part of the state. *)
Lemma bind_zoom_gets {S A B} `{Lens (trapst F) S} (f : S -> A) (g : A -> T B) t :
  mbind_ (zoom (gets f)) g t = g (f (lget t)) t.
Proof. unfold mbind_, zoom, gets. cbn. by rewrite lput_lget. Qed.

(** [exit] does not return. *)
Lemma exit_never st (s : kst F) : no_return (Proc.exit st s).
Proof.
  unfold Proc.exit, no_return. do 2 (apply results_then; intros ? ?). case_bool_decide; [done|].
  repeat (apply results_then; intros ? ?). done.
Qed.

(** ** Killed processes and exceptions *)

Section Killed.
Context (syscall uartintr virtio_disk_intr : T unit).
Abbreviation usertrap := (usertrap kernelvec uservec userret usertrap_ syscall uartintr virtio_disk_intr).

Abbreviation cause := (usertrap_cause syscall uartintr virtio_disk_intr).
Abbreviation ending := (usertrap_end uservec userret usertrap_).
Abbreviation proc_of p s := (procs (k_pt (tr_k s)) !!! p).

Lemma killed_end p which_dev (s : trapst F) :
  p_killed (proc_of p s) <> 0 -> no_return (ending p which_dev s).
Proof.
  intros Hk. unfold no_return, usertrap_end. erewrite bind_ret by reflexivity. cbn [tr_kst lget lput tr_k].
  rewrite (proj2 (Z.eqb_neq _ _) Hk). cbn [negb].
  apply (results_bind (fun _ _ => False)); [|done]. apply no_return_zoom, exit_never.
Qed.

(** A trap from user mode while process [p] runs. *)
Record from_user (p : nat) (s : trapst F) : Prop := {
  fu_mode : Z.land (tr_csr s Sstatus) SSTATUS_SPP = 0;
  fu_cur : cur (k_pt (tr_k s)) = Some p;
  fu_range : (p < length (procs (k_pt (tr_k s))))%nat;
}.

(** The state once the program counter is saved. *)
Definition saved (p : nat) (s : trapst F) : trapst F :=
  let k := tr_k s in
  let tf := p_trapframe (procs (k_pt k) !!! p) in
  lput (Lens := lens_comp tr_kst kst_pmem)
    (set_mem (store64 (mem (lget (Lens := kst_pmem) k)) (tf + tf_epc) (u64 (tr_csr s Sepc))) (lget (Lens := kst_pmem) k))
    (lput (Lens := tr_csrs) (<[Stvec := u64 kernelvec]> (tr_csr s)) s).

Lemma usertrap_parts p s :
  from_user p s -> usertrap s = (let! d := cause p in ending p d) (saved p s).
Proof.
  intros [Hm Hc Hr]. unfold Trap.usertrap. mstep. cbn [tr_csrs lget lput]. rewrite Hm. cbn [negb Z.eqb].
  mstep. erewrite bind_ret.
  2:{ unfold zoom, myproc. cbn. unfold mbind_, gets. cbn. rewrite Hc. reflexivity. }
  mstep. erewrite bind_ret; [|unfold tf_set; reflexivity].
  unfold saved. cbn. unfold running. rewrite Hc. done.
Qed.

(** [keeps_killed m]: whether process [p] is killed is the same before and after [m]. *)
Definition keeps_killed {A} (p : nat) (m : T A) : Prop :=
  forall s x, p_killed (proc_of p s) = x -> results (fun _ s' => p_killed (proc_of p s') = x) (m s).

Lemma keeps_killed_bind {A B} p (m : T A) (f : A -> T B) : keeps_killed p m -> (forall a, keeps_killed p (f a)) -> keeps_killed p (mbind_ m f).
Proof. intros Hm Hf s x Hx. eapply results_bind; [by apply Hm|]. intros a s' Hs. by apply Hf. Qed.

(** Steps that do not touch the table. *)
Lemma keeps_killed_step {A} p (m : T A) :
  (forall s, match m s with Ret _ s' => k_pt (tr_k s') = k_pt (tr_k s) | Panic _ | NoFuel => True | Sleep _ _ _ => False end) -> keeps_killed p m.
Proof. intros H s x Hx. specialize (H s). destruct (m s); [|done..]. cbn. by rewrite H. Qed.

Lemma keeps_killed_sync p lk : keeps_killed p (acquire lk) /\ keeps_killed p (release lk).
Proof. split; apply keeps_killed_step; intros s; [unfold acquire|unfold release]; by destruct (holding lk s). Qed.

Lemma wakeup_loop_keeps p n i c (s : kst F) x :
  p_killed (procs (k_pt s) !!! p) = x -> results (fun _ s' => p_killed (procs (k_pt s') !!! p) = x) (wakeup_loop n i c s).
Proof.
  revert i s. induction n as [|n IH]; intros i s Hx; cbn [wakeup_loop]; [done|]. unfold mbind_, acquire at 1. destruct (holding _ s); [done|].
  cbn [bind_out]. unfold getp, gets. cbn [bind_out]. destruct (_ && _); cbn -[release].
  - unfold release. destruct (holding _ _); [|done]. cbn. apply IH. cbn. destruct (decide (p = i)) as [->|Hp]; [|by rewrite list_lookup_total_alter_ne].
    rewrite list_lookup_total_alter. by case_decide.
  - unfold release. destruct (holding _ _); [|done]. cbn. by apply IH.
Qed.

Lemma clockintr_keeps p : keeps_killed p clockintr.
Proof.
  repeat (apply keeps_killed_bind; [|intros ?]); try (apply keeps_killed_sync || by apply keeps_killed_step).
  intros s x Hx. apply results_zoom. intros t. by apply wakeup_loop_keeps.
Qed.

Lemma usertrapret_keeps p : keeps_killed p (usertrapret uservec userret usertrap_).
Proof.
  repeat (apply keeps_killed_bind; [|intros ?]); try by apply keeps_killed_step.
  apply keeps_killed_step. intros s. unfold zoom, mbind_, myproc, gets. cbn. by destruct (cur (k_pt (tr_k s))).
Qed.

(** Without a timer interrupt the process does not yield between the check and the
    return. *)
Lemma ending_alive p which_dev (s : trapst F) :
  which_dev <> 2 -> results (fun _ s' => p_killed (proc_of p s') = 0) (ending p which_dev s).
Proof.
  intros H2. destruct (decide (p_killed (proc_of p s) = 0)) as [Hk|Hk].
  - unfold usertrap_end, getp. rewrite bind_zoom_gets. cbn [lget tr_kst]. rewrite Hk, (proj2 (Z.eqb_neq _ _) H2). cbn [Z.eqb negb]. do 2 mstep.
    by apply usertrapret_keeps.
  - eapply results_mono; [by apply killed_end|done].
Qed.

(** What [usertrap_cause] returns. *)
Lemma cause_not_timer p s :
  tr_csr s Scause <> 0x8000000000000001 -> results (fun d _ => d <> 2) (cause p (saved p s)).
Proof.
  intros Ht. unfold usertrap_cause, r_scause, csrr. rewrite bind_zoom_gets. cbn [lget tr_csrs].
  change (tr_csr (saved p s) Scause) with (tr_csr s Scause). case_match.
  - do 6 (apply results_then; intros ? ?). done.
  - unfold devintr, r_scause, csrr. apply (results_bind (fun d _ => d <> 2)).
    + rewrite bind_zoom_gets. cbn [lget tr_csrs]. change (tr_csr (saved p s) Scause) with (tr_csr s Scause).
      rewrite (proj2 (Z.eqb_neq _ _) Ht). case_match; [|done]. do 3 (apply results_then; intros ? ?). done.
    + intros d s' Hd. case_match; [done|]. apply results_then. intros ? ?. done.
Qed.

Lemma timer_keeps p s :
  tr_csr s Scause = 0x8000000000000001 -> p_killed (proc_of p s) <> 0 ->
  results (fun _ s' => p_killed (proc_of p s') <> 0) (cause p (saved p s)).
Proof.
  intros Ht Hk. unfold usertrap_cause, devintr, r_scause, csrr. rewrite bind_zoom_gets. cbn [lget tr_csrs].
  change (tr_csr (saved p s) Scause) with (tr_csr s Scause). rewrite Ht. cbn [Z.eqb Pos.eqb].
  eapply (results_bind (fun d s' => d = 2 /\ p_killed (proc_of p s') <> 0)); [|intros d s' [-> H]; exact H].
  rewrite bind_zoom_gets. cbn [lget tr_csrs]. change (tr_csr (saved p s) Scause) with (tr_csr s Scause). rewrite Ht.
  change (negb (Z.land 0x8000000000000001 0x8000000000000000 =? 0) && (Z.land 0x8000000000000001 0xff =? 9)) with false. cbn [Z.eqb Pos.eqb].
  unfold cpuid. mstep.
  apply (results_bind (fun _ s' => p_killed (proc_of p s') <> 0)).
  - destruct (_ =? 0); [|exact Hk]. apply (results_mono (fun _ s' => p_killed (proc_of p s') = p_killed (proc_of p s))); [by apply clockintr_keeps|]. intros u s' E. by rewrite E.
  - intros _ s' H. mstep. done.
Qed.

End Killed.

(** ** The clock *)

(** The process that runs has been killed. *)
Definition is_killed (s : trapst F) : Prop := p_killed (running (tr_k s)) <> 0.

Lemma sleep_loop_results fuel t0 n s :
  results (fun (ok : bool) s' => if ok then u32 n <= u32 (tr_ticks s' - t0) else is_killed s')
    (sleep_loop fuel t0 n s).
Proof.
  revert s. induction fuel as [|fuel IH]; intros s; cbn [sleep_loop]; [done|].
  mstep. destruct (Z.ltb_spec (u32 (tr_ticks s - t0)) (u32 n)); [|done].
  apply (results_bind (fun x s' => x = running (tr_k s'))).
  - unfold zoom, myproc, mbind_, gets, running. cbn. destruct (cur (k_pt (tr_k s))) eqn:E; cbn; [by rewrite E | done].
  - intros x s' ->. destruct (Z.eqb_spec (p_killed (running (tr_k s'))) 0); cbn [negb]; [|done].
    apply results_then. intros _ s2. apply IH.
Qed.

(** C21: [sleep(n)] returns 0 only once the clock has advanced by [n] ticks from what it
    was when the call began, and -1 only when the process has been killed, whatever the
    other processes and the clock do while it sleeps.  Both differences are taken
    modulo 2^32, as the code does: a negative [n] waits for about 2^32 ticks. *)
Theorem sys_sleep_waits s :
  let n := s32 (load64 (mem (lget (Lens := kst_pmem) (tr_k s))) (p_trapframe (running (tr_k s)) + tf_arg 0)) in
  results (fun r s' => (r = 0 /\ u32 n <= u32 (tr_ticks s' - tr_ticks s)) \/ (r = -1 /\ is_killed s'))
    (sys_sleep (F := F) s).
Proof.
  intros n. unfold sys_sleep. erewrite bind_ret; [|reflexivity]. fold n.
  apply (results_bind (fun _ s' => tr_ticks s' = tr_ticks s)).
  { unfold acquire. by destruct (holding _ _). }
  intros _ s1 E1. mstep. rewrite E1.
  eapply results_bind; [apply sleep_loop_results|]. intros ok s2 Hok.
  unfold mbind_, release. destruct (holding _ _); [|done]. cbn. destruct ok; [left; done | right; done].
Qed.

(** ** A system call *)

Section Call.
Context (uartintr virtio_disk_intr : T unit).
Context (run : Syscall.call -> M (kst F) Z) (complain : Z -> M (kst F) unit).
Abbreviation usertrap := (usertrap kernelvec uservec userret usertrap_
  (zoom (Syscall.syscall run complain)) uartintr virtio_disk_intr).

Definition kmem (k : kst F) : memory := mem (lget (Lens := kst_pmem) k).
Definition set_kmem (m : memory) (k : kst F) : kst F :=
  lput (Lens := kst_pmem) (set_mem m (lget (Lens := kst_pmem) k)) k.

Lemma tf_get_ok p (k : kst F) r :
  cur (k_pt k) = Some p ->
  tf_get r k = Ret (load64 (kmem k) (p_trapframe (procs (k_pt k) !!! p) + r)) k.
Proof. intros Hc. unfold tf_get, mbind_, gets. cbn. unfold running. rewrite Hc. by destruct k as [[[? ? ?] ? ?] ? ?]. Qed.

Lemma tf_set_ok p (k : kst F) r v :
  cur (k_pt k) = Some p ->
  tf_set r v k = Ret tt (set_kmem (store64 (kmem k) (p_trapframe (procs (k_pt k) !!! p) + r) (u64 v)) k).
Proof. intros Hc. unfold tf_set, mbind_, gets. cbn. unfold running. by rewrite Hc. Qed.

Lemma zoom_kst {A} (m : M (kst F) A) (t : trapst F) a k' :
  m (tr_k t) = Ret a k' -> zoom m t = Ret a (lput k' t).
Proof. exact (zoom_ret (H := tr_kst) m t a k'). Qed.

Lemma zoom_csr {A} (m : M csrs A) (t : trapst F) a c' :
  m (tr_csr t) = Ret a c' -> zoom m t = Ret a (lput c' t).
Proof. exact (zoom_ret (H := tr_csrs) m t a c'). Qed.

Lemma sret_bits x :
  let y := u64 (Z.lor (Z.land x (Z.lnot SSTATUS_SPP)) SSTATUS_SPIE) in
  Z.testbit y 8 = false /\ Z.testbit y 5 = true.
Proof.
  unfold u64, SSTATUS_SPP, SSTATUS_SPIE. cbv zeta.
  rewrite !Z.mod_pow2_bits_low by lia. rewrite !Z.lor_spec, !Z.land_spec, !Z.lnot_spec by lia.
  split; [by rewrite andb_false_r | by rewrite orb_true_r].
Qed.

(** The state in which [usertrapret] jumps to the trampoline. *)
Definition leaving_mem (p : nat) (s : trapst F) : memory :=
  let x := procs (k_pt (tr_k s)) !!! p in
  let tf := p_trapframe x in
  store64 (store64 (store64 (store64 (kmem (tr_k s)) (tf + tf_kernel_satp) (u64 (tr_csr s Satp)))
    (tf + tf_kernel_sp) (u64 (p_kstack x + PGSIZE))) (tf + tf_kernel_trap) (u64 usertrap_))
    (tf + tf_kernel_hartid) (u64 (tr_csr s Tp)).
Definition leaving_csr (p : nat) (s : trapst F) : csrs :=
  let off := u64 (Z.land (tr_csr s Sstatus) (Z.lnot SSTATUS_SIE)) in
  <[Sepc := u64 (load64 (leaving_mem p s) (p_trapframe (procs (k_pt (tr_k s)) !!! p) + tf_epc))]>
    (<[Sstatus := u64 (Z.lor (Z.land off (Z.lnot SSTATUS_SPP)) SSTATUS_SPIE)]>
       (<[Stvec := u64 (TRAMPOLINE + (uservec - trampoline))]> (<[Sstatus := off]> (tr_csr s)))).
Definition leaving (p : nat) (s : trapst F) : trapst F :=
  lput (Lens := tr_csrs) (leaving_csr p s) (lput (Lens := tr_kst) (set_kmem (leaving_mem p s) (tr_k s)) s).

Lemma usertrapret_eq p (s : trapst F) :
  cur (k_pt (tr_k s)) = Some p ->
  usertrapret uservec userret usertrap_ s
  = Ret (TRAMPOLINE + (userret - trampoline), MAKE_SATP (p_pagetable (procs (k_pt (tr_k s)) !!! p))) (leaving p s).
Proof.
  intros Hc. unfold usertrapret.
  erewrite bind_ret; [|apply zoom_kst; unfold mbind_, myproc, gets; cbn; rewrite Hc; reflexivity].
  do 2 mstep. unfold r_satp, r_tp, csrr. rewrite bind_zoom_gets.
  erewrite bind_ret by (apply zoom_kst, (tf_set_ok p); exact Hc).
  erewrite bind_ret by (apply zoom_kst, (tf_set_ok p); exact Hc).
  erewrite bind_ret by (apply zoom_kst, (tf_set_ok p); exact Hc).
  rewrite bind_zoom_gets.
  erewrite bind_ret by (apply zoom_kst, (tf_set_ok p); exact Hc).
  mstep. erewrite bind_ret by (apply zoom_kst, (tf_get_ok p); exact Hc).
  mstep. reflexivity.
Qed.

(** Only the four words are written. *)
Lemma leaving_mem_out p s a :
  let tf := p_trapframe (procs (k_pt (tr_k s)) !!! p) in
  a + 8 <= tf \/ a = tf + tf_epc \/ tf + 40 <= a -> load64 (leaving_mem p s) a = load64 (kmem (tr_k s)) a.
Proof.
  intros tf Ha. unfold leaving_mem. fold tf. unfold tf_kernel_satp, tf_kernel_sp, tf_kernel_trap, tf_kernel_hartid, tf_epc in *.
  by rewrite !load64_store64_ne by lia.
Qed.

(** The state in which the function of a system call runs: the program counter is saved
    and moved past the [ecall], and interrupts are on. *)
Definition called (p : nat) (s : trapst F) : trapst F :=
  let s1 := saved p s in
  let tf := p_trapframe (procs (k_pt (tr_k s)) !!! p) in
  let k1 := set_kmem (store64 (kmem (tr_k s1)) (tf + tf_epc) (u64 (u64 (tr_csr s Sepc) + 4))) (tr_k s1) in
  lput (Lens := tr_csrs) (<[Sstatus := u64 (Z.lor (tr_csr s Sstatus) SSTATUS_SIE)]> (tr_csr s1)) (lput (Lens := tr_kst) k1 s1).

Lemma u64_idem x : u64 (u64 x) = u64 x.
Proof. apply u64_small, u64_range. Qed.

Lemma saved_epc p s :
  load64 (kmem (tr_k (saved p s))) (p_trapframe (procs (k_pt (tr_k s)) !!! p) + tf_epc) = u64 (tr_csr s Sepc).
Proof. etransitivity; [apply load64_store64_eq | apply u64_idem]. Qed.

(** What the function finds. *)
Lemma called_facts p s :
  let tf := p_trapframe (procs (k_pt (tr_k s)) !!! p) in
  k_pt (tr_k (called p s)) = k_pt (tr_k s) /\ Z.testbit (tr_csr (called p s) Sstatus) 1 = true /\
  load64 (kmem (tr_k (called p s))) (tf + tf_epc) = u64 (tr_csr s Sepc + 4) /\
  forall o, 32 <= o -> load64 (kmem (tr_k (called p s))) (tf + o) = load64 (kmem (tr_k s)) (tf + o).
Proof.
  intros tf. split_and!; [reflexivity| | |].
  - change (Z.testbit (u64 (Z.lor (tr_csr s Sstatus) SSTATUS_SIE)) 1 = true).
    unfold u64. rewrite Z.mod_pow2_bits_low, Z.lor_spec by lia. by rewrite orb_true_r.
  - etransitivity; [apply load64_store64_eq|]. rewrite u64_idem. unfold u64. by rewrite Zplus_mod_idemp_l.
  - intros o Ho.
    change (load64 (store64 (store64 (kmem (tr_k s)) (tf + tf_epc) (u64 (tr_csr s Sepc))) (tf + tf_epc) (u64 (u64 (tr_csr s Sepc) + 4))) (tf + o)
      = load64 (kmem (tr_k s)) (tf + o)).
    by rewrite !load64_store64_ne by (unfold tf_epc; lia).
Qed.

Lemma cause_syscall p s r k2 :
  from_user p s -> tr_csr s Scause = 8 -> p_killed (procs (k_pt (tr_k s)) !!! p) = 0 ->
  Syscall.syscall run complain (tr_k (called p s)) = Ret r k2 ->
  usertrap_cause (zoom (Syscall.syscall run complain)) uartintr virtio_disk_intr p (saved p s)
  = Ret 0 (lput (Lens := tr_kst) k2 (called p s)).
Proof.
  intros [Hm Hc Hr] E8 Hk ES. unfold usertrap_cause, r_scause, csrr. rewrite bind_zoom_gets.
  cbn [lget tr_csrs]. change (tr_csr (saved p s) Scause) with (tr_csr s Scause). rewrite E8. cbn [Z.eqb Pos.eqb].
  unfold getp. rewrite bind_zoom_gets. cbn [lget tr_kst].
  change (procs (k_pt (tr_k (saved p s)))) with (procs (k_pt (tr_k s))). rewrite Hk. cbn [Z.eqb negb]. mstep.
  erewrite bind_ret by (apply zoom_kst, (tf_get_ok p); exact Hc).
  replace (load64 (kmem (tr_k (saved p s))) (p_trapframe (procs (k_pt (tr_k (saved p s))) !!! p) + tf_epc))
    with (u64 (tr_csr s Sepc)) by (symmetry; exact (saved_epc p s)).
  erewrite bind_ret by (apply zoom_kst, (tf_set_ok p); exact Hc).
  mstep. erewrite bind_ret; [reflexivity|]. exact (zoom_kst _ (called p s) _ _ ES).
Qed.

(** The function of a system call, for a number of the table. *)
Lemma syscall_runs p (k k2 : kst F) f r :
  let tf := p_trapframe (procs (k_pt k) !!! p) in
  let num := s32 (load64 (kmem k) (tf + tf_a7)) in
  cur (k_pt k) = Some p -> 0 < num < Z.of_nat (length syscalls) -> syscalls !!! Z.to_nat num = Some f ->
  run f k = Ret r k2 -> cur (k_pt k2) = Some p ->
  Syscall.syscall run complain k = Ret tt (set_kmem (store64 (kmem k2) (p_trapframe (procs (k_pt k2) !!! p) + tf_arg 0) (u64 r)) k2).
Proof.
  intros tf num Hc Hn Hf Hr Hc2. unfold Syscall.syscall. rewrite (bind_ret _ _ _ _ _ (tf_get_ok p k _ Hc)). fold tf num.
  rewrite (proj2 (Z.ltb_lt 0 num)), (proj2 (Z.ltb_lt num _)) by lia. cbn [andb]. rewrite Hf.
  rewrite (bind_ret _ _ _ _ _ Hr). by apply tf_set_ok.
Qed.

(** The way of a system call by a process that is not killed: the function that
    register a7 selects runs with the state [called p s], and its result is stored. *)
Lemma usertrap_syscall p s f r k2 :
  let x := procs (k_pt (tr_k s)) !!! p in
  let num := s32 (load64 (kmem (tr_k s)) (p_trapframe x + tf_a7)) in
  from_user p s -> tr_csr s Scause = 8 -> p_killed x = 0 ->
  0 < num < Z.of_nat (length syscalls) -> syscalls !!! Z.to_nat num = Some f ->
  run f (tr_k (called p s)) = Ret r k2 ->
  let x2 := procs (k_pt k2) !!! p in
  cur (k_pt k2) = Some p -> p_killed x2 = 0 ->
  usertrap s = Ret (TRAMPOLINE + (userret - trampoline), MAKE_SATP (p_pagetable x2))
    (leaving p (lput (Lens := tr_kst) (set_kmem (store64 (kmem k2) (p_trapframe x2 + tf_arg 0) (u64 r)) k2) (called p s))).
Proof.
  intros x num HF E8 Hk Hn Hf Hr x2 Hc2 Hk2. destruct (called_facts p s) as (Ept & Hsie & Hepc & Ho).
  rewrite (usertrap_parts _ _ _ _ _ HF).
  assert (Syscall.syscall run complain (tr_k (called p s)) = Ret tt (set_kmem (store64 (kmem k2) (p_trapframe x2 + tf_arg 0) (u64 r)) k2)) as ES.
  { apply (syscall_runs p _ _ f r); rewrite ?Ept; try done; [apply HF| |]; rewrite (Ho tf_a7) by (unfold tf_a7; lia); done. }
  rewrite (bind_ret _ _ _ _ _ (cause_syscall p s _ _ HF E8 Hk ES)).
  unfold usertrap_end, getp. rewrite bind_zoom_gets. cbn [lget tr_kst lput tr_k].
  change (procs (k_pt (set_kmem (store64 (kmem k2) (p_trapframe x2 + tf_arg 0) (u64 r)) k2)) !!! p) with x2.
  rewrite Hk2. cbn [Z.eqb negb]. do 2 mstep. by apply usertrapret_eq.
Qed.
End Call.
End Props.

(** ** A process traps *)
Module TrapDemo.
#[local] Instance layout : Layout := small_layout.
#[local] Instance wakeups : Wakeups := 1%nat.
#[local] Instance files : Files unit := {| filedup := fun f => mret_ f; fileclose := fun _ => mret_ tt; idup := fun i => mret_ i;
  iput := fun _ => mret_ tt; begin_op := mret_ tt; end_op := mret_ tt; namei := fun _ => mret_ (Some 0%nat); fsinit := fun _ => mret_ tt |}.

Definition tf : Z := KERNBASE + 64 * PGSIZE.
(** Process 0 runs; register a7 asks for getpid. *)
Definition demo_kst : kst unit := {| k_vm := {| kv_pmem := PMem (store64 ∅ (tf + tf_a7) 11) 0 ∅; kernel_pagetable := 0; satp := 0 |};
  k_pt := {| procs := [set_trapframe (set_pid (set_state no_proc RUNNING) 7) tf]; nextpid := 8; initproc := None;
    cur := Some 0%nat; first := false |}; k_fs := tt |}.
Definition demo (cause : Z) : trapst unit := {| tr_k := demo_kst;
  tr_csr := fun r => match r with Scause => cause | Sepc => 0x1000 | _ => 0 end; tr_ticks := 0; tr_irqs := []; tr_done := [] |}.

Lemma demo_from_user c : from_user 0 (demo c).
Proof. by split; [|cbn|cbn; lia]. Qed.

(** A page fault; a system call that kills its caller, as [kill] with its own pid does;
    and one of a process that is not killed. *)
Definition suicide : M (trapst unit) unit := zoom (S := kst unit) (updp 0 (fun q => set_killed q 1)).


End TrapDemo.
