(* ===== verification/Asm.v ===== *)
(** The assembly of the kernel: kernel/trampoline.S, kernel/swtch.S,
    kernel/kernelvec.S and kernel/entry.S.

    First the part of a RISC-V hart that they use: registers, control and status
    registers, the translation of addresses by the page table in [satp], traps and
    the return from them.  [step] executes one instruction, and is [None] where the
    hart would take an exception other than a system call.  The program is the
    function [code], which gives the instruction at a physical address and its
    length.  The accessed and dirty bits of page-table entries are not modelled. *)

From S2P Require Import Prelude Riscv Mem Csr Sync Kalloc Vm.

(** ** Registers and instructions *)

Inductive reg :=
| zero | ra | sp | gp | tp | t0 | t1 | t2 | s0 | s1 | a0 | a1 | a2 | a3 | a4 | a5 | a6 | a7
| s2 | s3 | s4 | s5 | s6 | s7 | s8 | s9 | s10 | s11 | t3 | t4 | t5 | t6.
#[global] Instance reg_eq_dec : EqDecision reg.
Proof. solve_decision. Defined.

(** [Sd r o b] is [sd r, o(b)]; a symbol is its address. *)
Inductive instr :=
| Sd (r : reg) (o : Z) (b : reg) | Ld (r : reg) (o : Z) (b : reg)
| Csrrw (rd : reg) (c : csr) (rs : reg) | Csrr (rd : reg) (c : csr) | Csrw (c : csr) (rs : reg)
| Addi (rd rs : reg) (imm : Z) | Add (rd x y : reg) | Mul (rd x y : reg) | Li (rd : reg) (imm : Z) | La (rd : reg) (sym : Z)
| Sfence_vma | Jr (r : reg) | Ret_ | Call (sym : Z) | J (sym : Z) | Ecall | Sret | Mret.

Inductive mode := User | Supervisor | Machine.
#[global] Instance mode_eq_dec : EqDecision mode.
Proof. solve_decision. Defined.

Record mach := Mach { c_regs : reg -> Z; c_csr : csrs; c_mem : memory; c_pc : Z; c_mode : mode }.

Definition get (m : mach) (r : reg) : Z := if decide (r = zero) then 0 else c_regs m r.
Definition set_reg (r : reg) (v : Z) (m : mach) : mach :=
  {| c_regs := <[r := u64 v]> (c_regs m); c_csr := c_csr m; c_mem := c_mem m; c_pc := c_pc m; c_mode := c_mode m |}.
Definition set_csr (c : csr) (v : Z) (m : mach) : mach :=
  {| c_regs := c_regs m; c_csr := <[c := u64 v]> (c_csr m); c_mem := c_mem m; c_pc := c_pc m; c_mode := c_mode m |}.
Definition set_cmem (x : memory) (m : mach) : mach :=
  {| c_regs := c_regs m; c_csr := c_csr m; c_mem := x; c_pc := c_pc m; c_mode := c_mode m |}.
Definition set_pc (x : Z) (m : mach) : mach :=
  {| c_regs := c_regs m; c_csr := c_csr m; c_mem := c_mem m; c_pc := x; c_mode := c_mode m |}.
Definition set_mode (x : mode) (m : mach) : mach :=
  {| c_regs := c_regs m; c_csr := c_csr m; c_mem := c_mem m; c_pc := c_pc m; c_mode := x |}.

(** ** Sv39 *)

Inductive access := Fetch | Load | Store.

Definition has (v bits : Z) : bool := negb (Z.land v bits =? 0).

(** Whether entry [v] lets code in mode [md] make the access; supervisor code may
    not use the pages of user code. *)
Definition permits (acc : access) (md : mode) (v : Z) : bool :=
  match acc with Fetch => has v PTE_X | Load => has v PTE_R | Store => has v PTE_W && has v PTE_R end &&
  match md with User => has v PTE_U | _ => negb (has v PTE_U) end.

(** The leaf entry for [va], below a page [table] at [level], and the size of what it
    maps. *)
Fixpoint page_walk (m : memory) (level : nat) (table va : Z) : option (Z * Z) :=
  let v := load64 m (table + 8 * PX (Z.of_nat level) va) in
  if negb (valid v) then None
  else if has v (Z.lor (Z.lor PTE_R PTE_W) PTE_X) then Some (v, 2 ^ (12 + 9 * Z.of_nat level))
  else match level with O => None | S level' => page_walk m level' (PTE2PA v) va end.

Definition translate (acc : access) (md : mode) (satp : Z) (m : memory) (va : Z) : option Z :=
  if bool_decide (md = Machine) || (Z.shiftr satp 60 =? 0) then Some va
  else if negb ((0 <=? va) && (va <? MAXVA)) then None
  else
    match page_walk m 2 (Z.shiftl (Z.land satp (2 ^ 44 - 1)) 12) va with
    | Some (v, size) => if permits acc md v && (PTE2PA v mod size =? 0) then Some (PTE2PA v + va mod size) else None
    | None => None
    end.

Definition mtranslate (acc : access) (m : mach) (va : Z) : option Z := translate acc (c_mode m) (c_csr m Satp) (c_mem m) va.

(** ** Traps *)

Definition put_bit (i : Z) (b : bool) (x : Z) : Z := if b then Z.setbit x i else Z.clearbit x i.

(** Bits 8, 5 and 1 of [sstatus] are SPP, SPIE and SIE. *)
Definition trap (cause : Z) (m : mach) : mach :=
  let st := c_csr m Sstatus in
  set_mode Supervisor (set_pc (c_csr m Stvec) (set_csr Scause cause (set_csr Sepc (c_pc m)
    (set_csr Sstatus (put_bit 8 (negb (bool_decide (c_mode m = User))) (put_bit 5 (Z.testbit st 1) (put_bit 1 false st))) m)))).

Definition sret (m : mach) : mach :=
  let st := c_csr m Sstatus in
  set_mode (if Z.testbit st 8 then Supervisor else User) (set_pc (c_csr m Sepc)
    (set_csr Sstatus (put_bit 8 false (put_bit 5 true (put_bit 1 (Z.testbit st 5) st))) m)).

(** Bits 12 and 11 of [mstatus] are MPP, 7 and 3 MPIE and MIE. *)
Definition mret_instr (m : mach) : mach :=
  let st := c_csr m Mstatus in
  set_mode (if Z.testbit st 11 then (if Z.testbit st 12 then Machine else Supervisor) else User) (set_pc (c_csr m Mepc)
    (set_csr Mstatus (put_bit 12 false (put_bit 11 false (put_bit 7 true (put_bit 3 (Z.testbit st 7) st)))) m)).

(** ** One instruction *)

Definition of_machine (c : csr) : bool :=
  match c with Mhartid | Mstatus | Mepc | Mie | Medeleg | Mideleg | Mtvec | Mscratch => true | _ => false end.
Definition may (c : csr) (m : mach) : bool :=
  match c_mode m with User => false | Supervisor => negb (of_machine c) | Machine => true end.

Definition addressed (acc : access) (m : mach) (a : Z) : option Z := if a mod 8 =? 0 then mtranslate acc m a else None.

(** [m] has the program counter after the instruction, [at_] is that of the instruction. *)
Definition exec (i : instr) (at_ : Z) (m : mach) : option mach :=
  match i with
  | Sd r o b => match addressed Store m (u64 (get m b + o)) with Some a => Some (set_cmem (store64 (c_mem m) a (get m r)) m) | None => None end
  | Ld r o b => match addressed Load m (u64 (get m b + o)) with Some a => Some (set_reg r (load64 (c_mem m) a) m) | None => None end
  | Csrrw rd c rs => if may c m then Some (set_reg rd (c_csr m c) (set_csr c (get m rs) m)) else None
  | Csrr rd c => if may c m then Some (set_reg rd (c_csr m c) m) else None
  | Csrw c rs => if may c m then Some (set_csr c (get m rs) m) else None
  | Addi rd rs imm => Some (set_reg rd (get m rs + imm) m)
  | Add rd x y => Some (set_reg rd (get m x + get m y) m)
  | Mul rd x y => Some (set_reg rd (get m x * get m y) m)
  | Li rd imm => Some (set_reg rd imm m)
  | La rd sym => Some (set_reg rd sym m)
  | Sfence_vma => if bool_decide (c_mode m = User) then None else Some m
  | Jr r => Some (set_pc (get m r) m)
  | Ret_ => Some (set_pc (get m ra) m)
  | Call sym => Some (set_pc sym (set_reg ra (c_pc m) m))
  | J sym => Some (set_pc sym m)
  | Ecall => if bool_decide (c_mode m = User) then Some (trap 8 (set_pc at_ m)) else None
  | Sret => if bool_decide (c_mode m = User) then None else Some (sret m)
  | Mret => if bool_decide (c_mode m = Machine) then Some (mret_instr m) else None
  end.

Section Machine.
Context (code : Z -> option (instr * Z)).

Definition fetch (m : mach) : option (instr * Z) :=
  match mtranslate Fetch m (c_pc m) with Some a => code a | None => None end.
Definition step (m : mach) : option mach :=
  match fetch m with Some (i, n) => exec i (c_pc m) (set_pc (c_pc m + n) m) | None => None end.
Fixpoint steps (n : nat) (m : mach) : option mach :=
  match n with O => Some m | S n' => match step m with Some m' => steps n' m' | None => None end end.

(** The instructions [prog] lie from [a] to [stop]. *)
Fixpoint placed (prog : list instr) (a stop : Z) : Prop :=
  match prog with
  | [] => a = stop
  | i :: prog' => exists n, code a = Some (i, n) /\ 0 < n /\ placed prog' (a + n) stop
  end.
End Machine.

(** ** kernel/trampoline.S *)

Definition uservec : list instr := [
  Csrrw a0 Sscratch a0;
  Sd ra 40 a0; Sd sp 48 a0; Sd gp 56 a0; Sd tp 64 a0; Sd t0 72 a0; Sd t1 80 a0; Sd t2 88 a0; Sd s0 96 a0; Sd s1 104 a0;
  Sd a1 120 a0; Sd a2 128 a0; Sd a3 136 a0; Sd a4 144 a0; Sd a5 152 a0; Sd a6 160 a0; Sd a7 168 a0;
  Sd s2 176 a0; Sd s3 184 a0; Sd s4 192 a0; Sd s5 200 a0; Sd s6 208 a0; Sd s7 216 a0; Sd s8 224 a0; Sd s9 232 a0;
  Sd s10 240 a0; Sd s11 248 a0; Sd t3 256 a0; Sd t4 264 a0; Sd t5 272 a0; Sd t6 280 a0;
  Csrr t0 Sscratch;
  Sd t0 112 a0;
  Ld sp 8 a0;
  Ld tp 32 a0;
  Ld t0 16 a0;
  Ld t1 0 a0;
  Csrw Satp t1;
  Sfence_vma;
  Jr t0].

Definition userret : list instr := [
  Csrw Satp a1;
  Sfence_vma;
  Ld t0 112 a0;
  Csrw Sscratch t0;
  Ld ra 40 a0; Ld sp 48 a0; Ld gp 56 a0; Ld tp 64 a0; Ld t0 72 a0; Ld t1 80 a0; Ld t2 88 a0; Ld s0 96 a0; Ld s1 104 a0;
  Ld a1 120 a0; Ld a2 128 a0; Ld a3 136 a0; Ld a4 144 a0; Ld a5 152 a0; Ld a6 160 a0; Ld a7 168 a0;
  Ld s2 176 a0; Ld s3 184 a0; Ld s4 192 a0; Ld s5 200 a0; Ld s6 208 a0; Ld s7 216 a0; Ld s8 224 a0; Ld s9 232 a0;
  Ld s10 240 a0; Ld s11 248 a0; Ld t3 256 a0; Ld t4 264 a0; Ld t5 272 a0; Ld t6 280 a0;
  Csrrw a0 Sscratch a0;
  Sret].

(** ** kernel/swtch.S *)

Definition swtch : list instr := [
  Sd ra 0 a0; Sd sp 8 a0; Sd s0 16 a0; Sd s1 24 a0; Sd s2 32 a0; Sd s3 40 a0; Sd s4 48 a0; Sd s5 56 a0;
  Sd s6 64 a0; Sd s7 72 a0; Sd s8 80 a0; Sd s9 88 a0; Sd s10 96 a0; Sd s11 104 a0;
  Ld ra 0 a1; Ld sp 8 a1; Ld s0 16 a1; Ld s1 24 a1; Ld s2 32 a1; Ld s3 40 a1; Ld s4 48 a1; Ld s5 56 a1;
  Ld s6 64 a1; Ld s7 72 a1; Ld s8 80 a1; Ld s9 88 a1; Ld s10 96 a1; Ld s11 104 a1;
  Ret_].

(** ** kernel/kernelvec.S *)

Definition kernelvec (kerneltrap : Z) : list instr := [
  Addi sp sp (-256);
  Sd ra 0 sp; Sd sp 8 sp; Sd gp 16 sp; Sd tp 24 sp; Sd t0 32 sp; Sd t1 40 sp; Sd t2 48 sp; Sd s0 56 sp; Sd s1 64 sp;
  Sd a0 72 sp; Sd a1 80 sp; Sd a2 88 sp; Sd a3 96 sp; Sd a4 104 sp; Sd a5 112 sp; Sd a6 120 sp; Sd a7 128 sp;
  Sd s2 136 sp; Sd s3 144 sp; Sd s4 152 sp; Sd s5 160 sp; Sd s6 168 sp; Sd s7 176 sp; Sd s8 184 sp; Sd s9 192 sp;
  Sd s10 200 sp; Sd s11 208 sp; Sd t3 216 sp; Sd t4 224 sp; Sd t5 232 sp; Sd t6 240 sp;
  Call kerneltrap;
  Ld ra 0 sp; Ld sp 8 sp; Ld gp 16 sp; Ld t0 32 sp; Ld t1 40 sp; Ld t2 48 sp; Ld s0 56 sp; Ld s1 64 sp;
  Ld a0 72 sp; Ld a1 80 sp; Ld a2 88 sp; Ld a3 96 sp; Ld a4 104 sp; Ld a5 112 sp; Ld a6 120 sp; Ld a7 128 sp;
  Ld s2 136 sp; Ld s3 144 sp; Ld s4 152 sp; Ld s5 160 sp; Ld s6 168 sp; Ld s7 176 sp; Ld s8 184 sp; Ld s9 192 sp;
  Ld s10 200 sp; Ld s11 208 sp; Ld t3 216 sp; Ld t4 224 sp; Ld t5 232 sp; Ld t6 240 sp;
  Addi sp sp 256;
  Sret].

Definition timervec : list instr := [
  Csrrw a0 Mscratch a0;
  Sd a1 0 a0; Sd a2 8 a0; Sd a3 16 a0;
  Ld a1 32 a0;
  Ld a2 40 a0;
  Ld a3 0 a1;
  Add a3 a3 a2;
  Sd a3 0 a1;
  Li a1 2;
  Csrw Sip a1;
  Ld a3 16 a0; Ld a2 8 a0; Ld a1 0 a0;
  Csrrw a0 Mscratch a0;
  Mret].

(** ** kernel/entry.S *)

(** [stack0], [start] and [spin] are addresses. *)
Definition entry (stack0 start spin : Z) : list instr := [
  La sp stack0;
  Li a0 (1024 * 4);
  Csrr a1 Mhartid;
  Addi a1 a1 1;
  Mul a0 a0 a1;
  Add sp sp a0;
  Call start;
  J spin].
