(* ===== verification/AsmProps.v ===== *)
(** The assembly of the kernel, together with the C code it calls.

    A system call leaves the registers of the user program as they were, except for
    its result; [swtch] saves a context that a later call resumes; an interrupt while
    the kernel runs, and a timer interrupt, leave the registers as they were.  The
    code runs at virtual addresses: that it finds its instructions and its data
    follows from the page tables that kernel/vm.c and kernel/proc.c make. *)

From S2P Require Import Prelude Riscv Mem Csr Sync Kalloc Vm VmPt VmMap VmProps Proc Syscall Trap TrapProps Asm.

(** ** Translation by a page table of kernel/vm.c *)

(** Facts about constants. *)
Ltac flags := vm_compute; try split; first [reflexivity | discriminate].

Lemma PX_page level V o :
  0 <= level -> V mod PGSIZE = 0 -> 0 <= o < PGSIZE -> PX level (V + o) = PX level V.
Proof.
  intros Hl HV Ho. rewrite !PX_eq by done. f_equal. unfold PGSIZE in *.
  rewrite Z.pow_add_r by lia. change (2 ^ 12) with 4096. rewrite <- !Z.div_div by lia. f_equal.
  rewrite (Z_div_exact_full_2 V 4096) by lia. rewrite Z.mul_comm, Z.div_add_l, Z.div_mul by lia. rewrite (Z.div_small o) by lia. lia.
Qed.

Section Translate.
Context {LY : Layout} {LYok : LayoutOk}.

Abbreviation RWX := (Z.lor (Z.lor PTE_R PTE_W) PTE_X).

Lemma has_flags pa f bits :
  0 <= pa < 2 ^ 56 -> 0 <= f < 1024 -> 0 <= bits < 1024 -> has (Z.lor (PA2PTE pa) f) bits = has f bits.
Proof.
  intros Hpa Hf Hb. unfold has. do 2 f_equal. rewrite <- (PTE_FLAGS_PA2PTE pa f Hpa Hf) at 2. unfold PTE_FLAGS.
  rewrite <- Z.land_assoc. f_equal. change 0x3FF with (Z.ones 10). rewrite Z.land_comm, Z.land_ones by lia. by rewrite Z.mod_small by lia.
Qed.

(** The hart finds the entry that [pt_map] gives. *)
Lemma page_walk_ok m root t va v :
  pt_rep m root t -> pt_map m t va = Some v -> has v RWX = true -> page_walk m 2 root va = Some (v, PGSIZE).
Proof.
  intros R Hm Hv. unfold pt_map in Hm. destruct (t !! [PX 2 va; PX 1 va]) as [p0|] eqn:E0; [|done].
  destruct (t !! [PX 2 va]) as [p1|] eqn:E1; [|by rewrite (pr_closed _ _ _ R [PX 2 va] (PX 1 va) E1 : t !! [PX 2 va; PX 1 va] = None) in E0].
  pose proof (pr_pte _ _ _ R [] root (PX 2 va) (pr_root _ _ _ R) ltac:(cbn; lia) ltac:(by apply PX_range)) as P2. cbn [app] in P2. rewrite E1 in P2.
  pose proof (pr_pte _ _ _ R [PX 2 va] p1 (PX 1 va) E1 ltac:(cbn; lia) ltac:(by apply PX_range)) as P1. cbn [app] in P1. rewrite E0 in P1.
  pose proof (pr_ok _ _ _ R _ _ E1) as K1. pose proof (pr_ok _ _ _ R _ _ E0) as K0.
  cbn [page_walk]. change (Z.of_nat 2) with 2. change (Z.of_nat 1) with 1. change (Z.of_nat 0) with 0.
  rewrite P2, valid_lor_V, has_flags, PTE2PA_V by (done || (pose proof (page_ok_range p1 K1); lia)). cbn [negb]. change (has PTE_V RWX) with false. cbv iota.
  rewrite P1, valid_lor_V, has_flags, PTE2PA_V by (done || (pose proof (page_ok_range p0 K0); lia)). cbn [negb]. change (has PTE_V RWX) with false. cbv iota.
  cbv zeta in Hm. destruct (valid _) eqn:Ev; [|done]. injection Hm as ->. by rewrite Hv.
Qed.

Lemma satp_root root :
  page_ok root -> Z.shiftr (MAKE_SATP root) 60 =? 0 = false /\ Z.shiftl (Z.land (MAKE_SATP root) (2 ^ 44 - 1)) 12 = root /\
  0 <= MAKE_SATP root < 2 ^ 64.
Proof.
  intros Hp. pose proof (page_ok_range root Hp). pose proof (page_ok_aligned root Hp) as Ha.
  unfold MAKE_SATP, SATP_SV39. rewrite (Z.shiftr_div_pow2 root 12) by lia. change (Z.shiftl 8 60) with (2 ^ 19 * 2 ^ 44).
  assert (0 <= root / 2 ^ 12 < 2 ^ 44) by (split; [apply Z.div_pos; lia | apply Z.div_lt_upper_bound; lia]).
  rewrite (lor_low (2 ^ 19) (root / 2 ^ 12) 44) by (done || lia). split_and!.
  - apply Z.eqb_neq. rewrite Z.shiftr_div_pow2 by lia. intros E. apply Z.div_small_iff in E; lia.
  - change (2 ^ 44 - 1) with (Z.ones 44). rewrite Z.land_ones by lia. rewrite Z.add_comm, Z.mod_add, Z.mod_small by lia.
    rewrite Z.shiftl_mul_pow2 by lia. unfold PGSIZE in Ha. change (2 ^ 12) with 4096. rewrite Z.mul_comm. symmetry. apply Z_div_exact_full_2; lia.
  - lia.
  - lia.
Qed.

Lemma translate_ok acc md m root t V pa perm o :
  md <> Machine -> pt_rep m root t -> pt_map m t V = Some (leaf_pte pa perm) ->
  0 <= V < MAXVA -> V mod PGSIZE = 0 -> 0 <= pa < 2 ^ 56 -> pa mod PGSIZE = 0 -> 0 <= perm < 1024 -> 0 <= o < PGSIZE ->
  has (Z.lor perm PTE_V) RWX = true -> permits acc md (Z.lor perm PTE_V) = true ->
  translate acc md (MAKE_SATP root) m (V + o) = Some (pa + o).
Proof.
  intros Hmd R Hm HV HVa Hpa Hal Hperm Ho Hrwx Hacc. destruct (satp_root root (pr_ok _ _ _ R [] root (pr_root _ _ _ R))) as (E1 & E2 & _).
  pose proof (perm_V_range perm Hperm) as HpV.
  unfold translate. rewrite bool_decide_false by done. rewrite E1, E2. cbn [orb].
  assert (V + o < MAXVA) by (assert (MAXVA mod PGSIZE = 0) by done; page_lia).
  rewrite (proj2 (Z.leb_le _ _)), (proj2 (Z.ltb_lt _ _)) by lia. cbn [andb negb].
  rewrite (page_walk_ok m root t (V + o) (leaf_pte pa perm)); [|done| |by rewrite leaf_pte_eq, has_flags].
  - rewrite PTE2PA_leaf, Hal by done. change (PGSIZE =? 0) with false.
    replace (permits acc md (leaf_pte pa perm)) with true.
    2:{ rewrite leaf_pte_eq. unfold permits in *. destruct acc; rewrite ?has_flags by (done || lia); done. }
    cbn [andb Z.eqb]. f_equal. f_equal. rewrite Z.add_mod, HVa, Z.add_0_l, Z.mod_mod by done. by apply Z.mod_small.
  - unfold pt_map in *. rewrite !PX_page by (done || lia). done.
Qed.
End Translate.

Lemma csr_get (c : csrs) r v : <[r := v]> c r = v.
Proof. apply (fn_lookup_insert c). Qed.
Lemma csr_get_ne (c : csrs) r r' v : r <> r' -> <[r := v]> c r' = c r'.
Proof. apply (fn_lookup_insert_ne c). Qed.

(** ** Running a program *)

(** [m'] is [m] but for the addresses in [H]. *)
Definition agree (H : Z -> Prop) (m m' : memory) : Prop := forall a, ~ H a -> load8 m' a = load8 m a.

Lemma agree_refl H m : agree H m m.
Proof. done. Qed.
Lemma agree_trans H m1 m2 m3 : agree H m1 m2 -> agree H m2 m3 -> agree H m1 m3.
Proof. intros H1 H2 a Ha. by rewrite H2, H1. Qed.
Lemma agree_store64 (H : Z -> Prop) m m' a v :
  agree H m m' -> (forall b, a <= b < a + 8 -> H b) -> agree H m (store64 m' a v).
Proof. intros Hm Ha b Hb. rewrite load8_store64_out; [by apply Hm|]. intros Hr. by apply Hb, Ha. Qed.

(** Whatever is in [H], the hart finds the code from [lo] to [hi] at distance [d], and
    [n] bytes from [va] at [pa]. *)
Definition fetches (H : Z -> Prop) (md : mode) (satp : Z) (m : memory) (d lo hi : Z) : Prop :=
  forall m' a, agree H m m' -> lo <= a < hi -> translate Fetch md satp m' (a + d) = Some a.
Definition reaches (H : Z -> Prop) (acc : access) (md : mode) (satp : Z) (m : memory) (va pa n : Z) : Prop :=
  forall m' o, agree H m m' -> 0 <= o -> o + 8 <= n -> translate acc md satp m' (va + o) = Some (pa + o).

Section Run.
Context (code : Z -> option (instr * Z)).

(** From [m] the hart gets to a state with [Q]. *)
Definition reach (m : mach) (Q : mach -> Prop) : Prop := exists n m', steps code n m = Some m' /\ Q m'.

Lemma reach_done m (Q : mach -> Prop) : Q m -> reach m Q.
Proof. intros HQ. by exists 0%nat, m. Qed.

Lemma reach_mono m (P Q : mach -> Prop) : reach m P -> (forall m', P m' -> Q m') -> reach m Q.
Proof. intros (n & m' & E & HP) HPQ. exists n, m'. auto. Qed.

Lemma placed_le prog a stop : placed code prog a stop -> a <= stop.
Proof. revert a. induction prog as [|i prog IH]; intros a; cbn [placed]; [lia|]. intros (n & _ & Hn & Hp). apply IH in Hp. lia. Qed.

Lemma reach_step (Q : mach -> Prop) i prog a stop d m :
  placed code (i :: prog) a stop -> c_pc m = a + d -> mtranslate Fetch m (a + d) = Some a ->
  (forall a', a < a' -> placed code prog a' stop ->
     exists m', exec i (a + d) (set_pc (a' + d) m) = Some m' /\ reach m' Q) ->
  reach m Q.
Proof.
  intros (n & Hc & Hn & Hp) Hpc Ht Hk. destruct (Hk (a + n) ltac:(lia) Hp) as (m' & E & k & m2 & Es & HQ).
  exists (S k), m2. split; [|done]. cbn [steps]. unfold step, fetch. rewrite Hpc, Ht, Hc.
  replace (a + d + n) with (a + n + d) by lia. by rewrite E.
Qed.

(** *** Storing and loading registers *)

Definition sds (b : reg) (l : list (reg * Z)) : list instr := (fun x => Sd x.1 x.2 b) <$> l.
Definition lds (b : reg) (l : list (reg * Z)) : list instr := (fun x => Ld x.1 x.2 b) <$> l.

Fixpoint saves (g : reg -> Z) (area : Z) (l : list (reg * Z)) (m : memory) : memory :=
  match l with [] => m | x :: l' => saves g area l' (store64 m (area + x.2) (g x.1)) end.
Fixpoint loads (m : memory) (area : Z) (l : list (reg * Z)) (g : reg -> Z) : reg -> Z :=
  match l with [] => g | x :: l' => loads m area l' (<[x.1 := load64 m (area + x.2)]> g) end.

(** Offsets of a save area of [n] bytes. *)
Definition offsets_ok (n : Z) (l : list (reg * Z)) : Prop := Forall (fun x => 0 <= x.2 /\ x.2 + 8 <= n /\ x.2 mod 8 = 0) l.

Lemma addressed_ok (H : Z -> Prop) acc m mem0 va pa n o :
  reaches H acc (c_mode m) (c_csr m Satp) mem0 va pa n -> agree H mem0 (c_mem m) ->
  va mod 8 = 0 -> 0 <= va -> va + n < 2 ^ 64 -> 0 <= o -> o + 8 <= n -> o mod 8 = 0 ->
  addressed acc m (u64 (va + o)) = Some (pa + o).
Proof.
  intros Hr Ha Hv H0 Hn Ho1 Ho2 Ho3. rewrite u64_small by lia. unfold addressed.
  rewrite Z.add_mod, Hv, Ho3 by done. cbn [Z.eqb Z.add Z.modulo Z.div_eucl]. apply Hr; done.
Qed.

(** The state [m] while code between [lo] and [hi] runs, the memory being [mem0] outside [H]. *)
Section Window.
Context (H : Z -> Prop) (mem0 : memory) (d lo hi : Z).

Record window (m : mach) (a : Z) : Prop := {
  w_pc : c_pc m = a + d;
  w_lo : lo <= a;
  w_fetch : fetches H (c_mode m) (c_csr m Satp) mem0 d lo hi;
  w_agree : agree H mem0 (c_mem m);
}.

(** [n] bytes at the address [base] can be accessed, and are the physical ones at [area]. *)
Record area_ok (acc : access) (md : mode) (satp base area n : Z) : Prop := {
  ar_reach : reaches H acc md satp mem0 base area n;
  ar_aligned : base mod 8 = 0;
  ar_range : 0 <= base /\ base + n < 2 ^ 64;
}.

Lemma reach_window (Q : mach -> Prop) i prog a stop m :
  placed code (i :: prog) a stop -> stop <= hi -> window m a ->
  (forall a', lo <= a' -> placed code prog a' stop -> exists m', exec i (a + d) (set_pc (a' + d) m) = Some m' /\ reach m' Q) ->
  reach m Q.
Proof.
  intros Hp Hs [W1 W2 W3 W4] Hk. eapply reach_step; [exact Hp|exact W1| |].
  - destruct Hp as (n & _ & Hn & Hp). apply placed_le in Hp. apply W3; [done|lia].
  - intros a' Ha Hp'. apply Hk; [lia|done].
Qed.

Lemma window_next m a m' a' :
  window m a -> c_pc m' = a' + d -> lo <= a' -> c_mode m' = c_mode m -> c_csr m' Satp = c_csr m Satp -> c_mem m' = c_mem m ->
  window m' a'.
Proof. intros [W1 W2 W3 W4] Hpc Ha Hm Hs He. split; [done|done|by rewrite Hm, Hs|by rewrite He]. Qed.

Lemma area_addressed acc m b area n o :
  area_ok acc (c_mode m) (c_csr m Satp) (get m b) area n -> agree H mem0 (c_mem m) -> 0 <= o -> o + 8 <= n -> o mod 8 = 0 ->
  addressed acc m (u64 (get m b + o)) = Some (area + o).
Proof. intros [A1 A2 [A3 A4]] Hag Ho1 Ho2 Ho3. by apply (addressed_ok H _ _ mem0 _ _ n). Qed.

Lemma reach_sds (Q : mach -> Prop) l b rest a stop area n m :
  placed code (sds b l ++ rest) a stop -> stop <= hi -> window m a -> area_ok Store (c_mode m) (c_csr m Satp) (get m b) area n ->
  (forall x, area <= x < area + n -> H x) -> offsets_ok n l ->
  (forall a', placed code rest a' stop -> window (set_pc (a' + d) (set_cmem (saves (get m) area l (c_mem m)) m)) a' ->
     reach (set_pc (a' + d) (set_cmem (saves (get m) area l (c_mem m)) m)) Q) ->
  reach m Q.
Proof.
  revert a m. induction l as [|[r o] l IH]; intros a m Hp Hs W A HA Hl Hk.
  - pose proof W as [W1 W2 W3 W4]. replace m with (set_pc (a + d) (set_cmem (saves (get m) area [] (c_mem m)) m)); [apply Hk; [done|]; by split|].
    destruct m as [rg cs me pc md]. cbn in *. by rewrite W1.
  - apply Forall_cons in Hl as [(Ho1 & Ho2 & Ho3) Hl]. cbn [fst snd] in *. pose proof W as [W1 W2 W3 W4].
    apply (reach_window Q _ _ a stop m Hp Hs W). intros a' Ha Hp'. cbn [exec fst snd].
    rewrite (area_addressed Store (set_pc (a' + d) m) b area n o A W4 Ho1 Ho2 Ho3).
    eexists. split; [reflexivity|]. eapply (IH a'); [exact Hp'|done| | |done|done|].
    + split; [done|done|done|]. apply agree_store64; [done|]. intros x Hx. apply HA. lia.
    + exact A.
    + exact Hk.
Qed.

Lemma reach_lds (Q : mach -> Prop) l b rest a stop area n m :
  placed code (lds b l ++ rest) a stop -> stop <= hi -> window m a -> area_ok Load (c_mode m) (c_csr m Satp) (get m b) area n ->
  b ∉ l.*1 -> offsets_ok n l ->
  (forall a', placed code rest a' stop ->
     let m' := {| c_regs := loads (c_mem m) area l (c_regs m); c_csr := c_csr m; c_mem := c_mem m; c_pc := a' + d; c_mode := c_mode m |} in
     window m' a' -> reach m' Q) ->
  reach m Q.
Proof.
  revert a m. induction l as [|[r o] l IH]; intros a m Hp Hs W A Hb Hl Hk.
  - pose proof W as [W1 W2 W3 W4]. specialize (Hk a Hp). cbn [loads] in Hk. rewrite <- W1 in Hk. destruct m. by apply Hk.
  - apply Forall_cons in Hl as [(Ho1 & Ho2 & Ho3) Hl]. cbn [fmap list_fmap fst snd] in *. apply not_elem_of_cons in Hb as [Hb Hbl]. pose proof W as [W1 W2 W3 W4].
    apply (reach_window Q _ _ a stop m Hp Hs W). intros a' Ha Hp'. cbn [exec fst snd].
    rewrite (area_addressed Load (set_pc (a' + d) m) b area n o A W4 Ho1 Ho2 Ho3).
    eexists. split; [reflexivity|]. unfold set_reg. rewrite u64_small by apply load64_range. eapply (IH a'); [exact Hp'|done| | |done|done|].
    + split; done.
    + assert (forall v, get {| c_regs := <[r := v]> (c_regs m); c_csr := c_csr m; c_mem := c_mem m; c_pc := a' + d; c_mode := c_mode m |} b = get m b) as Eg.
      { intros v. unfold get. cbn [c_regs]. by rewrite fn_lookup_insert_ne by done. }
      cbn [set_pc c_regs c_csr c_mem c_pc c_mode]. by rewrite Eg.
    + exact Hk.
Qed.
End Window.
End Run.

(** *** The contents of a save area *)

Lemma load_saves_out g area l m x :
  Forall (fun y => x + 8 <= area + y.2 \/ area + y.2 + 8 <= x) l -> load64 (saves g area l m) x = load64 m x.
Proof.
  revert m. induction l as [|y l IH]; intros m Hl; [done|]. apply Forall_cons in Hl as [Hy Hl]. cbn [saves].
  rewrite IH by done. apply load64_store64_ne. lia.
Qed.

Lemma load_saves g area n l m r o :
  offsets_ok n l -> NoDup l.*2 -> (r, o) ∈ l -> load64 (saves g area l m) (area + o) = u64 (g r).
Proof.
  revert m. induction l as [|[r' o'] l IH]; intros m Hl Hd Hin; [by apply elem_of_nil in Hin|].
  apply Forall_cons in Hl as [Ho Hl]. apply NoDup_cons in Hd as [Hn Hd]. cbn [saves fst snd] in *. apply elem_of_cons in Hin as [[= <- <-]|Hin].
  - rewrite load_saves_out; [apply load64_store64_eq|]. apply Forall_forall. intros [r2 o2] H2.
    rewrite Forall_forall in Hl. specialize (Hl _ H2). cbn [fst snd] in *.
    assert (o2 <> o) by (intros ->; apply Hn; by apply (list_elem_of_fmap_2 snd l (r2, o))). destruct Ho as (_ & _ & Ho), Hl as (_ & _ & Hl2). clear - Ho Hl2 H. Z.to_euclidean_division_equations. lia.
  - by apply IH.
Qed.

Lemma agree_saves (H : Z -> Prop) g area n l m m' :
  agree H m m' -> offsets_ok n l -> (forall x, area <= x < area + n -> H x) -> agree H m (saves g area l m').
Proof.
  intros Hm Hl HA. revert m' Hm. induction Hl as [|[r o] l Ho Hl IH]; intros m' Hm; [done|]. cbn [saves fst snd] in *. apply IH.
  apply agree_store64; [done|]. intros x Hx. apply HA. lia.
Qed.

Lemma saves_ext g g' area l m : (forall r, r ∈ l.*1 -> g r = g' r) -> saves g area l m = saves g' area l m.
Proof.
  revert m. induction l as [|[r o] l IH]; intros m Hg; [done|]. cbn [saves fmap list_fmap fst snd] in *.
  rewrite Hg by apply list_elem_of_here. apply IH. intros r' Hr. apply Hg. by apply list_elem_of_further.
Qed.

Lemma loads_ext m m' area l g : Forall (fun x => load64 m' (area + x.2) = load64 m (area + x.2)) l -> loads m' area l g = loads m area l g.
Proof. intros Hl. revert g. induction Hl as [|x l Hx Hl IH]; intros g; [done|]. cbn [loads]. by rewrite Hx. Qed.

(** Saving in one area does not change another. *)
Lemma load_saves_apart g area n l m x :
  offsets_ok n l -> x + 8 <= area \/ area + n <= x -> load64 (saves g area l m) x = load64 m x.
Proof. intros Hl Hx. apply load_saves_out. eapply Forall_impl; [exact Hl|]. intros y Hy. cbn in Hy. lia. Qed.

Lemma loads_out m area l g r : r ∉ l.*1 -> loads m area l g r = g r.
Proof.
  revert g. induction l as [|[r' o] l IH]; intros g Hr; [done|]. cbn [loads fmap list_fmap fst snd] in *.
  apply not_elem_of_cons in Hr as [Hr Hl]. rewrite IH by done. by apply fn_lookup_insert_ne.
Qed.

Lemma loads_in m area l g r o : NoDup l.*1 -> (r, o) ∈ l -> loads m area l g r = load64 m (area + o).
Proof.
  revert g. induction l as [|[r' o'] l IH]; intros g Hd Hin; [by apply elem_of_nil in Hin|]. cbn [loads fmap list_fmap fst snd] in *.
  apply NoDup_cons in Hd as [Hn Hd]. apply elem_of_cons in Hin as [[= <- <-]|Hin]; [|by apply IH].
  rewrite loads_out by done. apply fn_lookup_insert.
Qed.

(** ** The trampoline page *)

Section Trampoline.
Context {LY : Layout} {LYok : LayoutOk}.

(** The page [tf] is not part of the page table at [root], which maps the trampoline. *)
Definition kernel_table (m : memory) (root tf : Z) : Prop :=
  exists t, pt_rep m root t /\ ~ in_table t tf /\ pt_map m t TRAMPOLINE = Some (leaf_pte trampoline (Z.lor PTE_R PTE_X)).
(** A user page table also maps the trap frame. *)
Definition user_table (m : memory) (root tf : Z) : Prop :=
  exists t, pt_rep m root t /\ ~ in_table t tf /\ pt_map m t TRAMPOLINE = Some (leaf_pte trampoline (Z.lor PTE_R PTE_X)) /\
    pt_map m t TRAPFRAME = Some (leaf_pte tf (Z.lor PTE_R PTE_W)).

Definition in_page (p a : Z) : Prop := p <= a < p + PGSIZE.

Lemma user_kernel_table m root tf : user_table m root tf -> kernel_table m root tf.
Proof. intros (t & R & Hi & H1 & _). by exists t. Qed.

Lemma pages_apart p q a : page_ok p -> page_ok q -> p <> q -> p <= a < p + PGSIZE -> ~ in_page q a.
Proof. intros [Hp _] [Hq _] Hne Ha Hb. unfold in_page, PGSIZE in *. page_lia. Qed.

(** A table stays as it is when only the page [tf] changes. *)
Lemma table_frame m m' root t tf :
  page_ok tf -> pt_rep m root t -> ~ in_table t tf -> agree (in_page tf) m m' ->
  pt_rep m' root t /\ forall va, pt_map m' t va = pt_map m t va.
Proof.
  intros Htf R Hi Ha. assert (forall k p a, t !! k = Some p -> p <= a < p + PGSIZE -> load8 m' a = load8 m a) as Hf.
  { intros k p a Hk Hpa. apply Ha, (pages_apart p); [by eapply pr_ok|done| |done]. intros ->. apply Hi. by exists k. }
  split; [by eapply pt_rep_frame|]. intros va. by apply pt_map_frame.
Qed.

Lemma trampoline_fetches m root tf :
  page_ok tf -> kernel_table m root tf ->
  fetches (in_page tf) Supervisor (MAKE_SATP root) m (TRAMPOLINE - trampoline) trampoline (trampoline + PGSIZE).
Proof.
  intros Htf (t & R & Hi & Ht) m' a Ha Hr. destruct (table_frame m m' root t tf Htf R Hi Ha) as [R' E].
  replace (a + (TRAMPOLINE - trampoline)) with (TRAMPOLINE + (a - trampoline)) by lia.
  replace a with (trampoline + (a - trampoline)) at 2 by lia.
  apply (translate_ok Fetch Supervisor m' root t TRAMPOLINE trampoline (Z.lor PTE_R PTE_X)); [discriminate|exact R'| |flags..| | |flags|lia|flags|flags].
  - by rewrite E.
  - pose proof trampoline_range. unfold PHYSTOP, KERNBASE in *. lia.
  - exact trampoline_aligned.
Qed.

Lemma trapframe_reaches m root tf acc :
  page_ok tf -> user_table m root tf -> acc <> Fetch ->
  reaches (in_page tf) acc Supervisor (MAKE_SATP root) m TRAPFRAME tf PGSIZE.
Proof.
  intros Htf (t & R & Hi & _ & Ht) Hacc m' o Ha H0 H1. destruct (table_frame m m' root t tf Htf R Hi Ha) as [R' E].
  apply (translate_ok acc Supervisor m' root t TRAPFRAME tf (Z.lor PTE_R PTE_W)); [discriminate|exact R'| |flags..| | |flags|lia|flags|].
  - by rewrite E.
  - pose proof (page_ok_range tf Htf). lia.
  - by apply page_ok_aligned.
  - destruct acc; [congruence|flags|flags].
Qed.

Lemma kernel_table_frame m m' root tf : page_ok tf -> agree (in_page tf) m m' -> kernel_table m root tf -> kernel_table m' root tf.
Proof. intros Htf Ha (t & R & Hi & Ht). destruct (table_frame m m' root t tf Htf R Hi Ha) as [R' E]. exists t. by rewrite E. Qed.

Lemma user_table_frame m m' root tf : page_ok tf -> agree (in_page tf) m m' -> user_table m root tf -> user_table m' root tf.
Proof. intros Htf Ha (t & R & Hi & Ht & Hf). destruct (table_frame m m' root t tf Htf R Hi Ha) as [R' E]. exists t. by rewrite !E. Qed.

(** [proc_pagetable] makes such a table. *)
Lemma map_one s root t u l va pa perm :
  as_rep s root t u l -> 0 <= va -> va + PGSIZE <= MAXVA -> va mod PGSIZE = 0 -> 0 <= perm < 1024 -> 0 <= pa -> pa + PGSIZE <= 2 ^ 56 ->
  mappages_outcome 1 s root t u l va pa perm (mappages root va PGSIZE pa perm s).
Proof.
  intros R H0 H1 Hal Hperm Hpa Hpb. assert (range_pages va PGSIZE = 1%nat) as En by (unfold range_pages; rewrite !PGROUNDDOWN_eq; page_lia).
  pose proof (mappages_outcome_ok s root t u l va PGSIZE pa perm R H0 ltac:(done) H1 Hperm Hpa) as Ho. rewrite En, (PGROUNDDOWN_id va Hal) in Ho. apply Ho. lia.
Qed.

Lemma proc_pagetable_ok s l tf :
  free_pages s l -> LKmem ∉ held s -> page_ok tf -> tf ∉ l ->
  results (fun root s' => root = 0 \/ user_table (mem s') root tf) (proc_pagetable tf s).
Proof.
  intros Hf Hlk Htf Hn. unfold proc_pagetable. pose proof (uvmcreate_ok s l Hf Hlk) as Hc. destruct l as [|root l].
  { rewrite (bind_ret _ _ _ _ _ Hc). by left. }
  destruct Hc as (s1 & E1 & R1). rewrite (bind_ret _ _ _ _ _ E1). apply not_elem_of_cons in Hn as [Hn Hl].
  destruct (Z.eqb_spec root 0); [by left|]. pose proof trampoline_range as Htr. pose proof (page_ok_range tf Htf). unfold PHYSTOP, KERNBASE in Htr.
  pose proof (map_one s1 root _ _ _ TRAMPOLINE trampoline (Z.lor PTE_R PTE_X) R1 ltac:(done) ltac:(done) ltac:(done) ltac:(done) ltac:(lia) ltac:(unfold PGSIZE; lia)) as O1.
  inversion O1 as [s2 t2 l2 _ R2 G2 E2|k s2 t2 Hk _ _ _ _ E2|_ E2]; symmetry in E2; [|rewrite (bind_ret _ _ _ _ _ E2); apply results_then; by left|unfold mbind_; by rewrite E2].
  rewrite (bind_ret _ _ _ _ _ E2). cbn [Z.ltb Z.compare].
  pose proof (map_one s2 root _ _ _ TRAPFRAME tf (Z.lor PTE_R PTE_W) R2 ltac:(done) ltac:(done) ltac:(done) ltac:(done) ltac:(lia) ltac:(destruct Htf; unfold PHYSTOP, KERNBASE, PGSIZE in *; lia)) as O2.
  inversion O2 as [s3 t3 l3 _ R3 G3 E3|k s3 t3 Hk _ _ _ _ E3|_ E3]; symmetry in E3; [|rewrite (bind_ret _ _ _ _ _ E3); do 2 (apply results_then; intros ? ?); by left|unfold mbind_; by rewrite E3].
  rewrite (bind_ret _ _ _ _ _ E3). right. exists t3. split_and!; [apply R3| | |].
  - destruct (grown_trans _ _ _ _ _ _ _ _ _ _ _ G2 G3) as [_ (new & El & _ & Hnew) _ _]. intros [k Hk]. destruct (Hnew _ _ Hk) as [Ht|Hin].
    + apply lookup_singleton_Some in Ht as [_ ->]. done.
    + apply Hl. rewrite El. by apply elem_of_app; left.
  - rewrite (ar_map _ _ _ _ _ TRAMPOLINE R3) by done. cbn [map_range]. rewrite lookup_insert_ne by done. by rewrite lookup_insert_eq.
  - rewrite (ar_map _ _ _ _ _ TRAPFRAME R3) by done. cbn [map_range]. by rewrite lookup_insert_eq.
Qed.

(** The registers that the trampoline saves, with their places in the trap frame; a0
    has its own way. *)
Definition user_regs : list (reg * Z) :=
  [(ra, 40); (sp, 48); (gp, 56); (tp, 64); (t0, 72); (t1, 80); (t2, 88); (s0, 96); (s1, 104); (a1, 120); (a2, 128); (a3, 136);
   (a4, 144); (a5, 152); (a6, 160); (a7, 168); (s2, 176); (s3, 184); (s4, 192); (s5, 200); (s6, 208); (s7, 216); (s8, 224);
   (s9, 232); (s10, 240); (s11, 248); (t3, 256); (t4, 264); (t5, 272); (t6, 280)].

Lemma user_regs_ok : offsets_ok PGSIZE user_regs /\ NoDup user_regs.*1 /\ NoDup user_regs.*2.
Proof. split_and!; apply (bool_decide_unpack _); vm_compute; exact I. Qed.

Definition kernel_regs : list (reg * Z) := [(sp, 8); (tp, 32); (t0, 16); (t1, 0)].

(** Memory once [uservec] has saved the registers [g]. *)
Definition framed (g : reg -> Z) (tf : Z) (m : memory) : memory := store64 (saves g tf user_regs m) (tf + 112) (g a0).

Lemma framed_low g tf m o : 0 <= o -> o <= 32 -> load64 (framed g tf m) (tf + o) = load64 m (tf + o).
Proof.
  intros H0 H1. unfold framed. rewrite load64_store64_ne by lia. apply load_saves_out.
  repeat (apply Forall_cons; split; [cbn [snd]; lia|]). by apply Forall_nil.
Qed.

Lemma framed_agree g tf m : agree (in_page tf) m (framed g tf m).
Proof.
  unfold framed. apply agree_store64; [|unfold in_page, PGSIZE; lia].
  apply (agree_saves _ _ _ PGSIZE); [apply agree_refl|apply user_regs_ok|done].
Qed.

Lemma trapframe_area m root tf acc :
  page_ok tf -> user_table m root tf -> acc <> Fetch -> area_ok (in_page tf) m acc Supervisor (MAKE_SATP root) TRAPFRAME tf PGSIZE.
Proof. intros Htf Hu Ha. split; [by apply trapframe_reaches|done|split; [done|reflexivity]]. Qed.

Lemma user_reg_offset r o : (r, o) ∈ user_regs -> r <> a0 /\ 40 <= o <= 280 /\ o <> 112 /\ o mod 8 = 0.
Proof.
  intros Hin. assert (forallb (fun y => negb (bool_decide (y.1 = a0)) && (40 <=? y.2) && (y.2 <=? 280) && negb (y.2 =? 112) && (y.2 mod 8 =? 0)) user_regs = true) as Hb by reflexivity.
  apply forallb_forall with (x := (r, o)) in Hb; [|by apply list_elem_of_In]. cbn [fst snd] in Hb.
  repeat (apply andb_true_iff in Hb as [Hb ?]). apply negb_true_iff, bool_decide_eq_false in Hb. split_and!; [done|lia..].
Qed.

Section Code.
Context (code : Z -> option (instr * Z)).
Abbreviation window tf m := (window (in_page tf) m (TRAMPOLINE - trampoline) trampoline (trampoline + PGSIZE)).

Abbreviation tramp_step tf m := (reach_window code (in_page tf) m (TRAMPOLINE - trampoline) trampoline (trampoline + PGSIZE)).
Abbreviation tramp_loads tf m := (reach_lds code (in_page tf) m (TRAMPOLINE - trampoline) trampoline (trampoline + PGSIZE)).

(** The end of [uservec]: to the kernel stack, page table and code. *)
Lemma uservec_load a stop m tf uroot kroot mem0 :
  placed code (lds a0 kernel_regs ++ [Csrw Satp t1; Sfence_vma; Jr t0]) a stop -> stop <= trampoline + PGSIZE ->
  window tf mem0 m a -> c_mode m = Supervisor -> c_csr m Satp = MAKE_SATP uroot -> get m a0 = TRAPFRAME ->
  page_ok tf -> user_table mem0 uroot tf -> kernel_table mem0 kroot tf -> load64 (c_mem m) (tf + 0) = MAKE_SATP kroot ->
  reach code m (fun m1 => c_mode m1 = Supervisor /\ c_pc m1 = load64 (c_mem m) (tf + 16) /\
    get m1 sp = load64 (c_mem m) (tf + 8) /\ get m1 tp = load64 (c_mem m) (tf + 32) /\
    c_csr m1 = <[Satp := MAKE_SATP kroot]> (c_csr m) /\ c_mem m1 = c_mem m).
Proof.
  intros Hp Hstop W Hmd Hsatp Ha0 Htf Hu Hk Hks. pose proof (w_agree _ _ _ _ _ _ _ W) as Wa.
  eapply (reach_lds _ _ _ _ _ _ _ kernel_regs a0); [exact Hp|exact Hstop|exact W| | | |].
  { rewrite Hmd, Hsatp, Ha0. by apply trapframe_area. }
  { apply (bool_decide_unpack _). vm_compute. exact I. }
  { repeat (apply Forall_cons; split; [by vm_compute|]). by apply Forall_nil. }
  clear Hp W. cbv zeta. intros a1' Hp W.
  set (g := loads (c_mem m) tf kernel_regs (c_regs m)) in *.
  eapply reach_window; [exact Hp|exact Hstop|exact W|]. clear Hp W. intros a2' Ha2 Hp. cbn [exec]. unfold may. cbn [c_mode set_pc]. rewrite Hmd. cbn [of_machine negb].
  eexists. split; [reflexivity|]. unfold get, set_csr, set_pc. cbn [c_regs c_csr c_mem c_mode c_pc decide]. rewrite decide_False by done.
  replace (u64 (g t1)) with (MAKE_SATP kroot).
  2:{ change (g t1) with (load64 (c_mem m) (tf + 0)). rewrite Hks. symmetry. apply u64_small. destruct Hk as (t & R & _). apply satp_root, (pr_ok _ _ _ R []), R. }
  eapply reach_window; [exact Hp|exact Hstop| |].
  { split; cbn [c_regs c_csr c_mem c_mode c_pc]; [done|done| |done]. rewrite csr_get. by apply trampoline_fetches. }
  clear Hp. intros a3' Ha3 Hp. cbn [exec]. rewrite bool_decide_false by done.
  eexists. split; [reflexivity|]. eapply reach_window; [exact Hp|exact Hstop| |].
  { split; cbn [set_pc c_regs c_csr c_mem c_mode c_pc]; [done|done| |done]. rewrite csr_get. by apply trampoline_fetches. }
  intros a4' Ha4 _. eexists. split; [reflexivity|]. apply reach_done. cbn [set_pc c_regs c_csr c_mem c_mode c_pc]. done.
Qed.

(** [uservec] saves the registers of the user in the trap frame, and goes to the
    address in [kernel_trap] on the kernel stack and with the kernel page table. *)
Lemma uservec_ok uv stop m tf uroot kroot :
  placed code uservec uv stop -> trampoline <= uv -> stop <= trampoline + PGSIZE ->
  c_mode m = Supervisor -> c_pc m = TRAMPOLINE + (uv - trampoline) -> c_csr m Satp = MAKE_SATP uroot -> c_csr m Sscratch = TRAPFRAME ->
  page_ok tf -> user_table (c_mem m) uroot tf -> kernel_table (c_mem m) kroot tf -> load64 (c_mem m) (tf + 0) = MAKE_SATP kroot ->
  0 <= get m a0 < 2 ^ 64 ->
  reach code m (fun m1 => c_mode m1 = Supervisor /\ c_pc m1 = load64 (c_mem m) (tf + 16) /\
    get m1 sp = load64 (c_mem m) (tf + 8) /\ get m1 tp = load64 (c_mem m) (tf + 32) /\
    c_csr m1 = <[Satp := MAKE_SATP kroot]> (<[Sscratch := get m a0]> (c_csr m)) /\ c_mem m1 = framed (get m) tf (c_mem m)).
Proof.
  intros Hp Huv Hstop Hmd Hpc Hsatp Hscr Htf Hu Hk Hks Ha0.
  change uservec with (Csrrw a0 Sscratch a0 :: sds a0 user_regs ++ Csrr t0 Sscratch :: sds a0 [(t0, 112)] ++ lds a0 kernel_regs ++ [Csrw Satp t1; Sfence_vma; Jr t0]) in Hp.
  assert (window tf (c_mem m) m uv) as W.
  { split; [lia|done| |apply agree_refl]. rewrite Hmd, Hsatp. by apply trampoline_fetches, user_kernel_table. }
  eapply reach_window; [exact Hp|exact Hstop|exact W|]. clear Hp. intros a Ha Hp. cbn [exec]. unfold may. cbn [c_mode set_pc]. rewrite Hmd. cbn [of_machine negb].
  eexists. split; [reflexivity|]. cbn [c_csr set_pc]. rewrite Hscr. change (get (set_pc (a + (TRAMPOLINE - trampoline)) m) a0) with (get m a0).
  unfold set_reg, set_csr, set_pc. cbn [c_regs c_csr c_mem c_mode c_pc]. rewrite (u64_small (get m a0)), (u64_small TRAPFRAME), Hmd by done.
  set (g := <[a0 := TRAPFRAME]> (c_regs m)). set (cs := <[Sscratch := get m a0]> (c_csr m)).
  assert (cs Satp = MAKE_SATP uroot) as Ecs by (unfold cs; by rewrite csr_get_ne).
  assert (forall acc, acc <> Fetch -> area_ok (in_page tf) (c_mem m) acc Supervisor (cs Satp) TRAPFRAME tf PGSIZE) as A.
  { intros acc Hacc. rewrite Ecs. by apply trapframe_area. }
  pose proof (trampoline_fetches (c_mem m) uroot tf Htf (user_kernel_table _ _ _ Hu)) as Fu.
  eapply reach_sds; [exact Hp|exact Hstop| |by apply (A Store)|done|apply user_regs_ok|].
  { split; cbn [c_pc c_mode c_csr c_mem]; [done|done|by rewrite Ecs|apply agree_refl]. }
  clear Hp. intros a' Hp W1. revert W1. unfold set_pc, set_cmem. cbn [c_regs c_csr c_mem c_mode c_pc].
  rewrite (saves_ext _ (get m)).
  2:{ intros r Hr. unfold get. cbn [c_regs]. case_decide; [done|]. apply fn_lookup_insert_ne. intros <-. revert Hr. apply (bool_decide_unpack _). vm_compute. exact I. }
  intros W1. eapply reach_window; [exact Hp|exact Hstop|exact W1|]. clear Hp. intros a2' Ha2 Hp. cbn [exec]. unfold may. cbn [c_mode set_pc of_machine negb].
  eexists. split; [reflexivity|]. unfold set_reg, set_pc. cbn [c_regs c_csr c_mem c_mode c_pc]. replace (u64 (cs Sscratch)) with (get m a0) by (unfold cs; rewrite csr_get; symmetry; by apply u64_small).
  eapply reach_sds; [exact Hp|exact Hstop| |by apply (A Store)|done| |].
  { eapply window_next; [exact W1|done..]. }
  { apply Forall_cons; split; [by vm_compute|by apply Forall_nil]. }
  clear Hp W1. intros a3' Hp W1.
  match goal with |- reach _ ?x _ => set (m3 := x) in * end.
  assert (c_mem m3 = framed (get m) tf (c_mem m) /\ c_mode m3 = Supervisor /\ c_csr m3 = cs /\ get m3 a0 = TRAPFRAME) as (Em & E1 & E2 & E3) by (split_and!; reflexivity).
  clearbody m3. rewrite <- E2 in Ecs.
  eapply reach_mono; [apply (uservec_load a3' stop m3 tf uroot kroot (c_mem m)); [exact Hp|exact Hstop|exact W1|exact E1|exact Ecs|exact E3|exact Htf|exact Hu|exact Hk|rewrite Em, framed_low by lia; exact Hks]|].
  intros m1. cbv beta. rewrite Em, E2, !framed_low by lia. done.
Qed.

(** The end of [userret]: the registers are loaded, and a0 comes from [sscratch]. *)
Lemma userret_restore a stop m tf uroot mem0 :
  placed code (lds a0 user_regs ++ [Csrrw a0 Sscratch a0; Sret]) a stop -> stop <= trampoline + PGSIZE ->
  window tf mem0 m a -> c_mode m = Supervisor -> c_csr m Satp = MAKE_SATP uroot -> get m a0 = TRAPFRAME ->
  Z.testbit (c_csr m Sstatus) 8 = false -> page_ok tf -> user_table mem0 uroot tf -> 0 <= c_csr m Sscratch < 2 ^ 64 ->
  reach code m (fun m2 => c_mode m2 = User /\ c_pc m2 = c_csr m Sepc /\ c_mem m2 = c_mem m /\
    c_csr m2 Satp = MAKE_SATP uroot /\ c_csr m2 Sscratch = TRAPFRAME /\ c_csr m2 Stvec = c_csr m Stvec /\
    c_regs m2 a0 = c_csr m Sscratch /\ forall r o, (r, o) ∈ user_regs -> c_regs m2 r = load64 (c_mem m) (tf + o)).
Proof.
  intros Hp Hstop W Hmd Hsatp Ha0 Hspp Htf Hu Hs. destruct user_regs_ok as (Ho & Hd & _).
  assert (a0 ∉ user_regs.*1) as Hn by (apply (bool_decide_unpack _); vm_compute; exact I).
  eapply (tramp_loads tf mem0 _ user_regs a0); [exact Hp|exact Hstop|exact W|rewrite Hmd, Hsatp, Ha0; by apply trapframe_area|exact Hn|exact Ho|].
  clear Hp W. cbv zeta. intros b Hp W. set (g := loads (c_mem m) tf user_regs (c_regs m)) in *.
  eapply (tramp_step tf mem0); [exact Hp|exact Hstop|exact W|]. clear Hp. intros b2 H2 Hp. cbn [exec]. unfold may. cbn [c_mode set_pc]. rewrite Hmd. cbn [of_machine negb].
  eexists. split; [reflexivity|]. eapply (tramp_step tf mem0); [exact Hp|exact Hstop|by eapply window_next|]. clear Hp.
  intros b3 H3 _. cbn [exec]. rewrite bool_decide_false by (cbn; congruence). eexists. split; [reflexivity|]. apply reach_done.
  unfold sret, set_mode, set_reg, set_csr, set_pc. cbn [c_regs c_csr c_mem c_mode c_pc].
  rewrite !csr_get_ne, Hspp, !csr_get by done. rewrite (u64_small (c_csr m Sscratch)), fn_lookup_insert by done. split_and!; try done.
  - etransitivity; [|apply (u64_small TRAPFRAME); done]. f_equal. rewrite <- Ha0. exact (loads_out _ _ _ _ _ Hn).
  - intros r o Hin. rewrite fn_lookup_insert_ne; [by apply loads_in|]. intros <-. apply Hn. by apply (list_elem_of_fmap_2 fst user_regs (a0, o)).
Qed.

(** [userret] goes back to user mode with the registers of the trap frame. *)
Lemma userret_ok ur stop m tf uroot kroot :
  placed code userret ur stop -> trampoline <= ur -> stop <= trampoline + PGSIZE ->
  c_mode m = Supervisor -> c_pc m = TRAMPOLINE + (ur - trampoline) -> c_csr m Satp = MAKE_SATP kroot ->
  get m a0 = TRAPFRAME -> get m a1 = MAKE_SATP uroot -> Z.testbit (c_csr m Sstatus) 8 = false ->
  page_ok tf -> user_table (c_mem m) uroot tf -> kernel_table (c_mem m) kroot tf ->
  reach code m (fun m2 => c_mode m2 = User /\ c_pc m2 = c_csr m Sepc /\ c_mem m2 = c_mem m /\
    c_csr m2 Satp = MAKE_SATP uroot /\ c_csr m2 Sscratch = TRAPFRAME /\ c_csr m2 Stvec = c_csr m Stvec /\
    forall r o, (r, o) ∈ (a0, 112) :: user_regs -> c_regs m2 r = load64 (c_mem m) (tf + o)).
Proof.
  intros Hp Hur Hstop Hmd Hpc Hsatp Ha0 Ha1 Hspp Htf Hu Hk. destruct m as [rg cs me pc md]. cbn [c_mode c_pc c_csr c_mem] in *. subst md.
  change userret with (Csrw Satp a1 :: Sfence_vma :: lds a0 [(t0, 112)] ++ Csrw Sscratch t0 :: lds a0 user_regs ++ [Csrrw a0 Sscratch a0; Sret]) in Hp.
  pose proof (trampoline_fetches me uroot tf Htf (user_kernel_table _ _ _ Hu)) as Fu.
  pose proof (trapframe_area me uroot tf Load Htf Hu ltac:(discriminate)) as A.
  eapply (tramp_step tf me); [exact Hp|exact Hstop| |].
  { split; cbn [c_pc c_mode c_csr c_mem]; [rewrite Hpc; lia|done|rewrite Hsatp; by apply trampoline_fetches|apply agree_refl]. }
  clear Hp. intros b1 H1 Hp. eexists. split; [reflexivity|]. change (get (set_pc _ _) a1) with (rg a1). change (get _ a1) with (rg a1) in Ha1. rewrite Ha1.
  unfold set_csr, set_pc. cbn [c_regs c_csr c_mem c_mode c_pc]. rewrite u64_small by (destruct Hu as (t & R & _); apply satp_root, (pr_ok _ _ _ R []), R).
  set (cs1 := <[Satp := MAKE_SATP uroot]> cs). assert (cs1 Satp = MAKE_SATP uroot) as Ecs by apply csr_get. rewrite <- Ecs in Fu, A.
  assert (forall rg pc b, pc = b + (TRAMPOLINE - trampoline) -> trampoline <= b -> window tf me (Mach rg cs1 me pc Supervisor) b) as W by (intros; by split).
  eapply (tramp_step tf me); [exact Hp|exact Hstop|by apply W|]. clear Hp. intros b2 H2 Hp. eexists. split; [reflexivity|].
  eapply (tramp_loads tf me _ [(t0, 112)] a0); [exact Hp|exact Hstop|by apply W|unfold set_pc; cbn [c_mode c_csr]; change (get _ a0) with (rg a0); change (get _ a0) with (rg a0) in Ha0; rewrite Ha0; exact A| | |].
  { apply (bool_decide_unpack _). vm_compute. exact I. }
  { apply Forall_cons; split; [by vm_compute|by apply Forall_nil]. }
  clear Hp. cbv zeta. intros b3 Hp W3. cbn [c_regs c_csr c_mem c_mode c_pc set_pc loads fst snd].
  eapply (tramp_step tf me); [exact Hp|exact Hstop|exact W3|]. clear Hp W3. intros b4 H4 Hp. eexists. split; [reflexivity|].
  unfold set_csr, set_pc. cbn [c_regs c_csr c_mem c_mode c_pc].
  replace (u64 (get _ t0)) with (load64 me (tf + 112)) by (symmetry; exact (u64_small _ (load64_range _ _))).
  set (m4 := Mach _ _ _ _ _).
  assert (window tf me m4 b4 /\ c_csr m4 Satp = MAKE_SATP uroot /\ get m4 a0 = TRAPFRAME /\ Z.testbit (c_csr m4 Sstatus) 8 = false) as (W4 & E1 & E2 & E3).
  { split_and!; [|exact Ecs|exact Ha0|exact Hspp]. split; [reflexivity|exact H4|exact Fu|apply agree_refl]. }
  eapply reach_mono; [apply (userret_restore b4 stop m4 tf uroot me Hp Hstop W4 eq_refl E1 E2 E3 Htf Hu (load64_range _ _))|].
  intros m2. cbv beta. intros (F1 & F2 & F3 & F4 & F5 & F6 & F7 & F8). split_and!; [exact F1|exact F2|exact F3|exact F4|exact F5|exact F6|].
  intros r o [[= -> ->]|Hin]%elem_of_cons; [exact F7|by apply F8].
Qed.
End Code.
End Trampoline.

(** ** The kernel's own address space *)

Section KernelSpace.
Context {LY : Layout} {LYok : LayoutOk}.

(** The page table at [root] maps the pages [X] of the text of the kernel to themselves,
    and page [V] to page [p], for its data, where [W V p]. *)
Record kernel_space (m : memory) (root : Z) (t : ptshape) (X : Z -> Prop) (W : Z -> Z -> Prop) : Prop := {
  ks_rep : pt_rep m root t;
  ks_text : forall p, X p -> p mod PGSIZE = 0 /\ 0 <= p < MAXVA /\ pt_map m t p = Some (leaf_pte p (Z.lor PTE_R PTE_X));
  ks_data : forall V p, W V p -> V mod PGSIZE = 0 /\ 0 <= V < MAXVA /\ p mod PGSIZE = 0 /\ 0 <= p < 2 ^ 56 /\
    pt_map m t V = Some (leaf_pte p (Z.lor PTE_R PTE_W));
}.

(** The code from [lo] to [hi] lies in the text; the [n] bytes from [va] are those from [pa]. *)
Definition in_text (X : Z -> Prop) (lo hi : Z) : Prop := forall a, lo <= a < hi -> X (a / PGSIZE * PGSIZE).
Definition in_data (W : Z -> Z -> Prop) (va pa n : Z) : Prop :=
  forall o, 0 <= o -> o + 8 <= n -> exists V p off, va + o = V + off /\ pa + o = p + off /\ 0 <= off < PGSIZE /\ W V p.

(** No page of the table [t] is touched by changes in [H]. *)
Definition apart (t : ptshape) (H : Z -> Prop) : Prop := forall k p a, t !! k = Some p -> p <= a < p + PGSIZE -> ~ H a.

Lemma apart_frame m m' root t H : pt_rep m root t -> apart t H -> agree H m m' -> pt_rep m' root t /\ forall va, pt_map m' t va = pt_map m t va.
Proof.
  intros R Ht Ha. assert (forall k p a, t !! k = Some p -> p <= a < p + PGSIZE -> load8 m' a = load8 m a) as Hf by (intros; apply Ha; by eapply Ht).
  split; [by eapply pt_rep_frame|]. intros va. by apply pt_map_frame.
Qed.

Lemma page_of a : a = a / PGSIZE * PGSIZE + a mod PGSIZE /\ a / PGSIZE * PGSIZE mod PGSIZE = 0 /\ 0 <= a mod PGSIZE < PGSIZE.
Proof. split_and!; [|by apply Z.mod_mul|by apply Z.mod_pos_bound|by apply Z.mod_pos_bound]. rewrite Z.mul_comm. by apply Z.div_mod. Qed.

Lemma kernel_fetches m root t X W H lo hi :
  kernel_space m root t X W -> apart t H -> in_text X lo hi -> fetches H Supervisor (MAKE_SATP root) m 0 lo hi.
Proof.
  intros [R Ht _] Hap Hx m' a Ha Hr. destruct (apart_frame m m' root t H R Hap Ha) as [R' E].
  destruct (page_of a) as (Ea & Hp & Ho). destruct (Ht _ (Hx a Hr)) as (_ & Hv & Hm). rewrite Z.add_0_r, Ea. change MAXVA with (2 ^ 38) in *.
  apply (translate_ok Fetch Supervisor m' root t _ _ (Z.lor PTE_R PTE_X)); [discriminate|exact R'|by rewrite E|exact Hv|exact Hp|lia|exact Hp|flags|exact Ho|flags|flags].
Qed.

Lemma kernel_reaches m root t X W H acc va pa n :
  kernel_space m root t X W -> apart t H -> acc <> Fetch -> in_data W va pa n -> reaches H acc Supervisor (MAKE_SATP root) m va pa n.
Proof.
  intros [R _ Hd] Hap Hacc Hw m' o Ha H0 H1. destruct (apart_frame m m' root t H R Hap Ha) as [R' E].
  destruct (Hw o H0 H1) as (V & p & off & -> & -> & Ho & HW). destruct (Hd V p HW) as (HV1 & HV2 & Hp1 & Hp2 & Hm).
  apply (translate_ok acc Supervisor m' root t _ _ (Z.lor PTE_R PTE_W)); [discriminate|exact R'|by rewrite E|exact HV2|exact HV1|exact Hp2|exact Hp1|flags|exact Ho|flags|].
  destruct acc; [congruence|flags|flags].
Qed.

Lemma kernel_area m root t X W H acc va pa n :
  kernel_space m root t X W -> apart t H -> acc <> Fetch -> in_data W va pa n -> va mod 8 = 0 -> 0 <= va -> 8 <= n ->
  area_ok H m acc Supervisor (MAKE_SATP root) va pa n.
Proof.
  intros K Hap Hacc Hw Hv H0 Hn. split; [by eapply kernel_reaches|done|]. split; [done|].
  destruct (Hw (n - 8) ltac:(lia) ltac:(lia)) as (V & p & off & E & _ & Ho & HW). destruct (ks_data _ _ _ _ _ K V p HW) as (_ & HV & _).
  change MAXVA with (2 ^ 38) in HV. unfold PGSIZE in Ho. lia.
Qed.

(** ** Switching contexts *)

(** [struct context] *)
Definition context : list (reg * Z) :=
  [(ra, 0); (sp, 8); (s0, 16); (s1, 24); (s2, 32); (s3, 40); (s4, 48); (s5, 56); (s6, 64); (s7, 72); (s8, 80); (s9, 88); (s10, 96); (s11, 104)].

Lemma context_ok : offsets_ok 112 context /\ NoDup context.*1 /\ NoDup context.*2 /\ a0 ∉ context.*1 /\ a1 ∉ context.*1.
Proof.
  split_and!; apply (bool_decide_unpack _); vm_compute; exact I.
Qed.

Definition in_context (c a : Z) : Prop := c <= a < c + 112.

Context (code : Z -> option (instr * Z)) (sw sw_end : Z).

(** The hart is about to execute [swtch(old, new)] in the kernel. *)
Record calls_swtch (m : mach) (old new : Z) (root : Z) (t : ptshape) (X : Z -> Prop) (W : Z -> Z -> Prop) : Prop := {
  cs_code : placed code swtch sw sw_end;
  cs_text : in_text X sw sw_end;
  cs_mode : c_mode m = Supervisor;
  cs_pc : c_pc m = sw;
  cs_satp : c_csr m Satp = MAKE_SATP root;
  cs_a0 : get m a0 = old;
  cs_a1 : get m a1 = new;
  cs_regs : forall r, 0 <= get m r < 2 ^ 64;
  cs_space : kernel_space (c_mem m) root t X W;
  cs_apart : apart t (in_context old);
  cs_old : in_data W old old 112 /\ old mod 8 = 0;
  cs_new : in_data W new new 112 /\ new mod 8 = 0;
  cs_disj : old + 112 <= new \/ new + 112 <= old;
}.

Lemma swtch_ok m old new root t X W :
  calls_swtch m old new root t X W ->
  reach code m (fun m' => c_mode m' = c_mode m /\ c_csr m' = c_csr m /\ c_pc m' = load64 (c_mem m) (new + 0) /\
    c_mem m' = saves (get m) old context (c_mem m) /\ c_regs m' = loads (c_mem m) new context (c_regs m)).
Proof.
  intros [Hp Ht Hmd Hpc Hsatp Ha0 Ha1 Hr K Hap [Ho Ho8] [Hn Hn8] Hd]. destruct context_ok as (Hof & Hd1 & Hd2 & Hn0 & Hn1).
  change swtch with (sds a0 context ++ lds a1 context ++ [Ret_]) in Hp.
  pose proof (Hr a0) as R0. pose proof (Hr a1) as R1. rewrite Ha0 in R0. rewrite Ha1 in R1.
  pose proof (kernel_fetches _ _ _ _ _ (in_context old) sw sw_end K Hap Ht) as Fe.
  eapply (reach_sds code (in_context old) (c_mem m) 0 sw sw_end _ context a0); [exact Hp|apply Z.le_refl| | |done|exact Hof|].
  { split; [lia|lia|by rewrite Hmd, Hsatp|apply agree_refl]. }
  { rewrite Hmd, Hsatp, Ha0. eapply kernel_area; [exact K|exact Hap|discriminate|exact Ho|exact Ho8|lia|lia]. }
  clear Hp. intros b1 Hp W1.
  eapply (reach_lds code (in_context old) (c_mem m) 0 sw sw_end _ context a1); [exact Hp|apply Z.le_refl|exact W1| |exact Hn1|exact Hof|].
  { cbn [set_pc set_cmem c_mode c_csr]. change (get (set_pc _ _) a1) with (get m a1). rewrite Hmd, Hsatp, Ha1. eapply kernel_area; [exact K|exact Hap|discriminate|exact Hn|exact Hn8|lia|lia]. }
  clear Hp W1. cbv zeta. intros b2 Hp W2. eapply reach_window; [exact Hp|apply Z.le_refl|exact W2|]. intros b3 _ _.
  eexists. split; [reflexivity|]. apply reach_done. cbn [set_pc set_cmem c_regs c_csr c_mem c_mode c_pc].
  assert (loads (saves (get m) old context (c_mem m)) new context (c_regs m) = loads (c_mem m) new context (c_regs m)) as El.
  { apply loads_ext. eapply Forall_impl; [exact Hof|]. intros x (Hx1 & Hx2 & _). apply (load_saves_apart _ _ 112); [exact Hof|lia]. }
  split_and!; [done|done| |done|exact El].
  change (loads (saves (get m) old context (c_mem m)) new context (c_regs m) ra = load64 (c_mem m) (new + 0)). rewrite El. apply loads_in; [exact Hd1|apply list_elem_of_here].
Qed.

(** C18: kernel/swtch.S.  A call [swtch(old, new)] saves the return address, the stack pointer
    and the registers that a function has to preserve in the context [old], loads
    those of the context [new] and goes on at its return address; the other
    registers, the control registers and the rest of memory stay as they are.  Any
    later [swtch(other, old)] that finds the context [old] as it was left goes on
    where the first call was to return to, with the same stack and registers. *)
Theorem swtch_resumes m old new root t X W :
  calls_swtch m old new root t X W ->
  exists n1 m1, steps code n1 m = Some m1 /\ c_mode m1 = Supervisor /\ c_csr m1 = c_csr m /\ agree (in_context old) (c_mem m) (c_mem m1) /\
    c_pc m1 = load64 (c_mem m) (new + 0) /\ (forall r o, (r, o) ∈ context -> get m1 r = load64 (c_mem m) (new + o)) /\
    (forall r, r ∉ context.*1 -> get m1 r = get m r) /\
  forall m2 other root2 t2 X2 W2, calls_swtch m2 other old root2 t2 X2 W2 ->
    (forall r o, (r, o) ∈ context -> load64 (c_mem m2) (old + o) = load64 (c_mem m1) (old + o)) ->
    exists n2 m3, steps code n2 m2 = Some m3 /\ c_pc m3 = get m ra /\ forall r, r ∈ context.*1 -> get m3 r = get m r.
Proof.
  intros C. destruct context_ok as (Hof & Hd1 & Hd2 & _). destruct (swtch_ok _ _ _ _ _ _ _ C) as (n1 & m1 & E1 & A1 & A2 & A3 & A4 & A5).
  exists n1, m1. split_and!; [exact E1|by rewrite A1; apply C|exact A2| |exact A3| | |].
  - rewrite A4. eapply agree_saves; [apply agree_refl|exact Hof|done].
  - intros r o Hin. unfold get. rewrite A5, decide_False; [by apply loads_in|]. intros ->. apply (list_elem_of_fmap_2 fst) in Hin. revert Hin. apply (bool_decide_unpack _). vm_compute. exact I.
  - intros r Hr. unfold get. by rewrite A5, loads_out.
  - intros m2 other root2 t2 X2 W2 C2 Hkept. destruct (swtch_ok _ _ _ _ _ _ _ C2) as (n2 & m3 & E2 & B1 & B2 & B3 & B4 & B5).
    assert (forall r o, (r, o) ∈ context -> load64 (c_mem m2) (old + o) = get m r) as Hs.
    { intros r o Hin. rewrite (Hkept r o Hin), A4. rewrite (load_saves _ _ 112) with (r := r) by done. apply u64_small, C. }
    exists n2, m3. split_and!; [exact E2| |].
    + rewrite B3. apply (Hs ra 0). apply list_elem_of_here.
    + intros r Hr. apply list_elem_of_fmap in Hr as ([r' o] & -> & Hin). unfold get at 1. cbn [fst].
      rewrite B5, decide_False; [|intros ->; apply (list_elem_of_fmap_2 fst) in Hin; revert Hin; apply (bool_decide_unpack _); vm_compute; exact I].
      rewrite (loads_in _ _ _ _ r' o) by done. by apply Hs.
Qed.
End KernelSpace.

(** ** A system call, from user mode and back *)

Section UserCall.
Context {LY : Layout} {LYok : LayoutOk} {WK : Wakeups} {F : Type} {FS : Files F}.
(** The machine code, with the addresses of what the kernel refers to. *)
Context (code : Z -> option (instr * Z)) (kernelvec_ uv uv_end ur ur_end usertrap_ : Z).
Context (uartintr virtio_disk_intr : M (trapst F) unit).
Context (run : Syscall.call -> M (kst F) Z) (complain : Z -> M (kst F) unit).
Abbreviation usertrap := (Trap.usertrap kernelvec_ uv ur usertrap_ (zoom (Syscall.syscall run complain)) uartintr virtio_disk_intr).

(** trampoline.S fills part of the trampoline page. *)
Record linked : Prop := {
  lk_uservec : placed code uservec uv uv_end;
  lk_userret : placed code userret ur ur_end;
  lk_page : trampoline <= uv /\ uv_end <= trampoline + PGSIZE /\ trampoline <= ur /\ ur_end <= trampoline + PGSIZE;
}.

(** The hart [m] executes process [p] in user mode; [s] is what the kernel knows. *)
Record in_user (p : nat) (s : trapst F) (m : mach) : Prop := {
  iu_mode : c_mode m = User;
  iu_regs : forall r, 0 <= get m r < 2 ^ 64;
  iu_cur : cur (k_pt (tr_k s)) = Some p;
  iu_len : (p < length (procs (k_pt (tr_k s))))%nat;
  iu_satp : c_csr m Satp = MAKE_SATP (p_pagetable (procs (k_pt (tr_k s)) !!! p));
  iu_scratch : c_csr m Sscratch = TRAPFRAME;
  iu_stvec : c_csr m Stvec = TRAMPOLINE + (uv - trampoline);
  iu_frame : page_ok (p_trapframe (procs (k_pt (tr_k s)) !!! p));
  iu_user : user_table (c_mem m) (p_pagetable (procs (k_pt (tr_k s)) !!! p)) (p_trapframe (procs (k_pt (tr_k s)) !!! p));
  iu_kernel : exists kroot, kernel_table (c_mem m) kroot (p_trapframe (procs (k_pt (tr_k s)) !!! p)) /\
    load64 (c_mem m) (p_trapframe (procs (k_pt (tr_k s)) !!! p) + 0) = MAKE_SATP kroot;
  iu_kstack : load64 (c_mem m) (p_trapframe (procs (k_pt (tr_k s)) !!! p) + 8) = u64 (p_kstack (procs (k_pt (tr_k s)) !!! p) + PGSIZE);
  iu_trap : load64 (c_mem m) (p_trapframe (procs (k_pt (tr_k s)) !!! p) + 16) = u64 usertrap_;
}.

(** The state of the kernel when the hart gets to its C code, and the hart when the C
    code calls the trampoline with two arguments and [g] in the other registers. *)
Definition enter (s : trapst F) (m : mach) : trapst F :=
  lput (Lens := tr_csrs) (<[Tp := get m tp]> (c_csr m)) (lput (Lens := tr_kst) (set_kmem (c_mem m) (tr_k s)) s).
Definition leave (s : trapst F) (g : reg -> Z) (pc satp : Z) : mach :=
  {| c_regs := <[a0 := TRAPFRAME]> (<[a1 := satp]> g); c_csr := tr_csr s; c_mem := kmem (tr_k s); c_pc := pc; c_mode := Supervisor |}.

(** What a system call other than exec, which does not kill the process, leaves of its
    caller. *)
Record caller_kept (p : nat) (k k2 : kst F) : Prop := {
  ck_cur : cur (k_pt k2) = Some p;
  ck_len : (p < length (procs (k_pt k2)))%nat;
  ck_alive : p_killed (procs (k_pt k2) !!! p) = 0;
  ck_trapframe : p_trapframe (procs (k_pt k2) !!! p) = p_trapframe (procs (k_pt k) !!! p);
  ck_pagetable : p_pagetable (procs (k_pt k2) !!! p) = p_pagetable (procs (k_pt k) !!! p);
  ck_user : user_table (kmem k2) (p_pagetable (procs (k_pt k) !!! p)) (p_trapframe (procs (k_pt k) !!! p));
  ck_kernel : forall root, kernel_table (kmem k) root (p_trapframe (procs (k_pt k) !!! p)) ->
    kernel_table (kmem k2) root (p_trapframe (procs (k_pt k) !!! p));
  ck_regs : forall o, 24 <= o <= 280 ->
    load64 (kmem k2) (p_trapframe (procs (k_pt k) !!! p) + o) = load64 (kmem k) (p_trapframe (procs (k_pt k) !!! p) + o);
}.

Lemma reg_frame r : r <> zero -> exists o, (r, o) ∈ (a0, 112) :: user_regs.
Proof.
  intros Hr. assert (r ∈ ((a0, 112) :: user_regs).*1) as Hin by (destruct r; [done|apply (bool_decide_unpack _); vm_compute; exact I..]).
  apply list_elem_of_fmap in Hin as ([r' o] & -> & Hin). by exists o.
Qed.

(** The registers that [uservec] has saved. *)
Lemma framed_regs g tf m r o : (r, o) ∈ (a0, 112) :: user_regs -> load64 (framed g tf m) (tf + o) = u64 (g r).
Proof.
  destruct user_regs_ok as (Ho & _ & Hd). intros [[= -> ->]|Hin]%elem_of_cons; unfold framed; [apply load64_store64_eq|].
  assert (o <> 112) by (intros ->; apply (list_elem_of_fmap_2 snd) in Hin; revert Hin; apply (bool_decide_unpack _); vm_compute; exact I).
  pose proof (proj1 (Forall_forall _ _) Ho _ Hin) as (_ & _ & H8). cbn [snd] in H8.
  rewrite load64_store64_ne by (clear - H H8; Z.to_euclidean_division_equations; lia).
  by apply (load_saves _ _ PGSIZE).
Qed.

Lemma reach_before m m' (Q : mach -> Prop) : step code m = Some m' -> reach code m' Q -> reach code m Q.
Proof. intros E (k & m2 & Es & HQ). exists (S k), m2. split; [|done]. cbn [steps]. by rewrite E. Qed.

(** The [ecall] of process [p] takes the hart to [usertrap]. *)
Lemma ecall_enters p s m n :
  linked -> in_user p s m -> fetch code m = Some (Ecall, n) ->
  let x := procs (k_pt (tr_k s)) !!! p in
  exists kroot, kernel_table (c_mem m) kroot (p_trapframe x) /\
  reach code m (fun m1 => c_mode m1 = Supervisor /\ c_pc m1 = u64 usertrap_ /\ get m1 sp = u64 (p_kstack x + PGSIZE) /\
    c_csr m1 = <[Satp := MAKE_SATP kroot]> (<[Sscratch := get m a0]> (c_csr (trap 8 m))) /\
    c_mem m1 = framed (get m) (p_trapframe x) (c_mem m)).
Proof.
  intros [L1 L2 L3] [I1 I2 I3 I4 I5 I6 I7 I8 I9 (kroot & I10 & I11) I12 I13] Hf x. exists kroot. split; [done|].
  set (m0 := trap 8 (set_pc (c_pc m) (set_pc (c_pc m + n) m))).
  assert (step code m = Some m0) as Es.
  { unfold step. rewrite Hf. cbn [exec]. change (c_mode (set_pc _ _)) with (c_mode m). by rewrite I1, bool_decide_true. }
  eapply reach_before; [exact Es|]. eapply reach_mono.
  - apply (uservec_ok code uv uv_end m0 (p_trapframe x) (p_pagetable x) kroot L1); [lia|lia|reflexivity|exact I7|exact I5|exact I6|exact I8|exact I9|exact I10|exact I11|exact (I2 a0)].
  - intros m1 (E1 & E2 & E3 & _ & E5 & E6). split_and!; [exact E1| | |exact E5|exact E6].
    + rewrite E2. exact I13.
    + rewrite E3. exact I12.
Qed.

(** What the kernel then finds. *)
Lemma enter_from_user p s m m1 kroot :
  in_user p s m -> c_csr m1 = <[Satp := MAKE_SATP kroot]> (<[Sscratch := get m a0]> (c_csr (trap 8 m))) ->
  from_user p (enter s m1) /\ tr_csr (enter s m1) Scause = 8 /\ tr_csr (enter s m1) Sepc = u64 (c_pc m) /\
  tr_csr (enter s m1) Satp = MAKE_SATP kroot.
Proof.
  intros I Ec. split_and!.
  - split; [|apply I|apply I]. change (Z.land (c_csr m1 Sstatus) SSTATUS_SPP = 0). rewrite Ec. rewrite !csr_get_ne by done.
    change (Z.land (u64 (put_bit 8 (negb (bool_decide (c_mode m = User))) (put_bit 5 (Z.testbit (c_csr m Sstatus) 1) (put_bit 1 false (c_csr m Sstatus))))) SSTATUS_SPP = 0).
    rewrite (iu_mode _ _ _ I), bool_decide_true by done. cbn [negb put_bit]. apply Z.bits_inj'. intros i Hi. rewrite Z.land_spec, Z.bits_0.
    change SSTATUS_SPP with (2 ^ 8). rewrite Z.pow2_bits_eqb by lia. destruct (Z.eqb_spec 8 i) as [<-|]; [|apply andb_false_r].
    unfold u64. rewrite Z.mod_pow2_bits_low, Z.clearbit_eqb by lia. cbn [Z.eqb Pos.eqb negb]. by rewrite andb_false_r.
  - change (c_csr m1 Scause = 8). by rewrite Ec.
  - change (c_csr m1 Sepc = u64 (c_pc m)). by rewrite Ec.
  - change (c_csr m1 Satp = MAKE_SATP kroot). by rewrite Ec.
Qed.

(** The state in which [usertrap] leaves for the trampoline, after the call has returned
    [r] with the state [k2]. *)
Definition answered (p : nat) (s1 : trapst F) (k2 : kst F) (r : Z) : trapst F :=
  leaving uv usertrap_ p (lput (Lens := tr_kst)
    (set_kmem (store64 (kmem k2) (p_trapframe (procs (k_pt k2) !!! p) + tf_arg 0) (u64 r)) k2) (called kernelvec_ p s1)).

Lemma called_agree p (s1 : trapst F) :
  agree (in_page (p_trapframe (procs (k_pt (tr_k s1)) !!! p))) (kmem (tr_k s1)) (kmem (tr_k (called kernelvec_ p s1))).
Proof.
  set (tf := p_trapframe _).
  change (kmem (tr_k (called kernelvec_ p s1))) with
    (store64 (store64 (kmem (tr_k s1)) (tf + tf_epc) (u64 (tr_csr s1 Sepc))) (tf + tf_epc) (u64 (u64 (tr_csr s1 Sepc) + 4))).
  do 2 (apply agree_store64; [|unfold in_page, tf_epc, PGSIZE; lia]). apply agree_refl.
Qed.

Lemma answered_agree p (s1 : trapst F) k2 r :
  agree (in_page (p_trapframe (procs (k_pt k2) !!! p))) (kmem k2) (kmem (tr_k (answered p s1 k2 r))).
Proof.
  set (tf := p_trapframe _).
  match goal with |- agree _ _ ?m => change m with (leaving_mem usertrap_ p (lput (Lens := tr_kst) (set_kmem (store64 (kmem k2) (tf + tf_arg 0) (u64 r)) k2) (called kernelvec_ p s1))) end.
  unfold leaving_mem. do 4 (apply agree_store64; [|unfold in_page, tf_kernel_satp, tf_kernel_sp, tf_kernel_trap, tf_kernel_hartid, PGSIZE; cbn; fold tf; lia]).
  apply agree_store64; [apply agree_refl|unfold in_page, tf_arg, PGSIZE; lia].
Qed.

(** The words of the trap frame that user mode and the next trap depend on. *)
Lemma answered_frame p (s1 : trapst F) k2 r :
  let tf := p_trapframe (procs (k_pt k2) !!! p) in
  let m := kmem (tr_k (answered p s1 k2 r)) in
  load64 m (tf + 0) = u64 (tr_csr s1 Satp) /\ load64 m (tf + 8) = u64 (p_kstack (procs (k_pt k2) !!! p) + PGSIZE) /\
  load64 m (tf + 16) = u64 usertrap_ /\ load64 m (tf + 112) = u64 r /\
  forall o, o = 24 \/ 40 <= o -> o <> 112 -> o mod 8 = 0 -> load64 m (tf + o) = load64 (kmem k2) (tf + o).
Proof.
  intros tf m. set (s2 := lput (Lens := tr_kst) (set_kmem (store64 (kmem k2) (tf + tf_arg 0) (u64 r)) k2) (called kernelvec_ p s1)).
  assert (m = store64 (store64 (store64 (store64 (store64 (kmem k2) (tf + 112) (u64 r)) (tf + 0) (u64 (tr_csr s1 Satp)))
    (tf + 8) (u64 (p_kstack (procs (k_pt k2) !!! p) + PGSIZE))) (tf + 16) (u64 usertrap_)) (tf + 32) (u64 (tr_csr s1 Tp))) as -> by reflexivity.
  split_and!.
  - rewrite !(load64_store64_ne _ _ (tf + 0)) by lia. by rewrite load64_store64_eq, u64_idem.
  - rewrite !(load64_store64_ne _ _ (tf + 8)) by lia. by rewrite load64_store64_eq, u64_idem.
  - rewrite !(load64_store64_ne _ _ (tf + 16)) by lia. by rewrite load64_store64_eq, u64_idem.
  - rewrite !(load64_store64_ne _ _ (tf + 112)) by lia. by rewrite load64_store64_eq, u64_idem.
  - intros o H1 H2 H3. rewrite !load64_store64_ne by (clear - H1 H2 H3; Z.to_euclidean_division_equations; lia). done.
Qed.

Lemma page_entry a stop : a <= stop -> trampoline <= a -> stop <= trampoline + PGSIZE -> u64 (TRAMPOLINE + (a - trampoline)) = TRAMPOLINE + (a - trampoline).
Proof. intros H0 H1 H2. apply u64_small. assert (0 <= TRAMPOLINE < 2 ^ 38) by done. unfold PGSIZE in *. lia. Qed.

(** The control registers on the way out. *)
Lemma answered_csr p (s1 : trapst F) k2 r :
  linked -> caller_kept p (tr_k (called kernelvec_ p s1)) k2 ->
  let c := tr_csr (answered p s1 k2 r) in
  c Satp = tr_csr s1 Satp /\ c Stvec = TRAMPOLINE + (uv - trampoline) /\ Z.testbit (c Sstatus) 8 = false /\ c Sepc = u64 (tr_csr s1 Sepc + 4).
Proof.
  intros [L1 L2 L3] CK. split_and!.
  - reflexivity.
  - rewrite <- (page_entry uv uv_end); [reflexivity|by eapply placed_le|lia|lia].
  - eapply (proj1 (sret_bits _)).
  - destruct (answered_frame p s1 k2 r) as (_ & _ & _ & _ & Ho). destruct (called_facts kernelvec_ p s1) as (_ & _ & He & _).
    etransitivity; [exact (f_equal u64 (Ho 24 ltac:(lia) ltac:(lia) ltac:(done)))|].
    rewrite (ck_trapframe _ _ _ CK), (ck_regs _ _ _ CK) by lia. etransitivity; [exact (f_equal u64 He)|]. apply u64_idem.
Qed.

(** ... and the hart is back in user mode. *)
Lemma call_returns p (s1 : trapst F) k2 r g kroot :
  let x := procs (k_pt (tr_k s1)) !!! p in
  linked -> page_ok (p_trapframe x) -> tr_csr s1 Satp = MAKE_SATP kroot -> kernel_table (kmem (tr_k s1)) kroot (p_trapframe x) ->
  caller_kept p (tr_k (called kernelvec_ p s1)) k2 ->
  let s' := answered p s1 k2 r in
  reach code (leave s' g (TRAMPOLINE + (ur - trampoline)) (MAKE_SATP (p_pagetable (procs (k_pt k2) !!! p)))) (fun m2 =>
    in_user p s' m2 /\ c_pc m2 = u64 (tr_csr s1 Sepc + 4) /\
    forall r' o, (r', o) ∈ (a0, 112) :: user_regs ->
      c_regs m2 r' = if decide (r' = a0) then u64 r else load64 (kmem (tr_k s1)) (p_trapframe x + o)).
Proof.
  intros x L Htf Hsatp Hk CK s'. destruct (answered_csr p s1 k2 r L CK) as (C1 & C2 & C3 & C4). fold s' in C1, C2, C3, C4.
  destruct (answered_frame p s1 k2 r) as (F0 & F8 & F16 & F112 & Fo). fold s' in F0, F8, F16, F112, Fo.
  pose proof (answered_agree p s1 k2 r) as Ag. fold s' in Ag. pose proof (called_agree p s1) as Ag1. destruct (called_facts kernelvec_ p s1) as (_ & _ & _ & Hc).
  assert (p_trapframe (procs (k_pt k2) !!! p) = p_trapframe x) as Etf by exact (ck_trapframe _ _ _ CK).
  assert (p_pagetable (procs (k_pt k2) !!! p) = p_pagetable x) as Ept by exact (ck_pagetable _ _ _ CK).
  rewrite Etf in *. fold x in Ag1, Hc.
  assert (user_table (kmem (tr_k s')) (p_pagetable x) (p_trapframe x)) as HU by (eapply user_table_frame; [exact Htf|exact Ag|exact (ck_user _ _ _ CK)]).
  assert (kernel_table (kmem (tr_k s')) kroot (p_trapframe x)) as HK.
  { eapply kernel_table_frame; [exact Htf|exact Ag|]. apply (ck_kernel _ _ _ CK). by eapply kernel_table_frame. }
  destruct L as [L1 L2 L3].
  eapply reach_mono; [eapply (userret_ok code ur ur_end _ (p_trapframe x) (p_pagetable x) kroot L2); [lia|lia|reflexivity|reflexivity| |reflexivity| |exact C3|exact Htf|exact HU|exact HK]|].
  - etransitivity; [exact C1|exact Hsatp].
  - exact (f_equal MAKE_SATP Ept).
  - intros m2. cbn [c_csr c_mem leave]. intros (M1 & M2 & M3 & M4 & M5 & M6 & M7). split_and!; [|by rewrite M2|].
    + rewrite <- Etf, <- Ept in *. rewrite <- M3 in *. split; try done.
      * intros r'. unfold get. case_decide as Hz; [done|]. destruct (reg_frame r' Hz) as [o Ho]. rewrite (M7 _ _ Ho). apply load64_range.
      * apply CK.
      * apply CK.
      * by rewrite M6.
      * exists kroot. split; [exact HK|]. etransitivity; [exact F0|]. rewrite Hsatp. apply u64_small.
        destruct HK as (t & R & _). apply satp_root, (pr_ok _ _ _ R []), R.
    + intros r' o Hin. rewrite (M7 _ _ Hin). apply elem_of_cons in Hin as [[= -> ->]|Hin]; [by rewrite decide_True|].
      destruct (user_reg_offset r' o Hin) as (Hne & H40 & H112 & H8). rewrite decide_False, Fo, (ck_regs _ _ _ CK), Hc by (done || lia). done.
Qed.

(** The trap frame that the function of the call finds. *)
Lemma called_frame p s m m1 r o :
  in_user p s m -> c_mem m1 = framed (get m) (p_trapframe (procs (k_pt (tr_k s)) !!! p)) (c_mem m) -> (r, o) ∈ (a0, 112) :: user_regs ->
  let tf := p_trapframe (procs (k_pt (tr_k s)) !!! p) in
  load64 (kmem (tr_k (enter s m1))) (tf + o) = get m r /\ load64 (kmem (tr_k (called kernelvec_ p (enter s m1)))) (tf + o) = get m r.
Proof.
  intros I Em Hin tf.
  assert (load64 (kmem (tr_k (enter s m1))) (tf + o) = get m r) as E.
  { change (kmem (tr_k (enter s m1))) with (c_mem m1). rewrite Em. etransitivity; [by apply framed_regs|]. apply u64_small, (iu_regs _ _ _ I). }
  split; [exact E|]. destruct (called_facts kernelvec_ p (enter s m1)) as (_ & _ & _ & Hc).
  etransitivity; [apply Hc|exact E]. apply elem_of_cons in Hin as [[= _ ->]|Hin]; [lia|]. apply user_reg_offset in Hin. lia.
Qed.

(** C6: a system call as the user program sees it, through trampoline.S, trap.c and
    syscall.c.  The hart executes an [ecall] of process [p], with a number of the
    table in a7.  It gets to [usertrap] in supervisor mode, on the kernel stack of the
    process, and has written nothing but the trap frame.  The function of the call
    runs with interrupts on and finds the registers of the program in the trap frame.  If it returns [r] and leaves the
    trap frame, the page tables and the process as they are, [usertrap] comes to call
    [userret], and whatever is then in the registers of the kernel, the hart gets
    back to user mode, after the [ecall], with [r] in a0 and all the other registers
    as they were, and ready for the next trap. *)
Theorem ecall_roundtrip p s m n :
  let x := procs (k_pt (tr_k s)) !!! p in
  let num := s32 (get m a7) in
  linked -> in_user p s m -> fetch code m = Some (Ecall, n) -> p_killed x = 0 -> 0 < num < Z.of_nat (length syscalls) ->
  exists n1 m1, steps code n1 m = Some m1 /\ c_mode m1 = Supervisor /\ c_pc m1 = u64 usertrap_ /\ get m1 sp = u64 (p_kstack x + PGSIZE) /\
  agree (in_page (p_trapframe x)) (c_mem m) (c_mem m1) /\
  let s1 := called kernelvec_ p (enter s m1) in
  Z.testbit (tr_csr s1 Sstatus) 1 = true /\
  (forall r o, (r, o) ∈ (a0, 112) :: user_regs -> load64 (kmem (tr_k s1)) (p_trapframe x + o) = get m r) /\
  forall f r k2, syscalls !!! Z.to_nat num = Some f -> run f (tr_k s1) = Ret r k2 -> caller_kept p (tr_k s1) k2 ->
  exists fn satp s', usertrap (enter s m1) = Ret (fn, satp) s' /\
  forall g, exists n2 m2, steps code n2 (leave s' g fn satp) = Some m2 /\ in_user p s' m2 /\ c_pc m2 = u64 (c_pc m + 4) /\
    forall r', get m2 r' = if decide (r' = a0) then u64 r else get m r'.
Proof.
  intros x num L I Hf Hk Hnum. destruct (ecall_enters p s m n L I Hf) as (kroot & HK & n1 & m1 & E1 & Hm & Hpc & Hsp & Hcsr & Hmem).
  exists n1, m1. split_and!; [exact E1|exact Hm|exact Hpc|exact Hsp|rewrite Hmem; apply framed_agree|]. cbv zeta.
  destruct (enter_from_user p s m m1 kroot I Hcsr) as (HF & H8 & Hepc & Hsatp).
  destruct (called_facts kernelvec_ p (enter s m1)) as (_ & Hsie & _). split; [exact Hsie|].
  split; [intros r o Hin; by apply (called_frame p s m m1 r o I Hmem)|].
  intros f r k2 Hfn Hr CK.
  assert (load64 (kmem (tr_k (enter s m1))) (p_trapframe x + tf_a7) = get m a7) as Ea7.
  { refine (proj1 (called_frame p s m m1 a7 168 I Hmem _)). apply (bool_decide_unpack _). vm_compute. exact Logic.I. }
  do 3 eexists. split.
  - apply (usertrap_syscall kernelvec_ uv ur usertrap_ uartintr virtio_disk_intr run complain p (enter s m1) f r k2 HF H8 Hk); [| |exact Hr|apply CK|apply CK];
      cbv zeta; change (p_trapframe (procs (k_pt (tr_k (enter s m1))) !!! p)) with (p_trapframe x); rewrite Ea7; done.
  - intros g. destruct (call_returns p (enter s m1) k2 r g kroot L (iu_frame _ _ _ I) Hsatp) as (n2 & m2 & E2 & IU & Hpc2 & Hregs); [|exact CK|].
    { change (kmem (tr_k (enter s m1))) with (c_mem m1). rewrite Hmem. eapply kernel_table_frame; [apply I|apply framed_agree|exact HK]. }
    exists n2, m2. split_and!; [exact E2|exact IU| |].
    + rewrite Hpc2, Hepc. unfold u64. by rewrite Zplus_mod_idemp_l.
    + intros r'. destruct (decide (r' = zero)) as [->|Hz]; [done|]. destruct (reg_frame r' Hz) as [o Ho].
      unfold get at 1. rewrite decide_False by done. rewrite (Hregs _ _ Ho). case_decide; [done|]. by apply (called_frame p s m m1 r' o I Hmem).
Qed.
End UserCall.

(** ** Interrupts while the kernel runs *)

Section KernelTrap.
Context {LY : Layout} {LYok : LayoutOk} {WK : Wakeups} {F : Type} {FS : Files F}.
Context (code : Z -> option (instr * Z)) (kv kv_end kerneltrap_ : Z).
Context (uartintr virtio_disk_intr : M (trapst F) unit).
Abbreviation kerneltrap := (Trap.kerneltrap uartintr virtio_disk_intr).

(** [kerneltrap] puts back the control registers that [sret] uses, whatever happens in between. *)
Lemma kerneltrap_restores (s : trapst F) :
  results (fun _ s' => tr_csr s' Sepc = u64 (tr_csr s Sepc) /\ tr_csr s' Sstatus = u64 (tr_csr s Sstatus)) (kerneltrap s).
Proof.
  unfold Trap.kerneltrap, r_sepc, r_sstatus, csrr. rewrite !bind_zoom_gets. destruct (_ =? 0); [done|].
  apply results_then. intros [] s1; [done|]. apply results_then. intros d s2. destruct (d =? 0); [done|].
  do 3 (apply results_then; intros ? ?). split; reflexivity.
Qed.

(** The places of the registers in the frame, and those that are loaded again. *)
Definition frame_regs : list (reg * Z) :=
  [(ra, 0); (sp, 8); (gp, 16); (tp, 24); (t0, 32); (t1, 40); (t2, 48); (s0, 56); (s1, 64); (a0, 72); (a1, 80); (a2, 88); (a3, 96); (a4, 104);
   (a5, 112); (a6, 120); (a7, 128); (s2, 136); (s3, 144); (s4, 152); (s5, 160); (s6, 168); (s7, 176); (s8, 184); (s9, 192); (s10, 200);
   (s11, 208); (t3, 216); (t4, 224); (t5, 232); (t6, 240)].
Definition restored_regs : list (reg * Z) := filter (fun x => x.1 ∉ [ra; sp; tp]) frame_regs.

Definition resume : list instr := lds sp [(ra, 0)] ++ Ld sp 8 sp :: lds sp restored_regs ++ [Addi sp sp 256; Sret].
Lemma kernelvec_parts : kernelvec kerneltrap_ = Addi sp sp (-256) :: sds sp frame_regs ++ Call kerneltrap_ :: resume.
Proof. reflexivity. Qed.

Lemma frame_regs_ok : offsets_ok 256 frame_regs /\ NoDup frame_regs.*1 /\ NoDup frame_regs.*2 /\
  offsets_ok 256 restored_regs /\ NoDup restored_regs.*1 /\ sp ∉ restored_regs.*1 /\ ra ∉ restored_regs.*1 /\ tp ∉ restored_regs.*1.
Proof.
  split_and!; (apply (bool_decide_unpack _); vm_compute; exact I).
Qed.

Lemma restored_reg r : r <> zero -> r <> sp -> r <> tp -> exists o, (r, o) ∈ (ra, 0) :: restored_regs /\ (r, o) ∈ frame_regs.
Proof.
  intros Hz Hs Ht. assert (r ∈ ((ra, 0) :: restored_regs).*1) as Hin by (destruct r; try done; apply (bool_decide_unpack _); vm_compute; exact I).
  apply list_elem_of_fmap in Hin as ([r' o] & -> & Hin). exists o. split; [exact Hin|]. apply elem_of_cons in Hin as [[= -> ->]|Hin]; [apply list_elem_of_here|].
  by apply list_elem_of_filter in Hin as [_ Hin].
Qed.

Definition in_frame (f a : Z) : Prop := f <= a < f + 256.

(** The kernel runs, in an address space with room on the stack: [pa] is the physical
    address of the frame. *)
Record in_kernel (m : mach) (pa root : Z) (t : ptshape) (X : Z -> Prop) (W : Z -> Z -> Prop) : Prop := {
  ik_code : placed code (kernelvec kerneltrap_) kv kv_end;
  ik_text : in_text X kv kv_end;
  ik_mode : c_mode m = Supervisor;
  ik_pc : 0 <= c_pc m < 2 ^ 64;
  ik_satp : c_csr m Satp = MAKE_SATP root;
  ik_stvec : c_csr m Stvec = kv;
  ik_regs : forall r, 0 <= get m r < 2 ^ 64;
  ik_space : kernel_space (c_mem m) root t X W;
  ik_apart : apart t (in_frame pa);
  ik_stack : in_data W (get m sp - 256) pa 256 /\ get m sp mod 8 = 0 /\ 256 <= get m sp;
}.

(** The registers as they are saved. *)
Definition lowered (m : mach) (r : reg) : Z := if decide (r = sp) then get m sp - 256 else get m r.

Lemma text_range root m t X W lo hi a : kernel_space m root t X W -> in_text X lo hi -> lo < hi -> lo <= a <= hi -> 0 <= a < 2 ^ 64.
Proof.
  intros K Ht Hlt Ha. assert (forall b, lo <= b < hi -> 0 <= b < 2 ^ 39) as Hb.
  { intros b Hb. destruct (ks_text _ _ _ _ _ K _ (Ht b Hb)) as (_ & Hp & _). destruct (page_of b) as (E & _ & Ho). change MAXVA with (2 ^ 38) in Hp. unfold PGSIZE in *. lia. }
  destruct (Z.eq_dec a hi) as [->|]; [pose proof (Hb (hi - 1) ltac:(lia)); lia|pose proof (Hb a ltac:(lia)); lia].
Qed.

Lemma kernelvec_saves cause m pa root t X W :
  in_kernel m pa root t X W ->
  reach code (trap cause m) (fun m1 => c_mode m1 = Supervisor /\ c_pc m1 = kerneltrap_ /\ c_csr m1 = c_csr (trap cause m) /\
    c_mem m1 = saves (lowered m) pa frame_regs (c_mem m) /\ get m1 sp = get m sp - 256 /\ kv <= get m1 ra /\ placed code resume (get m1 ra) kv_end).
Proof.
  intros [Hp Ht Hmd Hpc Hsatp Hvec Hr K Hap (Hst & Hsp8 & Hsp)]. rewrite kernelvec_parts in Hp. destruct frame_regs_ok as (Hof & _).
  set (m0 := trap cause m). pose proof (kernel_fetches _ _ _ _ _ (in_frame pa) kv kv_end K Hap Ht) as Fe.
  assert (forall g c pc b, c Satp = MAKE_SATP root -> pc = b + 0 -> kv <= b -> window (in_frame pa) (c_mem m) 0 kv kv_end (Mach g c (c_mem m) pc Supervisor) b) as Wn.
  { intros g c pc b Ec Epc Hb. split; [done|done| |apply agree_refl]. cbn [c_mode c_csr]. by rewrite Ec. }
  eapply (reach_window code (in_frame pa) (c_mem m) 0 kv kv_end); [exact Hp|apply Z.le_refl| |].
  { apply Wn; [exact Hsatp|cbn; lia|lia]. }
  clear Hp. intros b1 H1 Hp. eexists. split; [reflexivity|]. change (get (set_pc (b1 + 0) m0) sp) with (get m sp).
  unfold set_reg, set_pc. cbn [c_regs c_csr c_mem c_mode c_pc]. rewrite u64_small by (pose proof (Hr sp); lia).
  eapply (reach_sds code (in_frame pa) (c_mem m) 0 kv kv_end _ frame_regs sp); [exact Hp|apply Z.le_refl|by apply Wn| |done|exact Hof|].
  { match goal with |- area_ok _ _ _ _ _ ?x _ _ => change x with (get m sp - 256) end. cbn [c_mode c_csr]. change (c_csr m0 Satp) with (c_csr m Satp). rewrite Hsatp.
    eapply kernel_area; [exact K|exact Hap|discriminate|exact Hst| |lia|lia]. rewrite Zminus_mod, Hsp8. reflexivity. }
  clear Hp. intros b2 Hp W2. eapply reach_window; [exact Hp|apply Z.le_refl|exact W2|]. intros b3 H3 Hp3.
  eexists. split; [reflexivity|]. apply reach_done. pose proof (placed_le _ _ _ _ Hp3) as Hle.
  assert (u64 (b3 + 0) = b3) as Eb.
  { rewrite Z.add_0_r. apply u64_small. destruct Hp as (k & _ & Hk & Hp). apply placed_le in Hp. destruct W2 as [_ Hlo _ _]. eapply text_range; [exact K|exact Ht|lia|lia]. }
  split_and!; [reflexivity|reflexivity|reflexivity| |reflexivity| |].
  - cbn [set_pc set_reg set_cmem c_mem]. apply saves_ext. intros r _. unfold lowered, get. cbn [c_regs]. destruct (decide (r = sp)) as [->|Hne]; [done|].
    case_decide; [done|]. by apply fn_lookup_insert_ne.
  - change (kv <= u64 (b3 + 0)). by rewrite Eb.
  - change (placed code resume (u64 (b3 + 0)) kv_end). by rewrite Eb.
Qed.

Lemma resume_ok a m pa root t X W :
  placed code resume a kv_end -> kv <= a -> in_text X kv kv_end -> kernel_space (c_mem m) root t X W -> apart t (in_frame pa) ->
  c_mode m = Supervisor -> c_pc m = a -> c_csr m Satp = MAKE_SATP root -> in_data W (get m sp) pa 256 -> get m sp mod 8 = 0 -> 0 <= get m sp ->
  load64 (c_mem m) (pa + 8) = get m sp ->
  reach code m (fun m3 => c_mode m3 = (if Z.testbit (c_csr m Sstatus) 8 then Supervisor else User) /\ c_pc m3 = c_csr m Sepc /\
    c_csr m3 Sstatus = u64 (put_bit 8 false (put_bit 5 true (put_bit 1 (Z.testbit (c_csr m Sstatus) 5) (c_csr m Sstatus)))) /\
    get m3 sp = u64 (get m sp + 256) /\ get m3 tp = get m tp /\ forall r o, (r, o) ∈ (ra, 0) :: restored_regs -> get m3 r = load64 (c_mem m) (pa + o)).
Proof.
  intros Hp Ha Ht K Hap Hmd Hpc Hsatp Hst Hsp8 Hsp Hl. destruct frame_regs_ok as (_ & _ & _ & Hor & Hd & Hnsp & Hnra & Hntp).
  pose proof (kernel_fetches _ _ _ _ _ (in_frame pa) kv kv_end K Hap Ht) as Fe.
  pose proof (kernel_area _ _ _ _ _ (in_frame pa) Load (get m sp) pa 256 K Hap ltac:(discriminate) Hst Hsp8 Hsp ltac:(lia)) as A.
  eapply (reach_lds code (in_frame pa) (c_mem m) 0 kv kv_end _ [(ra, 0)] sp); [exact Hp|apply Z.le_refl| |by rewrite Hmd, Hsatp| | |].
  { split; [lia|done|by rewrite Hmd, Hsatp|apply agree_refl]. }
  { apply (bool_decide_unpack _). vm_compute. exact I. }
  { apply Forall_cons; split; [by vm_compute|by apply Forall_nil]. }
  clear Hp. cbv zeta. intros b1 Hp W1. cbn [loads fst snd] in *. set (g := <[ra := load64 (c_mem m) (pa + 0)]> (c_regs m)) in *.
  assert (get m sp = g sp) as Esp by reflexivity.
  eapply reach_window; [exact Hp|apply Z.le_refl|exact W1|]. clear Hp. intros b2 H2 Hp. cbn [exec].
  rewrite (area_addressed (in_frame pa) (c_mem m) Load (set_pc (b2 + 0) _) sp pa 256 8); [|cbn [c_mode c_csr set_pc]; by rewrite Hmd, Hsatp|apply agree_refl|lia|lia|done].
  eexists. split; [reflexivity|]. unfold set_reg, set_pc. cbn [c_regs c_csr c_mem c_mode c_pc]. rewrite Hl, u64_small by (rewrite <- Hl; apply load64_range).
  eapply (reach_lds code (in_frame pa) (c_mem m) 0 kv kv_end _ restored_regs sp); [exact Hp|apply Z.le_refl|eapply window_next; [exact W1|done..]|cbn [c_mode c_csr]; by rewrite Hmd, Hsatp|exact Hnsp|exact Hor|].
  clear Hp W1. cbv zeta. intros b3 Hp W3. cbn [c_regs c_csr c_mem c_mode c_pc] in *. set (g2 := loads (c_mem m) pa restored_regs (<[sp := get m sp]> g)) in *.
  assert (g2 sp = get m sp) as Eg by (unfold g2; rewrite loads_out by done; apply fn_lookup_insert).
  eapply reach_window; [exact Hp|apply Z.le_refl|exact W3|]. clear Hp. intros b4 H4 Hp. eexists. split; [reflexivity|].
  eapply reach_window; [exact Hp|apply Z.le_refl|eapply window_next; [exact W3|done..]|]. intros b5 _ _. cbn [exec].
  rewrite bool_decide_false by (cbn; rewrite Hmd; discriminate). eexists. split; [reflexivity|]. apply reach_done.
  split_and!; [reflexivity|reflexivity|reflexivity| | |].
  - change (u64 (g2 sp + 256) = u64 (get m sp + 256)). by rewrite Eg.
  - change (g2 tp = get m tp). unfold g2. by rewrite loads_out.
  - intros r o [[= -> ->]|Hin]%elem_of_cons.
    + change (g2 ra = load64 (c_mem m) (pa + 0)). unfold g2. by rewrite loads_out.
    + assert (r <> zero /\ r <> sp) as [Hz Hs] by (split; intros ->; apply (list_elem_of_fmap_2 fst) in Hin; revert Hin; apply (bool_decide_unpack _); vm_compute; exact I).
      unfold get. rewrite decide_False by done. etransitivity; [exact (fn_lookup_insert_ne g2 sp r _ (not_eq_sym Hs))|]. unfold g2. by apply loads_in.
Qed.

Lemma put_bit_spec i b x j : 0 <= i -> 0 <= j -> Z.testbit (put_bit i b x) j = if i =? j then b else Z.testbit x j.
Proof.
  intros Hi Hj. unfold put_bit. destruct b; [rewrite Z.setbit_eqb by lia|rewrite Z.clearbit_eqb by lia]; destruct (Z.eqb_spec i j); cbn; rewrite ?andb_false_r, ?andb_true_r; done.
Qed.

Lemma u64_bit x j : 0 <= j < 64 -> Z.testbit (u64 x) j = Z.testbit x j.
Proof. intros Hj. unfold u64. by rewrite Z.mod_pow2_bits_low by lia. Qed.

(** The C code returns to [m1] in the state [s']: as the calling convention has it, the
    stack is the caller's. *)
Record returned (m1 m2 : mach) (s' : trapst F) (pa root : Z) (t : ptshape) (X : Z -> Prop) (W : Z -> Z -> Prop) : Prop := {
  rt_mode : c_mode m2 = Supervisor;
  rt_pc : c_pc m2 = get m1 ra;
  rt_sp : get m2 sp = get m1 sp;
  rt_satp : c_csr m2 Satp = MAKE_SATP root;
  rt_sepc : c_csr m2 Sepc = tr_csr s' Sepc;
  rt_sstatus : c_csr m2 Sstatus = tr_csr s' Sstatus;
  rt_space : kernel_space (c_mem m2) root t X W;
  rt_apart : apart t (in_frame pa);
  rt_frame : forall o, 0 <= o -> o + 8 <= 256 -> load64 (c_mem m2) (pa + o) = load64 (c_mem m1) (pa + o);
}.

(** C19: an interrupt while the kernel runs, through kernelvec.S and [kerneltrap] of trap.c.
    The hart gets from the trap to [kerneltrap], and has written nothing but a frame
    on the stack.  However [kerneltrap] goes on (it may give up the CPU, and then
    other code changes what it likes): when it returns with the frame as it was, the
    hart goes on where it was interrupted, in supervisor mode, with interrupts on
    or off as before and all registers as before, except tp, which is that of the
    CPU it is on now. *)
Theorem interrupt_transparent cause s m pa root t X W :
  in_kernel m pa root t X W ->
  exists n1 m1, steps code n1 (trap cause m) = Some m1 /\ c_mode m1 = Supervisor /\ c_pc m1 = kerneltrap_ /\
    agree (in_frame pa) (c_mem m) (c_mem m1) /\
  results (fun _ s' => forall m2 t2, returned m1 m2 s' pa root t2 X W ->
    exists n2 m3, steps code n2 m2 = Some m3 /\ c_mode m3 = Supervisor /\ c_pc m3 = c_pc m /\
      Z.testbit (c_csr m3 Sstatus) 1 = Z.testbit (c_csr m Sstatus) 1 /\ get m3 tp = get m2 tp /\ forall r, r <> tp -> get m3 r = get m r)
    (kerneltrap (enter s m1)).
Proof.
  intros I. destruct (kernelvec_saves cause m pa root t X W I) as (n1 & m1 & E1 & Hm & Hpc & Hcsr & Hmem & Hsp & Hra & Hp).
  destruct I as [_ Ht Hmd Hpcr Hsatp Hvec Hr K Hap (Hst & Hsp8 & Hsp256)]. destruct frame_regs_ok as (Hof & Hd1 & Hd2 & _).
  exists n1, m1. split_and!; [exact E1|exact Hm|exact Hpc|rewrite Hmem; eapply agree_saves; [apply agree_refl|exact Hof|done]|].
  eapply results_mono; [apply (kerneltrap_restores (enter s m1))|]. intros [] s' [Es Est] m2 t2 [R1 R2 R3 R4 R5 R6 R7 R8 R9].
  assert (c_csr m2 Sepc = c_pc m) as Esepc.
  { rewrite R5, Es. change (tr_csr (enter s m1) Sepc) with (c_csr m1 Sepc). rewrite Hcsr. change (c_csr (trap cause m) Sepc) with (u64 (c_pc m)). by rewrite u64_idem, u64_small. }
  assert (forall j, 0 <= j < 64 -> Z.testbit (c_csr m2 Sstatus) j = Z.testbit (put_bit 8 true (put_bit 5 (Z.testbit (c_csr m Sstatus) 1) (put_bit 1 false (c_csr m Sstatus)))) j) as Ebit.
  { intros j Hj. rewrite R6, Est, u64_bit by lia. change (tr_csr (enter s m1) Sstatus) with (c_csr m1 Sstatus). rewrite Hcsr. cbn [trap c_csr set_mode set_pc set_csr].
    rewrite !csr_get_ne, csr_get, Hmd, u64_bit by (done || lia). done. }
  assert (forall r o, (r, o) ∈ frame_regs -> load64 (c_mem m2) (pa + o) = u64 (lowered m r)) as Hfr.
  { intros r o Hin. pose proof (proj1 (Forall_forall _ _) Hof _ Hin) as (O1 & O2 & _). cbn [snd] in *. rewrite R9, Hmem by lia. by apply (load_saves _ _ 256). }
  assert (get m2 sp = get m sp - 256) as Esp by (rewrite R3; exact Hsp).
  destruct (resume_ok (get m1 ra) m2 pa root t2 X W) as (n2 & m3 & E3 & M1 & M2 & M3 & M4 & M5 & M6); rewrite ?Esp; try done.
  - rewrite Zminus_mod, Hsp8. done.
  - lia.
  - etransitivity; [apply (Hfr sp); apply (bool_decide_unpack _); vm_compute; exact Logic.I|]. change (lowered m sp) with (get m sp - 256). apply u64_small. pose proof (Hr sp). lia.
  - exists n2, m3. split_and!; [exact E3|rewrite M1, Ebit, put_bit_spec by lia; done|by rewrite M2| |exact M5|].
    + by rewrite M3, u64_bit, !put_bit_spec, Ebit, !put_bit_spec by lia.
    + intros r Htp. destruct (decide (r = sp)) as [->|Hs]; [rewrite M4, Esp; replace (get m sp - 256 + 256) with (get m sp) by lia; by apply u64_small|].
      destruct (decide (r = zero)) as [->|Hz]; [done|]. destruct (restored_reg r Hz Hs Htp) as (o & Ho & Hin).
      rewrite (M6 r o Ho), (Hfr r o Hin). unfold lowered. rewrite decide_False by done. by apply u64_small.
Qed.
End KernelTrap.

(** ** Timer interrupts, in machine mode *)

Section Timer.
Context (code : Z -> option (instr * Z)) (tv tv_end mscratch0 : Z).

Lemma machine_area H m acc satp a n : a mod 8 = 0 -> 0 <= a -> a + n < 2 ^ 64 -> area_ok H m acc Machine satp a a n.
Proof. intros H8 H0 Hn. split; [|done|done]. intros m' o _ _ _. reflexivity. Qed.
Lemma machine_fetches H m satp lo hi : fetches H Machine satp m 0 lo hi.
Proof. intros m' b _ _. unfold translate. rewrite bool_decide_true by done. cbn [orb]. by rewrite Z.add_0_r. Qed.

Definition scratch (id : Z) : Z := mscratch0 + 8 * (32 * id).

(** What [timerinit] has left for [timervec], on the hart [id]. *)
Lemma timerinit_ok (h : hart) :
  let id := s32 (h_csr h Mhartid) in
  exists h', timerinit tv mscratch0 h = Ret tt h' /\ h_csr h' Mscratch = u64 (scratch id) /\ h_csr h' Mtvec = u64 tv /\
    load64 (h_mem h') (scratch id + 32) = u64 (CLINT_MTIMECMP id) /\ load64 (h_mem h') (scratch id + 40) = 1000000 /\
    Z.testbit (h_csr h' Mie) 7 = true.
Proof.
  intros id. unfold timerinit. repeat mstep. cbv zeta. repeat mstep. eexists. split; [reflexivity|]. split_and!; [reflexivity|reflexivity| | |].
  all: try match goal with |- load64 (h_mem ?x) _ = _ => change (h_mem x) with
      (store64 (store64 (store64 (h_mem h) (CLINT_MTIMECMP id) (u64 (load64 (h_mem h) CLINT_MTIME + 1000000)))
        (scratch id + 32) (u64 (CLINT_MTIMECMP id))) (scratch id + 40) (u64 1000000)) end.
  - rewrite load64_store64_ne, load64_store64_eq by lia. apply u64_idem.
  - apply load64_store64_eq.
  - change (Z.testbit (u64 (Z.lor (h_csr h Mie) MIE_MTIE)) 7 = true). rewrite u64_bit, Z.lor_spec by lia. apply orb_true_r.
Qed.

(** The words that [timervec] writes: its save area and [mtimecmp]. *)
Definition ticked (sc cmp a : Z) : Prop := sc <= a < sc + 24 \/ cmp <= a < cmp + 8.

Definition timer_regs : list (reg * Z) := [(a3, 16); (a2, 8); (a1, 0)].

(** The state while [timervec] runs. *)
Record ticking (me : memory) (sc cmp : Z) (m : mach) (b : Z) : Prop := {
  tk_mode : c_mode m = Machine;
  tk_pc : c_pc m = b + 0;
  tk_lo : tv <= b;
  tk_agree : agree (ticked sc cmp) me (c_mem m);
}.

Lemma ticking_window me sc cmp m b : ticking me sc cmp m b -> window (ticked sc cmp) me 0 tv tv_end m b.
Proof. intros [T1 T2 T3 T4]. split; [done|done|rewrite T1; apply machine_fetches|done]. Qed.

Lemma timer_step (Q : mach -> Prop) me sc cmp i prog b m :
  placed code (i :: prog) b tv_end -> ticking me sc cmp m b ->
  (forall b', tv <= b' -> placed code prog b' tv_end -> exists m', exec i (b + 0) (set_pc (b' + 0) m) = Some m' /\ reach code m' Q) -> reach code m Q.
Proof. intros Hp Ht Hk. by eapply (reach_window code (ticked sc cmp) me 0 tv tv_end); [exact Hp|apply Z.le_refl|apply ticking_window|]. Qed.

Lemma timer_loads (Q : mach -> Prop) me sc cmp l r prog b m n :
  placed code (lds r l ++ prog) b tv_end -> ticking me sc cmp m b -> offsets_ok n l -> r ∉ l.*1 ->
  get m r mod 8 = 0 -> 0 <= get m r -> get m r + n < 2 ^ 64 ->
  (forall b', placed code prog b' tv_end ->
     let m' := Mach (loads (c_mem m) (get m r) l (c_regs m)) (c_csr m) (c_mem m) (b' + 0) Machine in ticking me sc cmp m' b' -> reach code m' Q) ->
  reach code m Q.
Proof.
  intros Hp Ht Ho Hr H8 H0 Hn Hk. eapply (reach_lds code (ticked sc cmp) me 0 tv tv_end _ l r); [exact Hp|apply Z.le_refl|by apply ticking_window| |exact Hr|exact Ho|].
  { rewrite (tk_mode _ _ _ _ _ Ht). by apply machine_area. }
  cbv zeta. rewrite (tk_mode _ _ _ _ _ Ht). intros b' Hp' W. apply Hk; [exact Hp'|]. destruct W as [W1 W2 W3 W4], Ht as [T1 T2 T3 T4]. by split.
Qed.

Lemma timer_stores (Q : mach -> Prop) me sc cmp l r prog b m n :
  placed code (sds r l ++ prog) b tv_end -> ticking me sc cmp m b -> offsets_ok n l -> (forall x, get m r <= x < get m r + n -> ticked sc cmp x) ->
  get m r mod 8 = 0 -> 0 <= get m r -> get m r + n < 2 ^ 64 ->
  (forall b', placed code prog b' tv_end ->
     let m' := Mach (c_regs m) (c_csr m) (saves (get m) (get m r) l (c_mem m)) (b' + 0) Machine in ticking me sc cmp m' b' -> reach code m' Q) ->
  reach code m Q.
Proof.
  intros Hp Ht Ho Hr H8 H0 Hn Hk. eapply (reach_sds code (ticked sc cmp) me 0 tv tv_end _ l r); [exact Hp|apply Z.le_refl|by apply ticking_window| |exact Hr|exact Ho|].
  { rewrite (tk_mode _ _ _ _ _ Ht). by apply machine_area. }
  unfold set_pc, set_cmem. cbn [c_regs c_csr c_mem c_mode c_pc]. rewrite (tk_mode _ _ _ _ _ Ht). intros b' Hp' W. apply Hk; [exact Hp'|]. destruct W as [W1 W2 W3 W4]. by split.
Qed.

(** The second half: registers are put back. *)
Lemma timervec_back me sc cmp m b :
  placed code (Li a1 2 :: Csrw Sip a1 :: lds a0 timer_regs ++ [Csrrw a0 Mscratch a0; Mret]) b tv_end -> ticking me sc cmp m b ->
  get m a0 = sc -> sc mod 8 = 0 -> 0 <= sc -> sc + 24 < 2 ^ 64 -> 0 <= c_csr m Mscratch < 2 ^ 64 ->
  reach code m (fun m' => c_pc m' = c_csr m Mepc /\ c_csr m' Mscratch = sc /\ c_csr m' Sip = 2 /\ c_mem m' = c_mem m /\
    c_regs m' = <[a0 := c_csr m Mscratch]> (loads (c_mem m) sc timer_regs (<[a1 := 2]> (c_regs m)))).
Proof.
  intros Hp [T1 T2 T3 T4] Ha0 H8 H0 H1 Hms. destruct m as [g cs mm pc md]. cbn [c_mode c_pc c_csr c_mem c_regs] in *. subst md.
  assert (forall g c b', tv <= b' -> ticking me sc cmp (Mach g c mm (b' + 0) Machine) b') as Tn by (intros; by split).
  eapply timer_step; [exact Hp|by split|]. clear Hp. intros b1 B1 Hp. eexists. split; [reflexivity|]. unfold set_reg, set_pc. cbn [c_regs c_csr c_mem c_mode c_pc].
  eapply timer_step; [exact Hp|by apply Tn|]. clear Hp. intros b2 B2 Hp. eexists. split; [reflexivity|]. unfold set_csr, set_pc. cbn [c_regs c_csr c_mem c_mode c_pc].
  eapply (timer_loads _ me sc cmp timer_regs a0 _ _ _ 24); [exact Hp|by apply Tn|apply (bool_decide_unpack _); vm_compute; exact I|apply (bool_decide_unpack _); vm_compute; exact I| | | |].
  all: match goal with |- context [get (Mach ?a ?b ?c ?d ?e) a0] => change (get (Mach a b c d e) a0) with (get (Mach g cs mm pc Machine) a0) end; rewrite Ha0; try done.
  clear Hp. cbv zeta. intros b3 Hp T3'. cbn [c_regs c_csr c_mem c_mode c_pc] in *.
  eapply timer_step; [exact Hp|exact T3'|]. clear Hp. intros b4 B4 Hp. eexists. split; [reflexivity|]. unfold set_reg, set_csr, set_pc. cbn [c_regs c_csr c_mem c_mode c_pc].
  eapply timer_step; [exact Hp|by apply Tn|]. intros b5 B5 _. eexists. split; [reflexivity|]. apply reach_done.
  unfold mret_instr, set_mode, set_csr, set_pc. cbn [c_regs c_csr c_mem c_mode c_pc].
  split_and!; [reflexivity| |reflexivity|reflexivity|].
  - rewrite csr_get_ne, csr_get by done. unfold get. rewrite decide_False by done. cbn [c_regs]. rewrite loads_out by (apply (bool_decide_unpack _); vm_compute; exact I).
    etransitivity; [|apply (u64_small sc); lia]. f_equal. rewrite <- Ha0. reflexivity.
  - rewrite csr_get_ne by done. rewrite u64_small by done. reflexivity.
Qed.

(** From the save area to the new time. *)
Lemma timervec_middle me M1 g cs sc cmp b :
  let now := load64 M1 (cmp + 0) in
  let M2 := store64 M1 (cmp + 0) (u64 (now + load64 M1 (sc + 40))) in
  placed code (lds a0 [(a1, 32); (a2, 40)] ++ lds a1 [(a3, 0)] ++ Add a3 a3 a2 :: sds a1 [(a3, 0)] ++
    Li a1 2 :: Csrw Sip a1 :: lds a0 timer_regs ++ [Csrrw a0 Mscratch a0; Mret]) b tv_end ->
  ticking me sc cmp (Mach g cs M1 (b + 0) Machine) b -> g a0 = sc -> load64 M1 (sc + 32) = cmp ->
  0 <= sc -> sc + 48 < 2 ^ 64 -> sc mod 8 = 0 -> cmp + 8 < 2 ^ 64 -> cmp mod 8 = 0 -> 0 <= cs Mscratch < 2 ^ 64 ->
  reach code (Mach g cs M1 (b + 0) Machine) (fun m' => c_pc m' = cs Mepc /\ c_csr m' Mscratch = sc /\ c_csr m' Sip = 2 /\ c_mem m' = M2 /\
    get m' a0 = cs Mscratch /\ get m' a1 = load64 M2 (sc + 0) /\ get m' a2 = load64 M2 (sc + 8) /\ get m' a3 = load64 M2 (sc + 16) /\
    forall r, r ∉ [a0; a1; a2; a3] -> get m' r = get (Mach g cs M1 (b + 0) Machine) r).
Proof.
  intros now M2 Hp T Ea0 E32 Hs0 Hs1 Hs8 Hc1 Hc8 Hms. pose proof (load64_range M1 (sc + 32)) as Hc0. rewrite E32 in Hc0.
  eapply (timer_loads _ me sc cmp [(a1, 32); (a2, 40)] a0 _ _ _ 48); [exact Hp|exact T|apply (bool_decide_unpack _); vm_compute; exact I|apply (bool_decide_unpack _); vm_compute; exact I| | | |].
  all: change (get (Mach g cs M1 (b + 0) Machine) a0) with (g a0); rewrite Ea0; try done.
  clear Hp. cbv zeta. intros b1 Hp T1. cbn [c_regs c_csr c_mem loads fst snd] in *. rewrite E32 in T1 |- *.
  eapply (timer_loads _ me sc cmp [(a3, 0)] a1 _ _ _ 8); [exact Hp|exact T1|apply (bool_decide_unpack _); vm_compute; exact I|apply (bool_decide_unpack _); vm_compute; exact I|exact Hc8|exact (proj1 Hc0)|exact Hc1|].
  clear Hp. cbv zeta. intros b2 Hp T2. cbn [c_regs c_csr c_mem loads fst snd] in *.
  match type of T2 with context [Mach _ _ _ _ _] => match goal with |- reach _ (Mach ?gg _ _ _ _) _ => set (g2 := gg) in * end end.
  assert (g2 a0 = sc /\ g2 a1 = cmp /\ g2 a2 = load64 M1 (sc + 40) /\ g2 a3 = now) as (G0 & G1 & G2 & G3) by (split_and!; [exact Ea0|reflexivity..]).
  eapply timer_step; [exact Hp|exact T2|]. clear Hp. intros b3 B3 Hp. eexists. split; [reflexivity|]. unfold set_reg, set_pc. cbn [c_regs c_csr c_mem c_mode c_pc].
  match goal with |- reach _ (Mach (<[a3 := u64 ?e]> _) _ _ _ _) _ => replace e with (now + load64 M1 (sc + 40)) by (rewrite <- G2, <- G3; reflexivity) end.
  set (g3 := <[a3 := _]> g2). assert (forall c mm b', get (Mach g3 c mm b' Machine) a1 = cmp) as Ga1 by (intros; exact G1).
  destruct T2 as [T21 T22 T23 T24].
  eapply (timer_stores _ me sc cmp [(a3, 0)] a1 _ _ _ 8); [exact Hp|by split|apply (bool_decide_unpack _); vm_compute; exact I|rewrite Ga1; unfold ticked; lia|by rewrite Ga1|rewrite Ga1; lia|rewrite Ga1; lia|].
  clear Hp. cbv zeta. intros b4 Hp T4. rewrite Ga1 in T4 |- *. cbn [c_regs c_csr c_mem saves fst snd] in *.
  match type of T4 with context [store64 M1 (cmp + 0) ?e] => change e with (u64 (now + load64 M1 (sc + 40))) in T4 |- * end. fold M2 in T4 |- *.
  eapply reach_mono; [apply (timervec_back me sc cmp (Mach g3 cs M2 (b4 + 0) Machine) b4 Hp T4 Ea0 Hs8 Hs0 ltac:(lia) Hms)|].
  intros m' (F1 & F2 & F3 & F4 & F5). split_and!; [exact F1|exact F2|exact F3|exact F4|unfold get; rewrite F5; reflexivity..|].
  intros r Hr. rewrite !not_elem_of_cons in Hr. destruct Hr as (R0 & R1 & R2 & R3 & _). unfold get. case_decide; [done|]. rewrite F5, fn_lookup_insert_ne by done.
  rewrite loads_out by (unfold timer_regs; cbn [fmap list_fmap fst]; rewrite !not_elem_of_cons; split_and!; [done..|apply not_elem_of_nil]).
  cbn [c_regs]. unfold g3, g2. by rewrite !fn_lookup_insert_ne by done.
Qed.

(** [timervec] as a whole. *)
Lemma timervec_ok m sc cmp :
  placed code timervec tv tv_end -> c_mode m = Machine -> c_pc m = tv -> c_csr m Mscratch = sc -> (forall r, 0 <= get m r < 2 ^ 64) ->
  load64 (c_mem m) (sc + 32) = cmp -> 0 <= sc -> sc + 48 < 2 ^ 64 -> sc mod 8 = 0 -> cmp + 8 < 2 ^ 64 -> cmp mod 8 = 0 ->
  (cmp + 8 <= sc \/ sc + 48 <= cmp) ->
  reach code m (fun m' => c_pc m' = c_csr m Mepc /\ c_csr m' Mscratch = sc /\ c_csr m' Sip = 2 /\ (forall r, get m' r = get m r) /\
    load64 (c_mem m') cmp = u64 (load64 (c_mem m) cmp + load64 (c_mem m) (sc + 40)) /\ agree (ticked sc cmp) (c_mem m) (c_mem m')).
Proof.
  intros Hp Hmd Hpc Hsc Hr Hcmp Hs0 Hs1 Hs8 Hc1 Hc8 Hd. pose proof (Hr a0) as Ra0. pose proof (Hr a1) as Ra1. pose proof (Hr a2) as Ra2. pose proof (Hr a3) as Ra3.
  destruct m as [g cs me pc md]. cbn [c_mode c_pc c_csr c_mem c_regs] in *. subst md pc.
  change (get _ a0) with (g a0) in Ra0. change (get _ a1) with (g a1) in Ra1. change (get _ a2) with (g a2) in Ra2. change (get _ a3) with (g a3) in Ra3.
  change timervec with (Csrrw a0 Mscratch a0 :: sds a0 [(a1, 0); (a2, 8); (a3, 16)] ++ lds a0 [(a1, 32); (a2, 40)] ++ lds a1 [(a3, 0)] ++
    Add a3 a3 a2 :: sds a1 [(a3, 0)] ++ Li a1 2 :: Csrw Sip a1 :: lds a0 timer_regs ++ [Csrrw a0 Mscratch a0; Mret]) in Hp.
  pose proof (load64_range me (sc + 32)) as Hc0. rewrite Hcmp in Hc0.
  eapply (timer_step _ me sc cmp); [exact Hp|split; [done|cbn; lia|lia|apply agree_refl]|]. clear Hp. intros b1 B1 Hp. eexists. split; [reflexivity|].
  unfold set_reg, set_csr, set_pc. cbn [c_regs c_csr c_mem c_mode c_pc]. change (get _ a0) with (g a0). rewrite Hsc, (u64_small sc), (u64_small (g a0)) by lia.
  set (g1 := <[a0 := sc]> g). set (cs1 := <[Mscratch := g a0]> cs).
  eapply (timer_stores _ me sc cmp [(a1, 0); (a2, 8); (a3, 16)] a0 _ _ _ 24); [exact Hp|split; [done|done|done|apply agree_refl]|apply (bool_decide_unpack _); vm_compute; exact I|change (get _ a0) with sc; unfold ticked; lia|change (get _ a0) with sc; lia..|].
  clear Hp. cbv zeta. cbn [c_regs c_csr c_mem c_mode c_pc saves fst snd]. change (get _ a0) with sc. intros b2 Hp T.
  set (M1 := store64 _ _ _) in *.
  assert (load64 M1 (sc + 32) = cmp /\ load64 M1 (sc + 40) = load64 me (sc + 40) /\ load64 M1 (cmp + 0) = load64 me cmp) as (K1 & K2 & K3).
  { unfold M1. rewrite !load64_store64_ne by lia. by rewrite Z.add_0_r. }
  assert (load64 M1 (sc + 0) = g a1 /\ load64 M1 (sc + 8) = g a2 /\ load64 M1 (sc + 16) = g a3) as (K4 & K5 & K6).
  { unfold M1. split_and!; rewrite ?(load64_store64_ne _ (sc + 16)), ?(load64_store64_ne _ (sc + 8)), load64_store64_eq by lia; by apply u64_small. }
  pose proof (tk_agree _ _ _ _ _ T) as Ag. cbn [c_mem] in Ag.
  eapply reach_mono; [apply (timervec_middle me M1 g1 cs1 sc cmp b2 Hp T eq_refl K1 Hs0 Hs1 Hs8 Hc1 Hc8 Ra0)|].
  cbv zeta. rewrite K2, K3. intros m' (F1 & F2 & F3 & F4 & G0 & G1 & G2 & G3 & G4). rewrite load64_store64_ne in G1, G2, G3 by lia. rewrite K4 in G1. rewrite K5 in G2. rewrite K6 in G3.
  split_and!; [exact F1|exact F2|exact F3| | |].
  - intros r. destruct (decide (r ∈ [a0; a1; a2; a3])) as [Hin|Hin].
    + rewrite !elem_of_cons in Hin. destruct Hin as [->|[->|[->|[->|Hin]]]]; [exact G0|exact G1|exact G2|exact G3|by apply elem_of_nil in Hin].
    + rewrite (G4 r Hin). unfold get. case_decide; [done|]. apply fn_lookup_insert_ne. intros <-. apply Hin, list_elem_of_here.
  - rewrite F4, Z.add_0_r, load64_store64_eq. apply u64_idem.
  - rewrite F4. apply agree_store64; [exact Ag|unfold ticked; lia].
Qed.

(** C20: the clock, through [timerinit] of start.c and [timervec] of kernelvec.S.  What
    [timerinit] prepares on a hart is what [timervec] needs: on each timer interrupt
    of that hart, [mtimecmp] is moved on by the interval of 1000000 cycles, a
    software interrupt is pending for the supervisor, and the interrupted code goes
    on with all its registers, nothing else in memory having changed but the save
    area of the hart. *)
Theorem timer_ticks (h : hart) :
  let id := s32 (h_csr h Mhartid) in
  0 <= id < NCPU -> KERNBASE <= mscratch0 -> mscratch0 + 8 * 32 * NCPU < 2 ^ 56 -> mscratch0 mod 8 = 0 -> placed code timervec tv tv_end ->
  exists h', timerinit tv mscratch0 h = Ret tt h' /\ h_csr h' Mtvec = u64 tv /\ Z.testbit (h_csr h' Mie) 7 = true /\
  forall m, c_mode m = Machine -> c_pc m = tv -> (forall r, 0 <= get m r < 2 ^ 64) -> c_csr m Mscratch = h_csr h' Mscratch ->
    (forall o, o = 32 \/ o = 40 -> load64 (c_mem m) (scratch id + o) = load64 (h_mem h') (scratch id + o)) ->
    exists n m', steps code n m = Some m' /\ c_pc m' = c_csr m Mepc /\ (forall r, get m' r = get m r) /\
      c_csr m' Mscratch = c_csr m Mscratch /\ c_csr m' Sip = 2 /\
      load64 (c_mem m') (CLINT_MTIMECMP id) = u64 (load64 (c_mem m) (CLINT_MTIMECMP id) + 1000000) /\
      agree (ticked (scratch id) (CLINT_MTIMECMP id)) (c_mem m) (c_mem m').
Proof.
  intros id Hid Hlo Hhi H8 Hp. destruct (timerinit_ok h) as (h' & E & Hms & Hmt & H32 & H40 & Hmie). exists h'. split_and!; [exact E|exact Hmt|exact Hmie|].
  intros m Hmd Hpc Hr Hsc Hw. fold id in Hms, H32, H40.
  assert (0 <= scratch id /\ scratch id + 48 < 2 ^ 64 /\ scratch id mod 8 = 0 /\ CLINT_MTIMECMP id + 8 <= scratch id /\ 0 <= CLINT_MTIMECMP id /\ CLINT_MTIMECMP id mod 8 = 0) as (S1 & S2 & S3 & S4 & S5 & S6).
  { unfold scratch, CLINT_MTIMECMP, CLINT, KERNBASE, NCPU in *. split_and!; try lia; Z.to_euclidean_division_equations; lia. }
  rewrite Hms, u64_small in Hsc by lia. rewrite u64_small in H32 by lia. rewrite Hsc.
  assert (load64 (c_mem m) (scratch id + 40) = 1000000) as E40 by (rewrite Hw by auto; exact H40).
  rewrite <- E40. apply (reach_mono code m _ _ (timervec_ok m (scratch id) (CLINT_MTIMECMP id) Hp Hmd Hpc Hsc Hr ltac:(rewrite Hw by auto; exact H32) S1 S2 S3 ltac:(lia) S6 ltac:(lia))).
  intros m' (F1 & F2 & F3 & F4 & F5 & F6). done.
Qed.
End Timer.

(** [_entry] of entry.S gives each hart a stack of its own in [stack0]. *)
Lemma entry_ok code stack0 start spin a stop m :
  placed code (entry stack0 start spin) a stop -> c_mode m = Machine -> c_pc m = a -> 0 <= c_csr m Mhartid < NCPU ->
  0 <= stack0 -> stack0 + 4096 * NCPU < 2 ^ 64 ->
  reach code m (fun m' => c_pc m' = start /\ get m' sp = stack0 + 4096 * (c_csr m Mhartid + 1) /\ c_mem m' = c_mem m).
Proof.
  intros Hp Hmd Hpc Hid H0 H1. destruct m as [g cs me pc md]. cbn [c_mode c_pc c_csr c_mem c_regs] in *. subst md pc. unfold NCPU in *.
  assert (forall g b, a <= b -> window (fun _ => False) me 0 a stop (Mach g cs me (b + 0) Machine) b) as Wn.
  { intros g' b Hb. split; [done|done|apply machine_fetches|apply agree_refl]. }
  pose proof (Wn g a (Z.le_refl _)) as W0. rewrite Z.add_0_r in W0.
  eapply reach_window; [exact Hp|apply Z.le_refl|exact W0|]. clear Hp W0. intros b1 B1 Hp. eexists. split; [reflexivity|].
  do 5 (eapply reach_window; [exact Hp|apply Z.le_refl|by apply Wn|]; clear Hp; intros ? ? Hp; eexists; split; [reflexivity|]).
  eapply reach_window; [exact Hp|apply Z.le_refl|by apply Wn|]. intros b2 B2 _. eexists. split; [reflexivity|]. apply reach_done.
  split_and!; [reflexivity| |reflexivity].
  change (u64 (u64 stack0 + u64 (u64 (1024 * 4) * u64 (u64 (cs Mhartid) + 1))) = stack0 + 4096 * (cs Mhartid + 1)).
  rewrite (u64_small (cs Mhartid)), (u64_small (cs Mhartid + 1)) by lia. change (u64 (1024 * 4)) with 4096. rewrite !u64_small by (rewrite ?u64_small; lia). done.
Qed.

(** ** A process that asks for its pid *)

Module AsmDemo.
Import VmProps.Demo.
#[local] Existing Instance demo_layout.
#[local] Existing Instance demo_layout_ok.
#[local] Instance wakeups : Wakeups := 1%nat.
#[local] Existing Instance TrapDemo.files.

(** Memory with the given words. *)
Fixpoint word_mem (l : list (Z * Z)) : memory := match l with [] => ∅ | (a, v) :: l' => store64 (word_mem l') a v end.
Fixpoint word_at (l : list (Z * Z)) (a : Z) : Z := match l with [] => 0 | (b, v) :: l' => if a =? b then u64 v else word_at l' a end.

Lemma load_word l a : Forall (fun w => w.1 mod 8 = 0) l -> a mod 8 = 0 -> load64 (word_mem l) a = word_at l a.
Proof.
  intros Hl Ha. induction Hl as [|[b v] l Hb Hl IH]; [apply load64_empty|]. cbn [word_mem word_at fst] in *.
  destruct (Z.eqb_spec a b) as [->|Hne]; [apply load64_store64_eq|]. rewrite load64_store64_ne; [exact IH|].
  clear - Ha Hb Hne. Z.to_euclidean_division_equations. lia.
Qed.

(** The words of a page table with three pages, with index [i2] in the first and [i1] in
    the second. *)
Definition table_words (i2 i1 root p1 p0 : Z) : list (Z * Z) :=
  [(root + 8 * i2, Z.lor (PA2PTE p1) PTE_V); (p1 + 8 * i1, Z.lor (PA2PTE p0) PTE_V)].
Definition table_shape (i2 i1 root p1 p0 : Z) : ptshape := {[ [] := root; [i2] := p1; [i2; i1] := p0 ]}.

Definition tf : Z := page 7.
Definition usertrap_ : Z := KERNBASE + 0x1000.
(** A page of user code below the trap frame. *)
Definition user_va : Z := TRAPFRAME - PGSIZE.
Definition words : list (Z * Z) :=
  table_words 255 511 (page 1) (page 2) (page 3) ++ table_words 255 511 (page 4) (page 5) (page 6) ++
  [(page 3 + 8 * 511, leaf_pte trampoline (Z.lor PTE_R PTE_X)); (page 6 + 8 * 511, leaf_pte trampoline (Z.lor PTE_R PTE_X));
   (page 3 + 8 * 510, leaf_pte tf (Z.lor PTE_R PTE_W)); (page 3 + 8 * 509, leaf_pte (page 8) (Z.lor (Z.lor PTE_R PTE_X) PTE_U));
   (tf + 0, MAKE_SATP (page 4)); (tf + 8, KSTACK 0 + PGSIZE); (tf + 16, usertrap_)].
(** The same, as numbers. *)
Definition demo_words : list (Z * Z) := Eval vm_compute in words.
Definition demo_memory : memory := word_mem demo_words.

Lemma demo_load a : a mod 8 = 0 -> load64 demo_memory a = word_at demo_words a.
Proof. apply load_word. repeat (apply Forall_cons; split; [reflexivity|]). by apply Forall_nil. Qed.

Lemma shape_lookup i2 i1 root p1 p0 k p :
  table_shape i2 i1 root p1 p0 !! k = Some p <-> (k = [] /\ p = root) \/ (k = [i2] /\ p = p1) \/ (k = [i2; i1] /\ p = p0).
Proof.
  unfold table_shape. rewrite !lookup_insert_Some, lookup_singleton_Some. naive_solver congruence.
Qed.

(** The entries of the first two pages of a table. *)
Definition sparse (m : memory) (i2 i1 root p1 p0 : Z) : Prop :=
  forall i, 0 <= i < 512 ->
    load64 m (root + 8 * i) = (if i =? i2 then Z.lor (PA2PTE p1) PTE_V else 0) /\
    load64 m (p1 + 8 * i) = (if i =? i1 then Z.lor (PA2PTE p0) PTE_V else 0).

Ltac sparse_words lem ws :=
  intros i Hi; split; rewrite lem by (unfold page, PHYSTOP, KERNBASE, PGSIZE; Z.to_euclidean_division_equations; lia);
  match goal with |- word_at _ (?p + _) = if ?j =? ?k then _ else _ => destruct (Z.eqb_spec j k) as [->|Hne]; [vm_compute; reflexivity|];
    let n := eval vm_compute in p in change p with n end;
  unfold ws; cbn [word_at]; by rewrite !(proj2 (Z.eqb_neq _ _)) by lia.

Lemma demo_sparse : sparse demo_memory 255 511 (page 1) (page 2) (page 3) /\ sparse demo_memory 255 511 (page 4) (page 5) (page 6).
Proof. split; sparse_words demo_load demo_words. Qed.

Lemma table_rep m i2 i1 root p1 p0 :
  0 <= i2 < 512 -> 0 <= i1 < 512 -> page_ok root -> page_ok p1 -> page_ok p0 -> NoDup [root; p1; p0] -> sparse m i2 i1 root p1 p0 ->
  pt_rep m root (table_shape i2 i1 root p1 p0).
Proof.
  intros J2 J1 H2 H1 H0 Hd Hs. assert (root <> p1 /\ root <> p0 /\ p1 <> p0) as (N1 & N2 & N3).
  { rewrite !NoDup_cons, !not_elem_of_cons in Hd. naive_solver. }
  assert (forall k, table_shape i2 i1 root p1 p0 !! k = None <-> k <> [] /\ k <> [i2] /\ k <> [i2; i1]) as Hnone.
  { intros k. rewrite eq_None_not_Some. unfold is_Some. setoid_rewrite shape_lookup. naive_solver. }
  split.
  - apply shape_lookup. auto.
  - intros k p Hk%shape_lookup. destruct Hk as [[-> _]|[[-> _]|[-> _]]]; cbn; lia.
  - intros k i. rewrite !Hnone. intros (K1 & K2 & K3). split_and!; [by destruct k|destruct k as [|? []]; naive_solver|].
    destruct k as [|? [|? []]]; naive_solver.
  - intros k k' p Hk%shape_lookup Hk'%shape_lookup. naive_solver.
  - intros k p Hk%shape_lookup. naive_solver.
  - intros k i p Hk%shape_lookup. destruct Hk as [[Hk _]|[[Hk _]|[Hk _]]]; destruct k as [|? [|? []]]; naive_solver lia.
  - intros k p i Hk%shape_lookup Hl Hi. specialize (Hs i Hi) as [E2 E1]. destruct Hk as [[-> ->]|[[-> ->]|[-> _]]]; cbn [app length] in *; [| |lia].
    + rewrite E2. destruct (Z.eqb_spec i i2) as [->|Hne].
      * by rewrite (proj2 (shape_lookup i2 i1 root p1 p0 [i2] p1)) by auto.
      * by rewrite (proj2 (Hnone [i])) by (split_and!; congruence).
    + rewrite E1. destruct (Z.eqb_spec i i1) as [->|Hne].
      * by rewrite (proj2 (shape_lookup i2 i1 root p1 p0 [i2; i1] p0)) by auto.
      * by rewrite (proj2 (Hnone [i2; i])) by (split_and!; congruence).
Qed.

Lemma demo_page k : 1 <= k <= 16 -> page_ok (page k).
Proof. intros Hk. split; unfold page, PGSIZE; [Z.to_euclidean_division_equations; unfold PHYSTOP, KERNBASE in *; lia|]. change kend with (PHYSTOP - 16 * 4096). lia. Qed.

Lemma demo_table root p1 p0 : root = page 1 /\ p1 = page 2 /\ p0 = page 3 \/ root = page 4 /\ p1 = page 5 /\ p0 = page 6 ->
  pt_rep demo_memory root (table_shape 255 511 root p1 p0) /\ ~ in_table (table_shape 255 511 root p1 p0) tf /\
  pt_map demo_memory (table_shape 255 511 root p1 p0) TRAMPOLINE = Some (leaf_pte trampoline (Z.lor PTE_R PTE_X)).
Proof.
  intros [(-> & -> & ->)|(-> & -> & ->)]; (split_and!;
    [apply table_rep; [lia|lia|by apply demo_page|by apply demo_page|by apply demo_page|apply (bool_decide_unpack _); vm_compute; exact I|apply demo_sparse]
    |intros [k Hk%shape_lookup]; destruct Hk as [[_ Hk]|[[_ Hk]|[_ Hk]]]; vm_compute in Hk; discriminate Hk
    |]).
  - unfold pt_map. change [PX 2 TRAMPOLINE; PX 1 TRAMPOLINE] with [255; 511]. rewrite (proj2 (shape_lookup _ _ _ _ _ _ (page 3))) by auto.
    cbv zeta. rewrite demo_load by reflexivity. vm_compute. reflexivity.
  - unfold pt_map. change [PX 2 TRAMPOLINE; PX 1 TRAMPOLINE] with [255; 511]. rewrite (proj2 (shape_lookup _ _ _ _ _ _ (page 6))) by auto.
    cbv zeta. rewrite demo_load by reflexivity. vm_compute. reflexivity.
Qed.

Lemma demo_user_table : user_table demo_memory (page 1) tf.
Proof.
  destruct (demo_table (page 1) (page 2) (page 3) ltac:(auto)) as (R & Hi & Ht). eexists. split_and!; [exact R|exact Hi|exact Ht|].
  unfold pt_map. change [PX 2 TRAPFRAME; PX 1 TRAPFRAME] with [255; 511]. rewrite (proj2 (shape_lookup _ _ _ _ _ _ (page 3))) by auto.
  cbv zeta. rewrite demo_load by reflexivity. vm_compute. reflexivity.
Qed.

(** The code: an [ecall] in the page of the user, and trampoline.S. *)
Definition code (a : Z) : option (instr * Z) :=
  if a =? page 8 then Some (Ecall, 4)
  else if KERNBASE <=? a then (fun i => (i, 4)) <$> (uservec ++ userret) !! Z.to_nat ((a - KERNBASE) / 4) else None.
Definition uv : Z := KERNBASE.
Definition ur : Z := KERNBASE + 4 * Z.of_nat (length uservec).
Definition ur_end : Z := ur + 4 * Z.of_nat (length userret).

Lemma demo_linked : linked code uv ur ur ur_end.
Proof.
  split.
  - unfold uservec. cbn [placed]. repeat (exists 4; split; [vm_compute; reflexivity|split; [reflexivity|]]). reflexivity.
  - unfold userret. cbn [placed]. repeat (exists 4; split; [vm_compute; reflexivity|split; [reflexivity|]]). reflexivity.
  - split_and!; vm_compute; discriminate.
Qed.

(** Process 0, with its pid, and register a7 asking for it. *)
Definition demo_kst : kst unit := {| k_vm := {| kv_pmem := PMem demo_memory 0 ∅; kernel_pagetable := page 4; satp := 0 |};
  k_pt := {| procs := [set_kstack (set_pagetable (set_trapframe (set_pid (set_state no_proc RUNNING) 7) tf) (page 1)) (KSTACK 0)];
    nextpid := 8; initproc := None; cur := Some 0%nat; first := false |}; k_fs := tt |}.
Definition demo_state : trapst unit := {| tr_k := demo_kst; tr_csr := fun _ => 0; tr_ticks := 0; tr_irqs := []; tr_done := [] |}.
Definition demo_mach : mach := {| c_regs := fun r => match r with a7 => 11 | s1 => 42 | _ => 0 end;
  c_csr := fun c => match c with Satp => MAKE_SATP (page 1) | Sscratch => TRAPFRAME | Stvec => TRAMPOLINE | _ => 0 end;
  c_mem := demo_memory; c_pc := user_va; c_mode := User |}.
Definition getpid (f : Syscall.call) : M (kst unit) Z :=
  match f with Cgetpid => let! p := myproc in let! x := getp p in mret_ (p_pid x) | _ => mret_ (-1) end.

Lemma demo_word a v : a mod 8 = 0 -> word_at demo_words a = v -> load64 demo_memory a = v.
Proof. intros Ha <-. by apply demo_load. Qed.

Lemma demo_in_user : in_user uv usertrap_ 0 demo_state demo_mach.
Proof.
  split; [reflexivity| |reflexivity|cbn; lia|reflexivity|reflexivity|reflexivity|by apply demo_page|exact demo_user_table| |apply demo_word; vm_compute; reflexivity..].
  - intros r. split; destruct r; vm_compute; (discriminate || reflexivity).
  - exists (page 4). split; [destruct (demo_table (page 4) (page 5) (page 6) ltac:(auto)) as (R & Hi & Ht); eexists; split_and!; [exact R|exact Hi|exact Ht]|].
    apply demo_word; vm_compute; reflexivity.
Qed.

Lemma demo_fetch : fetch code demo_mach = Some (Ecall, 4).
Proof.
  destruct (demo_table (page 1) (page 2) (page 3) ltac:(auto)) as (R & _ & _).
  unfold fetch, mtranslate. cbn [demo_mach c_mode c_csr c_mem c_pc]. replace user_va with (user_va + 0) by lia.
  rewrite (translate_ok Fetch User demo_memory (page 1) _ user_va (page 8) (Z.lor (Z.lor PTE_R PTE_X) PTE_U) 0 ltac:(discriminate) R); [reflexivity| |flags..].
  unfold pt_map. change [PX 2 user_va; PX 1 user_va] with [255; 511]. rewrite (proj2 (shape_lookup _ _ _ _ _ _ (page 3))) by auto.
  cbv zeta. rewrite demo_load by reflexivity. vm_compute. reflexivity.
Qed.

Lemma demo_kept m1 :
  agree (in_page tf) demo_memory (c_mem m1) ->
  let k := tr_k (called 0 0 (enter demo_state m1)) in caller_kept 0 k k.
Proof.
  intros Ha k. split; [reflexivity|apply Nat.lt_0_1|reflexivity|reflexivity|reflexivity| |intros; assumption|intros; reflexivity].
  change (user_table (kmem k) (page 1) tf). eapply user_table_frame; [by apply demo_page| |exact demo_user_table].
  eapply agree_trans; [exact Ha|]. exact (called_agree 0 0 (enter demo_state m1)).
Qed.

Lemma ecall_roundtrip_witness :
  exists n1 m1 fn satp s' n2 m2, steps code n1 demo_mach = Some m1 /\
    usertrap 0 uv ur usertrap_ (zoom (Syscall.syscall getpid (fun _ => mret_ tt))) (mret_ tt) (mret_ tt) (enter demo_state m1) = Ret (fn, satp) s' /\
    steps code n2 (leave s' (fun _ => 5) fn satp) = Some m2 /\ c_mode m2 = User /\ c_pc m2 = user_va + 4 /\ get m2 a0 = 7 /\ get m2 s1 = 42.
Proof.
  destruct (ecall_roundtrip code 0 uv ur ur ur_end usertrap_ (mret_ tt) (mret_ tt) getpid (fun _ => mret_ tt) 0 demo_state demo_mach 4
    demo_linked demo_in_user demo_fetch eq_refl ltac:(vm_compute; split; reflexivity)) as (n1 & m1 & E1 & _ & _ & _ & Ha & _ & _ & H).
  destruct (H Cgetpid 7 (tr_k (called 0 0 (enter demo_state m1))) ltac:(vm_compute; reflexivity) eq_refl (demo_kept m1 Ha)) as (fn & satp & s' & E2 & H2).
  destruct (H2 (fun _ => 5)) as (n2 & m2 & E3 & IU & Hpc & Hr). exists n1, m1, fn, satp, s', n2, m2.
  split_and!; [exact E1|exact E2|exact E3|apply IU|exact Hpc|exact (Hr a0)|exact (Hr s1)].
Defined.

(** A kernel with one page of text and one of data. *)
Definition data : Z := KERNBASE + 8 * PGSIZE.
Definition kernel_words : list (Z * Z) := Eval vm_compute in
  table_words 2 0 (page 1) (page 2) (page 3) ++
  [(page 3 + 8 * 0, leaf_pte KERNBASE (Z.lor PTE_R PTE_X)); (page 3 + 8 * 8, leaf_pte data (Z.lor PTE_R PTE_W));
   (data + 112, KERNBASE + 0x800); (data + 120, data + 2048); (data + 136, 77)].
Definition kernel_memory : memory := word_mem kernel_words.

Lemma kernel_load a : a mod 8 = 0 -> load64 kernel_memory a = word_at kernel_words a.
Proof. apply load_word. repeat (apply Forall_cons; split; [reflexivity|]). by apply Forall_nil. Qed.

Lemma kernel_sparse : sparse kernel_memory 2 0 (page 1) (page 2) (page 3).
Proof. sparse_words kernel_load kernel_words. Qed.

Abbreviation shape := (table_shape 2 0 (page 1) (page 2) (page 3)).
Definition text_page (p : Z) : Prop := p = KERNBASE.
Definition data_page (V p : Z) : Prop := V = data /\ p = data.

Lemma kernel_demo : kernel_space kernel_memory (page 1) shape text_page data_page.
Proof.
  split.
  - apply table_rep; [lia|lia|by apply demo_page|by apply demo_page|by apply demo_page|apply (bool_decide_unpack _); vm_compute; exact I|exact kernel_sparse].
  - intros p ->. split_and!; [done..|]. unfold pt_map. change [PX 2 KERNBASE; PX 1 KERNBASE] with [2; 0]. rewrite (proj2 (shape_lookup _ _ _ _ _ _ (page 3))) by auto.
    cbv zeta. rewrite kernel_load by reflexivity. vm_compute. reflexivity.
  - intros V p [-> ->]. split_and!; [done..|]. unfold pt_map. change [PX 2 data; PX 1 data] with [2; 0]. rewrite (proj2 (shape_lookup _ _ _ _ _ _ (page 3))) by auto.
    cbv zeta. rewrite kernel_load by reflexivity. vm_compute. reflexivity.
Qed.

Lemma demo_text hi : hi <= KERNBASE + 4096 -> forall lo, KERNBASE <= lo -> in_text text_page lo hi.
Proof. intros Hhi lo Hlo a Ha. unfold text_page, KERNBASE, PGSIZE in *. Z.to_euclidean_division_equations. lia. Qed.

Lemma kernel_data a n : data <= a -> a + n <= data + 4096 -> in_data data_page a a n.
Proof. intros H1 H2 o Ho1 Ho2. exists data, data, (a + o - data). split_and!; [lia|lia|lia|unfold PGSIZE; lia|by split]. Qed.

Lemma demo_apart (H : Z -> Prop) : (forall a, H a -> a < data + 4096) -> apart shape H.
Proof.
  intros HH k p a Hk%shape_lookup Hp Ha. apply HH in Ha. revert Hp Ha. unfold data, page, PHYSTOP, KERNBASE, PGSIZE in *.
  destruct Hk as [[_ ->]|[[_ ->]|[_ ->]]]; unfold page, PHYSTOP, KERNBASE, PGSIZE; lia.
Qed.

(** The assembly, from the start of the text. *)
Definition kt : Z := KERNBASE + 0xC00.
Definition kernel_code (a : Z) : option (instr * Z) := (fun i => (i, 4)) <$> (swtch ++ kernelvec kt ++ timervec) !! Z.to_nat ((a - KERNBASE) / 4).
Definition kv : Z := KERNBASE + 4 * Z.of_nat (length swtch).
Definition tv : Z := kv + 4 * Z.of_nat (length (kernelvec kt)).
Definition tv_end : Z := tv + 4 * Z.of_nat (length timervec).

Ltac placed_here := cbn [placed]; repeat (exists 4; split; [vm_compute; reflexivity|split; [reflexivity|]]); reflexivity.

Definition kernel_mach (pc : Z) : mach := {| c_regs := fun r => match r with a0 => data | a1 => data + 112 | sp => data + 4096 | _ => 0 end;
  c_csr := fun c => match c with Satp => MAKE_SATP (page 1) | Stvec => kv | _ => 0 end; c_mem := kernel_memory; c_pc := pc; c_mode := Supervisor |}.

Lemma kernel_mach_regs pc r : 0 <= get (kernel_mach pc) r < 2 ^ 64.
Proof. split; destruct r; vm_compute; (discriminate || reflexivity). Qed.

Lemma swtch_resumes_witness :
  exists n1 m1, steps kernel_code n1 (kernel_mach KERNBASE) = Some m1 /\ c_pc m1 = KERNBASE + 0x800 /\ get m1 s1 = 77 /\ get m1 a1 = data + 112.
Proof.
  destruct (swtch_resumes kernel_code KERNBASE kv (kernel_mach KERNBASE) data (data + 112) (page 1) shape text_page data_page)
    as (n1 & m1 & E & _ & _ & _ & Hpc & Hr & Ho & _).
  - split; [unfold swtch; placed_here|by apply demo_text|reflexivity..|apply kernel_mach_regs|exact kernel_demo| | | |].
    + apply demo_apart. unfold in_context. lia.
    + split; [apply kernel_data; lia|reflexivity].
    + split; [apply kernel_data; lia|reflexivity].
    + left. lia.
  - exists n1, m1. split_and!; [exact E| | |].
    + rewrite Hpc. etransitivity; [apply kernel_load; reflexivity|vm_compute; reflexivity].
    + rewrite (Hr s1 24) by (apply (bool_decide_unpack _); vm_compute; exact I). etransitivity; [apply kernel_load; reflexivity|vm_compute; reflexivity].
    + apply (Ho a1). apply (bool_decide_unpack _). vm_compute. exact I.
Defined.

Lemma interrupt_transparent_witness :
  exists n1 m1, steps kernel_code n1 (trap 0x8000000000000009 (kernel_mach KERNBASE)) = Some m1 /\ c_pc m1 = kt /\ c_mode m1 = Supervisor.
Proof.
  destruct (interrupt_transparent (F := unit) kernel_code kv tv kt (mret_ tt) (mret_ tt) 0x8000000000000009 demo_state (kernel_mach KERNBASE) (data + 3840) (page 1)
    shape text_page data_page) as (n1 & m1 & E & Hm & Hpc & _).
  - split; [unfold kernelvec; placed_here|by apply demo_text|reflexivity|split; vm_compute; (discriminate || reflexivity)|reflexivity..|apply kernel_mach_regs|exact kernel_demo| |].
    + apply demo_apart. unfold in_frame. lia.
    + split_and!; [apply kernel_data; vm_compute; discriminate|reflexivity|vm_compute; discriminate].
  - exists n1, m1. auto.
Defined.

Definition timer_mach : mach := {| c_regs := fun r => match r with a1 => 6 | a2 => 7 | _ => 5 end;
  c_csr := fun c => match c with Mscratch => data | Mepc => KERNBASE | _ => 0 end;
  c_mem := word_mem [(data + 32, CLINT_MTIMECMP 0); (data + 40, 1000000)]; c_pc := tv; c_mode := Machine |}.

Lemma timer_ticks_witness :
  exists n m', steps kernel_code n timer_mach = Some m' /\ c_pc m' = KERNBASE /\ get m' a2 = 7 /\ load64 (c_mem m') (CLINT_MTIMECMP 0) = 1000000.
Proof.
  destruct (timer_ticks kernel_code tv tv_end data {| h_csr := fun _ => 0; h_mem := ∅; h_pc := None |}) as (h' & E & _ & _ & H);
    [split; vm_compute; (discriminate || reflexivity)|vm_compute; discriminate|reflexivity|reflexivity|unfold timervec; placed_here|].
  assert (h' = match timerinit tv data {| h_csr := fun _ => 0; h_mem := ∅; h_pc := None |} with Ret _ x => x | _ => h' end) as Eh by (by rewrite E).
  destruct (H timer_mach) as (n & m' & En & Hpc & Hr & _ & _ & Hc & _); [reflexivity|reflexivity| | | |].
  - intros r. split; destruct r; vm_compute; (discriminate || reflexivity).
  - rewrite Eh. reflexivity.
  - intros o [-> | ->]; rewrite Eh; vm_compute; reflexivity.
  - exists n, m'. split_and!; [exact En|exact Hpc|exact (Hr a2)|]. etransitivity; [exact Hc|]. vm_compute. reflexivity.
Defined.
End AsmDemo.
