(* ===== verification/Digits.v ===== *)
(** Printing numbers: the digit loop shared by [printint] of kernel/printf.c and
    of user/printf.c, and what the printed digits mean. *)

From S2P Require Import Prelude Mem.

(** [do buf[i++] = digits[x % base]; while((x /= base) != 0)]: the digit values,
    the least significant first.  [fuel] digits are enough for any [uint]. *)
Fixpoint digit_loop (fuel : nat) (x base : Z) : list Z :=
  match fuel with
  | O => []
  | S fuel' => x mod base :: (if x / base =? 0 then [] else digit_loop fuel' (x / base) base)
  end.

(** Digits to read most significant first. *)
Definition digits_of (x base : Z) : list Z := reverse (digit_loop 32 x base).

(** The number a list of digits stands for. *)
Definition number (base : Z) (ds : list Z) : Z := fold_left (fun n d => n * base + d) ds 0.

Lemma number_snoc base ds d : number base (ds ++ [d]) = number base ds * base + d.
Proof. unfold number. by rewrite fold_left_app. Qed.

Lemma digit_loop_number fuel x base :
  2 <= base -> 0 <= x < base ^ Z.of_nat fuel -> (0 < fuel)%nat ->
  number base (reverse (digit_loop fuel x base)) = x.
Proof.
  intros Hb. revert x. induction fuel as [|fuel IH]; intros x Hx Hf; [lia|]. cbn [digit_loop].
  rewrite reverse_cons, number_snoc. pose proof (Z.div_mod x base ltac:(lia)) as Hdm.
  destruct (Z.eqb_spec (x / base) 0) as [H0|H0].
  - change (reverse []) with (@nil Z). change (number base []) with 0. lia.
  - assert (Hq : 0 < x / base) by (pose proof (Z.div_pos x base); lia).
    destruct fuel as [|fuel].
    + exfalso. change (Z.of_nat 1) with 1 in Hx. rewrite Z.pow_1_r in Hx. rewrite Z.div_small in H0 by lia. lia.
    + rewrite IH; [lia| |lia]. split; [lia|]. apply Z.div_lt_upper_bound; [lia|].
      rewrite <- Z.pow_succ_r by lia. rewrite <- Nat2Z.inj_succ. lia.
Qed.

Lemma digit_loop_range fuel x base d : 2 <= base -> d ∈ digit_loop fuel x base -> 0 <= d < base.
Proof.
  intros Hb. revert x. induction fuel as [|fuel IH]; intros x; cbn [digit_loop]; [by intros ?%elem_of_nil|].
  intros [->|Hd]%elem_of_cons; [apply Z.mod_pos_bound; lia|].
  destruct (x / base =? 0); [by apply elem_of_nil in Hd|exact (IH _ Hd)].
Qed.

(** The digits of any [uint], in a base of at least two, stand for it. *)
Lemma digits_of_number x base : 2 <= base -> 0 <= x < 2 ^ 32 -> number base (digits_of x base) = x.
Proof.
  intros Hb Hx. apply digit_loop_number; [done| |lia]. split; [lia|].
  apply Z.lt_le_trans with (2 ^ 32); [lia|]. change (Z.of_nat 32) with 32.
  apply Z.pow_le_mono_l. lia.
Qed.

Lemma digits_of_range x base d : 2 <= base -> d ∈ digits_of x base -> 0 <= d < base.
Proof.
  intros Hb Hd. unfold digits_of in Hd. rewrite elem_of_reverse in Hd. exact (digit_loop_range _ _ _ _ Hb Hd).
Qed.

(** No more digits than fit the 16-byte buffer of [printint], with a sign. *)
Lemma digit_loop_len fuel x base k :
  2 <= base -> 0 <= x < base ^ Z.of_nat k -> (0 < k)%nat -> (length (digit_loop fuel x base) <= k)%nat.
Proof.
  intros Hb. revert x k. induction fuel as [|fuel IH]; intros x k Hx Hk; cbn [digit_loop]; [cbn; lia|].
  destruct (Z.eqb_spec (x / base) 0) as [H0|H0]; cbn [length]; [lia|].
  destruct k as [|[|k]]; [lia| |].
  - change (Z.of_nat 1) with 1 in Hx. rewrite Z.pow_1_r in Hx. rewrite Z.div_small in H0 by lia. lia.
  - apply le_n_S, IH; [|lia]. split; [apply Z.div_pos; lia|]. apply Z.div_lt_upper_bound; [lia|].
    rewrite <- Z.pow_succ_r by lia. rewrite <- Nat2Z.inj_succ. lia.
Qed.

Lemma digits_of_len x base : 10 <= base -> 0 <= x < 2 ^ 32 -> (length (digits_of x base) <= 10)%nat.
Proof.
  intros Hb Hx. unfold digits_of. rewrite length_reverse. apply digit_loop_len; [lia| |lia]. split; [lia|].
  apply Z.lt_le_trans with (10 ^ 10); [lia|]. change (Z.of_nat 10) with 10. apply Z.pow_le_mono_l. lia.
Qed.
