(* ===== verification/Uart.v ===== *)
(** kernel/uart.c: the driver of the 16550a UART.

    The device is what the driver sees of it: the bytes written to THR, the
    answers LSR will give about the transmitter, the bytes that have arrived,
    and the writes to the control registers.  The same record holds the state of
    the console and of the kernel's printf, which sit on top of the driver. *)

From S2P Require Import Prelude Riscv Mem Sync Kalloc Vm Proc.

(** Registers and bits. *)
Definition RHR : Z := 0.
Definition THR : Z := 0.
Definition IER : Z := 1.
Definition IER_TX_ENABLE : Z := Z.shiftl 1 0.
Definition IER_RX_ENABLE : Z := Z.shiftl 1 1.
Definition FCR : Z := 2.
Definition FCR_FIFO_ENABLE : Z := Z.shiftl 1 0.
Definition FCR_FIFO_CLEAR : Z := Z.shiftl 3 1.
Definition LCR : Z := 3.
Definition LCR_EIGHT_BITS : Z := Z.shiftl 3 0.
Definition LCR_BAUD_LATCH : Z := Z.shiftl 1 7.
Definition LSR : Z := 5.
Definition LSR_RX_READY : Z := Z.shiftl 1 0.
Definition LSR_TX_IDLE : Z := Z.shiftl 1 5.
Definition UART_TX_BUF_SIZE : Z := 32.
Definition INPUT_BUF : Z := 128.

(** The device, and the transmit buffer. *)
Record uart := Uart {
  thr : list Z;              (* bytes sent, oldest first *)
  idle : list bool;          (* whether the transmitter is idle, at the next reads of LSR *)
  rx : list Z;               (* bytes received and not read *)
  regs : list (Z * Z);       (* control registers written, latest first *)
  tx_buf : list Z; tx_w : Z; tx_r : Z }.

(** [cons] of kernel/console.c. *)
Record cons := Cons { c_buf : list Z; c_r : Z; c_w : Z; c_e : Z }.

(** The devices with what the running process has of memory. *)
Record dev := Dev {
  d_uart : uart; d_cons : cons; panicked : bool; locking : bool;
  d_procs : list proc; d_pm : pmem; d_pagetable : Z; d_killed : bool; d_woken : list chan }.

#[global] Instance dev_uart : Lens dev uart.
Proof.
  refine {| lget := d_uart; lput := fun x s => {| d_uart := x; d_cons := d_cons s; panicked := panicked s; locking := locking s;
    d_procs := d_procs s; d_pm := d_pm s; d_pagetable := d_pagetable s; d_killed := d_killed s; d_woken := d_woken s |} |}; lens_laws dev.
Defined.
#[global] Instance dev_cons : Lens dev cons.
Proof.
  refine {| lget := d_cons; lput := fun x s => {| d_uart := d_uart s; d_cons := x; panicked := panicked s; locking := locking s;
    d_procs := d_procs s; d_pm := d_pm s; d_pagetable := d_pagetable s; d_killed := d_killed s; d_woken := d_woken s |} |}; lens_laws dev.
Defined.
#[global] Instance dev_pm : Lens dev pmem.
Proof.
  refine {| lget := d_pm; lput := fun x s => {| d_uart := d_uart s; d_cons := d_cons s; panicked := panicked s; locking := locking s;
    d_procs := d_procs s; d_pm := x; d_pagetable := d_pagetable s; d_killed := d_killed s; d_woken := d_woken s |} |}; lens_laws dev.
Defined.
#[global] Instance dev_held : Lens dev lockset := lens_comp dev_pm pmem_held.
#[global] Instance dev_woken : Lens dev (list chan).
Proof.
  refine {| lget := d_woken; lput := fun x s => {| d_uart := d_uart s; d_cons := d_cons s; panicked := panicked s; locking := locking s;
    d_procs := d_procs s; d_pm := d_pm s; d_pagetable := d_pagetable s; d_killed := d_killed s; d_woken := x |} |}; lens_laws dev.
Defined.

Definition set_panicked (x : bool) : M dev unit :=
  modify (fun s => {| d_uart := d_uart s; d_cons := d_cons s; panicked := x; locking := locking s;
    d_procs := d_procs s; d_pm := d_pm s; d_pagetable := d_pagetable s; d_killed := d_killed s; d_woken := d_woken s |}).
Definition set_locking (x : bool) : M dev unit :=
  modify (fun s => {| d_uart := d_uart s; d_cons := d_cons s; panicked := panicked s; locking := x;
    d_procs := d_procs s; d_pm := d_pm s; d_pagetable := d_pagetable s; d_killed := d_killed s; d_woken := d_woken s |}).

(** ** The registers *)

(** The answer of LSR, and the device after the read. *)
Definition lsr_idle (u : uart) : bool := match idle u with [] => true | b :: _ => b end.
Definition read_LSR : M uart Z := fun u =>
  Ret (Z.lor (if bool_decide (rx u = []) then 0 else LSR_RX_READY) (if lsr_idle u then LSR_TX_IDLE else 0))
    {| thr := thr u; idle := tail (idle u); rx := rx u; regs := regs u; tx_buf := tx_buf u; tx_w := tx_w u; tx_r := tx_r u |}.
Definition write_THR (c : Z) : M uart unit :=
  modify (fun u => {| thr := thr u ++ [u8 c]; idle := idle u; rx := rx u; regs := regs u; tx_buf := tx_buf u; tx_w := tx_w u; tx_r := tx_r u |}).
Definition read_RHR : M uart Z := fun u =>
  Ret (default 0 (head (rx u)))
    {| thr := thr u; idle := idle u; rx := tail (rx u); regs := regs u; tx_buf := tx_buf u; tx_w := tx_w u; tx_r := tx_r u |}.
Definition WriteReg (reg v : Z) : M uart unit :=
  modify (fun u => {| thr := thr u; idle := idle u; rx := rx u; regs := (reg, v) :: regs u; tx_buf := tx_buf u; tx_w := tx_w u; tx_r := tx_r u |}).

Definition uartinit : M dev unit :=
  zoom (WriteReg IER 0) ;;
  zoom (WriteReg LCR LCR_BAUD_LATCH) ;;
  zoom (WriteReg 0 3) ;;
  zoom (WriteReg 1 0) ;;
  zoom (WriteReg LCR LCR_EIGHT_BITS) ;;
  zoom (WriteReg FCR (Z.lor FCR_FIFO_ENABLE FCR_FIFO_CLEAR)) ;;
  zoom (WriteReg IER (Z.lor IER_TX_ENABLE IER_RX_ENABLE)) ;;
  initlock LUartTx.

(** [uart_tx_buf[uart_tx_w] = c; uart_tx_w = (uart_tx_w + 1) % UART_TX_BUF_SIZE] *)
Definition tx_put (c : Z) (u : uart) : uart :=
  {| thr := thr u; idle := idle u; rx := rx u; regs := regs u;
     tx_buf := <[Z.to_nat (tx_w u) := u8 c]> (tx_buf u); tx_w := Z.rem (tx_w u + 1) UART_TX_BUF_SIZE; tx_r := tx_r u |}.
(** [c = uart_tx_buf[uart_tx_r]; uart_tx_r = (uart_tx_r + 1) % UART_TX_BUF_SIZE] *)
Definition tx_next (u : uart) : Z := tx_buf u !!! Z.to_nat (tx_r u).
Definition tx_drop (u : uart) : uart :=
  {| thr := thr u; idle := idle u; rx := rx u; regs := regs u;
     tx_buf := tx_buf u; tx_w := tx_w u; tx_r := Z.rem (tx_r u + 1) UART_TX_BUF_SIZE |}.

(** The buffer holds fewer than [UART_TX_BUF_SIZE] characters. *)
Fixpoint uartstart_loop (fuel : nat) : M dev unit :=
  match fuel with
  | O => nofuel
  | S fuel' =>
      let! u := gets d_uart in
      if tx_w u =? tx_r u then mret_ tt
      else
        let! l := zoom read_LSR in
        if Z.land l LSR_TX_IDLE =? 0 then mret_ tt
        else
          let! c := gets (fun s => tx_next (d_uart s)) in
          zoom (modify tx_drop) ;;
          wakeup ChanUartTx ;;
          zoom (write_THR c) ;;
          uartstart_loop fuel'
  end.
Definition uartstart : M dev unit := uartstart_loop (Z.to_nat UART_TX_BUF_SIZE).

Section Wait.
Context {WK : Wakeups}.

(** [while(1)] of [uartputc]. *)
Fixpoint uartputc_loop (fuel : nat) (c : Z) : M dev unit :=
  match fuel with
  | O => nofuel
  | S fuel' =>
      let! u := gets d_uart in
      if Z.rem (tx_w u + 1) UART_TX_BUF_SIZE =? tx_r u then
        sleep ChanUartTx LUartTx ;; uartputc_loop fuel' c
      else
        zoom (modify (tx_put c)) ;;
        uartstart ;;
        release LUartTx
  end.

(** After a panic it loops for ever. *)
Definition uartputc (c : Z) : M dev unit :=
  acquire LUartTx ;;
  let! p := gets panicked in
  if p then nofuel else uartputc_loop (S max_wakeups) c.
End Wait.

(** [while((ReadReg(LSR) & LSR_TX_IDLE) == 0)] *)
Fixpoint spin_idle (fuel : nat) : M uart unit :=
  match fuel with
  | O => nofuel
  | S fuel' => let! l := read_LSR in if Z.land l LSR_TX_IDLE =? 0 then spin_idle fuel' else mret_ tt
  end.

Definition uartputc_sync (c : Z) : M dev unit :=
  let! p := gets panicked in
  if p then nofuel
  else
    let! u := gets d_uart in
    zoom (spin_idle (S (length (idle u)))) ;;
    zoom (write_THR c).

Definition uartgetc : M uart Z :=
  let! l := read_LSR in
  if Z.land l 1 =? 0 then mret_ (-1) else read_RHR.
