(* ===== verification/Kprintf.v ===== *)
(** kernel/printf.c: formatted output of the kernel, with [consputc] of
    kernel/console.c and [procdump] of kernel/proc.c. *)

From S2P Require Import Prelude Riscv Mem Sync Kalloc Vm Digits Proc Uart.

Definition BACKSPACE : Z := 0x100.

Definition consputc (c : Z) : M dev unit :=
  if c =? BACKSPACE then uartputc_sync 8 ;; uartputc_sync 32 ;; uartputc_sync 8
  else uartputc_sync c.

Fixpoint consputs (cs : list Z) : M dev unit :=
  match cs with
  | [] => mret_ tt
  | c :: cs' => consputc c ;; consputs cs'
  end.

(** [digits[]] *)
Definition kdigit (d : Z) : Z := if d <? 10 then 48 + d else 97 + (d - 10).

(** The characters [printint] leaves in [buf], in the order it prints them. *)
Definition printint_chars (xx base : Z) (sign : bool) : list Z :=
  let neg := sign && (xx <? 0) in
  let x := if neg then u32 (- xx) else u32 xx in
  (if neg then [45] else []) ++ (kdigit <$> digits_of x base).
Definition printint (xx base : Z) (sign : bool) : M dev unit := consputs (printint_chars xx base sign).

(** [for (i = 0; i < 16; i++, x <<= 4) consputc(digits[x >> 60])] *)
Fixpoint printptr_loop (n : nat) (x : Z) : M dev unit :=
  match n with
  | O => mret_ tt
  | S n' => consputc (kdigit (Z.shiftr x 60)) ;; printptr_loop n' (u64 (Z.shiftl x 4))
  end.
Definition printptr (x : Z) : M dev unit := consputc 48 ;; consputc 120 ;; printptr_loop 16 x.

(** An argument: a number, or a string that may be null. *)
Inductive karg := AInt (x : Z) | AStr (s : option (list Z)).
Definition arg_int (a : option karg) : Z := match a with Some (AInt x) => x | _ => 0 end.
Definition arg_str (a : option karg) : list Z := match a with Some (AStr (Some s)) => s | _ => chars "(null)" end.

(** The conversion after [%], and whether it takes an argument. *)
Definition convert (c : Z) (ap : list karg) : M dev (list karg) :=
  if c =? 100 then printint (s32 (arg_int (head ap))) 10 true ;; mret_ (tail ap)
  else if c =? 120 then printint (s32 (arg_int (head ap))) 16 true ;; mret_ (tail ap)
  else if c =? 112 then printptr (u64 (arg_int (head ap))) ;; mret_ (tail ap)
  else if c =? 115 then consputs (arg_str (head ap)) ;; mret_ (tail ap)
  else if c =? 37 then consputc 37 ;; mret_ ap
  else consputc 37 ;; consputc c ;; mret_ ap.

Fixpoint printf_loop (fmt : list Z) (ap : list karg) : M dev unit :=
  match fmt with
  | [] => mret_ tt
  | c :: fmt' =>
      if negb (c =? 37) then consputc c ;; printf_loop fmt' ap
      else
        match fmt' with
        | [] => mret_ tt
        | c :: fmt' => let! ap := convert c ap in printf_loop fmt' ap
        end
  end.
Definition kprintf (fmt : list Z) (ap : list karg) : M dev unit :=
  let! l := gets locking in
  (if l then acquire LPr else mret_ tt) ;;
  printf_loop fmt ap ;;
  (if l then release LPr else mret_ tt).

(** [panic] prints its message, stops output from other CPUs, and loops for ever. *)
Definition kpanic (s : list Z) : M dev unit :=
  set_locking false ;;
  kprintf (chars "panic: ") [] ;;
  kprintf s [] ;;
  kprintf [10] [] ;;
  set_panicked true ;;
  nofuel.

Definition printfinit : M dev unit := initlock LPr ;; set_locking true.

(** ** [procdump] *)

Definition state_name (st : procstate) : list Z :=
  match st with
  | UNUSED => chars "unused" | SLEEPING => chars "sleep " | RUNNABLE => chars "runble"
  | RUNNING => chars "run   " | ZOMBIE => chars "zombie"
  end.

Fixpoint procdump_loop (l : list proc) : M dev unit :=
  match l with
  | [] => mret_ tt
  | p :: l' =>
      (if bool_decide (p_state p = UNUSED) then mret_ tt
       else
         kprintf (chars "%d %s %s") [AInt (p_pid p); AStr (Some (state_name (p_state p))); AStr (Some (p_name p))] ;;
         kprintf [10] []) ;;
      procdump_loop l'
  end.
Definition procdump : M dev unit :=
  kprintf [10] [] ;;
  let! l := gets d_procs in
  procdump_loop l.
