(* ===== verification/Console.v ===== *)
(** kernel/console.c: the console.

    Input is edited a line at a time: the interrupt handler appends what arrives
    to a ring of [INPUT_BUF] characters between the indices [r], [w] and [e], 32-bit
    counters that wrap around; characters from [r] to [w] can be read, those from
    [w] to [e] can still be edited. *)

From S2P Require Import Prelude Riscv Mem Sync Kalloc Vm Proc Uart Kprintf.

(** [C(x)] *)
Definition C (x : Z) : Z := x - 64.
Definition ctrl_D : Z := C 68.
Definition ctrl_H : Z := C 72.
Definition ctrl_P : Z := C 80.
Definition ctrl_U : Z := C 85.

Definition cons_get (c : cons) (i : Z) : Z := c_buf c !!! Z.to_nat (i mod INPUT_BUF).
Definition set_r (x : Z) (c : cons) : cons := {| c_buf := c_buf c; c_r := x; c_w := c_w c; c_e := c_e c |}.
Definition set_w (x : Z) (c : cons) : cons := {| c_buf := c_buf c; c_r := c_r c; c_w := x; c_e := c_e c |}.
Definition set_e (x : Z) (c : cons) : cons := {| c_buf := c_buf c; c_r := c_r c; c_w := c_w c; c_e := x |}.
(** [cons.buf[cons.e++ % INPUT_BUF] = c] *)
Definition cons_put (x : Z) (c : cons) : cons :=
  {| c_buf := <[Z.to_nat (c_e c mod INPUT_BUF) := u8 x]> (c_buf c); c_r := c_r c; c_w := c_w c; c_e := u32 (c_e c + 1) |}.

Section Console.
Context {LY : Layout} {WK : Wakeups}.
Definition upd_cons (f : cons -> cons) : M dev unit := zoom (modify f).

Fixpoint consolewrite_loop (n : nat) (user_src : bool) (src i : Z) : M dev Z :=
  match n with
  | O => mret_ i
  | S n' =>
      let! pt := gets d_pagetable in
      let! '(r, d) := zoom (copyin_either user_src pt (src + i) 1) in
      if r =? -1 then mret_ i
      else uartputc (default 0 (head d)) ;; consolewrite_loop n' user_src src (i + 1)
  end.
Definition consolewrite (user_src : bool) (src n : Z) : M dev Z :=
  acquire LCons ;;
  let! i := consolewrite_loop (Z.to_nat n) user_src src 0 in
  release LCons ;;
  mret_ i.

(** [while(cons.r == cons.w)]: whether the process was killed. *)
Fixpoint cons_wait (fuel : nat) : M dev bool :=
  match fuel with
  | O => nofuel
  | S fuel' =>
      let! c := gets d_cons in
      if c_r c =? c_w c then
        let! k := gets d_killed in
        if k then mret_ true else sleep ChanCons LCons ;; cons_wait fuel'
      else mret_ false
  end.

(** [while(n > 0)]: [None] when killed, otherwise what is left of [n]. *)
Fixpoint consoleread_loop (n : nat) (user_dst : bool) (dst target : Z) : M dev (option Z) :=
  match n with
  | O => mret_ (Some 0)
  | S n' =>
      let! killed := cons_wait (S max_wakeups) in
      if killed then mret_ None
      else
        let! cs := gets d_cons in
        let c := cons_get cs (c_r cs) in
        upd_cons (fun x => set_r (u32 (c_r x + 1)) x) ;;
        if c =? ctrl_D then
          (if Z.of_nat n <? target then upd_cons (fun x => set_r (u32 (c_r x - 1)) x) else mret_ tt) ;;
          mret_ (Some (Z.of_nat n))
        else
          let! pt := gets d_pagetable in
          let! r := zoom (copyout_either user_dst pt dst [c]) in
          if r =? -1 then mret_ (Some (Z.of_nat n))
          else if c =? 10 then mret_ (Some (Z.of_nat n'))
          else consoleread_loop n' user_dst (dst + 1) target
  end.
Definition consoleread (user_dst : bool) (dst n : Z) : M dev Z :=
  let target := u32 n in
  acquire LCons ;;
  let! r := consoleread_loop (Z.to_nat n) user_dst dst target in
  release LCons ;;
  mret_ (match r with None => -1 | Some rest => s32 (target - (if n <=? 0 then n else rest)) end).

(** [while(cons.e != cons.w && cons.buf[(cons.e-1) % INPUT_BUF] != '\n')] *)
Fixpoint kill_line (fuel : nat) : M dev unit :=
  match fuel with
  | O => nofuel
  | S fuel' =>
      let! c := gets d_cons in
      if negb (c_e c =? c_w c) && negb (cons_get c (u32 (c_e c - 1)) =? 10) then
        upd_cons (fun x => set_e (u32 (c_e x - 1)) x) ;;
        consputc BACKSPACE ;;
        kill_line fuel'
      else mret_ tt
  end.

(** An ordinary character. *)
Definition store_char (c : Z) : M dev unit :=
  let! cs := gets d_cons in
  if negb (c =? 0) && (u32 (c_e cs - c_r cs) <? INPUT_BUF) then
    let c := if c =? 13 then 10 else c in
    consputc c ;;
    upd_cons (cons_put c) ;;
    let! cs := gets d_cons in
    if (c =? 10) || (c =? ctrl_D) || (c_e cs =? u32 (c_r cs + INPUT_BUF)) then
      upd_cons (fun x => set_w (c_e x) x) ;; wakeup ChanCons
    else mret_ tt
  else mret_ tt.

(** [switch(c)] *)
Definition handle_char (c : Z) : M dev unit :=
  if c =? ctrl_P then procdump
  else if c =? ctrl_U then kill_line (S (Z.to_nat INPUT_BUF))
  else if (c =? ctrl_H) || (c =? 127) then
    let! cs := gets d_cons in
    if negb (c_e cs =? c_w cs) then
      upd_cons (fun x => set_e (u32 (c_e x - 1)) x) ;; consputc BACKSPACE
    else mret_ tt
  else store_char c.

Definition consoleintr (c : Z) : M dev unit := acquire LCons ;; handle_char c ;; release LCons.

(** [while(1) { c = uartgetc(); ... }]: every character that has arrived. *)
Fixpoint uartintr_loop (fuel : nat) : M dev unit :=
  match fuel with
  | O => nofuel
  | S fuel' =>
      let! c := zoom uartgetc in
      if c =? -1 then mret_ tt else consoleintr c ;; uartintr_loop fuel'
  end.
Definition uartintr : M dev unit :=
  let! u := gets d_uart in
  uartintr_loop (S (length (rx u))) ;;
  acquire LUartTx ;;
  uartstart ;;
  release LUartTx.

(** [devsw[CONSOLE]] is the pair of [consoleread] and [consolewrite]. *)
Definition consoleinit : M dev unit := initlock LCons ;; uartinit.
End Console.
