(* ===== verification/ConsoleProps.v ===== *)
(** What the console and the UART driver guarantee: output is sent in order and
    nothing is lost, and input is edited a line at a time. *)

From S2P Require Import Prelude Riscv Mem Sync Kalloc Vm VmPt VmMap VmCopy VmProps Proc Uart Kprintf Console.

(** ** The transmit buffer is a queue *)

Record tx_rep (u : uart) (q : list Z) : Prop := {
  tr_len : length (tx_buf u) = 32%nat;
  tr_r : 0 <= tx_r u < 32;
  tr_w : tx_w u = (tx_r u + Z.of_nat (length q)) mod 32;
  tr_room : (length q < 32)%nat;
  tr_byte : Forall (fun x => u8 x = x) q;
  tr_data : forall i x, q !! i = Some x -> tx_buf u !! Z.to_nat ((tx_r u + Z.of_nat i) mod 32) = Some x }.

Lemma tx_empty u q : tx_rep u q -> (tx_w u =? tx_r u) = bool_decide (q = []).
Proof.
  intros [_ Hr -> Hroom _ _]. apply eq_bool_prop_intro. rewrite Is_true_true, Z.eqb_eq, bool_decide_spec.
  destruct q as [|x q]; cbn [length] in *.
  - rewrite Z.add_0_r, Z.mod_small by lia. done.
  - split; [|done]. intros E. exfalso. Z.to_euclidean_division_equations. lia.
Qed.

Lemma tx_full u q : tx_rep u q -> (Z.rem (tx_w u + 1) UART_TX_BUF_SIZE =? tx_r u) = bool_decide (length q = 31%nat).
Proof.
  intros [_ Hr -> Hroom _ _]. unfold UART_TX_BUF_SIZE. apply eq_bool_prop_intro. rewrite Is_true_true, Z.eqb_eq, bool_decide_spec.
  rewrite Z.rem_mod_nonneg by (Z.to_euclidean_division_equations; lia). split; intros E; Z.to_euclidean_division_equations; lia.
Qed.

Lemma tx_put_rep u q c : tx_rep u q -> (length q < 31)%nat -> tx_rep (tx_put c u) (q ++ [u8 c]).
Proof.
  intros [Hlen Hr Hw Hroom Hb Hd] Hq. split; cbn [tx_put tx_buf tx_r tx_w].
  - by rewrite length_insert.
  - done.
  - rewrite Hw, length_app, Nat2Z.inj_add. cbn [length]. unfold UART_TX_BUF_SIZE.
    rewrite Z.rem_mod_nonneg by (Z.to_euclidean_division_equations; lia). Z.to_euclidean_division_equations; lia.
  - rewrite length_app. cbn. lia.
  - apply Forall_app. split; [done|]. constructor; [apply u8_idem|done].
  - intros i x Hx. apply lookup_app_Some in Hx as [Hx|[Hge Hx]].
    + rewrite list_lookup_insert_ne; [by apply Hd|]. apply lookup_lt_Some in Hx. rewrite Hw. Z.to_euclidean_division_equations; lia.
    + apply list_lookup_singleton_Some in Hx as [Hi <-]. replace i with (length q) by lia. rewrite <- Hw.
      apply list_lookup_insert_eq. rewrite Hw, Hlen. Z.to_euclidean_division_equations; lia.
Qed.

Lemma tx_drop_rep u x q : tx_rep u (x :: q) -> tx_next u = x /\ tx_rep (tx_drop u) q.
Proof.
  intros [Hlen Hr Hw Hroom Hb Hd]. cbn [length] in *. split.
  - pose proof (Hd 0%nat x eq_refl) as H0. rewrite Z.add_0_r, Z.mod_small in H0 by lia. by apply list_lookup_total_correct.
  - split; cbn [tx_drop tx_buf tx_r tx_w]; unfold UART_TX_BUF_SIZE; rewrite ?Z.rem_mod_nonneg by lia.
    + done.
    + Z.to_euclidean_division_equations; lia.
    + rewrite Hw. Z.to_euclidean_division_equations; lia.
    + lia.
    + by apply Forall_cons in Hb as [_ Hb].
    + intros i y Hy. rewrite <- (Hd (S i) y Hy). do 2 f_equal. Z.to_euclidean_division_equations; lia.
Qed.

(** ** Output *)

(** Everything but the UART and the wakeups is as before. *)
Record same_dev (s s' : dev) : Prop := {
  sd_cons : d_cons s' = d_cons s; sd_panicked : panicked s' = panicked s; sd_locking : locking s' = locking s;
  sd_procs : d_procs s' = d_procs s; sd_pm : d_pm s' = d_pm s; sd_pt : d_pagetable s' = d_pagetable s;
  sd_killed : d_killed s' = d_killed s; sd_rx : rx (d_uart s') = rx (d_uart s) }.

Lemma same_dev_refl s : same_dev s s.
Proof. done. Qed.

Lemma same_dev_trans s1 s2 s3 : same_dev s1 s2 -> same_dev s2 s3 -> same_dev s1 s3.
Proof. intros [] []. split; congruence. Qed.

(** Reading LSR tells whether the transmitter is idle. *)
Lemma lsr_idle_bit u : (Z.land (Z.lor (if bool_decide (rx u = []) then 0 else LSR_RX_READY) (if lsr_idle u then LSR_TX_IDLE else 0)) LSR_TX_IDLE =? 0) = negb (lsr_idle u).
Proof. by case_bool_decide; destruct (lsr_idle u). Qed.

Lemma uartstart_ok fuel s q :
  tx_rep (d_uart s) q -> (length q < fuel)%nat ->
  exists s' q', uartstart_loop fuel s = Ret tt s' /\ tx_rep (d_uart s') q' /\ thr (d_uart s') ++ q' = thr (d_uart s) ++ q /\
    (idle (d_uart s) = [] -> q' = []) /\ same_dev s s'.
Proof.
  revert s q. induction fuel as [|fuel IH]; intros s q Hq Hf; [lia|]. cbn [uartstart_loop]. mstep.
  rewrite (tx_empty _ q Hq). case_bool_decide as He; [subst q; exists s, []; split_and!; done|].
  destruct q as [|x q]; [done|]. set (s1 := lput (Lens := dev_uart)
    {| thr := thr (d_uart s); idle := tail (idle (d_uart s)); rx := rx (d_uart s); regs := regs (d_uart s);
       tx_buf := tx_buf (d_uart s); tx_w := tx_w (d_uart s); tx_r := tx_r (d_uart s) |} s).
  erewrite (bind_ret _ _ _ _ s1); [|reflexivity]. rewrite lsr_idle_bit.
  change (lget s) with (d_uart s). destruct (lsr_idle (d_uart s)) eqn:Hi; cbn [negb].
  - destruct (tx_drop_rep (d_uart s) x q Hq) as [Hx Hq']. do 4 mstep. cbn [length] in Hf.
    match goal with |- context [uartstart_loop fuel ?t] => destruct (IH t q) as (s' & q' & E & H1 & H2 & H3 & H4); [by destruct Hq'; split|lia|] end.
    exists s', q'. split; [exact E|]. split; [done|]. split; [|split].
    + rewrite H2. change (thr _ ++ q) with ((thr (d_uart s) ++ [u8 (tx_next (d_uart s))]) ++ q). rewrite Hx, <- app_assoc. cbn [app].
      destruct Hq as [_ _ _ _ Hb _]. apply Forall_cons in Hb as [-> _]. done.
    + intros Hidle. apply H3. change (tail (idle (d_uart s)) = []). by rewrite Hidle.
    + eapply same_dev_trans; [|exact H4]. done.
  - exists s1, (x :: q). split; [done|]. split; [by destruct Hq; split|]. split; [done|]. split; [|done].
    intros Hidle. unfold lsr_idle in Hi. by rewrite Hidle in Hi.
Qed.

(** From [s] to [s'] the bytes [cs] were sent directly. *)
Record echoed (cs : list Z) (s s' : dev) : Prop := {
  ec_same : same_dev s s'; ec_thr : thr (d_uart s') = thr (d_uart s) ++ cs; ec_woken : d_woken s' = d_woken s }.

Lemma echoed_app c1 c2 s1 s2 s3 : echoed c1 s1 s2 -> echoed c2 s2 s3 -> echoed (c1 ++ c2) s1 s3.
Proof.
  intros [A1 B1 W1] [A2 B2 W2]. split; [by eapply same_dev_trans|by rewrite B2, B1, app_assoc|congruence].
Qed.

Lemma spin_idle_ok fuel u :
  (length (idle u) < fuel)%nat -> exists u', spin_idle fuel u = Ret tt u' /\ thr u' = thr u /\ rx u' = rx u.
Proof.
  revert u. induction fuel as [|fuel IH]; intros u Hf; [lia|]. cbn [spin_idle].
  erewrite bind_ret; [|reflexivity]. rewrite lsr_idle_bit. destruct (lsr_idle u) eqn:Hi; cbn [negb]; [by eexists|].
  destruct (idle u) as [|b l] eqn:El; [unfold lsr_idle in Hi; by rewrite El in Hi|].
  match goal with |- context [spin_idle fuel ?t] => destruct (IH t) as (u' & E & H1 & H2); [cbn in *; lia|] end.
  by exists u'.
Qed.

Lemma uartputc_sync_ok c s : panicked s = false -> exists s', uartputc_sync c s = Ret tt s' /\ echoed [u8 c] s s'.
Proof.
  intros Hp. unfold uartputc_sync. mstep. rewrite Hp. mstep.
  destruct (spin_idle_ok (S (length (idle (d_uart s)))) (d_uart s)) as (u' & E & H1 & H2); [lia|].
  rewrite (bind_ret _ _ _ _ _ (zoom_ret _ s _ _ E)). eexists. split; [reflexivity|]. split; [done| |done].
  cbn. by rewrite H1.
Qed.

(** What [consputc] sends: a backspace is overwritten with a space. *)
Definition echo (c : Z) : list Z := if c =? BACKSPACE then [8; 32; 8] else [u8 c].

Lemma consputc_ok c s : panicked s = false -> exists s', consputc c s = Ret tt s' /\ echoed (echo c) s s'.
Proof.
  intros Hp. unfold consputc, echo. destruct (c =? BACKSPACE); [|by apply uartputc_sync_ok].
  destruct (uartputc_sync_ok 8 s Hp) as (s1 & E1 & H1). rewrite (bind_ret _ _ _ _ _ E1).
  destruct (uartputc_sync_ok 32 s1) as (s2 & E2 & H2); [by rewrite (sd_panicked _ _ (ec_same _ _ _ H1))|]. rewrite (bind_ret _ _ _ _ _ E2).
  destruct (uartputc_sync_ok 8 s2) as (s3 & E3 & H3).
  { by rewrite (sd_panicked _ _ (ec_same _ _ _ H2)), (sd_panicked _ _ (ec_same _ _ _ H1)). }
  exists s3. split; [done|]. apply (echoed_app [8] [32; 8] _ s1); [done|]. by apply (echoed_app [32] [8] _ s2).
Qed.

Definition dlocks (s : dev) : lockset := lget s.

Section Props.
Context {LY : Layout} {LYok : LayoutOk} {WK : Wakeups}.

(** Taking the lock, putting the character into a buffer with room, sending. *)
Lemma uartputc_ok c s q :
  tx_rep (d_uart s) q -> (length q < 31)%nat -> LUartTx ∉ dlocks s -> panicked s = false ->
  exists s' q', uartputc c s = Ret tt s' /\ tx_rep (d_uart s') q' /\ thr (d_uart s') ++ q' = thr (d_uart s) ++ q ++ [u8 c] /\
    (idle (d_uart s) = [] -> q' = []) /\ same_dev s s'.
Proof.
  intros Hq Hlen Hl Hp. unfold uartputc. rewrite (bind_ret _ _ _ _ _ (acquire_ok LUartTx s Hl)). mstep.
  change (panicked (lput _ s)) with (panicked s). rewrite Hp. cbn [uartputc_loop]. mstep.
  change (d_uart (lput _ s)) with (d_uart s). rewrite (tx_full _ q Hq), bool_decide_false by lia.
  set (s1 := lput (Lens := dev_uart) (tx_put c (d_uart s)) (lput ({[LUartTx]} ∪ dlocks s) s)).
  erewrite (bind_ret _ _ _ _ s1); [|reflexivity].
  destruct (uartstart_ok (Z.to_nat UART_TX_BUF_SIZE) s1 (q ++ [u8 c])) as (s2 & q' & E & H1 & H2 & H3 & H4).
  - by apply tx_put_rep.
  - rewrite length_app. change (Z.to_nat UART_TX_BUF_SIZE) with 32%nat. cbn. lia.
  - unfold uartstart. rewrite (bind_ret _ _ _ _ _ E).
    assert (Hd : dlocks s2 = {[LUartTx]} ∪ dlocks s) by (unfold dlocks, lget; cbn; by rewrite (sd_pm _ _ H4)).
    rewrite (release_ok LUartTx s2) by (change (LUartTx ∈ dlocks s2); rewrite Hd; set_solver).
    change (lget s2) with (dlocks s2). rewrite Hd, lockset_add_del by done.
    exists (lput (dlocks s) s2), q'. split; [done|]. split; [done|]. split; [done|]. split; [done|].
    destruct H4 as [? ? ? ? Hpm ? ? ?]. split; try done. cbn. cbn in Hpm. rewrite Hpm. cbn.
    unfold dlocks. cbn. by destruct (d_pm s).
Qed.

(** C28: console output is sent in order and nothing is lost: when the transmit
    buffer has room, [uartputc] adds the character at its end, and whatever the
    UART accepts meanwhile, the bytes sent followed by the bytes still in the
    buffer are those before it, followed by the character. *)
Theorem uartputc_fifo c s q :
  tx_rep (d_uart s) q -> (length q < 31)%nat -> LUartTx ∉ dlocks s -> panicked s = false ->
  exists s' q', uartputc c s = Ret tt s' /\ tx_rep (d_uart s') q' /\
    thr (d_uart s') ++ q' = thr (d_uart s) ++ q ++ [u8 c] /\ dlocks s' = dlocks s.
Proof.
  intros Hq Hlen Hl Hp. destruct (uartputc_ok c s q Hq Hlen Hl Hp) as (s' & q' & E & H1 & H2 & _ & H3).
  exists s', q'. split_and!; try done. unfold dlocks, lget. cbn. by rewrite (sd_pm _ _ H3).
Qed.

(** There is a byte to write at [src]: for a user address, the process has memory
    there. *)
Definition readable (user : bool) (src : Z) (s : dev) : Prop :=
  user = true -> 0 <= src /\ exists t u l, as_rep (d_pm s) (d_pagetable s) t u l /\ ubyte (mem (d_pm s)) u src <> None.

Lemma copyin_readable user src h s :
  readable user src s -> LKmem ∉ h ->
  exists b, copyin_either user (d_pagetable s) src 1 (set_held h (d_pm s)) = Ret (0, [b]) (set_held h (d_pm s)).
Proof.
  intros Hr Hh. destruct user; [|by eexists]. destruct (Hr eq_refl) as (Hs & t & u & l & R & Hb).
  destruct (copyin_loop_spec 2 _ _ t u l src 1 (as_rep_held _ _ _ _ _ h R Hh)) as (r & bs & E & Hu); [done|lia|].
  change (Z.to_nat 1) with 1%nat in Hu. cbn [ubytes] in Hu. change (mem (set_held h (d_pm s))) with (mem (d_pm s)) in Hu.
  destruct (ubyte (mem (d_pm s)) u src) as [b|]; [|done]. destruct Hu as [-> ->]. exists b. exact E.
Qed.

(** C29: [consolewrite] panics when the transmit buffer is full: it calls
    [uartputc], which sleeps, while it holds [cons.lock], so that [sched] finds a
    second lock held.  This is so, when no lock is held and the kernel has not
    panicked before, for a write of at least one byte that can be
    read, from user memory, as [filewrite] calls it, or from kernel memory. *)
Theorem consolewrite_full_panics s q user_src src n :
  tx_rep (d_uart s) q -> length q = 31%nat -> dlocks s = ∅ -> panicked s = false -> 0 < n -> readable user_src src s ->
  consolewrite user_src src n s = Panic "sched locks".
Proof.
  intros Hq Hlen Hl Hp Hn Hr. unfold consolewrite.
  assert (Ha : LCons ∉ dlocks s) by (rewrite Hl; set_solver). rewrite (bind_ret _ _ _ _ _ (acquire_ok LCons s Ha)).
  change (lget s) with (dlocks s). rewrite Hl, union_empty_r_L. apply bind_panic. destruct (Z.to_nat n) as [|n'] eqn:En; [lia|]. cbn [consolewrite_loop]. mstep.
  destruct (copyin_readable user_src src {[LCons]} s Hr) as [b Eb]; [set_solver|].
  set (s1 := lput (Lens := dev_pm) (lget (Lens := dev_pm) (lput {[LCons]} s)) (lput {[LCons]} s)).
  assert (Ez : zoom (copyin_either user_src (d_pagetable s) (src + 0) 1) (lput {[LCons]} s) = Ret (0, [b]) s1).
  { apply zoom_ret. rewrite Z.add_0_r. exact Eb. }
  change (d_pagetable (lput _ s)) with (d_pagetable s). rewrite (bind_ret _ _ _ _ _ Ez).
  cbn [Z.eqb]. apply bind_panic.
  assert (Hl1 : dlocks s1 = {[LCons]}) by done.
  assert (Ha1 : LUartTx ∉ dlocks s1) by (rewrite Hl1; set_solver). unfold uartputc. rewrite (bind_ret _ _ _ _ _ (acquire_ok LUartTx s1 Ha1)).
  mstep. change (panicked (lput _ s1)) with (panicked s). rewrite Hp. cbn [uartputc_loop]. mstep.
  change (d_uart (lput _ s1)) with (d_uart s). rewrite (tx_full _ q Hq), bool_decide_true by done.
  apply bind_panic. unfold sleep, holding. rewrite lget_lput.
  assert (Hl2 : (lget s1 : lockset) = {[LCons]}) by done. rewrite Hl2.
  rewrite bool_decide_true by set_solver. cbn [negb]. rewrite bool_decide_false; [done|].
  intros E. assert (LCons ∈ ({[LUartTx]} : lockset)) by (rewrite <- E; set_solver). set_solver.
Qed.
End Props.

(** ** Line editing *)

(** [com]: the characters that can be read; [ed]: those that can be edited. *)
Record cons_rep (c : cons) (com ed : list Z) : Prop := {
  cr_len : length (c_buf c) = 128%nat;
  cr_r : 0 <= c_r c < 2 ^ 32;
  cr_w : c_w c = u32 (c_r c + Z.of_nat (length com));
  cr_e : c_e c = u32 (c_r c + Z.of_nat (length com + length ed));
  cr_room : (length com + length ed <= 128)%nat;
  cr_line : 10 ∉ ed;
  cr_data : forall i x, (com ++ ed) !! i = Some x -> c_buf c !! Z.to_nat ((c_r c + Z.of_nat i) mod 128) = Some x }.

(** The line discipline: what a character typed does to them. *)
Definition ldisc (c : Z) (l : list Z * list Z) : list Z * list Z :=
  let '(com, ed) := l in
  if c =? ctrl_P then l
  else if c =? ctrl_U then (com, [])
  else if (c =? ctrl_H) || (c =? 127) then (com, take (length ed - 1) ed)
  else if negb (c =? 0) && bool_decide (length com + length ed < 128)%nat then
    let c := if c =? 13 then 10 else c in
    if (c =? 10) || (c =? ctrl_D) || bool_decide (length com + length ed = 127)%nat then (com ++ ed ++ [c], []) else (com, ed ++ [c])
  else l.

(** The characters echoed. *)
Definition echoes (c : Z) (l : list Z * list Z) : list Z :=
  let '(com, ed) := l in
  if c =? ctrl_U then flat_map (fun _ => [8; 32; 8]) ed
  else if (c =? ctrl_H) || (c =? 127) then flat_map (fun _ => [8; 32; 8]) (drop (length ed - 1) ed)
  else if negb (c =? 0) && bool_decide (length com + length ed < 128)%nat then [if c =? 13 then 10 else c]
  else [].

Lemma u32_mod_128 x : u32 x mod 128 = x mod 128.
Proof. unfold u32. Z.to_euclidean_division_equations. lia. Qed.

Lemma cons_edit_empty c com ed : cons_rep c com ed -> (c_e c =? c_w c) = bool_decide (ed = []).
Proof.
  intros [_ Hr Hw He Hroom _ _]. apply eq_bool_prop_intro. rewrite Is_true_true, Z.eqb_eq, bool_decide_spec, Hw, He.
  destruct ed as [|x ed]; cbn [length] in *; [rewrite Nat.add_0_r; done|]. split; [|done]. intros E. exfalso.
  unfold u32 in E. Z.to_euclidean_division_equations. lia.
Qed.

(** Erasing the last character. *)
Lemma cons_erase c com ed x :
  cons_rep c com (ed ++ [x]) -> cons_rep (set_e (u32 (c_e c - 1)) c) com ed /\ cons_get c (u32 (c_e c - 1)) = x.
Proof.
  intros [Hlen Hr Hw He Hroom Hline Hd]. rewrite length_app in *. cbn [length] in *. split.
  - split; cbn [set_e c_buf c_r c_w c_e]; try done.
    + rewrite He. unfold u32. Z.to_euclidean_division_equations. lia.
    + lia.
    + set_solver.
    + intros i y Hy. apply Hd. rewrite app_assoc. by apply lookup_app_l_Some.
  - unfold cons_get, INPUT_BUF. rewrite u32_mod_128, He. apply list_lookup_total_correct.
    rewrite <- (Hd (length com + length ed)%nat x).
    + do 2 f_equal. unfold u32. Z.to_euclidean_division_equations. lia.
    + rewrite app_assoc, <- length_app. by apply list_lookup_middle.
Qed.

Lemma cons_count c com ed : cons_rep c com ed -> u32 (c_e c - c_r c) = Z.of_nat (length com + length ed).
Proof. intros [_ Hr _ He Hroom _ _]. rewrite He. unfold u32. Z.to_euclidean_division_equations. lia. Qed.

(** The buffer after a character is stored, before it is known whether it ends
    the line. *)
Lemma cons_put_data c com ed x :
  cons_rep c com ed -> (length com + length ed < 128)%nat -> let c' := cons_put x c in
  length (c_buf c') = 128%nat /\ c_e c' = u32 (c_r c + Z.of_nat (length com + length (ed ++ [u8 x]))) /\
  (forall i y, (com ++ ed ++ [u8 x]) !! i = Some y -> c_buf c' !! Z.to_nat ((c_r c + Z.of_nat i) mod 128) = Some y).
Proof.
  intros [Hlen Hr Hw He Hroom Hline Hd] Hlt c'. cbn [c' cons_put c_buf c_e]. split_and!.
  - by rewrite length_insert.
  - rewrite He, length_app. cbn [length]. unfold u32. Z.to_euclidean_division_equations. lia.
  - unfold INPUT_BUF. rewrite He, u32_mod_128. intros i y Hy. rewrite app_assoc in Hy.
    apply lookup_app_Some in Hy as [Hy|[Hge Hy]].
    + rewrite list_lookup_insert_ne; [by apply Hd|]. apply lookup_lt_Some in Hy. rewrite length_app in Hy. Z.to_euclidean_division_equations. lia.
    + apply list_lookup_singleton_Some in Hy as [Hi <-]. rewrite length_app in *. replace i with (length com + length ed)%nat by lia.
      apply list_lookup_insert_eq. rewrite Hlen. Z.to_euclidean_division_equations. lia.
Qed.

Lemma cons_append c com ed x :
  cons_rep c com ed -> (length com + length ed < 128)%nat -> u8 x <> 10 -> cons_rep (cons_put x c) com (ed ++ [u8 x]).
Proof.
  intros H Hlt Hx. destruct (cons_put_data c com ed x H Hlt) as (H1 & H2 & H3). destruct H as [Hlen Hr Hw He Hroom Hline Hd].
  split; try done; [rewrite length_app; cbn; lia|set_solver].
Qed.

Lemma cons_commit c com ed x :
  cons_rep c com ed -> (length com + length ed < 128)%nat ->
  cons_rep (set_w (c_e (cons_put x c)) (cons_put x c)) (com ++ ed ++ [u8 x]) [].
Proof.
  intros H Hlt. destruct (cons_put_data c com ed x H Hlt) as (H1 & H2 & H3). destruct H as [Hlen Hr Hw He Hroom Hline Hd].
  rewrite length_app in H2. cbn [length] in H2.
  split; cbn [set_w c_buf c_r c_w c_e]; rewrite ?app_nil_r, ?length_app; cbn [length]; try done.
  - by rewrite H2, Nat.add_0_r.
  - lia.
  - set_solver.
Qed.

Lemma cons_full c com ed x :
  cons_rep c com ed -> (length com + length ed < 128)%nat ->
  (c_e (cons_put x c) =? u32 (c_r (cons_put x c) + INPUT_BUF)) = bool_decide (length com + length ed = 127)%nat.
Proof.
  intros H Hlt. destruct (cons_put_data c com ed x H Hlt) as (_ & -> & _). destruct H as [_ Hr _ _ _ _ _].
  rewrite length_app. cbn [length cons_put c_r]. unfold INPUT_BUF.
  apply eq_bool_prop_intro. rewrite Is_true_true, Z.eqb_eq, bool_decide_spec. unfold u32.
  split; intros E; Z.to_euclidean_division_equations; lia.
Qed.

(** [^U] erases the whole line that is being edited. *)
Lemma kill_line_ok fuel s com ed :
  cons_rep (d_cons s) com ed -> (length ed < fuel)%nat -> panicked s = false ->
  exists s', kill_line fuel s = Ret tt s' /\ cons_rep (d_cons s') com [] /\ d_pm s' = d_pm s /\ d_woken s' = d_woken s /\
    thr (d_uart s') = thr (d_uart s) ++ flat_map (fun _ => [8; 32; 8]) ed.
Proof.
  revert fuel s. induction ed as [|x ed IH] using rev_ind; intros fuel s H Hf Hp; (destruct fuel as [|fuel]; [lia|]); cbn [kill_line]; mstep.
  - rewrite (cons_edit_empty _ _ _ H). cbn. exists s. by rewrite app_nil_r.
  - destruct (cons_erase _ _ _ _ H) as [H' Hx].
    rewrite (cons_edit_empty _ _ _ H), bool_decide_false by by destruct ed. rewrite Hx.
    assert (Hx10 : x <> 10) by (intros ->; apply (cr_line _ _ _ H); set_solver).
    rewrite (proj2 (Z.eqb_neq x 10)) by done. cbn [negb andb]. mstep.
    match goal with |- context [mbind_ (consputc BACKSPACE) _ ?t] => set (s1 := t) end.
    destruct (consputc_ok BACKSPACE s1 Hp) as (s2 & E2 & [Hs Ht Hw]). rewrite (bind_ret _ _ _ _ _ E2).
    destruct (IH fuel s2) as (s3 & E3 & H3 & Hpm & Hw3 & Ht3).
    + by rewrite (sd_cons _ _ Hs).
    + rewrite length_app in Hf. cbn in Hf. lia.
    + by rewrite (sd_panicked _ _ Hs).
    + exists s3. split_and!; try done; [by rewrite Hpm, (sd_pm _ _ Hs)|by rewrite Hw3, Hw|].
      rewrite Ht3, Ht. change (thr (d_uart s1)) with (thr (d_uart s)). change (echo BACKSPACE) with [8; 32; 8].
      rewrite <- app_assoc. f_equal. clear. induction ed as [|y ed IHe]; [done|]. cbn. by rewrite <- IHe.
Qed.

(** ** Printing changes nothing but the output *)

Definition talks {A} (m : M dev A) : Prop :=
  forall s, panicked s = false -> exists a s' cs, m s = Ret a s' /\ echoed cs s s'.

Lemma talks_ret {A} (a : A) : talks (mret_ a).
Proof. intros s _. exists a, s, []. split; [done|]. split; [done|by rewrite app_nil_r|done]. Qed.

Lemma talks_bind {A B} (m : M dev A) (f : A -> M dev B) : talks m -> (forall a, talks (f a)) -> talks (mbind_ m f).
Proof.
  intros Hm Hf s Hp. destruct (Hm s Hp) as (a & s1 & c1 & E1 & H1). rewrite (bind_ret _ _ _ _ _ E1).
  destruct (Hf a s1) as (b & s2 & c2 & E2 & H2); [by rewrite (sd_panicked _ _ (ec_same _ _ _ H1))|].
  exists b, s2, (c1 ++ c2). split; [done|]. by eapply echoed_app.
Qed.

Lemma talks_consputc c : talks (consputc c).
Proof. intros s Hp. destruct (consputc_ok c s Hp) as (s' & E & H). by exists tt, s', (echo c). Qed.

Lemma talks_consputs cs : talks (consputs cs).
Proof. induction cs as [|c cs IH]; [apply talks_ret|]. apply talks_bind; [apply talks_consputc|done]. Qed.

Lemma talks_printptr n x : talks (printptr_loop n x).
Proof. revert x. induction n as [|n IH]; intros x; [apply talks_ret|]. apply talks_bind; [apply talks_consputc|done]. Qed.

Create HintDb talks.
#[local] Hint Resolve talks_ret talks_bind talks_consputc talks_consputs talks_printptr : talks.

Lemma talks_convert c ap : talks (convert c ap).
Proof. unfold convert, printint, printptr. repeat case_match; auto 10 with talks. Qed.

Lemma talks_printf_loop n fmt ap : (length fmt <= n)%nat -> talks (printf_loop fmt ap).
Proof.
  revert fmt ap. induction n as [|n IH]; intros [|c fmt] ap Hn; cbn [length] in Hn; try lia; try apply talks_ret.
  cbn [printf_loop]. destruct (negb _); [apply talks_bind; [apply talks_consputc|intros _; apply IH; lia]|].
  destruct fmt as [|c' fmt]; [apply talks_ret|]. apply talks_bind; [apply talks_convert|]. intros ap'. apply IH. cbn in Hn. lia.
Qed.

Lemma kprintf_ok fmt ap s :
  panicked s = false -> LPr ∉ dlocks s -> exists s' cs, kprintf fmt ap s = Ret tt s' /\ echoed cs s s'.
Proof.
  intros Hp Hl. unfold kprintf. mstep. destruct (locking s).
  - rewrite (bind_ret _ _ _ _ _ (acquire_ok LPr s Hl)).
    match goal with |- context [mbind_ (printf_loop _ _) _ ?t] => set (s1 := t) end.
    destruct (talks_printf_loop _ fmt ap (le_n _) s1 Hp) as ([] & s2 & cs & E & [Hs Ht Hw]). rewrite (bind_ret _ _ _ _ _ E).
    assert (Hd : dlocks s2 = {[LPr]} ∪ dlocks s) by (unfold dlocks, lget; cbn; by rewrite (sd_pm _ _ Hs)).
    rewrite (release_ok LPr s2) by (change (LPr ∈ dlocks s2); rewrite Hd; set_solver).
    change (lget s2) with (dlocks s2). rewrite Hd, lockset_add_del by done. eexists _, cs. split; [reflexivity|].
    destruct Hs as [? ? ? ? Hpm ? ? ?]. split; [|done|done]. split; try done. cbn. cbn in Hpm. rewrite Hpm. cbn.
    unfold dlocks. cbn. by destruct (d_pm s).
  - mstep. destruct (talks_printf_loop _ fmt ap (le_n _) s Hp) as ([] & s2 & cs & E & H). rewrite (bind_ret _ _ _ _ _ E).
    by exists s2, cs.
Qed.

Lemma dlocks_echoed cs s s' : echoed cs s s' -> dlocks s' = dlocks s.
Proof. intros [H _ _]. unfold dlocks, lget. cbn. by rewrite (sd_pm _ _ H). Qed.

Lemma procdump_loop_ok l s :
  panicked s = false -> LPr ∉ dlocks s -> exists s' cs, procdump_loop l s = Ret tt s' /\ echoed cs s s'.
Proof.
  revert s. induction l as [|p l IH]; intros s Hp Hl.
  { exists s, []. split; [done|]. split; [done|by rewrite app_nil_r|done]. }
  cbn [procdump_loop]. destruct (bool_decide (p_state p = UNUSED)); [mstep; by apply IH|].
  set (ap := [_; _; _]). destruct (kprintf_ok (chars "%d %s %s") ap s Hp Hl) as (s1 & c1 & E1 & H1).
  destruct (kprintf_ok [10] [] s1) as (s2 & c2 & E2 & H2);
    [by rewrite (sd_panicked _ _ (ec_same _ _ _ H1))|by rewrite (dlocks_echoed _ _ _ H1)|].
  assert (E : (kprintf (chars "%d %s %s") ap ;; kprintf [10] []) s = Ret tt s2) by by rewrite (bind_ret _ _ _ _ _ E1).
  rewrite (bind_ret _ _ _ _ _ E).
  destruct (IH s2) as (s3 & c3 & E3 & H3).
  - by rewrite (sd_panicked _ _ (ec_same _ _ _ H2)), (sd_panicked _ _ (ec_same _ _ _ H1)).
  - by rewrite (dlocks_echoed _ _ _ H2), (dlocks_echoed _ _ _ H1).
  - exists s3, ((c1 ++ c2) ++ c3). split; [done|]. eapply echoed_app; [|done]. by eapply echoed_app.
Qed.

Lemma procdump_ok s : panicked s = false -> LPr ∉ dlocks s -> exists s' cs, procdump s = Ret tt s' /\ echoed cs s s'.
Proof.
  intros Hp Hl. unfold procdump. destruct (kprintf_ok [10] [] s Hp Hl) as (s1 & c1 & E1 & H1). rewrite (bind_ret _ _ _ _ _ E1). mstep.
  destruct (procdump_loop_ok (d_procs s1) s1) as (s2 & c2 & E2 & H2);
    [by rewrite (sd_panicked _ _ (ec_same _ _ _ H1))|by rewrite (dlocks_echoed _ _ _ H1)|].
  exists s2, (c1 ++ c2). split; [done|]. by eapply echoed_app.
Qed.

(** The effect of [consoleintr] between taking and releasing the lock: the new
    contents, the output, and whether readers were woken. *)
Definition edits (c : Z) (com ed : list Z) (s s' : dev) : Prop :=
  cons_rep (d_cons s') (ldisc c (com, ed)).1 (ldisc c (com, ed)).2 /\ d_pm s' = d_pm s /\
  (c <> ctrl_P -> thr (d_uart s') = thr (d_uart s) ++ echoes c (com, ed)) /\
  ((ldisc c (com, ed)).1 <> com -> d_woken s' = ChanCons :: d_woken s).

Lemma ordinary_char c : c <> ctrl_P -> c <> ctrl_U -> c <> ctrl_H -> c <> 127 ->
  (c =? ctrl_P) = false /\ (c =? ctrl_U) = false /\ ((c =? ctrl_H) || (c =? 127)) = false.
Proof. intros. rewrite !(proj2 (Z.eqb_neq _ _)) by done. done. Qed.

(** An ordinary character: echoed, stored, and perhaps the end of a line. *)
Lemma store_char_ok s com ed c :
  cons_rep (d_cons s) com ed -> panicked s = false -> 0 <= c < 256 ->
  c <> ctrl_P -> c <> ctrl_U -> c <> ctrl_H -> c <> 127 ->
  exists s', store_char c s = Ret tt s' /\ edits c com ed s s'.
Proof.
  intros H Hp Hc H1 H2 H3 H4. unfold store_char. mstep. rewrite (cons_count _ _ _ H). unfold edits, ldisc, echoes.
  destruct (ordinary_char c H1 H2 H3 H4) as (-> & -> & ->).
  replace (Z.of_nat (length com + length ed) <? INPUT_BUF) with (bool_decide (length com + length ed < 128)%nat)
    by (apply eq_bool_prop_intro; rewrite bool_decide_spec, Is_true_true, Z.ltb_lt; unfold INPUT_BUF; lia).
  destruct (negb (c =? 0) && _) eqn:Hb; [|exists s; split; [done|]; split_and!; try done; by rewrite app_nil_r].
  apply andb_true_iff in Hb as [_ Hlt%bool_decide_eq_true].
  set (c' := if c =? 13 then 10 else c). assert (Hc' : u8 c' = c') by (unfold c'; destruct (c =? 13); rewrite u8_small; lia).
  cbv zeta. destruct (consputc_ok c' s Hp) as (s1 & E1 & [Hs Ht Hw]). rewrite (bind_ret _ _ _ _ _ E1). do 2 mstep.
  assert (Hec : echo c' = [c']).
  { unfold echo. rewrite (proj2 (Z.eqb_neq _ _)), Hc' by (unfold BACKSPACE, c'; destruct (c =? 13); lia). done. }
  rewrite Hec in Ht. pose proof H as H'. rewrite <- (sd_cons _ _ Hs) in H'.
  change (d_cons (lput _ s1)) with (cons_put c' (d_cons s1)). rewrite (cons_full _ _ _ _ H' Hlt).
  destruct ((c' =? 10) || (c' =? ctrl_D) || _) eqn:He; cbn [fst snd].
  - mstep. eexists. split; [reflexivity|]. split_and!.
    + pose proof (cons_commit _ _ _ c' H' Hlt) as Hx. by rewrite Hc' in Hx.
    + apply (sd_pm _ _ Hs).
    + intros _. exact Ht.
    + intros _. cbn. by rewrite Hw.
  - eexists. split; [reflexivity|]. split_and!; [|apply (sd_pm _ _ Hs)|intros _; exact Ht|done].
    apply orb_false_iff in He as [[He _]%orb_false_iff _].
    pose proof (cons_append _ _ _ c' H' Hlt) as Hx. rewrite Hc' in Hx. apply Hx. lia.
Qed.

Lemma handle_char_ok s com ed c :
  cons_rep (d_cons s) com ed -> panicked s = false -> 0 <= c < 256 -> LPr ∉ dlocks s ->
  exists s', handle_char c s = Ret tt s' /\ edits c com ed s s'.
Proof.
  intros H Hp Hc Hlp. unfold handle_char.
  destruct (Z.eqb_spec c ctrl_P) as [->|H1].
  { destruct (procdump_ok s Hp Hlp) as (s' & cs & E & [Hs _ _]). exists s'. split; [done|]. unfold edits. cbn.
    rewrite (sd_cons _ _ Hs), (sd_pm _ _ Hs). done. }
  destruct (Z.eqb_spec c ctrl_U) as [->|H2].
  { destruct (kill_line_ok (S (Z.to_nat INPUT_BUF)) s com ed H) as (s' & E & H' & Hpm & Hw & Ht); [|done|].
    - pose proof (cr_room _ _ _ H). change (Z.to_nat INPUT_BUF) with 128%nat. lia.
    - exists s'. split; [done|]. done. }
  destruct ((c =? ctrl_H) || (c =? 127)) eqn:Hb.
  2: { apply orb_false_iff in Hb as [H3 H4]. apply store_char_ok; try done; lia. }
  mstep. rewrite (cons_edit_empty _ _ _ H). unfold edits, ldisc, echoes.
  rewrite (proj2 (Z.eqb_neq _ _) H1), (proj2 (Z.eqb_neq _ _) H2), Hb. cbn [fst snd].
  destruct ed as [|x ed _] using rev_ind.
  { cbn. exists s. split; [done|]. split_and!; try done. by rewrite app_nil_r. }
  rewrite bool_decide_false by by destruct ed. cbn [negb]. mstep.
  match goal with |- context [consputc BACKSPACE ?t] => set (s1 := t) end.
  destruct (consputc_ok BACKSPACE s1 Hp) as (s2 & E & [Hs Ht Hw]). exists s2. split; [done|].
  rewrite length_app, Nat.add_sub, take_app_length, drop_app_length. split_and!; try done.
  - rewrite (sd_cons _ _ Hs). by apply (cons_erase _ _ _ x).
  - apply (sd_pm _ _ Hs).
Qed.

(** C16: console input is edited a line at a time: the handler of every character
    that arrives does to the ring buffer what the line discipline says (append,
    erase a character, kill the line, end the line), echoes it, wakes up readers
    when characters become readable, and gives back the lock; the characters
    already readable are never changed. *)
Theorem consoleintr_edits s com ed c :
  cons_rep (d_cons s) com ed -> panicked s = false -> 0 <= c < 256 -> LCons ∉ dlocks s -> LPr ∉ dlocks s ->
  exists s', consoleintr c s = Ret tt s' /\ edits c com ed s s' /\ com `prefix_of` (ldisc c (com, ed)).1.
Proof.
  intros H Hp Hc Hl Hlp. unfold consoleintr. rewrite (bind_ret _ _ _ _ _ (acquire_ok LCons s Hl)).
  match goal with |- context [mbind_ _ _ ?t] => set (s1 := t) end.
  destruct (handle_char_ok s1 com ed c H Hp Hc) as (s2 & E & He & Hpm & Ht & Hw); [change (LPr ∉ {[LCons]} ∪ dlocks s); set_solver|].
  rewrite (bind_ret _ _ _ _ _ E).
  assert (Hd : dlocks s2 = {[LCons]} ∪ dlocks s) by (unfold dlocks, lget; cbn; by rewrite Hpm).
  rewrite (release_ok LCons s2) by (change (LCons ∈ dlocks s2); rewrite Hd; set_solver).
  change (lget s2) with (dlocks s2). rewrite Hd, lockset_add_del by done. eexists. split; [reflexivity|].
  split; [|].
  - split_and!; try done. cbn. rewrite Hpm. cbn. unfold dlocks. cbn. by destruct (d_pm s).
  - unfold ldisc. repeat case_match; cbn [fst]; (done || by apply prefix_app_r).
Qed.

(** ** Examples *)

Module ConsoleDemo.
#[local] Existing Instance Demo.demo_layout.
#[local] Existing Instance Demo.demo_layout_ok.
#[local] Instance wakeups : Wakeups := 1%nat.

Definition uart_with (q : list Z) (w : Z) : uart :=
  {| thr := []; idle := [false]; rx := []; regs := []; tx_buf := q ++ replicate (32 - length q) 0; tx_w := w; tx_r := 0 |}.
Definition demo_cons (ed : list Z) : cons :=
  {| c_buf := ed ++ replicate (128 - length ed) 0; c_r := 0; c_w := 0; c_e := Z.of_nat (length ed) |}.
Definition dev_of (u : uart) (cs : cons) (pm : pmem) (pt : Z) : dev :=
  {| d_uart := u; d_cons := cs; panicked := false; locking := true; d_procs := []; d_pm := pm;
     d_pagetable := pt; d_killed := false; d_woken := [] |}.
Definition dev_with (u : uart) (cs : cons) : dev := dev_of u cs boot_pmem 0.

Definition full : list Z := replicate 31 120.

Lemma tx_demo_rep q : Forall (fun x => u8 x = x) q -> (length q < 32)%nat -> tx_rep (uart_with q (Z.of_nat (length q))) q.
Proof.
  intros Hb Hq. split; cbn [uart_with tx_buf tx_r tx_w]; rewrite ?Z.add_0_l; try done.
  - rewrite length_app, length_replicate. lia.
  - by rewrite Z.mod_small by lia.
  - intros i x Hi. pose proof (lookup_lt_Some _ _ _ Hi). rewrite Z.add_0_l, Z.mod_small, Nat2Z.id, lookup_app_l by lia. done.
Defined.

(** With the transmitter busy, a second character waits behind the first. *)
Lemma uartputc_fifo_witness :
  exists s' q', uartputc 98 (dev_with (uart_with [97] 1) (demo_cons [])) = Ret tt s' /\ tx_rep (d_uart s') q' /\ thr (d_uart s') ++ q' = [97; 98].
Proof.
  destruct (uartputc_fifo 98 (dev_with (uart_with [97] 1) (demo_cons [])) [97]) as (s' & q' & E & H1 & H2 & _);
    [apply tx_demo_rep; [by repeat constructor|cbn; lia]|cbn; lia|by apply (bool_decide_unpack _)|done|].
  exists s', q'. done.
Defined.

(** A write of a byte of user memory, and one of kernel memory. *)
Lemma consolewrite_full_panics_witness :
  exists pm, consolewrite true 10 1 (dev_of (uart_with full 31) (demo_cons []) pm (Demo.page 1)) = Panic "sched locks" /\
    consolewrite false 0 1 (dev_of (uart_with full 31) (demo_cons []) pm (Demo.page 1)) = Panic "sched locks".
Proof.
  destruct Demo.demo_space as (pm & t & l & pte & R & _ & _ & _ & _ & _ & _ & Hh & Hu). exists pm.
  assert (Hq : tx_rep (uart_with full 31) full) by (apply tx_demo_rep; [by repeat constructor|cbn; lia]).
  split; apply (consolewrite_full_panics _ full); try done.
  intros _. split; [done|]. exists t, {[ 0 := pte ]}, l. split; [exact R|]. unfold ubyte, utrans. change (PGROUNDDOWN 10) with 0.
  by rewrite (proj2 (Z.eqb_neq _ _) Hu).
Defined.

(** "hi" is being edited; the end of the line makes it readable. *)
Lemma consoleintr_edits_witness :
  exists s', consoleintr 10 (dev_with (uart_with [] 0) (demo_cons [104; 105])) = Ret tt s' /\
    cons_rep (d_cons s') [104; 105; 10] [] /\ d_woken s' = [ChanCons].
Proof.
  destruct (consoleintr_edits (dev_with (uart_with [] 0) (demo_cons [104; 105])) [] [104; 105] 10) as (s' & E & (H1 & _ & _ & H2) & _).
  - split; [done|done|done|done|cbn; lia|by apply (bool_decide_unpack _)|]. intros i x Hi. destruct i as [|[|i]]; cbn in Hi; simplify_eq; done.
  - done.
  - lia.
  - by apply (bool_decide_unpack _).
  - by apply (bool_decide_unpack _).
  - exists s'. split; [exact E|]. split; [exact H1|]. apply H2. discriminate.
Defined.
End ConsoleDemo.
