(* ===== verification/Sleeplock.v ===== *)
(** kernel/sleeplock.c: long-term locks held across sleeps.

    The routines work on whatever state holds the lock: a buffer's or an
    inode's.  The spin lock inside the sleep lock and its sleep channel are
    given by name. *)

From S2P Require Import Prelude Sync.

(** [struct sleeplock] without its spin lock and name. *)
Record sleeplock := SleepLock { slk_locked : Z; slk_pid : Z }.

Definition initsleeplock_val : sleeplock := {| slk_locked := 0; slk_pid := 0 |}.

Section Sleeplock.
Context {S : Type} `{HL : Lens S lockset} `{HW : Lens S (list chan)} {WK : Wakeups}.
Context (get : S -> sleeplock) (put : sleeplock -> S -> S) (lk : lock_id) (c : chan) (mypid : S -> Z).

Definition initsleeplock : M S unit := initlock lk ;; modify (put initsleeplock_val).

(** [while (lk->locked) sleep(lk, &lk->lk)] *)
Fixpoint acquiresleep_wait (n : nat) : M S unit :=
  match n with
  | O => nofuel
  | Datatypes.S n' =>
      let! l := gets get in
      if negb (slk_locked l =? 0) then sleep c lk ;; acquiresleep_wait n' else mret_ tt
  end.
Definition acquiresleep : M S unit :=
  acquire lk ;;
  acquiresleep_wait (Datatypes.S max_wakeups) ;;
  let! pid := gets mypid in
  modify (put {| slk_locked := 1; slk_pid := pid |}) ;;
  release lk.

Definition releasesleep : M S unit :=
  acquire lk ;;
  modify (put {| slk_locked := 0; slk_pid := 0 |}) ;;
  wakeup c ;;
  release lk.

Definition holdingsleep : M S bool :=
  acquire lk ;;
  let! l := gets get in
  let! pid := gets mypid in
  let r := negb (slk_locked l =? 0) && (slk_pid l =? pid) in
  release lk ;;
  mret_ r.

(** The lock field is independent of the lock set and the wakeup record, and
    the pid of all three. *)
Context (get_put : forall x s, get (put x s) = x).
Context (put_held : forall x s, lget (put x s) = (lget s : lockset)).
Context (put_swap : forall x h s, put x (lput (h : lockset) s) = lput h (put x s)).
Context (get_held : forall h s, get (lput (h : lockset) s) = get s).
Context (pid_held : forall h s, mypid (lput (h : lockset) s) = mypid s).
Context (pid_put : forall x s, mypid (put x s) = mypid s).
Context (woken_held : forall w s, lget (lput (w : list chan) s) = (lget s : lockset)).
Context (woken_swap : forall w h s, lput (w : list chan) (lput (h : lockset) s) = lput h (lput w s)).

Lemma held_restore h (s : S) : lget s = h -> lk ∉ h -> lput (({[lk]} ∪ h) ∖ {[lk]}) s = s.
Proof. intros <- Hn. rewrite lockset_add_del by done. apply lput_lget. Qed.

(** A free lock is taken at once. *)
Lemma acquiresleep_free s :
  slk_locked (get s) = 0 -> lk ∉ (lget s : lockset) ->
  acquiresleep s = Ret tt (put {| slk_locked := 1; slk_pid := mypid s |} s).
Proof.
  intros Hf Hh. unfold acquiresleep. erewrite bind_ret by (by apply acquire_ok).
  assert (Hw : forall t, slk_locked (get t) = 0 -> acquiresleep_wait (Datatypes.S max_wakeups) t = Ret tt t).
  { intros t Ht. cbn [acquiresleep_wait]. mstep. by rewrite Ht. }
  erewrite bind_ret by (apply Hw; by rewrite get_held). do 2 mstep. rewrite pid_held.
  rewrite release_ok.
  - rewrite put_held, lget_lput, put_swap, lput_lput, held_restore; [done|by rewrite put_held|done].
  - rewrite put_held, lget_lput. apply lockset_in_add.
Qed.

Lemma holdingsleep_ok s :
  lk ∉ (lget s : lockset) ->
  holdingsleep s = Ret (negb (slk_locked (get s) =? 0) && (slk_pid (get s) =? mypid s)) s.
Proof.
  intros Hh. unfold holdingsleep. erewrite bind_ret by (by apply acquire_ok). do 2 mstep.
  erewrite bind_ret by (apply release_ok; rewrite lget_lput; apply lockset_in_add).
  rewrite lget_lput, lput_lput, held_restore, get_held, pid_held by done. done.
Qed.

Lemma releasesleep_ok s :
  lk ∉ (lget s : lockset) ->
  releasesleep s =
  Ret tt (lput (c :: lget (put {| slk_locked := 0; slk_pid := 0 |} (lput ({[lk]} ∪ lget s) s)) : list chan)
            (put {| slk_locked := 0; slk_pid := 0 |} s)).
Proof.
  intros Hh. unfold releasesleep. erewrite bind_ret by (by apply acquire_ok). do 2 mstep.
  rewrite release_ok.
  - rewrite woken_held, put_held, lget_lput. rewrite put_swap, woken_swap, lput_lput.
    rewrite held_restore; [done|by rewrite woken_held, put_held|done].
  - rewrite woken_held, put_held, lget_lput. apply lockset_in_add.
Qed.
End Sleeplock.
