(* ===== verification/Bio.v ===== *)
(** kernel/bio.c: the buffer cache.

    The buffers are a list of [NBUF] records followed by the list head; [prev]
    and [next] are indices into it.  A disk transfer is one step on an array of
    blocks: this is what kernel/bio.c relies on from [virtio_disk_rw].  The
    ghost list [dhist] records the blocks written, the latest first. *)

From S2P Require Import Prelude Riscv Sync Sleeplock.

Definition BSIZE : Z := 1024.

Abbreviation block := (list Z).

(** [struct buf] of kernel/buf.h. *)
Record buf := Buf {
  b_valid : Z; b_dev : Z; b_blockno : Z; b_lock : sleeplock; b_refcnt : Z;
  b_prev : nat; b_next : nat; b_data : block }.

Record bstate := BState {
  bufs : list buf;            (* bcache.buf[0..NBUF-1] and bcache.head *)
  disk : gmap Z block;
  dhist : list (Z * block);   (* ghost *)
  b_pid : Z;                  (* myproc()->pid *)
  b_held : lockset;
  b_woken : list chan }.

#[global] Instance bstate_held : Lens bstate lockset.
Proof.
  refine {| lget := b_held; lput := fun h s => {| bufs := bufs s; disk := disk s; dhist := dhist s;
    b_pid := b_pid s; b_held := h; b_woken := b_woken s |} |}; lens_laws bstate.
Defined.
#[global] Instance bstate_woken : Lens bstate (list chan).
Proof.
  refine {| lget := b_woken; lput := fun w s => {| bufs := bufs s; disk := disk s; dhist := dhist s;
    b_pid := b_pid s; b_held := b_held s; b_woken := w |} |}; lens_laws bstate.
Defined.

Definition set_bufs (x : list buf) (s : bstate) : bstate :=
  {| bufs := x; disk := disk s; dhist := dhist s; b_pid := b_pid s; b_held := b_held s; b_woken := b_woken s |}.

Definition no_buf : buf :=
  {| b_valid := 0; b_dev := 0; b_blockno := 0; b_lock := initsleeplock_val; b_refcnt := 0;
     b_prev := 0; b_next := 0; b_data := [] |}.
#[global] Instance buf_inhabited : Inhabited buf := populate no_buf.

(** [&bcache.head] *)
Definition head : nat := Z.to_nat NBUF.

Definition getb (i : nat) : M bstate buf := gets (fun s => bufs s !!! i).
Definition updb (i : nat) (f : buf -> buf) : M bstate unit :=
  modify (fun s => set_bufs (alter f i (bufs s)) s).

(** Field updates. *)
Definition set_valid (x : Z) (b : buf) : buf :=
  {| b_valid := x; b_dev := b_dev b; b_blockno := b_blockno b; b_lock := b_lock b;
     b_refcnt := b_refcnt b; b_prev := b_prev b; b_next := b_next b; b_data := b_data b |}.
Definition set_refcnt (x : Z) (b : buf) : buf :=
  {| b_valid := b_valid b; b_dev := b_dev b; b_blockno := b_blockno b; b_lock := b_lock b;
     b_refcnt := x; b_prev := b_prev b; b_next := b_next b; b_data := b_data b |}.
Definition set_lock (x : sleeplock) (b : buf) : buf :=
  {| b_valid := b_valid b; b_dev := b_dev b; b_blockno := b_blockno b; b_lock := x;
     b_refcnt := b_refcnt b; b_prev := b_prev b; b_next := b_next b; b_data := b_data b |}.
Definition set_prev (x : nat) (b : buf) : buf :=
  {| b_valid := b_valid b; b_dev := b_dev b; b_blockno := b_blockno b; b_lock := b_lock b;
     b_refcnt := b_refcnt b; b_prev := x; b_next := b_next b; b_data := b_data b |}.
Definition set_next (x : nat) (b : buf) : buf :=
  {| b_valid := b_valid b; b_dev := b_dev b; b_blockno := b_blockno b; b_lock := b_lock b;
     b_refcnt := b_refcnt b; b_prev := b_prev b; b_next := x; b_data := b_data b |}.
Definition set_data (x : block) (b : buf) : buf :=
  {| b_valid := b_valid b; b_dev := b_dev b; b_blockno := b_blockno b; b_lock := b_lock b;
     b_refcnt := b_refcnt b; b_prev := b_prev b; b_next := b_next b; b_data := x |}.
(** [b->dev = dev; b->blockno = blockno; b->valid = 0; b->refcnt = 1] *)
Definition recycle (dev blockno : Z) (b : buf) : buf :=
  {| b_valid := 0; b_dev := dev; b_blockno := blockno; b_lock := b_lock b;
     b_refcnt := 1; b_prev := b_prev b; b_next := b_next b; b_data := b_data b |}.

Section Bio.
Context {WK : Wakeups}.

(** The sleep lock of buffer [i]. *)
Definition buf_lock (i : nat) (s : bstate) : sleeplock := b_lock (bufs s !!! i).
Definition put_buf_lock (i : nat) (x : sleeplock) (s : bstate) : bstate :=
  set_bufs (alter (set_lock x) i (bufs s)) s.
Definition b_acquiresleep (i : nat) : M bstate unit :=
  acquiresleep (buf_lock i) (put_buf_lock i) (LBuf i) (ChanBufLock i) b_pid.
Definition b_releasesleep (i : nat) : M bstate unit :=
  releasesleep (put_buf_lock i) (LBuf i) (ChanBufLock i).
Definition b_holdingsleep (i : nat) : M bstate bool :=
  holdingsleep (buf_lock i) (LBuf i) b_pid.

(** The disk, as kernel/bio.c sees it. *)
Definition disk_block (d : gmap Z block) (blockno : Z) : block :=
  default (replicate (Z.to_nat BSIZE) 0) (d !! blockno).
Definition disk_rw (i : nat) (write : bool) : M bstate unit :=
  let! b := getb i in
  if write
  then modify (fun s => {| bufs := bufs s; disk := <[b_blockno b := b_data b]> (disk s);
         dhist := (b_blockno b, b_data b) :: dhist s; b_pid := b_pid s; b_held := b_held s; b_woken := b_woken s |})
  else let! d := gets (fun s => disk_block (disk s) (b_blockno b)) in updb i (set_data d).

(** [b] becomes the first of the list. *)
Definition link_front (i : nat) : M bstate unit :=
  let! h := getb head in
  updb i (set_next (b_next h)) ;;
  updb i (set_prev head) ;;
  updb (b_next h) (set_prev i) ;;
  updb head (set_next i).

(** [for(b = bcache.buf; b < bcache.buf+NBUF; b++)] of [binit]. *)
Fixpoint binit_loop (n : nat) (i : nat) : M bstate unit :=
  match n with
  | O => mret_ tt
  | S n' =>
      let! h := getb head in
      updb i (set_next (b_next h)) ;;
      updb i (set_prev head) ;;
      initsleeplock (put_buf_lock i) (LBuf i) ;;
      let! h := getb head in
      updb (b_next h) (set_prev i) ;;
      updb head (set_next i) ;;
      binit_loop n' (S i)
  end.
Definition binit : M bstate unit :=
  initlock LBcache ;;
  updb head (set_prev head) ;;
  updb head (set_next head) ;;
  binit_loop (Z.to_nat NBUF) 0.

(** The two searches of [bget], over [next] and over [prev]. *)
Fixpoint find_cached (fuel : nat) (s : bstate) (b : nat) (dev blockno : Z) : option nat :=
  match fuel with
  | O => None
  | S fuel' =>
      if bool_decide (b = head) then None
      else
        let x := bufs s !!! b in
        if (b_dev x =? dev) && (b_blockno x =? blockno) then Some b
        else find_cached fuel' s (b_next x) dev blockno
  end.
Fixpoint find_unused (fuel : nat) (s : bstate) (b : nat) : option nat :=
  match fuel with
  | O => None
  | S fuel' =>
      if bool_decide (b = head) then None
      else
        let x := bufs s !!! b in
        if b_refcnt x =? 0 then Some b else find_unused fuel' s (b_prev x)
  end.

Definition bget (dev blockno : Z) : M bstate nat :=
  acquire LBcache ;;
  let! cached := gets (fun s => find_cached (S head) s (b_next (bufs s !!! head)) dev blockno) in
  match cached with
  | Some b =>
      updb b (fun x => set_refcnt (u32 (b_refcnt x + 1)) x) ;;
      release LBcache ;;
      b_acquiresleep b ;;
      mret_ b
  | None =>
      let! unused := gets (fun s => find_unused (S head) s (b_prev (bufs s !!! head))) in
      match unused with
      | Some b =>
          updb b (recycle dev blockno) ;;
          release LBcache ;;
          b_acquiresleep b ;;
          mret_ b
      | None => panic "bget: no buffers"
      end
  end.

Definition bread (dev blockno : Z) : M bstate nat :=
  let! b := bget dev blockno in
  let! x := getb b in
  (if b_valid x =? 0 then disk_rw b false ;; updb b (set_valid 1) else mret_ tt) ;;
  mret_ b.

Definition bwrite (b : nat) : M bstate unit :=
  let! h := b_holdingsleep b in
  if negb h then panic "bwrite" else disk_rw b true.

Definition brelse (b : nat) : M bstate unit :=
  let! h := b_holdingsleep b in
  if negb h then panic "brelse"
  else
    b_releasesleep b ;;
    acquire LBcache ;;
    updb b (fun x => set_refcnt (u32 (b_refcnt x - 1)) x) ;;
    let! x := getb b in
    (if b_refcnt x =? 0 then
       updb (b_next x) (set_prev (b_prev x)) ;;
       updb (b_prev x) (set_next (b_next x)) ;;
       link_front b
     else mret_ tt) ;;
    release LBcache.

Definition bpin (b : nat) : M bstate unit :=
  acquire LBcache ;;
  updb b (fun x => set_refcnt (u32 (b_refcnt x + 1)) x) ;;
  release LBcache.

Definition bunpin (b : nat) : M bstate unit :=
  acquire LBcache ;;
  updb b (fun x => set_refcnt (u32 (b_refcnt x - 1)) x) ;;
  release LBcache.
End Bio.
