(* ===== verification/BioSpec.v ===== *)
(** The buffer cache as a coherent view of the disk: its invariant and what
    each function of kernel/bio.c does to it. *)

From S2P Require Import Prelude Riscv Sync Sleeplock Bio.

(** ** Doubly linked lists *)

(** From [a] through the nodes [l] to [z], along [nx] and back along [pv]. *)
Fixpoint lseg (nx pv : nat -> nat) (a : nat) (l : list nat) (z : nat) : Prop :=
  match l with
  | [] => nx a = z /\ pv z = a
  | b :: l' => nx a = b /\ pv b = a /\ lseg nx pv b l' z
  end.

Lemma lseg_app nx pv a l1 b l2 z :
  lseg nx pv a (l1 ++ b :: l2) z <-> lseg nx pv a l1 b /\ lseg nx pv b l2 z.
Proof.
  revert a. induction l1 as [|c l1 IH]; intros a; cbn [lseg app].
  - tauto.
  - rewrite IH. tauto.
Qed.

Lemma lseg_ext nx pv nx' pv' a l z :
  lseg nx pv a l z -> (forall b, b ∈ a :: l -> nx' b = nx b) -> (forall b, b ∈ l ++ [z] -> pv' b = pv b) ->
  lseg nx' pv' a l z.
Proof.
  revert a. induction l as [|b l IH]; intros a; cbn [lseg app].
  - intros [H1 H2] Hn Hp. split; [rewrite Hn by set_solver; done|]. rewrite Hp by set_solver. done.
  - intros (H1 & H2 & H3) Hn Hp. split; [rewrite Hn by set_solver; done|].
    split; [rewrite Hp by set_solver; done|]. apply IH; [done| |]; intros c Hc.
    + apply Hn. set_solver.
    + apply Hp. set_solver.
Qed.

(** The list read backwards. *)
Lemma lseg_rev nx pv a l z : lseg nx pv a l z -> lseg pv nx z (reverse l) a.
Proof.
  revert a. induction l as [|b l IH]; intros a; cbn [lseg]; [by intros [? ?]|]. intros (H1 & H2 & H3).
  rewrite reverse_cons. apply lseg_app. split; [by apply IH|done].
Qed.

(** ** The cache *)

Definition matches (dev blockno : Z) (x : buf) : bool := (b_dev x =? dev) && (b_blockno x =? blockno).
Definition nx (s : bstate) (i : nat) : nat := b_next (bufs s !!! i).
Definition pv (s : bstate) (i : nat) : nat := b_prev (bufs s !!! i).

(** [l] lists the buffers from the most to the least recently released. *)
Record binv (s : bstate) (l : list nat) : Prop := {
  bi_len : length (bufs s) = S head;
  bi_list : lseg (nx s) (pv s) head l head;
  bi_perm : l ≡ₚ seq 0 head;
  bi_dev : forall i, (i < head)%nat -> let x := bufs s !!! i in
    b_dev x = 0 /\ b_valid x = 0 \/ b_dev x = ROOTDEV;
  bi_uniq : forall i j, (i < head)%nat -> (j < head)%nat ->
    b_dev (bufs s !!! i) = ROOTDEV -> b_dev (bufs s !!! j) = ROOTDEV ->
    b_blockno (bufs s !!! i) = b_blockno (bufs s !!! j) -> i = j;
  bi_ref : forall i, (i < head)%nat -> 0 <= b_refcnt (bufs s !!! i) < 2 ^ 32;
  bi_lock : forall i, (i < head)%nat -> slk_locked (buf_lock i s) <> 0 -> b_refcnt (bufs s !!! i) <> 0;
  bi_clean : forall i, (i < head)%nat -> let x := bufs s !!! i in
    b_valid x <> 0 -> b_refcnt x = 0 -> b_data x = disk_block (disk s) (b_blockno x);
  bi_held : b_held s = ∅;
}.

(** The buffer that caches a block. *)
Definition is_cached (s : bstate) (blockno : Z) (i : nat) : Prop :=
  (i < head)%nat /\ matches ROOTDEV blockno (bufs s !!! i) = true.

(** What a reader of [blockno] sees: the valid buffer for it, or the disk. *)
Definition view (s : bstate) (blockno : Z) : block :=
  match list_find (fun i => matches ROOTDEV blockno (bufs s !!! i) = true) (seq 0 head) with
  | Some (_, i) => if b_valid (bufs s !!! i) =? 0 then disk_block (disk s) blockno else b_data (bufs s !!! i)
  | None => disk_block (disk s) blockno
  end.

Lemma matches_spec dev blockno x :
  matches dev blockno x = true <-> b_dev x = dev /\ b_blockno x = blockno.
Proof. unfold matches. rewrite andb_true_iff, !Z.eqb_eq. done. Qed.

Lemma is_cached_inj s l b i j : binv s l -> is_cached s b i -> is_cached s b j -> i = j.
Proof.
  intros I [Hi Mi] [Hj Mj]. apply matches_spec in Mi as [Di Bi], Mj as [Dj Bj].
  eapply bi_uniq; eauto. congruence.
Qed.

Lemma view_cached s l b i :
  binv s l -> is_cached s b i ->
  view s b = if b_valid (bufs s !!! i) =? 0 then disk_block (disk s) b else b_data (bufs s !!! i).
Proof.
  intros I Hc. unfold view. destruct (list_find _ _) as [[k j]|] eqn:E.
  - apply list_find_Some in E as (Hk & Hm & _). apply lookup_seq in Hk as [-> Hk].
    assert (0 + k = i)%nat as -> by (eapply is_cached_inj; [done| |done]; split; [lia|done]). done.
  - apply list_find_None in E. rewrite Forall_forall in E. destruct Hc as [Hi Hm].
    exfalso. apply (E i); [apply elem_of_seq; lia|done].
Qed.

Lemma view_uncached s b : (forall i, ~ is_cached s b i) -> view s b = disk_block (disk s) b.
Proof.
  intros Hn. unfold view. destruct (list_find _ _) as [[k j]|] eqn:E; [|done].
  apply list_find_Some in E as (Hk & Hm & _). apply lookup_seq in Hk as [-> Hk].
  exfalso. apply (Hn (0 + k)%nat). split; [lia|done].
Qed.

Lemma cached_dec s b : (exists i, is_cached s b i) \/ (forall i, ~ is_cached s b i).
Proof.
  destruct (list_find (fun i => matches ROOTDEV b (bufs s !!! i) = true) (seq 0 head)) as [[k j]|] eqn:E.
  - apply list_find_Some in E as (Hk & Hm & _). apply lookup_seq in Hk as [-> Hk].
    left. exists (0 + k)%nat. split; [lia|done].
  - right. apply list_find_None in E. rewrite Forall_forall in E. intros i [Hi Hm].
    apply (E i); [apply elem_of_seq; lia|done].
Qed.

Lemma in_list s l i : binv s l -> i ∈ l <-> (i < head)%nat.
Proof. intros I. rewrite (bi_perm _ _ I), elem_of_seq. lia. Qed.

Lemma nodup_list s l : binv s l -> NoDup (head :: l).
Proof.
  intros I. constructor.
  - rewrite (in_list _ _ _ I). lia.
  - rewrite (bi_perm _ _ I). apply NoDup_seq.
Qed.

Lemma length_list s l : binv s l -> length l = head.
Proof. intros I. by rewrite (bi_perm _ _ I), length_seq. Qed.

(** ** The searches of [bget] *)

(** Walking along [next] visits the buffers in list order. *)
Lemma find_cached_list fuel s a l dev b :
  lseg (nx s) (pv s) a l head -> head ∉ l -> (length l < fuel)%nat ->
  find_cached fuel s (nx s a) dev b = List.find (fun i => matches dev b (bufs s !!! i)) l.
Proof.
  revert a fuel. induction l as [|c l IH]; intros a [|fuel] Hl Hh Hf; cbn [length] in Hf; try lia;
    cbn [find_cached lseg List.find] in *.
  - destruct Hl as [-> _]. by rewrite bool_decide_true.
  - destruct Hl as (-> & _ & Hl). rewrite bool_decide_false by set_solver.
    change ((b_dev (bufs s !!! c) =? dev) && (b_blockno (bufs s !!! c) =? b)) with (matches dev b (bufs s !!! c)).
    destruct (matches dev b (bufs s !!! c)); [done|]. apply IH; [done|set_solver|lia].
Qed.

Lemma find_unused_list fuel s a l :
  lseg (pv s) (nx s) a l head -> head ∉ l -> (length l < fuel)%nat ->
  find_unused fuel s (pv s a) = List.find (fun i => b_refcnt (bufs s !!! i) =? 0) l.
Proof.
  revert a fuel. induction l as [|c l IH]; intros a [|fuel] Hl Hh Hf; cbn [length] in Hf; try lia;
    cbn [find_unused lseg List.find] in *.
  - destruct Hl as [-> _]. by rewrite bool_decide_true.
  - destruct Hl as (-> & _ & Hl). rewrite bool_decide_false by set_solver.
    destruct (b_refcnt (bufs s !!! c) =? 0); [done|]. apply IH; [done|set_solver|lia].
Qed.

Lemma find_cached_ok s l b :
  binv s l ->
  match find_cached (S head) s (b_next (bufs s !!! head)) ROOTDEV b with
  | Some i => is_cached s b i
  | None => forall i, ~ is_cached s b i
  end.
Proof.
  intros I. change (b_next (bufs s !!! head)) with (nx s head).
  pose proof (nodup_list _ _ I) as Hn. apply NoDup_cons in Hn as [Hn _].
  rewrite (find_cached_list _ s head l ROOTDEV b (bi_list _ _ I) Hn) by (rewrite (length_list _ _ I); lia).
  destruct (List.find _ l) as [i|] eqn:E.
  - apply find_some in E as [Hi Hm]. split; [|done]. apply (in_list _ _ _ I). by apply list_elem_of_In.
  - intros i [Hi Hm]. pose proof (find_none _ _ E i) as Hf. cbn in Hf. rewrite Hf in Hm; [done|].
    apply list_elem_of_In. by apply (in_list _ _ _ I).
Qed.

(** The buffer to recycle is the least recently released one in no use. *)
Lemma find_unused_ok s l :
  binv s l ->
  find_unused (S head) s (b_prev (bufs s !!! head)) =
  List.find (fun i => b_refcnt (bufs s !!! i) =? 0) (reverse l).
Proof.
  intros I. change (b_prev (bufs s !!! head)) with (pv s head).
  pose proof (nodup_list _ _ I) as Hn. apply NoDup_cons in Hn as [Hn _].
  apply find_unused_list; [apply lseg_rev, I|by rewrite elem_of_reverse|].
  rewrite length_reverse, (length_list _ _ I). lia.
Qed.

(** ** Changing one buffer *)

Definition upd (i : nat) (x : buf) (s : bstate) : bstate := set_bufs (<[i := x]> (bufs s)) s.

Lemma alter_insert (f : buf -> buf) i (l : list buf) :
  (i < length l)%nat -> alter f i l = <[i := f (l !!! i)]> l.
Proof.
  intros Hi. apply list_eq. intros j. destruct (decide (i = j)) as [<-|Hne].
  - rewrite list_lookup_alter_eq, list_lookup_insert_eq by done.
    by rewrite (list_lookup_lookup_total_lt l i Hi).
  - by rewrite list_lookup_alter_ne, list_lookup_insert_ne by done.
Qed.

Lemma updb_ok i f s : (i < length (bufs s))%nat -> updb i f s = Ret tt (upd i (f (bufs s !!! i)) s).
Proof. intros Hi. unfold updb, modify, upd. by rewrite alter_insert. Qed.

Lemma upd_eq i x s : (i < length (bufs s))%nat -> bufs (upd i x s) !!! i = x.
Proof. intros. cbn. by rewrite list_lookup_total_insert_eq. Qed.

Lemma upd_ne i j x s : i <> j -> bufs (upd i x s) !!! j = bufs s !!! j.
Proof. intros. cbn. by rewrite list_lookup_total_insert_ne. Qed.

Lemma upd_len i x s : length (bufs (upd i x s)) = length (bufs s).
Proof. cbn. apply length_insert. Qed.

Lemma upd_upd i x y s : upd i x (upd i y s) = upd i x s.
Proof. unfold upd, set_bufs. cbn. by rewrite list_insert_insert_eq. Qed.

Lemma upd_swap i x h s : upd i x (lput (h : lockset) s) = lput h (upd i x s).
Proof. reflexivity. Qed.

(** The sleep-lock routines on a buffer. *)
Section BufLock.
Context {WK : Wakeups} (i : nat) (s : bstate) (Hi : (i < length (bufs s))%nat).

Lemma put_buf_lock_upd x : put_buf_lock i x s = upd i (set_lock x (bufs s !!! i)) s.
Proof. unfold put_buf_lock, upd. by rewrite alter_insert. Qed.

Lemma b_acquiresleep_ok :
  slk_locked (buf_lock i s) = 0 -> LBuf i ∉ b_held s ->
  b_acquiresleep i s = Ret tt (upd i (set_lock {| slk_locked := 1; slk_pid := b_pid s |} (bufs s !!! i)) s).
Proof.
  intros Hl Hh. unfold b_acquiresleep. rewrite <- put_buf_lock_upd.
  by rewrite (acquiresleep_free (buf_lock i) (put_buf_lock i) (LBuf i) (ChanBufLock i) b_pid) by done.
Qed.

Lemma b_holdingsleep_ok :
  LBuf i ∉ b_held s ->
  b_holdingsleep i s =
  Ret (negb (slk_locked (buf_lock i s) =? 0) && (slk_pid (buf_lock i s) =? b_pid s)) s.
Proof. intros Hh. unfold b_holdingsleep. by rewrite (holdingsleep_ok (buf_lock i) (LBuf i) b_pid) by done. Qed.

Lemma b_releasesleep_ok :
  LBuf i ∉ b_held s ->
  b_releasesleep i s =
  Ret tt (upd i (set_lock initsleeplock_val (bufs s !!! i)) (lput (ChanBufLock i :: b_woken s) s)).
Proof.
  intros Hh. unfold b_releasesleep.
  rewrite (releasesleep_ok (put_buf_lock i) (LBuf i) (ChanBufLock i)) by done.
  f_equal. unfold upd. rewrite <- (alter_insert (set_lock initsleeplock_val)) by done. reflexivity.
Qed.
End BufLock.

(** An update that keeps the list links and the invariant's conditions. *)
Lemma binv_upd s l i x :
  binv s l -> (i < head)%nat -> let y := bufs s !!! i in
  b_prev x = b_prev y -> b_next x = b_next y ->
  (b_dev x = 0 /\ b_valid x = 0 \/ b_dev x = ROOTDEV) ->
  (b_dev x = ROOTDEV -> forall j, is_cached s (b_blockno x) j -> j = i) ->
  0 <= b_refcnt x < 2 ^ 32 -> (slk_locked (b_lock x) <> 0 -> b_refcnt x <> 0) ->
  (b_valid x <> 0 -> b_refcnt x = 0 -> b_data x = disk_block (disk s) (b_blockno x)) ->
  binv (upd i x s) l.
Proof.
  intros [Hlen Hlist Hperm Hdev Huniq Href Hlock Hclean Hheld] Hi y Hp Hn Hd Hu Hr Hl Hc.
  assert (Hil : (i < length (bufs s))%nat) by lia.
  assert (Hat : forall j, bufs (upd i x s) !!! j = if decide (j = i) then x else bufs s !!! j).
  { intros j. destruct (decide (j = i)) as [->|]; [by apply upd_eq|by apply upd_ne]. }
  split.
  - by rewrite upd_len.
  - eapply lseg_ext; [done| |]; intros j _; unfold nx, pv; rewrite Hat; by case_decide; subst.
  - done.
  - intros j Hj. cbv zeta. rewrite Hat. case_decide; [done|]. by apply Hdev.
  - intros j k Hj Hk. rewrite !Hat. repeat case_decide; subst; try done.
    + intros Hx Hk' He. symmetry. apply Hu; [done|]. split; [done|]. by apply matches_spec.
    + intros Hj' Hx He. apply Hu; [done|]. split; [done|]. by apply matches_spec.
    + by apply Huniq.
  - intros j Hj. rewrite Hat. case_decide; [done|]. by apply Href.
  - intros j Hj. unfold buf_lock. rewrite Hat. case_decide; [done|]. by apply Hlock.
  - intros j Hj. cbv zeta. rewrite Hat. case_decide; [done|]. by apply Hclean.
  - done.
Qed.

(** What a buffer shows for its block. *)
Definition shown (d : gmap Z block) (x : buf) : block :=
  if b_valid x =? 0 then disk_block d (b_blockno x) else b_data x.

Lemma view_shown s l b i : binv s l -> is_cached s b i -> view s b = shown (disk s) (bufs s !!! i).
Proof.
  intros I Hc. rewrite (view_cached s l b i I Hc). unfold shown.
  destruct Hc as [_ Hm]. apply matches_spec in Hm as [_ ->]. done.
Qed.

(** Views after a buffer is changed. *)
Lemma view_upd s l i x b :
  binv s l -> binv (upd i x s) l -> (i < head)%nat ->
  view (upd i x s) b =
  if matches ROOTDEV b x then shown (disk s) x
  else if matches ROOTDEV b (bufs s !!! i) then disk_block (disk s) b else view s b.
Proof.
  intros I I' Hi. assert (Hil : (i < length (bufs s))%nat) by (rewrite (bi_len _ _ I); lia).
  assert (Hc : forall j, j <> i -> is_cached (upd i x s) b j <-> is_cached s b j).
  { intros j Hj. unfold is_cached. by rewrite upd_ne. }
  destruct (matches ROOTDEV b x) eqn:Hx.
  - rewrite (view_shown _ l b i I'); [by rewrite upd_eq|]. split; [done|by rewrite upd_eq].
  - assert (Hni : ~ is_cached (upd i x s) b i) by (intros [_ Hm]; rewrite upd_eq in Hm; congruence).
    destruct (matches ROOTDEV b (bufs s !!! i)) eqn:Hy.
    + rewrite (view_uncached (upd i x s)); [done|]. intros j Hj. destruct (decide (j = i)) as [->|Hne]; [done|].
      apply Hc in Hj; [|done]. apply Hne. by apply (is_cached_inj s l b j i I Hj).
    + destruct (cached_dec s b) as [[j Hj]|Hn].
      * assert (j <> i) by (intros ->; destruct Hj as [_ Hm]; congruence).
        rewrite (view_shown _ l b j I'), (view_shown s l b j I Hj) by (by apply Hc). by rewrite upd_ne.
      * rewrite !view_uncached; [done|done|]. intros j Hj. destruct (decide (j = i)) as [->|]; [done|].
        apply (Hn j). by apply Hc.
Qed.

(** ** bget and bread *)

Lemma find_cached_bufs fuel s s' b dev blockno :
  bufs s = bufs s' -> find_cached fuel s b dev blockno = find_cached fuel s' b dev blockno.
Proof.
  intros E. revert b. induction fuel as [|fuel IH]; intros b; [done|]. cbn [find_cached]. by rewrite E, IH.
Qed.

Lemma find_unused_bufs fuel s s' b : bufs s = bufs s' -> find_unused fuel s b = find_unused fuel s' b.
Proof.
  intros E. revert b. induction fuel as [|fuel IH]; intros b; [done|]. cbn [find_unused]. by rewrite E, IH.
Qed.

(** Taking and giving back [bcache.lock] with no other lock held. *)
Definition with_bcache (s : bstate) : bstate := lput ({[LBcache]} : lockset) s.

Lemma bcache_acquire s : b_held s = ∅ -> acquire LBcache s = Ret tt (with_bcache s).
Proof.
  intros Hh. rewrite acquire_ok by (cbn; rewrite Hh; set_solver). unfold with_bcache. cbn. rewrite Hh.
  by rewrite union_empty_r_L.
Qed.

Lemma bcache_release t : b_held t = ∅ -> release LBcache (with_bcache t) = Ret tt t.
Proof.
  intros Hh. rewrite release_ok by (cbn; set_solver). destruct t. cbn in *. rewrite Hh.
  by rewrite difference_diag_L.
Qed.

Lemma upd_with_bcache i x s : upd i x (with_bcache s) = with_bcache (upd i x s).
Proof. reflexivity. Qed.

(** Updating a buffer under the lock. *)
Lemma bcache_update s b f :
  b_held s = ∅ -> (b < length (bufs s))%nat ->
  (acquire LBcache ;; updb b f ;; release LBcache) s = Ret tt (upd b (f (bufs s !!! b)) s).
Proof.
  intros Hh Hb. rewrite (bind_ret _ _ _ _ _ (bcache_acquire s Hh)).
  erewrite bind_ret by (by apply updb_ok). rewrite upd_with_bcache. by apply bcache_release.
Qed.

Section BioOps.
Context {WK : Wakeups}.

Lemma bget_hit s l b i :
  binv s l -> is_cached s b i -> slk_locked (buf_lock i s) = 0 ->
  bget ROOTDEV b s =
  Ret i (upd i (set_lock {| slk_locked := 1; slk_pid := b_pid s |}
                 (set_refcnt (u32 (b_refcnt (bufs s !!! i) + 1)) (bufs s !!! i))) s).
Proof.
  intros I Hc Hl. pose proof (bi_held _ _ I) as Hh. pose proof Hc as [Hi _].
  assert (Hil : (i < length (bufs s))%nat) by (rewrite (bi_len _ _ I); lia).
  unfold bget. rewrite (bind_ret _ _ _ _ _ (bcache_acquire s Hh)). mstep.
  pose proof (find_cached_ok s l b I) as Hf.
  rewrite (find_cached_bufs _ _ s) by done. change (bufs (with_bcache s)) with (bufs s).
  destruct (find_cached _ s _ ROOTDEV b) as [j|]; [|by exfalso; apply (Hf i)].
  rewrite (is_cached_inj s l b j i I Hf Hc) in *. erewrite bind_ret by (by apply updb_ok).
  rewrite upd_with_bcache. erewrite bind_ret by (by apply bcache_release).
  change (bufs (with_bcache s)) with (bufs s).
  erewrite bind_ret.
  2:{ apply b_acquiresleep_ok; [by rewrite upd_len| |cbn; rewrite Hh; set_solver].
      unfold buf_lock. rewrite upd_eq by done. exact Hl. }
  unfold mret_. rewrite upd_eq, upd_upd by done. done.
Qed.

Lemma bget_found s l b i :
  binv s l -> is_cached s b i -> slk_locked (buf_lock i s) = 0 -> b_refcnt (bufs s !!! i) + 1 < 2 ^ 32 ->
  bget ROOTDEV b s =
  Ret i (upd i (set_lock {| slk_locked := 1; slk_pid := b_pid s |}
                 (set_refcnt (b_refcnt (bufs s !!! i) + 1) (bufs s !!! i))) s).
Proof.
  intros I Hc Hl Hr. pose proof Hc as [Hi _]. pose proof (bi_ref _ _ I i Hi).
  rewrite (bget_hit s l b i I Hc Hl), u32_small by lia. done.
Qed.

Lemma bget_recycle s l b i :
  binv s l -> (forall j, ~ is_cached s b j) ->
  List.find (fun i => b_refcnt (bufs s !!! i) =? 0) (reverse l) = Some i ->
  bget ROOTDEV b s =
  Ret i (upd i (set_lock {| slk_locked := 1; slk_pid := b_pid s |} (recycle ROOTDEV b (bufs s !!! i))) s).
Proof.
  intros I Hc Hf. pose proof (bi_held _ _ I) as Hh. apply find_some in Hf as Hfi. destruct Hfi as [Hin Href].
  assert (Hi : (i < head)%nat) by (apply (in_list _ _ _ I), elem_of_reverse; by apply list_elem_of_In).
  assert (Hil : (i < length (bufs s))%nat) by (rewrite (bi_len _ _ I); lia).
  unfold bget. rewrite (bind_ret _ _ _ _ _ (bcache_acquire s Hh)). mstep.
  pose proof (find_cached_ok s l b I) as Hfc.
  rewrite (find_cached_bufs _ _ s) by done. change (bufs (with_bcache s)) with (bufs s).
  destruct (find_cached _ s _ ROOTDEV b) as [j|]; [by exfalso; apply (Hc j)|]. mstep.
  rewrite (find_unused_bufs _ _ s) by done. change (bufs (with_bcache s)) with (bufs s).
  rewrite (find_unused_ok s l I), Hf. erewrite bind_ret by (by apply updb_ok).
  rewrite upd_with_bcache. erewrite bind_ret by (by apply bcache_release).
  change (bufs (with_bcache s)) with (bufs s). erewrite bind_ret.
  2:{ apply b_acquiresleep_ok; [by rewrite upd_len| |cbn; rewrite Hh; set_solver].
      unfold buf_lock. rewrite upd_eq by done. cbn.
      destruct (decide (slk_locked (buf_lock i s) = 0)) as [|Hn]; [done|].
      apply Z.eqb_eq in Href. by apply (bi_lock _ _ I i Hi) in Hn. }
  unfold mret_. rewrite upd_eq, upd_upd by done. done.
Qed.

(** [bread] of block [b] will not have to wait, nor run out of buffers. *)
Definition ready (s : bstate) (b : Z) : Prop :=
  (exists i, is_cached s b i /\ slk_locked (buf_lock i s) = 0 /\ b_refcnt (bufs s !!! i) + 1 < 2 ^ 32) \/
  ((forall i, ~ is_cached s b i) /\ exists j, (j < head)%nat /\ b_refcnt (bufs s !!! j) = 0).

(** The running process has locked buffer [i], which holds block [b]. *)
Record owns (s : bstate) (i : nat) (b : Z) : Prop := {
  ow_lt : (i < head)%nat;
  ow_dev : b_dev (bufs s !!! i) = ROOTDEV;
  ow_blk : b_blockno (bufs s !!! i) = b;
  ow_valid : b_valid (bufs s !!! i) <> 0;
  ow_lock : b_lock (bufs s !!! i) = {| slk_locked := 1; slk_pid := b_pid s |};
  ow_ref : 0 < b_refcnt (bufs s !!! i);
}.

Lemma owns_cached s i b : owns s i b -> is_cached s b i.
Proof. intros []. split; [done|]. by apply matches_spec. Qed.

Lemma owns_view s l i b : binv s l -> owns s i b -> view s b = b_data (bufs s !!! i).
Proof.
  intros I O. rewrite (view_shown s l b i I (owns_cached _ _ _ O)). unfold shown.
  destruct (Z.eqb_spec (b_valid (bufs s !!! i)) 0); [|done]. by apply ow_valid in O.
Qed.

(** The read of an invalid buffer. *)
Definition filled_in (d : gmap Z block) (x : buf) : buf :=
  if b_valid x =? 0 then set_valid 1 (set_data (disk_block d (b_blockno x)) x) else x.

Lemma bread_fill s i :
  (i < length (bufs s))%nat ->
  (let! x := getb i in
   (if b_valid x =? 0 then disk_rw i false ;; updb i (set_valid 1) else mret_ tt) ;; mret_ i) s =
  Ret i (upd i (filled_in (disk s) (bufs s !!! i)) s).
Proof.
  intros Hi. mstep. unfold filled_in. destruct (b_valid (bufs s !!! i) =? 0).
  - erewrite bind_ret; [reflexivity|]. unfold disk_rw.
    erewrite bind_ret by (mstep; mstep; by apply updb_ok).
    rewrite updb_ok by (by rewrite upd_len). by rewrite upd_eq, upd_upd.
  - mstep. unfold mret_. f_equal. unfold upd. rewrite list_insert_id; [by destruct s|].
    by apply list_lookup_lookup_total_lt.
Qed.

Lemma shown_filled_in d x : shown d (filled_in d x) = shown d x.
Proof. unfold filled_in, shown. by destruct (b_valid x =? 0) eqn:E; cbn; rewrite ?E. Qed.

Lemma filled_in_facts d x :
  b_valid (filled_in d x) <> 0 /\ b_data (filled_in d x) = shown d x /\ b_dev (filled_in d x) = b_dev x /\
  b_blockno (filled_in d x) = b_blockno x /\ b_lock (filled_in d x) = b_lock x /\
  b_refcnt (filled_in d x) = b_refcnt x /\ b_prev (filled_in d x) = b_prev x /\ b_next (filled_in d x) = b_next x.
Proof. unfold filled_in, shown. by destruct (Z.eqb_spec (b_valid x) 0). Qed.

(** The buffer [bget] leaves for block [b], and what it was before. *)
Definition got (s : bstate) (b : Z) (i : nat) (y : buf) : Prop :=
  (i < head)%nat /\ b_dev y = ROOTDEV /\ b_blockno y = b /\
  b_lock y = {| slk_locked := 1; slk_pid := b_pid s |} /\
  b_prev y = b_prev (bufs s !!! i) /\ b_next y = b_next (bufs s !!! i) /\
  shown (disk s) y = view s b /\ b_refcnt y = b_refcnt (bufs s !!! i) + 1 /\ b_refcnt y < 2 ^ 32 /\
  (is_cached s b i \/ (forall j, ~ is_cached s b j) /\ b_refcnt (bufs s !!! i) = 0).

Lemma bget_ok s l b :
  binv s l -> ready s b -> exists i y, bget ROOTDEV b s = Ret i (upd i y s) /\ got s b i y.
Proof.
  intros I [(i & Hc & Hl & Hr)|[Hn (j & Hj & Hr)]].
  - exists i. eexists. split; [by eapply bget_found|]. pose proof Hc as [Hi Hm].
    apply matches_spec in Hm as [Hd Hb]. split_and!; try done; [|by left].
    by rewrite (view_shown s l b i I Hc).
  - destruct (List.find (fun i => b_refcnt (bufs s !!! i) =? 0) (reverse l)) as [i|] eqn:Hf.
    + exists i. eexists. split; [by eapply bget_recycle|]. apply find_some in Hf as [Hin Href].
      apply Z.eqb_eq in Href.
      assert (Hi : (i < head)%nat) by (apply (in_list _ _ _ I), elem_of_reverse; by apply list_elem_of_In).
      split_and!; try done; [|by cbn; rewrite Href|by right]. by rewrite view_uncached.
    + exfalso. pose proof (find_none _ _ Hf j) as Hx. cbn in Hx. rewrite Hr in Hx.
      enough (true = false) by done. apply Hx. apply list_elem_of_In, elem_of_reverse. by apply (in_list _ _ _ I).
Qed.

(** Views and invariant after a buffer is taken. *)
Lemma got_inv s l b i y :
  binv s l -> got s b i y -> b_valid y <> 0 ->
  binv (upd i y s) l /\ owns (upd i y s) i b /\ forall b', view (upd i y s) b' = view s b'.
Proof.
  intros I (Hi & Hd & Hb & Hl & Hp & Hn & Hs & Hr & Hmax & Hc) Hv.
  assert (Hil : (i < length (bufs s))%nat) by (rewrite (bi_len _ _ I); lia).
  pose proof (bi_ref _ _ I i Hi).
  assert (I' : binv (upd i y s) l).
  { apply binv_upd; try done; [by right| |lia| |].
    - rewrite Hb. intros _ j Hj. destruct Hc as [Hc|[Hc _]]; [by eapply is_cached_inj|by apply Hc in Hj].
    - rewrite Hl. cbn. lia.
    - lia. }
  split; [done|]. split.
  - split; rewrite ?upd_eq by done; try done. lia.
  - intros b'. rewrite (view_upd s l i y b' I I' Hi). unfold matches at 1. rewrite Hd, Hb. cbn [Z.eqb andb].
    destruct (Z.eqb_spec b b') as [<-|Hne]; [by rewrite Hs|]. cbn [andb].
    destruct (matches ROOTDEV b' (bufs s !!! i)) eqn:Hm; [|done].
    destruct Hc as [[_ Hm']|[_ H0]].
    + apply matches_spec in Hm as [_ ?], Hm' as [_ ?]. congruence.
    + rewrite (view_shown s l b' i I) by (by split). unfold shown. apply matches_spec in Hm as [_ Hbb].
      rewrite Hbb. destruct (Z.eqb_spec (b_valid (bufs s !!! i)) 0); [done|].
      rewrite (bi_clean _ _ I i Hi) by done. by rewrite Hbb.
Qed.

(** [bread] locks a buffer holding the current contents of the block and
    changes no block's contents. *)
Lemma bread_ok s l b :
  binv s l -> ready s b ->
  exists i x, bread ROOTDEV b s = Ret i (upd i x s) /\ binv (upd i x s) l /\ owns (upd i x s) i b /\
    b_data x = view s b /\ (forall b', view (upd i x s) b' = view s b') /\ got s b i x.
Proof.
  intros I Hr. destruct (bget_ok s l b I Hr) as (i & y & E & G). exists i, (filled_in (disk s) y).
  pose proof G as (Hi & Hd & Hb & Hl & Hp & Hn & Hs & Hrf & Hmax & Hc).
  assert (Hil : (i < length (bufs s))%nat) by (rewrite (bi_len _ _ I); lia).
  destruct (filled_in_facts (disk s) y) as (F1 & F2 & F3 & F4 & F5 & F6 & F7 & F8).
  assert (G' : got s b i (filled_in (disk s) y)).
  { unfold got. rewrite F3, F4, F5, F6, F7, F8, shown_filled_in. done. }
  destruct (got_inv s l b i _ I G' F1) as (I' & O' & V').
  split; [|split; [done|split; [done|split; [by rewrite F2|done]]]].
  unfold bread. rewrite (bind_ret _ _ _ _ _ E), bread_fill by (by rewrite upd_len).
  by rewrite upd_eq, upd_upd.
Qed.
End BioOps.
