(* ===== verification/BioList.v ===== *)
(** The list of buffers (kernel/bio.c): [brelse] moves a buffer to the front,
    [bwrite] writes through, [bpin] and [bunpin] count references. *)

From S2P Require Import Prelude Riscv Sync Sleeplock Bio BioSpec.

(** Reading a list whose links changed away from it. *)
Lemma lseg_off nx pv nx' pv' a l z p c (x y : nat) :
  lseg nx pv a l z ->
  (forall j, nx' j = if decide (j = p) then x else nx j) -> p ∉ a :: l ->
  (forall j, pv' j = if decide (j = c) then y else pv j) -> c ∉ l ++ [z] ->
  lseg nx' pv' a l z.
Proof.
  intros H Hn Hp Hv Hc. eapply lseg_ext; [done| |]; intros b Hb.
  - rewrite Hn, decide_False; [done|]. by intros ->.
  - rewrite Hv, decide_False; [done|]. by intros ->.
Qed.

(** Taking [i] out of a circular list. *)
Lemma lseg_unlink nx pv nx' pv' h l1 i l2 :
  lseg nx pv h (l1 ++ i :: l2) h -> NoDup (h :: l1 ++ i :: l2) ->
  (forall j, nx' j = if decide (j = pv i) then nx i else nx j) ->
  (forall j, pv' j = if decide (j = nx i) then pv i else pv j) ->
  lseg nx' pv' h (l1 ++ l2) h.
Proof.
  rewrite lseg_app. intros [H1 H2] Hn Hnx Hpv.
  rewrite NoDup_cons, NoDup_app, NoDup_cons in Hn. destruct Hn as (Hh & N1 & Hd & Hi2 & N2).
  destruct l1 as [|a l1' _] using rev_ind; cbn [lseg app] in H1.
  - destruct H1 as [E1 E2]. destruct l2 as [|c l2]; cbn [lseg app] in *.
    + destruct H2 as [E3 E4]. rewrite Hnx, Hpv, !decide_True by congruence. split; congruence.
    + destruct H2 as (E3 & E4 & H2). rewrite Hnx, Hpv, !decide_True by congruence.
      split; [done|]. split; [done|]. apply NoDup_cons in N2 as [Hc N2].
      eapply lseg_off; [done|exact Hnx| |exact Hpv|]; [rewrite E2; clear -Hh|rewrite E3; clear -Hc Hh]; set_solver.
  - rewrite lseg_app in H1. cbn [lseg] in H1. destruct H1 as (H1 & E1 & E2).
    apply NoDup_app in N1 as (N1 & Hd1 & _). rewrite <- app_assoc. cbn [app]. rewrite lseg_app. split.
    + eapply lseg_off; [done|exact Hnx| |exact Hpv|].
      * rewrite E2. clear -Hd1 Hh. set_solver.
      * destruct l2; cbn [lseg] in H2; [destruct H2 as [-> _]|destruct H2 as (-> & _ & _)]; clear -Hh Hd; set_solver.
    + destruct l2 as [|c l2]; cbn [lseg app] in *.
      * destruct H2 as [E3 E4]. rewrite Hnx, Hpv, !decide_True by congruence. split; congruence.
      * destruct H2 as (E3 & E4 & H2). rewrite Hnx, Hpv, !decide_True by congruence.
        split; [done|]. split; [done|]. apply NoDup_cons in N2 as [Hc N2].
        eapply lseg_off; [done|exact Hnx| |exact Hpv|]; [rewrite E2; clear -Hd|rewrite E3; clear -Hc Hh]; set_solver.
Qed.

(** Putting [i] first. *)
Lemma lseg_front nx pv nx' pv' h l i :
  lseg nx pv h l h -> NoDup (i :: h :: l) ->
  (forall j, nx' j = if decide (j = h) then i else if decide (j = i) then nx h else nx j) ->
  (forall j, pv' j = if decide (j = nx h) then i else if decide (j = i) then h else pv j) ->
  lseg nx' pv' h (i :: l) h.
Proof.
  intros H Hn Hnx Hpv. rewrite !NoDup_cons in Hn. destruct Hn as (Hi & Hh & N). cbn [lseg].
  assert (Hf : nx h <> i) by (destruct l; cbn [lseg] in H; [destruct H as [-> _]|destruct H as (-> & _)]; clear -Hi; set_solver).
  split; [by rewrite Hnx, decide_True|]. split; [rewrite Hpv, decide_False, decide_True by done; done|].
  assert (Hih : i <> h) by (clear -Hi; set_solver). destruct l as [|c l]; cbn [lseg] in *.
  - destruct H as [E1 E2]. split.
    + rewrite Hnx, decide_False, decide_True by done. done.
    + rewrite Hpv, decide_True by done. done.
  - destruct H as (E1 & E2 & H). split; [rewrite Hnx, decide_False, decide_True by done; done|].
    split; [rewrite Hpv, decide_True by done; done|]. apply NoDup_cons in N as [Hc N].
    eapply lseg_ext; [done| |]; intros b Hb.
    + rewrite Hnx, !decide_False; [done|..]; clear -Hb Hi Hh; set_solver.
    + rewrite Hpv, E1, !decide_False; [done|..]; clear -Hb Hi Hh Hc; set_solver.
Qed.

(** ** States that differ in the list links only *)

(** Everything in a buffer but its links. *)
Definition core (x : buf) := (b_valid x, b_dev x, b_blockno x, b_lock x, b_refcnt x, b_data x).

Record same_core (s t : bstate) : Prop := {
  sc_len : length (bufs t) = length (bufs s);
  sc_core : forall j, core (bufs t !!! j) = core (bufs s !!! j);
  sc_disk : disk t = disk s;
  sc_hist : dhist t = dhist s;
  sc_pid : b_pid t = b_pid s;
  sc_held : b_held t = b_held s;
  sc_woken : b_woken t = b_woken s;
}.

Lemma same_core_refl s : same_core s s.
Proof. by split. Qed.

Lemma same_core_trans s t r : same_core s t -> same_core t r -> same_core s r.
Proof. intros [] []. split; congruence || (intros; congruence). Qed.

(** One link assignment. *)
Lemma updb_links s k f :
  (k < length (bufs s))%nat -> (forall x, core (f x) = core x) ->
  exists t, updb k f s = Ret tt t /\ same_core s t /\
    forall j, bufs t !!! j = if decide (j = k) then f (bufs s !!! k) else bufs s !!! j.
Proof.
  intros Hk Hf. eexists. split; [by apply updb_ok|].
  assert (Hat : forall j, bufs (upd k (f (bufs s !!! k)) s) !!! j =
    if decide (j = k) then f (bufs s !!! k) else bufs s !!! j).
  { intros j. destruct (decide (j = k)) as [->|]; [by apply upd_eq|by apply upd_ne]. }
  split; [|done]. split; try done; [apply upd_len|]. intros j. rewrite Hat. case_decide; [subst; apply Hf|done].
Qed.

Lemma same_core_fields s t j :
  same_core s t -> let x := bufs t !!! j in let y := bufs s !!! j in
  b_valid x = b_valid y /\ b_dev x = b_dev y /\ b_blockno x = b_blockno y /\ b_lock x = b_lock y /\
  b_refcnt x = b_refcnt y /\ b_data x = b_data y.
Proof. intros H. pose proof (sc_core _ _ H j) as E. unfold core in E. by simplify_eq/=. Qed.

Lemma is_cached_core s t b i : same_core s t -> is_cached t b i <-> is_cached s b i.
Proof.
  intros H. unfold is_cached, matches. destruct (same_core_fields s t i H) as (_ & -> & -> & _). done.
Qed.

Lemma view_core s t b : same_core s t -> view t b = view s b.
Proof.
  intros H. unfold view. rewrite (sc_disk _ _ H).
  assert (E : list_find (fun i => matches ROOTDEV b (bufs t !!! i) = true) (seq 0 head) =
              list_find (fun i => matches ROOTDEV b (bufs s !!! i) = true) (seq 0 head)).
  { apply list_find_ext. intros i. unfold matches.
    destruct (same_core_fields s t i H) as (_ & -> & -> & _). done. }
  rewrite E. clear E. match goal with |- context [list_find ?P ?l] => destruct (list_find P l) as [[k i]|] end; [|done].
  destruct (same_core_fields s t i H) as (-> & _ & _ & _ & _ & ->). done.
Qed.

Lemma binv_relink s t l l' :
  binv s l -> same_core s t -> lseg (nx t) (pv t) head l' head -> l' ≡ₚ l -> binv t l'.
Proof.
  intros [Hlen Hlist Hperm Hdev Huniq Href Hlock Hclean Hheld] H Hl Hp.
  pose proof (fun j => same_core_fields s t j H) as F. cbv zeta in F. split; try done.
  - by rewrite (sc_len _ _ H).
  - by rewrite Hp.
  - intros i Hi. cbv zeta. destruct (F i) as (-> & -> & _). by apply Hdev.
  - intros i j Hi Hj. destruct (F i) as (_ & -> & -> & _), (F j) as (_ & -> & -> & _). by apply Huniq.
  - intros i Hi. destruct (F i) as (_ & _ & _ & _ & -> & _). by apply Href.
  - intros i Hi. unfold buf_lock. destruct (F i) as (_ & _ & _ & -> & -> & _). by apply Hlock.
  - intros i Hi. cbv zeta. destruct (F i) as (-> & _ & -> & _ & -> & ->). rewrite (sc_disk _ _ H). by apply Hclean.
  - by rewrite (sc_held _ _ H).
Qed.

(** ** Moving a buffer to the front *)

Lemma lseg_next_in nx pv a l z b : lseg nx pv a l z -> b ∈ a :: l -> nx b ∈ l ++ [z].
Proof.
  revert a. induction l as [|c l IH]; intros a; cbn [lseg app].
  - intros [H _] ->%list_elem_of_singleton. rewrite H. by left.
  - intros (H1 & _ & H2) [->|Hb]%elem_of_cons; [rewrite H1; by left|]. right. by eapply IH.
Qed.

Lemma lseg_prev_in nx pv a l z b : lseg nx pv a l z -> b ∈ l ++ [z] -> pv b ∈ a :: l.
Proof.
  intros H Hb. apply lseg_rev in H. rewrite <- elem_of_reverse, reverse_snoc in Hb.
  apply (lseg_next_in _ _ _ _ _ _ H) in Hb. rewrite <- elem_of_reverse, reverse_snoc, reverse_involutive in Hb.
  done.
Qed.

Lemma unlink_ok s i l1 l2 :
  length (bufs s) = S head -> lseg (nx s) (pv s) head (l1 ++ i :: l2) head ->
  NoDup (head :: l1 ++ i :: l2) -> (forall j, j ∈ l1 ++ i :: l2 -> (j < head)%nat) ->
  exists t, (updb (nx s i) (set_prev (pv s i)) ;; updb (pv s i) (set_next (nx s i))) s = Ret tt t /\
    same_core s t /\ lseg (nx t) (pv t) head (l1 ++ l2) head.
Proof.
  intros Hlen Hl Hn Hlt.
  assert (Hb : forall j, j ∈ (l1 ++ i :: l2) ++ [head] -> (j < length (bufs s))%nat).
  { intros j [Hj| ->%list_elem_of_singleton]%elem_of_app; [apply Hlt in Hj|]; lia. }
  assert (Hnx : (nx s i < length (bufs s))%nat) by (apply Hb; eapply lseg_next_in; [done|]; set_solver).
  assert (Hpv : (pv s i < length (bufs s))%nat).
  { apply Hb. assert (Hin : pv s i ∈ head :: l1 ++ i :: l2) by (eapply lseg_prev_in; [done|]; set_solver).
    apply elem_of_cons in Hin. apply elem_of_app. rewrite list_elem_of_singleton. tauto. }
  destruct (updb_links s (nx s i) (set_prev (pv s i)) Hnx) as (s1 & E1 & C1 & A1); [done|].
  destruct (updb_links s1 (pv s i) (set_next (nx s i))) as (s2 & E2 & C2 & A2);
    [by rewrite (sc_len _ _ C1)|done|].
  exists s2. rewrite (bind_ret _ _ _ _ _ E1). split; [done|]. split; [by eapply same_core_trans|].
  eapply lseg_unlink; [exact Hl|exact Hn| |]; intros j.
  - unfold nx at 1. rewrite A2, !A1. unfold nx. repeat case_decide; subst; done.
  - unfold pv at 1. rewrite A2, !A1. unfold pv. repeat case_decide; subst; done.
Qed.

Lemma link_front_ok s i l :
  length (bufs s) = S head -> lseg (nx s) (pv s) head l head -> NoDup (i :: head :: l) ->
  (i < head)%nat -> (forall j, j ∈ l -> (j < head)%nat) ->
  exists t, link_front i s = Ret tt t /\ same_core s t /\ lseg (nx t) (pv t) head (i :: l) head.
Proof.
  intros Hlen Hl Hn Hi Hlt. unfold link_front. mstep. fold (nx s head).
  assert (Hf : (nx s head < length (bufs s))%nat).
  { assert (Hin : nx s head ∈ l ++ [head]) by (eapply lseg_next_in; [done|]; by left).
    apply elem_of_app in Hin as [Hin| ->%list_elem_of_singleton]; [apply Hlt in Hin|]; lia. }
  assert (Hfi : nx s head <> i).
  { intros E. apply NoDup_cons in Hn as [Hn _]. apply Hn. rewrite <- E.
    assert (Hin : nx s head ∈ l ++ [head]) by (eapply lseg_next_in; [done|]; by left). set_solver. }
  destruct (updb_links s i (set_next (nx s head))) as (s1 & E1 & C1 & A1); [lia|done|].
  destruct (updb_links s1 i (set_prev head)) as (s2 & E2 & C2 & A2); [rewrite (sc_len _ _ C1); lia|done|].
  pose proof (same_core_trans _ _ _ C1 C2) as C12.
  destruct (updb_links s2 (nx s head) (set_prev i)) as (s3 & E3 & C3 & A3); [rewrite (sc_len _ _ C12); lia|done|].
  pose proof (same_core_trans _ _ _ C12 C3) as C13.
  destruct (updb_links s3 head (set_next i)) as (s4 & E4 & C4 & A4); [rewrite (sc_len _ _ C13); lia|done|].
  exists s4. rewrite (bind_ret _ _ _ _ _ E1), (bind_ret _ _ _ _ _ E2), (bind_ret _ _ _ _ _ E3).
  split; [done|]. split; [by eapply same_core_trans|]. assert (Hih : i <> head) by lia.
  eapply lseg_front; [exact Hl|exact Hn| |]; intros j.
  - unfold nx at 1. rewrite A4, !A3, !A2, !A1. unfold nx. repeat case_decide; subst; done.
  - unfold pv at 1. rewrite A4, !A3, !A2, !A1. unfold pv. repeat case_decide; subst; done.
Qed.

Section BioList.
Context {WK : Wakeups}.

(** ** brelse *)

(** A buffer as [brelse] leaves it, links aside. *)
Definition released (x : buf) : buf := set_refcnt (b_refcnt x - 1) (set_lock initsleeplock_val x).

(** The state once the lock is released and the reference dropped. *)
Lemma released_inv s l i b :
  binv s l -> owns s i b ->
  (b_refcnt (bufs s !!! i) = 1 -> b_data (bufs s !!! i) = disk_block (disk s) b) ->
  let t := upd i (released (bufs s !!! i)) s in binv t l /\ forall b', view t b' = view s b'.
Proof.
  intros I O Hclean t. pose proof O as [Hi Hd Hb Hv Hl Hr]. pose proof (bi_ref _ _ I i Hi).
  assert (I' : binv t l).
  { apply binv_upd; try done; cbn.
    - by right.
    - rewrite Hb. intros _ j Hj. eapply is_cached_inj; [done|done|by apply owns_cached].
    - lia.
    - intros _ H0. rewrite Hb. apply Hclean. lia. }
  split; [done|]. intros b'. unfold t. rewrite (view_upd s l i _ b' I I' Hi).
  change (matches ROOTDEV b' (released (bufs s !!! i))) with (matches ROOTDEV b' (bufs s !!! i)).
  destruct (matches ROOTDEV b' (bufs s !!! i)) eqn:Hm; [|done].
  rewrite (view_shown s l b' i I) by (by split). done.
Qed.

(** Releasing the sleep lock only records a wakeup besides. *)
Definition woke (c : chan) (s : bstate) : bstate := lput (c :: b_woken s) s.

Lemma binv_woke c s l : binv s l -> binv (woke c s) l.
Proof. intros []. by split. Qed.

(** The lock is free, and the reference count went down modulo [2 ^ 32]. *)
Definition dropped (x : buf) : buf := set_refcnt (u32 (b_refcnt x - 1)) (set_lock initsleeplock_val x).

Lemma brelse_start s i (k : M bstate unit) :
  (i < length (bufs s))%nat -> b_held s = ∅ -> b_lock (bufs s !!! i) = {| slk_locked := 1; slk_pid := b_pid s |} ->
  (let! h := b_holdingsleep i in
   if negb h then panic "brelse"
   else b_releasesleep i ;; acquire LBcache ;; updb i (fun x => set_refcnt (u32 (b_refcnt x - 1)) x) ;; k) s =
  k (with_bcache (upd i (dropped (bufs s !!! i)) (woke (ChanBufLock i) s))).
Proof.
  intros Hil Hh Hl.
  rewrite (bind_ret _ _ _ _ _ (b_holdingsleep_ok i s ltac:(rewrite Hh; set_solver))).
  unfold buf_lock. rewrite Hl. cbn [slk_locked slk_pid Z.eqb negb andb]. rewrite Z.eqb_refl. cbn [negb].
  rewrite (bind_ret _ _ _ _ _ (b_releasesleep_ok i s Hil ltac:(rewrite Hh; set_solver))).
  erewrite bind_ret by (apply bcache_acquire; exact Hh).
  erewrite bind_ret by (apply updb_ok; cbn; rewrite length_insert; done).
  rewrite upd_with_bcache, upd_upd. do 2 f_equal.
  change (bufs (with_bcache ?s)) with (bufs s). by rewrite upd_eq.
Qed.

Lemma dropped_released s l i b : binv s l -> owns s i b -> dropped (bufs s !!! i) = released (bufs s !!! i).
Proof.
  intros I O. destruct O as [Hi _ _ _ _ Hr]. pose proof (bi_ref _ _ I i Hi).
  unfold dropped, released. by rewrite u32_small by lia.
Qed.

Lemma brelse_ok s l i b :
  binv s l -> owns s i b ->
  (b_refcnt (bufs s !!! i) = 1 -> b_data (bufs s !!! i) = disk_block (disk s) b) ->
  exists t l', brelse i s = Ret tt t /\ binv t l' /\
    same_core (upd i (released (bufs s !!! i)) (woke (ChanBufLock i) s)) t /\
    (forall b', view t b' = view s b') /\
    (if b_refcnt (bufs s !!! i) =? 1
     then exists l1 l2, l = l1 ++ i :: l2 /\ l' = i :: l1 ++ l2 else l' = l).
Proof.
  intros I O Hclean. pose proof (released_inv s l i b I O Hclean) as [I1 V1].
  set (s1 := upd i (released (bufs s !!! i)) (woke (ChanBufLock i) s)).
  assert (I2 : binv s1 l) by (by apply (binv_woke (ChanBufLock i)) in I1).
  assert (V2 : forall b', view s1 b' = view s b') by (intros; apply V1).
  assert (Hil : (i < length (bufs s))%nat) by (rewrite (bi_len _ _ I); destruct O; lia).
  unfold brelse. rewrite brelse_start, (dropped_released s l i b) by (done || apply I || apply O). fold s1. mstep.
  assert (Hx : bufs (with_bcache s1) !!! i = released (bufs s !!! i)) by (by apply (upd_eq i)).
  rewrite Hx. change (b_refcnt (released (bufs s !!! i))) with (b_refcnt (bufs s !!! i) - 1).
  replace (b_refcnt (bufs s !!! i) - 1 =? 0) with (b_refcnt (bufs s !!! i) =? 1) by lia.
  destruct (Z.eqb_spec (b_refcnt (bufs s !!! i)) 1) as [Hr|Hr].
  - assert (Hin : i ∈ l) by (apply (in_list _ _ _ I); apply O). apply list_elem_of_split in Hin as (l1 & l2 & ->).
    assert (Hn : NoDup (head :: l1 ++ i :: l2)) by (by eapply nodup_list).
    assert (Hlt : forall j, j ∈ l1 ++ i :: l2 -> (j < head)%nat) by (intros j; apply (in_list _ _ _ I)).
    destruct (unlink_ok (with_bcache s1) i l1 l2) as (t1 & E1 & C1 & L1); [apply I2|apply I2|done|done|].
    unfold nx, pv in E1. rewrite Hx in E1.
    destruct (link_front_ok t1 i (l1 ++ l2)) as (t2 & E2 & C2 & L2);
      [rewrite (sc_len _ _ C1); apply I2|done| |apply Hlt; set_solver|intros j Hj; apply Hlt; set_solver|].
    { clear -Hn. assert (Hp : i :: head :: l1 ++ l2 ≡ₚ head :: l1 ++ i :: l2).
      { rewrite <- Permutation_middle. constructor 3. } by rewrite Hp. }
    pose proof (same_core_trans _ _ _ C1 C2) as C12.
    assert (Et : t2 = with_bcache (lput (∅ : lockset) t2)).
    { destruct t2. pose proof (sc_held _ _ C12) as Hh. cbn in Hh. subst. reflexivity. }
    set (t3 := lput (∅ : lockset) t2) in *.
    assert (C3 : same_core s1 t3).
    { destruct C12. split; try done. symmetry. apply I2. }
    exists t3, (i :: l1 ++ l2). rewrite (bind_ret _ _ _ tt t2).
    2:{ rewrite (seq_ret _ _ _ _ _ _ E1). exact E2. }
    rewrite Et. split; [by apply bcache_release|].
    split; [eapply binv_relink; [exact I2|exact C3|exact L2|by rewrite Permutation_middle]|].
    split; [done|]. split; [|by exists l1, l2]. intros b'. by rewrite (view_core _ _ _ C3), V2.
  - exists s1, l. mstep. split; [apply bcache_release; apply I2|].
    split; [done|]. split; [apply same_core_refl|done].
Qed.

(** ** bwrite *)

Definition written (i : nat) (s : bstate) : bstate :=
  let x := bufs s !!! i in
  {| bufs := bufs s; disk := <[b_blockno x := b_data x]> (disk s);
     dhist := (b_blockno x, b_data x) :: dhist s; b_pid := b_pid s; b_held := b_held s; b_woken := b_woken s |}.

Lemma disk_block_insert d b x b' :
  disk_block (<[b := x]> d) b' = if decide (b' = b) then x else disk_block d b'.
Proof.
  unfold disk_block. destruct (decide (b' = b)) as [->|]; [by rewrite lookup_insert_eq|].
  by rewrite lookup_insert_ne.
Qed.

(** [bwrite] puts the buffer on disk; what readers see does not change. *)
Lemma bwrite_ok s l i b :
  binv s l -> owns s i b ->
  bwrite i s = Ret tt (written i s) /\ binv (written i s) l /\ owns (written i s) i b /\
  (forall b', view (written i s) b' = view s b') /\ disk_block (disk (written i s)) b = b_data (bufs s !!! i).
Proof.
  intros I O. pose proof O as [Hi Hd Hb Hv Hl Hr]. pose proof (bi_held _ _ I) as Hh.
  assert (Hd' : forall b', disk_block (disk (written i s)) b' =
    if decide (b' = b) then b_data (bufs s !!! i) else disk_block (disk s) b').
  { intros b'. cbn. by rewrite disk_block_insert, Hb. }
  assert (I' : binv (written i s) l).
  { destruct I as [? ? ? Hdev Huniq ? ? Hclean ?]. split; try done. intros j Hj. cbv zeta. intros Hvj Hrj.
    change (bufs (written i s)) with (bufs s). rewrite Hd'. case_decide as Hc; [|by apply Hclean].
    exfalso. destruct (Hdev j Hj) as [[_ ?]|Hdj]; [done|].
    assert (j = i) by (apply Huniq; congruence). subst j. cbn in Hrj. lia. }
  split; [|split; [done|split; [by split|split; [|by rewrite Hd', decide_True]]]].
  - unfold bwrite. rewrite (bind_ret _ _ _ _ _ (b_holdingsleep_ok i s ltac:(rewrite Hh; set_solver))).
    unfold buf_lock. rewrite Hl. cbn [slk_locked slk_pid Z.eqb negb andb]. rewrite Z.eqb_refl. done.
  - intros b'. destruct (cached_dec s b') as [[j Hj]|Hn].
    + rewrite (view_shown s l b' j I Hj), (view_shown (written i s) l b' j I' Hj). unfold shown.
      change (bufs (written i s)) with (bufs s). rewrite Hd'. case_decide as Hc; [|done].
      destruct Hj as [Hjl Hm]. apply matches_spec in Hm as [Hdj Hbj].
      assert (j = i) by (eapply (bi_uniq _ _ I); congruence). subst j.
      destruct (Z.eqb_spec (b_valid (bufs s !!! i)) 0); done.
    + rewrite !view_uncached by done. rewrite Hd'. case_decide as Hc; [|done]. subst b'.
      exfalso. apply (Hn i). by apply owns_cached.
Qed.

(** ** Reference counts and contents *)

(** The owner of a buffer changes its reference count or its contents. *)
Lemma owner_edit s l i b x :
  binv s l -> owns s i b -> let y := bufs s !!! i in
  b_dev x = b_dev y -> b_blockno x = b_blockno y -> b_valid x <> 0 -> b_lock x = b_lock y ->
  b_prev x = b_prev y -> b_next x = b_next y -> 0 < b_refcnt x < 2 ^ 32 ->
  binv (upd i x s) l /\ owns (upd i x s) i b /\
  forall b', view (upd i x s) b' = if decide (b' = b) then b_data x else view s b'.
Proof.
  intros I O y E1 E2 E3 E4 E5 E6 Hr. pose proof O as [Hi Hd Hb Hv Hl Hr0].
  assert (Hil : (i < length (bufs s))%nat) by (rewrite (bi_len _ _ I); lia).
  assert (I' : binv (upd i x s) l).
  { apply binv_upd; try done; [|rewrite E2| | |]; try lia.
    - right. rewrite E1. exact Hd.
    - intros _ j Hj. fold y in Hb. rewrite Hb in Hj. eapply is_cached_inj; [done|done|by apply owns_cached]. }
  split; [done|]. split.
  - split; rewrite ?upd_eq by done; try done; [by rewrite E1|by rewrite E2|by rewrite E4|lia].
  - intros b'. rewrite (view_upd s l i x b' I I' Hi). unfold matches. fold y in Hd, Hb |- *.
    rewrite E1, E2, Hd, Hb. cbn [Z.eqb andb]. unfold shown.
    destruct (Z.eqb_spec b b') as [<-|Hne].
    + rewrite decide_True by done. change (ROOTDEV =? ROOTDEV) with true. cbn [andb].
      by destruct (Z.eqb_spec (b_valid x) 0).
    + rewrite decide_False by congruence. by rewrite andb_false_r.
Qed.

Lemma bpin_ok s l i b :
  binv s l -> owns s i b -> b_refcnt (bufs s !!! i) + 1 < 2 ^ 32 ->
  let t := upd i (set_refcnt (b_refcnt (bufs s !!! i) + 1) (bufs s !!! i)) s in
  bpin i s = Ret tt t /\ binv t l /\ owns t i b /\ forall b', view t b' = view s b'.
Proof.
  intros I O Hmax t. pose proof O as [Hi Hd Hb Hv Hl Hr].
  assert (Hil : (i < length (bufs s))%nat) by (rewrite (bi_len _ _ I); lia).
  destruct (owner_edit s l i b (set_refcnt (b_refcnt (bufs s !!! i) + 1) (bufs s !!! i)) I O) as (I' & O' & V');
    try done; [cbn; lia|]. split; [|split; [done|split; [done|]]].
  - unfold bpin. rewrite bcache_update by (done || apply I). rewrite u32_small by lia. done.
  - intros b'. unfold t. rewrite V'. case_decide; [|done]. subst b'. by rewrite (owns_view s l i b I O).
Qed.

Lemma bunpin_ok s l i b :
  binv s l -> owns s i b -> 1 < b_refcnt (bufs s !!! i) ->
  let t := upd i (set_refcnt (b_refcnt (bufs s !!! i) - 1) (bufs s !!! i)) s in
  bunpin i s = Ret tt t /\ binv t l /\ owns t i b /\ forall b', view t b' = view s b'.
Proof.
  intros I O Hr1 t. pose proof O as [Hi Hd Hb Hv Hl Hr]. pose proof (bi_ref _ _ I i Hi).
  assert (Hil : (i < length (bufs s))%nat) by (rewrite (bi_len _ _ I); lia).
  destruct (owner_edit s l i b (set_refcnt (b_refcnt (bufs s !!! i) - 1) (bufs s !!! i)) I O) as (I' & O' & V');
    try done; [cbn; lia|]. split; [|split; [done|split; [done|]]].
  - unfold bunpin. rewrite bcache_update by (done || apply I). rewrite u32_small by lia. done.
  - intros b'. unfold t. rewrite V'. case_decide; [|done]. subst b'. by rewrite (owns_view s l i b I O).
Qed.

(** Writing into the buffer. *)
Lemma set_data_ok s l i b d :
  binv s l -> owns s i b ->
  let t := upd i (set_data d (bufs s !!! i)) s in
  updb i (set_data d) s = Ret tt t /\ binv t l /\ owns t i b /\
  forall b', view t b' = if decide (b' = b) then d else view s b'.
Proof.
  intros I O t. pose proof O as [Hi Hd Hb Hv Hl Hr]. pose proof (bi_ref _ _ I i Hi).
  assert (Hil : (i < length (bufs s))%nat) by (rewrite (bi_len _ _ I); lia).
  destruct (owner_edit s l i b (set_data d (bufs s !!! i)) I O) as (I' & O' & V'); try done; [cbn; lia|].
  split; [by apply updb_ok|done].
Qed.
End BioList.
