(* ===== verification/BioAbs.v ===== *)
(** The buffer cache seen block by block: what kernel/log.c and kernel/fs.c rely
    on from kernel/bio.c.

    Clients do not see buffers and lists but three things: the contents [view]
    of every block, the [disk], and for the blocks in use how many references
    there are and whether the block is locked.  The last part of the file is about
    a reference that is missing. *)

From S2P Require Import Prelude Riscv Sync Sleeplock Bio BioSpec BioList.

(** Blocks in use: reference count and whether locked. *)
Abbreviation uses := (gmap Z (Z * bool)).

Record rep (s : bstate) (l : list nat) (R : uses) : Prop := {
  rp_inv : binv s l;
  rp_used : forall i, (i < head)%nat -> b_refcnt (bufs s !!! i) <> 0 ->
    b_dev (bufs s !!! i) = ROOTDEV /\
    R !! b_blockno (bufs s !!! i) =
      Some (b_refcnt (bufs s !!! i), negb (slk_locked (b_lock (bufs s !!! i)) =? 0));
  rp_block : forall b e, R !! b = Some e -> exists i, is_cached s b i /\ b_refcnt (bufs s !!! i) <> 0;
}.

Definition refs (R : uses) (b : Z) : Z := match R !! b with Some (r, _) => r | None => 0 end.

(** [bread] of [b] neither waits nor fails. *)
Definition can_read (R : uses) (b : Z) : Prop :=
  match R !! b with
  | Some (r, lk) => lk = false /\ r + 1 < 2 ^ 32
  | None => (size R < head)%nat
  end.

(** A buffer is free unless every one is used for a different block. *)
Lemma unused_exists s l R :
  rep s l R -> (size R < head)%nat -> exists j, (j < head)%nat /\ b_refcnt (bufs s !!! j) = 0.
Proof.
  intros [I Hu Hb] Hs. destruct (List.find (fun i => b_refcnt (bufs s !!! i) =? 0) (seq 0 head)) as [j|] eqn:E.
  - apply find_some in E as [Hj H0]. exists j. apply list_elem_of_In, elem_of_seq in Hj. split; lia.
  - exfalso. set (bs := (fun i => b_blockno (bufs s !!! i)) <$> seq 0 head).
    assert (Hne : forall i, (i < head)%nat -> b_refcnt (bufs s !!! i) <> 0).
    { intros i Hi H0. pose proof (find_none _ _ E i) as Hf. cbn in Hf. rewrite H0 in Hf.
      enough (true = false) by done. apply Hf, list_elem_of_In, elem_of_seq. lia. }
    assert (Hnd : NoDup bs).
    { unfold bs. apply NoDup_fmap_2_strong; [|apply NoDup_seq]. intros i j Hi Hj Heq.
      apply elem_of_seq in Hi, Hj. assert (Hd : forall k, (k < head)%nat -> b_dev (bufs s !!! k) = ROOTDEV) by (intros k Hk; apply Hu; [done|by apply Hne]).
      apply (bi_uniq _ _ I); [lia|lia|apply Hd; lia|apply Hd; lia|done]. }
    assert (Hsub : list_to_set bs ⊆ dom R).
    { intros b Hb'. apply elem_of_list_to_set, list_elem_of_fmap in Hb' as (i & -> & Hi).
      apply elem_of_seq in Hi. apply elem_of_dom. destruct (Hu i) as [_ ->]; [lia|apply Hne; lia|done]. }
    apply subseteq_size in Hsub. rewrite size_list_to_set, size_dom in Hsub by done.
    unfold bs in Hsub. rewrite length_fmap, length_seq in Hsub. lia.
Qed.

Lemma rep_cached s l R b i :
  rep s l R -> is_cached s b i ->
  R !! b = if b_refcnt (bufs s !!! i) =? 0 then None
           else Some (b_refcnt (bufs s !!! i), negb (slk_locked (buf_lock i s) =? 0)).
Proof.
  intros Hrep Hc. pose proof Hrep as [I Hu Hb]. pose proof Hc as [Hi Hm]. apply matches_spec in Hm as [Hd Hbn].
  destruct (Z.eqb_spec (b_refcnt (bufs s !!! i)) 0) as [H0|H0].
  - destruct (R !! b) as [e|] eqn:E; [|done]. destruct (Hb b e E) as (j & Hj & Hjr).
    by rewrite (is_cached_inj s l b i j I Hc Hj) in H0.
  - destruct (Hu i Hi H0) as [_ E]. by rewrite Hbn in E.
Qed.

Lemma can_read_ready s l R b : rep s l R -> can_read R b -> ready s b.
Proof.
  intros Hrep Hr. pose proof Hrep as [I Hu Hb]. unfold can_read in Hr.
  destruct (cached_dec s b) as [[i Hc]|Hn].
  - left. exists i. split; [done|]. rewrite (rep_cached s l R b i Hrep Hc) in Hr. pose proof Hc as [Hi _].
    destruct (Z.eqb_spec (b_refcnt (bufs s !!! i)) 0) as [H0|H0].
    + split; [|lia]. destruct (decide (slk_locked (buf_lock i s) = 0)) as [|Hl]; [done|].
      by apply (bi_lock _ _ I i Hi) in Hl.
    + destruct Hr as [Hl Hr]. apply negb_false_iff, Z.eqb_eq in Hl. done.
  - right. split; [done|]. destruct (R !! b) as [e|] eqn:E; [|by eapply unused_exists].
    destruct (Hb b e E) as (i & Hc & _). by apply Hn in Hc.
Qed.

(** What a client keeps across operations on other blocks. *)
Definition keeps (s s' : bstate) (b : Z) : Prop :=
  forall j b', b' <> b -> owns s j b' -> owns s' j b' /\ b_data (bufs s' !!! j) = b_data (bufs s !!! j).

Lemma owns_inj s l i j b : binv s l -> owns s i b -> owns s j b -> i = j.
Proof. intros I H1 H2. eapply is_cached_inj; [done|by apply owns_cached|by apply owns_cached]. Qed.

Lemma keeps_upd s l i x b :
  binv s l -> b_refcnt (bufs s !!! i) = 0 \/ is_cached s b i -> keeps s (upd i x s) b.
Proof.
  intros I Hi j b' Hne O. assert (j <> i).
  { intros ->. destruct Hi as [H0|[_ Hm]]; [destruct O; lia|].
    apply matches_spec in Hm as [_ Hb]. destruct O. congruence. }
  destruct O. split; [split|]; rewrite ?upd_ne by done; done.
Qed.

(** The owner of block [b] changes its buffer to [x]. *)
Lemma rep_edit s l R i b x t l' :
  rep s l R -> owns s i b -> binv t l' ->
  (forall j, core (bufs t !!! j) = core (if decide (j = i) then x else bufs s !!! j)) ->
  b_dev x = ROOTDEV -> b_blockno x = b ->
  rep t l' (if b_refcnt x =? 0 then delete b R
            else <[b := (b_refcnt x, negb (slk_locked (b_lock x) =? 0))]> R).
Proof.
  intros Hrep O I' Hc Hxd Hxb. pose proof Hrep as [I Hu Hb]. pose proof O as [Hi Hd Hbn _ _ _].
  assert (F : forall j, let y := if decide (j = i) then x else bufs s !!! j in
    b_dev (bufs t !!! j) = b_dev y /\ b_blockno (bufs t !!! j) = b_blockno y /\
    b_lock (bufs t !!! j) = b_lock y /\ b_refcnt (bufs t !!! j) = b_refcnt y).
  { intros j y. pose proof (Hc j) as E. unfold core in E. fold y in E. by simplify_eq. }
  cbv zeta in F. split; [done| |].
  - intros j Hj. destruct (F j) as (-> & -> & -> & ->). case_decide as Hji.
    + intros H0. rewrite (proj2 (Z.eqb_neq _ _) H0), Hxb, lookup_insert_eq. done.
    + intros H0. destruct (Hu j Hj H0) as [Hdj Ej]. split; [done|].
      assert (b_blockno (bufs s !!! j) <> b).
      { intros E. apply Hji. apply (bi_uniq _ _ I j i Hj Hi); congruence. }
      case_match; [by rewrite lookup_delete_ne|by rewrite lookup_insert_ne].
  - intros b' e E. destruct (decide (b' = b)) as [->|Hne].
    + destruct (Z.eqb_spec (b_refcnt x) 0) as [|H0]; [by rewrite lookup_delete_eq in E|].
      exists i. unfold is_cached. rewrite matches_spec. destruct (F i) as (-> & -> & _ & ->).
      by rewrite decide_True.
    + assert (E' : R !! b' = Some e) by (case_match; [rewrite lookup_delete_ne in E|rewrite lookup_insert_ne in E]; done).
      destruct (Hb b' e E') as (k & [Hk Hm] & Hkr). apply matches_spec in Hm as [Hkd Hkb].
      exists k. unfold is_cached. rewrite matches_spec. destruct (F k) as (-> & -> & _ & ->).
      rewrite decide_False by congruence. done.
Qed.

Lemma core_upd s i x j :
  (i < length (bufs s))%nat -> core (bufs (upd i x s) !!! j) = core (if decide (j = i) then x else bufs s !!! j).
Proof. intros Hi. case_decide as E; [subst; by rewrite upd_eq|by rewrite upd_ne]. Qed.

(** The owner's entry. *)
Lemma rep_owner s l R i b :
  rep s l R -> owns s i b -> R !! b = Some (b_refcnt (bufs s !!! i), true).
Proof.
  intros Hrep O. rewrite (rep_cached s l R b i Hrep (owns_cached _ _ _ O)). destruct O as [_ _ _ _ Hl Hr].
  rewrite (proj2 (Z.eqb_neq _ _)) by lia. unfold buf_lock. by rewrite Hl.
Qed.

Lemma owner_abs s l R i b x :
  rep s l R -> owns s i b -> binv (upd i x s) l ->
  b_dev x = ROOTDEV -> b_blockno x = b -> b_lock x = b_lock (bufs s !!! i) -> 0 < b_refcnt x ->
  rep (upd i x s) l (<[b := (b_refcnt x, true)]> R) /\ b_data (bufs (upd i x s) !!! i) = b_data x /\
  keeps s (upd i x s) b.
Proof.
  intros Hrep O I' Hxd Hxb Hxl Hxr. pose proof Hrep as [I _ _]. pose proof O as [Hi _ _ _ Hl _].
  assert (Hil : (i < length (bufs s))%nat) by (rewrite (bi_len _ _ I); lia). split_and!.
  - pose proof (rep_edit s l R i b x _ l Hrep O I') as H.
    rewrite (proj2 (Z.eqb_neq (b_refcnt x) 0)), Hxl, Hl in H by lia.
    apply H; [|done..]. intros j. by apply core_upd.
  - by rewrite upd_eq.
  - eapply keeps_upd; [done|]. right. by apply owns_cached.
Qed.

Section BioAbs.
Context {WK : Wakeups}.

(** [bread]: the block becomes locked with one reference more. *)
Lemma bread_abs s l R b :
  rep s l R -> can_read R b ->
  exists i s', bread ROOTDEV b s = Ret i s' /\ rep s' l (<[b := (refs R b + 1, true)]> R) /\ owns s' i b /\
    b_data (bufs s' !!! i) = view s b /\ (forall b', view s' b' = view s b') /\
    disk s' = disk s /\ dhist s' = dhist s /\ b_pid s' = b_pid s /\ keeps s s' b.
Proof.
  intros Hrep Hr. pose proof Hrep as [I Hu Hb].
  destruct (bread_ok s l b I (can_read_ready s l R b Hrep Hr)) as (i & x & E & I' & O' & Hd & V' & G).
  exists i, (upd i x s). pose proof G as (Hi & Gd & Gb & Gl & _ & _ & _ & Gr & Gm & Gc).
  assert (Hil : (i < length (bufs s))%nat) by (rewrite (bi_len _ _ I); lia).
  assert (Hrefs : refs R b = b_refcnt (bufs s !!! i)).
  { unfold refs. destruct Gc as [Hc|[Hn H0]].
    - rewrite (rep_cached s l R b i Hrep Hc). by destruct (Z.eqb_spec (b_refcnt (bufs s !!! i)) 0).
    - destruct (R !! b) as [e|] eqn:Er; [|done]. destruct (Hb b e Er) as (j & Hc & _). by apply Hn in Hc. }
  split; [done|]. split; [|split; [done|split; [by rewrite upd_eq|split; [done|split_and!; try done]]]].
  - split; [done| |].
    + intros j Hj. destruct (decide (j = i)) as [->|Hne].
      * rewrite upd_eq by done. intros _. split; [done|].
        by rewrite Gb, lookup_insert_eq, Gl, Gr, Hrefs.
      * rewrite upd_ne by done. intros H0. destruct (Hu j Hj H0) as [Hdj Ej]. split; [done|].
        rewrite lookup_insert_ne; [done|]. intros Eb. apply Hne.
        apply (bi_uniq _ _ I' j i Hj Hi); rewrite ?upd_eq, ?upd_ne by done; congruence.
    + intros b' e. destruct (decide (b' = b)) as [->|Hne].
      * intros _. exists i. split; [by apply owns_cached|]. rewrite upd_eq, Gr by done.
        pose proof (bi_ref _ _ I i Hi). lia.
      * rewrite lookup_insert_ne by done. intros Eb. destruct (Hb b' e Eb) as (k & Hk & Hkr).
        assert (k <> i).
        { intros ->. destruct Gc as [[_ Hm]|[_ H0]]; [|done]. destruct Hk as [_ Hm'].
          apply matches_spec in Hm as [_ ?], Hm' as [_ ?]. congruence. }
        exists k. unfold is_cached. by rewrite upd_ne.
  - eapply keeps_upd; [done|]. destruct Gc as [?|[_ ?]]; auto.
Qed.

(** [brelse]: the block is unlocked and loses a reference; the last one must
    leave the block as it is on disk. *)
Lemma brelse_abs s l R i b r :
  rep s l R -> owns s i b -> R !! b = Some (r, true) ->
  (r = 1 -> view s b = disk_block (disk s) b) ->
  exists s' l', brelse i s = Ret tt s' /\
    rep s' l' (if r - 1 =? 0 then delete b R else <[b := (r - 1, false)]> R) /\
    (forall b', view s' b' = view s b') /\
    disk s' = disk s /\ dhist s' = dhist s /\ b_pid s' = b_pid s /\ keeps s s' b.
Proof.
  intros Hrep O HR Hcl. pose proof Hrep as [I _ _]. rewrite (rep_owner s l R i b Hrep O) in HR. simplify_eq.
  rewrite (owns_view s l i b I O) in Hcl.
  destruct (brelse_ok s l i b I O Hcl) as (t & l' & E & I' & S & V & _).
  assert (Hil : (i < length (bufs s))%nat) by (rewrite (bi_len _ _ I); destruct O; lia).
  assert (C : forall j, core (bufs t !!! j) = core (if decide (j = i) then released (bufs s !!! i) else bufs s !!! j)).
  { intros j. rewrite (sc_core _ _ S). by rewrite core_upd. }
  exists t, l'. split; [done|]. split; [|split_and!; try done; try apply S].
  - apply (rep_edit s l R i b (released (bufs s !!! i)) t l'); try done; apply O.
  - intros j b' Hne Oj. assert (Hji : j <> i) by (intros ->; destruct O, Oj; congruence).
    pose proof (C j) as Cj. rewrite decide_False in Cj by done. unfold core in Cj. simplify_eq.
    destruct Oj. split; [|done]. split; try congruence. rewrite (sc_pid _ _ S). cbn. congruence.
Qed.

(** [bwrite]: the block goes to disk; the write is the newest of [dhist]. *)
Lemma bwrite_abs s l R i b :
  rep s l R -> owns s i b ->
  exists s', bwrite i s = Ret tt s' /\ rep s' l R /\ bufs s' = bufs s /\
    (forall b', view s' b' = view s b') /\
    disk s' = <[b := b_data (bufs s !!! i)]> (disk s) /\
    dhist s' = (b, b_data (bufs s !!! i)) :: dhist s /\ b_pid s' = b_pid s.
Proof.
  intros [I Hu Hb] O. destruct (bwrite_ok s l i b I O) as (E & I' & _ & V & _).
  exists (written i s). pose proof (ow_blk _ _ _ O) as Hbn. split_and!; try done; cbn; by rewrite Hbn.
Qed.

Lemma owns_same s s' j b : bufs s' = bufs s -> b_pid s' = b_pid s -> owns s j b -> owns s' j b.
Proof. intros Eb Ep []. split; rewrite ?Eb, ?Ep; done. Qed.

(** The owner edits the contents. *)
Lemma set_data_abs s l R i b d :
  rep s l R -> owns s i b ->
  exists s', updb i (set_data d) s = Ret tt s' /\ rep s' l R /\ owns s' i b /\ b_data (bufs s' !!! i) = d /\
    (forall b', view s' b' = if decide (b' = b) then d else view s b') /\
    disk s' = disk s /\ dhist s' = dhist s /\ b_pid s' = b_pid s /\ keeps s s' b.
Proof.
  intros Hrep O. pose proof Hrep as [I _ _]. destruct (set_data_ok s l i b d I O) as (E & I' & O' & V).
  pose proof O as [Hi Hd Hb Hv Hl Hr].
  destruct (owner_abs s l R i b (set_data d (bufs s !!! i)) Hrep O I') as (P & D & K); try done.
  cbn in P. rewrite insert_id in P by (by apply (rep_owner s l R i b)).
  eexists. split; [exact E|]. by split_and!.
Qed.

(** [bpin] and [bunpin] by the owner. *)
Lemma bpin_abs s l R i b r :
  rep s l R -> owns s i b -> R !! b = Some (r, true) -> r + 1 < 2 ^ 32 ->
  exists s', bpin i s = Ret tt s' /\ rep s' l (<[b := (r + 1, true)]> R) /\ owns s' i b /\
    b_data (bufs s' !!! i) = b_data (bufs s !!! i) /\ (forall b', view s' b' = view s b') /\
    disk s' = disk s /\ dhist s' = dhist s /\ b_pid s' = b_pid s /\ keeps s s' b.
Proof.
  intros Hrep O HR Hmax. pose proof Hrep as [I _ _]. rewrite (rep_owner s l R i b Hrep O) in HR. simplify_eq.
  destruct (bpin_ok s l i b I O Hmax) as (E & I' & O' & V). pose proof O as [Hi Hd Hb Hv Hl Hr].
  destruct (owner_abs s l R i b _ Hrep O I') as (P & D & K); try done; [cbn; lia|].
  eexists. split; [exact E|]. by split_and!.
Qed.

Lemma bunpin_abs s l R i b r :
  rep s l R -> owns s i b -> R !! b = Some (r, true) -> 1 < r ->
  exists s', bunpin i s = Ret tt s' /\ rep s' l (<[b := (r - 1, true)]> R) /\ owns s' i b /\
    b_data (bufs s' !!! i) = b_data (bufs s !!! i) /\ (forall b', view s' b' = view s b') /\
    disk s' = disk s /\ dhist s' = dhist s /\ b_pid s' = b_pid s /\ keeps s s' b.
Proof.
  intros Hrep O HR Hmin. pose proof Hrep as [I _ _]. rewrite (rep_owner s l R i b Hrep O) in HR. simplify_eq.
  destruct (bunpin_ok s l i b I O Hmin) as (E & I' & O' & V). pose proof O as [Hi Hd Hb Hv Hl Hr].
  destruct (owner_abs s l R i b _ Hrep O I') as (P & D & K); try done; [cbn; lia|].
  eexists. split; [exact E|]. by split_and!.
Qed.
End BioAbs.

(** * A missing reference

    kernel/bio.c when [bunpin] takes away the only reference to a locked buffer,
    as [install_trans] of kernel/log.c does during recovery. *)

(** [s] with the reference count of buffer [d] replaced. *)
Definition with_ref (d : nat) (v : Z) (s : bstate) : bstate :=
  set_bufs (alter (set_refcnt v) d (bufs s)) s.

(** A computation that does not depend on the reference count of [d]. *)
Definition indep (d : nat) (v : Z) (m : M bstate unit) : Prop :=
  forall s t, m s = Ret tt t -> m (with_ref d v s) = Ret tt (with_ref d v t).

Section Indep.
Context (d : nat) (v : Z).

Lemma indep_ret : indep d v (mret_ tt).
Proof. intros s t E. unfold mret_ in *. by simplify_eq. Qed.

Lemma indep_seq m k : indep d v m -> indep d v k -> indep d v (m ;; k).
Proof.
  intros Hm Hk s t E. apply bind_ret_inv in E as ([] & s1 & E1 & E2).
  rewrite (bind_ret _ _ _ _ _ (Hm _ _ E1)). by apply Hk.
Qed.

Lemma indep_getb j k : j <> d -> (forall x, indep d v (k x)) -> indep d v (let! x := getb j in k x).
Proof.
  intros Hj Hk s t E. unfold getb in *. revert E. do 2 mstep. intros E.
  replace (bufs (with_ref d v s) !!! j) with (bufs s !!! j); [by apply Hk|].
  symmetry. by apply list_lookup_total_alter_ne.
Qed.

Lemma indep_updb j f :
  (j = d -> forall x, f (set_refcnt v x) = set_refcnt v (f x)) -> indep d v (updb j f).
Proof.
  intros Hf s t E. unfold updb, modify in *. simplify_eq. f_equal. unfold with_ref, set_bufs. cbn. f_equal.
  destruct (decide (j = d)) as [->|Hj]; [|by apply list_alter_alter_ne].
  rewrite !list_alter_alter_eq. apply list_alter_ext; [|done]. intros x _. cbn. by apply Hf.
Qed.

Lemma indep_release lk : indep d v (release lk).
Proof.
  intros s t E. unfold release, holding in *. cbn in *. case_match; simplify_eq; done.
Qed.
End Indep.



Lemma indep_link_front d v i : i <> d -> (d < head)%nat -> indep d v (link_front i).
Proof.
  intros Hi Hd. unfold link_front. apply indep_getb; [lia|]. intros h.
  repeat apply indep_seq; apply indep_updb; intros; done.
Qed.

Lemma with_ref_upd d v s : with_ref d v s = upd d (set_refcnt v (bufs s !!! d)) s.
Proof.
  unfold with_ref, upd. f_equal. apply list_eq. intros j. rewrite list_lookup_alter, list_lookup_insert.
  destruct (decide (d = j)) as [->|Hne].
  - destruct (decide (j < length (bufs s))%nat) as [Hl|Hl].
    + rewrite decide_True by done. by rewrite (list_lookup_lookup_total_lt _ _ Hl).
    + rewrite decide_False by naive_solver. by rewrite lookup_ge_None_2 by lia.
  - by rewrite decide_False by naive_solver.
Qed.

Section BioLeak.
Context {WK : Wakeups}.

Lemma brelse_indep d v s t i :
  (i < length (bufs s))%nat -> (d < head)%nat -> i <> d -> b_held s = ∅ ->
  b_lock (bufs s !!! i) = {| slk_locked := 1; slk_pid := b_pid s |} ->
  brelse i s = Ret tt t -> brelse i (with_ref d v s) = Ret tt (with_ref d v t).
Proof.
  intros Hil Hd Hne Hh Hl. unfold brelse.
  assert (Hi : bufs (with_ref d v s) !!! i = bufs s !!! i) by (by apply list_lookup_total_alter_ne).
  rewrite (brelse_start s) by done.
  rewrite (brelse_start (with_ref d v s)); [|by cbn; rewrite length_alter|done|by rewrite Hi]. rewrite Hi. intros E.
  replace (with_bcache _) with (with_ref d v (with_bcache (upd i (dropped (bufs s !!! i)) (woke (ChanBufLock i) s)))).
  - revert E. refine (indep_getb d v i _ Hne _ _ _). intros x. apply indep_seq; [|apply indep_release].
    case_match; [|apply indep_ret]. do 2 (apply indep_seq; [by apply indep_updb|]).
    by apply indep_link_front.
  - unfold with_ref, upd, woke, with_bcache, set_bufs. cbn. f_equal.
    rewrite !list_insert_alter. by apply list_alter_alter_ne.
Qed.

(** The last release of a buffer whose only reference is gone wraps the count
    to [2 ^ 32 - 1]. *)
Lemma brelse_wraps s l R d b :
  rep s l R -> owns s d b -> b_refcnt (bufs s !!! d) = 1 ->
  exists t, brelse d (with_ref d 0 s) = Ret tt t /\ rep t l (<[b := (2 ^ 32 - 1, false)]> R) /\
    (forall b', view t b' = view s b') /\ disk t = disk s /\ dhist t = dhist s /\ b_pid t = b_pid s.
Proof.
  intros Hrep O Hr. pose proof Hrep as [I _ _]. pose proof O as [Hd Hdev Hb Hv Hl _].
  assert (Hdl : (d < length (bufs s))%nat) by (rewrite (bi_len _ _ I); lia).
  set (x := set_refcnt (2 ^ 32 - 1) (set_lock initsleeplock_val (bufs s !!! d))).
  set (t := upd d x (woke (ChanBufLock d) s)).
  assert (I1 : binv (upd d x s) l).
  { apply binv_upd; try done; cbn.
    - by right.
    - rewrite Hb. intros _ j Hj. eapply is_cached_inj; [done|done|by apply owns_cached]. }
  assert (It : binv t l) by (by apply (binv_woke (ChanBufLock d)) in I1).
  exists t. split_and!; try done.
  - unfold brelse. rewrite with_ref_upd.
    rewrite brelse_start; [|by rewrite upd_len|apply I|by rewrite upd_eq]. rewrite upd_eq by done.
    change (woke _ (upd d ?y s)) with (upd d y (woke (ChanBufLock d) s)). rewrite upd_upd.
    change (dropped _) with x. fold t. mstep.
    change (bufs (with_bcache t) !!! d) with (bufs t !!! d). unfold t at 1. rewrite upd_eq by done.
    change (b_refcnt x =? 0) with false. cbv iota. mstep. apply bcache_release, It.
  - pose proof (rep_edit s l R d b x t l Hrep O It) as H. apply H; [|done..]. intros j. exact (core_upd s d x j Hdl).
  - intros b'. transitivity (view (upd d x s) b'); [done|].
    rewrite (view_upd s l d x b' I I1 Hd). change (matches ROOTDEV b' x) with (matches ROOTDEV b' (bufs s !!! d)).
    destruct (matches ROOTDEV b' (bufs s !!! d)) eqn:M; [|done]. by rewrite (view_shown s l b' d I).
Qed.

(** [bunpin], [brelse] of another buffer, [brelse], on a buffer with one
    reference: the block stays in use for ever, with a wrapped count. *)
Lemma leak_abs s l R i lb d hb :
  rep s l R -> owns s i lb -> owns s d hb -> lb <> hb ->
  R !! lb = Some (1, true) -> R !! hb = Some (1, true) -> view s lb = disk_block (disk s) lb ->
  exists t1 t2 t l', bunpin d s = Ret tt t1 /\ brelse i t1 = Ret tt t2 /\ brelse d t2 = Ret tt t /\
    rep t l' (<[hb := (2 ^ 32 - 1, false)]> (delete lb R)) /\
    (forall b', view t b' = view s b') /\ disk t = disk s /\ dhist t = dhist s /\ b_pid t = b_pid s.
Proof.
  intros Hrep Oi Od Hne Rl Rh Hclean. pose proof (rp_inv _ _ _ Hrep) as I.
  pose proof (rep_owner s l R d hb Hrep Od) as Hr. rewrite Rh in Hr. injection Hr as Hr.
  destruct (brelse_abs s l R i lb 1) as (s1 & l1 & E1 & H1 & V1 & K1 & T1 & P1 & F1); [done..|].
  destruct (F1 d hb) as [Od1 _]; [done|done|]. cbn in H1.
  assert (Hr1 : b_refcnt (bufs s1 !!! d) = 1).
  { pose proof (rep_owner s1 _ _ d hb H1 Od1) as E. rewrite lookup_delete_ne, Rh in E by done. by injection E. }
  destruct (brelse_wraps s1 _ _ d hb H1 Od1 Hr1) as (t & E & Ht & Vt & Kt & Tt & Pt).
  exists (with_ref d 0 s), (with_ref d 0 s1), t, l1. split_and!; try done; try congruence.
  - unfold bunpin. rewrite bcache_update; [|apply I|rewrite (bi_len _ _ I); destruct Od; lia].
    by rewrite with_ref_upd, <- Hr.
  - eapply brelse_indep; try done; [rewrite (bi_len _ _ I); destruct Oi; lia|apply Od| |apply I|apply Oi].
    intros ->. destruct Oi, Od. congruence.
Qed.
End BioLeak.
