(* ===== verification/BioProps.v ===== *)
(** The buffer cache of kernel/bio.c: [binit], the cache as a refinement of a
    block store, and the replacement policy. *)

From S2P Require Import Prelude Riscv Sync Sleeplock Bio BioSpec BioList BioAbs.

(** ** Boot *)

(** [bcache] as the kernel finds it: all zero, every [data] array [z]. *)
Definition zero_buf (z : block) : buf :=
  {| b_valid := 0; b_dev := 0; b_blockno := 0; b_lock := initsleeplock_val; b_refcnt := 0;
     b_prev := 0; b_next := 0; b_data := z |}.
Definition zeroed (z : block) (d : gmap Z block) (pid : Z) : bstate :=
  {| bufs := replicate (S head) (zero_buf z); disk := d; dhist := []; b_pid := pid; b_held := ∅; b_woken := [] |}.

(** The buffers after [binit]: linked from the last to the first. *)
Definition linked (z : block) (i : nat) : buf :=
  {| b_valid := 0; b_dev := 0; b_blockno := 0; b_lock := initsleeplock_val; b_refcnt := 0;
     b_prev := (if decide (i = head) then 0 else S i); b_next := (if decide (i = 0) then head else i - 1)%nat; b_data := z |}.

Lemma binit_run z d pid :
  binit (zeroed z d pid) = Ret tt (set_bufs (linked z <$> seq 0 (S head)) (zeroed z d pid)).
Proof. vm_compute. reflexivity. Qed.

Lemma linked_at z i : (i <= head)%nat -> (linked z <$> seq 0 (S head)) !!! i = linked z i.
Proof.
  intros Hi. rewrite list_lookup_total_alt, list_lookup_fmap, lookup_seq_lt by lia. done.
Qed.

Lemma zeroed_rep z d pid :
  rep (set_bufs (linked z <$> seq 0 (S head)) (zeroed z d pid)) (reverse (seq 0 head)) ∅.
Proof.
  assert (H : forall i, (i < head)%nat -> bufs (set_bufs (linked z <$> seq 0 (S head)) (zeroed z d pid)) !!! i = linked z i)
    by (intros i Hi; cbn [bufs set_bufs]; apply linked_at; lia).
  split; [split|..].
  - cbn [bufs set_bufs]. by rewrite length_fmap, length_seq.
  - vm_compute. repeat split.
  - apply reverse_Permutation.
  - intros i Hi. rewrite H by done. by left.
  - intros i j Hi Hj. by rewrite H.
  - intros i Hi. rewrite H by done. cbn. lia.
  - intros i Hi. unfold buf_lock. by rewrite H.
  - intros i Hi. by rewrite H.
  - done.
  - intros i Hi. by rewrite H.
  - intros b e. by rewrite lookup_empty.
Qed.

(** ** The cache as a block store *)

(** What a client does to a block. *)
Inductive bop :=
| BRead (b : Z)             (* bread *)
| BPut (b : Z) (x : block)  (* an assignment to b->data *)
| BWrite (b : Z)            (* bwrite *)
| BRelse (b : Z)            (* brelse *)
| BPin (b : Z)              (* bpin *)
| BUnpin (b : Z).           (* bunpin *)

(** The block store: contents, disk, and the blocks in use. *)
Record bspec := BSpec { sp_view : Z -> block; sp_disk : gmap Z block; sp_uses : uses }.

#[global] Instance can_read_dec R b : Decision (can_read R b).
Proof. unfold can_read. destruct (R !! b) as [[r lk]|]; apply _. Defined.

(** A step of the store; [None] when the client may not do it now. *)
Definition spec_step (a : bspec) (o : bop) : option (bspec * list block) :=
  match o with
  | BRead b =>
      if decide (can_read (sp_uses a) b)
      then Some (BSpec (sp_view a) (sp_disk a) (<[b := (refs (sp_uses a) b + 1, true)]> (sp_uses a)), [sp_view a b])
      else None
  | BPut b x =>
      match sp_uses a !! b with
      | Some (_, true) => Some (BSpec (fun b' => if decide (b' = b) then x else sp_view a b') (sp_disk a) (sp_uses a), [])
      | _ => None
      end
  | BWrite b =>
      match sp_uses a !! b with
      | Some (_, true) => Some (BSpec (sp_view a) (<[b := sp_view a b]> (sp_disk a)) (sp_uses a), [])
      | _ => None
      end
  | BRelse b =>
      match sp_uses a !! b with
      | Some (r, true) =>
          if decide (r = 1 -> sp_view a b = disk_block (sp_disk a) b)
          then Some (BSpec (sp_view a) (sp_disk a)
                 (if r - 1 =? 0 then delete b (sp_uses a) else <[b := (r - 1, false)]> (sp_uses a)), [])
          else None
      | _ => None
      end
  | BPin b =>
      match sp_uses a !! b with
      | Some (r, true) =>
          if r + 1 <? 2 ^ 32 then Some (BSpec (sp_view a) (sp_disk a) (<[b := (r + 1, true)]> (sp_uses a)), []) else None
      | _ => None
      end
  | BUnpin b =>
      match sp_uses a !! b with
      | Some (r, true) =>
          if 1 <? r then Some (BSpec (sp_view a) (sp_disk a) (<[b := (r - 1, true)]> (sp_uses a)), []) else None
      | _ => None
      end
  end.

Fixpoint spec_run (a : bspec) (os : list bop) : option (bspec * list block) :=
  match os with
  | [] => Some (a, [])
  | o :: os' =>
      match spec_step a o with
      | Some (a', out) =>
          match spec_run a' os' with Some (a'', outs) => Some (a'', out ++ outs) | None => None end
      | None => None
      end
  end.

Section Client.
Context {WK : Wakeups}.

(** The same steps by the code of kernel/bio.c; [h] has the buffers the client
    got from [bread]. *)
Definition code_step (h : gmap Z nat) (o : bop) : M bstate (gmap Z nat * list block) :=
  match o with
  | BRead b =>
      let! i := bread ROOTDEV b in let! x := getb i in mret_ (<[b := i]> h, [b_data x])
  | BPut b x => updb (h !!! b) (set_data x) ;; mret_ (h, [])
  | BWrite b => bwrite (h !!! b) ;; mret_ (h, [])
  | BRelse b => brelse (h !!! b) ;; mret_ (h, [])
  | BPin b => bpin (h !!! b) ;; mret_ (h, [])
  | BUnpin b => bunpin (h !!! b) ;; mret_ (h, [])
  end.
Fixpoint code_run (h : gmap Z nat) (os : list bop) : M bstate (list block) :=
  match os with
  | [] => mret_ []
  | o :: os' =>
      let! ' (h', out) := code_step h o in let! outs := code_run h' os' in mret_ (out ++ outs)
  end.

Record bsim (s : bstate) (h : gmap Z nat) (a : bspec) : Prop := {
  bs_rep : exists l, rep s l (sp_uses a);
  bs_view : forall b, view s b = sp_view a b;
  bs_disk : disk s = sp_disk a;
  bs_own : forall b r, sp_uses a !! b = Some (r, true) -> owns s (h !!! b) b;
}.

(** A step on block [b] keeps the relation when ownership of the others does
    not change. *)
Lemma bsim_step s s' (h h' : gmap Z nat) a a' l b :
  (forall b' r, sp_uses a !! b' = Some (r, true) -> owns s (h !!! b') b') ->
  rep s' l (sp_uses a') -> (forall b', view s' b' = sp_view a' b') -> disk s' = sp_disk a' -> keeps s s' b ->
  (forall b', b' <> b -> sp_uses a' !! b' = sp_uses a !! b' /\ h' !!! b' = h !!! b') ->
  (forall r, sp_uses a' !! b = Some (r, true) -> owns s' (h' !!! b) b) ->
  bsim s' h' a'.
Proof.
  intros Ho Hr Hv Hd Hk Hne Hb. split; [by exists l|done|done|]. intros b' r HR.
  destruct (decide (b' = b)) as [->|Hnb]; [by eapply Hb|].
  destruct (Hne b' Hnb) as [E ->]. rewrite E in HR. by apply Hk, (Ho _ r).
Qed.

(** The cases where block [b] is locked by the client. *)
Ltac locked a b Ho Ow :=
  let Eb := fresh "Eb" in
  destruct (sp_uses a !! b) as [[? []]|] eqn:Eb; [|done..]; pose proof (Ho b _ Eb) as Ow.

(** One step of the code does what the store allows. *)
Lemma code_step_ok s h a o a' out :
  bsim s h a -> spec_step a o = Some (a', out) ->
  exists s' h', code_step h o s = Ret (h', out) s' /\ bsim s' h' a'.
Proof.
  intros [[l Hr] Hv Hd Ho] E. destruct o as [b|b x|b|b|b|b]; cbn [spec_step code_step] in *.
  - case_decide as Hc; [|done]. simplify_eq.
    destruct (bread_abs s l _ b Hr Hc) as (i & s' & Er & Hr' & O & D & V & K & _ & _ & F).
    exists s', (<[b := i]> h). rewrite (bind_ret _ _ _ _ _ Er). unfold getb. mstep. rewrite D, Hv. split; [done|].
    eapply bsim_step; [exact Ho|exact Hr'|intros; cbn; by rewrite V|cbn; congruence|exact F| |].
    + intros b' Hb'. cbn. by rewrite lookup_insert_ne, lookup_total_insert_ne.
    + intros _ _. by rewrite lookup_total_insert_eq.
  - locked a b Ho Ow. simplify_eq.
    destruct (set_data_abs s l _ _ b x Hr Ow) as (s' & Er & Hr' & O' & _ & V & K & _ & _ & F).
    exists s', h. rewrite (bind_ret _ _ _ _ _ Er). split; [done|].
    eapply bsim_step; [exact Ho|exact Hr'| |cbn; congruence|exact F|done|done].
    intros b'. cbn. rewrite V. by case_decide.
  - locked a b Ho Ow. simplify_eq.
    destruct (bwrite_abs s l _ _ b Hr Ow) as (s' & Er & Hr' & B & V & K & _ & P).
    exists s', h. rewrite (bind_ret _ _ _ _ _ Er). split; [done|].
    split; cbn; [by exists l|by intros; rewrite V| |intros b' r' Hb'; eapply owns_same; [done|done|by eapply Ho]].
    rewrite K, <- Hd, <- Hv. by rewrite (owns_view s l _ b (rp_inv _ _ _ Hr) Ow).
  - locked a b Ho Ow. case_decide as Hc; [|done]. simplify_eq. rewrite <- Hv, <- Hd in Hc.
    destruct (brelse_abs s l _ _ b _ Hr Ow Eb Hc) as (s' & l' & Er & Hr' & V & K & _ & _ & F).
    exists s', h. rewrite (bind_ret _ _ _ _ _ Er). split; [done|].
    eapply bsim_step; [exact Ho|exact Hr'|intros; cbn; by rewrite V|cbn; congruence|exact F| |]; cbn.
    + intros b' Hb'. case_match; [by rewrite lookup_delete_ne|by rewrite lookup_insert_ne].
    + intros r'. case_match; [by rewrite lookup_delete_eq|by rewrite lookup_insert_eq].
  - locked a b Ho Ow. case_match eqn:Hm; [|done]. simplify_eq. apply Z.ltb_lt in Hm.
    destruct (bpin_abs s l _ _ b _ Hr Ow Eb Hm) as (s' & Er & Hr' & O' & _ & V & K & _ & _ & F).
    exists s', h. rewrite (bind_ret _ _ _ _ _ Er). split; [done|].
    eapply bsim_step; [exact Ho|exact Hr'|intros; cbn; by rewrite V|cbn; congruence|exact F| |done].
    intros; cbn. by rewrite lookup_insert_ne.
  - locked a b Ho Ow. case_match eqn:Hm; [|done]. simplify_eq. apply Z.ltb_lt in Hm.
    destruct (bunpin_abs s l _ _ b _ Hr Ow Eb Hm) as (s' & Er & Hr' & O' & _ & V & K & _ & _ & F).
    exists s', h. rewrite (bind_ret _ _ _ _ _ Er). split; [done|].
    eapply bsim_step; [exact Ho|exact Hr'|intros; cbn; by rewrite V|cbn; congruence|exact F| |done].
    intros; cbn. by rewrite lookup_insert_ne.
Qed.

(** C13: the buffer cache implements a block store: whatever a client does with
    blocks it may use, the code returns the contents the store has, and ends with
    the store's disk. *)
Theorem bcache_refines s h a os a' outs :
  bsim s h a -> spec_run a os = Some (a', outs) ->
  exists s' h', code_run h os s = Ret outs s' /\ bsim s' h' a'.
Proof.
  revert s h a outs. induction os as [|o os IH]; intros s h a outs Hs E; cbn [spec_run code_run] in *.
  - simplify_eq. by exists s, h.
  - destruct (spec_step a o) as [[a1 out]|] eqn:E1; [|done].
    destruct (spec_run a1 os) as [[a2 outs2]|] eqn:E2; [|done]. simplify_eq.
    destruct (code_step_ok s h a o a1 out Hs E1) as (s1 & h1 & C1 & Hs1).
    destruct (IH s1 h1 a1 outs2 Hs1 E2) as (s2 & h2 & C2 & Hs2).
    exists s2, h2. rewrite (bind_ret _ _ _ _ _ C1). cbv beta iota. by rewrite (bind_ret _ _ _ _ _ C2).
Qed.

Lemma zeroed_sim z d pid :
  bsim (set_bufs (linked z <$> seq 0 (S head)) (zeroed z d pid)) ∅ (BSpec (disk_block d) d ∅).
Proof.
  pose proof (zeroed_rep z d pid) as Hr. split; [by exists (reverse (seq 0 head))| |done|].
  - intros b. apply view_uncached. intros i [Hi Hm]. apply matches_spec in Hm as [Hd _].
    cbn [bufs set_bufs] in Hd. by rewrite linked_at in Hd by lia.
  - intros b r. cbn. by rewrite lookup_empty.
Qed.

(** [binit] turns the zeroed cache into an empty store on the disk: nothing is
    in use and every block reads as it is on disk. *)
Theorem binit_empty z d pid :
  exists s, binit (zeroed z d pid) = Ret tt s /\ bsim s ∅ (BSpec (disk_block d) d ∅).
Proof. eexists. split; [apply binit_run|apply zeroed_sim]. Qed.

(** A search from the back of the list does not reach its first element when
    another one fits. *)
Lemma find_before (f : nat -> bool) i j l :
  i ∉ l -> j ∈ l -> f j = true -> exists k, List.find f (reverse (i :: l)) = Some k /\ k <> i.
Proof.
  intros Hi Hj Hf. rewrite reverse_cons.
  assert (Happ : forall l1 l2 k, List.find f l1 = Some k -> List.find f (l1 ++ l2) = Some k).
  { intros l1 l2 k. induction l1 as [|a l1 IH]; cbn; [done|]. by destruct (f a). }
  destruct (List.find f (reverse l)) as [k|] eqn:E.
  - exists k. split; [by apply Happ|]. apply find_some in E as [Hk%list_elem_of_In _].
    rewrite elem_of_reverse in Hk. by intros ->.
  - assert (Hin : In j (reverse l)) by (by apply list_elem_of_In, elem_of_reverse).
    apply (find_none _ _ E) in Hin. congruence.
Qed.

(** The buffer released last is the last one to be given to another block: as
    long as another buffer is unused, reading a block that is not cached leaves
    it alone. *)
Theorem brelse_recent s l R i b c j :
  rep s l R -> owns s i b -> R !! b = Some (1, true) -> view s b = disk_block (disk s) b ->
  (j < head)%nat -> j <> i -> b_refcnt (bufs s !!! j) = 0 -> (forall k, ~ is_cached s c k) ->
  exists t k u, brelse i s = Ret tt t /\ bread ROOTDEV c t = Ret k u /\ k <> i /\ is_cached u b i /\ is_cached u c k.
Proof.
  intros Hr O Rb Hv Hj Hji Hjr Hn. pose proof (rp_inv _ _ _ Hr) as I.
  rewrite (rep_owner s l R i b Hr O) in Rb. injection Rb as Hri. rewrite (owns_view s l i b I O) in Hv.
  destruct (brelse_ok s l i b I O (fun _ => Hv)) as (t & l' & Et & It & C & Vt & Hl).
  rewrite Hri in Hl. cbn in Hl. destruct Hl as (l1 & l2 & -> & ->).
  assert (Hil : (i < length (bufs s))%nat) by (rewrite (bi_len _ _ I); destruct O; lia).
  assert (F : forall k, k <> i -> b_refcnt (bufs t !!! k) = b_refcnt (bufs s !!! k)).
  { intros k Hk. destruct (same_core_fields _ _ k C) as (_ & _ & _ & _ & -> & _). by rewrite upd_ne. }
  assert (G : forall k c', is_cached t c' k <-> is_cached s c' k).
  { intros k c'. rewrite (is_cached_core _ _ _ _ C). unfold is_cached. destruct (decide (k = i)) as [->|];
      [by rewrite upd_eq|by rewrite upd_ne]. }
  assert (Hfi : exists k, List.find (fun i => b_refcnt (bufs t !!! i) =? 0) (reverse (i :: l1 ++ l2)) = Some k /\ k <> i).
  { apply (find_before _ i j); [| |by rewrite F, Hjr].
    - pose proof (nodup_list _ _ It) as Hd. apply NoDup_cons in Hd as [_ [Hd _]%NoDup_cons]. done.
    - assert (j ∈ l1 ++ i :: l2) by (by apply (in_list _ _ _ I)). clear -H Hji. set_solver. }
  destruct Hfi as (k & Hk & Hki). exists t, k.
  assert (Hkh : (k < head)%nat).
  { apply find_some in Hk as [Hk%list_elem_of_In _]. by apply (in_list _ _ _ It), elem_of_reverse. }
  destruct (bread_ok t _ c It) as (k' & x & Er & Iu & Ou & _); [right; split; [by intros k' H%G; apply (Hn k')|by exists j; rewrite F]|].
  pose proof (bget_recycle t _ c k It (fun k' H => Hn k' (proj1 (G k' c) H)) Hk) as Eg.
  assert (k' = k) as ->.
  { unfold bread in Er. rewrite (bind_ret _ _ _ _ _ Eg) in Er. revert Er. unfold getb. mstep. intros Er.
    apply bind_ret_inv in Er as ([] & ? & _ & Er). unfold mret_ in Er. by simplify_eq. }
  exists (upd k x t). split_and!; [done|done|done| |by apply owns_cached].
  unfold is_cached. rewrite upd_ne by done. by apply G, owns_cached.
Qed.
End Client.

(** ** Concrete instances *)
Module BioDemo.
#[local] Instance demo_wakeups : Wakeups := 3%nat.

Definition booted : bstate := set_bufs (linked [] <$> seq 0 (S head)) (zeroed [] {[5 := [1; 2]]} 1).

Definition demo_ops : list bop := [BRead 5; BPut 5 [7]; BPin 5; BWrite 5; BRelse 5; BRead 5; BUnpin 5].

Lemma bcache_refines_witness :
  exists s' h' a', code_run ∅ demo_ops booted = Ret [[1; 2]; [7]] s' /\ bsim s' h' a'.
Proof.
  assert (E : exists a', spec_run (BSpec (disk_block {[5 := [1; 2]]}) {[5 := [1; 2]]} ∅) demo_ops = Some (a', [[1; 2]; [7]])).
  { eexists. vm_compute. reflexivity. }
  destruct E as [a' E].
  destruct (bcache_refines _ _ _ _ _ _ (zeroed_sim [] {[5 := [1; 2]]} 1) E) as (s' & h' & H1 & H2).
  exists s', h', a'. split; assumption.
Defined.

(** Block 5 just read into buffer 0. *)
Definition one_read : bstate := match bread ROOTDEV 5 booted with Ret _ s => s | _ => booted end.

Lemma one_read_rep : rep one_read (reverse (seq 0 head)) {[5 := (1, true)]} /\ owns one_read 0 5.
Proof.
  destruct (bread_abs booted _ ∅ 5 (zeroed_rep [] {[5 := [1; 2]]} 1)) as (i & s & E & R & O & _).
  { vm_compute. lia. }
  assert (E' : bread ROOTDEV 5 booted = Ret 0%nat one_read) by (vm_compute; reflexivity).
  rewrite E' in E. simplify_eq. done.
Qed.

Lemma brelse_recent_witness :
  exists t k u, brelse 0 one_read = Ret tt t /\ bread ROOTDEV 6 t = Ret k u /\ k <> 0%nat /\
    is_cached u 5 0 /\ is_cached u 6 k.
Proof.
  destruct one_read_rep as [R O]. apply (brelse_recent one_read _ _ 0 5 6 1 R O).
  - reflexivity.
  - vm_compute. reflexivity.
  - vm_compute. lia.
  - discriminate.
  - vm_compute. reflexivity.
  - intros k [Hk Hm]. assert (E : forallb (fun k => negb (matches ROOTDEV 6 (bufs one_read !!! k))) (seq 0 head) = true)
      by (vm_compute; reflexivity).
    rewrite forallb_forall in E. specialize (E k). rewrite Hm in E. discriminate E. apply in_seq. lia.
Defined.
End BioDemo.
