(* ===== verification/Virtio.v ===== *)
(** * kernel/virtio_disk.c: the disk driver

    The queue shared with the device, the driver's book-keeping, [virtio_disk_rw]
    and [virtio_disk_intr].  Arrays of [NUM] elements are functions of the index.
    An address that the driver hands to the device is a value of [dma]: the
    request header on the kernel stack of a thread, the data of a buffer, or the
    status byte of a request.  The second half of the file runs the driver, its
    callers and the device together. *)

From S2P Require Import Prelude Riscv Mem Sync Bio.

(** ** kernel/virtio.h *)

Definition NUM : nat := 8.
Definition VRING_DESC_F_NEXT : Z := 1.
Definition VRING_DESC_F_WRITE : Z := 2.
Definition VIRTIO_BLK_T_IN : Z := 0.
Definition VIRTIO_BLK_T_OUT : Z := 1.

(** The registers of the device, and where they are mapped from VIRTIO0 on. *)
Inductive mmio :=
| VIRTIO_MMIO_MAGIC_VALUE
| VIRTIO_MMIO_VERSION
| VIRTIO_MMIO_DEVICE_ID
| VIRTIO_MMIO_VENDOR_ID
| VIRTIO_MMIO_DEVICE_FEATURES
| VIRTIO_MMIO_DRIVER_FEATURES
| VIRTIO_MMIO_GUEST_PAGE_SIZE
| VIRTIO_MMIO_QUEUE_SEL
| VIRTIO_MMIO_QUEUE_NUM_MAX
| VIRTIO_MMIO_QUEUE_NUM
| VIRTIO_MMIO_QUEUE_PFN
| VIRTIO_MMIO_QUEUE_NOTIFY
| VIRTIO_MMIO_INTERRUPT_STATUS
| VIRTIO_MMIO_INTERRUPT_ACK
| VIRTIO_MMIO_STATUS.

Definition mmio_offset (r : mmio) : Z :=
  match r with
  | VIRTIO_MMIO_MAGIC_VALUE => 0x000
  | VIRTIO_MMIO_VERSION => 0x004
  | VIRTIO_MMIO_DEVICE_ID => 0x008
  | VIRTIO_MMIO_VENDOR_ID => 0x00c
  | VIRTIO_MMIO_DEVICE_FEATURES => 0x010
  | VIRTIO_MMIO_DRIVER_FEATURES => 0x020
  | VIRTIO_MMIO_GUEST_PAGE_SIZE => 0x028
  | VIRTIO_MMIO_QUEUE_SEL => 0x030
  | VIRTIO_MMIO_QUEUE_NUM_MAX => 0x034
  | VIRTIO_MMIO_QUEUE_NUM => 0x038
  | VIRTIO_MMIO_QUEUE_PFN => 0x040
  | VIRTIO_MMIO_QUEUE_NOTIFY => 0x050
  | VIRTIO_MMIO_INTERRUPT_STATUS => 0x060
  | VIRTIO_MMIO_INTERRUPT_ACK => 0x064
  | VIRTIO_MMIO_STATUS => 0x070
  end.

(** [R(r)] *)
Definition mmio_addr (r : mmio) : Z := VIRTIO0 + mmio_offset r.

(** The feature bits that the driver turns off: VIRTIO_BLK_F_RO, _SCSI,
    _CONFIG_WCE, _MQ, VIRTIO_F_ANY_LAYOUT, VIRTIO_RING_F_EVENT_IDX and
    _INDIRECT_DESC. *)
Definition refused_features : list Z := [5; 7; 11; 12; 27; 29; 28].

Inductive dma :=
| ANull
| AHdr (t : nat)      (* buf0 on the kernel stack of thread t *)
| AData (b : nat)     (* bcache.buf[b].data *)
| AStatus (i : nat).  (* disk.info[i].status *)

Record VRingDesc := Desc { d_addr : dma; d_len : Z; d_flags : Z; d_next : nat }.

(** [struct virtio_blk_outhdr] *)
Record outhdr := OutHdr { h_type : Z; h_reserved : Z; h_sector : Z }.

(** ** State *)

(** The two pages shared with the device: [avail[1]] and [used->id] are 16-bit
    counters. *)
Record vqueue := VQueue {
  q_desc : nat -> VRingDesc; q_avail : nat -> nat; q_avail_idx : Z;
  q_used : nat -> nat; q_used_id : Z }.

(** [free], [used_idx] and [info] of [struct disk]. *)
Record vdriver := VDriver {
  v_free : nat -> bool; v_used_idx : Z; v_info : nat -> option nat; v_status : nat -> Z }.

(** The fields of [struct buf] that the driver uses. *)
Record vbuf := VBuf { vb_disk : Z; vb_blockno : Z; vb_data : list Z }.

(** What the device keeps: how far it has looked in [avail], the requests it is
    working on, and the bytes of the disk. *)
Record vdevice := VDevice { dv_last : Z; dv_pending : list nat; dv_img : memory }.

Record vdisk := VDisk {
  vq : vqueue; vdr : vdriver; vbufs : nat -> vbuf; vhdr : nat -> outhdr; vdev : vdevice;
  vreg : mmio -> Z;            (* what the device's registers read *)
  vmmio : list (Z * Z);        (* the registers written, the latest first *)
  vlocks : lockset; vwoken : list chan }.

#[global] Instance vdisk_locks : Lens vdisk lockset.
Proof.
  refine {| lget := vlocks; lput := fun h s => VDisk (vq s) (vdr s) (vbufs s) (vhdr s) (vdev s)
    (vreg s) (vmmio s) h (vwoken s) |}; lens_laws vdisk.
Defined.
#[global] Instance vdisk_woken : Lens vdisk (list chan).
Proof.
  refine {| lget := vwoken; lput := fun x s => VDisk (vq s) (vdr s) (vbufs s) (vhdr s) (vdev s)
    (vreg s) (vmmio s) (vlocks s) x |}; lens_laws vdisk.
Defined.

Definition on_q (f : vqueue -> vqueue) (s : vdisk) : vdisk :=
  VDisk (f (vq s)) (vdr s) (vbufs s) (vhdr s) (vdev s) (vreg s) (vmmio s) (vlocks s) (vwoken s).
Definition on_dr (f : vdriver -> vdriver) (s : vdisk) : vdisk :=
  VDisk (vq s) (f (vdr s)) (vbufs s) (vhdr s) (vdev s) (vreg s) (vmmio s) (vlocks s) (vwoken s).
Definition on_buf (b : nat) (f : vbuf -> vbuf) (s : vdisk) : vdisk :=
  VDisk (vq s) (vdr s) (<[b := f (vbufs s b)]> (vbufs s)) (vhdr s) (vdev s) (vreg s) (vmmio s)
    (vlocks s) (vwoken s).
Definition on_hdr (t : nat) (h : outhdr) (s : vdisk) : vdisk :=
  VDisk (vq s) (vdr s) (vbufs s) (<[t := h]> (vhdr s)) (vdev s) (vreg s) (vmmio s)
    (vlocks s) (vwoken s).
Definition on_dev (f : vdevice -> vdevice) (s : vdisk) : vdisk :=
  VDisk (vq s) (vdr s) (vbufs s) (vhdr s) (f (vdev s)) (vreg s) (vmmio s) (vlocks s) (vwoken s).

Definition set_desc (i : nat) (d : VRingDesc) : vqueue -> vqueue := fun q =>
  VQueue (<[i := d]> (q_desc q)) (q_avail q) (q_avail_idx q) (q_used q) (q_used_id q).
Definition put_avail (i : nat) (q : vqueue) : vqueue :=
  VQueue (q_desc q) (<[Z.to_nat (q_avail_idx q mod Z.of_nat NUM) := i]> (q_avail q))
    (q_avail_idx q) (q_used q) (q_used_id q).
Definition next_avail (q : vqueue) : vqueue :=
  VQueue (q_desc q) (q_avail q) (u16 (q_avail_idx q + 1)) (q_used q) (q_used_id q).
Definition set_free (i : nat) (x : bool) (d : vdriver) : vdriver :=
  VDriver (<[i := x]> (v_free d)) (v_used_idx d) (v_info d) (v_status d).
Definition set_used_idx (x : Z) (d : vdriver) : vdriver :=
  VDriver (v_free d) x (v_info d) (v_status d).
Definition set_info (i : nat) (b : option nat) (d : vdriver) : vdriver :=
  VDriver (v_free d) (v_used_idx d) (<[i := b]> (v_info d)) (v_status d).
Definition set_status (i : nat) (x : Z) (d : vdriver) : vdriver :=
  VDriver (v_free d) (v_used_idx d) (v_info d) (<[i := x]> (v_status d)).
Definition set_bdisk (x : Z) (b : vbuf) : vbuf := VBuf x (vb_blockno b) (vb_data b).
Definition set_bdata (x : list Z) (b : vbuf) : vbuf := VBuf (vb_disk b) (vb_blockno b) x.

Definition reg_read (r : mmio) : M vdisk Z := gets (fun s => vreg s r).
Definition log_mmio (r v : Z) (s : vdisk) : vdisk :=
  VDisk (vq s) (vdr s) (vbufs s) (vhdr s) (vdev s) (vreg s) ((r, v) :: vmmio s) (vlocks s) (vwoken s).
Definition reg_write (r : mmio) (v : Z) : M vdisk unit := modify (log_mmio (mmio_addr r) (u32 v)).

Section Virtio.
Context {WK : Wakeups}.

(** ** Setting up

    [pages] is the address of [disk.pages]. *)
Definition virtio_disk_init (pages : Z) : M vdisk unit :=
  initlock LVdisk ;;
  let! magic := reg_read VIRTIO_MMIO_MAGIC_VALUE in
  let! version := reg_read VIRTIO_MMIO_VERSION in
  let! device := reg_read VIRTIO_MMIO_DEVICE_ID in
  let! vendor := reg_read VIRTIO_MMIO_VENDOR_ID in
  if negb (magic =? 0x74726976) || negb (version =? 1) || negb (device =? 2)
     || negb (vendor =? 0x554d4551) then panic "could not find virtio disk"
  else
    reg_write VIRTIO_MMIO_STATUS 1 ;;
    reg_write VIRTIO_MMIO_STATUS (Z.lor 1 2) ;;
    let! features := reg_read VIRTIO_MMIO_DEVICE_FEATURES in
    reg_write VIRTIO_MMIO_DRIVER_FEATURES
      (fold_left (fun f k => Z.land f (Z.lnot (Z.shiftl 1 k))) refused_features features) ;;
    reg_write VIRTIO_MMIO_STATUS (Z.lor (Z.lor 1 2) 8) ;;
    reg_write VIRTIO_MMIO_STATUS (Z.lor (Z.lor (Z.lor 1 2) 8) 4) ;;
    reg_write VIRTIO_MMIO_GUEST_PAGE_SIZE PGSIZE ;;
    reg_write VIRTIO_MMIO_QUEUE_SEL 0 ;;
    let! max := reg_read VIRTIO_MMIO_QUEUE_NUM_MAX in
    if max =? 0 then panic "virtio disk has no queue 0"
    else if max <? Z.of_nat NUM then panic "virtio disk max queue too short"
    else
      reg_write VIRTIO_MMIO_QUEUE_NUM (Z.of_nat NUM) ;;
      modify (on_q (fun _ => VQueue (fun _ => Desc ANull 0 0 0) (fun _ => O) 0 (fun _ => O) 0)) ;;
      reg_write VIRTIO_MMIO_QUEUE_PFN (Z.shiftr pages PGSHIFT) ;;
      modify (on_dr (fun d => VDriver (fun i => (i <? NUM)%nat || v_free d i) (v_used_idx d)
        (v_info d) (v_status d))).

(** ** Descriptors *)

Fixpoint alloc_scan (n i : nat) : M vdisk (option nat) :=
  match n with
  | O => mret_ None
  | S n' =>
      let! f := gets (fun s => v_free (vdr s) i) in
      if f then modify (on_dr (set_free i false)) ;; mret_ (Some i)
      else alloc_scan n' (S i)
  end.
Definition alloc_desc : M vdisk (option nat) := alloc_scan NUM 0.

Definition clear_addr (i : nat) (q : vqueue) : vqueue :=
  let d := q_desc q i in set_desc i (Desc ANull (d_len d) (d_flags d) (d_next d)) q.

Definition free_desc (i : nat) : M vdisk unit :=
  if (NUM <=? i)%nat then panic "virtio_disk_intr 1"
  else
    let! f := gets (fun s => v_free (vdr s) i) in
    if f then panic "virtio_disk_intr 2"
    else
      modify (on_q (clear_addr i)) ;;
      modify (on_dr (set_free i true)) ;;
      wakeup ChanDiskFree.

Fixpoint free_chain (fuel i : nat) : M vdisk unit :=
  match fuel with
  | O => nofuel
  | S fuel' =>
      free_desc i ;;
      let! d := gets (fun s => q_desc (vq s) i) in
      if negb (Z.land (d_flags d) VRING_DESC_F_NEXT =? 0) then free_chain fuel' (d_next d)
      else mret_ tt
  end.

Definition alloc3_desc : M vdisk (option (nat * nat * nat)) :=
  let! i0 := alloc_desc in
  match i0 with
  | None => mret_ None
  | Some i0 =>
      let! i1 := alloc_desc in
      match i1 with
      | None => free_desc i0 ;; mret_ None
      | Some i1 =>
          let! i2 := alloc_desc in
          match i2 with
          | None => free_desc i0 ;; free_desc i1 ;; mret_ None
          | Some i2 => mret_ (Some (i0, i1, i2))
          end
      end
  end.

(** ** A request *)

Fixpoint rw_alloc (n : nat) : M vdisk (nat * nat * nat) :=
  match n with
  | O => nofuel
  | S n' =>
      let! r := alloc3_desc in
      match r with
      | Some idx => mret_ idx
      | None => sleep ChanDiskFree LVdisk ;; rw_alloc n'
      end
  end.

(** The thread [me] asks for the transfer of buffer [b].  It holds the lock of the
    driver, and the device looks at none of what is written before the index of the
    ring moves, so that the writes are one step to both; an address of a descriptor
    names what it points to. *)
Definition rw_publish (me b : nat) (write : bool) (sector : Z) (idx : nat * nat * nat) : M vdisk unit :=
  let '(i0, i1, i2) := idx in
  modify (on_hdr me (OutHdr (if write then VIRTIO_BLK_T_OUT else VIRTIO_BLK_T_IN) 0 sector)) ;;
  modify (on_q (set_desc i0 (Desc (AHdr me) 16 VRING_DESC_F_NEXT i1))) ;;
  modify (on_q (set_desc i1 (Desc (AData b) BSIZE
    (Z.lor (if write then 0 else VRING_DESC_F_WRITE) VRING_DESC_F_NEXT) i2))) ;;
  modify (on_dr (set_status i0 0)) ;;
  modify (on_q (set_desc i2 (Desc (AStatus i0) 1 VRING_DESC_F_WRITE 0))) ;;
  modify (on_buf b (set_bdisk 1)) ;;
  modify (on_dr (set_info i0 (Some b))) ;;
  modify (on_q (put_avail i0)) ;;
  modify (on_q next_avail) ;;
  reg_write VIRTIO_MMIO_QUEUE_NOTIFY 0.

Fixpoint rw_wait (n b : nat) : M vdisk unit :=
  match n with
  | O => nofuel
  | S n' =>
      let! x := gets (fun s => vb_disk (vbufs s b)) in
      if x =? 1 then sleep (ChanBuf b) LVdisk ;; rw_wait n' b else mret_ tt
  end.

Definition rw_done (i0 : nat) : M vdisk unit :=
  modify (on_dr (set_info i0 None)) ;;
  free_chain (S NUM) i0 ;;
  release LVdisk.

Definition virtio_disk_rw (me b : nat) (write : bool) : M vdisk unit :=
  let! sector := gets (fun s => u32 (vb_blockno (vbufs s b) * (BSIZE / 512))) in
  acquire LVdisk ;;
  let! idx := rw_alloc (S max_wakeups) in
  rw_publish me b write sector idx ;;
  rw_wait (S max_wakeups) b ;;
  rw_done idx.1.1.

(** ** The interrupt *)

Fixpoint intr_loop (fuel : nat) : M vdisk unit :=
  match fuel with
  | O => nofuel
  | S fuel' =>
      let! idx := gets (fun s => v_used_idx (vdr s)) in
      let! uid := gets (fun s => q_used_id (vq s)) in
      if negb (idx mod Z.of_nat NUM =? uid mod Z.of_nat NUM) then
        let! id := gets (fun s => q_used (vq s) (Z.to_nat idx)) in
        let! st := gets (fun s => v_status (vdr s) id) in
        if negb (st =? 0) then panic "virtio_disk_intr status"
        else
          let! ob := gets (fun s => v_info (vdr s) id) in
          match ob with
          | None => panic "null"
          | Some b =>
              modify (on_buf b (set_bdisk 0)) ;;
              wakeup (ChanBuf b) ;;
              modify (on_dr (set_used_idx ((idx + 1) mod Z.of_nat NUM))) ;;
              intr_loop fuel'
          end
      else mret_ tt
  end.

Definition virtio_disk_intr : M vdisk unit :=
  acquire LVdisk ;;
  intr_loop (S NUM) ;;
  let! x := reg_read VIRTIO_MMIO_INTERRUPT_STATUS in
  reg_write VIRTIO_MMIO_INTERRUPT_ACK (Z.land x 3) ;;
  release LVdisk.

End Virtio.

(** * The disk driver, its callers and the device together

    Any number of threads call [virtio_disk_rw]; the interrupt handler, the
    device and changes to buffers that no call is using come in between, in any
    order.  Code of the driver runs between [acquire] and [sleep] or [release]
    as one step, since it holds [disk.vdisk_lock] there.  The events of a run are
    recorded, and the specification is a disk that transfers a block in one step. *)

(** ** Events, and the disk with transfers in one step *)

Inductive event :=
| ECall (t : nat) (write : bool) (blockno : Z) (data : list Z)
| ETransfer (t : nat) (write : bool) (sector : Z) (data : list Z)
| EReturn (t : nat) (data : list Z).

Inductive call_state :=
| SIdle
| SCalled (write : bool) (blockno : Z) (data : list Z)
| SMoved (data : list Z).

Record spec := Spec { sp_img : memory; sp_t : nat -> call_state }.

(** The bytes of a block. *)
Definition img_block (img : memory) (blockno : Z) : list Z :=
  bytes_at img (BSIZE * blockno) (Z.to_nat BSIZE).

Definition spec_step (σ : spec) (e : event) : option spec :=
  match e with
  | ECall t w bno data =>
      match sp_t σ t with
      | SIdle => Some (Spec (sp_img σ) (<[t := SCalled w bno data]> (sp_t σ)))
      | _ => None
      end
  | ETransfer t w sector data =>
      match sp_t σ t with
      | SCalled w' bno d =>
          if bool_decide (w = w' /\ 512 * sector = BSIZE * bno /\
                          data = (if w then d else img_block (sp_img σ) bno))
          then Some (Spec (if w then store_bytes (sp_img σ) (BSIZE * bno) d else sp_img σ)
                       (<[t := SMoved data]> (sp_t σ)))
          else None
      | _ => None
      end
  | EReturn t data =>
      match sp_t σ t with
      | SMoved d => if bool_decide (data = d) then Some (Spec (sp_img σ) (<[t := SIdle]> (sp_t σ))) else None
      | _ => None
      end
  end.

Fixpoint spec_run (σ : spec) (tr : list event) : option spec :=
  match tr with
  | [] => Some σ
  | e :: tr' => match spec_step σ e with Some σ' => spec_run σ' tr' | None => None end
  end.

(** ** The device

    As the virtio specification has it: it takes the requests that [avail] has
    new, works on them in any order, follows the chain of three descriptors,
    writes the status byte, and adds the request to [used]. *)

Definition fetch (s : vdisk) : option vdisk :=
  let d := vdev s in
  if dv_last d =? q_avail_idx (vq s) then None
  else Some (on_dev (fun d => VDevice (u16 (dv_last d + 1))
    (dv_pending d ++ [q_avail (vq s) (Z.to_nat (dv_last d mod Z.of_nat NUM))]) (dv_img d)) s).

Definition has (f : Z) (d : VRingDesc) : bool := negb (Z.land (d_flags d) f =? 0).

(** The request [id] is finished: its status byte is [i], the disk is [img]. *)
Definition complete (id i : nat) (img : memory) (s : vdisk) : vdisk :=
  on_q (fun q => VQueue (q_desc q) (q_avail q) (q_avail_idx q)
    (<[Z.to_nat (q_used_id q mod Z.of_nat NUM) := id]> (q_used q)) (u16 (q_used_id q + 1)))
  (on_dr (set_status i 0)
  (on_dev (fun d => VDevice (dv_last d) (filter (fun x => x <> id) (dv_pending d)) img) s)).

Definition serve (id : nat) (s : vdisk) : option (event * vdisk) :=
  let d0 := q_desc (vq s) id in
  let d1 := q_desc (vq s) (d_next d0) in
  let d2 := q_desc (vq s) (d_next d1) in
  match d_addr d0, d_addr d1, d_addr d2 with
  | AHdr t, AData b, AStatus i =>
      let h := vhdr s t in
      let img := dv_img (vdev s) in
      let a := 512 * h_sector h in
      if has VRING_DESC_F_NEXT d0 && has VRING_DESC_F_NEXT d1 && has VRING_DESC_F_WRITE d2
         && (d_len d0 =? 16) && (d_len d2 =? 1) then
        if (h_type h =? VIRTIO_BLK_T_OUT) && negb (has VRING_DESC_F_WRITE d1) then
          let data := firstn (Z.to_nat (d_len d1)) (vb_data (vbufs s b)) in
          Some (ETransfer t true (h_sector h) data, complete id i (store_bytes img a data) s)
        else if (h_type h =? VIRTIO_BLK_T_IN) && has VRING_DESC_F_WRITE d1 then
          let data := bytes_at img a (Z.to_nat (d_len d1)) in
          Some (ETransfer t false (h_sector h) data, complete id i img (on_buf b (set_bdata data) s))
        else None
      else None
  | _, _, _ => None
  end.

(** ** The system *)

Inductive thread :=
| TIdle
| TAsleep (b : nat) (write : bool) (k : vdisk -> outcome vdisk unit).

Record vsys := VSys { sy_s : vdisk; sy_t : nat -> thread; sy_tr : list event }.

Definition busy (y : vsys) (b : nat) : Prop := exists t w k, sy_t y t = TAsleep b w k.

(** A buffer as kernel/bio.c hands it to the driver. *)
Definition buf_ok (x : vbuf) : Prop :=
  0 <= vb_blockno x < 2 ^ 31 /\ length (vb_data x) = Z.to_nat BSIZE.

(** The thread after it has run until it sleeps or returns. *)
Definition settle (t b : nat) (w : bool) (o : outcome vdisk unit) : option (vdisk * thread * list event) :=
  match o with
  | Ret _ s => Some (s, TIdle, [EReturn t (vb_data (vbufs s b))])
  | Sleep _ s k => Some (s, TAsleep b w k, [])
  | _ => None
  end.

(** The device changes what its registers read. *)
Definition with_reg (f : mmio -> Z) (s : vdisk) : vdisk :=
  VDisk (vq s) (vdr s) (vbufs s) (vhdr s) (vdev s) f (vmmio s) (vlocks s) (vwoken s).

Section System.
Context {WK : Wakeups}.

Definition may_call (y : vsys) (t b : nat) : Prop :=
  sy_t y t = TIdle /\ ~ busy y b /\ buf_ok (vbufs (sy_s y) b).

Inductive vstep : vsys -> vsys -> Prop :=
| v_call y t b w s' x ev :
    may_call y t b ->
    settle t b w (virtio_disk_rw t b w (sy_s y)) = Some (s', x, ev) ->
    let c := ECall t w (vb_blockno (vbufs (sy_s y) b)) (vb_data (vbufs (sy_s y) b)) in
    vstep y (VSys s' (<[t := x]> (sy_t y)) (sy_tr y ++ c :: ev))
| v_wake y t b w k s' x ev :
    sy_t y t = TAsleep b w k ->
    settle t b w (k (sy_s y)) = Some (s', x, ev) ->
    vstep y (VSys s' (<[t := x]> (sy_t y)) (sy_tr y ++ ev))
| v_intr y s' :
    virtio_disk_intr (sy_s y) = Ret tt s' -> vstep y (VSys s' (sy_t y) (sy_tr y))
| v_fetch y s' : fetch (sy_s y) = Some s' -> vstep y (VSys s' (sy_t y) (sy_tr y))
| v_serve y id e s' :
    id ∈ dv_pending (vdev (sy_s y)) -> serve id (sy_s y) = Some (e, s') ->
    vstep y (VSys s' (sy_t y) (sy_tr y ++ [e]))
| v_buf y b x :
    ~ busy y b -> vb_disk x = vb_disk (vbufs (sy_s y) b) ->
    vstep y (VSys (on_buf b (fun _ => x) (sy_s y)) (sy_t y) (sy_tr y))
| v_reg y f : vstep y (VSys (with_reg f (sy_s y)) (sy_t y) (sy_tr y)).

Inductive vsteps (y : vsys) : vsys -> Prop :=
| vs_refl : vsteps y y
| vs_step y' y'' : vsteps y y' -> vstep y' y'' -> vsteps y y''.

(** Nothing goes wrong: no thread panics, the interrupt handler returns, and the
    device understands every request it has. *)
Record no_crash (y : vsys) : Prop := {
  nc_call : forall t b w msg, may_call y t b -> virtio_disk_rw t b w (sy_s y) <> Panic msg;
  nc_wake : forall t b w k msg, sy_t y t = TAsleep b w k -> k (sy_s y) <> Panic msg;
  nc_intr : exists s', virtio_disk_intr (sy_s y) = Ret tt s';
  nc_serve : forall id, id ∈ dv_pending (vdev (sy_s y)) -> exists e s', serve id (sy_s y) = Some (e, s');
}.

(** The state after [virtio_disk_init], before any call. *)
Record fresh (s : vdisk) : Prop := {
  fr_locks : vlocks s = ∅;
  fr_free : forall i, (i < NUM)%nat -> v_free (vdr s) i = true;
  fr_info : forall i, v_info (vdr s) i = None;
  fr_avail : q_avail_idx (vq s) = 0;
  fr_used : q_used_id (vq s) = 0;
  fr_used_idx : v_used_idx (vdr s) = 0;
  fr_last : dv_last (vdev s) = 0;
  fr_pending : dv_pending (vdev s) = [];
  fr_bufs : forall b, vb_disk (vbufs s b) = 0;
}.

End System.
