(* ===== verification/VirtioInv.v ===== *)
(** * The invariant of the disk driver

    Requests in flight have disjoint chains of descriptors, the rest of the
    descriptors are free, and every request is in one place: waiting in [avail],
    with the device, waiting in [used], or done. *)

From S2P Require Import Prelude Riscv Mem Sync Bio Virtio.

(** Where the code of a thread is; [n] is what is left of the bound on waits. *)
Inductive phase :=
| PIdle
| PAlloc (b : nat) (w : bool) (n : nat)
| PWait (b : nat) (w : bool) (i0 i1 i2 n : nat).

Definition uses (p : phase) : option (nat * bool) :=
  match p with PIdle => None | PAlloc b w _ => Some (b, w) | PWait b w _ _ _ _ => Some (b, w) end.
Definition idxs (p : phase) : list nat :=
  match p with PWait _ _ i0 i1 i2 _ => [i0; i1; i2] | _ => [] end.
Definition head_of (p : phase) : option nat :=
  match p with PWait _ _ i0 _ _ _ => Some i0 | _ => None end.

Section Inv.
Context {WK : Wakeups}.

(** What the thread does when it is woken. *)
Definition phase_code (t : nat) (p : phase) (sector : Z) : M vdisk unit :=
  match p with
  | PIdle => nofuel
  | PAlloc b w n =>
      acquire LVdisk ;;
      let! idx := rw_alloc n in
      rw_publish t b w sector idx ;;
      rw_wait (S max_wakeups) b ;;
      rw_done idx.1.1
  | PWait b w i0 i1 i2 n => acquire LVdisk ;; rw_wait n b ;; rw_done i0
  end.

(** The chain of a request in the queue. *)
Record chain (s : vdisk) (t b : nat) (w : bool) (i0 i1 i2 : nat) : Prop := {
  ch_hdr : vhdr s t = OutHdr (if w then VIRTIO_BLK_T_OUT else VIRTIO_BLK_T_IN) 0
             (2 * vb_blockno (vbufs s b));
  ch_d0 : q_desc (vq s) i0 = Desc (AHdr t) 16 VRING_DESC_F_NEXT i1;
  ch_d1 : q_desc (vq s) i1 = Desc (AData b) BSIZE
            (Z.lor (if w then 0 else VRING_DESC_F_WRITE) VRING_DESC_F_NEXT) i2;
  ch_d2 : q_desc (vq s) i2 = Desc (AStatus i0) 1 VRING_DESC_F_WRITE 0;
  ch_info : v_info (vdr s) i0 = Some b;
  ch_status : v_status (vdr s) i0 = 0;
  ch_distinct : NoDup [i0; i1; i2];
}.

(** The part of a ring of [NUM] entries that holds the list [l], from [from]. *)
Definition window (ring : nat -> nat) (from : Z) (l : list nat) : Prop :=
  forall k x, l !! k = Some x -> ring (Z.to_nat ((from + Z.of_nat k) mod Z.of_nat NUM)) = x.

(** [A] are the requests in [avail] the device has not seen, [U] those in [used]
    the interrupt handler has not. *)
Record queues (s : vdisk) (A U : list nat) : Prop := {
  qu_last : 0 <= dv_last (vdev s) < 2 ^ 16;
  qu_avail : q_avail_idx (vq s) = u16 (dv_last (vdev s) + Z.of_nat (length A));
  qu_awin : window (q_avail (vq s)) (dv_last (vdev s)) A;
  qu_used : v_used_idx (vdr s) = (q_used_id (vq s) - Z.of_nat (length U)) mod Z.of_nat NUM;
  qu_uwin : window (q_used (vq s)) (v_used_idx (vdr s)) U;
}.

(** What a thread is to the specification: [early] says its request is still to
    be served. *)
Definition stage (s : vdisk) (p : phase) (early : nat -> Prop) (x : call_state) : Prop :=
  match p with
  | PIdle => x = SIdle
  | PAlloc b w _ => x = SCalled w (vb_blockno (vbufs s b)) (vb_data (vbufs s b))
  | PWait b w i0 _ _ _ =>
      (early i0 /\ x = SCalled w (vb_blockno (vbufs s b)) (vb_data (vbufs s b))) \/
      (~ early i0 /\ x = SMoved (vb_data (vbufs s b)))
  end.

Record inv (s : vdisk) (ph : nat -> phase) (σ : spec) (A U : list nat) : Prop := {
  iv_locks : vlocks s = ∅;
  iv_bufs : forall t t' b w w', uses (ph t) = Some (b, w) -> uses (ph t') = Some (b, w') -> t = t';
  iv_buf : forall t b w, uses (ph t) = Some (b, w) -> buf_ok (vbufs s b);
  iv_chain : forall t b w i0 i1 i2 n, ph t = PWait b w i0 i1 i2 n -> chain s t b w i0 i1 i2;
  iv_disj : forall t t' i, i ∈ idxs (ph t) -> i ∈ idxs (ph t') -> t = t';
  iv_free : forall i, (i < NUM)%nat -> (v_free (vdr s) i = false <-> exists t, i ∈ idxs (ph t));
  iv_idx : forall t i, i ∈ idxs (ph t) -> (i < NUM)%nat;
  iv_queues : queues s A U;
  iv_nodup : NoDup (A ++ dv_pending (vdev s) ++ U);
  iv_heads : forall i, i ∈ A ++ dv_pending (vdev s) ++ U -> exists t, head_of (ph t) = Some i;
  iv_done : forall t b w i0 i1 i2 n, ph t = PWait b w i0 i1 i2 n ->
    (i0 ∈ A ++ dv_pending (vdev s) ++ U <-> vb_disk (vbufs s b) = 1);
  iv_stage : forall t, stage s (ph t) (fun i => i ∈ A ++ dv_pending (vdev s)) (sp_t σ t);
  iv_img : sp_img σ = dv_img (vdev s);
}.

(** ** Descriptors *)

Lemma alloc_scan_ok n i s :
  (exists j, (i <= j < i + n)%nat /\ v_free (vdr s) j = true /\
     alloc_scan n i s = Ret (Some j) (on_dr (set_free j false) s)) \/
  (alloc_scan n i s = Ret None s /\ forall j, (i <= j < i + n)%nat -> v_free (vdr s) j = false).
Proof.
  revert i. induction n as [|n IH]; intros i; cbn [alloc_scan]; [right; split; [done | lia]|].
  mstep. destruct (v_free (vdr s) i) eqn:E.
  - left. exists i. split_and!; [lia | lia | done | done].
  - destruct (IH (S i)) as [(j & ? & ? & ->) | [-> F]]; [left; exists j; split_and!; try done; lia|].
    right. split; [done|]. intros j Hj. destruct (decide (j = i)) as [->|]; [done|]. apply F. lia.
Qed.

Lemma alloc_desc_ok s :
  (exists j, (j < NUM)%nat /\ v_free (vdr s) j = true /\
     alloc_desc s = Ret (Some j) (on_dr (set_free j false) s)) \/
  (alloc_desc s = Ret None s /\ forall j, (j < NUM)%nat -> v_free (vdr s) j = false).
Proof.
  destruct (alloc_scan_ok NUM 0 s) as [(j & ? & ? & E) | [E F]]; [left; exists j; split_and!; try done; lia|].
  right. split; [done|]. intros j Hj. apply F. lia.
Qed.

(** A descriptor given back. *)
Definition freed (i : nat) (s : vdisk) : vdisk :=
  lput (ChanDiskFree :: vwoken s) (on_dr (set_free i true) (on_q (clear_addr i) s)).

Lemma free_desc_ok i s :
  (i < NUM)%nat -> v_free (vdr s) i = false -> free_desc i s = Ret tt (freed i s).
Proof.
  intros Hi Hf. unfold free_desc. rewrite (proj2 (Nat.leb_gt _ _) Hi). mstep. by rewrite Hf.
Qed.

(** States that differ only in descriptors that are free. *)
Record quiet (s s' : vdisk) : Prop := {
  qt_free : forall i, v_free (vdr s') i = v_free (vdr s) i;
  qt_desc : forall i, v_free (vdr s) i = false -> q_desc (vq s') i = q_desc (vq s) i;
  qt_rest : q_avail (vq s') = q_avail (vq s) /\ q_avail_idx (vq s') = q_avail_idx (vq s) /\
    q_used (vq s') = q_used (vq s) /\ q_used_id (vq s') = q_used_id (vq s) /\
    v_used_idx (vdr s') = v_used_idx (vdr s) /\ v_info (vdr s') = v_info (vdr s) /\
    v_status (vdr s') = v_status (vdr s) /\ vbufs s' = vbufs s /\ vhdr s' = vhdr s /\
    vdev s' = vdev s /\ vlocks s' = vlocks s;
}.

Lemma inv_quiet s s' ph σ A U : quiet s s' -> inv s ph σ A U -> inv s' ph σ A U.
Proof.
  intros [Qf Qd (Q1 & Q2 & Q3 & Q4 & Q5 & Q6 & Q7 & Q8 & Q9 & Q10 & Q11)] I. destruct I.
  split; rewrite ?Q8, ?Q10, ?Q11; try done.
  - intros t b w i0 i1 i2 n Ht.
    assert (forall i, i ∈ [i0; i1; i2] -> q_desc (vq s') i = q_desc (vq s) i) as D.
    { intros i Hi. apply Qd. assert (i ∈ idxs (ph t)) as Hi' by (by rewrite Ht).
      apply iv_free0; [by eapply iv_idx0 | by exists t]. }
    destruct (iv_chain0 _ _ _ _ _ _ _ Ht). split; rewrite ?Q6, ?Q7, ?Q8, ?Q9, ?D by set_solver; done.
  - intros i Hi. rewrite Qf. by apply iv_free0.
  - destruct iv_queues0. split; rewrite ?Q1, ?Q2, ?Q3, ?Q4, ?Q5, ?Q10; done.
  - intros t. pose proof (iv_stage0 t) as Hs. unfold stage in *. destruct (ph t); by rewrite ?Q8.
Qed.

Lemma quiet_refl s : quiet s s.
Proof. by split. Qed.

(** Allocating descriptors and giving them back. *)
Lemma quiet_back1 i s :
  v_free (vdr s) i = true -> quiet s (freed i (on_dr (set_free i false) s)).
Proof.
  intros Hf. split; [| |done].
  - intros j. cbn. destruct (decide (i = j)) as [->|]; [by rewrite fn_lookup_insert|].
    by rewrite !fn_lookup_insert_ne.
  - intros j Hj. cbn. rewrite fn_lookup_insert_ne; [done|]. congruence.
Qed.

Lemma quiet_back2 i j s :
  v_free (vdr s) i = true -> v_free (vdr s) j = true -> i <> j ->
  quiet s (freed j (freed i (on_dr (set_free j false) (on_dr (set_free i false) s)))).
Proof.
  intros Hi Hj Hn. split; [| |done].
  - intros k. cbn. destruct (decide (j = k)) as [->|]; [by rewrite fn_lookup_insert|].
    rewrite fn_lookup_insert_ne by done. destruct (decide (i = k)) as [->|]; [by rewrite fn_lookup_insert|].
    by rewrite !fn_lookup_insert_ne.
  - intros k Hk. cbn. rewrite !fn_lookup_insert_ne by congruence. done.
Qed.

Definition taken3 (i0 i1 i2 : nat) (s : vdisk) : vdisk :=
  on_dr (set_free i2 false) (on_dr (set_free i1 false) (on_dr (set_free i0 false) s)).

Lemma alloc3_ok s :
  (exists i0 i1 i2, NoDup [i0; i1; i2] /\
     (forall i, i ∈ [i0; i1; i2] -> (i < NUM)%nat /\ v_free (vdr s) i = true) /\
     alloc3_desc s = Ret (Some (i0, i1, i2)) (taken3 i0 i1 i2 s)) \/
  (exists s', alloc3_desc s = Ret None s' /\ quiet s s').
Proof.
  unfold alloc3_desc. destruct (alloc_desc_ok s) as [(i0 & L0 & F0 & E0) | [E0 _]]; rewrite (bind_ret _ _ _ _ _ E0).
  2:{ right. exists s. split; [done | apply quiet_refl]. }
  set (s1 := on_dr _ s) in *. destruct (alloc_desc_ok s1) as [(i1 & L1 & F1 & E1) | [E1 _]]; rewrite (bind_ret _ _ _ _ _ E1).
  2:{ right. exists (freed i0 s1). split; [|by apply quiet_back1].
      rewrite (bind_ret _ _ _ _ _ (free_desc_ok i0 s1 L0 (fn_lookup_insert _ _ _))). done. }
  assert (i0 <> i1) as N01 by (intros ->; cbn in F1; by rewrite fn_lookup_insert in F1).
  cbn in F1. rewrite fn_lookup_insert_ne in F1 by done.
  set (s2 := on_dr _ s1) in *. destruct (alloc_desc_ok s2) as [(i2 & L2 & F2 & E2) | [E2 _]]; rewrite (bind_ret _ _ _ _ _ E2).
  2:{ right. exists (freed i1 (freed i0 s2)). split; [|by apply quiet_back2].
      erewrite bind_ret; [erewrite bind_ret; [done|]|]; apply free_desc_ok; try done; cbn.
      - by rewrite fn_lookup_insert_ne, fn_lookup_insert by done.
      - by rewrite fn_lookup_insert_ne, fn_lookup_insert by done. }
  assert (i1 <> i2) as N12 by (intros ->; cbn in F2; by rewrite fn_lookup_insert in F2).
  cbn in F2. rewrite fn_lookup_insert_ne in F2 by done.
  assert (i0 <> i2) as N02 by (intros ->; cbn in F2; by rewrite fn_lookup_insert in F2).
  rewrite fn_lookup_insert_ne in F2 by done.
  left. exists i0, i1, i2. split_and!; [|set_solver|done].
  repeat (apply NoDup_cons; split; [set_solver|]). constructor.
Qed.

(** ** Publishing a request *)

Definition published (me b : nat) (w : bool) (sector : Z) (i0 i1 i2 : nat) (s : vdisk) : vdisk :=
  VDisk
    (VQueue
      (<[i2 := Desc (AStatus i0) 1 VRING_DESC_F_WRITE 0]>
        (<[i1 := Desc (AData b) BSIZE (Z.lor (if w then 0 else VRING_DESC_F_WRITE) VRING_DESC_F_NEXT) i2]>
          (<[i0 := Desc (AHdr me) 16 VRING_DESC_F_NEXT i1]> (q_desc (vq s)))))
      (<[Z.to_nat (q_avail_idx (vq s) mod Z.of_nat NUM) := i0]> (q_avail (vq s)))
      (u16 (q_avail_idx (vq s) + 1)) (q_used (vq s)) (q_used_id (vq s)))
    (VDriver (v_free (vdr s)) (v_used_idx (vdr s)) (<[i0 := Some b]> (v_info (vdr s)))
      (<[i0 := 0]> (v_status (vdr s))))
    (<[b := set_bdisk 1 (vbufs s b)]> (vbufs s))
    (<[me := OutHdr (if w then VIRTIO_BLK_T_OUT else VIRTIO_BLK_T_IN) 0 sector]> (vhdr s))
    (vdev s) (vreg s) ((mmio_addr VIRTIO_MMIO_QUEUE_NOTIFY, u32 0) :: vmmio s) (vlocks s) (vwoken s).

Lemma rw_publish_ok me b w sector i0 i1 i2 s :
  rw_publish me b w sector (i0, i1, i2) s = Ret tt (published me b w sector i0 i1 i2 s).
Proof. done. Qed.

(** Rings *)

Lemma ring_ne (from : Z) (k l : nat) :
  (k < l < NUM)%nat ->
  Z.to_nat ((from + Z.of_nat l) mod Z.of_nat NUM) <> Z.to_nat ((from + Z.of_nat k) mod Z.of_nat NUM).
Proof.
  intros H E. change (Z.of_nat NUM) with 8 in E. assert (l < 8)%nat by (unfold NUM in H; lia).
  apply Z2Nat.inj in E; [|apply Z.mod_pos_bound; lia..]. Z.to_euclidean_division_equations. lia.
Qed.

Lemma window_snoc ring from l x :
  (length l < NUM)%nat -> window ring from l ->
  window (<[Z.to_nat ((from + Z.of_nat (length l)) mod Z.of_nat NUM) := x]> ring) from (l ++ [x]).
Proof.
  intros Hl W k y Hk. destruct (decide (k < length l)%nat).
  - rewrite lookup_app_l in Hk by done. rewrite fn_lookup_insert_ne; [by apply W|]. by apply ring_ne.
  - apply lookup_snoc_Some in Hk as [[? _]|[-> ->]]; [lia|]. by rewrite fn_lookup_insert.
Qed.

Lemma u16_mod8 x : u16 x mod Z.of_nat NUM = x mod Z.of_nat NUM.
Proof.
  unfold u16. change (Z.of_nat NUM) with 8. change (2 ^ 16) with 65536.
  Z.to_euclidean_division_equations. lia.
Qed.

(** Descriptors that are free belong to no request. *)
Lemma free_not_used s ph σ A U i t :
  inv s ph σ A U -> (i < NUM)%nat -> v_free (vdr s) i = true -> i ∉ idxs (ph t).
Proof.
  intros I Hi Hf Hin. assert (v_free (vdr s) i = false) by (apply (iv_free _ _ _ _ _ I); eauto). congruence.
Qed.

Lemma head_idx p i : head_of p = Some i -> i ∈ idxs p.
Proof. destruct p; intros [= ->]. left. Qed.

Lemma heads_short s ph σ A U (l : list nat) :
  inv s ph σ A U -> NoDup (l ++ (A ++ dv_pending (vdev s) ++ U)) ->
  Forall (fun i => (i < NUM)%nat) l ->
  (length l + length (A ++ dv_pending (vdev s) ++ U) <= NUM)%nat.
Proof.
  intros I ND F. rewrite <- length_app. rewrite <- (length_seq NUM 0).
  apply submseteq_length, NoDup_submseteq; [done|]. intros x Hx. apply elem_of_seq.
  apply elem_of_app in Hx as [Hx|Hx]; [rewrite Forall_forall in F; specialize (F x Hx); lia|].
  destruct (iv_heads _ _ _ _ _ I x Hx) as (t & Ht%head_idx).
  pose proof (iv_idx _ _ _ _ _ I t x Ht). lia.
Qed.

Lemma publish_chain s ph σ A U t b w n i0 i1 i2 m L :
  inv s ph σ A U -> ph t = PAlloc b w n -> NoDup [i0; i1; i2] ->
  (forall i, i ∈ [i0; i1; i2] -> (i < NUM)%nat /\ v_free (vdr s) i = true) ->
  let s' := lput ∅ (published t b w (2 * vb_blockno (vbufs s b)) i0 i1 i2 (taken3 i0 i1 i2 (lput (L : lockset) s))) in
  forall t' b' w' j0 j1 j2 n', <[t := PWait b w i0 i1 i2 m]> ph t' = PWait b' w' j0 j1 j2 n' ->
  chain s' t' b' w' j0 j1 j2.
Proof.
  intros I Ht ND F s' t' b' w' j0 j1 j2 n' Hp.
  apply NoDup_cons in ND as [N0 ND]. pose proof ND as [N1 _]%NoDup_cons.
  assert (i0 <> i1 /\ i0 <> i2 /\ i1 <> i2) as (? & ? & ?) by set_solver.
  destruct (decide (t = t')) as [<-|Hne].
  - rewrite fn_lookup_insert in Hp. injection Hp as <- <- <- <- <- <-. split; cbn.
    + by rewrite !fn_lookup_insert.
    + by rewrite !fn_lookup_insert_ne, fn_lookup_insert by congruence.
    + by rewrite fn_lookup_insert_ne, fn_lookup_insert by congruence.
    + by rewrite fn_lookup_insert.
    + by rewrite fn_lookup_insert.
    + by rewrite fn_lookup_insert.
    + by apply NoDup_cons.
  - rewrite fn_lookup_insert_ne in Hp by done. destruct (iv_chain _ _ _ _ _ I _ _ _ _ _ _ _ Hp).
    assert (b <> b') as Nb.
    { intros <-. apply Hne. eapply (iv_bufs _ _ _ _ _ I); [by rewrite Ht | by rewrite Hp]. }
    assert (forall j, j ∈ [j0; j1; j2] -> j <> i0 /\ j <> i1 /\ j <> i2) as Nj.
    { intros j Hj. assert (forall i, i ∈ [i0; i1; i2] -> j <> i) as Hn.
      { intros i Hi ->. destruct (F i Hi) as [? ?]. apply (free_not_used _ _ _ _ _ i t' I); [done | done | by rewrite Hp]. }
      split_and!; apply Hn; set_solver. }
    destruct (Nj j0) as (? & ? & ?); [set_solver|]. destruct (Nj j1) as (? & ? & ?); [set_solver|].
    destruct (Nj j2) as (? & ? & ?); [set_solver|].
    split; cbn; rewrite ?fn_lookup_insert_ne by congruence; done.
Qed.

(** The descriptors in use after [t] has taken three. *)
Lemma publish_idx s ph σ A U t p i0 i1 i2 :
  inv s ph σ A U -> idxs (ph t) = [] -> idxs p = [i0; i1; i2] ->
  (forall i, i ∈ [i0; i1; i2] -> (i < NUM)%nat /\ v_free (vdr s) i = true) ->
  (forall t1 t2 i, i ∈ idxs (<[t := p]> ph t1) -> i ∈ idxs (<[t := p]> ph t2) -> t1 = t2) /\
  (forall i, (i < NUM)%nat -> (v_free (vdr (taken3 i0 i1 i2 s)) i = false <-> exists t', i ∈ idxs (<[t := p]> ph t'))) /\
  (forall t' i, i ∈ idxs (<[t := p]> ph t') -> (i < NUM)%nat).
Proof.
  intros I Ht Ep F. assert (forall i t', i ∈ [i0; i1; i2] -> i ∉ idxs (ph t')) as N
    by (intros i t' Hi; destruct (F i Hi); by eapply free_not_used).
  assert (forall i t', i ∈ idxs (<[t := p]> ph t') <-> (t' = t /\ i ∈ [i0; i1; i2]) \/ i ∈ idxs (ph t')) as E.
  { intros i t'. destruct (decide (t = t')) as [<-|].
    - rewrite fn_lookup_insert, Ep, Ht. set_solver.
    - rewrite fn_lookup_insert_ne by done. naive_solver. }
  split_and!.
  - intros t1 t2 i. rewrite !E. intros [[-> H1]|H1] [[-> H2]|H2]; [done | by destruct (N i t2) | by destruct (N i t1) |].
    by eapply (iv_disj _ _ _ _ _ I).
  - intros i Hi. pose proof (iv_free _ _ _ _ _ I i Hi) as Fi. cbn.
    destruct (decide (i ∈ [i0; i1; i2])) as [Hin|Hin].
    + split; [intros _; exists t; apply E; auto | intros _].
      destruct (decide (i2 = i)) as [->|]; [by rewrite fn_lookup_insert|]. rewrite fn_lookup_insert_ne by done.
      destruct (decide (i1 = i)) as [->|]; [by rewrite fn_lookup_insert|]. rewrite fn_lookup_insert_ne by done.
      assert (i0 = i) as -> by set_solver. by rewrite fn_lookup_insert.
    + rewrite !fn_lookup_insert_ne by set_solver. rewrite Fi. setoid_rewrite E. naive_solver.
  - intros t' i [[-> Hi]|Hi]%E; [by apply F | by eapply (iv_idx _ _ _ _ _ I)].
Qed.

(** Other threads have other buffers. *)
Lemma other_buf s ph σ A U t b w :
  inv s ph σ A U -> uses (ph t) = Some (b, w) ->
  forall t' b' w', t <> t' -> uses (ph t') = Some (b', w') -> b <> b'.
Proof. intros I Hu t' b' w' Hne Hu' <-. by eapply Hne, (iv_bufs _ _ _ _ _ I). Qed.

(** The stage of a thread depends on its buffer and on the place of its request. *)
Lemma stage_ext s s' p (early early' : nat -> Prop) x :
  (forall b w, uses p = Some (b, w) -> vb_blockno (vbufs s' b) = vb_blockno (vbufs s b) /\
     vb_data (vbufs s' b) = vb_data (vbufs s b)) ->
  (forall i, head_of p = Some i -> early' i <-> early i) ->
  stage s p early x -> stage s' p early' x.
Proof.
  intros HB HE. destruct p as [|b w n|b w i0 i1 i2 n]; cbn; [done| |].
  - by destruct (HB b w eq_refl) as [-> ->].
  - destruct (HB b w eq_refl) as [-> ->]. by rewrite (HE i0 eq_refl).
Qed.

Lemma inv_publish s ph σ A U t b w n i0 i1 i2 m L :
  inv s ph σ A U -> ph t = PAlloc b w n -> NoDup [i0; i1; i2] ->
  (forall i, i ∈ [i0; i1; i2] -> (i < NUM)%nat /\ v_free (vdr s) i = true) ->
  inv (lput ∅ (published t b w (2 * vb_blockno (vbufs s b)) i0 i1 i2 (taken3 i0 i1 i2 (lput (L : lockset) s))))
    (<[t := PWait b w i0 i1 i2 m]> ph) σ (A ++ [i0]) U.
Proof.
  intros I Ht ND F. pose proof (publish_chain _ _ _ _ _ _ _ _ _ _ _ _ m L I Ht ND F) as HC.
  destruct (publish_idx s ph σ A U t (PWait b w i0 i1 i2 m) i0 i1 i2 I) as (HD & HF & HX); [by rewrite Ht | done | done |].
  pose proof (other_buf _ _ _ _ _ t b w I ltac:(by rewrite Ht)) as NB.
  destruct (F i0) as [Hi0 Hf0]; [left|].
  assert (i0 ∉ A ++ dv_pending (vdev s) ++ U) as Nq.
  { intros (t' & Ht'%head_idx)%(iv_heads _ _ _ _ _ I). by eapply free_not_used. }
  assert (length A < NUM)%nat as HA.
  { pose proof (heads_short s ph σ A U [i0] I) as Hs. rewrite !length_app in Hs. cbn in Hs.
    assert (1 + (length A + (length (dv_pending (vdev s)) + length U)) <= NUM)%nat; [|lia].
    apply Hs; [apply NoDup_cons; split; [done | apply I] | by constructor]. }
  assert (forall t', uses (<[t := PWait b w i0 i1 i2 m]> ph t') = uses (ph t')) as EU.
  { intros t'. destruct (decide (t = t')) as [<-|]; [by rewrite fn_lookup_insert, Ht | by rewrite fn_lookup_insert_ne]. }
  destruct I. split; try done.
  - intros t1 t2 b' w1 w2. rewrite !EU. eauto.
  - intros t' b' w'. rewrite EU. intros Hu. cbn. destruct (decide (b = b')) as [<-|].
    + rewrite fn_lookup_insert. apply (iv_buf0 t' b w' Hu).
    + rewrite fn_lookup_insert_ne by done. by eapply iv_buf0.
  - destruct iv_queues0 as [Q1 Q2 Q3 Q4 Q5]. split; try done; cbn.
    + rewrite Q2, length_app. unfold u16. rewrite Zplus_mod_idemp_l. f_equal. cbn. lia.
    + rewrite Q2, u16_mod8. by apply window_snoc.
  - rewrite <- app_assoc. cbn [app lput vdisk_locks published taken3 vdev]. rewrite <- Permutation_middle. by apply NoDup_cons.
  - intros i Hi. cbn in Hi. assert (i = i0 \/ i ∈ A ++ dv_pending (vdev s) ++ U) as [->|Hq] by set_solver.
    + exists t. by rewrite fn_lookup_insert.
    + destruct (iv_heads0 i Hq) as (t' & Ht'). exists t'. rewrite fn_lookup_insert_ne; [done|].
      intros <-. by rewrite Ht in Ht'.
  - intros t' b' w' j0 j1 j2 n' Hp. cbn. destruct (decide (t = t')) as [<-|Hne].
    + rewrite fn_lookup_insert in Hp. injection Hp as <- <- <- <- <- <-. rewrite fn_lookup_insert. set_solver.
    + rewrite fn_lookup_insert_ne in Hp by done.
      rewrite fn_lookup_insert_ne by (eapply NB; [exact Hne | by rewrite Hp]).
      rewrite <- (iv_done0 _ _ _ _ _ _ _ Hp). assert (j0 <> i0); [|set_solver].
      intros ->. apply (free_not_used s ph σ A U i0 t'); [by split | done | done | rewrite Hp; left].
  - intros t'. destruct (decide (t = t')) as [<-|Hne].
    + rewrite fn_lookup_insert. specialize (iv_stage0 t). rewrite Ht in iv_stage0. cbn in *.
      left. rewrite fn_lookup_insert. split; [set_solver | done].
    + rewrite fn_lookup_insert_ne by done. eapply stage_ext; [| |apply iv_stage0].
      * intros b' w' Hu. cbn. rewrite fn_lookup_insert_ne by (by eapply NB). done.
      * intros i Hi%head_idx. cbn. assert (i <> i0); [|set_solver].
        intros ->. apply (free_not_used s ph σ A U i0 t'); [by split | done | done | done].
Qed.

(** ** A request that is done *)

Definition freed3 (i0 i1 i2 : nat) (s : vdisk) : vdisk := freed i2 (freed i1 (freed i0 s)).

Lemma free_chain_step n i s :
  (i < NUM)%nat -> v_free (vdr s) i = false ->
  free_chain (S n) i s =
  if has VRING_DESC_F_NEXT (q_desc (vq s) i) then free_chain n (d_next (q_desc (vq s) i)) (freed i s)
  else Ret tt (freed i s).
Proof.
  intros Hi Hf. cbn [free_chain]. erewrite bind_ret by (by apply free_desc_ok). mstep.
  cbn [freed lput vdisk_woken on_dr on_q clear_addr vq set_desc q_desc]. rewrite fn_lookup_insert.
  unfold has. cbn [d_flags d_next]. by destruct (negb _).
Qed.

Lemma free_chain_ok s t b (w : bool) i0 i1 i2 n :
  q_desc (vq s) i0 = Desc (AHdr t) 16 VRING_DESC_F_NEXT i1 ->
  q_desc (vq s) i1 = Desc (AData b) BSIZE (Z.lor (if w then 0 else VRING_DESC_F_WRITE) VRING_DESC_F_NEXT) i2 ->
  q_desc (vq s) i2 = Desc (AStatus i0) 1 VRING_DESC_F_WRITE 0 -> NoDup [i0; i1; i2] ->
  (forall i, i ∈ [i0; i1; i2] -> (i < NUM)%nat /\ v_free (vdr s) i = false) ->
  free_chain (S (S (S n))) i0 s = Ret tt (freed3 i0 i1 i2 s).
Proof.
  intros D0 D1 D2 ND F. apply NoDup_cons in ND as [N0 [N1 _]%NoDup_cons].
  assert (i0 <> i1 /\ i0 <> i2 /\ i1 <> i2) as (? & ? & ?) by set_solver.
  destruct (F i0) as [? ?]; [set_solver|]. destruct (F i1) as [? ?]; [set_solver|]. destruct (F i2) as [? ?]; [set_solver|].
  rewrite free_chain_step, D0 by done. cbn [d_next has d_flags].
  change (has VRING_DESC_F_NEXT (Desc (AHdr t) 16 VRING_DESC_F_NEXT i1)) with true. cbn iota.
  rewrite free_chain_step by (cbn; rewrite ?fn_lookup_insert_ne; done).
  replace (q_desc (vq (freed i0 s)) i1) with (q_desc (vq s) i1) by (cbn; by rewrite fn_lookup_insert_ne).
  rewrite D1. replace (has VRING_DESC_F_NEXT _) with true by (by destruct w). cbn [d_next].
  rewrite free_chain_step by (cbn; rewrite ?fn_lookup_insert_ne; done).
  replace (q_desc (vq (freed i1 (freed i0 s))) i2) with (q_desc (vq s) i2) by (cbn; by rewrite !fn_lookup_insert_ne).
  by rewrite D2.
Qed.

Definition ended (i0 i1 i2 : nat) (s : vdisk) : vdisk :=
  freed3 i0 i1 i2 (on_dr (set_info i0 None) s).

Lemma rw_done_ok s ph σ A U t b w i0 i1 i2 n :
  inv s ph σ A U -> ph t = PWait b w i0 i1 i2 n ->
  rw_done i0 (lput ({[LVdisk]} : lockset) s) = Ret tt (lput (∅ : lockset) (ended i0 i1 i2 s)).
Proof.
  intros I Ht. destruct (iv_chain _ _ _ _ _ I _ _ _ _ _ _ _ Ht).
  assert (forall i, i ∈ [i0; i1; i2] -> (i < NUM)%nat /\ v_free (vdr s) i = false) as F.
  { intros i Hi. assert (i ∈ idxs (ph t)) as Hi' by (by rewrite Ht).
    pose proof (iv_idx _ _ _ _ _ I t i Hi'). split; [done|]. apply (iv_free _ _ _ _ _ I); eauto. }
  unfold rw_done. mstep. erewrite bind_ret; [|by eapply (free_chain_ok _ t b w i0 i1 i2)].
  by rewrite release_ok by (cbn; set_solver).
Qed.

Lemma end_chain s ph σ A U t b w i0 i1 i2 n :
  inv s ph σ A U -> ph t = PWait b w i0 i1 i2 n ->
  forall t' b' w' j0 j1 j2 n', <[t := PIdle]> ph t' = PWait b' w' j0 j1 j2 n' ->
  chain (lput (∅ : lockset) (ended i0 i1 i2 s)) t' b' w' j0 j1 j2.
Proof.
  intros I Ht t' b' w' j0 j1 j2 n' Hp.
  destruct (decide (t = t')) as [<-|Hne]; [by rewrite fn_lookup_insert in Hp|].
  rewrite fn_lookup_insert_ne in Hp by done. destruct (iv_chain _ _ _ _ _ I _ _ _ _ _ _ _ Hp).
  assert (forall j, j ∈ [j0; j1; j2] -> j <> i0 /\ j <> i1 /\ j <> i2) as Nj.
  { intros j Hj. assert (forall i, i ∈ [i0; i1; i2] -> j <> i) as Hn.
    { intros i Hi ->. apply Hne. eapply (iv_disj _ _ _ _ _ I t t' i); [by rewrite Ht | by rewrite Hp]. }
    split_and!; apply Hn; set_solver. }
  destruct (Nj j0) as (? & ? & ?); [set_solver|]. destruct (Nj j1) as (? & ? & ?); [set_solver|].
  destruct (Nj j2) as (? & ? & ?); [set_solver|].
  split; cbn; rewrite ?fn_lookup_insert_ne by congruence; done.
Qed.

Lemma end_idx s ph σ A U t b w i0 i1 i2 n :
  inv s ph σ A U -> ph t = PWait b w i0 i1 i2 n ->
  forall i, (i < NUM)%nat ->
  (v_free (vdr (lput (∅ : lockset) (ended i0 i1 i2 s))) i = false <-> exists t', i ∈ idxs (<[t := PIdle]> ph t')).
Proof.
  intros I Ht i Hi. pose proof (iv_free _ _ _ _ _ I i Hi) as Fi. cbn.
  assert (forall t', i ∈ idxs (<[t := PIdle]> ph t') <-> t' <> t /\ i ∈ idxs (ph t')) as E.
  { intros t'. destruct (decide (t = t')) as [<-|]; [rewrite fn_lookup_insert; set_solver|].
    rewrite fn_lookup_insert_ne by done. naive_solver. }
  setoid_rewrite E. destruct (decide (i ∈ [i0; i1; i2])) as [Hin|Hin].
  - split; [|intros (t' & Hne & Ht'); destruct Hne; eapply (iv_disj _ _ _ _ _ I); [done | by rewrite Ht]].
    destruct (decide (i2 = i)) as [->|]; [by rewrite fn_lookup_insert|]. rewrite fn_lookup_insert_ne by done.
    destruct (decide (i1 = i)) as [->|]; [by rewrite fn_lookup_insert|]. rewrite fn_lookup_insert_ne by done.
    assert (i0 = i) as -> by set_solver. by rewrite fn_lookup_insert.
  - rewrite !fn_lookup_insert_ne by set_solver. rewrite Fi. split; intros (t' & Ht'); [|naive_solver].
    exists t'. split; [|done]. intros ->. by rewrite Ht in Ht'.
Qed.

Lemma inv_end s ph σ A U t b w i0 i1 i2 n :
  inv s ph σ A U -> ph t = PWait b w i0 i1 i2 n -> vb_disk (vbufs s b) <> 1 ->
  sp_t σ t = SMoved (vb_data (vbufs s b)) /\
  inv (lput (∅ : lockset) (ended i0 i1 i2 s)) (<[t := PIdle]> ph) (Spec (sp_img σ) (<[t := SIdle]> (sp_t σ))) A U.
Proof.
  intros I Ht Hd. pose proof (end_chain _ _ _ _ _ _ _ _ _ _ _ _ I Ht) as HC.
  pose proof (end_idx _ _ _ _ _ _ _ _ _ _ _ _ I Ht) as HF.
  assert (i0 ∉ A ++ dv_pending (vdev s) ++ U) as Nq by (by rewrite (iv_done _ _ _ _ _ I _ _ _ _ _ _ _ Ht)).
  assert (forall t', t' <> t -> <[t := PIdle]> ph t' = ph t') as EP by (intros; by rewrite fn_lookup_insert_ne).
  assert (forall t' x, uses (<[t := PIdle]> ph t') = Some x -> uses (ph t') = Some x) as EU.
  { intros t' x. destruct (decide (t = t')) as [<-|]; [by rewrite fn_lookup_insert | by rewrite fn_lookup_insert_ne]. }
  assert (forall t' i, i ∈ idxs (<[t := PIdle]> ph t') -> i ∈ idxs (ph t')) as EI.
  { intros t' i. destruct (decide (t = t')) as [<-|]; [rewrite fn_lookup_insert; set_solver | by rewrite fn_lookup_insert_ne]. }
  destruct I as [VL VB VF VC VD VR VX VQ VN VH VW VS VI]. split; [|split].
  - pose proof (VS t) as Hs. rewrite Ht in Hs. destruct Hs as [[He _]|[_ ->]]; [|reflexivity]. set_solver.
  - reflexivity.
  - eauto.
  - intros t' b' w' Hu. exact (VF t' b' w' (EU _ _ Hu)).
  - exact HC.
  - eauto.
  - exact HF.
  - eauto.
  - destruct VQ as [Q1 Q2 Q3 Q4 Q5]. split; [exact Q1 | exact Q2 | exact Q3 | exact Q4 | exact Q5].
  - exact VN.
  - intros i Hi. destruct (VH i Hi) as (t' & Ht'). exists t'. rewrite EP; [exact Ht'|].
    intros ->. rewrite Ht in Ht'. injection Ht' as ->. exact (Nq Hi).
  - intros t' b' w' j0 j1 j2 n' Hp. destruct (decide (t = t')) as [<-|]; [by rewrite fn_lookup_insert in Hp|].
    rewrite EP in Hp by done. exact (VW _ _ _ _ _ _ _ Hp).
  - intros t'. cbn [sp_t]. destruct (decide (t = t')) as [<-|]; [by rewrite !fn_lookup_insert|].
    rewrite EP, fn_lookup_insert_ne by done. eapply stage_ext; [| |exact (VS t')]; [intros; split; reflexivity | intros; reflexivity].
  - exact VI.
Qed.

End Inv.
