(* ===== verification/VirtioDev.v ===== *)
(** * The interrupt handler and the device keep the invariant *)

From S2P Require Import Prelude Riscv Mem Sync Bio Virtio VirtioInv.

Section Dev.
Context {WK : Wakeups}.

Lemma u16_range x : 0 <= u16 x < 2 ^ 16.
Proof. apply Z.mod_pos_bound. lia. Qed.

(** Two requests have different heads. *)
Lemma head_inj s ph σ A U t t' i :
  inv s ph σ A U -> head_of (ph t) = Some i -> head_of (ph t') = Some i -> t = t'.
Proof. intros I H H'. by eapply (iv_disj _ _ _ _ _ I); eapply head_idx. Qed.

Lemma head_wait p i : head_of p = Some i -> exists b w i1 i2 n, p = PWait b w i i1 i2 n.
Proof. destruct p; intros [= <-]. eauto 10. Qed.

(** There is always room in the rings: a request takes three descriptors. *)
Lemma queue_short s ph σ A U :
  inv s ph σ A U -> (length (A ++ dv_pending (vdev s) ++ U) < NUM)%nat.
Proof.
  intros I. set (Q := A ++ dv_pending (vdev s) ++ U). destruct Q as [|i l] eqn:EQ; [cbn; unfold NUM; lia|].
  destruct (iv_heads _ _ _ _ _ I i) as (t & (b & w & i1 & i2 & n & Ht)%head_wait); [unfold Q in EQ; rewrite EQ; left|].
  pose proof (iv_chain _ _ _ _ _ I _ _ _ _ _ _ _ Ht) as [].
  pose proof (heads_short s ph σ A U [i1] I) as Hs. fold Q in Hs. rewrite EQ in Hs. cbn [length app] in *.
  assert (1 + S (length l) <= NUM)%nat; [|lia]. apply Hs.
  - apply NoDup_cons. split; [|rewrite <- EQ; apply I]. intros Hin. rewrite <- EQ in Hin.
    destruct (iv_heads _ _ _ _ _ I i1 Hin) as (t' & Ht').
    assert (t' = t) as -> by (eapply (iv_disj _ _ _ _ _ I); [by eapply head_idx | rewrite Ht; set_solver]).
    rewrite Ht in Ht'. injection Ht' as ->. apply NoDup_cons in ch_distinct as [N _]. set_solver.
  - constructor; [|done]. apply (iv_idx _ _ _ _ _ I t). rewrite Ht. set_solver.
Qed.

Lemma window_tail ring from x l :
  window ring from (x :: l) -> window ring ((from + 1) mod Z.of_nat NUM) l.
Proof.
  intros W k y Hk. rewrite Zplus_mod_idemp_l. specialize (W (S k) y Hk).
  by replace (from + 1 + Z.of_nat k) with (from + Z.of_nat (S k)) by lia.
Qed.

(** ** The interrupt handler *)

Definition popped (b : nat) (s : vdisk) : vdisk :=
  on_dr (set_used_idx ((v_used_idx (vdr s) + 1) mod Z.of_nat NUM))
    (lput (ChanBuf b :: vwoken s) (on_buf b (set_bdisk 0) s)).

(** Changing [b->disk] does not touch what the chains say. *)
Lemma chain_popped s b t b' w i0 i1 i2 :
  chain s t b' w i0 i1 i2 -> chain (popped b s) t b' w i0 i1 i2.
Proof.
  intros []. split; cbn; try done. destruct (decide (b = b')) as [->|].
  - by rewrite fn_lookup_insert.
  - by rewrite fn_lookup_insert_ne.
Qed.

Lemma inv_pop s ph σ A id U t b w i1 i2 n :
  inv s ph σ A (id :: U) -> ph t = PWait b w id i1 i2 n -> inv (popped b s) ph σ A U.
Proof.
  intros I Ht. pose proof (other_buf _ _ _ _ _ t b w I ltac:(by rewrite Ht)) as NB.
  assert (forall b', vb_blockno (vbufs (popped b s) b') = vb_blockno (vbufs s b') /\
    vb_data (vbufs (popped b s) b') = vb_data (vbufs s b')) as EB.
  { intros b'. cbn. destruct (decide (b = b')) as [->|]; [by rewrite fn_lookup_insert | by rewrite fn_lookup_insert_ne]. }
  pose proof I as I0. destruct I as [VL VB VF VC VD VR VX VQ VN VH VW VS VI]. rewrite app_assoc in VN. rewrite <- Permutation_middle in VN.
  apply NoDup_cons in VN as [Nid ND]. rewrite <- app_assoc in *.
  split; try done.
  - intros t' b' w' Hu. unfold buf_ok. destruct (EB b') as [-> ->]. by apply (VF t' b' w').
  - intros t' b' w' j0 j1 j2 n' Hp. apply chain_popped. by eapply VC.
  - destruct VQ as [Q1 Q2 Q3 Q4 Q5]. split; try done; cbn.
    + rewrite Q4, Zplus_mod_idemp_l. f_equal. cbn [length]. lia.
    + by eapply window_tail.
  - intros i Hi. apply VH. cbn in Hi. set_solver.
  - intros t' b' w' j0 j1 j2 n' Hp. cbn. destruct (decide (t = t')) as [<-|Hne].
    + rewrite Ht in Hp. injection Hp as <- <- <- <- <- <-. rewrite fn_lookup_insert. done.
    + rewrite fn_lookup_insert_ne by (eapply NB; [exact Hne | by rewrite Hp]).
      rewrite <- (VW _ _ _ _ _ _ _ Hp). assert (j0 <> id); [|set_solver].
      intros ->. apply Hne. eapply head_inj; [exact I0 | by rewrite Ht | by rewrite Hp].
  - intros t'. eapply stage_ext; [| |apply VS]; [intros; apply EB | done].
Qed.

Lemma intr_loop_ok U : forall fuel s ph σ A h,
  inv s ph σ A U -> (length U < fuel)%nat ->
  exists s', intr_loop fuel (lput (h : lockset) s) = Ret tt (lput h s') /\ inv s' ph σ A [].
Proof.
  induction U as [|id U IH]; intros [|fuel] s ph σ A h I Hf; cbn [length] in *; try lia;
    pose proof (iv_queues _ _ _ _ _ I) as [_ _ _ Qu Qw]; cbn [intr_loop]; do 2 mstep;
    cbn [lput vdisk_locks vdr vq]; rewrite Qu, Z.mod_mod by (unfold NUM; lia).
  - cbn [length Z.of_nat]. rewrite Z.sub_0_r, Z.eqb_refl. by exists s.
  - pose proof (queue_short _ _ _ _ _ I) as HS. rewrite !length_app in HS. cbn [length] in *.
    destruct (iv_heads _ _ _ _ _ I id) as (t & (b & w & i1 & i2 & n & Ht)%head_wait); [set_solver|].
    destruct (iv_chain _ _ _ _ _ I _ _ _ _ _ _ _ Ht) as [_ _ _ _ Ci Cs _].
    rewrite (proj2 (Z.eqb_neq _ _)).
    2:{ change (Z.of_nat NUM) with 8. unfold NUM in HS. Z.to_euclidean_division_equations. lia. }
    cbn [negb]. mstep. cbn [lput vdisk_locks vq]. rewrite <- Qu.
    specialize (Qw O id eq_refl). rewrite Z.add_0_r, Qu, Z.mod_mod, <- Qu in Qw by (unfold NUM; lia). rewrite Qw.
    mstep. cbn [lput vdisk_locks vdr]. rewrite Cs. cbn [negb Z.eqb]. mstep. cbn [lput vdisk_locks vdr]. rewrite Ci.
    do 3 mstep. destruct (IH fuel (popped b s) ph σ A h) as (s' & E & I'); [by eapply inv_pop | lia |].
    exists s'. split; [|done]. exact E.
Qed.

Lemma inv_locks s ph σ A U h : inv s ph σ A U -> inv (lput (∅ : lockset) (lput (h : lockset) s)) ph σ A U.
Proof. intros I. apply (inv_quiet s); [|done]. split; try done. split_and!; try done. symmetry. apply I. Qed.

Lemma intr_ok s ph σ A U :
  inv s ph σ A U -> exists s', virtio_disk_intr s = Ret tt s' /\ inv s' ph σ A [].
Proof.
  intros I. unfold virtio_disk_intr.
  pose proof (iv_locks _ _ _ _ _ I) as HL. pose proof (queue_short _ _ _ _ _ I) as HS. rewrite !length_app in HS.
  erewrite bind_ret by (apply acquire_ok; cbn; rewrite HL; set_solver).
  set (h := _ ∪ _). destruct (intr_loop_ok U (S NUM) s ph σ A h I) as (s' & E & I'); [lia|].
  rewrite (bind_ret _ _ _ _ _ E). do 2 mstep.
  rewrite release_ok by (cbn; unfold h; set_solver). eexists. split; [done|].
  apply (inv_quiet s'); [|done]. split; try done. split_and!; try done. cbn.
  rewrite (iv_locks _ _ _ _ _ I'). unfold h. cbn. rewrite HL. set_solver.
Qed.

(** ** The device *)

Lemma fetch_ok s s' ph σ A U :
  inv s ph σ A U -> fetch s = Some s' -> exists A', inv s' ph σ A' U.
Proof.
  intros I. unfold fetch. pose proof (queue_short _ _ _ _ _ I) as HS. rewrite !length_app in HS.
  destruct (Z.eqb_spec (dv_last (vdev s)) (q_avail_idx (vq s))) as [|Hne]; [done|]. intros [= <-].
  destruct I as [VL VB VF VC VD VR VX VQ VN VH VW VS VI]. destruct VQ as [Q1 Q2 Q3 Q4 Q5].
  destruct A as [|x A].
  { destruct Hne. rewrite Q2. cbn. unfold u16. rewrite Z.add_0_r. by rewrite Z.mod_small. }
  specialize (Q3 O x eq_refl) as Ex. rewrite Z.add_0_r in Ex.
  assert (x :: A ++ dv_pending (vdev s) ++ U ≡ₚ A ++ (dv_pending (vdev s) ++ [x]) ++ U) as EP.
  { rewrite <- (app_assoc (dv_pending _)). cbn. rewrite <- (Permutation_middle (dv_pending _)). by rewrite <- Permutation_middle. }
  assert (forall i, i ∈ (x :: A) ++ dv_pending (vdev s) ++ U <-> i ∈ A ++ (dv_pending (vdev s) ++ [x]) ++ U) as EM by set_solver.
  exists A. split; cbn; try rewrite Ex; try done.
  - intros t b w i0 i1 i2 n Hp. by destruct (VC _ _ _ _ _ _ _ Hp).
  - split; cbn; try done.
    + apply u16_range.
    + rewrite Q2. unfold u16. rewrite Zplus_mod_idemp_l. f_equal. cbn [length]. lia.
    + intros k y Hk. pose proof (Q3 (S k) y Hk) as Ey. rewrite <- Ey. f_equal. f_equal.
      rewrite <- Zplus_mod_idemp_l, u16_mod8, Zplus_mod_idemp_l. f_equal. lia.
  - by rewrite <- EP.
  - intros i Hi. by apply VH, EM.
  - intros t b w i0 i1 i2 n Hp. rewrite <- EM. by eapply VW.
  - intros t. eapply stage_ext; [| |apply VS]; [done|]. intros i _. set_solver.
Qed.

(** The data of a transfer, and the disk after it. *)
Definition moved (w : bool) (img : memory) (x : vbuf) : list Z :=
  if w then vb_data x else img_block img (vb_blockno x).
Definition moved_img (w : bool) (img : memory) (x : vbuf) : memory :=
  if w then store_bytes img (BSIZE * vb_blockno x) (vb_data x) else img.

Definition served (id b : nat) (w : bool) (s : vdisk) : vdisk :=
  let img := dv_img (vdev s) in
  complete id id (moved_img w img (vbufs s b))
    (if w then s else on_buf b (set_bdata (moved w img (vbufs s b))) s).

Lemma serve_eq s t b w id i1 i2 :
  chain s t b w id i1 i2 -> buf_ok (vbufs s b) ->
  serve id s = Some (ETransfer t w (2 * vb_blockno (vbufs s b)) (moved w (dv_img (vdev s)) (vbufs s b)),
                     served id b w s).
Proof.
  intros [Ch C0 C1 C2 _ _ _] [_ HL]. unfold serve. rewrite C0. cbn [d_next d_addr].
  rewrite C1. cbn [d_next d_addr]. rewrite C2. cbn [d_addr]. rewrite Ch. cbn [h_sector h_type].
  replace (512 * (2 * vb_blockno (vbufs s b))) with (BSIZE * vb_blockno (vbufs s b)) by (unfold BSIZE; lia).
  unfold served, moved, moved_img. destruct w; cbn [d_len d_flags has].
  - rewrite firstn_all2 by lia. done.
  - done.
Qed.

Lemma filter_out (P1 P2 : list nat) id :
  NoDup (P1 ++ id :: P2) -> filter (fun x => x <> id) (P1 ++ id :: P2) = P1 ++ P2.
Proof.
  intros ND. rewrite <- Permutation_middle in ND. apply NoDup_cons in ND as [N _].
  assert (forall l : list nat, id ∉ l -> filter (fun x => x <> id) l = l) as E.
  { intros l. induction l as [|x l IH]; [done|]. intros Hn. rewrite filter_cons_True by set_solver.
    f_equal. apply IH. set_solver. }
  rewrite filter_app, filter_cons_False by naive_solver. rewrite !E; [done | set_solver | set_solver].
Qed.

Lemma served_buf id b w s b' :
  vb_blockno (vbufs (served id b w s) b') = vb_blockno (vbufs s b') /\
  vb_disk (vbufs (served id b w s) b') = vb_disk (vbufs s b') /\
  vb_data (vbufs (served id b w s) b') =
    if decide (b = b') then moved w (dv_img (vdev s)) (vbufs s b') else vb_data (vbufs s b').
Proof.
  unfold served. destruct w; cbn.
  - split_and!; try done. by destruct (decide (b = b')) as [->|].
  - destruct (decide (b = b')) as [->|]; [by rewrite fn_lookup_insert | by rewrite fn_lookup_insert_ne].
Qed.

Lemma chain_served s id b w t b' w' j0 j1 j2 :
  chain s t b' w' j0 j1 j2 -> chain (served id b w s) t b' w' j0 j1 j2.
Proof.
  intros []. destruct (served_buf id b w s b') as (E & _). split; rewrite ?E; unfold served; destruct w; cbn; try done.
  - destruct (decide (id = j0)) as [->|]; [by rewrite fn_lookup_insert | by rewrite fn_lookup_insert_ne].
  - destruct (decide (id = j0)) as [->|]; [by rewrite fn_lookup_insert | by rewrite fn_lookup_insert_ne].
Qed.

Lemma served_queues id b w s A U :
  queues s A U -> (length U < NUM)%nat -> queues (served id b w s) A (U ++ [id]).
Proof.
  intros [Q1 Q2 Q3 Q4 Q5] HU. unfold served. destruct w; split; cbn; try done;
    try (rewrite Q4, length_app; cbn [length]; unfold u16; change (Z.of_nat NUM) with 8; change (2 ^ 16) with 65536;
      Z.to_euclidean_division_equations; lia);
    (replace (q_used_id (vq s) mod Z.of_nat NUM) with ((v_used_idx (vdr s) + Z.of_nat (length U)) mod Z.of_nat NUM);
      [by apply window_snoc | rewrite Q4, Zplus_mod_idemp_l; f_equal; lia]).
Qed.

Lemma inv_served s ph σ A U id t b w i1 i2 n :
  inv s ph σ A U -> id ∈ dv_pending (vdev s) -> ph t = PWait b w id i1 i2 n ->
  inv (served id b w s) ph
    (Spec (moved_img w (dv_img (vdev s)) (vbufs s b))
      (<[t := SMoved (moved w (dv_img (vdev s)) (vbufs s b))]> (sp_t σ))) A (U ++ [id]).
Proof.
  intros I Hid Ht. pose proof (queue_short _ _ _ _ _ I) as HS. rewrite !length_app in HS.
  pose proof (other_buf _ _ _ _ _ t b w I ltac:(by rewrite Ht)) as NB.
  pose proof (served_buf id b w s) as SB. pose proof I as I0.
  destruct I as [VL VB VF VC VD VR VX VQ VN VH VW VS VI].
  apply list_elem_of_split in Hid as (P1 & P2 & EP).
  assert (dv_pending (vdev (served id b w s)) = P1 ++ P2) as EP'.
  { unfold served. destruct w; cbn; rewrite EP; apply filter_out;
      (rewrite EP in VN; apply NoDup_app in VN as (_ & _ & VN); by apply NoDup_app in VN as (? & _)). }
  assert (A ++ (P1 ++ P2) ++ U ++ [id] ≡ₚ A ++ dv_pending (vdev s) ++ U) as EQ.
  { rewrite EP. f_equiv. rewrite <- !app_assoc. f_equiv. cbn. rewrite (Permutation_app_comm U). cbn. by rewrite Permutation_middle. }
  assert (forall i, i ∈ A ++ (P1 ++ P2) ++ U ++ [id] <-> i ∈ A ++ dv_pending (vdev s) ++ U) as EM
    by (intros i; by rewrite EQ).
  assert (id ∉ A ++ P1 ++ P2) as Nid.
  { rewrite <- EQ, !app_assoc in VN. apply NoDup_app in VN as (_ & N & _).
    intros Hin. apply (N id); [|left]. set_solver. }
  split; rewrite ?EP'; try done.
  - unfold served. by destruct w.
  - intros t' b' w' Hu. destruct (VF t' b' w' Hu) as [? HL]. destruct (SB b') as (E1 & _ & E3).
    unfold buf_ok. rewrite E1, E3. split; [done|]. destruct (decide (b = b')); [|done].
    unfold moved, img_block. destruct w; [done|]. apply length_bytes_at.
  - intros. apply chain_served. by eapply VC.
  - intros i Hi. rewrite <- (VR i Hi). unfold served. by destruct w.
  - apply served_queues; [done | lia].
  - by rewrite EQ.
  - intros i. rewrite EM. apply VH.
  - intros t' b' w' j0 j1 j2 n' Hp. rewrite EM. destruct (SB b') as (_ & -> & _). by eapply VW.
  - intros t'. cbn [sp_t]. destruct (decide (t = t')) as [<-|Hne].
    + rewrite fn_lookup_insert, Ht. right. split; [done|]. destruct (SB b) as (_ & _ & ->). by rewrite decide_True.
    + rewrite fn_lookup_insert_ne by done. eapply stage_ext; [| |apply VS].
      * intros b' w' Hu. destruct (SB b') as (-> & _ & ->). rewrite decide_False; [done|]. by eapply NB.
      * intros i Hi. rewrite EP. assert (i <> id); [|set_solver].
        intros ->. apply Hne. eapply head_inj; [exact I0 | by rewrite Ht | done].
Qed.

Lemma inv_serve s ph σ A U id :
  inv s ph σ A U -> id ∈ dv_pending (vdev s) ->
  exists e s' σ', serve id s = Some (e, s') /\ spec_step σ e = Some σ' /\ inv s' ph σ' A (U ++ [id]) /\
    forall t b w n, ph t = PAlloc b w n -> sp_t σ' t = sp_t σ t.
Proof.
  intros I Hid. pose proof (queue_short _ _ _ _ _ I) as HS. rewrite !length_app in HS.
  destruct (iv_heads _ _ _ _ _ I id) as (t & Hh); [set_solver|].
  pose proof Hh as (b & w & i1 & i2 & n & Ht)%head_wait. set (x := vbufs s b). set (img := dv_img (vdev s)).
  pose proof (other_buf _ _ _ _ _ t b w I ltac:(by rewrite Ht)) as NB.
  assert (buf_ok x) as Hb by (eapply (iv_buf _ _ _ _ _ I t); by rewrite Ht).
  exists (ETransfer t w (2 * vb_blockno x) (moved w img x)), (served id b w s),
    (Spec (moved_img w img x) (<[t := SMoved (moved w img x)]> (sp_t σ))).
  split; [by eapply serve_eq; [eapply I|]|]. split.
  { pose proof (iv_stage _ _ _ _ _ I t) as Hs. rewrite Ht in Hs. destruct Hs as [[_ Hs]|[Hn _]]; [|set_solver].
    unfold spec_step. rewrite Hs, (iv_img _ _ _ _ _ I). fold img x. rewrite bool_decide_true; [done|].
    split_and!; [done | unfold BSIZE; lia | done]. }
  split; [by eapply inv_served|]. intros t' b' w' m Ht'. cbn. rewrite fn_lookup_insert_ne; [done | congruence].
Qed.

(** ** Calls, and buffers that are not in use *)

Lemma inv_call s ph σ A U t b w n :
  inv s ph σ A U -> ph t = PIdle -> (forall t' w', uses (ph t') <> Some (b, w')) -> buf_ok (vbufs s b) ->
  inv s (<[t := PAlloc b w n]> ph)
    (Spec (sp_img σ) (<[t := SCalled w (vb_blockno (vbufs s b)) (vb_data (vbufs s b))]> (sp_t σ))) A U.
Proof.
  intros I Ht Hb Hok. assert (forall t' i, i ∈ idxs (<[t := PAlloc b w n]> ph t') <-> i ∈ idxs (ph t')) as EI.
  { intros t' i. destruct (decide (t = t')) as [<-|]; [by rewrite fn_lookup_insert, Ht | by rewrite fn_lookup_insert_ne]. }
  assert (forall t' x, uses (<[t := PAlloc b w n]> ph t') = Some x -> (t' = t /\ x = (b, w)) \/ uses (ph t') = Some x) as EU.
  { intros t' x. destruct (decide (t = t')) as [<-|]; [rewrite fn_lookup_insert; naive_solver | rewrite fn_lookup_insert_ne by done; auto]. }
  assert (forall t' b' w' i0 i1 i2 m, <[t := PAlloc b w n]> ph t' = PWait b' w' i0 i1 i2 m -> ph t' = PWait b' w' i0 i1 i2 m) as EW.
  { intros t' b' w' i0 i1 i2 m. destruct (decide (t = t')) as [<-|]; [by rewrite fn_lookup_insert | by rewrite fn_lookup_insert_ne]. }
  destruct I as [VL VB VF VC VD VR VX VQ VN VH VW VS VI]. split; try done.
  - intros t1 t2 b' w1 w2 H1%EU H2%EU. destruct H1 as [[-> E1]|H1], H2 as [[-> E2]|H2]; simplify_eq; try done;
      [by destruct (Hb t2 w2) | by destruct (Hb t1 w1) | by eapply VB].
  - intros t' b' w' [[_ [= -> ->]]|Hu]%EU; [done | by eapply VF].
  - intros. eapply VC. by eapply EW.
  - intros t1 t2 i. rewrite !EI. apply VD.
  - intros i Hi. setoid_rewrite EI. by apply VR.
  - intros t' i. rewrite EI. apply VX.
  - intros i Hi. destruct (VH i Hi) as (t' & Ht'). exists t'. rewrite fn_lookup_insert_ne; [done|].
    intros <-. by rewrite Ht in Ht'.
  - intros t' b' w' j0 j1 j2 m Hp%EW. by eapply VW.
  - intros t'. cbn [sp_t]. destruct (decide (t = t')) as [<-|]; [by rewrite !fn_lookup_insert | by rewrite !fn_lookup_insert_ne].
Qed.

Lemma inv_buf s ph σ A U b x :
  inv s ph σ A U -> (forall t w, uses (ph t) <> Some (b, w)) ->
  inv (on_buf b (fun _ => x) s) ph σ A U.
Proof.
  intros I Hb. assert (forall t b' w, uses (ph t) = Some (b', w) -> vbufs (on_buf b (fun _ => x) s) b' = vbufs s b') as EB.
  { intros t b' w Hu. cbn. rewrite fn_lookup_insert_ne; [done|]. intros ->. by apply (Hb t w). }
  destruct I as [VL VB VF VC VD VR VX VQ VN VH VW VS VI]. split; try done.
  - intros t b' w Hu. rewrite (EB _ _ _ Hu). by eapply VF.
  - intros t b' w i0 i1 i2 n Hp. assert (uses (ph t) = Some (b', w)) as Hu by (by rewrite Hp).
    destruct (VC _ _ _ _ _ _ _ Hp). split; rewrite ?(EB _ _ _ Hu); done.
  - by destruct VQ.
  - intros t b' w i0 i1 i2 n Hp. rewrite (EB t b' w) by (by rewrite Hp). by eapply VW.
  - intros t. eapply stage_ext; [| |apply VS]; [|done]. intros b' w Hu. by rewrite (EB _ _ _ Hu).
Qed.

End Dev.
