(* ===== verification/VirtioProps.v ===== *)
(** * The disk driver transfers blocks as if in one step *)

From S2P Require Import Prelude Riscv Mem Sync Bio Virtio VirtioInv VirtioDev.

Section Props.
Context {WK : Wakeups}.

(** ** A thread runs *)

Lemma inv_same s ph ph' σ A U :
  inv s ph σ A U -> (forall t, uses (ph' t) = uses (ph t) /\ idxs (ph' t) = idxs (ph t) /\
    forall early x, stage s (ph t) early x -> stage s (ph' t) early x) ->
  inv s ph' σ A U.
Proof.
  intros I HE. assert (forall t b w i0 i1 i2 n, ph' t = PWait b w i0 i1 i2 n -> exists m, ph t = PWait b w i0 i1 i2 m) as EW.
  { intros t b w i0 i1 i2 n Hp. destruct (HE t) as (EU & EI & _). rewrite Hp in *. destruct (ph t); naive_solver. }
  assert (forall t i, head_of (ph t) = Some i -> head_of (ph' t) = Some i) as EH.
  { intros t i Hh. destruct (HE t) as (_ & EI & _). destruct (ph t), (ph' t); naive_solver. }
  destruct I as [VL VB VF VC VD VR VX VQ VN VH VW VS VI]. split; try done.
  - intros t1 t2 b w1 w2. destruct (HE t1) as (-> & _), (HE t2) as (-> & _). apply VB.
  - intros t b w. destruct (HE t) as (-> & _). apply VF.
  - intros t b w i0 i1 i2 n (m & Hp)%EW. by eapply VC.
  - intros t1 t2 i. destruct (HE t1) as (_ & -> & _), (HE t2) as (_ & -> & _). apply VD.
  - intros i Hi. rewrite (VR i Hi). split; intros (t & Ht); exists t; destruct (HE t) as (_ & E & _); congruence.
  - intros t i. destruct (HE t) as (_ & -> & _). apply VX.
  - intros i (t & Ht)%VH. eauto.
  - intros t b w i0 i1 i2 n (m & Hp)%EW. by eapply VW.
  - intros t. apply HE, VS.
Qed.

(** The bound on waits is of no account. *)
Lemma inv_alloc_n s ph σ A U t b w n m :
  inv s ph σ A U -> ph t = PAlloc b w n -> inv s (<[t := PAlloc b w m]> ph) σ A U.
Proof.
  intros I Ht. apply (inv_same _ _ _ _ _ _ I). intros t'. destruct (decide (t = t')) as [<-|].
  - by rewrite fn_lookup_insert, Ht.
  - by rewrite fn_lookup_insert_ne.
Qed.

Lemma inv_wait_n s ph σ A U t b w i0 i1 i2 n m :
  inv s ph σ A U -> ph t = PWait b w i0 i1 i2 n -> inv s (<[t := PWait b w i0 i1 i2 m]> ph) σ A U.
Proof.
  intros I Ht. apply (inv_same _ _ _ _ _ _ I). intros t'. destruct (decide (t = t')) as [<-|].
  - by rewrite fn_lookup_insert, Ht.
  - by rewrite fn_lookup_insert_ne.
Qed.

(** A thread that sleeps in phase [p]. *)
Definition sleeps (t : nat) (p : phase) (sector : Z) (s' : vdisk) (o : outcome vdisk unit) : Prop :=
  exists c k, o = Sleep c s' k /\ forall x, k x = phase_code t p sector x.

Lemma sleep_bind {A} c lk (s : vdisk) (m : M vdisk A) :
  vlocks s = {[lk]} ->
  exists k, (sleep c lk ;; m) s = Sleep c (lput (∅ : lockset) s) k /\ forall x, k x = (acquire lk ;; m) x.
Proof.
  intros Hl. eexists. split; [erewrite bind_sleep by (apply sleep_ok; exact Hl); done|]. done.
Qed.

Lemma acquire_assoc {A B} lk (m : M vdisk A) (f : A -> M vdisk B) (x : vdisk) :
  bind_out ((acquire lk ;; m) x) f = (acquire lk ;; let! a := m in f a) x.
Proof. unfold mbind_, acquire. by destruct (holding lk x). Qed.

Lemma run_wait s ph σ A U t b w i0 i1 i2 n sector :
  inv s ph σ A U -> ph t = PWait b w i0 i1 i2 n ->
  let o := phase_code t (PWait b w i0 i1 i2 n) sector s in
  o = NoFuel \/
  (exists m s', sleeps t (PWait b w i0 i1 i2 m) sector s' o /\ inv s' (<[t := PWait b w i0 i1 i2 m]> ph) σ A U) \/
  (exists s', o = Ret tt s' /\ sp_t σ t = SMoved (vb_data (vbufs s' b)) /\
     inv s' (<[t := PIdle]> ph) (Spec (sp_img σ) (<[t := SIdle]> (sp_t σ))) A U).
Proof.
  intros I Ht. cbn [phase_code]. pose proof (iv_locks _ _ _ _ _ I) as HL.
  erewrite bind_ret by (apply acquire_ok; cbn; rewrite HL; set_solver).
  replace ({[LVdisk]} ∪ lget s : lockset) with ({[LVdisk]} : lockset) by (cbn; rewrite HL; set_solver).
  destruct n as [|n]; [by left|]. right. cbn [rw_wait].
  destruct (Z.eqb_spec (vb_disk (vbufs s b)) 1) as [E|E].
  - left. destruct (sleep_bind (ChanBuf b) LVdisk (lput ({[LVdisk]} : lockset) s) (rw_wait n b)) as (k & Ek & Hk); [done|].
    exists n, (lput (∅ : lockset) (lput ({[LVdisk]} : lockset) s)). split; [|by eapply inv_wait_n; [apply inv_locks|]].
    eexists _, _. erewrite bind_sleep; [split; [done|]|].
    2:{ mstep. cbn [lput vdisk_locks vbufs]. rewrite E. exact Ek. }
    intros x. cbn beta. rewrite Hk. apply acquire_assoc.
  - right. exists (lput (∅ : lockset) (ended i0 i1 i2 s)). destruct (inv_end _ _ _ _ _ _ _ _ _ _ _ _ I Ht E) as [E1 I1].
    split_and!; [|done|done]. erewrite bind_ret; [by eapply rw_done_ok|].
    mstep. cbn [lput vdisk_locks vbufs]. by rewrite (proj2 (Z.eqb_neq _ _) E).
Qed.

Lemma run_alloc s ph σ A U t b w n :
  inv s ph σ A U -> ph t = PAlloc b w n ->
  let sector := 2 * vb_blockno (vbufs s b) in
  let o := phase_code t (PAlloc b w n) sector s in
  o = NoFuel \/
  exists p s' A', sleeps t p sector s' o /\ uses p = Some (b, w) /\ inv s' (<[t := p]> ph) σ A' U.
Proof.
  intros I Ht sector. cbn [phase_code]. pose proof (iv_locks _ _ _ _ _ I) as HL.
  erewrite bind_ret by (apply acquire_ok; cbn; rewrite HL; set_solver).
  replace ({[LVdisk]} ∪ lget s : lockset) with ({[LVdisk]} : lockset) by (cbn; rewrite HL; set_solver).
  destruct n as [|n]; [by left|]. right. cbn [rw_alloc]. set (sl := lput ({[LVdisk]} : lockset) s).
  destruct (alloc3_ok sl) as [(i0 & i1 & i2 & ND & F & E) | (s' & E & Q)].
  - exists (PWait b w i0 i1 i2 max_wakeups), (lput (∅ : lockset) (published t b w sector i0 i1 i2 (taken3 i0 i1 i2 sl))), (A ++ [i0]).
    split; [|split; [done | by eapply inv_publish]].
    erewrite bind_ret; [|erewrite bind_ret by exact E; reflexivity].
    erewrite bind_ret; [|apply rw_publish_ok]. cbn [fst].
    edestruct (sleep_bind (A := unit) (ChanBuf b) LVdisk) as (k & Ek & Hk); [|eexists _, _; erewrite bind_sleep; [split; [reflexivity|]|]].
    3:{ cbn [rw_wait]. mstep. cbn [published vbufs]. rewrite fn_lookup_insert. exact Ek. }
    + reflexivity.
    + intros x. cbn beta. rewrite Hk. apply acquire_assoc.
  - exists (PAlloc b w n), (lput (∅ : lockset) s'), A.
    edestruct (sleep_bind ChanDiskFree LVdisk s' (rw_alloc n)) as (k & Ek & Hk).
    { destruct Q as [_ _ (_ & _ & _ & _ & _ & _ & _ & _ & _ & _ & ->)]. done. }
    split; [|split; [done|]].
    + eexists _, _. erewrite bind_sleep; [split; [reflexivity|]|].
      2:{ erewrite bind_ret by exact E. exact Ek. }
      intros x. cbn beta. rewrite Hk. apply acquire_assoc.
    + eapply inv_alloc_n; [|exact Ht]. apply (inv_quiet s); [|done].
      destruct Q as [Q1 Q2 (? & ? & ? & ? & ? & ? & ? & ? & ? & ? & _)]. split; [exact Q1 | exact Q2 |].
      by split_and!.
Qed.

(** ** The system *)

(** What the continuation of a thread is. *)
Definition code_ok (t : nat) (p : phase) (x : call_state) (th : thread) : Prop :=
  match p with
  | PIdle => th = TIdle
  | PAlloc b w _ => exists k bno d, th = TAsleep b w k /\ x = SCalled w bno d /\
      forall s, k s = phase_code t p (2 * bno) s
  | PWait b w _ _ _ _ => exists k, th = TAsleep b w k /\ forall s, k s = phase_code t p 0 s
  end.

Record sinv (σ0 : spec) (y : vsys) (ph : nat -> phase) (σ : spec) (A U : list nat) : Prop := {
  sv_inv : inv (sy_s y) ph σ A U;
  sv_run : spec_run σ0 (sy_tr y) = Some σ;
  sv_code : forall t, code_ok t (ph t) (sp_t σ t) (sy_t y t);
}.

Lemma spec_run_app σ tr1 tr2 σ' :
  spec_run σ tr1 = Some σ' -> spec_run σ (tr1 ++ tr2) = spec_run σ' tr2.
Proof.
  revert σ. induction tr1 as [|e tr1 IH]; intros σ; cbn; [by intros [= ->]|].
  destruct (spec_step σ e); [apply IH | done].
Qed.

(** The phase of a thread and its state in the system agree. *)
Lemma code_idle σ0 y ph σ A U t : sinv σ0 y ph σ A U -> sy_t y t = TIdle -> ph t = PIdle.
Proof.
  intros S Ht. pose proof (sv_code _ _ _ _ _ _ S t) as HC.
  destruct (ph t); cbn in HC; [done | destruct HC as (? & ? & ? & ? & _) | destruct HC as (? & ? & _)]; congruence.
Qed.

Lemma code_asleep σ0 y ph σ A U t b w k :
  sinv σ0 y ph σ A U -> sy_t y t = TAsleep b w k ->
  (exists n, ph t = PAlloc b w n /\ forall s, k s = phase_code t (ph t) (2 * vb_blockno (vbufs (sy_s y) b)) s) \/
  (exists i0 i1 i2 n, ph t = PWait b w i0 i1 i2 n /\ forall s, k s = phase_code t (ph t) 0 s).
Proof.
  intros S Ht. pose proof (sv_code _ _ _ _ _ _ S t) as HC. pose proof (iv_stage _ _ _ _ _ (sv_inv _ _ _ _ _ _ S) t) as HS.
  destruct (ph t) as [|b' w' n|b' w' i0 i1 i2 n]; cbn in HC, HS; [congruence| |].
  - left. destruct HC as (k' & bno & d & E & Ex & Hk). rewrite E in Ht. injection Ht as -> -> ->.
    rewrite Ex in HS. injection HS as -> ->. eauto.
  - right. destruct HC as (k' & E & Hk). rewrite E in Ht. injection Ht as -> -> ->. eauto 10.
Qed.

Lemma busy_uses σ0 y ph σ A U b :
  sinv σ0 y ph σ A U -> ~ busy y b -> forall t w, uses (ph t) <> Some (b, w).
Proof.
  intros S Hb t w Hu. apply Hb. pose proof (sv_code _ _ _ _ _ _ S t) as HC.
  destruct (ph t); [done| |]; injection Hu as -> ->;
    [destruct HC as (k & ? & ? & E & _) | destruct HC as (k & E & _)]; by exists t, w, k.
Qed.

(** What a thread leads to when it runs from phase [p]. *)
Lemma phase_run s ph σ A U t p b w sector :
  inv s ph σ A U -> ph t = p -> uses p = Some (b, w) ->
  (forall n, p = PAlloc b w n -> sector = 2 * vb_blockno (vbufs s b)) ->
  let o := phase_code t p sector s in
  o = NoFuel \/
  (exists q s' A', sleeps t q sector s' o /\ uses q = Some (b, w) /\ inv s' (<[t := q]> ph) σ A' U /\
     (forall n, q = PAlloc b w n -> exists m, p = PAlloc b w m)) \/
  (exists s', o = Ret tt s' /\ sp_t σ t = SMoved (vb_data (vbufs s' b)) /\
     inv s' (<[t := PIdle]> ph) (Spec (sp_img σ) (<[t := SIdle]> (sp_t σ))) A U).
Proof.
  intros I Ht Hu Hs. destruct p as [|b' w' n|b' w' i0 i1 i2 n]; [done| |]; injection Hu as -> ->.
  - rewrite (Hs n eq_refl) in *. destruct (run_alloc _ _ _ _ _ _ _ _ _ I Ht) as [E|(q & s' & A' & ? & ? & ?)]; [by left|].
    right. left. exists q, s', A'. split_and!; eauto.
  - destruct (run_wait _ _ _ _ _ _ _ _ _ _ _ _ sector I Ht) as [E|[(m & s' & ? & ?)|?]]; [by left| |by right; right].
    right. left. eexists _, s', A. split_and!; [done | done | done | done].
Qed.

Lemma sleeps_code t q s' o c s'' k b w sector x :
  sleeps t q sector s' o -> o = Sleep c s'' k -> uses q = Some (b, w) ->
  (forall n, q = PAlloc b w n -> exists bno d, x = SCalled w bno d /\ sector = 2 * bno) ->
  s'' = s' /\ code_ok t q x (TAsleep b w k).
Proof.
  intros (c' & k' & E & Hk) -> Hu Hs. injection E as -> -> ->. split; [done|].
  destruct q as [|b' w' n|b' w' i0 i1 i2 n]; [done| |]; injection Hu as -> ->; cbn.
  - destruct (Hs n eq_refl) as (bno & d & -> & ->). exists k', bno, d. done.
  - exists k'. split; [done|]. intros s. by rewrite Hk.
Qed.

(** A thread that has run from phase [p] and settled. *)
Lemma settle_ok σ0 s th tr ph σ A U t p b w sector o s' x ev :
  inv s ph σ A U -> spec_run σ0 tr = Some σ -> ph t = p -> uses p = Some (b, w) ->
  (forall n, p = PAlloc b w n -> sector = 2 * vb_blockno (vbufs s b)) ->
  o = phase_code t p sector s -> (forall t', t' <> t -> code_ok t' (ph t') (sp_t σ t') (th t')) ->
  settle t b w o = Some (s', x, ev) ->
  exists ph' σ' A', sinv σ0 (VSys s' (<[t := x]> th) (tr ++ ev)) ph' σ' A' U.
Proof.
  intros I Hr Ht Hu Hs -> HC.
  destruct (phase_run _ _ _ _ _ _ _ _ _ _ I Ht Hu Hs) as [->|[(q & s1 & A' & Hq & Uq & I' & HqA)|(s1 & -> & Em & I')]]; [done| |].
  - pose proof Hq as (c & k & E & _). rewrite E. intros [= <- <- <-]. exists (<[t := q]> ph), σ, A'.
    destruct (sleeps_code _ _ _ _ _ _ _ b w _ (sp_t σ t) Hq E Uq) as [_ Hc].
    { intros n Hn. destruct (HqA n Hn) as (m & Hm). rewrite (Hs m Hm). pose proof (iv_stage _ _ _ _ _ I t) as St.
      rewrite Ht, Hm in St. cbn in St. eauto. }
    split; cbn [sy_s sy_t sy_tr]; [done | by rewrite app_nil_r |].
    intros t'. destruct (decide (t = t')) as [<-|]; [by rewrite !fn_lookup_insert|]. rewrite !fn_lookup_insert_ne by done. by apply HC.
  - intros [= <- <- <-]. exists (<[t := PIdle]> ph), (Spec (sp_img σ) (<[t := SIdle]> (sp_t σ))), A.
    split; cbn [sy_s sy_t sy_tr]; [done | |].
    + rewrite (spec_run_app _ _ _ _ Hr). cbn. rewrite Em, bool_decide_true by done. done.
    + intros t'. destruct (decide (t = t')) as [<-|]; [by rewrite !fn_lookup_insert|]. cbn [sp_t].
      rewrite !fn_lookup_insert_ne by done. by apply HC.
Qed.

Lemma rw_phase t b w s :
  buf_ok (vbufs s b) ->
  virtio_disk_rw t b w s = phase_code t (PAlloc b w (S max_wakeups)) (2 * vb_blockno (vbufs s b)) s.
Proof.
  intros [Hb _]. unfold virtio_disk_rw. mstep. change (BSIZE / 512) with 2.
  rewrite u32_small, Z.mul_comm by lia. done.
Qed.

Lemma call_inv σ0 y ph σ A U t b w :
  sinv σ0 y ph σ A U -> may_call y t b ->
  let c := ECall t w (vb_blockno (vbufs (sy_s y) b)) (vb_data (vbufs (sy_s y) b)) in
  exists σ', spec_run σ0 (sy_tr y ++ [c]) = Some σ' /\
    inv (sy_s y) (<[t := PAlloc b w (S max_wakeups)]> ph) σ' A U /\ forall t', t' <> t -> sp_t σ' t' = sp_t σ t'.
Proof.
  intros S (Ht & Hb & Hok) c. pose proof (code_idle _ _ _ _ _ _ _ S Ht) as Hp.
  pose proof (iv_stage _ _ _ _ _ (sv_inv _ _ _ _ _ _ S) t) as Hs. rewrite Hp in Hs. cbn in Hs.
  eexists. rewrite (spec_run_app _ _ _ _ (sv_run _ _ _ _ _ _ S)). cbn. rewrite Hs. split; [done|].
  split; [by apply inv_call; [apply S | | eapply busy_uses|]|]. intros t' Hne. cbn. by rewrite fn_lookup_insert_ne.
Qed.

Lemma vstep_ok σ0 y y' ph σ A U :
  sinv σ0 y ph σ A U -> vstep y y' -> exists ph' σ' A' U', sinv σ0 y' ph' σ' A' U'.
Proof.
  intros S Hs. pose proof S as [I Hr HC]. destruct Hs as [y t b w s' x ev Hm Hs c|y t b w k s' x ev Ht Hs|y s' Hs|y s' Hs|y id e s' Hid Hs|y b x Hb Hd|y f].
  - destruct (call_inv _ _ _ _ _ _ _ _ w S Hm) as (σ1 & Hr1 & I1 & Ho). fold c in Hr1.
    destruct (settle_ok σ0 _ (sy_t y) _ _ _ _ _ t _ b w _ _ s' x ev I1 Hr1 (fn_lookup_insert _ _ _) eq_refl
      ltac:(done) (rw_phase t b w _ (proj2 (proj2 Hm)))) as (ph' & σ' & A' & S'); [|done|].
    { intros t' Hne. rewrite fn_lookup_insert_ne, Ho by done. apply HC. }
    exists ph', σ', A', U. by rewrite <- app_assoc in S'.
  - destruct (code_asleep _ _ _ _ _ _ _ _ _ _ S Ht) as [(n & Hp & Hk)|(i0 & i1 & i2 & n & Hp & Hk)]; rewrite Hk in Hs;
      (eapply settle_ok in Hs as (ph' & σ' & A' & S'); [exists ph', σ', A', U; exact S' | exact I | exact Hr | reflexivity | by rewrite Hp
      | | reflexivity | intros; apply HC]); rewrite Hp; naive_solver.
  - destruct (intr_ok _ _ _ _ _ I) as (s1 & E & I'). rewrite E in Hs. injection Hs as <-. exists ph, σ, A, []. by split.
  - destruct (fetch_ok _ _ _ _ _ _ I Hs) as (A' & I'). exists ph, σ, A', U. by split.
  - destruct (inv_serve _ _ _ _ _ _ I Hid) as (e' & s1 & σ' & E & Hsp & I' & Ho). rewrite E in Hs. injection Hs as <- <-.
    exists ph, σ', A, (U ++ [id]). split; [done | |].
    + cbn [sy_tr]. rewrite (spec_run_app _ _ _ _ Hr). cbn. by rewrite Hsp.
    + intros t. specialize (HC t). cbn [sy_t]. destruct (ph t) eqn:Hp; [done| |done]. by rewrite (Ho _ _ _ _ Hp).
  - exists ph, σ, A, U. split; [apply inv_buf; [done | by eapply busy_uses] | done | done].
  - exists ph, σ, A, U. split; [|done|done]. by apply (inv_quiet (sy_s y)).
Qed.

Lemma phase_no_panic s ph σ A U t p b w sector msg :
  inv s ph σ A U -> ph t = p -> uses p = Some (b, w) ->
  (forall n, p = PAlloc b w n -> sector = 2 * vb_blockno (vbufs s b)) -> phase_code t p sector s <> Panic msg.
Proof.
  intros I Ht Hu Hs. destruct (phase_run _ _ _ _ _ _ _ _ _ _ I Ht Hu Hs) as [->|[(q & s1 & A' & (c & k & -> & _) & _)|(s1 & -> & _)]]; done.
Qed.

Lemma sinv_no_crash σ0 y ph σ A U : sinv σ0 y ph σ A U -> no_crash y.
Proof.
  intros S. pose proof S as [I Hr HC]. split.
  - intros t b w msg Hm. destruct (call_inv _ _ _ _ _ _ _ _ w S Hm) as (σ1 & _ & I1 & _).
    rewrite rw_phase by apply Hm. eapply phase_no_panic; [exact I1 | by rewrite fn_lookup_insert | done | done].
  - intros t b w k msg Ht. destruct (code_asleep _ _ _ _ _ _ _ _ _ _ S Ht) as [(n & Hp & ->)|(i0 & i1 & i2 & n & Hp & ->)];
      (eapply phase_no_panic; [exact I | done | by rewrite Hp | rewrite Hp; naive_solver]).
  - destruct (intr_ok _ _ _ _ _ I) as (s' & E & _). eauto.
  - intros id Hid. destruct (inv_serve _ _ _ _ _ _ I Hid) as (e & s' & _ & E & _). eauto.
Qed.

Definition idle_spec (img : memory) : spec := Spec img (fun _ => SIdle).

Lemma fresh_sinv s :
  fresh s -> sinv (idle_spec (dv_img (vdev s))) (VSys s (fun _ => TIdle) []) (fun _ => PIdle)
    (idle_spec (dv_img (vdev s))) [] [].
Proof.
  intros [F1 F2 F3 F4 F5 F6 F7 F8 F9]. split; [|done|done]. split; cbn [sy_s]; try done; try (intros; discriminate).
  - intros t t' i Hi. set_solver.
  - intros i Hi. rewrite F2 by done. split; [done | intros (t & Ht); set_solver].
  - intros t i Hi. set_solver.
  - split; rewrite ?F4, ?F5, ?F6, ?F7; done.
  - rewrite F8. constructor.
  - rewrite F8. set_solver.
Qed.

(** C5: the disk driver with any number of threads calling [virtio_disk_rw], the
    interrupt handler, and a device that serves requests in any order.  However
    they interleave, no thread panics, the interrupt handler returns and the
    device understands every request it is given; the run looks as if each call
    transferred its block in one step between call and return, exactly once, and
    the disk holds what those transfers wrote.  When no call is in progress
    every descriptor is free again. *)
Theorem virtio_linearizable s y :
  fresh s -> vsteps (VSys s (fun _ => TIdle) []) y ->
  no_crash y /\
  (exists σ, spec_run (idle_spec (dv_img (vdev s))) (sy_tr y) = Some σ /\ sp_img σ = dv_img (vdev (sy_s y))) /\
  ((forall t, sy_t y t = TIdle) -> forall i, (i < NUM)%nat -> v_free (vdr (sy_s y)) i = true).
Proof.
  intros HF Hs. assert (exists ph σ A U, sinv (idle_spec (dv_img (vdev s))) y ph σ A U) as (ph & σ & A & U & S).
  { induction Hs as [|y' y'' Hs IH Hst]; [eexists _, _, _, _; by apply fresh_sinv|].
    destruct IH as (ph & σ & A & U & S). by eapply vstep_ok. }
  split_and!; [by eapply sinv_no_crash | exists σ; split; apply S |].
  intros Hi i Hn. destruct (v_free (vdr (sy_s y)) i) eqn:E; [done|].
  apply (iv_free _ _ _ _ _ (sv_inv _ _ _ _ _ _ S) i Hn) in E as (t & Ht).
  rewrite (code_idle _ _ _ _ _ _ t S (Hi t)) in Ht. by apply elem_of_nil in Ht.
Qed.

(** ** Setting up *)

(** The registers of a virtio disk as the driver expects it. *)
Definition disk_present (r : mmio -> Z) : Prop :=
  r VIRTIO_MMIO_MAGIC_VALUE = 0x74726976 /\ r VIRTIO_MMIO_VERSION = 1 /\ r VIRTIO_MMIO_DEVICE_ID = 2 /\
  r VIRTIO_MMIO_VENDOR_ID = 0x554d4551 /\ Z.of_nat NUM <= r VIRTIO_MMIO_QUEUE_NUM_MAX.

Lemma init_fresh pages s :
  disk_present (vreg s) -> vlocks s = ∅ -> (forall i, v_info (vdr s) i = None) -> v_used_idx (vdr s) = 0 ->
  dv_last (vdev s) = 0 -> dv_pending (vdev s) = [] -> (forall b, vb_disk (vbufs s b) = 0) ->
  exists s', virtio_disk_init pages s = Ret tt s' /\ fresh s' /\ vbufs s' = vbufs s /\ vdev s' = vdev s.
Proof.
  intros (R1 & R2 & R3 & R4 & R5) HL HI HU HD HP HB. change (Z.of_nat NUM) with 8 in R5.
  eexists. split.
  - unfold virtio_disk_init, reg_read. do 5 mstep. cbn [initlock lput vdisk_locks vreg]. rewrite R1, R2, R3, R4, !Z.eqb_refl. cbn [negb orb].
    do 9 mstep. cbn [vreg log_mmio]. rewrite (proj2 (Z.eqb_neq _ _)), (proj2 (Z.ltb_ge _ _)) by (change (Z.of_nat NUM) with 8; lia).
    reflexivity.
  - split; [|done]. split; cbn; try done.
    + rewrite HL. set_solver.
    + intros i Hi. change ((i <? NUM)%nat || v_free (vdr s) i = true). by rewrite (proj2 (Nat.ltb_lt _ _) Hi).
Qed.

End Props.

(** ** A run: one read *)
Module VirtioDemo.

#[local] Instance demo_wakeups : Wakeups := 3%nat.

Definition demo_img : memory := store_bytes ∅ (BSIZE * 5) [7; 8; 9].
Definition demo_data : list Z := replicate (Z.to_nat BSIZE) 0.

(** A machine with one buffer, for block 5. *)
Definition demo_boot : vdisk :=
  VDisk (VQueue (fun _ => Desc ANull 0 0 0) (fun _ => O) 0 (fun _ => O) 0)
    (VDriver (fun _ => false) 0 (fun _ => None) (fun _ => 0))
    (fun _ => VBuf 0 5 demo_data) (fun _ => OutHdr 0 0 0) (VDevice 0 [] demo_img)
    (fun r => match r with
      | VIRTIO_MMIO_MAGIC_VALUE => 0x74726976 | VIRTIO_MMIO_VERSION => 1 | VIRTIO_MMIO_DEVICE_ID => 2
      | VIRTIO_MMIO_VENDOR_ID => 0x554d4551 | _ => 1024 end)
    [] ∅ [].

Definition demo_state : vdisk :=
  match virtio_disk_init 0x80020000 demo_boot with Ret _ s => s | _ => demo_boot end.

(** Steps without calls, run by name. *)
Inductive act := DoWake (t : nat) | DoIntr | DoFetch | DoServe (id : nat).

Definition do_act (a : act) (y : vsys) : option vsys :=
  match a with
  | DoWake t =>
      match sy_t y t with
      | TAsleep b w k =>
          match settle t b w (k (sy_s y)) with
          | Some (s', x, ev) => Some (VSys s' (<[t := x]> (sy_t y)) (sy_tr y ++ ev))
          | None => None
          end
      | TIdle => None
      end
  | DoIntr => match virtio_disk_intr (sy_s y) with Ret tt s' => Some (VSys s' (sy_t y) (sy_tr y)) | _ => None end
  | DoFetch => match fetch (sy_s y) with Some s' => Some (VSys s' (sy_t y) (sy_tr y)) | None => None end
  | DoServe id =>
      if decide (id ∈ dv_pending (vdev (sy_s y))) then
        match serve id (sy_s y) with
        | Some (e, s') => Some (VSys s' (sy_t y) (sy_tr y ++ [e]))
        | None => None
        end
      else None
  end.

Fixpoint do_acts (l : list act) (y : vsys) : option vsys :=
  match l with
  | [] => Some y
  | a :: l' => match do_act a y with Some y' => do_acts l' y' | None => None end
  end.

Lemma do_act_step a y y' : do_act a y = Some y' -> vstep y y'.
Proof.
  destruct a; cbn; intros H; repeat (case_match; try done); simplify_eq; by econstructor.
Qed.

Lemma do_acts_steps l y0 y y' : vsteps y0 y -> do_acts l y = Some y' -> vsteps y0 y'.
Proof.
  revert y. induction l as [|a l IH]; intros y H; cbn; [by intros [= <-]|].
  destruct (do_act a y) as [y1|] eqn:E; [|done]. apply IH. eapply vs_step; [done | by apply (do_act_step a)].
Qed.

(** Thread 0 calls and waits, the device takes the request and serves it, the
    interrupt handler runs, the thread wakes up and returns with the data. *)
Definition demo_called : vsys :=
  match settle 0 0 false (virtio_disk_rw 0 0 false demo_state) with
  | Some (s', x, ev) => VSys s' (<[0%nat := x]> (fun _ => TIdle)) ([] ++ ECall 0 false 5 demo_data :: ev)
  | None => VSys demo_state (fun _ => TIdle) []
  end.
Definition demo_end : vsys :=
  default demo_called (do_acts [DoFetch; DoServe 0; DoIntr; DoWake 0] demo_called).

Lemma demo_fresh : fresh demo_state.
Proof.
  destruct (init_fresh 0x80020000 demo_boot) as (s & E & F & _); try done. unfold demo_state. by rewrite E.
Qed.

Definition defined {A} (o : option A) : bool := match o with Some _ => true | None => false end.

Lemma demo_steps : vsteps (VSys demo_state (fun _ => TIdle) []) demo_end.
Proof.
  apply (do_acts_steps [DoFetch; DoServe 0; DoIntr; DoWake 0] _ demo_called).
  - eapply vs_step; [apply vs_refl|]. unfold demo_called.
    assert (defined (settle 0 0 false (virtio_disk_rw 0 0 false demo_state)) = true) as D by (by vm_compute).
    destruct (settle 0 0 false _) as [[[s' x] ev]|] eqn:E; [|done].
    apply (v_call (VSys demo_state (fun _ => TIdle) []) 0 0 false); [|exact E].
    split_and!; [done | intros (t & w & k & [=]) |]. split; [|by vm_compute]. cbn [sy_s].
    replace (vb_blockno (vbufs demo_state 0)) with 5 by (by vm_compute). lia.
  - unfold demo_end.
    assert (defined (do_acts [DoFetch; DoServe 0; DoIntr; DoWake 0] demo_called) = true) as D by (by vm_compute).
    by destruct (do_acts _ _).
Qed.

Lemma virtio_linearizable_witness :
  fresh demo_state /\
  sy_tr demo_end = [ECall 0 false 5 demo_data; ETransfer 0 false 10 (img_block demo_img 5);
                    EReturn 0 (img_block demo_img 5)] /\ no_crash demo_end.
Proof.
  split; [exact demo_fresh|]. split; [vm_compute; reflexivity|].
  destruct (virtio_linearizable demo_state demo_end demo_fresh demo_steps) as [H _]. exact H.
Defined.

End VirtioDemo.
