(* ===== verification/DiskFmt.v ===== *)
(** Little-endian integers inside a disk block: how the structures of
    kernel/fs.h and [struct logheader] of kernel/log.c lie in [b->data] when a
    block is cast to them. *)

From S2P Require Import Prelude Riscv.

(** The 32-bit word at byte offset [off]. *)
Definition get32 (d : list Z) (off : nat) : Z :=
  d !!! off + 2 ^ 8 * d !!! (off + 1)%nat + 2 ^ 16 * d !!! (off + 2)%nat + 2 ^ 24 * d !!! (off + 3)%nat.

Definition put32 (d : list Z) (off : nat) (v : Z) : list Z :=
  <[(off + 3)%nat := v / 2 ^ 24 mod 2 ^ 8]> (<[(off + 2)%nat := v / 2 ^ 16 mod 2 ^ 8]>
    (<[(off + 1)%nat := v / 2 ^ 8 mod 2 ^ 8]> (<[off := v mod 2 ^ 8]> d))).

Lemma put32_len d off v : length (put32 d off v) = length d.
Proof. unfold put32. by rewrite !length_insert. Qed.

Lemma get32_put32_eq d off v : (off + 4 <= length d)%nat -> get32 (put32 d off v) off = u32 v.
Proof.
  intros H. unfold get32, put32.
  rewrite !list_lookup_total_insert, !length_insert. repeat (case_decide; [|try lia]; try lia).
  unfold u32. change (2 ^ 32) with (2 ^ 8 * (2 ^ 8 * (2 ^ 8 * 2 ^ 8))). rewrite !Z.rem_mul_r, !Z.div_div by lia.
  change (2 ^ 8 * 2 ^ 8) with (2 ^ 16).
  change (2 ^ 16 * 2 ^ 8) with (2 ^ 24). lia.
Qed.

Lemma get32_put32_ne d off v off' :
  (off + 4 <= off' \/ off' + 4 <= off)%nat -> get32 (put32 d off v) off' = get32 d off'.
Proof. intros H. unfold get32, put32. by rewrite !list_lookup_total_insert_ne by lia. Qed.

(** The 16-bit word at byte offset [off]. *)
Definition get16 (d : list Z) (off : nat) : Z := d !!! off + 2 ^ 8 * d !!! (off + 1)%nat.

Definition put16 (d : list Z) (off : nat) (v : Z) : list Z :=
  <[(off + 1)%nat := v / 2 ^ 8 mod 2 ^ 8]> (<[off := v mod 2 ^ 8]> d).

(** ** The structures of kernel/fs.h *)

(** [struct superblock]. *)
Record superblock := SB {
  sb_magic : Z; sb_size : Z; sb_nblocks : Z; sb_ninodes : Z; sb_nlog : Z; sb_logstart : Z; sb_inodestart : Z; sb_bmapstart : Z }.
Definition FSMAGIC : Z := 0x10203040.

Definition get_superblock (d : list Z) : superblock :=
  {| sb_magic := get32 d 0; sb_size := get32 d 4; sb_nblocks := get32 d 8; sb_ninodes := get32 d 12;
     sb_nlog := get32 d 16; sb_logstart := get32 d 20; sb_inodestart := get32 d 24; sb_bmapstart := get32 d 28 |}.

Definition NDIRECT : Z := 12.
Definition NINDIRECT : Z := 1024 / 4.
Definition MAXFILE : Z := NDIRECT + NINDIRECT.

(** [struct dinode]: three shorts, a link count, the size and the block addresses. *)
Record dinode := Dinode { d_type : Z; d_major : Z; d_minor : Z; d_nlink : Z; d_size : Z; d_addrs : list Z }.
Definition dinode_size : nat := 64.

Definition get_addrs (d : list Z) (off : nat) : list Z := (fun k => get32 d (off + 12 + 4 * k)) <$> seq 0 13.
Definition get_dinode (d : list Z) (off : nat) : dinode :=
  {| d_type := s16 (get16 d off); d_major := s16 (get16 d (off + 2)); d_minor := s16 (get16 d (off + 4));
     d_nlink := s16 (get16 d (off + 6)); d_size := get32 d (off + 8); d_addrs := get_addrs d off |}.

(** [memmove(dip->addrs, ip->addrs, sizeof(ip->addrs))] *)
Fixpoint put_addrs (d : list Z) (off : nat) (a : list Z) : list Z :=
  match a with
  | [] => d
  | x :: a' => put_addrs (put32 d off x) (off + 4) a'
  end.
Definition put_dinode (d : list Z) (off : nat) (x : dinode) : list Z :=
  let d := put16 d off (d_type x) in
  let d := put16 d (off + 2) (d_major x) in
  let d := put16 d (off + 4) (d_minor x) in
  let d := put16 d (off + 6) (d_nlink x) in
  let d := put32 d (off + 8) (d_size x) in
  put_addrs d (off + 12) (d_addrs x).

(** [memset(dip, 0, sizeof(dip[0]))] *)
Definition zero_dinode : dinode := {| d_type := 0; d_major := 0; d_minor := 0; d_nlink := 0; d_size := 0; d_addrs := replicate 13 0 |}.

(** Where an inode or a bit of the free map is. *)
Definition IPB : Z := 1024 / 64.
Definition IBLOCK (i : Z) (sb : superblock) : Z := u32 (i / IPB + sb_inodestart sb).
Definition BPB : Z := 1024 * 8.
Definition BBLOCK (b : Z) (sb : superblock) : Z := u32 (b / BPB + sb_bmapstart sb).

Definition DIRSIZ : Z := 14.
Definition dirent_size : Z := 16.

(** ** Reading back what was written *)

(** [d] and [d'] agree on the [n] bytes from [a] on. *)
Definition same_bytes (d d' : list Z) (a n : nat) : Prop := forall k, (a <= k < a + n)%nat -> d' !!! k = d !!! k.

Lemma same_bytes_trans d d1 d2 a n : same_bytes d d1 a n -> same_bytes d1 d2 a n -> same_bytes d d2 a n.
Proof. intros H1 H2 k Hk. by rewrite H2, H1. Qed.

Lemma same_bytes_sub d d' a n a' n' : same_bytes d d' a n -> (a <= a')%nat -> (a' + n' <= a + n)%nat -> same_bytes d d' a' n'.
Proof. intros H H1 H2 k Hk. apply H. lia. Qed.

Lemma put16_out d off v a n : (a + n <= off \/ off + 2 <= a)%nat -> same_bytes d (put16 d off v) a n.
Proof. intros H k Hk. unfold put16. by rewrite !list_lookup_total_insert_ne by lia. Qed.

Lemma put32_out d off v a n : (a + n <= off \/ off + 4 <= a)%nat -> same_bytes d (put32 d off v) a n.
Proof. intros H k Hk. unfold put32. by rewrite !list_lookup_total_insert_ne by lia. Qed.

Lemma get16_same d d' off : same_bytes d d' off 2 -> get16 d' off = get16 d off.
Proof. intros H. unfold get16. by rewrite !H by lia. Qed.

Lemma get32_same d d' off : same_bytes d d' off 4 -> get32 d' off = get32 d off.
Proof. intros H. unfold get32. by rewrite !H by lia. Qed.

Lemma put16_len d off v : length (put16 d off v) = length d.
Proof. unfold put16. by rewrite !length_insert. Qed.

Lemma get16_put16 d off v : (off + 2 <= length d)%nat -> get16 (put16 d off v) off = v mod 2 ^ 16.
Proof.
  intros H. unfold get16, put16. rewrite list_lookup_total_insert_ne by lia. rewrite !list_lookup_total_insert_eq by (rewrite ?length_insert; lia).
  change (2 ^ 16) with (2 ^ 8 * 2 ^ 8). rewrite Z.rem_mul_r by lia. lia.
Qed.

Lemma s16_mod v : - 2 ^ 15 <= v < 2 ^ 15 -> s16 (v mod 2 ^ 16) = v.
Proof.
  intros H. unfold s16, signed. cbn -[Z.pow]. rewrite Z.mod_mod by lia. change (2 ^ 16) with (2 * 2 ^ 15) in *.
  Z.to_euclidean_division_equations. case_match; lia.
Qed.

Lemma put_addrs_len d off a : length (put_addrs d off a) = length d.
Proof. revert d off. induction a as [|x a IH]; intros d off; cbn [put_addrs]; [done|]. by rewrite IH, put32_len. Qed.

Lemma put_addrs_out d off a b n : (b + n <= off \/ off + 4 * length a <= b)%nat -> same_bytes d (put_addrs d off a) b n.
Proof.
  revert d off. induction a as [|x a IH]; intros d off H; cbn [put_addrs length] in *; [done|].
  eapply same_bytes_trans; [apply (put32_out d off x); lia|apply IH; lia].
Qed.

Lemma get32_put_addrs d off a k x :
  (off + 4 * length a <= length d)%nat -> a !! k = Some x -> get32 (put_addrs d off a) (off + 4 * k) = u32 x.
Proof.
  revert d off k. induction a as [|y a IH]; intros d off k Hl Hk; [done|]. cbn [put_addrs length] in *. destruct k as [|k]; cbn in Hk.
  - simplify_eq. rewrite Nat.mul_0_r, Nat.add_0_r. rewrite (get32_same (put32 d off x)) by (apply put_addrs_out; lia).
    apply get32_put32_eq. lia.
  - replace (off + 4 * S k)%nat with ((off + 4) + 4 * k)%nat by lia. apply IH; [rewrite put32_len; lia|done].
Qed.

(** The values the fields of a [struct dinode] can have. *)
Record wf_dinode (x : dinode) : Prop := {
  wd_type : - 2 ^ 15 <= d_type x < 2 ^ 15;
  wd_major : - 2 ^ 15 <= d_major x < 2 ^ 15;
  wd_minor : - 2 ^ 15 <= d_minor x < 2 ^ 15;
  wd_nlink : - 2 ^ 15 <= d_nlink x < 2 ^ 15;
  wd_size : 0 <= d_size x < 2 ^ 32;
  wd_len : length (d_addrs x) = 13%nat;
  wd_addrs : Forall (fun a => 0 <= a < 2 ^ 32) (d_addrs x) }.

Lemma put_dinode_len d off x : length (put_dinode d off x) = length d.
Proof. unfold put_dinode. by rewrite put_addrs_len, put32_len, !put16_len. Qed.

(** A dinode written over a block leaves the rest of the block. *)
Lemma put_dinode_out d off x a n :
  length (d_addrs x) = 13%nat -> (a + n <= off \/ off + dinode_size <= a)%nat -> same_bytes d (put_dinode d off x) a n.
Proof.
  intros Hl H. unfold dinode_size in H. unfold put_dinode.
  eapply same_bytes_trans; [|apply put_addrs_out; lia]. eapply same_bytes_trans; [|apply put32_out; lia].
  do 3 (eapply same_bytes_trans; [|apply put16_out; lia]). apply put16_out. lia.
Qed.

Lemma get_dinode_same d d' off : same_bytes d d' off dinode_size -> get_dinode d' off = get_dinode d off.
Proof.
  intros H. unfold dinode_size in H. unfold get_dinode, get_addrs.
  assert (S : forall a n, (off <= a)%nat -> (a + n <= off + 64)%nat -> same_bytes d d' a n) by (intros; eapply same_bytes_sub; eauto).
  f_equal; try (f_equal; apply get16_same, S; lia); [apply get32_same, S; lia|].
  apply list_fmap_ext. intros i k Hk. apply lookup_seq in Hk. apply get32_same, S; lia.
Qed.

Lemma get_put_dinode d off x : wf_dinode x -> (off + dinode_size <= length d)%nat -> get_dinode (put_dinode d off x) off = x.
Proof.
  intros [] H. unfold dinode_size in H. unfold get_dinode, put_dinode.
  set (d1 := put16 d off (d_type x)). set (d2 := put16 d1 (off + 2) (d_major x)). set (d3 := put16 d2 (off + 4) (d_minor x)).
  set (d4 := put16 d3 (off + 6) (d_nlink x)). set (d5 := put32 d4 (off + 8) (d_size x)).
  assert (L : length d1 = length d /\ length d2 = length d /\ length d3 = length d /\ length d4 = length d /\ length d5 = length d)
    by (unfold d5, d4, d3, d2, d1; rewrite ?put32_len, ?put16_len; done). destruct L as (L1 & L2 & L3 & L4 & L5).
  assert (A : forall a n, (a + n <= off + 12)%nat -> same_bytes d5 (put_addrs d5 (off + 12) (d_addrs x)) a n) by (intros; apply put_addrs_out; lia).
  assert (S5 : forall a n, (a + n <= off + 8)%nat -> same_bytes d4 d5 a n) by (intros; apply put32_out; lia).
  assert (S4 : forall a n, (a + n <= off + 6)%nat -> same_bytes d3 d4 a n) by (intros; apply put16_out; lia).
  assert (S3 : forall a n, (a + n <= off + 4)%nat -> same_bytes d2 d3 a n) by (intros; apply put16_out; lia).
  assert (S2 : forall a n, (a + n <= off + 2)%nat -> same_bytes d1 d2 a n) by (intros; apply put16_out; lia).
  destruct x as [ty mj mn nl sz ad]. cbn [d_type d_major d_minor d_nlink d_size d_addrs] in *. f_equal.
  - rewrite (get16_same d1); [unfold d1; rewrite get16_put16 by lia; by apply s16_mod|].
    do 4 (eapply same_bytes_trans; [|(apply A || apply S5 || apply S4 || apply S3); lia]). apply S2. lia.
  - rewrite (get16_same d2); [unfold d2; rewrite get16_put16 by lia; by apply s16_mod|].
    do 3 (eapply same_bytes_trans; [|(apply A || apply S5 || apply S4); lia]). apply S3. lia.
  - rewrite (get16_same d3); [unfold d3; rewrite get16_put16 by lia; by apply s16_mod|].
    do 2 (eapply same_bytes_trans; [|(apply A || apply S5); lia]). apply S4. lia.
  - rewrite (get16_same d4); [unfold d4; rewrite get16_put16 by lia; by apply s16_mod|].
    eapply same_bytes_trans; [|apply A; lia]. apply S5. lia.
  - rewrite (get32_same d5) by (apply A; lia). unfold d5. rewrite get32_put32_eq by lia. by apply u32_small.
  - apply list_eq. intros k. unfold get_addrs. rewrite list_lookup_fmap. destruct (decide (k < 13)%nat) as [Hk|Hk].
    + rewrite lookup_seq_lt by done. destruct (lookup_lt_is_Some_2 ad k) as [a Ha]; [lia|]. rewrite Ha. cbn [fmap option_fmap option_map Nat.add].
      rewrite (get32_put_addrs d5 (off + 12) ad k a) by (done || lia). f_equal. apply u32_small.
      rewrite Forall_lookup in wd_addrs0. by apply (wd_addrs0 k).
    + rewrite !lookup_ge_None_2; [done|lia|rewrite length_seq; lia].
Qed.
