(* ===== verification/Log.v ===== *)
(** kernel/log.c: the write-ahead log, over the buffer cache. *)

From S2P Require Import Prelude Riscv Sync Sleeplock Bio DiskFmt.


(** [struct log] with its [struct logheader]; the lock is [LLog]. *)
Record logst := Log {
  l_start : Z; l_size : Z; l_outstanding : Z; l_committing : Z; l_dev : Z;
  lh_n : Z; lh_block : list Z }.

Record lstate := LState { l_bio : bstate; log : logst }.

#[global] Instance lstate_bio : Lens lstate bstate.
Proof. refine {| lget := l_bio; lput := fun b s => {| l_bio := b; log := log s |} |}; lens_laws lstate. Defined.
#[global] Instance lstate_held : Lens lstate lockset := lens_comp lstate_bio bstate_held.
#[global] Instance lstate_woken : Lens lstate (list chan) := lens_comp lstate_bio bstate_woken.

Definition set_log (f : logst -> logst) : M lstate unit := modify (fun s => {| l_bio := l_bio s; log := f (log s) |}).

Definition set_outstanding (x : Z) (g : logst) : logst :=
  {| l_start := l_start g; l_size := l_size g; l_outstanding := x; l_committing := l_committing g;
     l_dev := l_dev g; lh_n := lh_n g; lh_block := lh_block g |}.
Definition set_committing (x : Z) (g : logst) : logst :=
  {| l_start := l_start g; l_size := l_size g; l_outstanding := l_outstanding g; l_committing := x;
     l_dev := l_dev g; lh_n := lh_n g; lh_block := lh_block g |}.
Definition set_lh_n (x : Z) (g : logst) : logst :=
  {| l_start := l_start g; l_size := l_size g; l_outstanding := l_outstanding g; l_committing := l_committing g;
     l_dev := l_dev g; lh_n := x; lh_block := lh_block g |}.
Definition set_lh_block (i : nat) (x : Z) (g : logst) : logst :=
  {| l_start := l_start g; l_size := l_size g; l_outstanding := l_outstanding g; l_committing := l_committing g;
     l_dev := l_dev g; lh_n := lh_n g; lh_block := <[i := x]> (lh_block g) |}.

Section Log.
Context {WK : Wakeups}.

(** Calls into the buffer cache. *)
Definition l_bread (dev blockno : Z) : M lstate nat := zoom (bread (u32 dev) (u32 blockno)).
Definition l_data (i : nat) : M lstate block := gets (fun s => b_data (bufs (l_bio s) !!! i)).
Definition l_put (i : nat) (d : block) : M lstate unit := zoom (updb i (set_data d)).
Definition l_bwrite (i : nat) : M lstate unit := zoom (bwrite i).
Definition l_brelse (i : nat) : M lstate unit := zoom (brelse i).
Definition l_bunpin (i : nat) : M lstate unit := zoom (bunpin i).
Definition l_bpin (i : nat) : M lstate unit := zoom (bpin i).

(** One iteration of [install_trans]. *)
Definition install_block (g : logst) (tail : nat) : M lstate unit :=
  let! lbuf := l_bread (l_dev g) (l_start g + Z.of_nat tail + 1) in
  let! dbuf := l_bread (l_dev g) (lh_block g !!! tail) in
  let! d := l_data lbuf in
  l_put dbuf d ;;
  l_bwrite dbuf ;;
  l_bunpin dbuf ;;
  l_brelse lbuf ;;
  l_brelse dbuf.
Fixpoint install_trans_loop (fuel tail : nat) : M lstate unit :=
  match fuel with
  | O => nofuel
  | S fuel' =>
      let! g := gets log in
      if Z.of_nat tail <? lh_n g then install_block g tail ;; install_trans_loop fuel' (S tail)
      else mret_ tt
  end.
Definition install_trans : M lstate unit :=
  let! g := gets log in install_trans_loop (S (Z.to_nat (lh_n g))) 0.

(** [log.lh.block[i] = lh->block[i]], where [d] is the header block. *)
Fixpoint read_head_loop (d : block) (fuel i : nat) : M lstate unit :=
  match fuel with
  | O => nofuel
  | S fuel' =>
      let! g := gets log in
      if Z.of_nat i <? lh_n g
      then set_log (set_lh_block i (s32 (get32 d (4 + 4 * i)))) ;; read_head_loop d fuel' (S i)
      else mret_ tt
  end.
Definition read_head : M lstate unit :=
  let! g := gets log in
  let! buf := l_bread (l_dev g) (l_start g) in
  let! d := l_data buf in
  set_log (set_lh_n (s32 (get32 d 0))) ;;
  read_head_loop d (S (Z.to_nat (s32 (get32 d 0)))) 0 ;;
  l_brelse buf.

(** [hb->block[i] = log.lh.block[i]] *)
Fixpoint write_head_loop (buf : nat) (fuel i : nat) : M lstate unit :=
  match fuel with
  | O => nofuel
  | S fuel' =>
      let! g := gets log in
      if Z.of_nat i <? lh_n g
      then let! d := l_data buf in
           l_put buf (put32 d (4 + 4 * i) (lh_block g !!! i)) ;; write_head_loop buf fuel' (S i)
      else mret_ tt
  end.
Definition write_head : M lstate unit :=
  let! g := gets log in
  let! buf := l_bread (l_dev g) (l_start g) in
  let! d := l_data buf in
  l_put buf (put32 d 0 (lh_n g)) ;;
  write_head_loop buf (S (Z.to_nat (lh_n g))) 0 ;;
  l_bwrite buf ;;
  l_brelse buf.

Definition recover_from_log : M lstate unit :=
  read_head ;; install_trans ;; set_log (set_lh_n 0) ;; write_head.

(** [sizeof(struct logheader)] *)
Definition logheader_size : Z := 4 + 4 * LOGSIZE.

Definition initlog (dev logstart nlog : Z) : M lstate unit :=
  if BSIZE <=? logheader_size then panic "initlog: too big logheader" else
  initlock LLog ;;
  set_log (fun g => {| l_start := s32 logstart; l_size := s32 nlog; l_outstanding := l_outstanding g;
    l_committing := l_committing g; l_dev := dev; lh_n := lh_n g; lh_block := lh_block g |}) ;;
  recover_from_log.

(** [&log] as a sleep channel. *)
Fixpoint begin_op_loop (n : nat) : M lstate unit :=
  match n with
  | O => nofuel
  | S n' =>
      let! g := gets log in
      if negb (l_committing g =? 0) then sleep ChanLog LLog ;; begin_op_loop n'
      else if LOGSIZE <? lh_n g + (l_outstanding g + 1) * MAXOPBLOCKS
      then sleep ChanLog LLog ;; begin_op_loop n'
      else set_log (set_outstanding (l_outstanding g + 1)) ;; release LLog
  end.
Definition begin_op : M lstate unit := acquire LLog ;; begin_op_loop (S max_wakeups).

(** One iteration of [write_log]. *)
Definition write_log_block (g : logst) (tail : nat) : M lstate unit :=
  let! to := l_bread (l_dev g) (l_start g + Z.of_nat tail + 1) in
  let! from := l_bread (l_dev g) (lh_block g !!! tail) in
  let! d := l_data from in
  l_put to d ;;
  l_bwrite to ;;
  l_brelse from ;;
  l_brelse to.
Fixpoint write_log_loop (fuel tail : nat) : M lstate unit :=
  match fuel with
  | O => nofuel
  | S fuel' =>
      let! g := gets log in
      if Z.of_nat tail <? lh_n g then write_log_block g tail ;; write_log_loop fuel' (S tail)
      else mret_ tt
  end.
Definition write_log : M lstate unit :=
  let! g := gets log in write_log_loop (S (Z.to_nat (lh_n g))) 0.

Definition commit : M lstate unit :=
  let! g := gets log in
  if 0 <? lh_n g then
    write_log ;; write_head ;; install_trans ;; set_log (set_lh_n 0) ;; write_head
  else mret_ tt.

Definition end_op : M lstate unit :=
  acquire LLog ;;
  let! g0 := gets log in
  set_log (set_outstanding (l_outstanding g0 - 1)) ;;
  let! g := gets log in
  if negb (l_committing g =? 0) then panic "log.committing" else
  let do_commit := l_outstanding g =? 0 in
  (if do_commit then set_log (set_committing 1) else wakeup ChanLog) ;;
  release LLog ;;
  (if do_commit then
     commit ;;
     acquire LLog ;;
     set_log (set_committing 0) ;;
     wakeup ChanLog ;;
     release LLog
   else mret_ tt).

(** [for (i = 0; i < log.lh.n; i++) if (log.lh.block[i] == b->blockno) break;] *)
Fixpoint log_index (blockno : Z) (bs : list Z) : nat :=
  match bs with
  | [] => O
  | b :: bs' => if u32 b =? blockno then O else S (log_index blockno bs')
  end.
Definition log_write (b : nat) : M lstate unit :=
  let! g := gets log in
  if (LOGSIZE <=? lh_n g) || (l_size g - 1 <=? lh_n g) then panic "too big a transaction" else
  if l_outstanding g <? 1 then panic "log_write outside of trans" else
  acquire LLog ;;
  let! blockno := gets (fun s => b_blockno (bufs (l_bio s) !!! b)) in
  let i := log_index blockno (take (Z.to_nat (lh_n g)) (lh_block g)) in
  set_log (set_lh_block i (s32 blockno)) ;;
  (if Z.of_nat i =? lh_n g then l_bpin b ;; set_log (set_lh_n (lh_n g + 1)) else mret_ tt) ;;
  release LLog.
End Log.
