(* ===== verification/LogSpec.v ===== *)
(** kernel/log.c, block by block: what each step of the log does to the
    contents of the blocks, to the disk and to the blocks in use; and whole runs. *)

From S2P Require Import Prelude Riscv Sync Sleeplock Bio BioSpec BioList BioAbs DiskFmt Log.

(** ** The header block *)

Definition hdr_n (d : block) : Z := s32 (get32 d 0).
Definition hdr_block (d : block) (i : nat) : Z := s32 (get32 d (4 + 4 * i)).
Definition hdr_blocks (d : block) : list Z := hdr_block d <$> seq 0 (Z.to_nat (hdr_n d)).

(** The header for the blocks [B], written over [d]. *)
Fixpoint put_blocks (d : block) (i : nat) (B : list Z) : block :=
  match B with
  | [] => d
  | b :: B' => put_blocks (put32 d (4 + 4 * i) b) (S i) B'
  end.
Definition header (d : block) (B : list Z) : block := put_blocks (put32 d 0 (Z.of_nat (length B))) 0 B.

Lemma put_blocks_len d i B : length (put_blocks d i B) = length d.
Proof. revert d i. induction B as [|b B IH]; intros d i; cbn [put_blocks]; [done|]. by rewrite IH, put32_len. Qed.

Lemma header_len d B : length (header d B) = length d.
Proof. unfold header. by rewrite put_blocks_len, put32_len. Qed.

Lemma put_blocks_before d i B off :
  (off + 4 <= 4 + 4 * i)%nat -> get32 (put_blocks d i B) off = get32 d off.
Proof.
  revert d i. induction B as [|b B IH]; intros d i H; cbn [put_blocks length]; [done|].
  rewrite IH by lia. apply get32_put32_ne. lia.
Qed.

Lemma put_blocks_at d i B k b :
  (4 + 4 * (i + length B) <= length d)%nat -> B !! k = Some b ->
  get32 (put_blocks d i B) (4 + 4 * (i + k)) = u32 b.
Proof.
  revert d i k. induction B as [|b' B IH]; intros d i k H Hk; [done|]. cbn [put_blocks length] in *.
  destruct k as [|k]; cbn in Hk.
  - simplify_eq. rewrite Nat.add_0_r, put_blocks_before by lia. apply get32_put32_eq. lia.
  - rewrite <- (IH (put32 d (4 + 4 * i) b') (S i) k); [f_equal; lia| |done]. rewrite put32_len. lia.
Qed.

(** A block number fits an [int]. *)
Definition blk (b : Z) : Prop := 0 <= b < 2 ^ 31.

Lemma header_n d B : (length d = 1024)%nat -> (length B <= 30)%nat -> hdr_n (header d B) = Z.of_nat (length B).
Proof.
  intros Hd HB. unfold hdr_n, header. rewrite put_blocks_before by lia.
  rewrite get32_put32_eq by lia. apply s32_u32. lia.
Qed.

(** Reading back the header that was written. *)
Lemma header_blocks d B :
  (length d = 1024)%nat -> (length B <= 30)%nat -> Forall blk B -> hdr_blocks (header d B) = B.
Proof.
  intros Hd HB HF. unfold hdr_blocks. rewrite header_n by done. rewrite Nat2Z.id.
  apply list_eq. intros k. rewrite list_lookup_fmap. destruct (decide (k < length B)%nat) as [Hk|Hk].
  - rewrite lookup_seq_lt by done. destruct (lookup_lt_is_Some_2 B k Hk) as [b Hb]. rewrite Hb. cbn [fmap option_fmap option_map Nat.add].
    f_equal. unfold hdr_block, header. pose proof (put_blocks_at (put32 d 0 (Z.of_nat (length B))) 0 B k b) as E.
    change (0 + k)%nat with k in E. rewrite E; [|rewrite put32_len; lia|done].
    rewrite Forall_lookup in HF. apply HF in Hb as Hr. unfold blk in Hr. apply s32_u32. lia.
  - rewrite !lookup_ge_None_2; [done|lia|rewrite length_seq; lia].
Qed.

(** ** Steps *)

Lemma rep_clean s l R b : rep s l R -> R !! b = None -> view s b = disk_block (disk s) b.
Proof.
  intros Hrep HR. pose proof (rp_inv _ _ _ Hrep) as I. destruct (cached_dec s b) as [[i Hc]|Hn].
  - rewrite (view_shown s l b i I Hc). rewrite (rep_cached s l R b i Hrep Hc) in HR.
    destruct (Z.eqb_spec (b_refcnt (bufs s !!! i)) 0) as [H0|]; [|done]. destruct Hc as [Hi Hm].
    apply matches_spec in Hm as [_ Hb]. unfold shown. destruct (Z.eqb_spec (b_valid (bufs s !!! i)) 0) as [|Hv]; [by rewrite Hb|].
    rewrite <- Hb. by apply (bi_clean _ _ I i Hi).
  - by apply view_uncached.
Qed.

Lemma log_zoom {A} (m : M bstate A) bs g a bs' :
  m bs = Ret a bs' -> zoom m (LState bs g) = Ret a (LState bs' g).
Proof. exact (zoom_ret m (LState bs g) a bs'). Qed.

(** The next statement, a call into the buffer cache, does [E]. *)
Ltac bio_step E := erewrite bind_ret by (apply log_zoom; exact E).

Section LogSpec.
Context {WK : Wakeups}.

Lemma l_bread_eq dev b : dev = ROOTDEV -> blk b -> l_bread dev b = zoom (bread ROOTDEV b).
Proof. intros -> Hb. unfold l_bread, blk in *. rewrite !u32_small by (unfold ROOTDEV; lia). done. Qed.

(** [write_log] for one block: the log block [lb] gets the contents of the
    pinned home block [hb]. *)
Lemma write_log_block_ok bs l R g tail hb :
  rep bs l R -> l_dev g = ROOTDEV -> lh_block g !!! tail = hb ->
  let lb := l_start g + Z.of_nat tail + 1 in
  blk lb -> blk hb -> lb <> hb ->
  R !! lb = None -> R !! hb = Some (1, false) -> (size R < head)%nat ->
  exists bs' l', write_log_block g tail (LState bs g) = Ret tt (LState bs' g) /\ rep bs' l' R /\
    (forall b, view bs' b = if decide (b = lb) then view bs hb else view bs b) /\
    disk bs' = <[lb := view bs hb]> (disk bs) /\ dhist bs' = (lb, view bs hb) :: dhist bs /\ b_pid bs' = b_pid bs.
Proof.
  intros H0 Hdev Ehb lb Hlb Hhb Hne Rlb Rhb Hsz. unfold write_log_block. rewrite Ehb, !l_bread_eq by done. fold lb.
  destruct (bread_abs bs l R lb) as (i & s1 & E1 & H1 & O1 & D1 & V1 & K1 & T1 & P1 & F1); [done|by unfold can_read; rewrite Rlb|].
  bio_step E1. unfold refs in H1. rewrite Rlb in H1.
  destruct (bread_abs s1 l (<[lb := (0 + 1, true)]> R) hb) as (j & s2 & E2 & H2 & O2 & D2 & V2 & K2 & T2 & P2 & F2);
    [done|unfold can_read; by rewrite lookup_insert_ne, Rhb by done|].
  bio_step E2. unfold refs in H2. rewrite lookup_insert_ne, Rhb in H2 by done.
  destruct (F2 i lb) as [O1' _]; [done|done|]. mstep. cbn [l_bio]. rewrite D2, V1.
  destruct (set_data_abs s2 l _ i lb (view bs hb) H2 O1') as (s3 & E3 & H3 & O3 & D3 & V3 & K3 & T3 & P3 & F3).
  bio_step E3.
  destruct (bwrite_abs s3 l _ i lb H3 O3) as (s4 & E4 & H4 & B4 & V4 & K4 & T4 & P4). bio_step E4.
  rewrite D3 in K4, T4. destruct (F3 j hb) as [O2' _]; [done|done|].
  apply (owns_same _ s4) in O2', O3; try done.
  destruct (brelse_abs s4 l _ j hb 2 H4 O2') as (s5 & l5 & E5 & H5 & V5 & K5 & T5 & P5 & F5);
    [by rewrite lookup_insert_eq|done|].
  bio_step E5. destruct (F5 i lb) as [O3' _]; [done|done|].
  destruct (brelse_abs s5 l5 _ i lb 1 H5 O3') as (s6 & l6 & E6 & H6 & V6 & K6 & T6 & P6 & _).
  { cbn. by rewrite !lookup_insert_ne, lookup_insert_eq by done. }
  { intros _. rewrite V5, V4, V3, K5, K4, disk_block_insert, !decide_True by done. done. }
  exists s6, l6. split; [by apply log_zoom|].
  assert (EV : forall b, view s6 b = if decide (b = lb) then view bs hb else view bs b).
  { intros b. rewrite V6, V5, V4, V3. case_decide; [done|]. by rewrite V2, V1. }
  split_and!; [|done|congruence..]. cbn in H6. rewrite insert_insert_eq in H6.
  replace R with (delete lb (<[hb:=(1, false)]> (<[lb:=(1, true)]> R))); [done|].
  rewrite insert_insert_ne, delete_insert_eq by done. rewrite delete_insert_ne, delete_id by done. by apply insert_id.
Qed.

(** [install_trans] for one block, after a commit: the home block [hb] gets the
    contents of the log block and is no longer pinned. *)
Lemma install_block_ok bs l R g tail hb :
  rep bs l R -> l_dev g = ROOTDEV -> lh_block g !!! tail = hb ->
  let lb := l_start g + Z.of_nat tail + 1 in
  blk lb -> blk hb -> lb <> hb ->
  R !! lb = None -> R !! hb = Some (1, false) -> (size R < head)%nat ->
  exists bs' l', install_block g tail (LState bs g) = Ret tt (LState bs' g) /\ rep bs' l' (delete hb R) /\
    (forall b, view bs' b = if decide (b = hb) then view bs lb else view bs b) /\
    disk bs' = <[hb := view bs lb]> (disk bs) /\ dhist bs' = (hb, view bs lb) :: dhist bs /\ b_pid bs' = b_pid bs.
Proof.
  intros H0 Hdev Ehb lb Hlb Hhb Hne Rlb Rhb Hsz. unfold install_block. rewrite Ehb, !l_bread_eq by done. fold lb.
  destruct (bread_abs bs l R lb) as (i & s1 & E1 & H1 & O1 & D1 & V1 & K1 & T1 & P1 & F1); [done|by unfold can_read; rewrite Rlb|].
  bio_step E1. unfold refs in H1. rewrite Rlb in H1.
  destruct (bread_abs s1 l (<[lb := (0 + 1, true)]> R) hb) as (j & s2 & E2 & H2 & O2 & D2 & V2 & K2 & T2 & P2 & F2);
    [done|unfold can_read; by rewrite lookup_insert_ne, Rhb by done|].
  bio_step E2. unfold refs in H2. rewrite lookup_insert_ne, Rhb in H2 by done.
  destruct (F2 i lb) as [O1' D1']; [done|done|]. mstep. cbn [l_bio]. rewrite D1', D1.
  destruct (set_data_abs s2 l _ j hb (view bs lb) H2 O2) as (s3 & E3 & H3 & O3 & D3 & V3 & K3 & T3 & P3 & F3).
  bio_step E3. destruct (F3 i lb) as [O1'' _]; [done|done|].
  destruct (bwrite_abs s3 l _ j hb H3 O3) as (s4 & E4 & H4 & B4 & V4 & K4 & T4 & P4). bio_step E4.
  rewrite D3 in K4, T4. apply (owns_same _ s4) in O1'', O3; try done.
  destruct (bunpin_abs s4 l _ j hb 2 H4 O3) as (s5 & E5 & H5 & O5 & D5 & V5 & K5 & T5 & P5 & F5);
    [by rewrite lookup_insert_eq|done|]. bio_step E5. destruct (F5 i lb) as [O6 _]; [done|done|].
  destruct (brelse_abs s5 l _ i lb 1 H5 O6) as (s6 & l6 & E6 & H6 & V6 & K6 & T6 & P6 & F6).
  { by rewrite !lookup_insert_ne, lookup_insert_eq by done. }
  { intros _. rewrite V5, V4, V3, K5, K4, disk_block_insert, !decide_False by done.
    rewrite V2, V1, K3, K2, K1. by eapply rep_clean. }
  bio_step E6. destruct (F6 j hb) as [O7 _]; [done|done|].
  destruct (brelse_abs s6 l6 _ j hb 1 H6 O7) as (s7 & l7 & E7 & H7 & V7 & K7 & T7 & P7 & _).
  { cbn. by rewrite lookup_delete_ne, lookup_insert_eq. }
  { intros _. rewrite V6, V5, V4, V3, K6, K5, K4, disk_block_insert, !decide_True by done. done. }
  exists s7, l7. split; [by apply log_zoom|].
  assert (EV : forall b, view s7 b = if decide (b = hb) then view bs lb else view bs b).
  { intros b. rewrite V7, V6, V5, V4, V3. case_decide; [done|]. by rewrite V2, V1. }
  split_and!; [|done|congruence..]. cbn in H7. rewrite insert_insert_eq in H7.
  replace (delete hb R) with (delete hb (delete lb (<[hb:=(1, true)]> (<[lb:=(1, true)]> R)))); [done|].
  rewrite insert_insert_ne, delete_insert_eq by done. by rewrite delete_insert_ne, delete_insert_eq, (delete_id R lb) by done.
Qed.

(** The header is built in the owned header block. *)
Lemma write_head_loop_ok bs l R g i k B :
  rep bs l R -> owns bs i (l_start g) -> lh_n g = Z.of_nat k + Z.of_nat (length B) ->
  (forall m b, B !! m = Some b -> lh_block g !!! (k + m)%nat = b) ->
  exists bs', write_head_loop i (S (length B)) k (LState bs g) = Ret tt (LState bs' g) /\
    rep bs' l R /\ owns bs' i (l_start g) /\
    b_data (bufs bs' !!! i) = put_blocks (b_data (bufs bs !!! i)) k B /\
    (forall b, b <> l_start g -> view bs' b = view bs b) /\
    disk bs' = disk bs /\ dhist bs' = dhist bs /\ b_pid bs' = b_pid bs.
Proof.
  revert bs k. induction B as [|b B IH]; intros bs k H0 O Hn HB.
  - exists bs. cbn [write_head_loop length]. mstep. cbn [log]. cbn in Hn. rewrite (proj2 (Z.ltb_ge _ _)) by lia. done.
  - cbn [length] in *. remember (S (length B)) as f. cbn [write_head_loop]. do 1 mstep. cbn [log].
    rewrite (proj2 (Z.ltb_lt _ _)) by lia. mstep. cbn [l_bio].
    pose proof (HB 0%nat b eq_refl) as Eb. rewrite Nat.add_0_r in Eb. rewrite Eb.
    destruct (set_data_abs bs l R i _ (put32 (b_data (bufs bs !!! i)) (4 + 4 * k) b) H0 O)
      as (s1 & E1 & H1 & O1 & D1 & V1 & K1 & T1 & P1 & _). bio_step E1.
    destruct (IH s1 (S k) H1 O1) as (s2 & E2 & H2 & O2 & D2 & V2 & K2 & T2 & P2); [lia| |].
    { intros m b' Hm. rewrite <- (HB (S m) b' Hm). f_equal. lia. }
    exists s2. subst f. split_and!; try done; try congruence.
    + cbn [put_blocks]. by rewrite D2, D1.
    + intros b' Hb'. rewrite V2, V1, decide_False by done. done.
Qed.

(** [write_head] writes the header for the blocks of the transaction. *)
Lemma write_head_ok bs l R g B :
  rep bs l R -> l_dev g = ROOTDEV -> blk (l_start g) ->
  lh_n g = Z.of_nat (length B) -> (forall m b, B !! m = Some b -> lh_block g !!! m = b) ->
  R !! l_start g = None -> (size R < head)%nat ->
  let h := header (view bs (l_start g)) B in
  exists bs' l', write_head (LState bs g) = Ret tt (LState bs' g) /\ rep bs' l' R /\
    (forall b, view bs' b = if decide (b = l_start g) then h else view bs b) /\
    disk bs' = <[l_start g := h]> (disk bs) /\ dhist bs' = (l_start g, h) :: dhist bs /\ b_pid bs' = b_pid bs.
Proof.
  intros H0 Hdev Hst Hn HB Rst Hsz h. unfold write_head. mstep. cbn [log]. rewrite l_bread_eq by done.
  destruct (bread_abs bs l R (l_start g)) as (i & s1 & E1 & H1 & O1 & D1 & V1 & K1 & T1 & P1 & F1);
    [done|by unfold can_read; rewrite Rst|].
  bio_step E1. unfold refs in H1. rewrite Rst in H1. mstep. cbn [l_bio]. rewrite D1.
  destruct (set_data_abs s1 l _ i _ (put32 (view bs (l_start g)) 0 (lh_n g)) H1 O1)
      as (s2 & E2 & H2 & O2 & D2 & V2 & K2 & T2 & P2 & _). bio_step E2.
  destruct (write_head_loop_ok s2 l _ g i 0 B H2 O2) as (s3 & E3 & H3 & O3 & D3 & V3 & K3 & T3 & P3); [lia|done|].
  rewrite Hn, Nat2Z.id. rewrite (bind_ret _ _ _ _ _ E3). rewrite D2, Hn in D3. fold (header (view bs (l_start g)) B) in D3. fold h in D3.
  destruct (bwrite_abs s3 l _ i _ H3 O3) as (s4 & E4 & H4 & B4 & V4 & K4 & T4 & P4). bio_step E4.
  rewrite D3 in K4, T4. pose proof (owns_view s3 l i _ (rp_inv _ _ _ H3) O3) as V3s. rewrite D3 in V3s.
  apply (owns_same _ s4) in O3; try done.
  destruct (brelse_abs s4 l _ i _ 1 H4 O3) as (s5 & l5 & E5 & H5 & V5 & K5 & T5 & P5 & _).
  { by rewrite lookup_insert_eq. }
  { intros _. by rewrite V4, K4, disk_block_insert, decide_True, V3s. }
  exists s5, l5. split; [by apply log_zoom|]. split_and!; try congruence.
  - cbn in H5. rewrite delete_insert_eq, delete_id in H5; done.
  - intros b. rewrite V5, V4. case_decide as Hb; [by subst|]. rewrite V3, V2, decide_False, V1 by done. done.
Qed.

(** [install_trans] for one block, during recovery: the home block [hb] gets the
    contents of the log block; its buffer stays in use, with a wrapped count. *)
Lemma recover_block_ok bs l R g tail hb :
  rep bs l R -> l_dev g = ROOTDEV -> lh_block g !!! tail = hb ->
  let lb := l_start g + Z.of_nat tail + 1 in
  blk lb -> blk hb -> lb <> hb ->
  R !! lb = None -> R !! hb = None -> (size R + 1 < head)%nat ->
  exists bs' l', install_block g tail (LState bs g) = Ret tt (LState bs' g) /\
    rep bs' l' (<[hb := (2 ^ 32 - 1, false)]> R) /\
    (forall b, view bs' b = if decide (b = hb) then view bs lb else view bs b) /\
    disk bs' = <[hb := view bs lb]> (disk bs) /\ dhist bs' = (hb, view bs lb) :: dhist bs /\ b_pid bs' = b_pid bs.
Proof.
  intros H0 Hdev Ehb lb Hlb Hhb Hne Rlb Rhb Hsz. unfold install_block. rewrite Ehb, !l_bread_eq by done. fold lb.
  destruct (bread_abs bs l R lb) as (i & s1 & E1 & H1 & O1 & D1 & V1 & K1 & T1 & P1 & F1);
    [done|unfold can_read; rewrite Rlb; lia|].
  bio_step E1. unfold refs in H1. rewrite Rlb in H1.
  destruct (bread_abs s1 l (<[lb := (0 + 1, true)]> R) hb) as (j & s2 & E2 & H2 & O2 & D2 & V2 & K2 & T2 & P2 & F2);
    [done|unfold can_read; rewrite lookup_insert_ne, Rhb, map_size_insert, Rlb by done; cbn; lia|].
  bio_step E2. unfold refs in H2. rewrite lookup_insert_ne, Rhb in H2 by done.
  destruct (F2 i lb) as [O1' D1']; [done|done|]. mstep. cbn [l_bio]. rewrite D1', D1.
  destruct (set_data_abs s2 l _ j hb (view bs lb) H2 O2) as (s3 & E3 & H3 & O3 & D3 & V3 & K3 & T3 & P3 & F3).
  bio_step E3. destruct (F3 i lb) as [O1'' _]; [done|done|].
  destruct (bwrite_abs s3 l _ j hb H3 O3) as (s4 & E4 & H4 & B4 & V4 & K4 & T4 & P4). bio_step E4.
  rewrite D3 in K4, T4. apply (owns_same _ s4) in O1'', O3; try done.
  destruct (leak_abs s4 l _ i lb j hb H4 O1'' O3 Hne) as (s5 & s6 & s7 & l7 & E5 & E6 & E7 & H7 & V7 & K7 & T7 & P7).
  { by rewrite !lookup_insert_ne, lookup_insert_eq by done. }
  { by rewrite lookup_insert_eq. }
  { rewrite V4, V3, K4, disk_block_insert, !decide_False by done. rewrite V2, V1, K3, K2, K1. by eapply rep_clean. }
  bio_step E5. bio_step E6. exists s7, l7. split; [by apply log_zoom|].
  assert (EV : forall b, view s7 b = if decide (b = hb) then view bs lb else view bs b).
  { intros b. rewrite V7, V4, V3. case_decide; [done|]. by rewrite V2, V1. }
  split_and!; [|done|congruence..].
  rewrite insert_insert_ne, delete_insert_eq, delete_insert_ne, insert_insert_eq in H7 by done.
  by rewrite delete_id in H7.
Qed.

(** [read_head] loads the header. *)
Lemma read_head_loop_ok bs g d k C :
  lh_n g = Z.of_nat k + Z.of_nat (length C) ->
  (forall m b, C !! m = Some b -> hdr_block d (k + m) = b) -> (k + length C <= length (lh_block g))%nat ->
  exists blocks, read_head_loop d (S (length C)) k (LState bs g) =
      Ret tt (LState bs {| l_start := l_start g; l_size := l_size g; l_outstanding := l_outstanding g;
        l_committing := l_committing g; l_dev := l_dev g; lh_n := lh_n g; lh_block := blocks |}) /\
    length blocks = length (lh_block g) /\
    (forall m, (m < k)%nat -> blocks !!! m = lh_block g !!! m) /\
    (forall m b, C !! m = Some b -> blocks !!! (k + m)%nat = b).
Proof.
  revert g k. induction C as [|b C IH]; intros g k Hn HC Hlen.
  - exists (lh_block g). cbn [read_head_loop length]. mstep. cbn [log]. cbn in Hn.
    rewrite (proj2 (Z.ltb_ge _ _)) by lia. destruct g. done.
  - cbn [length] in *. remember (S (length C)) as f. cbn [read_head_loop]. mstep. cbn [log].
    rewrite (proj2 (Z.ltb_lt _ _)) by lia. mstep. cbn [log l_bio].
    pose proof (HC 0%nat b eq_refl) as Eb. rewrite Nat.add_0_r in Eb. unfold hdr_block in Eb. rewrite Eb.
    destruct (IH (set_lh_block k b g) (S k)) as (bl & E & Hl & Hlt & HC'); [cbn; lia| |cbn; rewrite length_insert; lia|].
    { intros m b' Hm. rewrite <- (HC (S m) b' Hm). f_equal. lia. }
    exists bl. subst f. rewrite E. split; [done|]. cbn in Hl, Hlt. rewrite length_insert in Hl. split; [done|]. split.
    + intros m Hm. rewrite Hlt by lia. by rewrite list_lookup_total_insert_ne by lia.
    + intros [|m] b' Hm; cbn in Hm; [simplify_eq|].
      * rewrite Nat.add_0_r, Hlt, list_lookup_total_insert_eq by lia. done.
      * rewrite <- (HC' m b' Hm). f_equal. lia.
Qed.
End LogSpec.

(** * Whole runs of kernel/log.c

    [write_log], [install_trans], [commit] and
    recovery, as sequences of disk writes. *)

(** ** Sequences of disk writes *)

Definition writes (W : list (Z * block)) (d : gmap Z block) : gmap Z block :=
  fold_left (fun d w => <[w.1 := w.2]> d) W d.

Lemma writes_app W1 W2 d : writes (W1 ++ W2) d = writes W2 (writes W1 d).
Proof. apply fold_left_app. Qed.

Lemma writes_other W d b : b ∉ W.*1 -> disk_block (writes W d) b = disk_block d b.
Proof.
  revert d. induction W as [|[b' x] W IH]; intros d Hb; [done|]. cbn in *. apply not_elem_of_cons in Hb as [H1 H2].
  by rewrite IH, disk_block_insert, decide_False.
Qed.

Lemma writes_same W d b x :
  (b, x) ∈ W -> (forall y, (b, y) ∈ W -> y = x) -> disk_block (writes W d) b = x.
Proof.
  intros Hin Hu. destruct W as [|[b' y] W _] using rev_ind; [by apply elem_of_nil in Hin|].
  rewrite writes_app. cbn. rewrite disk_block_insert. case_decide as E; [subst; apply Hu; set_solver|].
  revert Hin Hu. induction W as [|[b2 z] W IH] using rev_ind; intros Hin Hu; [set_solver|].
  rewrite writes_app. cbn. rewrite disk_block_insert. case_decide as E2; [subst; apply Hu; set_solver|].
  apply IH; set_solver.
Qed.

(** The writes of [write_log] and of [install_trans]. *)
Fixpoint log_w (start : Z) (k : nat) (xs : list block) : list (Z * block) :=
  match xs with
  | [] => []
  | x :: xs' => (start + Z.of_nat k + 1, x) :: log_w start (S k) xs'
  end.
Definition home_w (V : Z -> block) (B : list Z) : list (Z * block) := (fun b => (b, V b)) <$> B.

Lemma log_w_len start k xs : length (log_w start k xs) = length xs.
Proof. revert k. induction xs as [|x xs IH]; intros k; cbn; [done|]. by rewrite IH. Qed.

Lemma log_w_elem start k xs b x :
  (b, x) ∈ log_w start k xs <-> exists m, xs !! m = Some x /\ b = start + Z.of_nat (k + m) + 1.
Proof.
  revert k. induction xs as [|y xs IH]; intros k; cbn.
  - rewrite elem_of_nil. split; [done|]. by intros (m & Hm & _).
  - rewrite elem_of_cons, IH. split.
    + intros [E|(m & Hm & ->)].
      * exists 0%nat. rewrite Nat.add_0_r. by simplify_eq.
      * exists (S m). split; [done|]. do 2 f_equal. lia.
    + intros ([|m] & Hm & ->); cbn in Hm.
      * left. simplify_eq. by rewrite Nat.add_0_r.
      * right. exists m. split; [done|]. do 2 f_equal. lia.
Qed.

Lemma home_w_keys V B : (home_w V B).*1 = B.
Proof. unfold home_w. rewrite <- list_fmap_compose. apply list_fmap_id. Qed.

Lemma home_w_elem V B b x : (b, x) ∈ home_w V B <-> b ∈ B /\ x = V b.
Proof.
  unfold home_w. rewrite list_elem_of_fmap. split; [by intros (b' & ? & ?); simplify_eq|].
  intros [H ->]. by exists b.
Qed.

(** ** Transactions *)

Definition in_log (g : logst) (b : Z) : Prop := l_start g <= b < l_start g + l_size g.

(** [log] describes the transaction of blocks [B]. *)
Record trans (g : logst) (B : list Z) : Prop := {
  tr_dev : l_dev g = ROOTDEV;
  tr_start : 0 <= l_start g;
  tr_end : l_start g + l_size g <= 2 ^ 31;
  tr_n : lh_n g = Z.of_nat (length B);
  tr_block : forall m b, B !! m = Some b -> lh_block g !!! m = b;
  tr_size : Z.of_nat (length B) + 1 <= l_size g;
  tr_buf : (length B < head)%nat;
  tr_nodup : NoDup B;
  tr_home : forall b, b ∈ B -> blk b /\ ~ in_log g b;
}.

(** The blocks of the transaction are pinned in the cache. *)
Definition pins (B : list Z) : uses := gset_to_gmap (1, false) (list_to_set B).

Lemma pins_in B b : b ∈ B -> pins B !! b = Some (1, false).
Proof. intros H. unfold pins. apply lookup_gset_to_gmap_Some. set_solver. Qed.

Lemma pins_out B b : b ∉ B -> pins B !! b = None.
Proof. intros H. unfold pins. apply lookup_gset_to_gmap_None. set_solver. Qed.

Lemma pins_size B : NoDup B -> size (pins B) = length B.
Proof. intros H. unfold pins. by rewrite <- size_dom, dom_gset_to_gmap, size_list_to_set. Qed.

Lemma pins_cons b B : b ∉ B -> delete b (pins (b :: B)) = pins B.
Proof.
  intros H. apply map_eq. intros b'. destruct (decide (b' = b)) as [->|Hne].
  - by rewrite lookup_delete_eq, pins_out.
  - rewrite lookup_delete_ne by done. destruct (decide (b' ∈ B)).
    + rewrite !pins_in by set_solver. done.
    + rewrite !pins_out by set_solver. done.
Qed.

Lemma tr_at g A b C : trans g (A ++ b :: C) -> lh_block g !!! length A = b.
Proof. intros T. apply (tr_block _ _ T). by rewrite lookup_app_r, Nat.sub_diag by lia. Qed.

(** Log blocks are in the log region. *)
Lemma tr_lb g B k :
  trans g B -> (k < length B)%nat -> let lb := l_start g + Z.of_nat k + 1 in blk lb /\ in_log g lb /\ lb <> l_start g /\ lb ∉ B.
Proof.
  intros T Hk lb. pose proof (tr_start _ _ T). pose proof (tr_end _ _ T). pose proof (tr_size _ _ T).
  assert (in_log g lb) by (unfold in_log, lb; lia). split_and!; [unfold blk, lb; lia|done|lia|].
  intros Hb. by apply (tr_home _ _ T) in Hb as [_ Hb].
Qed.

(** One iteration of a loop over the transaction. *)
Lemma tr_step g A b C :
  trans g (A ++ b :: C) -> (Z.of_nat (length A) <? lh_n g) = true.
Proof. intros T. apply Z.ltb_lt. rewrite (tr_n _ _ T), length_app. cbn. lia. Qed.

Lemma tr_stop g A : trans g A -> (Z.of_nat (length A) <? lh_n g) = false.
Proof. intros T. apply Z.ltb_ge. rewrite (tr_n _ _ T). lia. Qed.

Section LogRun.
Context {WK : Wakeups}.

(** [write_log] copies the pinned blocks [C] to the log. *)
Lemma write_log_loop_ok g A C bs l :
  trans g (A ++ C) -> rep bs l (pins (A ++ C)) ->
  exists bs' l', write_log_loop (S (length C)) (length A) (LState bs g) = Ret tt (LState bs' g) /\
    rep bs' l' (pins (A ++ C)) /\
    (forall b, ~ in_log g b \/ b <= l_start g + Z.of_nat (length A) -> view bs' b = view bs b) /\
    (forall m b, C !! m = Some b -> view bs' (l_start g + Z.of_nat (length A + m) + 1) = view bs b) /\
    disk bs' = writes (log_w (l_start g) (length A) (view bs <$> C)) (disk bs) /\
    dhist bs' = reverse (log_w (l_start g) (length A) (view bs <$> C)) ++ dhist bs /\ b_pid bs' = b_pid bs.
Proof.
  revert A bs l. induction C as [|b C IH]; intros A bs l T H0.
  - exists bs, l. rewrite app_nil_r in T. cbn [write_log_loop length]. mstep. cbn [log]. rewrite tr_stop by done. done.
  - destruct (tr_lb g _ (length A) T) as (Hlb & Hin & Hst & Hout); [rewrite length_app; cbn; lia|].
    destruct (tr_home _ _ T b) as [Hb Hbl]; [set_solver|].
    destruct (write_log_block_ok bs l _ g (length A) b H0) as (s1 & l1 & E1 & H1 & V1 & K1 & T1 & P1);
      [apply T|by eapply tr_at|done|done|congruence|by apply pins_out|apply pins_in; set_solver|rewrite pins_size; apply T|].
    assert (EC : A ++ b :: C = (A ++ [b]) ++ C) by (by rewrite <- app_assoc).
    rewrite EC in T, H1. destruct (IH (A ++ [b]) s1 l1 T H1) as (s2 & l2 & E2 & H2 & V2 & X2 & K2 & T2 & P2).
    rewrite length_app in E2, V2, X2, K2, T2. cbn [length] in E2, V2, X2, K2, T2. rewrite Nat.add_1_r in E2, K2, T2.
    assert (EV : view s1 <$> C = view bs <$> C).
    { apply list_fmap_ext. intros m b' Hm. rewrite V1, decide_False; [done|]. intros ->.
      apply Hout. apply list_elem_of_lookup_2 in Hm. set_solver. }
    exists s2, l2. split_and!.
    + cbn [length]. remember (S (length C)) as f. cbn [write_log_loop]. mstep. cbn [log].
      rewrite <- EC in T. rewrite (tr_step _ _ _ _ T), (bind_ret _ _ _ _ _ E1). exact E2.
    + by rewrite EC.
    + intros b' Hb'. rewrite V2 by (destruct Hb'; [by left|right; lia]). rewrite V1, decide_False; [done|].
      intros ->. destruct Hb'; [done|lia].
    + intros [|m] b' Hm; cbn in Hm.
      * simplify_eq. rewrite Nat.add_0_r, V2 by (right; lia). by rewrite V1, decide_True.
      * pose proof (X2 m b' Hm) as X. rewrite <- Nat.add_assoc in X. change (1 + m)%nat with (S m) in X.
        rewrite X, V1, decide_False; [done|].
        intros ->. apply Hout. apply list_elem_of_lookup_2 in Hm. set_solver.
    + cbn. by rewrite K2, K1, EV.
    + rewrite fmap_cons. cbn [log_w]. by rewrite T2, T1, EV, reverse_cons, <- app_assoc.
    + congruence.
Qed.

(** What one iteration of [install_trans] does to the contents; [Rof] gives the
    blocks in use once [A] is installed and [C] is to come. *)
Definition installs (Rof : list Z -> list Z -> uses) (g : logst) (B : list Z) : Prop :=
  forall A b C bs l, A ++ b :: C = B -> rep bs l (Rof A (b :: C)) ->
  exists bs' l', install_block g (length A) (LState bs g) = Ret tt (LState bs' g) /\
    rep bs' l' (Rof (A ++ [b]) C) /\ let x := view bs (l_start g + Z.of_nat (length A) + 1) in
    (forall b', view bs' b' = if decide (b' = b) then x else view bs b') /\
    disk bs' = <[b := x]> (disk bs) /\ dhist bs' = (b, x) :: dhist bs /\ b_pid bs' = b_pid bs.

Lemma install_loop_ok Rof g B V A C bs l :
  installs Rof g B -> trans g B -> A ++ C = B -> rep bs l (Rof A C) ->
  (forall m b, C !! m = Some b -> view bs (l_start g + Z.of_nat (length A + m) + 1) = V b) ->
  exists bs' l', install_trans_loop (S (length C)) (length A) (LState bs g) = Ret tt (LState bs' g) /\
    rep bs' l' (Rof B []) /\
    (forall b, view bs' b = if decide (b ∈ C) then V b else view bs b) /\
    disk bs' = writes (home_w V C) (disk bs) /\
    dhist bs' = reverse (home_w V C) ++ dhist bs /\ b_pid bs' = b_pid bs.
Proof.
  intros Hi T. revert A bs l. induction C as [|b C IH]; intros A bs l HB H0 HV.
  - exists bs, l. rewrite app_nil_r in HB. subst A. cbn [install_trans_loop length]. mstep. cbn [log].
    rewrite tr_stop by done. split_and!; try done.
  - destruct (Hi A b C bs l HB H0) as (s1 & l1 & E1 & H1 & V1 & K1 & T1 & P1).
    assert (EV : view bs (l_start g + Z.of_nat (length A) + 1) = V b).
    { by rewrite <- (HV 0%nat b eq_refl), Nat.add_0_r. } rewrite EV in V1, K1, T1.
    assert (EC : (A ++ [b]) ++ C = B) by (by rewrite <- app_assoc).
    destruct (IH (A ++ [b]) s1 l1 EC H1) as (s2 & l2 & E2 & H2 & V2 & K2 & T2 & P2).
    { intros m b' Hm. assert (EI : (length (A ++ [b]) + m = length A + S m)%nat) by (rewrite length_app; cbn; lia).
      rewrite EI, V1, <- (HV (S m) b' Hm), decide_False; [done|]. intros Eb.
      destruct (tr_lb g _ (length A + S m) T) as (_ & _ & _ & Hout); [|apply Hout; rewrite <- HB, Eb; set_solver].
      apply lookup_lt_Some in Hm. rewrite <- HB, length_app. cbn. lia. }
    rewrite length_app, Nat.add_1_r in E2. exists s2, l2. split_and!; try done.
    + cbn [length]. remember (S (length C)) as f. cbn [install_trans_loop]. mstep. cbn [log].
      rewrite <- HB in T. rewrite (tr_step _ _ _ _ T), (bind_ret _ _ _ _ _ E1). exact E2.
    + intros b'. rewrite V2, V1. destruct (decide (b' = b)) as [->|]; [rewrite (decide_True (P := b ∈ b :: C)) by set_solver; by case_decide|].
      destruct (decide (b' ∈ C)); [rewrite decide_True by set_solver; done|rewrite decide_False by set_solver; done].
    + cbn. by rewrite K2, K1.
    + unfold home_w. rewrite fmap_cons, T2, T1, reverse_cons, <- app_assoc. done.
    + congruence.
Qed.

(** After a commit the pins go away one by one. *)
Lemma installs_commit g B : trans g B -> installs (fun _ C => pins C) g B.
Proof.
  intros T A b C bs l HB H0. rewrite <- HB in T. pose proof (tr_nodup _ _ T) as Hn.
  apply NoDup_app in Hn as (_ & _ & [Hb Hn]%NoDup_cons).
  destruct (tr_lb g _ (length A) T) as (Hlb & Hin & Hst & Hout); [rewrite length_app; cbn; lia|].
  destruct (tr_home _ _ T b) as [Hbb Hbl]; [set_solver|].
  destruct (install_block_ok bs l _ g (length A) b H0) as (s1 & l1 & E1 & H1 & V1 & K1 & T1 & P1);
    [apply T|by eapply tr_at|done|done|congruence|apply pins_out; set_solver|apply pins_in; set_solver| |].
  - rewrite pins_size by (by apply NoDup_cons). pose proof (tr_buf _ _ T) as Hs. rewrite length_app in Hs. cbn in *. lia.
  - rewrite pins_cons in H1 by done. exists s1, l1. done.
Qed.

(** In recovery every installed block stays in use. *)
Definition leaks (B : list Z) : uses := gset_to_gmap (2 ^ 32 - 1, false) (list_to_set B).

Lemma leaks_out B b : b ∉ B -> leaks B !! b = None.
Proof. intros H. unfold leaks. apply lookup_gset_to_gmap_None. set_solver. Qed.

Lemma leaks_size B : NoDup B -> size (leaks B) = length B.
Proof. intros H. unfold leaks. by rewrite <- size_dom, dom_gset_to_gmap, size_list_to_set. Qed.

Lemma installs_recovery g B : trans g B -> installs (fun A _ => leaks A) g B.
Proof.
  intros T A b C bs l HB H0. rewrite <- HB in T. pose proof (tr_nodup _ _ T) as Hn.
  apply NoDup_app in Hn as (HnA & Hd & _).
  destruct (tr_lb g _ (length A) T) as (Hlb & Hin & Hst & Hout); [rewrite length_app; cbn; lia|].
  destruct (tr_home _ _ T b) as [Hbb Hbl]; [set_solver|].
  destruct (recover_block_ok bs l _ g (length A) b H0) as (s1 & l1 & E1 & H1 & V1 & K1 & T1 & P1);
    [apply T|by eapply tr_at|done|done|congruence|apply leaks_out; set_solver|apply leaks_out| |].
  - intros Hb. apply (Hd b Hb). by left.
  - rewrite leaks_size by done. pose proof (tr_buf _ _ T) as Hs. rewrite length_app in Hs. cbn in *. lia.
  - exists s1, l1. split_and!; try done. replace (leaks (A ++ [b])) with (<[b:=(2 ^ 32 - 1, false)]> (leaks A)); [done|].
    unfold leaks. rewrite list_to_set_app_L. cbn. rewrite union_empty_r_L, union_comm_L.
    by rewrite gset_to_gmap_union_singleton.
Qed.
End LogRun.
