(* ===== verification/LogCrash.v ===== *)
(** Commit and recovery of kernel/log.c as sequences of disk writes, and what
    the disk means at each point of them. *)

From S2P Require Import Prelude Riscv Sync Sleeplock Bio BioSpec BioList BioAbs DiskFmt Log LogSpec.

(** ** What a disk with a log stands for *)

(** The contents of block [b], taking into account the log at [start]: a block
    named by the header is in the log. *)
Definition home_value (start : Z) (d : gmap Z block) (b : Z) : block :=
  match list_find (eq b) (hdr_blocks (disk_block d start)) with
  | Some (k, _) => disk_block d (start + Z.of_nat k + 1)
  | None => disk_block d b
  end.

(** The log on disk is well formed and holds the blocks [B]. *)
Record disk_log (start size : Z) (d : gmap Z block) (B : list Z) : Prop := {
  dl_len : length (disk_block d start) = 1024%nat;
  dl_n : hdr_n (disk_block d start) = Z.of_nat (length B);
  dl_blocks : hdr_blocks (disk_block d start) = B;
  dl_size : Z.of_nat (length B) + 1 <= size;
  dl_buf : (length B < head)%nat;
  dl_nodup : NoDup B;
  dl_home : forall b, b ∈ B -> blk b /\ ~ (start <= b < start + size);
}.

Lemma list_find_eq (b : Z) B :
  match list_find (eq b) B with Some (k, x) => B !! k = Some b | None => b ∉ B end.
Proof.
  destruct (list_find (eq b) B) as [[k x]|] eqn:E.
  - by apply list_find_Some in E as (Hk & -> & _).
  - apply list_find_None in E. rewrite Forall_forall in E. intros H. by apply (E b H).
Qed.

Lemma home_value_ok start d B V b :
  hdr_blocks (disk_block d start) = B ->
  (forall m b, B !! m = Some b -> disk_block d (start + Z.of_nat m + 1) = V b) ->
  home_value start d b = if decide (b ∈ B) then V b else disk_block d b.
Proof.
  intros HB HV. unfold home_value. rewrite HB. pose proof (list_find_eq b B) as F.
  destruct (list_find (eq b) B) as [[k x]|]; [|by rewrite decide_False].
  rewrite (HV k b F), decide_True; [done|]. by eapply list_elem_of_lookup_2.
Qed.

Lemma home_value_logged start size d B m b :
  disk_log start size d B -> B !! m = Some b -> disk_block d (start + Z.of_nat m + 1) = home_value start d b.
Proof.
  intros D Hm. unfold home_value. rewrite (dl_blocks _ _ _ _ D).
  pose proof (list_find_eq b B) as F. destruct (list_find (eq b) B) as [[k x]|].
  - by rewrite (NoDup_lookup B k m b (dl_nodup _ _ _ _ D) F Hm).
  - by apply list_elem_of_lookup_2 in Hm.
Qed.

Lemma home_value_out start size d B b : disk_log start size d B -> b ∉ B -> home_value start d b = disk_block d b.
Proof.
  intros D Hb. rewrite (home_value_ok start d B (home_value start d)) by (apply D || intros; by eapply home_value_logged).
  by rewrite decide_False.
Qed.

Lemma header_nil d : length d = 1024%nat -> hdr_n (header d []) = 0 /\ hdr_blocks (header d []) = [].
Proof. intros H. split; [apply header_n|apply header_blocks]; try done; cbn; lia. Qed.

(** ** Commit *)

(** The disk writes of [commit], in order: the blocks into the log, the header,
    the blocks to their homes, the cleared header. *)
Definition commit_w (start : Z) (V : Z -> block) (h : block) (B : list Z) : list (Z * block) :=
  log_w start 0 (V <$> B) ++ [(start, header h B)] ++ home_w V B ++ [(start, header (header h B) [])].

Lemma tr_set_n g B : trans g B -> l_dev (set_lh_n 0 g) = ROOTDEV /\ blk (l_start (set_lh_n 0 g)).
Proof.
  intros T. split; [apply T|]. unfold blk. cbn.
  pose proof (tr_start _ _ T). pose proof (tr_end _ _ T). pose proof (tr_size _ _ T). lia.
Qed.

Lemma tr_start_out g B : trans g B -> l_start g ∉ B.
Proof.
  intros T H. apply (tr_home _ _ T) in H as [_ H]. apply H. unfold in_log.
  pose proof (tr_size _ _ T). lia.
Qed.

(** ** Every prefix of the writes *)

Lemma elem_of_take_in {A} (x : A) k (W : list A) : x ∈ take k W -> x ∈ W.
Proof. intros H. rewrite <- (take_drop k W). apply elem_of_app. by left. Qed.

(** The installed blocks and the cleared header. *)
Definition install_w (start : Z) (V : Z -> block) (h : block) (B : list Z) : list (Z * block) :=
  home_w V B ++ [(start, header h [])].

(** While the blocks of a logged transaction are copied to their homes, and
    when the header is cleared, the disk means the same. *)
Lemma install_prefix start size d B V j :
  disk_log start size d B ->
  (forall m b, B !! m = Some b -> disk_block d (start + Z.of_nat m + 1) = V b) ->
  let d' := writes (take j (install_w start V (disk_block d start) B)) d in
  (exists B', disk_log start size d' B' /\ ((length B < j)%nat -> B' = [])) /\
  forall b, ~ (start <= b < start + size) ->
    home_value start d' b = if decide (b ∈ B) then V b else disk_block d b.
Proof.
  intros D HV d'. pose proof D as [Hlen Hn HB Hsize Hbuf Hnd Hhome].
  assert (Hout : forall b, start <= b < start + size -> b ∉ B) by (intros b H1 H2; by apply Hhome in H2 as [_ H2]).
  assert (Hq : forall i b, start <= b < start + size -> disk_block (writes (take i (home_w V B)) d) b = disk_block d b).
  { intros i b Hb. apply writes_other. rewrite fmap_take, home_w_keys. intros H. by apply elem_of_take_in, (Hout b Hb) in H. }
  destruct (decide (j <= length B)%nat) as [Hj|Hj].
  - assert (d' = writes (take j (home_w V B)) d) as ->.
    { unfold d', install_w. by rewrite take_app_le by (unfold home_w; rewrite length_fmap; lia). }
    split; [exists B; split; [|lia]; split; rewrite ?Hq by lia; done|].
    intros b Hb. rewrite (home_value_ok _ _ B V).
    + case_decide as Hb2; [done|]. apply writes_other. rewrite fmap_take, home_w_keys.
      intros H. by apply elem_of_take_in in H.
    + by rewrite Hq by lia.
    + intros m b' Hm. rewrite Hq; [by apply HV|]. apply lookup_lt_Some in Hm. lia.
  - assert (d' = <[start := header (disk_block d start) []]> (writes (home_w V B) d)) as ->.
    { unfold d', install_w. rewrite take_ge; [by rewrite writes_app|].
      rewrite length_app. unfold home_w. rewrite length_fmap. cbn. lia. }
    destruct (header_nil _ Hlen) as [Hn0 HB0].
    split; [exists []; split; [|done]; split; rewrite ?disk_block_insert, ?decide_True by done|].
    + by rewrite header_len.
    + by rewrite Hn0.
    + done.
    + cbn. lia.
    + cbn. lia.
    + apply NoDup_nil_2.
    + set_solver.
    + intros b Hb. rewrite (home_value_ok _ _ [] V); [|by rewrite disk_block_insert, decide_True|done].
      rewrite decide_False by set_solver. rewrite disk_block_insert, decide_False by lia.
      case_decide as Hb2.
      * apply writes_same; [by apply home_w_elem|]. by intros y [_ ->]%home_w_elem.
      * apply writes_other. by rewrite home_w_keys.
Qed.

(** The commit point is the write of the header: up to it the disk means what
    it did, from it on it has the whole transaction. *)
Lemma commit_prefix g d B V k :
  trans g B -> disk_log (l_start g) (l_size g) d [] ->
  let d' := writes (take k (commit_w (l_start g) V (disk_block d (l_start g)) B)) d in
  (exists B', disk_log (l_start g) (l_size g) d' B' /\ ((2 * length B + 1 < k)%nat -> B' = [])) /\
  forall b, ~ in_log g b ->
    home_value (l_start g) d' b = if decide ((length B < k)%nat /\ b ∈ B) then V b else disk_block d b.
Proof.
  intros T D d'. pose proof D as [Hlen Hn HB Hsize Hbuf Hnd Hhome]. set (start := l_start g) in *.
  set (L := log_w start 0 (V <$> B)). assert (HL : length L = length B) by (unfold L; by rewrite log_w_len, length_fmap).
  assert (Hkey : forall b x, (b, x) ∈ L -> in_log g b /\ b <> start).
  { intros b x (m & Hm & ->)%log_w_elem. apply list_lookup_fmap_Some in Hm as (y & -> & Hm).
    apply lookup_lt_Some in Hm. destruct (tr_lb g B m T Hm) as (_ & ? & ? & _). done. }
  assert (Hq : forall i b, ~ in_log g b \/ b = start -> disk_block (writes (take i L) d) b = disk_block d b).
  { intros i b Hb. apply writes_other. intros ([b' x] & -> & H)%list_elem_of_fmap.
    apply elem_of_take_in, Hkey in H. cbn in Hb. naive_solver. }
  destruct (decide (k <= length B)%nat) as [Hk|Hk].
  - assert (d' = writes (take k L) d) as ->.
    { unfold d', commit_w. fold start L. by rewrite take_app_le by lia. }
    split; [exists []; split; [split; rewrite ?Hq by auto; done|done]|]. intros b Hb.
    rewrite (home_value_ok _ _ [] V), decide_False by (rewrite ?Hq by auto; done || set_solver).
    rewrite decide_False by lia. apply Hq. by left.
  - set (d1 := writes L d). set (d2 := <[start := header (disk_block d start) B]> d1).
    assert (Ed : d' = writes (take (k - S (length B)) (install_w start V (disk_block d2 start) B)) d2).
    { unfold d', commit_w, install_w. fold start L. rewrite !app_assoc, <- (app_assoc _ (home_w V B)).
      rewrite take_app_ge by (rewrite length_app; cbn; lia). rewrite writes_app, length_app, HL. cbn [length].
      unfold d2. rewrite disk_block_insert, decide_True by done. rewrite writes_app, Nat.add_1_r. done. }
    rewrite Ed. assert (HB30 : (length B <= 30)%nat) by (pose proof (tr_buf _ _ T); assert (head = 30%nat) by done; lia).
    destruct (install_prefix start (l_size g) d2 B V (k - S (length B))) as [(B' & D' & HB') Hv].
    + unfold d2. split; rewrite ?disk_block_insert, ?decide_True by done; try apply T; [by rewrite header_len|by apply header_n|].
      apply header_blocks; [done..|]. apply Forall_forall. intros b Hb. by apply (tr_home _ _ T).
    + intros m b Hm. destruct (tr_lb g B m T) as (_ & _ & Hns & _); [by eapply lookup_lt_Some|]. fold start in Hns.
      unfold d2. rewrite disk_block_insert, decide_False by done. apply writes_same.
      * apply log_w_elem. exists m. by rewrite list_lookup_fmap, Hm.
      * intros y (m' & Hm' & E)%log_w_elem. assert (m' = m) as -> by lia. rewrite list_lookup_fmap, Hm in Hm'. by simplify_eq/=.
    + split; [exists B'; split; [done|]; intros; apply HB'; lia|]. intros b Hb. rewrite Hv by done.
      assert (disk_block d2 b = disk_block d b) as ->.
      { unfold d2. rewrite disk_block_insert, decide_False by (intros ->; apply Hb; unfold in_log; fold start; lia).
        unfold d1. rewrite <- (take_ge L (length L)) by lia. apply Hq. by left. }
      destruct (decide (b ∈ B)); [rewrite decide_True by (split; [lia|done])|rewrite decide_False by naive_solver]; done.
Qed.

Section LogCrash.
Context {WK : Wakeups}.

Lemma commit_ok g B bs l :
  trans g B -> B <> [] -> rep bs l (pins B) ->
  let W := commit_w (l_start g) (view bs) (view bs (l_start g)) B in
  exists bs' l', commit (LState bs g) = Ret tt (LState bs' (set_lh_n 0 g)) /\
    rep bs' l' ∅ /\ disk bs' = writes W (disk bs) /\ dhist bs' = reverse W ++ dhist bs /\
    (forall b, ~ in_log g b -> view bs' b = view bs b) /\ b_pid bs' = b_pid bs.
Proof.
  intros T HB H0 W. pose proof (tr_set_n g B T) as [Hdev Hst]. pose proof (tr_start_out g B T) as Hso.
  assert (Hsi : in_log g (l_start g)) by (unfold in_log; pose proof (tr_size _ _ T); lia).
  unfold commit. mstep. cbn [log]. rewrite (proj2 (Z.ltb_lt 0 (lh_n g))).
  2:{ rewrite (tr_n _ _ T). destruct B; [done|]. cbn. lia. }
  destruct (write_log_loop_ok g [] B bs l T H0) as (s1 & l1 & E1 & H1 & V1 & X1 & K1 & T1 & P1). cbn [length app Nat.add] in *.
  erewrite bind_ret by (unfold write_log; mstep; cbn [log]; rewrite (tr_n _ _ T), Nat2Z.id; exact E1).
  destruct (write_head_ok s1 l1 _ g B H1) as (s2 & l2 & E2 & H2 & V2 & K2 & T2 & P2);
    [apply T|done|apply T|apply T|by apply pins_out|rewrite pins_size; apply T|]. rewrite (bind_ret _ _ _ _ _ E2).
  rewrite (V1 (l_start g)) in V2, K2, T2 by (right; lia).
  destruct (install_loop_ok (fun _ C => pins C) g B (view bs) [] B s2 l2 (installs_commit g B T) T eq_refl H2)
    as (s3 & l3 & E3 & H3 & V3 & K3 & T3 & P3).
  { intros m b Hm. cbn [length Nat.add]. rewrite V2, decide_False; [by apply X1|].
    destruct (tr_lb g B m T) as (_ & _ & Hn & _); [by eapply lookup_lt_Some|done]. }
  erewrite bind_ret by (unfold install_trans; mstep; cbn [log]; rewrite (tr_n _ _ T), Nat2Z.id; exact E3).
  do 1 mstep. cbn [log l_bio].
  destruct (write_head_ok s3 l3 (pins []) (set_lh_n 0 g) [] H3) as (s4 & l4 & E4 & H4 & V4 & K4 & T4 & P4);
    [done|done|done|done|apply pins_out; set_solver|rewrite pins_size by apply NoDup_nil_2; pose proof (tr_buf _ _ T); cbn; lia|].
  cbn [l_start set_lh_n] in V4, K4, T4. rewrite V3, decide_False, V2, decide_True in V4, K4, T4 by done.
  exists s4, l4. split; [exact E4|]. split; [exact H4|]. split_and!.
  - rewrite K4, K3, K2, K1. unfold W, commit_w. by rewrite !writes_app.
  - rewrite T4, T3, T2, T1. unfold W, commit_w. rewrite !reverse_app. cbn. by rewrite <- !app_assoc.
  - intros b Hb. rewrite V4, decide_False by (intros ->; done). rewrite V3. case_decide; [done|].
    rewrite V2, decide_False by (intros ->; done). apply V1. by left.
  - congruence.
Qed.

(** ** Recovery *)

(** [log] once [read_head] has loaded the blocks [bl]. *)
Definition loaded (g : logst) (n : Z) (bl : list Z) : logst :=
  {| l_start := l_start g; l_size := l_size g; l_outstanding := l_outstanding g;
     l_committing := l_committing g; l_dev := l_dev g; lh_n := n; lh_block := bl |}.

Lemma read_head_ok g B bs l :
  l_dev g = ROOTDEV -> 0 <= l_start g -> l_start g + l_size g <= 2 ^ 31 ->
  length (lh_block g) = Z.to_nat LOGSIZE ->
  disk_log (l_start g) (l_size g) (disk bs) B -> rep bs l ∅ ->
  exists bs' l' bl, read_head (LState bs g) = Ret tt (LState bs' (loaded g (Z.of_nat (length B)) bl)) /\
    trans (loaded g (Z.of_nat (length B)) bl) B /\ length bl = length (lh_block g) /\
    rep bs' l' ∅ /\ (forall b, view bs' b = view bs b) /\
    disk bs' = disk bs /\ dhist bs' = dhist bs /\ b_pid bs' = b_pid bs.
Proof.
  intros Hdev Hst Hend Hbl D H0. pose proof D as [Hlen Hn HB Hsize Hbuf Hnd Hhome].
  unfold read_head. mstep. cbn [log]. rewrite l_bread_eq by (done || unfold blk; lia).
  destruct (bread_abs bs l ∅ (l_start g)) as (i & s1 & E1 & H1 & O1 & D1 & V1 & K1 & T1 & P1 & F1);
    [done|unfold can_read; rewrite lookup_empty, map_size_empty; lia|].
  bio_step E1. do 2 mstep. cbn [l_bio log]. rewrite D1, (rep_clean bs l ∅ _ H0) by done.
  fold (hdr_n (disk_block (disk bs) (l_start g))). rewrite Hn, Nat2Z.id.
  destruct (read_head_loop_ok s1 (set_lh_n (Z.of_nat (length B)) g) (disk_block (disk bs) (l_start g)) 0 B)
    as (bl & E2 & Hl & _ & HC).
  { cbn. lia. }
  { intros m b Hm. rewrite <- HB in Hm. unfold hdr_blocks in Hm.
    apply list_lookup_fmap_Some in Hm as (y & -> & [-> _]%lookup_seq). done. }
  { cbn. rewrite Hbl. change (Z.to_nat LOGSIZE) with head. lia. }
  rewrite (bind_ret _ _ _ _ _ E2). cbn [l_start l_size l_outstanding l_committing l_dev lh_n set_lh_n] in *.
  destruct (brelse_abs s1 l _ i (l_start g) 1 H1 O1) as (s2 & l2 & E3 & H3 & V3 & K3 & T3 & P3 & _).
  { unfold refs. by rewrite lookup_empty, lookup_insert_eq. }
  { intros _. rewrite V1, K1. by eapply rep_clean. }
  exists s2, l2, bl. split; [by apply log_zoom|]. split_and!; try congruence.
  - split; cbn; done.
  - done.
  - cbn in H3. by rewrite delete_insert_eq, delete_empty in H3.
Qed.

Lemma recover_ok g B bs l :
  l_dev g = ROOTDEV -> 0 <= l_start g -> l_start g + l_size g <= 2 ^ 31 ->
  length (lh_block g) = Z.to_nat LOGSIZE ->
  disk_log (l_start g) (l_size g) (disk bs) B -> rep bs l ∅ ->
  let W := install_w (l_start g) (home_value (l_start g) (disk bs)) (disk_block (disk bs) (l_start g)) B in
  exists bs' l' bl, recover_from_log (LState bs g) = Ret tt (LState bs' (loaded g 0 bl)) /\
    length bl = Z.to_nat LOGSIZE /\ rep bs' l' (leaks B) /\
    disk bs' = writes W (disk bs) /\ dhist bs' = reverse W ++ dhist bs /\ b_pid bs' = b_pid bs.
Proof.
  intros Hdev Hst Hend Hbl D H0 W. unfold recover_from_log.
  destruct (read_head_ok g B bs l) as (s1 & l1 & bl & E1 & T & Hl & H1 & V1 & K1 & T1 & P1); [done..|].
  rewrite (bind_ret _ _ _ _ _ E1). set (g1 := loaded g (Z.of_nat (length B)) bl) in *.
  assert (HV : forall m b, B !! m = Some b -> view s1 (l_start g1 + Z.of_nat (0 + m) + 1) = home_value (l_start g) (disk bs) b).
  { intros m b Hm. rewrite V1, (rep_clean bs l ∅ _ H0) by done. by eapply home_value_logged. }
  destruct (install_loop_ok (fun A _ => leaks A) g1 B _ [] B s1 l1 (installs_recovery g1 B T) T eq_refl H1 HV)
    as (s2 & l2 & E2 & H2 & V2 & K2 & T2 & P2).
  erewrite bind_ret by (unfold install_trans; mstep; cbn [log]; rewrite (tr_n _ _ T), Nat2Z.id; exact E2).
  do 1 mstep. cbn [log l_bio]. pose proof (tr_set_n g1 B T) as [Hdev1 Hst1]. pose proof (tr_start_out g1 B T) as Hso.
  destruct (write_head_ok s2 l2 (leaks B) (set_lh_n 0 g1) [] H2) as (s3 & l3 & E3 & H3 & V3 & K3 & T3 & P3);
    [done|done|done|done|by apply leaks_out|rewrite leaks_size; apply T|].
  exists s3, l3, bl. split; [exact E3|].
  cbn [l_start set_lh_n] in K3, T3. rewrite V2, decide_False, V1, (rep_clean bs l ∅ _ H0) in K3, T3 by done.
  split; [congruence|]. split; [done|]. unfold W, install_w. rewrite writes_app, reverse_app. cbn.
  rewrite K3, T3, K2, T2, K1, T1. split_and!; [done|done|congruence].
Qed.
End LogCrash.
