(* ===== verification/LogOps.v ===== *)
(** kernel/log.c: the calls the file system makes.  [begin_op] reserves log
    space, [log_write] adds a block to the transaction, the last [end_op]
    commits. *)

From S2P Require Import Prelude Riscv Sync Sleeplock Bio BioSpec BioList BioAbs BioProps.
From S2P Require Import DiskFmt Log LogSpec LogCrash.

(** [log.lock] held. *)
Definition with_llog (bs : bstate) : bstate := lput ({[LLog]} : lockset) bs.

Lemma llog_acquire bs g : b_held bs = ∅ -> acquire LLog (LState bs g) = Ret tt (LState (with_llog bs) g).
Proof.
  intros Hh. rewrite acquire_ok by (cbn; rewrite Hh; set_solver). cbn. rewrite Hh.
  by rewrite union_empty_r_L.
Qed.

Lemma llog_release bs g : b_held bs = ∅ -> release LLog (LState (with_llog bs) g) = Ret tt (LState bs g).
Proof.
  intros Hh. rewrite release_ok by (cbn; set_solver). destruct bs. cbn in *. rewrite Hh.
  by rewrite difference_diag_L.
Qed.

Lemma bpin_llog i bs :
  b_held bs = ∅ -> (i < length (bufs bs))%nat -> bpin i (with_llog bs) =
  Ret tt (with_llog (upd i (set_refcnt (u32 (b_refcnt (bufs bs !!! i) + 1)) (bufs bs !!! i)) bs)).
Proof.
  intros Hh Hi. unfold bpin. assert (Hn : LBcache ∉ (lget (with_llog bs) : lockset)) by (change (LBcache ∉ ({[LLog]} : lockset)); set_solver).
  rewrite (bind_ret _ _ _ _ _ (acquire_ok LBcache (with_llog bs) Hn)).
  erewrite bind_ret by (by apply updb_ok). rewrite release_ok by (apply lockset_in_add). cbn. unfold with_llog, upd, set_bufs. cbn.
  by do 2 f_equal.
Qed.

(** ** Adding a block *)

Lemma log_index_spec b B :
  blk b -> Forall blk B ->
  match list_find (eq b) B with Some (k, _) => log_index b B = k | None => log_index b B = length B end.
Proof.
  intros Hb HF. induction HF as [|b' B Hb' HF IH]; cbn [list_find log_index length]; [done|].
  rewrite u32_small by (unfold blk in Hb'; lia). destruct (decide (b = b')) as [->|Hne].
  - by rewrite Z.eqb_refl.
  - rewrite (proj2 (Z.eqb_neq b' b)) by done.
    destruct (list_find (eq b) B) as [[k x]|]; cbn; by rewrite IH.
Qed.

(** The in-memory header names the blocks [B]. *)
Lemma tr_take g B : trans g B -> length (lh_block g) = Z.to_nat LOGSIZE -> take (length B) (lh_block g) = B.
Proof.
  intros T Hl. assert (Hh : head = Z.to_nat LOGSIZE) by done. pose proof (tr_buf _ _ T).
  apply list_eq. intros m. destruct (decide (m < length B)%nat) as [Hm|Hm].
  - rewrite lookup_take_lt by done. destruct (lookup_lt_is_Some_2 B m Hm) as [b Hb]. rewrite Hb.
    rewrite <- (tr_block _ _ T m b Hb). apply list_lookup_lookup_total_lt. lia.
  - rewrite lookup_take_ge by lia. by rewrite lookup_ge_None_2 by lia.
Qed.

(** A transaction that grows by one block. *)
Lemma tr_snoc g B b :
  trans g B -> length (lh_block g) = Z.to_nat LOGSIZE -> b ∉ B -> blk b -> ~ in_log g b ->
  Z.of_nat (length B) + 2 <= l_size g -> (length B + 1 < head)%nat ->
  trans (set_lh_n (lh_n g + 1) (set_lh_block (length B) b g)) (B ++ [b]).
Proof.
  intros T Hl Hnb Hb Hout Hsz Hbuf. assert (Hh : head = Z.to_nat LOGSIZE) by done.
  split; cbn; rewrite ?length_app; cbn; try apply T.
  - rewrite (tr_n _ _ T). lia.
  - intros m b' Hm. apply lookup_app_Some in Hm as [Hm|[Hge Hm]].
    + apply lookup_lt_Some in Hm as Hlt. rewrite list_lookup_total_insert_ne by lia. by apply (tr_block _ _ T).
    + apply list_lookup_singleton_Some in Hm as [Hz <-]. replace m with (length B) by lia.
      apply list_lookup_total_insert_eq. lia.
  - lia.
  - lia.
  - apply NoDup_app. split; [apply T|]. split; [|apply NoDup_singleton]. intros x Hx ->%list_elem_of_singleton. done.
  - intros x [Hx| ->%list_elem_of_singleton]%elem_of_app; [by apply (tr_home _ _ T)|done].
Qed.

Section LogOps.
Context {WK : Wakeups}.

(** The parts of [log] that do not change while the system runs. *)
Definition same_geom (g g' : logst) : Prop :=
  l_start g' = l_start g /\ l_size g' = l_size g /\ l_dev g' = l_dev g /\ length (lh_block g') = length (lh_block g).

(** [log_write] of a locked buffer adds its block to the transaction and pins it
    in the cache, unless it is there already (absorption); contents and disk do not
    change. *)
Lemma log_write_ok g B bs l R i b r :
  trans g B -> length (lh_block g) = Z.to_nat LOGSIZE -> l_size g <= LOGSIZE -> 1 <= l_outstanding g ->
  rep bs l R -> owns bs i b -> R !! b = Some (r, true) -> r + 1 < 2 ^ 32 -> blk b -> ~ in_log g b ->
  Z.of_nat (length B) < l_size g - 1 ->
  exists bs' g', log_write i (LState bs g) = Ret tt (LState bs' g') /\
    trans g' (if decide (b ∈ B) then B else B ++ [b]) /\
    rep bs' l (if decide (b ∈ B) then R else <[b := (r + 1, true)]> R) /\ owns bs' i b /\
    (forall b', view bs' b' = view bs b') /\ (disk bs' = disk bs /\ dhist bs' = dhist bs) /\ b_pid bs' = b_pid bs /\ keeps bs bs' b /\
    l_outstanding g' = l_outstanding g /\ l_committing g' = l_committing g /\ same_geom g g'.
Proof.
  intros T Hlen Hsz Hout Hr O HR Hr1 Hb Hnl Hroom. pose proof (rp_inv _ _ _ Hr) as I. pose proof (bi_held _ _ I) as Hh.
  assert (Hh30 : head = Z.to_nat LOGSIZE) by done. assert (HL : LOGSIZE = 30) by done.
  unfold log_write. mstep. cbn [log]. rewrite (tr_n _ _ T).
  rewrite (proj2 (Z.leb_gt LOGSIZE _)), (proj2 (Z.leb_gt (l_size g - 1) _)), (proj2 (Z.ltb_ge (l_outstanding g) 1)) by lia.
  cbn [orb]. rewrite (bind_ret _ _ _ _ _ (llog_acquire bs g Hh)). mstep. cbn [l_bio].
  change (bufs (with_llog bs)) with (bufs bs). rewrite (ow_blk _ _ _ O).
  rewrite Nat2Z.id, (tr_take g B T Hlen), (s32_small b) by (unfold blk in Hb; lia).
  assert (HF : Forall blk B) by (apply Forall_forall; intros x Hx; by apply (tr_home _ _ T)).
  pose proof (log_index_spec b B Hb HF) as Hix. pose proof (list_find_eq b B) as Hf. mstep. cbn [log l_bio].
  destruct (list_find (eq b) B) as [[k x]|].
  - assert (Hk : (k < length B)%nat) by (by eapply lookup_lt_Some).
    rewrite Hix, (proj2 (Z.eqb_neq _ _)) by lia. mstep. rewrite (llog_release bs _ Hh).
    assert (Hin : b ∈ B) by (by eapply list_elem_of_lookup_2). exists bs, (set_lh_block k b g). split; [done|].
    rewrite !decide_True by done. split_and!; try done; [|by split_and!; cbn; rewrite ?length_insert]. destruct T as [T1 T2 T3 T4 T5 T6 T7 T8 T9]. split; try done.
    intros m b' Hm. cbn. destruct (decide (m = k)) as [->|Hne]; [|rewrite list_lookup_total_insert_ne by done; by apply T5].
    rewrite list_lookup_total_insert_eq by lia. congruence.
  - rewrite Hix, Z.eqb_refl. pose proof (rep_owner bs l R i b Hr O) as Er. rewrite HR in Er. injection Er as ->.
    destruct (bpin_abs bs l R i b _ Hr O HR Hr1) as (bs' & Ep & Hr' & O' & _ & V & K & Kh & P & F).
    pose proof (rp_inv _ _ _ Hr') as I'.
    assert (Hil : (i < length (bufs bs))%nat) by (rewrite (bi_len _ _ I); destruct O; lia).
    assert (El : l_bpin i (LState (with_llog bs) (set_lh_block (length B) b g)) =
                 Ret tt (LState (with_llog bs') (set_lh_block (length B) b g))).
    { apply log_zoom. rewrite bpin_llog by done. unfold bpin in Ep. rewrite bcache_update in Ep by done. by simplify_eq. }
    erewrite bind_ret by (rewrite (bind_ret _ _ _ _ _ El); reflexivity). cbn [log l_bio].
    rewrite (llog_release bs' _ (bi_held _ _ I')). eexists bs', _. split; [done|]. rewrite !decide_False by done.
    split_and!; try done; [|by split_and!; cbn; rewrite ?length_insert]. rewrite <- (tr_n _ _ T). apply tr_snoc; try done; lia.
Qed.

(** ** Reserving space *)

(** Every running operation has room for [MAXOPBLOCKS] blocks. *)
Definition reserved (s : lstate) : Prop :=
  b_held (l_bio s) = ∅ /\ 0 <= lh_n (log s) /\ 0 <= l_outstanding (log s) /\
  lh_n (log s) + l_outstanding (log s) * MAXOPBLOCKS <= LOGSIZE.

Lemma begin_op_go bs g :
  b_held bs = ∅ -> l_committing g = 0 -> lh_n g + (l_outstanding g + 1) * MAXOPBLOCKS <= LOGSIZE ->
  begin_op (LState bs g) = Ret tt (LState bs (set_outstanding (l_outstanding g + 1) g)).
Proof.
  intros Hh Hc Hroom. unfold begin_op. rewrite (bind_ret _ _ _ _ _ (llog_acquire bs g Hh)).
  cbn [begin_op_loop]. mstep. cbn [log]. rewrite Hc, (proj2 (Z.ltb_ge LOGSIZE _)) by done. cbn [Z.eqb negb].
  mstep. by apply llog_release.
Qed.

(** A wait in [begin_op] gives up the lock in a reserved state and goes on with
    the loop in one. *)
Lemma begin_op_loop_safe n bs g :
  reserved (LState bs g) ->
  safe reserved (fun _ _ => True) (fun _ s => reserved s /\ l_committing (log s) = 0 /\ 1 <= l_outstanding (log s))
    (begin_op_loop n (LState (with_llog bs) g)).
Proof.
  revert bs g. induction n as [|n IH]; intros bs g HR; [done|]. pose proof HR as (Hh & Hn & Ho & Hsum). cbn in Hh, Hn, Ho, Hsum.
  assert (Hsleep : safe reserved (fun _ _ => True)
    (fun _ s => reserved s /\ l_committing (log s) = 0 /\ 1 <= l_outstanding (log s))
    ((sleep ChanLog LLog ;; begin_op_loop n) (LState (with_llog bs) g))).
  { apply safe_bind with (Q := fun _ s => exists bs' g', s = LState (with_llog bs') g' /\ reserved (LState bs' g')).
    - rewrite sleep_ok by done. cbn [safe]. split; [by split_and!|]. intros [bs' g'] _ HR'.
      rewrite llog_acquire by apply HR'. by exists bs', g'.
    - intros [] s' (bs' & g' & -> & HR'). by apply IH. }
  cbn [begin_op_loop]. mstep. cbn [log]. destruct (Z.eqb_spec (l_committing g) 0) as [Hc|Hc]; [|exact Hsleep].
  cbn [negb]. destruct (Z.ltb_spec LOGSIZE (lh_n g + (l_outstanding g + 1) * MAXOPBLOCKS)); [exact Hsleep|].
  mstep. cbn [log l_bio]. rewrite llog_release by done. cbn. unfold reserved. cbn. split_and!; try done; lia.
Qed.

(** [begin_op] never reserves more log space than there is: whatever the other
    operations do while it waits, provided they keep the reservations within the
    log, it returns with its own reservation made and no commit in progress; when
    there is room at once it does not wait. *)
Theorem begin_op_reserves bs g :
  reserved (LState bs g) ->
  safe reserved (fun _ _ => True) (fun _ s => reserved s /\ l_committing (log s) = 0 /\ 1 <= l_outstanding (log s))
    (begin_op (LState bs g)) /\
  (l_committing g = 0 -> lh_n g + (l_outstanding g + 1) * MAXOPBLOCKS <= LOGSIZE ->
   begin_op (LState bs g) = Ret tt (LState bs (set_outstanding (l_outstanding g + 1) g))).
Proof.
  intros HR. split; [|intros; apply begin_op_go; try done; apply HR].
  unfold begin_op. rewrite (bind_ret _ _ _ _ _ (llog_acquire bs g (proj1 HR))). by apply begin_op_loop_safe.
Qed.

(** ** The end of an operation *)

Lemma rep_woke c s l R : rep s l R -> rep (woke c s) l R.
Proof. intros [I Hu Hb]. split; [by apply binv_woke|done|done]. Qed.

Lemma wakeup_llog bs g :
  wakeup ChanLog (LState (with_llog bs) g) = Ret tt (LState (with_llog (woke ChanLog bs)) g).
Proof. done. Qed.

(** The disk writes of a commit; there are none when there is nothing to commit. *)
Definition commit_writes (g : logst) (bs : bstate) (B : list Z) : list (Z * block) :=
  if decide (B = []) then [] else commit_w (l_start g) (view bs) (view bs (l_start g)) B.

Lemma commit_any g B bs l :
  trans g B -> rep bs l (pins B) ->
  exists bs' l', commit (LState bs g) = Ret tt (LState bs' (set_lh_n 0 g)) /\ rep bs' l' ∅ /\
    (forall b, ~ in_log g b -> view bs' b = view bs b) /\ b_pid bs' = b_pid bs /\
    disk bs' = writes (commit_writes g bs B) (disk bs) /\ dhist bs' = reverse (commit_writes g bs B) ++ dhist bs.
Proof.
  intros T Hr. unfold commit_writes. destruct (decide (B = [])) as [->|HB].
  - exists bs, l. unfold commit. mstep. cbn [log]. pose proof (tr_n _ _ T) as Hn. cbn in Hn. rewrite Hn. split; [|done].
    destruct g. cbn in *. by subst.
  - destruct (commit_ok g B bs l T HB Hr) as (bs' & l' & E & Hr' & K & Kh & V & P). by exists bs', l'.
Qed.

(** The [end_op] of the last running operation commits the transaction: when it
    returns every block is on disk as the operations left it, nothing is pinned, the
    log is empty and the next operations may start. *)
Lemma end_op_ok g B bs l :
  trans g B -> l_committing g = 0 -> l_outstanding g = 1 -> rep bs l (pins B) ->
  exists bs' l' g', end_op (LState bs g) = Ret tt (LState bs' g') /\ rep bs' l' ∅ /\
    lh_n g' = 0 /\ l_outstanding g' = 0 /\ l_committing g' = 0 /\
    (forall b, ~ in_log g b -> view bs' b = view bs b /\ disk_block (disk bs') b = view bs b) /\ b_pid bs' = b_pid bs /\
    (disk bs' = writes (commit_writes g bs B) (disk bs) /\ dhist bs' = reverse (commit_writes g bs B) ++ dhist bs) /\ same_geom g g'.
Proof.
  intros T Hc Ho Hr. pose proof (bi_held _ _ (rp_inv _ _ _ Hr)) as Hh.
  unfold end_op. rewrite (bind_ret _ _ _ _ _ (llog_acquire bs g Hh)). do 3 mstep. cbn [log l_bio].
  cbn [set_outstanding l_committing l_outstanding]. rewrite Hc, Ho. change (1 - 1 =? 0) with true. change (negb (0 =? 0)) with false. cbv iota.
  mstep. cbn [log l_bio]. erewrite bind_ret by (by apply llog_release).
  match goal with |- context [LState bs ?x] => set (g1 := x) end.
  assert (T1 : trans g1 B) by (destruct T; by split).
  destruct (commit_any g1 B bs l T1 Hr) as (bs1 & l1 & E & Hr1 & V & P & K & Kh). rewrite (bind_ret _ _ _ _ _ E).
  pose proof (bi_held _ _ (rp_inv _ _ _ Hr1)) as Hh1.
  rewrite (bind_ret _ _ _ _ _ (llog_acquire bs1 _ Hh1)). mstep. cbn [log l_bio].
  rewrite (bind_ret _ _ _ _ _ (wakeup_llog _ _)). rewrite llog_release by done.
  eexists (woke ChanLog bs1), l1, _. split; [done|]. split; [by apply rep_woke|]. do 3 (split; [done|]).
  split; [|by split_and!]. intros b Hb. pose proof (rep_clean bs1 l1 ∅ b Hr1 (lookup_empty b)) as Hcl.
  split; [by apply V|]. change (disk (woke ChanLog bs1)) with (disk bs1). rewrite <- Hcl. by apply V.
Qed.
End LogOps.

(** ** Concrete instances *)
Module LogDemo.
#[local] Instance demo_wakeups : Wakeups := 3%nat.

(** The log of the images built by mkfs: blocks 2 to 31. *)
Definition demo_log (n : Z) (blocks : list Z) : logst :=
  {| l_start := 2; l_size := 30; l_outstanding := 1; l_committing := 0; l_dev := ROOTDEV;
     lh_n := n; lh_block := blocks ++ replicate (30 - length blocks) 0 |}.

Lemma demo_trans_nil : trans (demo_log 0 []) [].
Proof. split; cbn; try done; try lia; [vm_compute; lia|apply NoDup_nil_2|set_solver]. Qed.

Lemma demo_trans : trans (demo_log 1 [40]) [40].
Proof.
  split; cbn; try done; try lia.
  - by intros m b [-> <-]%list_lookup_singleton_Some.
  - vm_compute. lia.
  - apply NoDup_singleton.
  - intros b ->%list_elem_of_singleton. unfold blk, in_log. cbn. lia.
Qed.

Definition demo_boot : bstate := set_bufs (linked [] <$> seq 0 (S head)) (zeroed [] ∅ 1).

(** Block 40 read and changed. *)
Definition demo_owned : bstate :=
  match (let! i := bread ROOTDEV 40 in updb i (set_data [7; 8])) demo_boot with Ret _ s => s | _ => demo_boot end.

Lemma demo_owned_rep : rep demo_owned (reverse (seq 0 head)) {[40 := (1, true)]} /\ owns demo_owned 0 40.
Proof.
  destruct (bread_abs demo_boot _ ∅ 40 (zeroed_rep [] ∅ 1)) as (i & s & E & R & O & _); [vm_compute; lia|].
  destruct (set_data_abs s _ _ i 40 [7; 8] R O) as (s' & E' & R' & O' & _).
  assert (E1 : (let! i := bread ROOTDEV 40 in updb i (set_data [7; 8])) demo_boot = Ret tt demo_owned) by (vm_compute; reflexivity).
  assert (E2 : bread ROOTDEV 40 demo_boot = Ret 0%nat s) by (rewrite E; f_equal; revert E; vm_compute; congruence).
  rewrite (bind_ret _ _ _ _ _ E), E' in E1. rewrite E2 in E. simplify_eq. done.
Qed.

(** ... pinned by [log_write] and released. *)
Definition demo_pinned : bstate :=
  match (bpin 0 ;; brelse 0) demo_owned with Ret _ s => s | _ => demo_owned end.

Lemma demo_pinned_rep : exists l, rep demo_pinned l (pins [40]).
Proof.
  destruct demo_owned_rep as [R O].
  destruct (bpin_abs demo_owned _ _ 0 40 1 R O) as (s & E & R1 & O1 & _); [done|done|].
  destruct (brelse_abs s _ _ 0 40 2 R1 O1) as (s' & l' & E' & R2 & _); [done|done|].
  assert (E1 : (bpin 0 ;; brelse 0) demo_owned = Ret tt demo_pinned) by (vm_compute; reflexivity).
  rewrite (bind_ret _ _ _ _ _ E), E' in E1. simplify_eq. exists l'. exact R2.
Qed.

Lemma begin_op_reserves_witness :
  begin_op (LState demo_boot (demo_log 1 [40])) = Ret tt (LState demo_boot (set_outstanding 2 (demo_log 1 [40]))).
Proof.
  apply (begin_op_reserves demo_boot (demo_log 1 [40])).
  - split; [reflexivity|]. cbn. unfold MAXOPBLOCKS, LOGSIZE, MAXOPBLOCKS. lia.
  - reflexivity.
  - cbn. unfold MAXOPBLOCKS, LOGSIZE, MAXOPBLOCKS. lia.
Defined.

End LogDemo.
