(* ===== verification/LogProps.v ===== *)
(** kernel/log.c: a transaction reaches the disk completely or not at all, also
    when the machine stops in the middle of a commit or of a recovery. *)

From S2P Require Import Prelude Riscv Sync Sleeplock Bio BioSpec BioList BioAbs BioProps.
From S2P Require Import DiskFmt Log LogSpec LogCrash LogOps.

(** The machine after a restart: cache and log are zero, the disk is [d]. *)
Definition zero_log : logst :=
  {| l_start := 0; l_size := 0; l_outstanding := 0; l_committing := 0; l_dev := 0;
     lh_n := 0; lh_block := replicate (Z.to_nat LOGSIZE) 0 |}.
Definition restarted (d : gmap Z block) (pid : Z) : lstate :=
  LState (zeroed (replicate (Z.to_nat BSIZE) 0) d pid) zero_log.

Section LogProps.
Context {WK : Wakeups}.

(** [binit] and then [initlog], with the log where the superblock says. *)
Definition mount (start size : Z) (d : gmap Z block) (pid : Z) : outcome lstate unit :=
  (zoom binit ;; initlog ROOTDEV start size) (restarted d pid).

(** The disk holds the blocks [B] of a committed transaction, or none. *)
Definition log_on (start size : Z) (d : gmap Z block) (B : list Z) : Prop :=
  0 <= start /\ start + size < 2 ^ 31 /\ disk_log start size d B.

Lemma initlog_eq start size bs g :
  b_held bs = ∅ -> 0 <= start < 2 ^ 31 -> 0 <= size < 2 ^ 31 ->
  initlog ROOTDEV start size (LState bs g) =
  recover_from_log (LState bs {| l_start := start; l_size := size; l_outstanding := l_outstanding g;
    l_committing := l_committing g; l_dev := ROOTDEV; lh_n := lh_n g; lh_block := lh_block g |}).
Proof.
  intros Hh Hst Hsz. unfold initlog. change (BSIZE <=? logheader_size) with false. cbv iota.
  unfold initlock. do 2 mstep. cbn. rewrite !s32_small by lia. do 2 f_equal.
  destruct bs. cbn in *. subst. by rewrite empty_difference_L.
Qed.

(** The log once it has been recovered. *)
Definition idle_log (start size : Z) (bl : list Z) : logst :=
  {| l_start := start; l_size := size; l_outstanding := 0; l_committing := 0; l_dev := ROOTDEV; lh_n := 0; lh_block := bl |}.

Lemma mount_ok start size d pid B :
  log_on start size d B ->
  let W := install_w start (home_value start d) (disk_block d start) B in
  exists bs l bl, mount start size d pid = Ret tt (LState bs (idle_log start size bl)) /\ length bl = Z.to_nat LOGSIZE /\
    rep bs l (leaks B) /\ disk bs = writes W d /\ dhist bs = reverse W /\ b_pid bs = pid.
Proof.
  intros (Hst & Hend & D) W. pose proof (dl_size _ _ _ _ D). unfold mount.
  set (bs0 := set_bufs (linked (replicate (Z.to_nat BSIZE) 0) <$> seq 0 (S head)) (zeroed (replicate (Z.to_nat BSIZE) 0) d pid)).
  assert (E0 : zoom binit (restarted d pid) = Ret tt (LState bs0 zero_log)) by (apply log_zoom, binit_run).
  rewrite (bind_ret _ _ _ _ _ E0). rewrite initlog_eq; [|reflexivity|lia|lia].
  assert (Hr0 : rep bs0 (reverse (seq 0 head)) ∅) by apply zeroed_rep.
  assert (Hd0 : disk bs0 = d) by reflexivity. assert (Hp0 : b_pid bs0 = pid) by reflexivity. assert (Hh0 : dhist bs0 = []) by reflexivity. clearbody bs0.
  destruct (recover_ok (idle_log start size (replicate (Z.to_nat LOGSIZE) 0)) B bs0 (reverse (seq 0 head)))
    as (bs & l & bl & E & Hbl & Hr & K & T & P); [done|done|cbn; lia|exact (length_replicate _ _)|by rewrite Hd0|done|].
  exists bs, l, bl. split; [exact E|]. rewrite Hp0 in P. cbn [l_start] in K, T. rewrite Hd0 in K, T. rewrite Hh0, app_nil_r in T.
  by split_and!.
Qed.

(** The disk after [j] of the disk writes of recovery. *)
Lemma recovery_prefix start size d B j :
  log_on start size d B ->
  let d' := writes (take j (install_w start (home_value start d) (disk_block d start) B)) d in
  (exists B', log_on start size d' B' /\ ((length B < j)%nat -> B' = [])) /\
  forall b, ~ (start <= b < start + size) -> home_value start d' b = home_value start d b.
Proof.
  intros (Hst & Hend & D) d'.
  destruct (install_prefix start size d B (home_value start d) j D) as [(B' & D' & HB') Hv];
    [intros; by eapply home_value_logged|].
  split; [by exists B'|]. intros b Hb. unfold d'. rewrite Hv by done.
  case_decide; [done|]. by rewrite (home_value_out _ size _ B).
Qed.

#[local] Opaque mount commit.

(** A complete recovery. *)
Lemma mounted_idle start size d pid B :
  log_on start size d B ->
  let W := install_w start (home_value start d) (disk_block d start) B in
  exists bs l bl, mount start size d pid = Ret tt (LState bs (idle_log start size bl)) /\ length bl = Z.to_nat LOGSIZE /\
    b_pid bs = pid /\ disk bs = writes W d /\ dhist bs = reverse W /\ rep bs l (leaks B) /\ log_on start size (disk bs) [] /\
    forall b, ~ (start <= b < start + size) -> disk_block (disk bs) b = home_value start d b.
Proof.
  intros L W. destruct (mount_ok start size d pid B L) as (bs & l & bl & E & Hl & Hr & K & T & P).
  destruct (recovery_prefix start size d B (length W) L) as [(B' & L' & HB') Hv]. fold W in K, L', Hv.
  rewrite firstn_all, <- K in L', Hv. rewrite HB' in L'.
  2:{ unfold W, install_w, home_w. rewrite length_app, length_fmap. cbn. lia. }
  exists bs, l, bl. do 7 (split; [assumption|]). intros b Hb.
  rewrite <- Hv by done. symmetry. eapply home_value_out; [apply L'|apply not_elem_of_nil].
Qed.

Lemma mounted start size d pid B :
  log_on start size d B ->
  let W := install_w start (home_value start d) (disk_block d start) B in
  exists bs l g, mount start size d pid = Ret tt (LState bs g) /\ lh_n g = 0 /\ disk bs = writes W d /\
    dhist bs = reverse W /\ rep bs l (leaks B) /\ log_on start size (disk bs) [] /\
    forall b, ~ (start <= b < start + size) -> disk_block (disk bs) b = home_value start d b.
Proof.
  intros L W. destruct (mounted_idle start size d pid B L) as (bs & l & bl & E & _ & _ & H).
  exists bs, l, (idle_log start size bl). split; [exact E|]. split; [reflexivity|exact H].
Qed.

(** C12: recovery after a restart puts every block of a committed transaction in
    its home and clears the log; stopped after any number of its disk writes, it
    leaves a disk that means the same, so that the next recovery ends with the
    same contents.  [W] is the list of the writes that recovery makes, in their
    order: it is the history [dhist] that the driver records. *)
Theorem recovery_correct start size d pid B :
  log_on start size d B ->
  exists bs g W, mount start size d pid = Ret tt (LState bs g) /\ lh_n g = 0 /\
    disk bs = writes W d /\ dhist bs = reverse W /\ log_on start size (disk bs) [] /\
    (forall b, ~ (start <= b < start + size) -> disk_block (disk bs) b = home_value start d b) /\
    forall k, let d' := writes (take k W) d in
      exists B' bs' g', log_on start size d' B' /\ mount start size d' pid = Ret tt (LState bs' g') /\
        forall b, ~ (start <= b < start + size) -> disk_block (disk bs') b = disk_block (disk bs) b.
Proof.
  intros L. destruct (mounted start size d pid B L) as (bs & l & g & E & Hn & K & Hw & _ & L0 & Hv).
  exists bs, g, (install_w start (home_value start d) (disk_block d start) B). do 5 (split; [assumption|]). split; [exact Hv|].
  intros k d'. destruct (recovery_prefix start size d B k L) as [(B' & L' & _) Hv']. fold d' in L', Hv'.
  destruct (mounted start size d' pid B' L') as (bs' & l' & g' & E' & _ & _ & _ & _ & _ & Hv'').
  exists B', bs', g'. do 2 (split; [assumption|]). intros b Hb. by rewrite Hv'', Hv', Hv.
Qed.

(** A complete commit leaves the log empty. *)
Lemma commit_log_clear g B bs l :
  trans g B -> rep bs l (pins B) -> disk_log (l_start g) (l_size g) (disk bs) [] ->
  disk_log (l_start g) (l_size g) (writes (commit_writes g bs B) (disk bs)) [].
Proof.
  intros T Hr D. unfold commit_writes. case_decide; [done|].
  assert (Hst : view bs (l_start g) = disk_block (disk bs) (l_start g)).
  { apply (rep_clean bs l (pins B)); [done|]. apply pins_out. by apply tr_start_out. }
  rewrite Hst. set (W := commit_w _ _ _ _).
  destruct (commit_prefix g (disk bs) B (view bs) (length W) T D) as [(B' & D' & HB') _]. fold W in D'. rewrite firstn_all in D'.
  rewrite <- HB'; [exact D'|]. unfold W, commit_w, home_w. rewrite !length_app, log_w_len, !length_fmap. cbn. lia.
Qed.

(** A machine that stops after any number of the disk writes of a commit. *)
Lemma commit_survives g B bs l pid k :
  trans g B -> l_start g + l_size g < 2 ^ 31 -> rep bs l (pins B) -> disk_log (l_start g) (l_size g) (disk bs) [] ->
  exists r g', mount (l_start g) (l_size g) (writes (take k (commit_writes g bs B)) (disk bs)) pid = Ret tt (LState r g') /\
    ((forall b, ~ in_log g b -> disk_block (disk r) b = disk_block (disk bs) b) \/
     (forall b, ~ in_log g b -> disk_block (disk r) b = view bs b)).
Proof.
  intros T Hend Hr D. unfold commit_writes. destruct (decide (B = [])) as [->|HB].
  { rewrite take_nil. destruct (mounted (l_start g) (l_size g) (disk bs) pid []) as (r & l2 & g' & Em & _ & _ & _ & _ & _ & Hm); [by split_and!; [apply T|..]|].
    exists r, g'. split; [exact Em|]. left. intros b Hb. rewrite Hm by exact Hb. eapply home_value_out; [exact D|apply not_elem_of_nil]. }
  assert (Hst : view bs (l_start g) = disk_block (disk bs) (l_start g)).
  { apply (rep_clean bs l (pins B)); [done|]. apply pins_out. by apply tr_start_out. }
  destruct (commit_prefix g (disk bs) B (view bs) k T D) as [(B' & D' & _) Hv]. rewrite <- Hst in D', Hv.
  destruct (mounted _ _ _ pid B' (conj (tr_start _ _ T) (conj Hend D'))) as (r & l2 & g' & Em & _ & _ & _ & _ & _ & Hm).
  exists r, g'. split; [exact Em|].
  destruct (decide (length B < k)%nat) as [Hk|Hk]; [right|left]; intros b Hb; rewrite Hm, Hv by exact Hb.
  - assert (Hin : b ∈ B \/ b ∉ B) by (clear; destruct (decide (b ∈ B)); auto).
    destruct Hin as [Hin|Hin]; [by rewrite decide_True by (split; assumption)|].
    rewrite decide_False by (intros [_ ?]; contradiction).
    symmetry. apply (rep_clean bs l (pins B)); [exact Hr|]. by apply pins_out.
  - rewrite decide_False by (intros [? _]; contradiction). reflexivity.
Qed.

(** C11: a commit is atomic. [commit] ends with every block of the transaction on
    disk and the log empty; and if the machine stops after any number [k] of its
    disk writes, recovery yields either the disk as it was before the commit or
    the complete transaction, never a part of it.  [W] is the list of the writes
    that [commit] makes, in their order: it is what it adds to the history [dhist]
    of the disk. *)
Theorem commit_crash_safe g B bs l pid :
  trans g B -> l_start g + l_size g < 2 ^ 31 -> B <> [] -> rep bs l (pins B) ->
  disk_log (l_start g) (l_size g) (disk bs) [] ->
  exists bs' l' W, commit (LState bs g) = Ret tt (LState bs' (set_lh_n 0 g)) /\ rep bs' l' ∅ /\
    disk bs' = writes W (disk bs) /\ dhist bs' = reverse W ++ dhist bs /\
    (forall b, ~ in_log g b -> view bs' b = view bs b /\ disk_block (disk bs') b = view bs b) /\
    forall k, exists r g', mount (l_start g) (l_size g) (writes (take k W) (disk bs)) pid = Ret tt (LState r g') /\
      ((forall b, ~ in_log g b -> disk_block (disk r) b = disk_block (disk bs) b) \/
       (forall b, ~ in_log g b -> disk_block (disk r) b = view bs b)).
Proof.
  intros T Hend HB Hr D. destruct (commit_ok g B bs l T HB Hr) as (bs' & l' & E & Hr' & K & Hw & V & _).
  set (W := commit_w (l_start g) (view bs) (view bs (l_start g)) B) in *.
  exists bs', l', W. split; [exact E|]. split; [exact Hr'|]. split; [exact K|]. split; [exact Hw|]. split.
  { intros b Hb. rewrite <- (rep_clean bs' l' ∅ b Hr') by apply lookup_empty. split; [by apply V|by apply V]. }
  intros k. pose proof (commit_survives g B bs l pid k T Hend Hr D) as H. unfold commit_writes in H. rewrite decide_False in H by done. exact H.
Qed.

(** C40: after a recovery the count of references of every recovered block has
    wrapped around: [install_trans] unpins a block that nothing pinned. The first
    [bget] of such a block, the half of [bread] that looks it up, returns a locked
    buffer with no references, the mark of a buffer that [bget] may give to another
    block. *)
Theorem recovery_wraps_refcnt start size d pid B b :
  log_on start size d B -> b ∈ B ->
  exists bs g i bs', mount start size d pid = Ret tt (LState bs g) /\ bget ROOTDEV b bs = Ret i bs' /\
    b_refcnt (bufs bs !!! i) = 2 ^ 32 - 1 /\
    b_blockno (bufs bs' !!! i) = b /\ slk_locked (buf_lock i bs') = 1 /\ b_refcnt (bufs bs' !!! i) = 0.
Proof.
  intros L Hb. destruct (mounted start size d pid B L) as (bs & l & g & E & _ & _ & _ & Hr & _).
  pose proof (rp_inv _ _ _ Hr) as I.
  assert (HR : leaks B !! b = Some (2 ^ 32 - 1, false)).
  { unfold leaks. apply lookup_gset_to_gmap_Some. split; [by apply elem_of_list_to_set|done]. }
  destruct (rp_block _ _ _ Hr b _ HR) as (i & Hc & _). pose proof Hc as [Hi Hm].
  apply matches_spec in Hm as [_ Hbn]. rewrite (rep_cached bs l _ b i Hr Hc) in HR.
  destruct (Z.eqb_spec (b_refcnt (bufs bs !!! i)) 0) as [|Hne]; [discriminate HR|]. injection HR as Hrc Hlk.
  apply negb_false_iff, Z.eqb_eq in Hlk.
  assert (Hil : (i < length (bufs bs))%nat) by (rewrite (bi_len _ _ I); lia).
  exists bs, g, i. eexists. split; [exact E|]. split; [by apply (bget_hit bs l)|].
  split; [exact Hrc|]. unfold buf_lock. rewrite upd_eq by done. cbn [set_lock set_refcnt b_blockno b_lock b_refcnt slk_locked].
  rewrite Hrc. split; [exact Hbn|]. split; reflexivity.
Qed.
End LogProps.

(** ** Concrete instances *)
Module CrashDemo.
Import LogDemo.
#[local] Existing Instance demo_wakeups.

(** A disk with a committed transaction of block 40. *)
Definition committed : gmap Z block := {[2 := header (replicate 1024 0) [40]; 3 := [9; 9]]}.

Lemma committed_log : log_on 2 30 committed [40].
Proof.
  split; [lia|]. split; [lia|]. split.
  - vm_compute. reflexivity.
  - vm_compute. reflexivity.
  - vm_compute. reflexivity.
  - cbn. lia.
  - vm_compute. lia.
  - apply NoDup_singleton.
  - intros b ->%list_elem_of_singleton. unfold blk. lia.
Qed.

Lemma recovery_correct_witness :
  exists bs g, mount 2 30 committed 1 = Ret tt (LState bs g) /\ disk_block (disk bs) 40 = [9; 9].
Proof.
  destruct (recovery_correct 2 30 committed 1 [40] committed_log) as (bs & g & W & E & _ & _ & _ & _ & H & _).
  exists bs, g. split; [exact E|]. assert (Hv : home_value 2 committed 40 = [9; 9]) by (vm_compute; reflexivity).
  rewrite <- Hv. apply H. lia.
Defined.

Lemma recovery_wraps_refcnt_witness :
  exists bs g i bs', mount 2 30 committed 1 = Ret tt (LState bs g) /\ bget ROOTDEV 40 bs = Ret i bs' /\
    slk_locked (buf_lock i bs') = 1 /\ b_refcnt (bufs bs' !!! i) = 0.
Proof.
  destruct (recovery_wraps_refcnt 2 30 committed 1 [40] 40 committed_log) as (bs & g & i & bs' & E & G & _ & _ & L & Z0);
    [by left|].
  exists bs, g, i, bs'. split; [exact E|]. split; [exact G|]. split; [exact L|exact Z0].
Defined.

Lemma commit_crash_safe_witness :
  exists bs' W, commit (LState demo_pinned (demo_log 1 [40])) = Ret tt (LState bs' (set_lh_n 0 (demo_log 1 [40]))) /\
    forall k, exists r g', mount 2 30 (writes (take k W) (disk demo_pinned)) 1 = Ret tt (LState r g') /\
      (disk_block (disk r) 40 = disk_block (disk demo_pinned) 40 \/ disk_block (disk r) 40 = [7; 8]).
Proof.
  destruct demo_pinned_rep as [l R].
  assert (Hd : disk demo_pinned = ∅) by (vm_compute; reflexivity).
  assert (D : disk_log 2 30 (disk demo_pinned) []).
  { rewrite Hd. split; [vm_compute; reflexivity..|cbn; lia|vm_compute; lia|apply NoDup_nil_2|].
    intros b Hb. by apply elem_of_nil in Hb. }
  assert (Ho : ~ in_log (demo_log 1 [40]) 40) by (unfold in_log; cbn; lia).
  assert (Hv : view demo_pinned 40 = [7; 8]) by (vm_compute; reflexivity).
  destruct (commit_crash_safe _ _ _ _ 1 demo_trans ltac:(cbn; lia) ltac:(discriminate) R D)
    as (bs' & l' & W & E & _ & _ & _ & _ & H).
  exists bs', W. split; [exact E|]. intros k. destruct (H k) as (r & g' & Em & [Hold|Hnew]); exists r, g'; (split; [exact Em|]).
  - left. by apply Hold.
  - right. rewrite <- Hv. by apply Hnew.
Defined.
End CrashDemo.
