(* ===== verification/Blocks.v ===== *)
(** The interface between the file system proper (kernel/fs.c) and the layers
    below it: blocks that are read, edited in a buffer, added to the transaction
    and given back.

    The class [Blocks] has the operations; [BlocksOk] says what the file system
    relies on.  File LogBlocks shows that kernel/log.c over kernel/bio.c keeps
    the promise. *)

From S2P Require Import Prelude Riscv Sync Bio.

Class Blocks (S : Type) := {
  bk_held :: Lens S lockset;
  bk_pid : S -> Z;                                (* myproc()->pid *)
  bk_bread : Z -> Z -> M S nat;
  bk_data : nat -> M S block;                     (* b->data, read *)
  bk_put : nat -> block -> M S unit;              (* b->data, written *)
  bk_brelse : nat -> M S unit;
  bk_log_write : nat -> M S unit;
  bk_initlog : Z -> Z -> Z -> M S unit;
  bk_begin_op : M S unit;
  bk_end_op : M S unit }.

(** What a restart would find: the disk, and where its log starts; [dk_hist] has the
    writes to the disk, the latest first. *)
Record durable := Durable { dk_blocks : gmap Z block; dk_log : Z; dk_hist : list (Z * block) }.

(** What the file system sees while an operation runs: the contents of every
    block, the contents at the last commit, the buffers the thread has, and the
    blocks of the transaction.  Blocks for which [t_home] does not hold, such as
    those of the log, are not for the file system to use. *)
Record tx := Tx {
  t_view : Z -> block;
  t_base : Z -> block;
  t_open : gmap nat Z;
  t_log : gset Z;
  t_home : Z -> Prop;
  t_pid : Z;
  t_in : bool;                                    (* between begin_op and end_op *)
  t_disk : durable }.

Definition upd_view (b : Z) (d : block) (v : Z -> block) : Z -> block := fun b' => if decide (b' = b) then d else v b'.
Definition open_buf (i : nat) (b : Z) (t : tx) : tx :=
  {| t_view := t_view t; t_base := t_base t; t_open := <[i := b]> (t_open t); t_log := t_log t; t_home := t_home t; t_pid := t_pid t; t_in := t_in t; t_disk := t_disk t |}.
Definition close_buf (i : nat) (t : tx) : tx :=
  {| t_view := t_view t; t_base := t_base t; t_open := delete i (t_open t); t_log := t_log t; t_home := t_home t; t_pid := t_pid t; t_in := t_in t; t_disk := t_disk t |}.
Definition put_buf (b : Z) (d : block) (t : tx) : tx :=
  {| t_view := upd_view b d (t_view t); t_base := t_base t; t_open := t_open t; t_log := t_log t; t_home := t_home t; t_pid := t_pid t; t_in := t_in t; t_disk := t_disk t |}.
Definition log_buf (b : Z) (t : tx) : tx :=
  {| t_view := t_view t; t_base := t_base t; t_open := t_open t; t_log := {[b]} ∪ t_log t; t_home := t_home t; t_pid := t_pid t; t_in := t_in t; t_disk := t_disk t |}.
(** Nothing has been written since the last commit. *)
Definition tx_fresh (into : bool) (v : Z -> block) (hm : Z -> Prop) (pid : Z) (dk : durable) : tx :=
  {| t_view := v; t_base := v; t_open := ∅; t_log := ∅; t_home := hm; t_pid := pid; t_in := into; t_disk := dk |}.

(** The promises, for a thread that runs alone.  One more buffer may be taken, or
    one more block added to the transaction, while at most 28 are in use: the
    log has room for 29 blocks and the cache for 30. *)
Definition room (t : tx) : Prop := (size (t_open t) + size (t_log t) <= 28)%nat.

Class BlocksOk (S : Type) {B : Blocks S} := {
  tx_rep : S -> tx -> Prop;
  tx_held s t : tx_rep s t -> lget s = (∅ : lockset);
  tx_pid s t : tx_rep s t -> bk_pid s = t_pid t;
  pid_held s (h : lockset) : bk_pid (lput h s) = bk_pid s;
  tx_bread s t b :
    tx_rep s t -> t_home t b -> (forall i, t_open t !! i <> Some b) -> room t ->
    exists i s', bk_bread ROOTDEV b s = Ret i s' /\ t_open t !! i = None /\ tx_rep s' (open_buf i b t);
  tx_data s t i b : tx_rep s t -> t_open t !! i = Some b -> bk_data i s = Ret (t_view t b) s;
  tx_put s t i b d :
    tx_rep s t -> t_open t !! i = Some b -> exists s', bk_put i d s = Ret tt s' /\ tx_rep s' (put_buf b d t);
  tx_brelse s t i b :
    tx_rep s t -> t_open t !! i = Some b -> b ∈ t_log t \/ t_view t b = t_base t b ->
    exists s', bk_brelse i s = Ret tt s' /\ tx_rep s' (close_buf i t);
  tx_log_write s t i b :
    tx_rep s t -> t_open t !! i = Some b -> room t -> t_in t = true ->
    exists s', bk_log_write i s = Ret tt s' /\ tx_rep s' (log_buf b t);
  tx_begin s v hm pid dk :
    tx_rep s (tx_fresh false v hm pid dk) -> exists s', bk_begin_op s = Ret tt s' /\ tx_rep s' (tx_fresh true v hm pid dk);
  tx_end s t :
    tx_rep s t -> t_open t = ∅ -> t_in t = true ->
    exists s' dk, bk_end_op s = Ret tt s' /\ tx_rep s' (tx_fresh false (t_view t) (t_home t) (t_pid t) dk) }.
