(* ===== verification/LogBlocks.v ===== *)
(** kernel/log.c over kernel/bio.c is a layer of blocks for the file system. *)

From S2P Require Import Prelude Riscv Sync Sleeplock Bio BioSpec BioList BioAbs BioProps.
From S2P Require Import DiskFmt Log LogSpec LogCrash LogOps LogProps Blocks.

Section LogBlocks.
Context {WK : Wakeups}.

#[export] Instance log_blocks : Blocks lstate := {|
  bk_held := lstate_held; bk_pid := fun s => b_pid (l_bio s); bk_bread := l_bread; bk_data := l_data; bk_put := l_put;
  bk_brelse := l_brelse; bk_log_write := log_write; bk_initlog := initlog; bk_begin_op := begin_op; bk_end_op := end_op |}.

(** The blocks of the open buffers. *)
Definition opened (t : tx) : gset Z := list_to_set (map_to_list (t_open t)).*2.

Lemma elem_opened t b : b ∈ opened t <-> exists i, t_open t !! i = Some b.
Proof.
  unfold opened. rewrite elem_of_list_to_set, list_elem_of_fmap. split.
  - intros ([i x] & -> & Hi). exists i. by apply elem_of_map_to_list.
  - intros [i Hi]. exists (i, b). split; [done|]. by apply elem_of_map_to_list.
Qed.

Lemma size_opened t : (size (opened t) <= size (t_open t))%nat.
Proof.
  unfold opened. etrans; [apply size_list_to_set_le|]. rewrite length_fmap. by rewrite length_map_to_list.
Qed.

(** How often a block is used, and whether it is locked. *)
Definition use_of (t : tx) (b : Z) : option (Z * bool) :=
  if decide (b ∈ opened t) then Some (if decide (b ∈ t_log t) then 2 else 1, true)
  else if decide (b ∈ t_log t) then Some (1, false) else None.

Record log_rep (s : lstate) (t : tx) (l : list nat) (R : uses) (B : list Z) : Prop := {
  lr_trans : trans (log s) B;
  lr_len : length (lh_block (log s)) = Z.to_nat LOGSIZE;
  lr_size : l_size (log s) = LOGSIZE;
  lr_out : l_outstanding (log s) = (if t_in t then 1 else 0);
  lr_in : t_in t = false -> B = [];
  lr_comm : l_committing (log s) = 0;
  lr_rep : rep (l_bio s) l R;
  lr_uses : forall b, R !! b = use_of t b;
  lr_log : forall b, b ∈ t_log t <-> b ∈ B;
  lr_open : forall i b, t_open t !! i = Some b -> owns (l_bio s) i b /\ t_home t b;
  lr_home : forall b, t_home t b -> blk b /\ ~ in_log (log s) b;
  lr_view : forall b, t_home t b -> view (l_bio s) b = t_view t b;
  lr_base : forall b, t_home t b -> disk_block (disk (l_bio s)) b = t_base t b;
  lr_pid : b_pid (l_bio s) = t_pid t;
  lr_end : l_start (log s) + l_size (log s) < 2 ^ 31;
  lr_disk : disk (l_bio s) = dk_blocks (t_disk t);
  lr_start : l_start (log s) = dk_log (t_disk t);
  lr_hist : dhist (l_bio s) = dk_hist (t_disk t);
  lr_dlog : disk_log (l_start (log s)) (l_size (log s)) (disk (l_bio s)) [] }.

Definition log_tx (s : lstate) (t : tx) : Prop := exists l R B, log_rep s t l R B.

Lemma log_open_inj s t l R B i j b : log_rep s t l R B -> t_open t !! i = Some b -> t_open t !! j = Some b -> i = j.
Proof.
  intros H Hi Hj. apply (owns_inj (l_bio s) l i j b (rp_inv _ _ _ (lr_rep _ _ _ _ _ H)));
    by apply (lr_open _ _ _ _ _ H).
Qed.

Lemma log_len s t l R B : log_rep s t l R B -> length B = size (t_log t).
Proof.
  intros H. assert (t_log t = list_to_set B) as ->.
  { apply set_eq. intros b. rewrite elem_of_list_to_set. apply (lr_log _ _ _ _ _ H). }
  by rewrite size_list_to_set by apply (tr_nodup _ _ (lr_trans _ _ _ _ _ H)).
Qed.

Lemma log_room s t l R B : log_rep s t l R B -> room t -> (size R < head)%nat.
Proof.
  intros H Hr. unfold room in Hr. assert (Hs : dom R ⊆ opened t ∪ t_log t).
  { intros b Hb. apply elem_of_dom in Hb as [e He]. rewrite (lr_uses _ _ _ _ _ H) in He. unfold use_of in He.
    repeat case_decide; set_solver. }
  apply subseteq_size in Hs. rewrite size_dom in Hs. pose proof (size_union_alt (opened t) (t_log t)) as Hu.
  pose proof (size_opened t). pose proof (subseteq_size (t_log t ∖ opened t) (t_log t) ltac:(set_solver)).
  change head with 30%nat. lia.
Qed.

Lemma opened_open i b t : t_open t !! i = None -> opened (open_buf i b t) = {[b]} ∪ opened t.
Proof.
  intros Hi. apply set_eq. intros x. rewrite elem_of_union, elem_of_singleton, !elem_opened. cbn. split.
  - intros [j Hj]. apply lookup_insert_Some in Hj as [[-> ->]|[_ Hj]]; [by left|right; by exists j].
  - intros [->|[j Hj]]; [exists i; by rewrite lookup_insert_eq|]. exists j. rewrite lookup_insert_ne; [done|]. congruence.
Qed.

(** One thread's calls into the buffer cache, seen from the log. *)
Lemma log_bread s t b :
  log_tx s t -> t_home t b -> (forall i, t_open t !! i <> Some b) -> room t ->
  exists i s', l_bread ROOTDEV b s = Ret i s' /\ t_open t !! i = None /\ log_tx s' (open_buf i b t).
Proof.
  intros (l & R & B & H) Hb Hno Hr. pose proof (log_room _ _ _ _ _ H Hr) as Hsz.
  assert (Hop : b ∉ opened t) by (rewrite elem_opened; intros [i Hi]; by apply Hno in Hi).
  destruct s as [bs g]. destruct H as [T Hl Hs Ho Hin Hc Hrep Hu Hlog Hopen Hhome Hv Hbase Hpid Hend Hdk Hst Hhi Hdl]. cbn [l_bio log] in *.
  assert (Hrb : refs R b = if decide (b ∈ t_log t) then 1 else 0).
  { unfold refs. rewrite Hu. unfold use_of. rewrite (decide_False (P := b ∈ opened t)) by done. by case_decide. }
  destruct (bread_abs bs l R b) as (i & bs' & E & Hrep' & O & D & V & K & Kh & P & F); [done| |].
  { unfold can_read. rewrite Hu. unfold use_of. rewrite (decide_False (P := b ∈ opened t)) by done. case_decide; [by split|done]. }
  assert (Hi : t_open t !! i = None).
  { destruct (t_open t !! i) as [b'|] eqn:Ei; [|done]. destruct (Hopen i b' Ei) as [O' _]. exfalso.
    destruct (decide (b' = b)) as [->|Hne]; [by apply Hno in Ei|]. destruct (F i b' Hne O') as [O2 _].
    destruct O, O2. congruence. }
  exists i, (LState bs' g). rewrite (l_bread_eq ROOTDEV b eq_refl) by apply (Hhome b Hb).
  split; [by apply log_zoom|]. split; [done|]. exists l, (<[b := (refs R b + 1, true)]> R), B.
  split; cbn [l_bio log open_buf t_view t_base t_log t_home t_pid t_in t_disk]; try done; try congruence.
  - intros b'. unfold use_of. cbn [t_log open_buf]. rewrite (opened_open i b t Hi). destruct (decide (b' = b)) as [->|Hne].
    + rewrite lookup_insert_eq, Hrb. rewrite (decide_True (P := b ∈ {[b]} ∪ opened t)) by (clear; set_solver). by case_decide.
    + rewrite lookup_insert_ne, Hu by done. unfold use_of.
      rewrite (decide_ext (b' ∈ {[b]} ∪ opened t) (b' ∈ opened t)) by (clear -Hne; set_solver). done.
  - intros j b' Hj. cbn in Hj. apply lookup_insert_Some in Hj as [[<- <-]|[Hne Hj]]; [by split|].
    destruct (Hopen j b' Hj) as [Oj Hh]. split; [|done]. apply F; [|done]. intros ->. by apply Hno in Hj.
  - intros b' Hb'. rewrite V. by apply Hv.
  - intros b' Hb'. rewrite K. by apply Hbase.
Qed.

Lemma log_data s t i b : log_tx s t -> t_open t !! i = Some b -> l_data i s = Ret (t_view t b) s.
Proof.
  intros (l & R & B & H) Hi. destruct (lr_open _ _ _ _ _ H i b Hi) as [O Hh]. unfold l_data, gets. f_equal.
  rewrite <- (lr_view _ _ _ _ _ H b Hh). symmetry. apply (owns_view _ l); [|done]. apply (lr_rep _ _ _ _ _ H).
Qed.

(** The other open buffers stay open. *)
Lemma keeps_open s t l R B b bs' :
  log_rep s t l R B -> keeps (l_bio s) bs' b ->
  forall i b', b' <> b -> t_open t !! i = Some b' -> owns bs' i b' /\ t_home t b'.
Proof. intros H K i b' Hne Hi. destruct (lr_open _ _ _ _ _ H i b' Hi) as [O Hh]. split; [by apply K|done]. Qed.

Lemma log_put s t i b d :
  log_tx s t -> t_open t !! i = Some b -> exists s', l_put i d s = Ret tt s' /\ log_tx s' (put_buf b d t).
Proof.
  intros (l & R & B & H) Hi. pose proof H as [T Hl Hs Ho Hin Hc Hrep Hu Hlog Hopen Hhome Hv Hbase Hpid Hend Hdk Hst Hhi Hdl].
  destruct s as [bs g]. cbn [l_bio log] in *. destruct (Hopen i b Hi) as [O Hh].
  destruct (set_data_abs bs l R i b d Hrep O) as (bs' & E & Hrep' & O' & _ & V & K & Kh & P & F).
  exists (LState bs' g). split; [by apply log_zoom|]. exists l, R, B.
  split; cbn [l_bio log put_buf t_view t_base t_log t_home t_pid t_in t_disk]; try done; try congruence.
  - intros j b' Hj. destruct (decide (b' = b)) as [->|Hne]; [|by apply (keeps_open _ _ _ _ _ _ _ H F)].
    by rewrite (log_open_inj _ _ _ _ _ j i b H Hj Hi).
  - intros b' Hb'. rewrite V. unfold upd_view. case_decide; [done|]. by apply Hv.
  - intros b' Hb'. rewrite K. by apply Hbase.
Qed.

Lemma opened_close i b t :
  (forall j, t_open t !! j = Some b -> j = i) -> t_open t !! i = Some b -> opened (close_buf i t) = opened t ∖ {[b]}.
Proof.
  intros Hinj Hi. apply set_eq. intros x. rewrite elem_of_difference, elem_of_singleton, !elem_opened. cbn. split.
  - intros [j Hj]. apply lookup_delete_Some in Hj as [Hne Hj]. split; [by exists j|]. intros ->. apply Hne. symmetry. by apply Hinj.
  - intros [[j Hj] Hne]. exists j. rewrite lookup_delete_ne; [done|]. congruence.
Qed.

Lemma use_open s t l R B i b : log_rep s t l R B -> t_open t !! i = Some b ->
  R !! b = Some (if decide (b ∈ t_log t) then 2 else 1, true).
Proof.
  intros H Hi. rewrite (lr_uses _ _ _ _ _ H). unfold use_of. rewrite decide_True; [done|]. apply elem_opened. by exists i.
Qed.

Lemma log_brelse s t i b :
  log_tx s t -> t_open t !! i = Some b -> b ∈ t_log t \/ t_view t b = t_base t b ->
  exists s', l_brelse i s = Ret tt s' /\ log_tx s' (close_buf i t).
Proof.
  intros (l & R & B & H) Hi Hcl. pose proof H as [T Hl Hs Ho Hin Hc Hrep Hu Hlog Hopen Hhome Hv Hbase Hpid Hend Hdk Hst Hhi Hdl].
  pose proof (use_open _ _ _ _ _ i b H Hi) as HR. destruct s as [bs g]. cbn [l_bio log] in *. destruct (Hopen i b Hi) as [O Hh].
  destruct (brelse_abs bs l R i b _ Hrep O HR) as (bs' & l' & E & Hrep' & V & K & Kh & P & F).
  { intros Hr1. rewrite Hv, Hbase by done. case_decide; [done|]. by destruct Hcl. }
  exists (LState bs' g). split; [by apply log_zoom|]. eexists l', _, B.
  assert (Hoc : opened (close_buf i t) = opened t ∖ {[b]}).
  { apply opened_close; [|done]. intros j Hj. by apply (log_open_inj _ _ _ _ _ j i b H). }
  split; cbn [l_bio log close_buf t_view t_base t_log t_home t_pid t_in t_disk]; try exact Hrep'; try done; try congruence.
  - intros b'. unfold use_of. cbn [t_log close_buf]. rewrite Hoc. destruct (decide (b' = b)) as [->|Hne].
    + rewrite (decide_False (P := b ∈ opened t ∖ {[b]})) by (clear; set_solver).
      destruct (decide (b ∈ t_log t)); [change (2 - 1 =? 0) with false|change (1 - 1 =? 0) with true]; cbv iota;
        [by rewrite lookup_insert_eq|by rewrite lookup_delete_eq].
    + rewrite (decide_ext (b' ∈ opened t ∖ {[b]}) (b' ∈ opened t)) by (clear -Hne; set_solver).
      case_match; [rewrite lookup_delete_ne by done|rewrite lookup_insert_ne by done]; apply Hu.
  - intros j b' Hj. cbn in Hj. apply lookup_delete_Some in Hj as [Hne Hj]. apply (keeps_open _ _ _ _ _ _ _ H F); [|done].
    intros ->. apply Hne. by apply (log_open_inj _ _ _ _ _ i j b H).
  - intros b' Hb'. rewrite V. by apply Hv.
  - intros b' Hb'. rewrite K. by apply Hbase.
Qed.

Lemma log_log_write s t i b :
  log_tx s t -> t_open t !! i = Some b -> room t -> t_in t = true -> exists s', log_write i s = Ret tt s' /\ log_tx s' (log_buf b t).
Proof.
  intros (l & R & B & H) Hi Hr Hit. pose proof H as [T Hl Hs Ho Hin Hc Hrep Hu Hlog Hopen Hhome Hv Hbase Hpid Hend Hdk Hst Hhi Hdl].
  pose proof (use_open _ _ _ _ _ i b H Hi) as HR. pose proof (log_len _ _ _ _ _ H) as HB. unfold room in Hr.
  destruct s as [bs g]. cbn [l_bio log] in *. destruct (Hopen i b Hi) as [O Hh]. destruct (Hhome b Hh) as [Hblk Hnl].
  destruct (log_write_ok g B bs l R i b _ T Hl ltac:(rewrite Hs; done) ltac:(rewrite Ho, Hit; lia) Hrep O HR) as
    (bs' & g' & E & T' & Hrep' & O' & V & [K Kh] & P & F & Ho' & Hc' & Gs & Gz & Gd & Gl); try done.
  { case_decide; lia. }
  { rewrite Hs. unfold LOGSIZE, MAXOPBLOCKS. lia. }
  assert (HiB : b ∈ t_log t <-> b ∈ B) by apply Hlog.
  exists (LState bs' g'). split; [exact E|]. eexists l, _, _. split; cbn [l_bio log log_buf t_view t_base t_log t_home t_pid t_in t_disk];
    try exact T'; try exact Hrep'; try congruence.
  - intros b'. unfold use_of. cbn [t_log log_buf]. change (opened (log_buf b t)) with (opened t).
    assert (Hbo : b ∈ opened t) by (apply elem_opened; by exists i). destruct (decide (b' = b)) as [->|Hne].
    + rewrite (decide_True (P := b ∈ opened t)), (decide_True (P := b ∈ {[b]} ∪ t_log t)) by (done || (clear; set_solver)).
      destruct (decide (b ∈ B)) as [HinB|HinB].
      * rewrite HR. by rewrite decide_True by (by apply HiB).
      * rewrite lookup_insert_eq. by rewrite decide_False by (by rewrite HiB).
    + rewrite !(decide_ext (b' ∈ {[b]} ∪ t_log t) (b' ∈ t_log t)) by (clear -Hne; set_solver).
      case_decide; [|rewrite lookup_insert_ne by done]; apply Hu.
  - intros b'. rewrite elem_of_union, elem_of_singleton, Hlog. destruct (decide (b ∈ B)) as [HinB|HinB].
    + split; [intros [->|?]; done|by right].
    + rewrite elem_of_app, list_elem_of_singleton. tauto.
  - intros j b' Hj. destruct (decide (b' = b)) as [->|Hne]; [|by apply (keeps_open _ _ _ _ _ _ _ H F)].
    by rewrite (log_open_inj _ _ _ _ _ j i b H Hj Hi).
  - unfold in_log. rewrite Gs, Gz. exact Hhome.
  - intros b' Hb'. rewrite V. by apply Hv.
  - intros b' Hb'. rewrite K. by apply Hbase.
Qed.

Lemma log_begin s v hm pid dk :
  log_tx s (tx_fresh false v hm pid dk) -> exists s', begin_op s = Ret tt s' /\ log_tx s' (tx_fresh true v hm pid dk).
Proof.
  intros (l & R & B & [T Hl Hs Ho Hin Hc Hrep Hu Hlog Hopen Hhome Hv Hbase Hpid Hend Hdk Hst Hhi Hdl]). destruct s as [bs g]. cbn [l_bio log tx_fresh t_in] in *.
  rewrite (Hin eq_refl) in *. rewrite begin_op_go; [|apply (bi_held _ _ (rp_inv _ _ _ Hrep))|done|].
  2: { pose proof (tr_n _ _ T) as Hn. cbn in Hn. rewrite Hn, Ho. unfold LOGSIZE, MAXOPBLOCKS. lia. }
  eexists. split; [reflexivity|]. exists l, R, []. rewrite Ho.
  split; cbn [l_bio log tx_fresh t_in t_view t_base t_open t_log t_home t_pid t_disk] in *; try done. destruct T. by split.
Qed.

(** What [end_op] leaves, and what a machine finds that stops while it runs. *)
Lemma log_end_crash s t :
  log_tx s t -> t_open t = ∅ -> t_in t = true ->
  exists s' W, end_op s = Ret tt s' /\ log_tx s' (tx_fresh false (t_view t) (t_home t) (t_pid t) (Durable (writes W (dk_blocks (t_disk t))) (dk_log (t_disk t)) (reverse W ++ dk_hist (t_disk t)))) /\
    forall k pid, exists r g', mount (dk_log (t_disk t)) LOGSIZE (writes (take k W) (dk_blocks (t_disk t))) pid = Ret tt (LState r g') /\
      ((forall b, t_home t b -> disk_block (disk r) b = t_base t b) \/ (forall b, t_home t b -> disk_block (disk r) b = t_view t b)).
Proof.
  intros (l & R & B & H) Hop Hit. destruct s as [bs g]. destruct H as [T Hl Hs Ho Hin Hc Hrep Hu Hlog Hopen Hhome Hv Hbase Hpid Hend Hdk Hst Hhi Hdl]. cbn [l_bio log] in *.
  rewrite Hit in Ho. assert (HR : R = pins B).
  { apply map_eq. intros b. rewrite Hu. unfold use_of, opened. rewrite Hop, map_to_list_empty. cbn.
    destruct (decide (b ∈ t_log t)) as [Hb|Hb]; rewrite Hlog in Hb; [by rewrite pins_in|by rewrite pins_out]. }
  subst R. destruct (end_op_ok g B bs l T Hc Ho Hrep) as (bs' & l' & g' & E & Hr' & Hn & Ho' & Hc' & V & P & [K Kh] & Gs & Gz & Gd & Gl).
  exists (LState bs' g'), (commit_writes g bs B). split; [exact E|].
  assert (Hlg : forall b, in_log g' b <-> in_log g b) by (intros b; unfold in_log; by rewrite Gs, Gz).
  rewrite Hdk in K. split.
  - exists l', ∅, []. split; cbn [l_bio log tx_fresh t_in t_view t_base t_open t_log t_home t_pid t_disk dk_blocks dk_log dk_hist]; try done; try congruence.
    + destruct T. split; rewrite ?Gs, ?Gz, ?Gd; try done.
      * rewrite Hs. done.
      * change (head) with 30%nat. cbn. lia.
      * apply NoDup_nil_2.
      * intros b Hb. by apply elem_of_nil in Hb.
    + set_solver.
    + intros b Hb. rewrite Hlg. by apply Hhome.
    + intros b Hb. rewrite (proj1 (V b (proj2 (Hhome b Hb)))). by apply Hv.
    + intros b Hb. rewrite (proj2 (V b (proj2 (Hhome b Hb)))). by apply Hv.
    + rewrite Gs, Gz, K. rewrite <- Hdk. by apply (commit_log_clear g B bs l).
  - intros k pid. destruct (commit_survives g B bs l pid k T Hend Hrep Hdl) as (r & g2 & Em & Hc2). rewrite Hdk, Hst, Hs in Em. exists r, g2. split; [exact Em|].
    destruct Hc2 as [Hc2|Hc2]; [left|right]; intros b Hb; rewrite Hc2 by apply (Hhome b Hb); [by apply Hbase|by apply Hv].
Qed.

Lemma log_end s t :
  log_tx s t -> t_open t = ∅ -> t_in t = true ->
  exists s' dk, end_op s = Ret tt s' /\ log_tx s' (tx_fresh false (t_view t) (t_home t) (t_pid t) dk).
Proof. intros H Hop Hit. destruct (log_end_crash s t H Hop Hit) as (s' & W & E & H' & _). eauto. Qed.

#[export] Instance log_blocks_ok : BlocksOk lstate.
Proof.
  refine {| tx_rep := log_tx; tx_bread := log_bread; tx_data := log_data; tx_put := log_put;
    tx_brelse := log_brelse; tx_log_write := log_log_write; tx_begin := log_begin; tx_end := log_end |}.
  - intros s t (l & R & B & H). apply (bi_held _ _ (rp_inv _ _ _ (lr_rep _ _ _ _ _ H))).
  - intros s t (l & R & B & H). apply (lr_pid _ _ _ _ _ H).
  - done.
Defined.

(** A machine that starts on a disk whose log is empty. *)
Lemma mount_tx start d pid hm :
  log_on start LOGSIZE d [] -> (forall b, hm b -> blk b /\ ~ (start <= b < start + LOGSIZE)) ->
  exists s dk, mount start LOGSIZE d pid = Ret tt s /\ log_tx s (tx_fresh false (disk_block d) hm pid dk).
Proof.
  intros L Hh. destruct (mounted_idle start LOGSIZE d pid [] L) as (bs & l & bl & E & Hl & P & K & _ & Hr & (L1 & L2 & D) & Hv).
  assert (Hd : forall b, hm b -> disk_block (disk bs) b = disk_block d b).
  { intros b Hb. rewrite Hv by apply (Hh b Hb). eapply home_value_out; [apply L|apply not_elem_of_nil]. }
  change (leaks []) with (∅ : uses) in Hr. exists (LState bs (idle_log start LOGSIZE bl)), (Durable (disk bs) start (dhist bs)). split; [exact E|]. clear E.
  exists l, ∅, []. split; cbn [l_bio log tx_fresh idle_log t_in t_view t_base t_open t_log t_home t_pid t_disk l_start l_size l_outstanding l_committing lh_block]; try done.
  - split; cbn [idle_log l_dev l_start l_size lh_n]; try done; try lia.
    + change head with 30%nat. cbn. lia.
    + apply NoDup_nil_2.
    + intros b Hb. by apply elem_of_nil in Hb.
  - set_solver.
  - intros b Hb. rewrite (rep_clean bs l ∅ b Hr (lookup_empty b)). by apply Hd.
Qed.
End LogBlocks.
