(* ===== verification/Fs.v ===== *)
(** kernel/fs.c: blocks, inodes, directories and path names.

    The code runs over any layer of blocks (class [Blocks]).  An inode is its
    index in [icache.inode]; a pointer that may be null is an option.  Kernel
    buffers whose address the code passes on ([de], [name], [path]) are in
    physical memory. *)

From S2P Require Import Prelude Riscv Mem Sync Kalloc Vm Sleeplock Bio DiskFmt Blocks.

(** [struct inode]; the copy of the disk inode is a field. *)
Record inode := Inode {
  i_dev : Z; i_inum : Z; i_ref : Z; i_lock : sleeplock; i_valid : Z; i_d : dinode }.

Definition no_inode : inode :=
  {| i_dev := 0; i_inum := 0; i_ref := 0; i_lock := initsleeplock_val; i_valid := 0; i_d := zero_dinode |}.
#[global] Instance inode_inhabited : Inhabited inode := populate no_inode.

Section Fields.
Context (x : inode).
Definition set_ref (v : Z) : inode := {| i_dev := i_dev x; i_inum := i_inum x; i_ref := v; i_lock := i_lock x; i_valid := i_valid x; i_d := i_d x |}.
Definition set_ilock (v : sleeplock) : inode := {| i_dev := i_dev x; i_inum := i_inum x; i_ref := i_ref x; i_lock := v; i_valid := i_valid x; i_d := i_d x |}.
Definition set_ivalid (v : Z) : inode := {| i_dev := i_dev x; i_inum := i_inum x; i_ref := i_ref x; i_lock := i_lock x; i_valid := v; i_d := i_d x |}.
Definition set_d (v : dinode) : inode := {| i_dev := i_dev x; i_inum := i_inum x; i_ref := i_ref x; i_lock := i_lock x; i_valid := i_valid x; i_d := v |}.
End Fields.

Section DFields.
Context (x : dinode).
Definition set_type (v : Z) : dinode := {| d_type := v; d_major := d_major x; d_minor := d_minor x; d_nlink := d_nlink x; d_size := d_size x; d_addrs := d_addrs x |}.
Definition set_major (v : Z) : dinode := {| d_type := d_type x; d_major := v; d_minor := d_minor x; d_nlink := d_nlink x; d_size := d_size x; d_addrs := d_addrs x |}.
Definition set_minor (v : Z) : dinode := {| d_type := d_type x; d_major := d_major x; d_minor := v; d_nlink := d_nlink x; d_size := d_size x; d_addrs := d_addrs x |}.
Definition set_nlink (v : Z) : dinode := {| d_type := d_type x; d_major := d_major x; d_minor := d_minor x; d_nlink := v; d_size := d_size x; d_addrs := d_addrs x |}.
Definition set_size (v : Z) : dinode := {| d_type := d_type x; d_major := d_major x; d_minor := d_minor x; d_nlink := d_nlink x; d_size := v; d_addrs := d_addrs x |}.
Definition set_addrs (v : list Z) : dinode := {| d_type := d_type x; d_major := d_major x; d_minor := d_minor x; d_nlink := d_nlink x; d_size := d_size x; d_addrs := v |}.
End DFields.

(** ** The state *)

(** The layer of blocks, [sb], [icache.inode], and what the running process has of
    memory. *)
Record fss (S : Type) := FSS {
  f_blk : S; f_sb : superblock; f_inodes : list inode; f_pm : pmem; f_pagetable : Z; f_cwd : nat; f_woken : list chan }.
Arguments FSS {S}.
Arguments f_blk {S}.
Arguments f_sb {S}.
Arguments f_inodes {S}.
Arguments f_pm {S}.
Arguments f_pagetable {S}.
Arguments f_cwd {S}.
Arguments f_woken {S}.

#[global] Instance fss_blk {S} : Lens (fss S) S.
Proof.
  refine {| lget := f_blk; lput := fun x s => {| f_blk := x; f_sb := f_sb s; f_inodes := f_inodes s; f_pm := f_pm s;
    f_pagetable := f_pagetable s; f_cwd := f_cwd s; f_woken := f_woken s |} |}; lens_laws (fss S).
Defined.
#[global] Instance fss_pm {S} : Lens (fss S) pmem.
Proof.
  refine {| lget := f_pm; lput := fun x s => {| f_blk := f_blk s; f_sb := f_sb s; f_inodes := f_inodes s; f_pm := x;
    f_pagetable := f_pagetable s; f_cwd := f_cwd s; f_woken := f_woken s |} |}; lens_laws (fss S).
Defined.
#[global] Instance fss_woken {S} : Lens (fss S) (list chan).
Proof.
  refine {| lget := f_woken; lput := fun x s => {| f_blk := f_blk s; f_sb := f_sb s; f_inodes := f_inodes s; f_pm := f_pm s;
    f_pagetable := f_pagetable s; f_cwd := f_cwd s; f_woken := x |} |}; lens_laws (fss S).
Defined.
#[global] Instance fss_held {S} {B : Blocks S} : Lens (fss S) lockset := lens_comp fss_blk bk_held.

Section Fs.
Context {LY : Layout} {WK : Wakeups} {S : Type} {B : Blocks S}.
Abbreviation F := (M (fss S)).

Definition set_sb (x : superblock) : F unit :=
  modify (fun s => {| f_blk := f_blk s; f_sb := x; f_inodes := f_inodes s; f_pm := f_pm s;
    f_pagetable := f_pagetable s; f_cwd := f_cwd s; f_woken := f_woken s |}).
Definition put_inodes (x : list inode) (s : fss S) : fss S :=
  {| f_blk := f_blk s; f_sb := f_sb s; f_inodes := x; f_pm := f_pm s;
     f_pagetable := f_pagetable s; f_cwd := f_cwd s; f_woken := f_woken s |}.
Definition geti (i : nat) : F inode := gets (fun s => f_inodes s !!! i).
Definition updi (i : nat) (f : inode -> inode) : F unit := modify (fun s => put_inodes (alter f i (f_inodes s)) s).
Definition updd (i : nat) (f : dinode -> dinode) : F unit := updi i (fun x => set_d x (f (i_d x))).

(** Calls into the layers below. *)
Definition f_bread (dev b : Z) : F nat := zoom (S := S) (bk_bread dev b).
Definition f_data (bp : nat) : F block := zoom (S := S) (bk_data bp).
Definition f_put (bp : nat) (d : block) : F unit := zoom (S := S) (bk_put bp d).
Definition f_brelse (bp : nat) : F unit := zoom (S := S) (bk_brelse bp).
Definition f_log_write (bp : nat) : F unit := zoom (S := S) (bk_log_write bp).
Definition f_mem : F memory := gets (fun s => mem (f_pm s)).
Definition f_set_mem (m : memory) : F unit := zoom (S := pmem) (modify (set_mem m)).
Definition f_copyout (user_dst : bool) (dst : Z) (src : list Z) : F Z :=
  let! pt := gets f_pagetable in zoom (S := pmem) (copyout_either user_dst pt dst src).
Definition f_copyin (user_src : bool) (src len : Z) : F (Z * list Z) :=
  let! pt := gets f_pagetable in zoom (S := pmem) (copyin_either user_src pt src len).

(** The sleep lock of inode [i]. *)
Definition inode_lock (i : nat) (s : fss S) : sleeplock := i_lock (f_inodes s !!! i).
Definition put_inode_lock (i : nat) (x : sleeplock) (s : fss S) : fss S :=
  put_inodes (alter (fun y => set_ilock y x) i (f_inodes s)) s.
Definition f_pid (s : fss S) : Z := bk_pid (f_blk s).
Definition i_acquiresleep (i : nat) : F unit := acquiresleep (inode_lock i) (put_inode_lock i) (LInode i) (ChanInodeLock i) f_pid.
Definition i_releasesleep (i : nat) : F unit := releasesleep (put_inode_lock i) (LInode i) (ChanInodeLock i).
Definition i_holdingsleep (i : nat) : F bool := holdingsleep (inode_lock i) (LInode i) f_pid.

(** ** Blocks *)

Definition readsb (dev : Z) : F unit :=
  let! bp := f_bread dev 1 in
  let! d := f_data bp in
  set_sb (get_superblock d) ;;
  f_brelse bp.

Definition fsinit (dev : Z) : F unit :=
  readsb dev ;;
  let! sb := gets f_sb in
  if negb (sb_magic sb =? FSMAGIC) then panic "invalid file system"
  else zoom (S := S) (bk_initlog dev (sb_logstart sb) (sb_nlog sb)).

Definition bzero (dev bno : Z) : F unit :=
  let! bp := f_bread dev bno in
  f_put bp (replicate (Z.to_nat BSIZE) 0) ;;
  f_log_write bp ;;
  f_brelse bp.

(** [bp->data[bi/8] & m], [bp->data[bi/8] |= m] and [bp->data[bi/8] &= ~m], where
    [m = 1 << (bi % 8)]. *)
Definition bit_set (d : block) (bi : Z) : bool := negb (Z.land (d !!! Z.to_nat (bi / 8)) (Z.shiftl 1 (bi mod 8)) =? 0).
Definition set_bit (d : block) (bi : Z) : block :=
  <[Z.to_nat (bi / 8) := u8 (Z.lor (d !!! Z.to_nat (bi / 8)) (Z.shiftl 1 (bi mod 8)))]> d.
Definition clear_bit (d : block) (bi : Z) : block :=
  <[Z.to_nat (bi / 8) := u8 (Z.land (d !!! Z.to_nat (bi / 8)) (Z.lnot (Z.shiftl 1 (bi mod 8))))]> d.

(** The inner loop of [balloc]: the first clear bit of the block. *)
Fixpoint free_bit (fuel : nat) (d : block) (b bi size : Z) : option Z :=
  match fuel with
  | O => None
  | Datatypes.S fuel' =>
      if (bi <? BPB) && (b + bi <? size) then
        if bit_set d bi then free_bit fuel' d b (bi + 1) size else Some bi
      else None
  end.
Fixpoint balloc_loop (fuel : nat) (dev b : Z) : F Z :=
  match fuel with
  | O => nofuel
  | Datatypes.S fuel' =>
      let! sb := gets f_sb in
      if b <? sb_size sb then
        let! bp := f_bread dev (BBLOCK b sb) in
        let! d := f_data bp in
        match free_bit (Z.to_nat BPB) d b 0 (sb_size sb) with
        | Some bi =>
            f_put bp (set_bit d bi) ;;
            f_log_write bp ;;
            f_brelse bp ;;
            bzero dev (b + bi) ;;
            mret_ (b + bi)
        | None => f_brelse bp ;; balloc_loop fuel' dev (b + BPB)
        end
      else panic "balloc: out of blocks"
  end.
Definition balloc (dev : Z) : F Z :=
  let! sb := gets f_sb in balloc_loop (Datatypes.S (Datatypes.S (Z.to_nat (sb_size sb / BPB)))) dev 0.

Definition bfree (dev b : Z) : F unit :=
  let! sb := gets f_sb in
  let! bp := f_bread dev (BBLOCK b sb) in
  let! d := f_data bp in
  let bi := b mod BPB in
  if negb (bit_set d bi) then panic "freeing free block"
  else
    f_put bp (clear_bit d bi) ;;
    f_log_write bp ;;
    f_brelse bp.

(** ** Inodes *)

Definition ninode : nat := Z.to_nat NINODE.

Fixpoint iinit_loop (n i : nat) : F unit :=
  match n with
  | O => mret_ tt
  | Datatypes.S n' => initsleeplock (put_inode_lock i) (LInode i) ;; iinit_loop n' (Datatypes.S i)
  end.
Definition iinit : F unit := initlock LIcache ;; iinit_loop ninode 0.

(** The loop of [iget]: the entry that holds the inode, or the first empty one. *)
Fixpoint iget_scan (l : list inode) (i : nat) (empty : option nat) (dev inum : Z) : option nat * option nat :=
  match l with
  | [] => (None, empty)
  | x :: l' =>
      if (0 <? i_ref x) && (i_dev x =? dev) && (i_inum x =? inum) then (Some i, empty)
      else
        let empty := match empty with None => if i_ref x =? 0 then Some i else None | Some _ => empty end in
        iget_scan l' (Datatypes.S i) empty dev inum
  end.
Definition iget (dev inum : Z) : F nat :=
  acquire LIcache ;;
  let! r := gets (fun s => iget_scan (f_inodes s) 0 None dev inum) in
  match r with
  | (Some ip, _) =>
      updi ip (fun x => set_ref x (i_ref x + 1)) ;;
      release LIcache ;;
      mret_ ip
  | (None, None) => panic "iget: no inodes"
  | (None, Some ip) =>
      updi ip (fun x => {| i_dev := dev; i_inum := inum; i_ref := 1; i_lock := i_lock x; i_valid := 0; i_d := i_d x |}) ;;
      release LIcache ;;
      mret_ ip
  end.

(** The offset of [dip] in the block: [inum%IPB] entries from its start. *)
Definition dinode_off (inum : Z) : nat := (dinode_size * Z.to_nat (inum mod IPB))%nat.

Fixpoint ialloc_loop (fuel : nat) (dev type inum : Z) : F nat :=
  match fuel with
  | O => nofuel
  | Datatypes.S fuel' =>
      let! sb := gets f_sb in
      if inum <? sb_ninodes sb then
        let! bp := f_bread dev (IBLOCK inum sb) in
        let! d := f_data bp in
        if d_type (get_dinode d (dinode_off inum)) =? 0 then
          f_put bp (put16 (put_dinode d (dinode_off inum) zero_dinode) (dinode_off inum) type) ;;
          f_log_write bp ;;
          f_brelse bp ;;
          iget dev inum
        else f_brelse bp ;; ialloc_loop fuel' dev type (inum + 1)
      else panic "ialloc: no inodes"
  end.
Definition ialloc (dev type : Z) : F nat :=
  let! sb := gets f_sb in ialloc_loop (Datatypes.S (Z.to_nat (sb_ninodes sb))) dev type 1.

Definition iupdate (ip : nat) : F unit :=
  let! x := geti ip in
  let! sb := gets f_sb in
  let! bp := f_bread (i_dev x) (IBLOCK (i_inum x) sb) in
  let! d := f_data bp in
  f_put bp (put_dinode d (dinode_off (i_inum x)) (i_d x)) ;;
  f_log_write bp ;;
  f_brelse bp.

Definition idup (ip : nat) : F nat :=
  acquire LIcache ;;
  updi ip (fun x => set_ref x (i_ref x + 1)) ;;
  release LIcache ;;
  mret_ ip.

Definition ilock (ip : nat) : F unit :=
  let! x := geti ip in
  if i_ref x <? 1 then panic "ilock"
  else
    i_acquiresleep ip ;;
    let! x := geti ip in
    if i_valid x =? 0 then
      let! sb := gets f_sb in
      let! bp := f_bread (i_dev x) (IBLOCK (i_inum x) sb) in
      let! d := f_data bp in
      updi ip (fun x => set_d x (get_dinode d (dinode_off (i_inum x)))) ;;
      f_brelse bp ;;
      updi ip (fun x => set_ivalid x 1) ;;
      let! x := geti ip in
      if d_type (i_d x) =? 0 then panic "ilock: no type" else mret_ tt
    else mret_ tt.

Definition iunlock (ip : nat) : F unit :=
  let! h := i_holdingsleep ip in
  let! x := geti ip in
  if negb h || (i_ref x <? 1) then panic "iunlock" else i_releasesleep ip.

(** ** Contents *)

(** [a[k]], where [a] is [bp->data] taken as an array of [uint]. *)
Definition ind_entry (d : block) (k : Z) : Z := get32 d (4 * Z.to_nat k).

(** Entry [bn] of the indirect block [addr], allocated when there is none. *)
Definition bmap_entry (dev addr bn : Z) : F Z :=
  let! bp := f_bread dev addr in
  let! d := f_data bp in
  let addr := ind_entry d bn in
  if addr =? 0 then
    let! addr := balloc dev in
    let! d := f_data bp in
    f_put bp (put32 d (4 * Z.to_nat bn) addr) ;;
    f_log_write bp ;;
    f_brelse bp ;;
    mret_ addr
  else f_brelse bp ;; mret_ addr.

Definition bmap (ip : nat) (bn : Z) : F Z :=
  let! x := geti ip in
  if bn <? NDIRECT then
    let addr := d_addrs (i_d x) !!! Z.to_nat bn in
    if addr =? 0 then
      let! addr := balloc (i_dev x) in
      updd ip (fun d => set_addrs d (<[Z.to_nat bn := addr]> (d_addrs d))) ;;
      mret_ addr
    else mret_ addr
  else
    let bn := u32 (bn - NDIRECT) in
    if bn <? NINDIRECT then
      let addr := d_addrs (i_d x) !!! Z.to_nat NDIRECT in
      if addr =? 0 then
        let! addr := balloc (i_dev x) in
        updd ip (fun d => set_addrs d (<[Z.to_nat NDIRECT := addr]> (d_addrs d))) ;;
        bmap_entry (i_dev x) addr bn
      else bmap_entry (i_dev x) addr bn
    else panic "bmap: out of range".

(** [for(i = 0; i < NDIRECT; i++)] of [itrunc]. *)
Fixpoint free_direct (n i : nat) (ip : nat) : F unit :=
  match n with
  | O => mret_ tt
  | Datatypes.S n' =>
      let! x := geti ip in
      let addr := d_addrs (i_d x) !!! i in
      (if negb (addr =? 0) then
         bfree (i_dev x) addr ;;
         updd ip (fun d => set_addrs d (<[i := 0]> (d_addrs d)))
       else mret_ tt) ;;
      free_direct n' (Datatypes.S i) ip
  end.
(** [for(j = 0; j < NINDIRECT; j++)] *)
Fixpoint free_indirect (n j : nat) (ip bp : nat) : F unit :=
  match n with
  | O => mret_ tt
  | Datatypes.S n' =>
      let! x := geti ip in
      let! d := f_data bp in
      let addr := ind_entry d (Z.of_nat j) in
      (if negb (addr =? 0) then bfree (i_dev x) addr else mret_ tt) ;;
      free_indirect n' (Datatypes.S j) ip bp
  end.
Definition itrunc (ip : nat) : F unit :=
  free_direct (Z.to_nat NDIRECT) 0 ip ;;
  let! x := geti ip in
  let addr := d_addrs (i_d x) !!! Z.to_nat NDIRECT in
  (if negb (addr =? 0) then
     let! bp := f_bread (i_dev x) addr in
     free_indirect (Z.to_nat NINDIRECT) 0 ip bp ;;
     f_brelse bp ;;
     bfree (i_dev x) addr ;;
     updd ip (fun d => set_addrs d (<[Z.to_nat NDIRECT := 0]> (d_addrs d)))
   else mret_ tt) ;;
  updd ip (fun d => set_size d 0) ;;
  iupdate ip.

Definition iput (ip : nat) : F unit :=
  acquire LIcache ;;
  let! x := geti ip in
  (if (i_ref x =? 1) && negb (i_valid x =? 0) && (d_nlink (i_d x) =? 0) then
     i_acquiresleep ip ;;
     release LIcache ;;
     itrunc ip ;;
     updd ip (fun d => set_type d 0) ;;
     iupdate ip ;;
     updi ip (fun x => set_ivalid x 0) ;;
     i_releasesleep ip ;;
     acquire LIcache
   else mret_ tt) ;;
  updi ip (fun x => set_ref x (i_ref x - 1)) ;;
  release LIcache.

Definition iunlockput (ip : nat) : F unit := iunlock ip ;; iput ip.

(** [struct stat] *)
Record stat := Stat { st_dev : Z; st_ino : Z; st_type : Z; st_nlink : Z; st_size : Z }.
Definition stati (ip : nat) : F stat :=
  let! x := geti ip in
  mret_ {| st_dev := s32 (i_dev x); st_ino := i_inum x; st_type := d_type (i_d x); st_nlink := d_nlink (i_d x); st_size := d_size (i_d x) |}.

(** ** Reading and writing *)

(** How many iterations [n] bytes can take: one per block touched. *)
Definition rw_fuel (n : Z) : nat := (Z.to_nat (n / BSIZE) + 3)%nat.

Fixpoint readi_loop (fuel : nat) (ip : nat) (user_dst : bool) (dst off n tot : Z) : F Z :=
  match fuel with
  | O => nofuel
  | Datatypes.S fuel' =>
      if tot <? n then
        let! addr := bmap ip (off / BSIZE) in
        let! x := geti ip in
        let! bp := f_bread (i_dev x) addr in
        let m := Z.min (u32 (n - tot)) (BSIZE - off mod BSIZE) in
        let! d := f_data bp in
        let! r := f_copyout user_dst dst (take (Z.to_nat m) (drop (Z.to_nat (off mod BSIZE)) d)) in
        if r =? -1 then f_brelse bp ;; mret_ tot
        else f_brelse bp ;; readi_loop fuel' ip user_dst (u64 (dst + m)) (u32 (off + m)) n (u32 (tot + m))
      else mret_ tot
  end.
Definition readi (ip : nat) (user_dst : bool) (dst off n : Z) : F Z :=
  let! x := geti ip in
  let size := d_size (i_d x) in
  if (size <? off) || (u32 (off + n) <? off) then mret_ 0
  else
    let n := if size <? u32 (off + n) then u32 (size - off) else n in
    let! tot := readi_loop (rw_fuel n) ip user_dst dst off n 0 in
    mret_ (s32 tot).

(** The bytes [bs] written over [d] from [o] on. *)
Definition splice (d : block) (o : nat) (bs : list Z) : block := take o d ++ bs ++ drop (o + length bs) d.

(** The loop of [writei]; its result is [off]. *)
Fixpoint writei_loop (fuel : nat) (ip : nat) (user_src : bool) (src off n tot : Z) : F Z :=
  match fuel with
  | O => nofuel
  | Datatypes.S fuel' =>
      if tot <? n then
        let! addr := bmap ip (off / BSIZE) in
        let! x := geti ip in
        let! bp := f_bread (i_dev x) addr in
        let m := Z.min (u32 (n - tot)) (BSIZE - off mod BSIZE) in
        let! '(r, bs) := f_copyin user_src src m in
        let! d := f_data bp in
        f_put bp (splice d (Z.to_nat (off mod BSIZE)) bs) ;;
        if r =? -1 then f_brelse bp ;; mret_ off
        else
          f_log_write bp ;;
          f_brelse bp ;;
          writei_loop fuel' ip user_src (u64 (src + m)) (u32 (off + m)) n (u32 (tot + m))
      else mret_ off
  end.
Definition writei (ip : nat) (user_src : bool) (src off n : Z) : F Z :=
  let! x := geti ip in
  if (d_size (i_d x) <? off) || (u32 (off + n) <? off) then mret_ (-1)
  else if MAXFILE * BSIZE <? u32 (off + n) then mret_ (-1)
  else
    let! off := writei_loop (rw_fuel n) ip user_src src off n 0 in
    (if 0 <? n then
       let! x := geti ip in
       (if d_size (i_d x) <? off then updd ip (fun d => set_size d off) else mret_ tt) ;;
       iupdate ip
     else mret_ tt) ;;
    mret_ (s32 n).

(** ** Directories *)

Definition T_DIR : Z := 1.
Definition T_FILE : Z := 2.
Definition T_DEVICE : Z := 3.

Definition namecmp (m : memory) (s t : Z) : Z := strncmp m s t DIRSIZ.

(** [de] is the address of the local variable [de]: [inum] is its first two bytes
    and [name] the others. *)
Variable de : Z.
Definition de_inum (m : memory) : Z := load_le m de 2.
Definition de_name : Z := de + 2.

(** [dirlookup] returns the inode and what it stores in [*poff]. *)
Fixpoint dirlookup_loop (fuel : nat) (dp : nat) (name off : Z) : F (option (nat * Z)) :=
  match fuel with
  | O => nofuel
  | Datatypes.S fuel' =>
      let! x := geti dp in
      if off <? d_size (i_d x) then
        let! r := readi dp false de off dirent_size in
        if negb (r =? dirent_size) then panic "dirlookup read"
        else
          let! m := f_mem in
          if de_inum m =? 0 then dirlookup_loop fuel' dp name (u32 (off + dirent_size))
          else if namecmp m name de_name =? 0 then
            let! ip := iget (i_dev x) (de_inum m) in mret_ (Some (ip, off))
          else dirlookup_loop fuel' dp name (u32 (off + dirent_size))
      else mret_ None
  end.
Definition dir_fuel (x : inode) : nat := Datatypes.S (Datatypes.S (Z.to_nat (d_size (i_d x) / dirent_size))).
Definition dirlookup (dp : nat) (name : Z) : F (option (nat * Z)) :=
  let! x := geti dp in
  if negb (d_type (i_d x) =? T_DIR) then panic "dirlookup not DIR" else dirlookup_loop (dir_fuel x) dp name 0.

(** The search of [dirlink] for an empty entry. *)
Fixpoint dirlink_scan (fuel : nat) (dp : nat) (off : Z) : F Z :=
  match fuel with
  | O => nofuel
  | Datatypes.S fuel' =>
      let! x := geti dp in
      if off <? d_size (i_d x) then
        let! r := readi dp false de off dirent_size in
        if negb (r =? dirent_size) then panic "dirlink read"
        else
          let! m := f_mem in
          if de_inum m =? 0 then mret_ off else dirlink_scan fuel' dp (off + dirent_size)
      else mret_ off
  end.
Definition dirlink (dp : nat) (name inum : Z) : F Z :=
  let! found := dirlookup dp name in
  match found with
  | Some (ip, _) => iput ip ;; mret_ (-1)
  | None =>
      let! x := geti dp in
      let! off := dirlink_scan (dir_fuel x) dp 0 in
      let! m := f_mem in
      f_set_mem (store_le (strncpy m de_name name DIRSIZ) de 2 (u16 inum)) ;;
      let! r := writei dp false de off dirent_size in
      if negb (r =? dirent_size) then panic "dirlink" else mret_ 0
  end.

(** ** Paths *)

Definition slash : Z := 47.

(** A path is shorter than [MAXPATH]. *)
Definition path_fuel : nat := Z.to_nat MAXPATH.

(** The two loops of [skipelem] that advance [path]: over slashes, and over a name. *)
Fixpoint skip_slashes (fuel : nat) (m : memory) (path : Z) : option Z :=
  match fuel with
  | O => None
  | Datatypes.S fuel' => if load8 m path =? slash then skip_slashes fuel' m (path + 1) else Some path
  end.
Fixpoint skip_name (fuel : nat) (m : memory) (path : Z) : option Z :=
  match fuel with
  | O => None
  | Datatypes.S fuel' =>
      if negb (load8 m path =? slash) && negb (load8 m path =? 0) then skip_name fuel' m (path + 1) else Some path
  end.

(** The result of a search that has an end. *)
Definition found {A} (x : option A) : F A := match x with Some a => mret_ a | None => nofuel end.

(** [skipelem] returns the rest of the path, or null. *)
Definition skipelem (path name : Z) : F (option Z) :=
  let! m := f_mem in
  let! path := found (skip_slashes path_fuel m path) in
  if load8 m path =? 0 then mret_ None
  else
    let s := path in
    let! path := found (skip_name path_fuel m path) in
    let len := path - s in
    f_set_mem (if DIRSIZ <=? len then memmove m name s DIRSIZ else store8 (memmove m name s len) (name + len) 0) ;;
    let! m := f_mem in
    let! path := found (skip_slashes path_fuel m path) in
    mret_ (Some path).

Definition ROOTINO : Z := 1.

Fixpoint namex_loop (fuel : nat) (ip : nat) (path : Z) (nameiparent : bool) (name : Z) : F (option nat) :=
  match fuel with
  | O => nofuel
  | Datatypes.S fuel' =>
      let! next := skipelem path name in
      match next with
      | None => if nameiparent then iput ip ;; mret_ None else mret_ (Some ip)
      | Some path =>
          ilock ip ;;
          let! x := geti ip in
          if negb (d_type (i_d x) =? T_DIR) then iunlockput ip ;; mret_ None
          else
            let! m := f_mem in
            if nameiparent && (load8 m path =? 0) then iunlock ip ;; mret_ (Some ip)
            else
              let! next := dirlookup ip name in
              match next with
              | None => iunlockput ip ;; mret_ None
              | Some (next, _) => iunlockput ip ;; namex_loop fuel' next path nameiparent name
              end
      end
  end.
Definition namex (path : Z) (nameiparent : bool) (name : Z) : F (option nat) :=
  let! m := f_mem in
  let! ip := (if load8 m path =? slash then iget ROOTDEV ROOTINO else let! cwd := gets f_cwd in idup cwd) in
  namex_loop path_fuel ip path nameiparent name.

(** The local [char name[DIRSIZ]] of [namei] is at [buf]. *)
Definition namei (buf path : Z) : F (option nat) := namex path false buf.
Definition nameiparent (path name : Z) : F (option nat) := namex path true name.
End Fs.
