(* ===== verification/FsBlk.v ===== *)
(** Editing blocks in a transaction, and the free map of kernel/fs.c: [balloc] and
    [bfree]; then the invariant of the file system. *)

From S2P Require Import Prelude Riscv Mem Sync Kalloc Vm Sleeplock Bio DiskFmt Blocks Fs.

(** ** The free map as bits *)

Lemma land_bit_eqb a n : 0 <= n -> (Z.land a (Z.shiftl 1 n) =? 0) = negb (Z.testbit a n).
Proof.
  intros Hn. rewrite Z.shiftl_1_l. destruct (Z.testbit a n) eqn:E; cbn.
  - apply Z.eqb_neq. intros H. apply (f_equal (fun z => Z.testbit z n)) in H.
    rewrite Z.land_spec, E, Z.pow2_bits_true, Z.bits_0 in H by lia. done.
  - apply Z.eqb_eq, Z.bits_inj'. intros k Hk. rewrite Z.land_spec, Z.bits_0.
    destruct (decide (k = n)) as [->|]; [by rewrite E|]. rewrite Z.pow2_bits_false by lia. apply andb_false_r.
Qed.

Lemma bit_set_testbit d bi : bit_set d bi = Z.testbit (d !!! Z.to_nat (bi / 8)) (bi mod 8).
Proof. unfold bit_set. rewrite land_bit_eqb, negb_involutive by (apply Z.mod_pos_bound; lia). done. Qed.

(** A disk block as the kernel sees it. *)
Definition wf_block (d : block) : Prop := length d = 1024%nat /\ Forall (fun x => 0 <= x < 256) d.

Lemma testbit_u8 x k : 0 <= k < 8 -> Z.testbit (u8 x) k = Z.testbit x k.
Proof. intros H. unfold u8. rewrite Z.mod_pow2_bits_low by lia. done. Qed.

Lemma wf_insert d k x : wf_block d -> wf_block (<[k := u8 x]> d).
Proof. intros [Hl HF]. split; [by rewrite length_insert|]. apply Forall_insert; [done|]. apply u8_range. Qed.

Lemma wf_set_bit d bi : wf_block d -> wf_block (set_bit d bi).
Proof. apply wf_insert. Qed.
Lemma wf_clear_bit d bi : wf_block d -> wf_block (clear_bit d bi).
Proof. apply wf_insert. Qed.

Lemma wf_zero : wf_block (replicate (Z.to_nat BSIZE) 0).
Proof. split; [apply length_replicate|]. apply Forall_replicate. lia. Qed.

(** Changing byte [bi/8] changes bit [bj] only if it is in that byte. *)
Lemma bit_set_insert d bi bj x :
  length d = 1024%nat -> 0 <= bi < BPB -> 0 <= bj < BPB ->
  bit_set (<[Z.to_nat (bi / 8) := x]> d) bj =
  if decide (bi / 8 = bj / 8) then Z.testbit x (bj mod 8) else bit_set d bj.
Proof.
  intros Hl Hi Hj. unfold BPB in *. rewrite !bit_set_testbit. case_decide as E.
  - rewrite <- E, list_lookup_total_insert_eq; [done|]. Z.to_euclidean_division_equations; lia.
  - rewrite list_lookup_total_insert_ne; [done|]. Z.to_euclidean_division_equations; lia.
Qed.

Lemma same_bit bi bj : bi / 8 = bj / 8 -> bi mod 8 = bj mod 8 -> bi = bj.
Proof. intros. Z.to_euclidean_division_equations. lia. Qed.

Lemma bit_set_set_bit d bi bj :
  length d = 1024%nat -> 0 <= bi < BPB -> 0 <= bj < BPB -> bit_set (set_bit d bi) bj = bool_decide (bi = bj) || bit_set d bj.
Proof.
  intros Hl Hi Hj. unfold set_bit. rewrite bit_set_insert by done. pose proof (Z.mod_pos_bound bj 8 ltac:(lia)).
  pose proof (Z.mod_pos_bound bi 8 ltac:(lia)).
  case_decide as E; [|by rewrite bool_decide_false by congruence].
  rewrite testbit_u8, Z.lor_spec, Z.shiftl_1_l, E, <- bit_set_testbit by done.
  destruct (decide (bi = bj)) as [->|Hne].
  - rewrite bool_decide_true, Z.pow2_bits_true, orb_true_r by (done || lia). done.
  - rewrite bool_decide_false by done. rewrite Z.pow2_bits_false; [apply orb_false_r|]. intros Hm. by apply Hne, same_bit.
Qed.

Lemma bit_set_clear_bit d bi bj :
  length d = 1024%nat -> 0 <= bi < BPB -> 0 <= bj < BPB -> bit_set (clear_bit d bi) bj = negb (bool_decide (bi = bj)) && bit_set d bj.
Proof.
  intros Hl Hi Hj. unfold clear_bit. rewrite bit_set_insert by done. pose proof (Z.mod_pos_bound bj 8 ltac:(lia)).
  pose proof (Z.mod_pos_bound bi 8 ltac:(lia)).
  case_decide as E; [|by rewrite bool_decide_false by congruence].
  rewrite testbit_u8, Z.land_spec, Z.shiftl_1_l, Z.lnot_spec, E, <- bit_set_testbit by (done || lia).
  destruct (decide (bi = bj)) as [->|Hne].
  - rewrite bool_decide_true, Z.pow2_bits_true by (done || lia). by rewrite andb_false_r.
  - rewrite bool_decide_false by done. rewrite Z.pow2_bits_false; [apply andb_true_r|]. intros Hm. by apply Hne, same_bit.
Qed.

(** Where block [b] is marked. *)
Definition used (sb : superblock) (v : Z -> block) (b : Z) : bool := bit_set (v (BBLOCK b sb)) (b mod BPB).

(** The first data block. *)
Definition datastart (sb : superblock) : Z := sb_bmapstart sb + sb_size sb / BPB + 1.

(** The layout that mkfs/mkfs.c writes: inodes, the free map, data. *)
Record geom (sb : superblock) (hm : Z -> Prop) : Prop := {
  g_ninodes : 0 < sb_ninodes sb < 2 ^ 16;
  g_inodes : 0 < sb_inodestart sb;
  g_bmap : sb_inodestart sb + (sb_ninodes sb - 1) / IPB < sb_bmapstart sb;
  g_data : datastart sb < sb_size sb;
  g_size : sb_size sb < 2 ^ 31;
  g_home : forall b, sb_inodestart sb <= b < sb_size sb -> hm b }.

Lemma geom_BBLOCK sb hm b :
  geom sb hm -> 0 <= b < sb_size sb -> BBLOCK b sb = sb_bmapstart sb + b / BPB /\ sb_bmapstart sb <= BBLOCK b sb < datastart sb.
Proof.
  intros [] Hb. unfold BBLOCK, datastart in *. change BPB with 8192 in *. change IPB with 16 in *.
  assert (E : u32 (b / 8192 + sb_bmapstart sb) = sb_bmapstart sb + b / 8192).
  { rewrite u32_small; [lia|]. Z.to_euclidean_division_equations; lia. }
  rewrite E. Z.to_euclidean_division_equations; lia.
Qed.

Lemma geom_order sb hm : geom sb hm -> 0 < sb_inodestart sb < sb_bmapstart sb /\ sb_bmapstart sb < datastart sb.
Proof. intros []. unfold datastart in *. change BPB with 8192 in *. change IPB with 16 in *. Z.to_euclidean_division_equations. lia. Qed.

Lemma geom_IBLOCK sb hm i :
  geom sb hm -> 0 <= i < sb_ninodes sb -> IBLOCK i sb = sb_inodestart sb + i / IPB /\ sb_inodestart sb <= IBLOCK i sb < sb_bmapstart sb.
Proof.
  intros [] Hi. unfold IBLOCK, datastart in *. change BPB with 8192 in *. change IPB with 16 in *.
  assert (E : u32 (i / 16 + sb_inodestart sb) = sb_inodestart sb + i / 16).
  { rewrite u32_small; [lia|]. Z.to_euclidean_division_equations; lia. }
  rewrite E. Z.to_euclidean_division_equations; lia.
Qed.

(** ** Editing a block *)

(** Blocks outside the transaction are as they were at the last commit. *)
Definition clean (t : tx) : Prop := forall b, t_home t b -> b ∉ t_log t -> t_view t b = t_base t b.

(** [n] more buffers or blocks of the transaction. *)
Definition spare (n : nat) (t : tx) : Prop := (size (t_open t) + size (t_log t) + n <= 29)%nat.

Definition closed (b : Z) (t : tx) : Prop := forall i, t_open t !! i <> Some b.

Definition edit (b : Z) (d : block) (t : tx) : tx :=
  {| t_view := upd_view b d (t_view t); t_base := t_base t; t_open := t_open t; t_log := {[b]} ∪ t_log t;
     t_home := t_home t; t_pid := t_pid t; t_in := t_in t; t_disk := t_disk t |}.

Lemma upd_view_eq b d v : upd_view b d v b = d.
Proof. unfold upd_view. by rewrite decide_True. Qed.
Lemma upd_view_ne b d v b' : b' <> b -> upd_view b d v b' = v b'.
Proof. intros. unfold upd_view. by rewrite decide_False. Qed.

Lemma clean_edit b d t : clean t -> clean (edit b d t).
Proof.
  intros H b' Hb Hn. cbn in *. apply not_elem_of_union in Hn as [Hne Hn].
  rewrite upd_view_ne by (intros ->; apply Hne; by apply elem_of_singleton). by apply H.
Qed.

Lemma spare_edit n b d t : spare (S n) t -> spare n (edit b d t).
Proof. unfold spare. cbn. pose proof (size_add b (t_log t)). lia. Qed.

Lemma spare_le n m t : (n <= m)%nat -> spare m t -> spare n t.
Proof. unfold spare. lia. Qed.

Lemma close_open i b t : t_open t !! i = None -> close_buf i (open_buf i b t) = t.
Proof. intros Hi. destruct t. unfold close_buf, open_buf. cbn in *. by rewrite delete_insert_id. Qed.

(** A transaction that has written the blocks [W] since [t]. *)
Record steps (t t' : tx) (W : gset Z) : Prop := {
  st_base : t_base t' = t_base t;
  st_open : t_open t' = t_open t;
  st_home : t_home t' = t_home t;
  st_pid : t_pid t' = t_pid t;
  st_in : t_in t' = t_in t;
  st_disk : t_disk t' = t_disk t;
  st_log : t_log t' = W ∪ t_log t;
  st_view : forall b, b ∉ W -> t_view t' b = t_view t b;
  st_clean : clean t' }.

Lemma steps_refl t : clean t -> steps t t ∅.
Proof. intros H. split; try done. by rewrite union_empty_l_L. Qed.

Lemma steps_trans t t1 t2 W1 W2 : steps t t1 W1 -> steps t1 t2 W2 -> steps t t2 (W2 ∪ W1).
Proof.
  intros [] []. split; try congruence; [|intros b Hb|done].
  - rewrite st_log1, st_log0. by rewrite union_assoc_L.
  - apply not_elem_of_union in Hb as [H1 H2]. by rewrite st_view1, st_view0.
Qed.

Lemma steps_edit b d t : clean t -> steps t (edit b d t) {[b]}.
Proof. intros H. split; try done; [intros b' Hb; cbn; apply upd_view_ne; set_solver|by apply clean_edit]. Qed.

Section FsBlk.
Context {LY : Layout} {WK : Wakeups} {S : Type} {B : Blocks S} {OK : BlocksOk S}.
Implicit Types (x : S) (s : fss S) (t : tx).
Abbreviation F := (M (fss S)).

(** The state [s] with the blocks [x]. *)
Definition on (x : S) (s : fss S) : fss S := lput (Lens := fss_blk) x s.

Lemma zoom_on {A} (m : M S A) x s a x' : m x = Ret a x' -> zoom m (on x s) = Ret a (on x' s).
Proof. intros E. unfold zoom. change (lget (on x s)) with x. by rewrite E. Qed.

(** A buffer of block [b], and what can be done with it. *)
Lemma buffer_ok x t b :
  tx_rep x t -> clean t -> t_home t b -> closed b t -> spare 1 t ->
  exists i x1, (forall s, f_bread ROOTDEV b (on x s) = Ret i (on x1 s)) /\ t_open t !! i = None /\ tx_rep x1 (open_buf i b t) /\
    (forall s, f_data i (on x1 s) = Ret (t_view t b) (on x1 s)) /\
    (exists x2, (forall s, f_brelse i (on x1 s) = Ret tt (on x2 s)) /\ tx_rep x2 t).
Proof.
  intros H Hc Hb Hn Hr. destruct (tx_bread x t b H Hb Hn) as (i & x1 & E & Hi & H1); [unfold room, spare in *; lia|].
  exists i, x1. assert (Ho : t_open (open_buf i b t) !! i = Some b) by (cbn; by rewrite lookup_insert_eq).
  split; [intros s; by apply zoom_on|]. split; [done|]. split; [done|]. split.
  { intros s. apply zoom_on. by rewrite (tx_data x1 _ i b H1 Ho). }
  destruct (tx_brelse x1 _ i b H1 Ho) as (x2 & E2 & H2).
  { cbn. destruct (decide (b ∈ t_log t)); [by left|right; by apply Hc]. }
  exists x2. split; [intros s; by apply zoom_on|]. by rewrite close_open in H2.
Qed.

(** [bp->data = d; log_write(bp); brelse(bp)] *)
Lemma store_buf_ok x t i b d :
  tx_rep x (open_buf i b t) -> t_open t !! i = None -> spare 2 t -> t_in t = true ->
  exists x', tx_rep x' (edit b d t) /\ (forall s, (f_put i d ;; f_log_write i ;; f_brelse i) (on x s) = Ret tt (on x' s)) /\
    forall s A (k : F A), (f_put i d ;; f_log_write i ;; f_brelse i ;; k) (on x s) = k (on x' s).
Proof.
  intros H Hi Hr Hit. unfold spare in Hr. assert (Ho : t_open (open_buf i b t) !! i = Some b) by (cbn; by rewrite lookup_insert_eq).
  destruct (tx_put x _ i b d H Ho) as (x1 & E1 & H1).
  destruct (tx_log_write x1 _ i b H1 Ho) as (x2 & E2 & H2).
  { unfold room. cbn. rewrite map_size_insert_None by done. lia. }
  { done. }
  destruct (tx_brelse x2 _ i b H2 Ho) as (x3 & E3 & H3); [left; cbn; set_solver|].
  exists x3. split.
  - replace (edit b d t) with (close_buf i (log_buf b (put_buf b d (open_buf i b t)))); [done|].
    unfold close_buf, log_buf, put_buf, open_buf, edit. cbn. by rewrite delete_insert_id.
  - split; intros s; [|intros A k]; rewrite (bind_ret _ _ _ _ _ (zoom_on _ _ s _ _ E1)), (bind_ret _ _ _ _ _ (zoom_on _ _ s _ _ E2)).
    + by apply zoom_on.
    + by rewrite (bind_ret _ _ _ _ _ (zoom_on _ _ s _ _ E3)).
Qed.

Lemma bzero_ok x t b s :
  tx_rep x t -> clean t -> t_home t b -> closed b t -> spare 2 t -> t_in t = true ->
  exists x', bzero ROOTDEV b (on x s) = Ret tt (on x' s) /\ tx_rep x' (edit b (replicate (Z.to_nat BSIZE) 0) t).
Proof.
  intros H Hc Hb Hn Hr Hit. unfold bzero.
  destruct (buffer_ok x t b H Hc Hb Hn (spare_le 1 2 t ltac:(lia) Hr)) as (i & x1 & E & Hi & H1 & _).
  rewrite (bind_ret _ _ _ _ _ (E _)). destruct (store_buf_ok x1 t i b (replicate (Z.to_nat BSIZE) 0) H1 Hi Hr Hit) as (x2 & H2 & E2 & _).
  by exists x2.
Qed.

(** ** Allocating a block *)

Lemma free_bit_spec fuel d b bi size :
  (Z.to_nat (BPB - bi) <= fuel)%nat -> 0 <= bi ->
  match free_bit fuel d b bi size with
  | Some bj => bi <= bj < BPB /\ b + bj < size /\ bit_set d bj = false /\ forall k, bi <= k < bj -> bit_set d k = true
  | None => forall k, bi <= k < BPB -> b + k < size -> bit_set d k = true
  end.
Proof.
  revert bi. induction fuel as [|fuel IH]; intros bi Hf Hbi; cbn [free_bit]; [intros k Hk; lia|].
  destruct (Z.ltb_spec bi BPB) as [H1|H1]; cbn [andb]; [|intros k Hk; lia].
  destruct (Z.ltb_spec (b + bi) size) as [H2|H2]; [|intros k Hk; lia].
  destruct (bit_set d bi) eqn:Eb; [|split_and!; try done; lia].
  specialize (IH (bi + 1) ltac:(lia) ltac:(lia)). destruct (free_bit fuel d b (bi + 1) size) as [bj|].
  - destruct IH as (? & ? & ? & IH). split_and!; try done; try lia. intros k Hk. destruct (decide (k = bi)) as [->|]; [done|]. apply IH. lia.
  - intros k Hk. destruct (decide (k = bi)) as [->|]; [done|]. apply IH. lia.
Qed.

(** The open buffers are of data blocks in use. *)
Definition open_used (sb : superblock) (t : tx) : Prop :=
  forall i c, t_open t !! i = Some c -> datastart sb <= c < sb_size sb /\ used sb (t_view t) c = true.

Lemma closed_low sb t b : open_used sb t -> b < datastart sb -> closed b t.
Proof. intros H Hb i Hi. destruct (H i b Hi). lia. Qed.

Lemma closed_free sb t b : open_used sb t -> used sb (t_view t) b = false -> closed b t.
Proof. intros H Hb i Hi. destruct (H i b Hi). congruence. Qed.

(** The bit of [c], seen from the start [b] of its part of the free map. *)
Lemma BBLOCK_shift sb hm b c :
  geom sb hm -> b mod BPB = 0 -> 0 <= b -> b <= c < b + BPB -> c < sb_size sb ->
  BBLOCK c sb = BBLOCK b sb /\ c mod BPB = c - b.
Proof.
  intros G Hm Hb0 Hb Hc. destruct (geom_BBLOCK sb hm c G) as [-> _]; [lia|].
  destruct (geom_BBLOCK sb hm b G) as [-> _]; [lia|]. change BPB with 8192 in *. Z.to_euclidean_division_equations. lia.
Qed.

Definition zeros : block := replicate (Z.to_nat BSIZE) 0.

(** The transaction after block [b] has been marked and cleared. *)
Definition alloc_tx (sb : superblock) (b : Z) (t : tx) : tx :=
  edit b zeros (edit (BBLOCK b sb) (set_bit (t_view t (BBLOCK b sb)) (b mod BPB)) t).

Lemma balloc_loop_ok fuel x t s b :
  let sb := f_sb s in
  geom sb (t_home t) -> tx_rep x t -> clean t -> open_used sb t -> spare 3 t -> t_in t = true ->
  b mod BPB = 0 -> 0 <= b -> (Z.to_nat ((sb_size sb - b) / BPB) + 2 <= fuel)%nat ->
  (forall c, 0 <= c < datastart sb -> used sb (t_view t) c = true) ->
  (forall c, 0 <= c < b -> c < sb_size sb -> used sb (t_view t) c = true) ->
  (exists c, 0 <= c < sb_size sb /\ used sb (t_view t) c = false) ->
  exists c x', balloc_loop fuel ROOTDEV b (on x s) = Ret c (on x' s) /\ tx_rep x' (alloc_tx sb c t) /\
    0 <= c < sb_size sb /\ used sb (t_view t) c = false.
Proof.
  intros sb G. revert x b. induction fuel as [|fuel IH]; intros x b H Hc Ho Hr Hit Hm Hb0 Hf Hmeta Hlow Hex; [lia|].
  cbn [balloc_loop]. mstep. change (f_sb (on x s)) with sb.
  destruct Hex as (c0 & Hc0 & Hfree). assert (b <= c0) by (destruct (decide (b <= c0)); [done|]; rewrite Hlow in Hfree by lia; done).
  rewrite (proj2 (Z.ltb_lt b (sb_size sb))) by lia. destruct (geom_BBLOCK sb _ b G) as [_ Hbb]; [lia|].
  destruct (buffer_ok x t (BBLOCK b sb) H Hc) as (i & x1 & E & Hi & H1 & Ed & x2 & Er & H2);
    [apply (g_home _ _ G); pose proof (geom_order sb _ G); pose proof (g_data _ _ G); lia|
     apply (closed_low sb); [done|lia]|apply (spare_le 1 3); [lia|done]|].
  rewrite (bind_ret _ _ _ _ _ (E _)), (bind_ret _ _ _ _ _ (Ed _)).
  pose proof (free_bit_spec (Z.to_nat BPB) (t_view t (BBLOCK b sb)) b 0 (sb_size sb) ltac:(lia) ltac:(lia)) as Hs.
  assert (Hsame : forall c, b <= c < b + BPB -> c < sb_size sb -> used sb (t_view t) c = bit_set (t_view t (BBLOCK b sb)) (c - b)).
  { intros c Hcb Hcs. unfold used. by destruct (BBLOCK_shift sb _ b c G Hm Hb0 Hcb Hcs) as [-> ->]. }
  destruct (free_bit (Z.to_nat BPB) (t_view t (BBLOCK b sb)) b 0 (sb_size sb)) as [bi|].
  - destruct Hs as (Hbi & Hsz & Hbit & Hlt). destruct (BBLOCK_shift sb _ b (b + bi) G Hm Hb0 ltac:(lia) Hsz) as [Eb Em].
    assert (Hu : used sb (t_view t) (b + bi) = false) by (rewrite Hsame by lia; by replace (b + bi - b) with bi by lia).
    destruct (store_buf_ok x1 t i (BBLOCK b sb) (set_bit (t_view t (BBLOCK b sb)) bi) H1 Hi) as (x3 & H3 & _ & E3); [apply (spare_le 2 3); [lia|done]|done|].
    rewrite E3. destruct (bzero_ok x3 _ (b + bi) s H3) as (x4 & E4 & H4).
    + by apply clean_edit.
    + apply (g_home _ _ G). destruct (decide (b + bi < datastart sb)); [rewrite Hmeta in Hu by lia; done|].
      pose proof (geom_order sb _ G). cbn. lia.
    + apply (closed_free sb t); done.
    + by apply spare_edit.
    + done.
    + rewrite (bind_ret _ _ _ _ _ E4). exists (b + bi), x4. split; [done|]. split; [|split; [lia|done]].
      unfold alloc_tx. rewrite Eb, Em. by replace (b + bi - b) with bi by lia.
  - assert (b + BPB <= c0).
    { destruct (decide (b + BPB <= c0)); [done|]. rewrite Hsame, Hs in Hfree by lia. done. }
    rewrite (bind_ret _ _ _ _ _ (Er _)). apply IH; try done.
    + change BPB with 8192 in *. Z.to_euclidean_division_equations. lia.
    + change BPB with 8192. lia.
    + change BPB with 8192 in *. Z.to_euclidean_division_equations. lia.
    + intros c Hcb. destruct (decide (c < b)); [apply Hlow; lia|]. intros Hcs. rewrite Hsame by lia. apply Hs; lia.
    + by exists c0.
Qed.

(** [balloc]: a block that was free is marked and zeroed. *)
Lemma balloc_ok x t s :
  let sb := f_sb s in
  geom sb (t_home t) -> tx_rep x t -> clean t -> open_used sb t -> spare 3 t -> t_in t = true ->
  (forall c, 0 <= c < datastart sb -> used sb (t_view t) c = true) ->
  (exists c, 0 <= c < sb_size sb /\ used sb (t_view t) c = false) ->
  exists c x', balloc ROOTDEV (on x s) = Ret c (on x' s) /\ tx_rep x' (alloc_tx sb c t) /\
    datastart sb <= c < sb_size sb /\ used sb (t_view t) c = false.
Proof.
  intros sb G H Hc Ho Hr Hit Hmeta Hex. unfold balloc. mstep. change (f_sb (on x s)) with sb.
  destruct (balloc_loop_ok (Datatypes.S (Datatypes.S (Z.to_nat (sb_size sb / BPB)))) x t s 0) as (c & x' & E & H' & Hcs & Hu); try done.
  - rewrite Z.sub_0_r. fold sb. lia.
  - intros c. lia.
  - exists c, x'. split_and!; try done; [|by destruct Hcs].
    destruct (decide (c < datastart sb)); [|lia]. rewrite Hmeta in Hu by lia. done.
Qed.

(** Blocks in use before are in use, with their contents; the new one too. *)
Lemma used_alloc sb c t :
  geom sb (t_home t) -> datastart sb <= c < sb_size sb -> wf_block (t_view t (BBLOCK c sb)) ->
  forall b, 0 <= b < sb_size sb -> used sb (t_view (alloc_tx sb c t)) b = bool_decide (b = c) || used sb (t_view t) b.
Proof.
  intros G Hc [Hl _] b Hb. unfold used, alloc_tx. cbn. destruct (geom_BBLOCK sb _ b G Hb) as [Eb Hbb].
  pose proof (geom_order sb _ G) as Hord. destruct (geom_BBLOCK sb _ c G) as [Ec Hcc]; [lia|]. rewrite upd_view_ne by lia.
  assert (HP : 0 <= b mod BPB < BPB /\ 0 <= c mod BPB < BPB) by (split; apply Z.mod_pos_bound; done). destruct HP.
  destruct (decide (BBLOCK b sb = BBLOCK c sb)) as [E|E].
  - rewrite E, upd_view_eq, bit_set_set_bit by done. f_equal. apply bool_decide_ext. split; [|by intros ->].
    intros Hm. rewrite Eb, Ec in E. change BPB with 8192 in *. Z.to_euclidean_division_equations. lia.
  - rewrite upd_view_ne by done. rewrite bool_decide_false by congruence. done.
Qed.

Lemma steps_alloc sb c t : clean t -> steps t (alloc_tx sb c t) {[c; BBLOCK c sb]}.
Proof.
  intros H. eapply (steps_trans t (edit _ _ t) _ {[BBLOCK c sb]} {[c]}); apply steps_edit; [done|by apply clean_edit].
Qed.

(** ** Freeing a block *)

Definition free_tx (sb : superblock) (b : Z) (t : tx) : tx :=
  edit (BBLOCK b sb) (clear_bit (t_view t (BBLOCK b sb)) (b mod BPB)) t.

Lemma bfree_ok x t s b :
  let sb := f_sb s in
  geom sb (t_home t) -> tx_rep x t -> clean t -> open_used sb t -> spare 2 t -> t_in t = true ->
  0 <= b < sb_size sb -> used sb (t_view t) b = true ->
  exists x', bfree ROOTDEV b (on x s) = Ret tt (on x' s) /\ tx_rep x' (free_tx sb b t).
Proof.
  intros sb G H Hc Ho Hr Hit Hb Hu. unfold bfree. mstep. change (f_sb (on x s)) with sb.
  destruct (geom_BBLOCK sb _ b G Hb) as [_ Hbb]. pose proof (geom_order sb _ G) as Hg1. pose proof (g_data _ _ G) as Hg2.
  destruct (buffer_ok x t (BBLOCK b sb) H Hc) as (i & x1 & E & Hi & H1 & Ed & _);
    [apply (g_home _ _ G); lia|apply (closed_low sb); [done|lia]|apply (spare_le 1 2); [lia|done]|].
  rewrite (bind_ret _ _ _ _ _ (E _)), (bind_ret _ _ _ _ _ (Ed _)). unfold used in Hu. rewrite Hu. cbn [negb].
  destruct (store_buf_ok x1 t i (BBLOCK b sb) (clear_bit (t_view t (BBLOCK b sb)) (b mod BPB)) H1 Hi Hr Hit) as (x2 & H2 & E2 & _).
  by exists x2.
Qed.

Lemma used_free sb c t :
  geom sb (t_home t) -> 0 <= c < sb_size sb -> wf_block (t_view t (BBLOCK c sb)) ->
  forall b, 0 <= b < sb_size sb -> used sb (t_view (free_tx sb c t)) b = negb (bool_decide (b = c)) && used sb (t_view t) b.
Proof.
  intros G Hc [Hl _] b Hb. unfold used, free_tx. cbn. destruct (geom_BBLOCK sb _ b G Hb) as [Eb Hbb].
  destruct (geom_BBLOCK sb _ c G Hc) as [Ec Hcc].
  assert (HP : 0 <= b mod BPB < BPB /\ 0 <= c mod BPB < BPB) by (split; apply Z.mod_pos_bound; done). destruct HP.
  destruct (decide (BBLOCK b sb = BBLOCK c sb)) as [E|E].
  - rewrite E, upd_view_eq, bit_set_clear_bit by done. do 2 f_equal. apply bool_decide_ext. split; [|by intros ->].
    intros Hm. rewrite Eb, Ec in E. change BPB with 8192 in *. Z.to_euclidean_division_equations. lia.
  - rewrite upd_view_ne by done. rewrite bool_decide_false by congruence. done.
Qed.
End FsBlk.

(** * The invariant of the file system of kernel/fs.c

    Which blocks belong to which
    inode, and that the free map says so. *)

(** The block addresses of an inode: entry [k] of the file for [k < MAXFILE], and
    the indirect block for [k = MAXFILE]; 0 where there is none. *)
Definition slot (v : Z -> block) (d : dinode) (k : Z) : Z :=
  if k <? NDIRECT then d_addrs d !!! Z.to_nat k
  else if k =? MAXFILE then d_addrs d !!! Z.to_nat NDIRECT
  else if d_addrs d !!! Z.to_nat NDIRECT =? 0 then 0
  else ind_entry (v (d_addrs d !!! Z.to_nat NDIRECT)) (k - NDIRECT).

Definition indirect (d : dinode) : Z := d_addrs d !!! Z.to_nat NDIRECT.

Definition ino (sb : superblock) (i : Z) : Prop := 0 <= i < sb_ninodes sb.
Definition nth_slot (k : Z) : Prop := 0 <= k <= MAXFILE.

(** [I] has the current inodes; the blocks [X] are marked in use and belong to no
    inode yet, or no longer. *)
Record fs_inv (sb : superblock) (v : Z -> block) (I : Z -> dinode) (X : gset Z) : Prop := {
  fi_wf : forall b, sb_inodestart sb <= b < sb_size sb -> wf_block (v b);
  fi_meta : forall b, 0 <= b < datastart sb -> used sb v b = true;
  fi_len : forall i, ino sb i -> length (d_addrs (I i)) = 13%nat;
  fi_slot : forall i k, ino sb i -> nth_slot k -> slot v (I i) k <> 0 ->
    datastart sb <= slot v (I i) k < sb_size sb /\ used sb v (slot v (I i) k) = true;
  fi_inj : forall i k j l, ino sb i -> nth_slot k -> ino sb j -> nth_slot l ->
    slot v (I i) k = slot v (I j) l -> slot v (I i) k <> 0 -> i = j /\ k = l;
  fi_loose : forall b, b ∈ X -> datastart sb <= b < sb_size sb /\ used sb v b = true /\
    forall i k, ino sb i -> nth_slot k -> slot v (I i) k <> b;
  fi_used : forall b, datastart sb <= b < sb_size sb -> used sb v b = true ->
    b ∈ X \/ exists i k, ino sb i /\ nth_slot k /\ slot v (I i) k = b;
  fi_size : forall i, ino sb i -> 0 <= d_size (I i) <= MAXFILE * BSIZE;
  fi_hole : forall i k, ino sb i -> 0 <= k < MAXFILE -> k * BSIZE < d_size (I i) -> slot v (I i) k <> 0;
  fi_free : forall i k, ino sb i -> nth_slot k -> d_type (I i) = 0 -> slot v (I i) k = 0 }.

Lemma slot_indirect v d : slot v d MAXFILE = indirect d.
Proof. done. Qed.

(** An inode's blocks depend on the disk only through its indirect block. *)
Lemma slot_ext v v' d k : indirect d = 0 \/ v' (indirect d) = v (indirect d) -> slot v' d k = slot v d k.
Proof.
  intros H. unfold slot. fold (indirect d). repeat case_match; try done. destruct H as [H|H]; [lia|by rewrite H].
Qed.

Lemma used_ext sb v v' b : v' (BBLOCK b sb) = v (BBLOCK b sb) -> used sb v' b = used sb v b.
Proof. intros H. unfold used. by rewrite H. Qed.

(** Only the inodes of the disk matter. *)
Lemma inv_ext sb v I I' X : (forall i, ino sb i -> I' i = I i) -> fs_inv sb v I X -> fs_inv sb v I' X.
Proof.
  intros E []. split; try done.
  - intros i Hi. rewrite E by done. by apply fi_len0.
  - intros i k Hi. rewrite E by done. by apply fi_slot0.
  - intros i k j l Hi Hk Hj Hl. rewrite !E by done. by apply fi_inj0.
  - intros b Hb. destruct (fi_loose0 b Hb) as (? & ? & Hl). split_and!; try done; try lia. intros i k Hi. rewrite E by done. by apply Hl.
  - intros b Hb Hu. destruct (fi_used0 b Hb Hu) as [?|(i & k & Hi & Hk & Es)]; [by left|]. right. exists i, k. by rewrite E.
  - intros i Hi. rewrite E by done. by apply fi_size0.
  - intros i k Hi. rewrite E by done. by apply fi_hole0.
  - intros i k Hi. rewrite E by done. by apply fi_free0.
Qed.

Lemma inv_self sb v I X i : fs_inv sb v I X -> fs_inv sb v (<[i := I i]> I) X.
Proof.
  apply inv_ext. intros j _. destruct (decide (j = i)) as [->|]; [by rewrite fn_lookup_insert|by rewrite fn_lookup_insert_ne].
Qed.

(** The transaction may write blocks that are neither in the free map nor
    indirect blocks. *)
Lemma inv_view sb hm v v' I X :
  geom sb hm -> fs_inv sb v I X ->
  (forall b, sb_bmapstart sb <= b < datastart sb -> v' b = v b) ->
  (forall i, ino sb i -> indirect (I i) = 0 \/ v' (indirect (I i)) = v (indirect (I i))) ->
  (forall b, sb_inodestart sb <= b < sb_size sb -> wf_block (v' b)) ->
  fs_inv sb v' I X.
Proof.
  intros G [] Hbm Hind Hwf. pose proof (geom_order sb hm G) as Hord.
  assert (Hu : forall b, 0 <= b < sb_size sb -> used sb v' b = used sb v b).
  { intros b Hb. apply used_ext, Hbm. by apply (geom_BBLOCK sb hm b G Hb). }
  assert (Hs : forall i k, ino sb i -> slot v' (I i) k = slot v (I i) k) by (intros i k Hi; by apply slot_ext, Hind).
  split; try done.
  - intros b Hb. rewrite Hu; [by apply fi_meta0|]. pose proof (g_data _ _ G). lia.
  - intros i k Hi Hk. rewrite Hs by done. intros Hz. destruct (fi_slot0 i k Hi Hk Hz) as [? ?]. by rewrite Hu by lia.
  - intros i k j l Hi Hk Hj Hl. rewrite !Hs by done. by apply fi_inj0.
  - intros b Hb. destruct (fi_loose0 b Hb) as (? & ? & Hl). rewrite Hu by lia. split_and!; try done; try lia.
    intros i k Hi Hk. rewrite Hs by done. by apply Hl.
  - intros b Hb. rewrite Hu by lia. intros Hub. destruct (fi_used0 b Hb Hub) as [?|(i & k & Hi & Hk & E)]; [by left|].
    right. exists i, k. by rewrite Hs.
  - intros i k Hi Hk. rewrite Hs by done. by apply fi_hole0.
  - intros i k Hi Hk. rewrite Hs by done. by apply fi_free0.
Qed.

(** An indirect block is a block of its inode. *)
Lemma inv_indirect sb v I X i :
  fs_inv sb v I X -> ino sb i -> indirect (I i) <> 0 ->
  datastart sb <= indirect (I i) < sb_size sb /\ used sb v (indirect (I i)) = true.
Proof. intros H Hi Hz. apply (fi_slot _ _ _ _ H i MAXFILE Hi); [done|by rewrite slot_indirect]. Qed.

(** Allocating the block [c]. *)
Lemma inv_alloc sb t I X c :
  geom sb (t_home t) -> fs_inv sb (t_view t) I X -> datastart sb <= c < sb_size sb -> used sb (t_view t) c = false ->
  fs_inv sb (t_view (alloc_tx sb c t)) I ({[c]} ∪ X).
Proof.
  intros G H Hc Hfree. pose proof (geom_order sb _ G) as Hord. pose proof H as [].
  destruct (geom_BBLOCK sb _ c G) as [_ Hcb]; [lia|].
  assert (Hwfb : wf_block (t_view t (BBLOCK c sb))) by (apply fi_wf0; lia).
  pose proof (used_alloc sb c t G Hc Hwfb) as Hu.
  assert (Hs : forall i k, ino sb i -> slot (t_view (alloc_tx sb c t)) (I i) k = slot (t_view t) (I i) k).
  { intros i k Hi. apply slot_ext. destruct (decide (indirect (I i) = 0)); [by left|right].
    destruct (inv_indirect sb _ I X i H Hi n) as [Hr Hui]. cbn. rewrite !upd_view_ne; [done|lia|congruence]. }
  assert (Hne : forall i k, ino sb i -> nth_slot k -> slot (t_view t) (I i) k <> c).
  { intros i k Hi Hk E. destruct (fi_slot0 i k Hi Hk) as [_ Hui]; [lia|]. congruence. }
  split; try done.
  - intros b Hb. cbn. unfold upd_view. repeat case_decide; [apply wf_zero|apply wf_set_bit, Hwfb|by apply fi_wf0].
  - intros b Hb. rewrite Hu, fi_meta0, orb_true_r by lia. done.
  - intros i k Hi Hk. rewrite Hs by done. intros Hz. destruct (fi_slot0 i k Hi Hk Hz) as [? E]. by rewrite Hu, E, orb_true_r by lia.
  - intros i k j l Hi Hk Hj Hl. rewrite !Hs by done. by apply fi_inj0.
  - intros b [->%elem_of_singleton|Hb]%elem_of_union.
    + rewrite Hu, bool_decide_true by (done || lia). split_and!; try done; try lia. intros i k Hi Hk. rewrite Hs by done. by apply Hne.
    + destruct (fi_loose0 b Hb) as (? & E & Hl). rewrite Hu, E, orb_true_r by lia. split_and!; try done; try lia.
      intros i k Hi Hk. rewrite Hs by done. by apply Hl.
  - intros b Hb. rewrite Hu by lia. destruct (decide (b = c)) as [->|Hbc]; [left; set_solver|].
    rewrite bool_decide_false by done. cbn. intros Hub. destruct (fi_used0 b Hb Hub) as [?|(i & k & Hi & Hk & E)]; [left; set_solver|].
    right. exists i, k. by rewrite Hs.
  - intros i k Hi Hk. rewrite Hs by done. by apply fi_hole0.
  - intros i k Hi Hk. rewrite Hs by done. by apply fi_free0.
Qed.

(** A loose block becomes entry [k0] of inode [i0]. *)
Lemma inv_attach sb hm v v' I X i0 k0 c d :
  geom sb hm -> fs_inv sb v I X -> c ∈ X -> ino sb i0 -> nth_slot k0 ->
  slot v (I i0) k0 = 0 -> slot v' d k0 = c -> (forall k, nth_slot k -> k <> k0 -> slot v' d k = slot v (I i0) k) ->
  (forall b, sb_bmapstart sb <= b < datastart sb -> v' b = v b) ->
  (forall i, ino sb i -> i <> i0 -> indirect (I i) = 0 \/ v' (indirect (I i)) = v (indirect (I i))) ->
  (forall b, sb_inodestart sb <= b < sb_size sb -> wf_block (v' b)) ->
  length (d_addrs d) = 13%nat -> d_size d = d_size (I i0) -> d_type d = d_type (I i0) -> d_type d <> 0 ->
  fs_inv sb v' (<[i0 := d]> I) (X ∖ {[c]}).
Proof.
  intros G H HcX Hi0 Hk0 Hz0 Hnew Hold Hbm Hind Hwf Hlen Hsz Hty Hty0. pose proof (geom_order sb hm G) as Hord. pose proof H as [].
  destruct (fi_loose0 c HcX) as (Hcr & Hcu & Hcl).
  assert (Hu : forall b, 0 <= b < sb_size sb -> used sb v' b = used sb v b).
  { intros b Hb. apply used_ext, Hbm. by apply (geom_BBLOCK sb hm b G Hb). }
  assert (Hs : forall i k, ino sb i -> nth_slot k -> slot v' (<[i0 := d]> I i) k = if decide (i = i0 /\ k = k0) then c else slot v (I i) k).
  { intros i k Hi Hk. destruct (decide (i = i0)) as [->|Hne].
    - rewrite fn_lookup_insert. destruct (decide (k = k0)) as [->|Hk']; [by rewrite decide_True|].
      rewrite decide_False by naive_solver. by apply Hold.
    - rewrite fn_lookup_insert_ne by done. rewrite decide_False by naive_solver. by apply slot_ext, Hind. }
  split; try done.
  - intros b Hb. rewrite Hu; [by apply fi_meta0|]. pose proof (g_data _ _ G). lia.
  - intros i Hi. destruct (decide (i = i0)) as [->|]; [by rewrite fn_lookup_insert|rewrite fn_lookup_insert_ne by done; by apply fi_len0].
  - intros i k Hi Hk. rewrite Hs by done. case_decide; intros Hz; [rewrite Hu by lia; done|].
    destruct (fi_slot0 i k Hi Hk Hz). by rewrite Hu by lia.
  - intros i k j l Hi Hk Hj Hl. rewrite !Hs by done. repeat case_decide; [naive_solver|..].
    + intros E _. symmetry in E. by apply Hcl in E.
    + intros E _. by apply Hcl in E.
    + by apply fi_inj0.
  - intros b [Hb Hbc]%elem_of_difference. destruct (fi_loose0 b Hb) as (? & ? & Hl). rewrite Hu by lia. split_and!; try done; try lia.
    intros i k Hi Hk. rewrite Hs by done. case_decide; [set_solver|by apply Hl].
  - intros b Hb. rewrite Hu by lia. intros Hub. destruct (decide (b = c)) as [->|Hbc].
    { right. exists i0, k0. rewrite Hs, decide_True by done. done. }
    destruct (fi_used0 b Hb Hub) as [?|(i & k & Hi & Hk & E)]; [left; set_solver|].
    right. exists i, k. rewrite Hs by done. case_decide as Hik; [|done]. destruct Hik as [-> ->]. lia.
  - intros i Hi. destruct (decide (i = i0)) as [->|]; [rewrite fn_lookup_insert, Hsz|rewrite fn_lookup_insert_ne by done]; by apply fi_size0.
  - intros i k Hi Hk. rewrite Hs by (done || (unfold nth_slot; lia)). case_decide; [lia|].
    destruct (decide (i = i0)) as [->|]; [rewrite fn_lookup_insert, Hsz|rewrite fn_lookup_insert_ne by done]; by apply fi_hole0.
  - intros i k Hi Hk. destruct (decide (i = i0)) as [->|]; [by rewrite fn_lookup_insert|].
    intros Ht. rewrite Hs, decide_False by naive_solver. apply fi_free0; [done..|]. by rewrite fn_lookup_insert_ne in Ht.
Qed.
