(* ===== verification/FsBmap.v ===== *)
(** [bmap] of kernel/fs.c: the block of a file, allocated when there is none; and
    [readi]. *)

From S2P Require Import Prelude Riscv Mem Sync Kalloc Vm Sleeplock Bio DiskFmt Blocks Fs FsBlk.

(** The free data blocks. *)
Definition free_set (sb : superblock) (v : Z -> block) : gset Z :=
  list_to_set (filter (fun b => used sb v b = false) (seqZ 0 (sb_size sb))).

Lemma elem_free_set sb v b : b ∈ free_set sb v <-> 0 <= b < sb_size sb /\ used sb v b = false.
Proof. unfold free_set. rewrite elem_of_list_to_set, list_elem_of_filter, elem_of_seqZ. intuition lia. Qed.

Lemma free_set_ext sb hm v v' :
  geom sb hm -> (forall b, sb_bmapstart sb <= b < datastart sb -> v' b = v b) -> free_set sb v' = free_set sb v.
Proof.
  intros G Hb. apply set_eq. intros b. rewrite !elem_free_set.
  assert (E : 0 <= b < sb_size sb -> used sb v' b = used sb v b) by (intros Hr; apply used_ext, Hb; by apply (geom_BBLOCK sb hm b G)).
  split; intros [Hr Hu]; (split; [done|]); [by rewrite <- E|by rewrite E].
Qed.

Lemma free_alloc sb c t :
  geom sb (t_home t) -> datastart sb <= c < sb_size sb -> wf_block (t_view t (BBLOCK c sb)) ->
  free_set sb (t_view (alloc_tx sb c t)) = free_set sb (t_view t) ∖ {[c]}.
Proof.
  intros G Hc Hwf. apply set_eq. intros b. rewrite elem_of_difference, elem_of_singleton, !elem_free_set. pose proof (geom_order sb _ G).
  split.
  - intros [Hb Hu]. rewrite (used_alloc sb c t G Hc Hwf b Hb) in Hu. apply orb_false_iff in Hu as [H1 H2]. by apply bool_decide_eq_false in H1.
  - intros [[Hb Hu] Hne]. split; [done|]. rewrite (used_alloc sb c t G Hc Hwf b Hb), Hu, bool_decide_false by done. done.
Qed.

Definition bitmaps (sb : superblock) : gset Z := list_to_set (seqZ (sb_bmapstart sb) (sb_size sb / BPB + 1)).

Lemma elem_bitmaps sb b : b ∈ bitmaps sb <-> sb_bmapstart sb <= b < datastart sb.
Proof. unfold bitmaps, datastart. rewrite elem_of_list_to_set, elem_of_seqZ. lia. Qed.

Lemma size_pos (X : gset Z) : (1 <= size X)%nat -> exists c, c ∈ X.
Proof. intros H. apply size_pos_elem_of. lia. Qed.

Lemma ind_entry_zeros k : 0 <= k < NINDIRECT -> ind_entry zeros k = 0.
Proof.
  intros Hk. change NINDIRECT with 256 in Hk. unfold ind_entry, get32, zeros.
  rewrite !lookup_total_replicate_2 by (change (Z.to_nat BSIZE) with 1024%nat; lia). done.
Qed.

Lemma wf_put32 d o z : wf_block d -> wf_block (put32 d o z).
Proof.
  intros H. unfold put32. repeat (apply wf_insert || done).
Qed.

Section FsBmap.
Context {LY : Layout} {WK : Wakeups} {S : Type} {B : Blocks S} {OK : BlocksOk S}.
Implicit Types (x : S) (s : fss S) (t : tx).
Abbreviation F := (M (fss S)).

(** The state with [d] in the cache entry [ip]. *)
Definition with_d (ip : nat) (d : dinode) (s : fss S) : fss S :=
  put_inodes (alter (fun y => set_d y d) ip (f_inodes s)) s.

Lemma with_d_twice ip d d' s : with_d ip d (with_d ip d' s) = with_d ip d s.
Proof. unfold with_d, put_inodes. cbn. by rewrite list_alter_alter_eq. Qed.

Lemma with_d_at ip d s : (ip < length (f_inodes s))%nat -> f_inodes (with_d ip d s) !!! ip = set_d (f_inodes s !!! ip) d.
Proof. intros H. cbn. by rewrite list_lookup_total_alter_eq. Qed.

Lemma updd_on ip f x d s : (ip < length (f_inodes s))%nat -> updd ip f (on x (with_d ip d s)) = Ret tt (on x (with_d ip (f d) s)).
Proof.
  intros H. unfold updd, updi, modify. f_equal. unfold on, lput, with_d, put_inodes. cbn. f_equal.
  rewrite list_alter_alter_eq. done.
Qed.

(** The indirect block, if there is one. *)
Definition ind_set (d : dinode) : gset Z := if decide (indirect d = 0) then ∅ else {[indirect d]}.

(** What [bmap] leaves: the file has grown by at most the block asked for and the
    indirect block, and the transaction by these and their bits. *)
Record mapped (sb : superblock) (I : Z -> dinode) (i bn : Z) (t : tx) (d : dinode) (addr : Z) (t' : tx) (d' : dinode) : Prop := {
  mp_steps : exists W, steps t t' W /\ W ⊆ bitmaps sb ∪ {[addr]} ∪ ind_set d';
  mp_inv : fs_inv sb (t_view t') (<[i := d']> I) ∅;
  mp_addr : slot (t_view t') d' bn = addr;
  mp_nz : addr <> 0;
  mp_slots : forall k, 0 <= k < MAXFILE -> k <> bn -> slot (t_view t') d' k = slot (t_view t) d k;
  mp_same : slot (t_view t) d bn <> 0 -> t' = t /\ d' = d;
  mp_new : slot (t_view t) d bn = 0 -> t_view t' addr = zeros;
  mp_ind : indirect d <> 0 -> indirect d' = indirect d;
  mp_d : d' = set_addrs d (d_addrs d');
  mp_free : (size (free_set sb (t_view t)) <= size (free_set sb (t_view t')) + 2)%nat }.

Lemma mapped_same sb I i bn t d addr :
  fs_inv sb (t_view t) I ∅ -> I i = d -> clean t -> slot (t_view t) d bn = addr -> addr <> 0 -> mapped sb I i bn t d addr t d.
Proof.
  intros H Hd Hc Ha Hz. split; try done.
  - exists ∅. split; [by apply steps_refl|set_solver].
  - rewrite <- Hd. by apply inv_self.
  - intros. congruence.
  - by destruct d.
  - lia.
Qed.

(** The hypotheses about the running transaction. *)
Record working (sb : superblock) (I : Z -> dinode) (x : S) (t : tx) : Prop := {
  wk_geom : geom sb (t_home t);
  wk_rep : tx_rep x t;
  wk_clean : clean t;
  wk_in : t_in t = true;
  wk_inv : fs_inv sb (t_view t) I ∅ }.

Lemma balloc_inv sb I X x t s n :
  f_sb s = sb -> geom sb (t_home t) -> tx_rep x t -> clean t -> t_in t = true -> fs_inv sb (t_view t) I X -> open_used sb t -> spare 3 t ->
  (Datatypes.S n <= size (free_set sb (t_view t)))%nat ->
  exists c x', balloc ROOTDEV (on x s) = Ret c (on x' s) /\ tx_rep x' (alloc_tx sb c t) /\ datastart sb <= c < sb_size sb /\
    used sb (t_view t) c = false /\ fs_inv sb (t_view (alloc_tx sb c t)) I ({[c]} ∪ X) /\
    (size (free_set sb (t_view t)) = Datatypes.S (size (free_set sb (t_view (alloc_tx sb c t)))))%nat.
Proof.
  intros <- G H Hc Hit Hinv Ho Hsp Hfree. destruct (size_pos (free_set (f_sb s) (t_view t))) as [c0 Hc0]; [lia|].
  apply elem_free_set in Hc0. destruct (balloc_ok x t s G H Hc Ho Hsp Hit (fi_meta _ _ _ _ Hinv)) as (c & x' & E & H' & Hr & Hu); [by exists c0|].
  exists c, x'. split_and!; try done; try lia; [by apply inv_alloc|]. pose proof (geom_order _ _ G).
  destruct (geom_BBLOCK (f_sb s) _ c G) as [_ Hbb]; [lia|]. rewrite free_alloc by (done || (apply (fi_wf _ _ _ _ Hinv); lia)).
  assert (Hin : c ∈ free_set (f_sb s) (t_view t)) by (apply elem_free_set; split; [lia|done]).
  pose proof (size_difference (free_set (f_sb s) (t_view t)) {[c]} ltac:(set_solver)) as Hd. rewrite size_singleton in Hd. lia.
Qed.

Lemma slot_direct v d k : k < NDIRECT -> slot v d k = d_addrs d !!! Z.to_nat k.
Proof. intros H. unfold slot. by rewrite (proj2 (Z.ltb_lt _ _) H). Qed.

Lemma slot_insert v d k c k' :
  0 <= k < NDIRECT -> length (d_addrs d) = 13%nat -> 0 <= k' ->
  slot v (set_addrs d (<[Z.to_nat k := c]> (d_addrs d))) k' = if decide (k' = k) then c else slot v d k'.
Proof.
  intros Hk Hl Hk'. change NDIRECT with 12 in *. unfold slot. cbn [d_addrs set_addrs].
  rewrite !(list_lookup_total_insert_ne _ (Z.to_nat k) (Z.to_nat NDIRECT)) by (change NDIRECT with 12; lia).
  change NDIRECT with 12. case_decide as E; subst.
  - rewrite (proj2 (Z.ltb_lt _ _)) by lia. apply list_lookup_total_insert_eq. lia.
  - destruct (Z.ltb_spec k' 12); [|done]. apply list_lookup_total_insert_ne. lia.
Qed.

(** A direct block. *)
Lemma bmap_direct ip bn x t s I d :
  let sb := f_sb s in let i := i_inum (f_inodes s !!! ip) in
  (ip < length (f_inodes s))%nat -> i_dev (f_inodes s !!! ip) = ROOTDEV ->
  working sb I x t -> ino sb i -> I i = d -> d_type d <> 0 -> open_used sb t -> spare 3 t -> 0 <= bn < NDIRECT ->
  (1 <= size (free_set sb (t_view t)))%nat ->
  exists addr x' t' d', bmap ip bn (on x (with_d ip d s)) = Ret addr (on x' (with_d ip d' s)) /\ tx_rep x' t' /\
    mapped sb I i bn t d addr t' d'.
Proof.
  intros sb i Hip Hdev [G H Hc Hit Hinv] Hi Hd Hty Ho Hsp Hbn Hfree. unfold bmap. mstep.
  change (f_inodes (on x ?y)) with (f_inodes y). rewrite with_d_at by done. cbn [i_d i_dev set_d]. rewrite Hdev.
  rewrite (proj2 (Z.ltb_lt _ _)) by apply Hbn. rewrite <- (slot_direct (t_view t)) by apply Hbn.
  destruct (Z.eqb_spec (slot (t_view t) d bn) 0) as [Hz|Hz].
  2: { eexists _, x, t, d. split; [done|]. split; [done|]. by apply mapped_same. }
  destruct (balloc_inv sb I ∅ x t (with_d ip d s) 0 eq_refl G H Hc Hit Hinv Ho Hsp Hfree) as (c & x' & E & H' & Hcr & Hu & Hinv' & Hsz).
  rewrite (bind_ret _ _ _ _ _ E), (bind_ret _ _ _ _ _ (updd_on ip _ x' d s Hip)).
  eexists c, x', (alloc_tx sb c t), _. split; [done|]. split; [done|].
  assert (Hlen : length (d_addrs d) = 13%nat) by (rewrite <- Hd; by apply (fi_len _ _ _ _ Hinv)).
  assert (Hix : indirect (set_addrs d (<[Z.to_nat bn := c]> (d_addrs d))) = indirect d).
  { unfold indirect. cbn [d_addrs set_addrs]. apply list_lookup_total_insert_ne. change NDIRECT with 12 in *. lia. }
  assert (Hfr : forall k, 0 <= k -> slot (t_view (alloc_tx sb c t)) d k = slot (t_view t) d k).
  { intros k Hk. apply slot_ext. destruct (decide (indirect d = 0)); [by left|right]. subst d.
    destruct (inv_indirect sb _ I ∅ i Hinv Hi n) as [Hr Hui]. cbn. pose proof (geom_order _ _ G).
    destruct (geom_BBLOCK sb _ c G) as [_ Hcb]; [lia|]. rewrite !upd_view_ne; [done|lia|congruence]. }
  assert (Hmax : MAXFILE = 268) by done.
  split; rewrite ?Hix; try done.
  - exists {[c; BBLOCK c sb]}. split; [by apply steps_alloc|]. destruct (geom_BBLOCK sb _ c G) as [_ Hcb]; [pose proof (geom_order _ _ G); lia|].
    apply elem_bitmaps in Hcb. set_solver.
  - replace (∅ : gset Z) with ((({[c]} ∪ ∅) ∖ {[c]}) : gset Z) by set_solver.
    apply (inv_attach sb _ _ _ I ({[c]} ∪ ∅) i bn c _ G Hinv'); try done.
    + set_solver.
    + unfold nth_slot. rewrite Hmax. change NDIRECT with 12 in *. lia.
    + rewrite Hd, Hfr by lia. done.
    + rewrite slot_insert by (done || lia). by rewrite decide_True.
    + intros k Hk Hne. rewrite slot_insert by (done || apply Hk). rewrite decide_False by done. by rewrite Hd.
    + intros j Hj Hne. by right.
    + apply (fi_wf _ _ _ _ Hinv').
    + cbn. by rewrite length_insert.
    + cbn. by rewrite Hd.
    + cbn. by rewrite Hd.
  - rewrite slot_insert by (done || lia). by rewrite decide_True.
  - pose proof (geom_order _ _ G). lia.
  - intros k Hk Hne. rewrite slot_insert by (done || lia). rewrite decide_False by done. apply Hfr. lia.
  - intros _. cbn. by rewrite upd_view_eq.
  - lia.
Qed.

Lemma slot_entry v d k :
  NDIRECT <= k < MAXFILE -> indirect d <> 0 -> slot v d k = ind_entry (v (indirect d)) (k - NDIRECT).
Proof.
  intros Hk Hz. unfold slot. fold (indirect d). rewrite (proj2 (Z.ltb_ge _ _)), (proj2 (Z.eqb_neq k MAXFILE)), (proj2 (Z.eqb_neq _ 0) Hz) by lia. done.
Qed.

Lemma ind_entry_put d k c j :
  length d = 1024%nat -> 0 <= k < NINDIRECT -> 0 <= j < NINDIRECT -> 0 <= c < 2 ^ 32 ->
  ind_entry (put32 d (4 * Z.to_nat k) c) j = if decide (j = k) then c else ind_entry d j.
Proof.
  intros Hl Hk Hj Hc. change NINDIRECT with 256 in *. unfold ind_entry. case_decide; subst.
  - rewrite get32_put32_eq by lia. by apply u32_small.
  - apply get32_put32_ne. lia.
Qed.

(** Writing an entry of the indirect block changes that entry only. *)
Lemma slot_put_entry v d k c k' :
  NDIRECT <= k < MAXFILE -> indirect d <> 0 -> length (v (indirect d)) = 1024%nat -> 0 <= c < 2 ^ 32 -> nth_slot k' ->
  slot (upd_view (indirect d) (put32 (v (indirect d)) (4 * Z.to_nat (k - NDIRECT)) c) v) d k' =
  if decide (k' = k) then c else slot v d k'.
Proof.
  intros Hk Hz Hl Hc Hk'. assert (HM : MAXFILE = NDIRECT + NINDIRECT) by done. unfold nth_slot in Hk'.
  destruct (decide (NDIRECT <= k' < MAXFILE)) as [Hr|Hr].
  - rewrite !slot_entry, upd_view_eq, ind_entry_put by (done || lia). repeat case_decide; (done || lia).
  - rewrite decide_False by lia. unfold slot. destruct (Z.ltb_spec k' NDIRECT); [done|]. by rewrite (proj2 (Z.eqb_eq k' MAXFILE)) by lia.
Qed.

Lemma open_used_open sb i b t : open_used sb t -> datastart sb <= b < sb_size sb -> used sb (t_view t) b = true -> open_used sb (open_buf i b t).
Proof. intros H Hb Hu j c Hj. cbn in *. apply lookup_insert_Some in Hj as [[<- <-]|[_ Hj]]; [done|by apply (H j)]. Qed.

Lemma bmap_entry_ok i bn x t s I d :
  let sb := f_sb s in
  working sb I x t -> ino sb i -> I i = d -> d_type d <> 0 -> open_used sb t -> closed (indirect d) t -> spare 4 t ->
  NDIRECT <= bn < MAXFILE -> indirect d <> 0 -> (1 <= size (free_set sb (t_view t)))%nat ->
  exists addr x' t', bmap_entry ROOTDEV (indirect d) (bn - NDIRECT) (on x s) = Ret addr (on x' s) /\ tx_rep x' t' /\
    mapped sb I i bn t d addr t' d /\ (size (free_set sb (t_view t)) <= size (free_set sb (t_view t')) + 1)%nat.
Proof.
  intros sb [G H Hc Hit Hinv] Hi Hd Hty Ho Hcl Hsp Hbn Hz Hfree. unfold bmap_entry. pose proof (geom_order sb _ G) as Hord. assert (HN : NDIRECT = 12) by done. subst d.
  destruct (inv_indirect sb _ I ∅ i Hinv Hi Hz) as [Har Hau].
  assert (Hah : t_home t (indirect (I i))) by (apply (g_home _ _ G); lia).
  destruct (buffer_ok x t _ H Hc Hah Hcl ltac:(apply (spare_le 1 4); [lia|done])) as (b & x1 & E & Hb & H1 & Ed & x2 & Er & H2).
  rewrite (bind_ret _ _ _ _ _ (E _)), (bind_ret _ _ _ _ _ (Ed _)), <- slot_entry by done.
  destruct (Z.eqb_spec (slot (t_view t) (I i) bn) 0) as [Hz0|Hz0].
  2: { rewrite (bind_ret _ _ _ _ _ (Er _)). eexists _, x2, t. split; [done|]. split; [done|]. split; [by apply mapped_same|lia]. }
  set (a := indirect (I i)) in *.
  destruct (balloc_inv sb I ∅ x1 (open_buf b a t) s 0 eq_refl G H1 Hc Hit Hinv) as (c & x3 & E3 & H3 & Hcr & Hu & Hinv' & Hsz).
  { by apply open_used_open. }
  { unfold spare in *. cbn. rewrite map_size_insert_None by done. lia. }
  { done. }
  rewrite (bind_ret _ _ _ _ _ E3). change (alloc_tx sb c (open_buf b a t)) with (open_buf b a (alloc_tx sb c t)) in H3, Hinv', Hsz.
  assert (Hac : a <> c) by (intros ->; cbn in Hu; congruence).
  destruct (geom_BBLOCK sb _ c G) as [_ Hcb]; [lia|].  pose proof (g_size _ _ G) as Hgs.
  assert (Hva : t_view (alloc_tx sb c t) a = t_view t a) by (cbn; rewrite !upd_view_ne by lia; done).
  rewrite (bind_ret _ _ _ _ _ (zoom_on _ x3 s _ _ (tx_data x3 _ b a H3 ltac:(cbn; by rewrite lookup_insert_eq)))).
  change (t_view (open_buf b a (alloc_tx sb c t))) with (t_view (alloc_tx sb c t)). rewrite Hva.
  destruct (store_buf_ok x3 (alloc_tx sb c t) b a (put32 (t_view t a) (4 * Z.to_nat (bn - NDIRECT)) c) H3 Hb) as (x4 & H4 & _ & E4).
  { apply spare_edit, spare_edit. by apply Hsp. }
  { done. }
  rewrite E4. eexists c, x4, _. split; [done|]. split; [exact H4|].
  set (v1 := t_view (alloc_tx sb c t)) in *. set (t' := edit a _ (alloc_tx sb c t)) in *.
  assert (Hwa : wf_block (t_view t a)) by (apply (fi_wf _ _ _ _ Hinv); lia).
  assert (Hv' : t_view t' = upd_view (indirect (I i)) (put32 (v1 (indirect (I i))) (4 * Z.to_nat (bn - NDIRECT)) c) v1) by (fold a; by rewrite Hva).
  assert (Hs : forall k, nth_slot k -> slot (t_view t') (I i) k = if decide (k = bn) then c else slot (t_view t) (I i) k).
  { intros k Hk. rewrite Hv', slot_put_entry; [|done|done| |lia|done].
    - case_decide; [done|]. apply slot_ext. by right.
    - fold a. rewrite Hva. apply Hwa. }
  assert (Hbs : forall b', sb_bmapstart sb <= b' < datastart sb -> t_view t' b' = v1 b') by (intros b' Hb'; cbn; apply upd_view_ne; lia).
  assert (Hfs : free_set sb (t_view t') = free_set sb v1).
  { apply (free_set_ext sb _ _ _ G). exact Hbs. }
  change (t_view (open_buf b a (alloc_tx sb c t))) with v1 in Hsz. change (t_view (open_buf b a t)) with (t_view t) in Hsz.
  split; [split; try done|rewrite Hfs; lia].
  - exists ({[a]} ∪ {[c; BBLOCK c sb]}). split; [eapply steps_trans; [by apply steps_alloc|apply steps_edit; by apply (st_clean _ _ _ (steps_alloc sb c t Hc))]|].
    apply elem_bitmaps in Hcb. unfold ind_set. rewrite decide_False by done. fold a. set_solver.
  - replace (∅ : gset Z) with ((({[c]} ∪ ∅) ∖ {[c]}) : gset Z) by set_solver.
    apply (inv_attach sb _ v1 _ I ({[c]} ∪ ∅) i bn c _ G Hinv'); try done.
    + set_solver.
    + unfold nth_slot. lia.
    + rewrite (slot_ext (t_view t)) by (right; exact Hva). done.
    + rewrite Hs by (unfold nth_slot; lia). by rewrite decide_True.
    + intros k Hk Hne. rewrite Hs, decide_False by done. symmetry. apply slot_ext. by right.
    + intros j Hj Hne. destruct (decide (indirect (I j) = 0)); [by left|right]. cbn. apply upd_view_ne. intros Hja.
      destruct (fi_inj _ _ _ _ Hinv j MAXFILE i MAXFILE) as [? _]; try done; rewrite ?slot_indirect; done.
    + intros b' Hb'. cbn. unfold upd_view at 1. case_decide; [by apply wf_put32|]. by apply (fi_wf _ _ _ _ Hinv').
    + by apply (fi_len _ _ _ _ Hinv).
  - rewrite Hs by (unfold nth_slot; lia). by rewrite decide_True.
  - lia.
  - intros k Hk Hne. rewrite Hs by (unfold nth_slot; lia). by rewrite decide_False.
  - intros _. cbn. rewrite upd_view_ne by done. by rewrite upd_view_eq.
  - by destruct (I i).
  - rewrite Hfs. lia.
Qed.

(** The indirect block itself is allocated: it has no entries. *)
Lemma slot_new_indirect v d c k :
  length (d_addrs d) = 13%nat -> indirect d = 0 -> c <> 0 -> v c = zeros -> nth_slot k ->
  slot v (set_addrs d (<[Z.to_nat NDIRECT := c]> (d_addrs d))) k = if decide (k = MAXFILE) then c else slot v d k.
Proof.
  intros Hl Hz Hc Hv Hk. assert (HN : NDIRECT = 12) by done. assert (HM : MAXFILE = NDIRECT + NINDIRECT) by done. unfold nth_slot in Hk.
  assert (Hi : indirect (set_addrs d (<[Z.to_nat NDIRECT := c]> (d_addrs d))) = c).
  { unfold indirect. cbn [d_addrs set_addrs]. apply list_lookup_total_insert_eq. rewrite HN. lia. }
  case_decide as E; [by rewrite E, slot_indirect|].
  destruct (decide (k < NDIRECT)).
  - rewrite !slot_direct by done. cbn [d_addrs set_addrs]. apply list_lookup_total_insert_ne. lia.
  - rewrite slot_entry by (rewrite ?Hi; done || lia). rewrite Hi, Hv, ind_entry_zeros by lia.
    unfold slot. fold (indirect d). rewrite (proj2 (Z.ltb_ge _ _)), (proj2 (Z.eqb_neq k MAXFILE)), Hz by lia. done.
Qed.

Lemma inv_new_indirect sb t I i d c :
  geom sb (t_home t) -> fs_inv sb (t_view t) I ({[c]} ∪ ∅) -> ino sb i -> I i = d -> d_type d <> 0 ->
  indirect d = 0 -> c <> 0 -> t_view t c = zeros ->
  fs_inv sb (t_view t) (<[i := set_addrs d (<[Z.to_nat NDIRECT := c]> (d_addrs d))]> I) ∅.
Proof.
  intros G Hinv Hi Hd Hty Hz Hc Hv. assert (Hl : length (d_addrs d) = 13%nat) by (rewrite <- Hd; by apply (fi_len _ _ _ _ Hinv)).
  replace (∅ : gset Z) with ((({[c]} ∪ ∅) ∖ {[c]}) : gset Z) by set_solver.
  apply (inv_attach sb _ _ _ I ({[c]} ∪ ∅) i MAXFILE c _ G Hinv); try done; rewrite ?Hd; try done.
  - set_solver.
  - rewrite slot_new_indirect by done. by rewrite decide_True.
  - intros k Hk Hne. rewrite slot_new_indirect by done. by rewrite decide_False.
  - intros j Hj Hne. by right.
  - apply (fi_wf _ _ _ _ Hinv).
  - cbn. by rewrite length_insert.
Qed.

Lemma closed_new sb c t : open_used sb t -> used sb (t_view t) c = false -> closed c (alloc_tx sb c t).
Proof. intros Ho Hu. exact (closed_free sb t c Ho Hu). Qed.

Lemma open_used_alloc sb c t :
  geom sb (t_home t) -> open_used sb t -> datastart sb <= c < sb_size sb -> wf_block (t_view t (BBLOCK c sb)) -> open_used sb (alloc_tx sb c t).
Proof.
  intros G Ho Hc Hwf j b Hj. destruct (Ho j b Hj) as [Hr Hu]. split; [done|]. pose proof (geom_order sb _ G).
  rewrite used_alloc by (done || lia). by rewrite Hu, orb_true_r.
Qed.

Lemma bmap_ok ip bn x t s I d :
  let sb := f_sb s in let i := i_inum (f_inodes s !!! ip) in
  (ip < length (f_inodes s))%nat -> i_dev (f_inodes s !!! ip) = ROOTDEV ->
  working sb I x t -> ino sb i -> I i = d -> d_type d <> 0 -> t_open t = ∅ -> spare 6 t -> 0 <= bn < MAXFILE ->
  (2 <= size (free_set sb (t_view t)))%nat ->
  exists addr x' t' d', bmap ip bn (on x (with_d ip d s)) = Ret addr (on x' (with_d ip d' s)) /\ tx_rep x' t' /\
    mapped sb I i bn t d addr t' d'.
Proof.
  intros sb i Hip Hdev Hw Hi Hd Hty Hop Hsp Hbn Hfree. pose proof Hw as [G H Hc Hit Hinv].
  assert (HN : NDIRECT = 12) by done. assert (HM : MAXFILE = NDIRECT + NINDIRECT) by done. assert (HI : NINDIRECT = 256) by done.
  assert (Ho : open_used sb t) by (intros j b; by rewrite Hop, lookup_empty).
  destruct (decide (bn < NDIRECT)) as [Hbd|Hbd].
  { apply bmap_direct; try done; [apply (spare_le 3 6); [lia|done]|lia|fold sb; lia]. }
  unfold bmap. mstep. change (f_inodes (on x ?y)) with (f_inodes y). rewrite with_d_at by done. cbn [i_d i_dev set_d]. rewrite Hdev.
  rewrite (proj2 (Z.ltb_ge bn NDIRECT)), u32_small, (proj2 (Z.ltb_lt _ NINDIRECT)) by lia. fold (indirect d).
  destruct (Z.eqb_spec (indirect d) 0) as [Hz|Hz].
  2: { destruct (bmap_entry_ok i bn x t (with_d ip d s) I d Hw Hi Hd Hty Ho) as (addr & x' & t' & E & H' & Hm & _); try done; try lia;
         [intros j; by rewrite Hop, lookup_empty|apply (spare_le 4 6); [lia|done]|change (f_sb (with_d ip d s)) with sb; lia|].
       exists addr, x', t', d. by rewrite E. }
  destruct (balloc_inv sb I ∅ x t (with_d ip d s) 1 eq_refl G H Hc Hit Hinv Ho) as (c & x1 & E & H1 & Hcr & Hu & Hinv1 & Hsz);
    [apply (spare_le 3 6); [lia|done]|done|].
  pose proof (geom_order sb _ G) as Hord. destruct (geom_BBLOCK sb _ c G) as [_ Hcb]; [lia|].
  assert (Hwb : wf_block (t_view t (BBLOCK c sb))) by (apply (fi_wf _ _ _ _ Hinv); lia).
  rewrite (bind_ret _ _ _ _ _ E), (bind_ret _ _ _ _ _ (updd_on ip _ x1 d s Hip)).
  set (d1 := set_addrs d (<[Z.to_nat NDIRECT := c]> (d_addrs d))). set (t1 := alloc_tx sb c t) in *.
  assert (Hl : length (d_addrs d) = 13%nat) by (rewrite <- Hd; by apply (fi_len _ _ _ _ Hinv)).
  assert (Hi1 : indirect d1 = c) by (unfold indirect; cbn [d_addrs set_addrs d1]; apply list_lookup_total_insert_eq; rewrite HN; lia).
  assert (Hzc : t_view t1 c = zeros) by (cbn; by rewrite upd_view_eq).
  assert (Hinv2 : fs_inv sb (t_view t1) (<[i := d1]> I) ∅) by (apply inv_new_indirect; try done; lia).
  assert (Hs1 : forall k, nth_slot k -> slot (t_view t1) d1 k = if decide (k = MAXFILE) then c else slot (t_view t) d k).
  { intros k Hk. unfold d1. rewrite slot_new_indirect by (done || lia). case_decide; [done|]. apply slot_ext. by left. }
  destruct (bmap_entry_ok i bn x1 t1 (with_d ip d1 s) (<[i := d1]> I) d1) as (addr & x' & t' & E' & H' & Hm & Hfr); try done; try lia.
  { split; [done|done|by apply (st_clean _ _ _ (steps_alloc sb c t Hc))|done|done]. }
  { by rewrite fn_lookup_insert. }
  { by apply open_used_alloc. }
  { rewrite Hi1. by apply (closed_new sb). }
  { apply spare_edit, spare_edit. by apply Hsp. }
  { change (f_sb (with_d ip d1 s)) with sb. lia. }
  rewrite Hi1 in E'. exists addr, x', t', d1. split; [exact E'|]. split; [done|].
  change (f_sb (with_d ip d1 s)) with sb in *. destruct Hm as [(W & HW & HWs) Hminv Hma Hmnz Hmsl _ Hmnew Hmind _ Hmfr].
  assert (Hzb : slot (t_view t) d bn = 0).
  { unfold slot. fold (indirect d). rewrite (proj2 (Z.ltb_ge _ _)), (proj2 (Z.eqb_neq bn MAXFILE)), Hz by lia. done. }
  split; try done; try lia.
  - exists (W ∪ {[c; BBLOCK c sb]}). split; [by eapply steps_trans; [apply steps_alloc|]|].
    apply elem_bitmaps in Hcb. unfold ind_set in *. rewrite decide_False, Hi1 in * by (rewrite Hi1; lia). set_solver.
  - eapply inv_ext; [|exact Hminv]. intros j _. destruct (decide (j = i)) as [->|]; [by rewrite !fn_lookup_insert|by rewrite !fn_lookup_insert_ne].
  - intros k Hk Hne. rewrite Hmsl by done. rewrite Hs1 by (unfold nth_slot; lia). rewrite decide_False by lia. done.
  - intros _. apply Hmnew. rewrite Hs1 by (unfold nth_slot; lia). by rewrite decide_False by lia.
Qed.
End FsBmap.

(** * Reading a file: [readi] of kernel/fs.c *)

(** Byte [k] of the file with inode [d]. *)
Definition fbyte (v : Z -> block) (d : dinode) (k : Z) : Z := v (slot v d (k / BSIZE)) !!! Z.to_nat (k mod BSIZE).
Definition fbytes (v : Z -> block) (d : dinode) (off n : Z) : list Z := fbyte v d <$> seqZ off n.

Lemma fbytes_len v d off n : 0 <= n -> length (fbytes v d off n) = Z.to_nat n.
Proof. intros. unfold fbytes. by rewrite length_fmap, length_seqZ. Qed.

Lemma fbytes_app v d off n m : 0 <= n -> 0 <= m -> fbytes v d off (n + m) = fbytes v d off n ++ fbytes v d (off + n) m.
Proof. intros. unfold fbytes. rewrite <- fmap_app. by rewrite seqZ_app. Qed.

(** A piece of one block. *)
Lemma fbytes_block v d off m :
  length (v (slot v d (off / BSIZE))) = 1024%nat -> 0 <= off -> 0 <= m -> off mod BSIZE + m <= BSIZE ->
  take (Z.to_nat m) (drop (Z.to_nat (off mod BSIZE)) (v (slot v d (off / BSIZE)))) = fbytes v d off m.
Proof.
  intros Hl Hoff Hm Hle. change BSIZE with 1024 in *. pose proof (Z.mod_pos_bound off 1024 ltac:(lia)). apply list_eq. intros k.
  destruct (decide (k < Z.to_nat m)%nat) as [Hk|Hk].
  - rewrite lookup_take_lt, lookup_drop by done. unfold fbytes. rewrite list_lookup_fmap, lookup_seqZ_lt by lia. cbn. unfold fbyte.
    change BSIZE with 1024. assert (E : (off + Z.of_nat k) / 1024 = off / 1024 /\ (off + Z.of_nat k) mod 1024 = off mod 1024 + Z.of_nat k).
    { Z.to_euclidean_division_equations. lia. }
    destruct E as [-> ->]. rewrite Z2Nat.inj_add, Nat2Z.id by lia. apply list_lookup_lookup_total_lt. lia.
  - rewrite !lookup_ge_None_2; [done|rewrite fbytes_len by lia; lia|rewrite length_take; lia].
Qed.

(** Where the bytes go: [sink bs] is memory once the first bytes are [bs]. *)
Definition accepts {LY : Layout} (user : bool) (pt dst n : Z) (sink : list Z -> pmem) : Prop :=
  forall bs c, Z.of_nat (length (bs ++ c)) <= n ->
    copyout_either user pt (u64 (dst + Z.of_nat (length bs))) c (sink bs) = Ret 0 (sink (bs ++ c)).

(** A kernel buffer. *)
Definition kernel_sink (p : pmem) (dst : Z) (bs : list Z) : pmem := set_mem (store_bytes (mem p) dst bs) p.

Lemma store_bytes_app m a l l' : store_bytes m a (l ++ l') = store_bytes (store_bytes m a l) (a + Z.of_nat (length l)) l'.
Proof.
  revert m a. induction l as [|y l IH]; intros m a; cbn [store_bytes app length]; [by rewrite Z.add_0_r|].
  rewrite IH. f_equal. lia.
Qed.

Lemma kernel_accepts {LY : Layout} pt p dst n : 0 <= dst -> dst + n < 2 ^ 64 -> accepts false pt dst n (kernel_sink p dst).
Proof.
  intros Hd Hn bs c Hc. unfold copyout_either. rewrite length_app in Hc. rewrite u64_small by lia. unfold kernel_sink. rewrite store_bytes_app. done.
Qed.

Section FsRead.
Context {LY : Layout} {WK : Wakeups} {S : Type} {B : Blocks S} {OK : BlocksOk S}.
Implicit Types (x : S) (s : fss S) (t : tx).
Abbreviation F := (M (fss S)).

(** What reading needs of the transaction; none has to be running. *)
Record reading (sb : superblock) (I : Z -> dinode) (x : S) (t : tx) : Prop := {
  rd_geom : geom sb (t_home t);
  rd_rep : tx_rep x t;
  rd_clean : clean t;
  rd_open : t_open t = ∅;
  rd_spare : spare 2 t;
  rd_inv : fs_inv sb (t_view t) I ∅ }.

Definition put_pm (p : pmem) (s : fss S) : fss S := lput (Lens := fss_pm) p s.

Lemma rd_home sb I x t i k :
  reading sb I x t -> ino sb i -> nth_slot k -> slot (t_view t) (I i) k <> 0 -> t_home t (slot (t_view t) (I i) k).
Proof.
  intros [G _ _ _ _ Hinv] Hi Hk Hz. apply (g_home _ _ G). destruct (fi_slot _ _ _ _ Hinv i k Hi Hk Hz). pose proof (geom_order _ _ G). lia.
Qed.

Lemma rd_closed sb I x t b : reading sb I x t -> closed b t.
Proof. intros [_ _ _ Ho _ _] i. by rewrite Ho, lookup_empty. Qed.

(** A block that exists is found without any change. *)
Lemma bmap_hit ip bn x t s I :
  let sb := f_sb s in let e := f_inodes s !!! ip in
  i_dev e = ROOTDEV -> ino sb (i_inum e) -> i_d e = I (i_inum e) -> reading sb I x t -> 0 <= bn < MAXFILE ->
  slot (t_view t) (i_d e) bn <> 0 ->
  exists x', bmap ip bn (on x s) = Ret (slot (t_view t) (i_d e) bn) (on x' s) /\ tx_rep x' t.
Proof.
  intros sb e Hdev Hi Hd HR Hbn Hz. assert (HN : NDIRECT = 12) by done. assert (HM : MAXFILE = NDIRECT + NINDIRECT) by done. assert (HI : NINDIRECT = 256) by done.
  unfold bmap. mstep. change (f_inodes (on x s)) with (f_inodes s). fold e. destruct (Z.ltb_spec bn NDIRECT) as [Hlt|Hge].
  - rewrite <- (slot_direct (t_view t)) by done. rewrite (proj2 (Z.eqb_neq _ _) Hz). exists x. split; [done|apply HR].
  - rewrite u32_small, (proj2 (Z.ltb_lt _ NINDIRECT)) by lia. fold (indirect (i_d e)).
    assert (Hiz : indirect (i_d e) <> 0).
    { intros E. apply Hz. unfold slot. fold (indirect (i_d e)). rewrite (proj2 (Z.ltb_ge _ _)), (proj2 (Z.eqb_neq bn MAXFILE)), E by lia. done. }
    rewrite (proj2 (Z.eqb_neq _ _) Hiz). rewrite slot_entry in * by (done || lia). unfold bmap_entry. rewrite Hdev.
    destruct (buffer_ok x t (indirect (i_d e)) (rd_rep _ _ _ _ HR) (rd_clean _ _ _ _ HR)) as (b & x1 & E & Hb & H1 & Ed & x2 & Er & H2).
    + rewrite Hd in *. rewrite <- (slot_indirect (t_view t)). apply (rd_home sb I x); try done. 
    + by apply (rd_closed sb I x).
    + apply (spare_le 1 2); [lia|apply HR].
    + rewrite (bind_ret _ _ _ _ _ (E _)), (bind_ret _ _ _ _ _ (Ed _)). rewrite (proj2 (Z.eqb_neq _ _) Hz), (bind_ret _ _ _ _ _ (Er _)). by exists x2.
Qed.

(** [either_copyout] on the state. *)
Lemma f_copyout_ok user dst bs x p s r p' :
  copyout_either user (f_pagetable s) dst bs p = Ret r p' -> f_copyout user dst bs (on x (put_pm p s)) = Ret r (on x (put_pm p' s)).
Proof.
  intros E. unfold f_copyout. mstep. change (f_pagetable (on x (put_pm p s))) with (f_pagetable s). unfold zoom.
  change (lget (on x (put_pm p s))) with p. by rewrite E.
Qed.

Lemma readi_loop_ok fuel ip user dst0 off0 n sink x t s I :
  let sb := f_sb s in let e := f_inodes s !!! ip in let d := i_d e in
  i_dev e = ROOTDEV -> ino sb (i_inum e) -> d = I (i_inum e) -> reading sb I x t ->
  0 <= off0 -> 0 <= n -> off0 + n <= d_size d -> accepts user (f_pagetable s) dst0 n sink -> 0 <= dst0 ->
  forall tot, 0 <= tot <= n -> (1 <= fuel)%nat ->
  (tot < n -> (Z.to_nat ((n - tot + (off0 + tot) mod BSIZE - 1) / BSIZE) + 2 <= fuel)%nat) ->
  exists x', readi_loop fuel ip user (u64 (dst0 + tot)) (off0 + tot) n tot (on x (put_pm (sink (fbytes (t_view t) d off0 tot)) s)) =
    Ret n (on x' (put_pm (sink (fbytes (t_view t) d off0 n)) s)) /\ tx_rep x' t.
Proof.
  intros sb e d Hdev Hi Hd. revert x. induction fuel as [|fuel IH]; intros x HR Hoff Hn Hsz Hacc Hdst tot Htot Hf1 Hf; [lia|].
  cbn [readi_loop]. destruct (Z.ltb_spec tot n) as [Hlt|Hge].
  2: { replace tot with n by lia. exists x. split; [done|apply HR]. }
  change BSIZE with 1024 in *. pose proof (fi_size _ _ _ _ (rd_inv _ _ _ _ HR) _ Hi) as Hmax. rewrite <- Hd in Hmax.
  change (MAXFILE * BSIZE) with 274432 in Hmax. assert (HMF : MAXFILE = 268) by done.
  set (off := off0 + tot). set (bn := off / 1024). pose proof (Z.mod_pos_bound off 1024 ltac:(lia)) as Hmod.
  assert (Hbn : 0 <= bn < MAXFILE) by (unfold bn, off; Z.to_euclidean_division_equations; lia).
  assert (Hz : slot (t_view t) d bn <> 0).
  { rewrite Hd. apply (fi_hole _ _ _ _ (rd_inv _ _ _ _ HR)); [done|done|]. rewrite <- Hd. change BSIZE with 1024. unfold bn, off. Z.to_euclidean_division_equations; lia. }
  set (sm := put_pm (sink (fbytes (t_view t) d off0 tot)) s).
  destruct (bmap_hit ip bn x t sm I Hdev Hi Hd HR Hbn Hz) as (x1 & E1 & H1). change (i_d (f_inodes sm !!! ip)) with d in E1.
  rewrite (bind_ret _ _ _ _ _ E1). mstep. change (f_inodes (on x1 sm) !!! ip) with e. rewrite Hdev.
  assert (Hslot : nth_slot bn) by (unfold nth_slot; lia).
  destruct (buffer_ok x1 t (slot (t_view t) d bn) H1 (rd_clean _ _ _ _ HR)) as (b & x2 & E2 & Hb & H2 & Ed & x3 & Er & H3).
  { rewrite Hd in *. by apply (rd_home sb I x). }
  { by apply (rd_closed sb I x). }
  { apply (spare_le 1 2); [lia|apply HR]. }
  rewrite (bind_ret _ _ _ _ _ (E2 _)), (bind_ret _ _ _ _ _ (Ed _)). rewrite u32_small by lia.
  set (m := Z.min (n - tot) (1024 - off mod 1024)).
  assert (Hwf : wf_block (t_view t (slot (t_view t) d bn))).
  { rewrite Hd in *. destruct (fi_slot _ _ _ _ (rd_inv _ _ _ _ HR) _ bn Hi Hslot Hz) as [? _].
    apply (fi_wf _ _ _ _ (rd_inv _ _ _ _ HR)). pose proof (geom_order _ _ (rd_geom _ _ _ _ HR)). fold sb. lia. }
  pose proof (fbytes_block (t_view t) d off m (proj1 Hwf)) as Ebk. change BSIZE with 1024 in Ebk. fold bn in Ebk.
  rewrite Ebk by (unfold off in *; lia).
  pose proof (Hacc (fbytes (t_view t) d off0 tot) (fbytes (t_view t) d off m)) as Hcp.
  rewrite length_app, !fbytes_len, <- fbytes_app in Hcp by lia. rewrite Z2Nat.id in Hcp by lia.
  erewrite bind_ret by (apply f_copyout_ok; apply Hcp; lia).
  change (0 =? -1) with false. cbv iota.
  rewrite (bind_ret _ _ _ _ _ (Er _)).
  assert (E64 : u64 (u64 (dst0 + tot) + m) = u64 (dst0 + (tot + m))) by (unfold u64; rewrite Zplus_mod_idemp_l; f_equal; lia).
  rewrite E64, !u32_small by (unfold off in *; lia). replace (off + m) with (off0 + (tot + m)) by (unfold off; lia).
  specialize (Hf Hlt). apply IH; try done; [|lia|lia|].
  - destruct HR. by split.
  - intros Hlt'. subst m. destruct (Z.min_spec (n - tot) (1024 - off mod 1024)) as [[_ ->]|[_ ->]]; unfold off in *; Z.to_euclidean_division_equations; lia.
Qed.

(** [readi] of [n] bytes inside the file. *)
Lemma readi_ok ip user dst off n sink x t s I :
  let sb := f_sb s in let e := f_inodes s !!! ip in let d := i_d e in
  i_dev e = ROOTDEV -> ino sb (i_inum e) -> d = I (i_inum e) -> reading sb I x t ->
  0 <= off <= d_size d -> 0 <= n -> off + n < 2 ^ 32 ->
  let n' := Z.min n (d_size d - off) in
  accepts user (f_pagetable s) dst n' sink -> 0 <= dst < 2 ^ 64 ->
  exists x', readi ip user dst off n (on x (put_pm (sink []) s)) = Ret n' (on x' (put_pm (sink (fbytes (t_view t) d off n')) s)) /\ tx_rep x' t.
Proof.
  intros sb e d Hdev Hi Hd HR Hoff Hn Hov n' Hacc Hdst. unfold readi. mstep.
  change (f_inodes (on x (put_pm (sink []) s)) !!! ip) with e. fold d.
  rewrite (u32_small (off + n)) by lia. rewrite (proj2 (Z.ltb_ge (d_size d) off)), (proj2 (Z.ltb_ge (off + n) off)) by lia. cbn [orb].
  pose proof (fi_size _ _ _ _ (rd_inv _ _ _ _ HR) _ Hi) as Hmax. rewrite <- Hd in Hmax. change (MAXFILE * BSIZE) with 274432 in Hmax.
  assert (En : (if d_size d <? off + n then u32 (d_size d - off) else n) = n').
  { unfold n'. destruct (Z.ltb_spec (d_size d) (off + n)); [rewrite u32_small; lia|lia]. }
  assert (Hn' : 0 <= n' /\ off + n' <= d_size d) by (unfold n'; lia). clearbody n'.
  rewrite En. destruct (readi_loop_ok (rw_fuel n') ip user dst off n' sink x t s I) with (tot := 0) as (x' & E & H'); try done; try lia.
  - fold e. fold d. lia.
  - unfold rw_fuel. lia.
  - intros _. unfold rw_fuel. pose proof (Z.mod_pos_bound (off + 0) BSIZE ltac:(done)). change BSIZE with 1024 in *.
    Z.to_euclidean_division_equations; lia.
  - rewrite !Z.add_0_r, u64_small in E by done. exists x'. split; [|done]. rewrite (bind_ret _ _ _ _ _ E).
    unfold mret_. f_equal. apply s32_small. lia.
Qed.
End FsRead.
