(* ===== verification/FsWrite.v ===== *)
(** Writing a file: [iupdate] and [writei] of kernel/fs.c. *)

From S2P Require Import Prelude Riscv Mem Sync Kalloc Vm Sleeplock Bio DiskFmt Blocks Fs FsBlk FsBmap.

(** ** Inodes on disk *)

Definition disk_inode (sb : superblock) (v : Z -> block) (i : Z) : dinode := get_dinode (v (IBLOCK i sb)) (dinode_off i).

Lemma dinode_off_lt i : (dinode_off i + dinode_size <= 1024)%nat.
Proof. unfold dinode_off, dinode_size. change IPB with 16. pose proof (Z.mod_pos_bound i 16 ltac:(lia)). lia. Qed.

Lemma wf_put16 d o z : wf_block d -> wf_block (put16 d o z).
Proof. intros H. unfold put16. repeat (apply wf_insert || done). Qed.

Lemma wf_put_addrs d o a : wf_block d -> wf_block (put_addrs d o a).
Proof. revert d o. induction a as [|y a IH]; intros d o H; cbn [put_addrs]; [done|]. by apply IH, wf_put32. Qed.

Lemma wf_put_dinode d o y : wf_block d -> wf_block (put_dinode d o y).
Proof. intros H. unfold put_dinode. by apply wf_put_addrs, wf_put32, wf_put16, wf_put16, wf_put16, wf_put16. Qed.

(** Writing inode [i] changes no other inode. *)
Lemma disk_inode_put sb hm v i d j :
  geom sb hm -> ino sb i -> ino sb j -> wf_dinode d -> wf_block (v (IBLOCK i sb)) ->
  disk_inode sb (upd_view (IBLOCK i sb) (put_dinode (v (IBLOCK i sb)) (dinode_off i) d) v) j = if decide (j = i) then d else disk_inode sb v j.
Proof.
  intros G Hi Hj Hd [Hl _]. unfold disk_inode. case_decide as E; subst.
  - rewrite upd_view_eq. apply get_put_dinode; [done|]. rewrite Hl. apply dinode_off_lt.
  - destruct (decide (IBLOCK j sb = IBLOCK i sb)) as [Eb|Eb]; [|by rewrite upd_view_ne].
    rewrite Eb, upd_view_eq. apply get_dinode_same, put_dinode_out; [apply Hd|].
    destruct (geom_IBLOCK sb hm i G Hi) as [Ei _]. destruct (geom_IBLOCK sb hm j G Hj) as [Ej _]. rewrite Ei, Ej in Eb.
    unfold dinode_off, dinode_size. change IPB with 16 in *. Z.to_euclidean_division_equations. lia.
Qed.

Section FsWrite.
Context {LY : Layout} {WK : Wakeups} {S : Type} {B : Blocks S} {OK : BlocksOk S}.
Implicit Types (x : S) (s : fss S) (t : tx).
Abbreviation F := (M (fss S)).

Definition update_tx (sb : superblock) (i : Z) (d : dinode) (t : tx) : tx :=
  edit (IBLOCK i sb) (put_dinode (t_view t (IBLOCK i sb)) (dinode_off i) d) t.

Lemma iupdate_ok ip x t s d :
  let sb := f_sb s in let e := f_inodes s !!! ip in
  (ip < length (f_inodes s))%nat -> i_dev e = ROOTDEV -> ino sb (i_inum e) ->
  geom sb (t_home t) -> tx_rep x t -> clean t -> t_in t = true -> t_open t = ∅ -> spare 2 t ->
  exists x', iupdate ip (on x (with_d ip d s)) = Ret tt (on x' (with_d ip d s)) /\ tx_rep x' (update_tx sb (i_inum e) d t).
Proof.
  intros sb e Hip Hdev Hi G H Hc Hit Hop Hsp. unfold iupdate. mstep. mstep.
  change (f_inodes (on x ?y)) with (f_inodes y). change (f_sb (on x (with_d ip d s))) with sb. rewrite with_d_at by done. fold e.
  cbn [i_d i_dev i_inum set_d]. rewrite Hdev. pose proof (geom_order sb _ G) as Hg1. pose proof (g_data _ _ G) as Hg2. destruct (geom_IBLOCK sb _ _ G Hi) as [_ Hib].
  destruct (buffer_ok x t (IBLOCK (i_inum e) sb) H Hc) as (b & x1 & E & Hb & H1 & Ed & _).
  { apply (g_home _ _ G). lia. }
  { intros j. by rewrite Hop, lookup_empty. }
  { apply (spare_le 1 2); [lia|done]. }
  rewrite (bind_ret _ _ _ _ _ (E _)), (bind_ret _ _ _ _ _ (Ed _)).
  destruct (store_buf_ok x1 t b _ (put_dinode (t_view t (IBLOCK (i_inum e) sb)) (dinode_off (i_inum e)) d) H1 Hb Hsp Hit) as (x2 & H2 & E2 & _).
  exists x2. by rewrite E2.
Qed.

(** [iupdate] keeps the invariant. *)
Lemma inv_update sb t I X i d :
  geom sb (t_home t) -> fs_inv sb (t_view t) I X -> ino sb i -> fs_inv sb (t_view (update_tx sb i d t)) I X.
Proof.
  intros G H Hi. destruct (geom_IBLOCK sb _ _ G Hi) as [_ Hib]. pose proof (geom_order sb _ G) as Hord. pose proof (g_data _ _ G) as Hdt.
  apply (inv_view sb _ (t_view t) _ I X G H); cbn.
  - intros b Hb. apply upd_view_ne. lia.
  - intros j Hj. destruct (decide (indirect (I j) = 0)); [by left|right]. destruct (inv_indirect sb _ I X j H Hj n). apply upd_view_ne. lia.
  - intros b Hb. unfold upd_view. case_decide; [apply wf_put_dinode, (fi_wf _ _ _ _ H); lia|by apply (fi_wf _ _ _ _ H)].
Qed.

(** Writing an inode changes no file's bytes. *)
Lemma update_fbyte sb t I X i d j k :
  geom sb (t_home t) -> fs_inv sb (t_view t) I X -> ino sb i -> ino sb j -> 0 <= k < MAXFILE * BSIZE -> slot (t_view t) (I j) (k / BSIZE) <> 0 ->
  fbyte (t_view (update_tx sb i d t)) (I j) k = fbyte (t_view t) (I j) k.
Proof.
  intros G H Hi Hj Hk Hz. destruct (geom_IBLOCK sb _ _ G Hi) as [_ Hib]. pose proof (geom_order sb _ G) as Hord. pose proof (g_data _ _ G) as Hdt.
  assert (Hv : forall b, datastart sb <= b -> t_view (update_tx sb i d t) b = t_view t b) by (intros b Hb; apply upd_view_ne; lia).
  unfold fbyte. rewrite (slot_ext (t_view t)).
  - rewrite Hv; [done|]. destruct (fi_slot _ _ _ _ H j (k / BSIZE) Hj) as [Hr _]; [|done|lia].
    unfold nth_slot. change BSIZE with 1024 in *. change MAXFILE with 268 in *. Z.to_euclidean_division_equations; lia.
  - destruct (decide (indirect (I j) = 0)) as [|Hz2]; [by left|right]. destruct (inv_indirect sb _ _ X j H Hj Hz2). apply Hv. lia.
Qed.

(** ** The bytes to write *)

Definition provides (user : bool) (pt src n : Z) (data : list Z) (p : pmem) : Prop :=
  Z.of_nat (length data) = n /\ Forall (fun y => 0 <= y < 256) data /\
  forall k m, 0 <= k -> 0 <= m -> k + m <= n ->
    copyin_either user pt (u64 (src + k)) m p = Ret (0, take (Z.to_nat m) (drop (Z.to_nat k) data)) p.

Lemma kernel_provides pt p src n :
  0 <= src -> 0 <= n -> src + n < 2 ^ 64 -> provides false pt src n (bytes_at (mem p) src (Z.to_nat n)) p.
Proof.
  intros Hs Hn Hov. split; [rewrite length_bytes_at; lia|]. split.
  - apply Forall_lookup. intros k y Hk. pose proof (lookup_lt_Some _ _ _ Hk) as Hlt. rewrite length_bytes_at in Hlt.
    rewrite bytes_at_lookup in Hk by done. simplify_eq. apply load8_range.
  - intros k m Hk Hm Hkm. unfold copyin_either, get_bytes. mstep. rewrite u64_small by lia. unfold mret_. do 2 f_equal.
    apply list_eq. intros j. destruct (decide (j < Z.to_nat m)%nat) as [Hj|Hj].
    + rewrite lookup_take_lt, lookup_drop, !bytes_at_lookup by lia. do 2 f_equal. lia.
    + rewrite !lookup_ge_None_2; [done|rewrite length_take; lia|rewrite length_bytes_at; lia].
Qed.

(** ** One block *)

Lemma splice_len d o bs : (o + length bs <= length d)%nat -> length (splice d o bs) = length d.
Proof. intros H. unfold splice. rewrite !length_app, length_take, length_drop. lia. Qed.

Lemma splice_lookup d o bs k :
  (o + length bs <= length d)%nat -> (k < length d)%nat ->
  splice d o bs !!! k = if decide (o <= k < o + length bs)%nat then bs !!! (k - o)%nat else d !!! k.
Proof.
  intros H Hk. unfold splice. rewrite !list_lookup_total_alt. case_decide as E.
  - rewrite lookup_app_r by (rewrite length_take; lia). rewrite length_take, lookup_app_l by lia. do 2 f_equal. lia.
  - destruct (decide (k < o)%nat).
    + rewrite lookup_app_l by (rewrite length_take; lia). by rewrite lookup_take_lt.
    + rewrite lookup_app_r, lookup_app_r, lookup_drop by (rewrite ?length_take; lia). rewrite length_take. do 2 f_equal. lia.
Qed.

Lemma wf_splice d o bs :
  wf_block d -> (o + length bs <= 1024)%nat -> Forall (fun y => 0 <= y < 256) bs -> wf_block (splice d o bs).
Proof.
  intros [Hl HF] Ho Hb. split; [rewrite splice_len; lia|]. unfold splice. rewrite !Forall_app. split_and!; [by apply Forall_take|done|by apply Forall_drop].
Qed.

(** A block of a file is neither in the free map nor an indirect block. *)
Lemma data_block_ok sb hm v I i k :
  geom sb hm -> fs_inv sb v I ∅ -> ino sb i -> 0 <= k < MAXFILE -> slot v (I i) k <> 0 ->
  let a := slot v (I i) k in
  datastart sb <= a < sb_size sb /\ (forall j, ino sb j -> indirect (I j) <> a) /\
  (forall j l, ino sb j -> nth_slot l -> slot v (I j) l = a -> j = i /\ l = k).
Proof.
  intros G H Hi Hk Hz a. assert (Hn : nth_slot k) by (unfold nth_slot; lia).
  destruct (fi_slot _ _ _ _ H i k Hi Hn Hz) as [Hr _]. assert (Hu : forall j l, ino sb j -> nth_slot l -> slot v (I j) l = a -> j = i /\ l = k).
  { intros j l Hj Hl E. apply (fi_inj _ _ _ _ H j l i k); try done. by rewrite E. }
  split; [done|]. split; [|done]. intros j Hj E. rewrite <- (slot_indirect v) in E. apply Hu in E as [_ E]; [lia|done|done].
Qed.

Lemma edit_data_inv sb t I i k o bs :
  geom sb (t_home t) -> fs_inv sb (t_view t) I ∅ -> ino sb i -> 0 <= k < MAXFILE -> slot (t_view t) (I i) k <> 0 ->
  (o + length bs <= 1024)%nat -> Forall (fun y => 0 <= y < 256) bs ->
  let a := slot (t_view t) (I i) k in
  fs_inv sb (t_view (edit a (splice (t_view t a) o bs) t)) I ∅ /\
  forall j l, ino sb j -> slot (t_view (edit a (splice (t_view t a) o bs) t)) (I j) l = slot (t_view t) (I j) l.
Proof.
  intros G H Hi Hk Hz Ho Hb a. destruct (data_block_ok sb _ _ I i k G H Hi Hk Hz) as (Hr & Hind & _). fold a in Hr, Hind.
  pose proof (geom_order sb _ G) as Hord.
  assert (Hv : forall j, ino sb j -> t_view (edit a (splice (t_view t a) o bs) t) (indirect (I j)) = t_view t (indirect (I j))).
  { intros j Hj. cbn. apply upd_view_ne. by apply Hind. }
  split; [|intros j l Hj; apply slot_ext; right; by apply Hv].
  apply (inv_view sb _ (t_view t) _ I ∅ G H).
  - intros b Hb'. cbn. apply upd_view_ne. lia.
  - intros j Hj. right. by apply Hv.
  - intros b Hb'. cbn. unfold upd_view. case_decide; [|by apply (fi_wf _ _ _ _ H)]. apply wf_splice; [apply (fi_wf _ _ _ _ H); lia|done|done].
Qed.

(** ** The loop of [writei] *)

(** The blocks that [n] bytes from [off] on touch. *)
Definition nblocks (off n : Z) : Z := if decide (n <= 0) then 0 else (off + n - 1) / BSIZE - off / BSIZE + 1.

(** [tot] bytes of [data] have been written at [off0], from [t0], [d0] to [t], [d]. *)
Record written (sb : superblock) (I : Z -> dinode) (i off0 : Z) (data : list Z) (tot : Z) (t0 : tx) (d0 : dinode) (t : tx) (d : dinode) : Prop := {
  wr_base : t_base t = t_base t0;
  wr_open : t_open t = t_open t0;
  wr_home : t_home t = t_home t0;
  wr_pid : t_pid t = t_pid t0;
  wr_in : t_in t = t_in t0;
  wr_disk : t_disk t = t_disk t0;
  wr_clean : clean t;
  wr_log : t_log t ⊆ t_log t0 ∪ bitmaps sb ∪ ind_set d ∪ list_to_set (slot (t_view t) d <$> seqZ (off0 / BSIZE) (nblocks off0 tot));
  wr_inv : fs_inv sb (t_view t) (<[i := d]> I) ∅;
  wr_d : d = set_addrs d0 (d_addrs d);
  wr_slots : forall k, 0 <= k < MAXFILE -> slot (t_view t0) d0 k <> 0 -> slot (t_view t) d k = slot (t_view t0) d0 k;
  wr_data : forall k, off0 <= k < off0 + tot -> slot (t_view t) d (k / BSIZE) <> 0 /\ fbyte (t_view t) d k = data !!! Z.to_nat (k - off0);
  wr_old : forall k, 0 <= k < MAXFILE * BSIZE -> k < off0 \/ off0 + tot <= k -> slot (t_view t0) d0 (k / BSIZE) <> 0 ->
    fbyte (t_view t) d k = fbyte (t_view t0) d0 k;
  wr_others : forall j, ino sb j -> j <> i -> forall k, nth_slot k -> slot (t_view t) (I j) k = slot (t_view t0) (I j) k /\
    (slot (t_view t0) (I j) k <> 0 -> t_view t (slot (t_view t0) (I j) k) = t_view t0 (slot (t_view t0) (I j) k));
  wr_inodes : forall b, sb_inodestart sb <= b < sb_bmapstart sb -> t_view t b = t_view t0 b;
  wr_free : Z.of_nat (size (free_set sb (t_view t0))) <= Z.of_nat (size (free_set sb (t_view t))) + 2 * nblocks off0 tot }.

Lemma written_nil sb I i off0 data t d :
  fs_inv sb (t_view t) I ∅ -> clean t -> I i = d -> written sb I i off0 data 0 t d t d.
Proof.
  intros H Hc Hd. split; try done; try lia.
  - intros b Hb. set_solver.
  - rewrite <- Hd. by apply inv_self.
  - by destruct d.
  - unfold nblocks. rewrite decide_True by lia. lia.
Qed.

Lemma insert_twice (I : Z -> dinode) i d d' j : (<[i := d']> (<[i := d]> I)) j = (<[i := d']> I) j.
Proof. destruct (decide (j = i)) as [->|]; [by rewrite !fn_lookup_insert|by rewrite !fn_lookup_insert_ne]. Qed.

(** [bmap] changes no block but the ones it allocates and the indirect block. *)
Lemma mapped_view sb I i bn t d addr t' d' b :
  mapped sb I i bn t d addr t' d' -> datastart sb <= b -> b <> addr -> b <> indirect d' -> t_view t' b = t_view t b.
Proof.
  intros [(W & HW & HWs) _ _ _ _ _ _ _ _ _] Hb Ha Hi. apply (st_view _ _ _ HW). intros Hin. apply HWs in Hin.
  rewrite !elem_of_union, elem_bitmaps, elem_of_singleton in Hin. destruct Hin as [[Hin|Hin]|Hin]; [lia|done|].
  unfold ind_set in Hin. case_decide; set_solver.
Qed.

Section Step.
Context (sb : superblock) (I : Z -> dinode) (i bn : Z) (t : tx) (d : dinode) (addr : Z) (t1 : tx) (d1 : dinode).
Context (G : geom sb (t_home t1)) (Hi : ino sb i) (Hbn : 0 <= bn < MAXFILE) (Hm : mapped sb (<[i := d]> I) i bn t d addr t1 d1).
Context (Hinv0 : fs_inv sb (t_view t) (<[i := d]> I) ∅).
Context (o : nat) (bs : list Z) (Ho : (o + length bs <= 1024)%nat) (Hbs : Forall (fun y => 0 <= y < 256) bs).
Let t2 := edit addr (splice (t_view t1 addr) o bs) t1.

Lemma step_inv1 : fs_inv sb (t_view t1) (<[i := d1]> I) ∅.
Proof. eapply inv_ext; [|apply (mp_inv _ _ _ _ _ _ _ _ _ Hm)]. intros j _. by rewrite insert_twice. Qed.

Lemma step_addr : slot (t_view t1) ((<[i := d1]> I) i) bn = addr.
Proof. rewrite fn_lookup_insert. apply Hm. Qed.

Lemma step_edit : fs_inv sb (t_view t2) (<[i := d1]> I) ∅ /\
  forall j l, ino sb j -> slot (t_view t2) ((<[i := d1]> I) j) l = slot (t_view t1) ((<[i := d1]> I) j) l.
Proof.
  pose proof (edit_data_inv sb t1 (<[i := d1]> I) i bn o bs G step_inv1 Hi Hbn) as H. rewrite step_addr in H.
  apply H; [apply Hm|done|done].
Qed.

Lemma step_slot k : slot (t_view t2) d1 k = slot (t_view t1) d1 k.
Proof. pose proof (proj2 step_edit i k Hi) as H. by rewrite fn_lookup_insert in H. Qed.

(** Blocks of this file other than entry [bn], and of other files. *)
Lemma step_other j k :
  ino sb j -> nth_slot k -> (j <> i \/ (k <> bn /\ k <> MAXFILE)) -> slot (t_view t1) ((<[i := d1]> I) j) k <> 0 ->
  t_view t2 (slot (t_view t1) ((<[i := d1]> I) j) k) = t_view t (slot (t_view t1) ((<[i := d1]> I) j) k).
Proof.
  intros Hj Hk Hne Hz. set (b := slot _ _ k) in *. pose proof step_inv1 as H1.
  destruct (fi_slot _ _ _ _ H1 j k Hj Hk Hz) as [Hr _]. fold b in Hr.
  assert (Hba : b <> addr).
  { intros E. rewrite <- step_addr in E. destruct (fi_inj _ _ _ _ H1 j k i bn Hj Hk Hi) as [-> ->]; [unfold nth_slot; lia|done|done|]. naive_solver. }
  assert (Hbi : b <> indirect d1).
  { intros E. destruct (fi_inj _ _ _ _ H1 j k i MAXFILE Hj Hk Hi) as [-> ->]; [done|by rewrite slot_indirect, fn_lookup_insert|done|]. naive_solver. }
  cbn. rewrite upd_view_ne by done. eapply mapped_view; [exact Hm|lia|done|done].
Qed.

Lemma step_slot_j j k : ino sb j -> j <> i -> slot (t_view t2) (I j) k = slot (t_view t) (I j) k.
Proof.
  intros Hj Hne. apply slot_ext. destruct (decide (indirect (I j) = 0)) as [|Hz]; [by left|right].
  pose proof (step_other j MAXFILE Hj ltac:(done) (or_introl Hne)) as H. rewrite slot_indirect, fn_lookup_insert_ne in H by done. by apply H.
Qed.

Lemma step_view_j j k :
  ino sb j -> j <> i -> nth_slot k -> slot (t_view t) (I j) k <> 0 ->
  t_view t2 (slot (t_view t) (I j) k) = t_view t (slot (t_view t) (I j) k).
Proof.
  intros Hj Hne Hk Hz. pose proof (step_other j k Hj Hk (or_introl Hne)) as H. pose proof (proj2 step_edit j k Hj) as E.
  rewrite fn_lookup_insert_ne in H, E by done. rewrite <- E, step_slot_j in H by done. by apply H.
Qed.

(** The other entries of the file. *)
Lemma step_old k :
  0 <= k < MAXFILE -> k <> bn -> slot (t_view t) d k <> 0 ->
  slot (t_view t2) d1 k = slot (t_view t) d k /\ t_view t2 (slot (t_view t) d k) = t_view t (slot (t_view t) d k).
Proof.
  intros Hk Hne Hz. pose proof (mp_slots _ _ _ _ _ _ _ _ _ Hm k Hk Hne) as E. split; [by rewrite step_slot|].
  assert (Hn : nth_slot k) by (unfold nth_slot; lia). assert (HkM : k <> MAXFILE) by lia.
  pose proof (step_other i k Hi Hn (or_intror (conj Hne HkM))) as H. rewrite fn_lookup_insert, E in H. by apply H.
Qed.

Lemma step_free : free_set sb (t_view t2) = free_set sb (t_view t1).
Proof.
  apply (free_set_ext sb _ _ _ G). intros b Hb. cbn. apply upd_view_ne. pose proof step_addr as E.
  destruct (fi_slot _ _ _ _ step_inv1 i bn Hi) as [Hr _]; [unfold nth_slot; lia|rewrite E; apply Hm|]. rewrite E in Hr. lia.
Qed.

(** The inode blocks stay as they are. *)
Lemma step_inodes b : sb_inodestart sb <= b < sb_bmapstart sb -> t_view t2 b = t_view t b.
Proof.
  intros Hb. pose proof (geom_order sb _ G) as Hord. pose proof (g_data _ _ G) as Hdt. pose proof step_inv1 as H1.
  destruct (fi_slot _ _ _ _ H1 i bn Hi) as [Ha _]; [unfold nth_slot; lia|rewrite step_addr; apply Hm|]. rewrite step_addr in Ha.
  cbn. rewrite upd_view_ne by lia. destruct (mp_steps _ _ _ _ _ _ _ _ _ Hm) as (W & HW & HWs). apply (st_view _ _ _ HW). intros Hin. apply HWs in Hin.
  rewrite !elem_of_union, elem_bitmaps, elem_of_singleton in Hin. destruct Hin as [[Hin|Hin]|Hin]; [lia|lia|].
  unfold ind_set in Hin. case_decide as Hz; [set_solver|]. apply elem_of_singleton in Hin. subst b.
  destruct (inv_indirect sb _ _ _ i H1 Hi) as [Hr _]; rewrite fn_lookup_insert in *; [done|lia].
Qed.
End Step.

Lemma nblocks_step off0 tot m :
  0 <= off0 -> 0 <= tot -> 0 < m -> tot = 0 \/ (off0 + tot) mod BSIZE = 0 -> (off0 + tot) mod BSIZE + m <= BSIZE ->
  nblocks off0 (tot + m) = nblocks off0 tot + 1 /\ off0 / BSIZE + nblocks off0 tot = (off0 + tot) / BSIZE.
Proof.
  intros H1 H2 H3 H4 H5. unfold nblocks. change BSIZE with 1024 in *. rewrite (decide_False (P := tot + m <= 0)) by lia.
  case_decide; Z.to_euclidean_division_equations; lia.
Qed.

Lemma write_step sb I i off0 data tot m t0 d0 t d addr t1 d1 :
  let off := off0 + tot in let bs := take (Z.to_nat m) (drop (Z.to_nat tot) data) in
  geom sb (t_home t0) -> ino sb i -> 0 <= off0 -> 0 <= tot -> 0 < m -> tot + m <= Z.of_nat (length data) ->
  Forall (fun y => 0 <= y < 256) data -> tot = 0 \/ off mod BSIZE = 0 -> off mod BSIZE + m <= BSIZE -> off + m <= MAXFILE * BSIZE ->
  written sb I i off0 data tot t0 d0 t d -> mapped sb (<[i := d]> I) i (off / BSIZE) t d addr t1 d1 ->
  written sb I i off0 data (tot + m) t0 d0 (edit addr (splice (t_view t1 addr) (Z.to_nat (off mod BSIZE)) bs) t1) d1.
Proof.
  intros off bs G0 Hi Hoff0 Htot Hm0 Hlen HF Hal Hfit Hmax HW Hmp. pose proof HW as [Wb Wo Wh Wp Wi Wdk Wc Wl Winv Wd Ws Wda Wold Woth Win Wfr].
  destruct (nblocks_step off0 tot m Hoff0 Htot Hm0 Hal Hfit) as [Hnb Hnb0]. fold off in Hnb0.
  pose proof (mp_steps _ _ _ _ _ _ _ _ _ Hmp) as (W & Hst & HWs).
  assert (G : geom sb (t_home t1)) by (rewrite (st_home _ _ _ Hst), Wh; done).
  assert (HM : MAXFILE = 268) by done. assert (HB : BSIZE = 1024) by done.
  assert (Hbl : length bs = Z.to_nat m) by (unfold bs; rewrite length_take, length_drop; lia).
  pose proof (Z.mod_pos_bound off BSIZE ltac:(lia)) as Hmod.
  set (bn := off / BSIZE) in *. assert (Hbn : 0 <= bn < MAXFILE) by (unfold bn, off in *; rewrite HB in *; Z.to_euclidean_division_equations; lia).
  assert (Ho : (Z.to_nat (off mod BSIZE) + length bs <= 1024)%nat) by lia.
  assert (Hbs : Forall (fun y => 0 <= y < 256) bs) by (by apply Forall_take, Forall_drop).
  set (o := Z.to_nat (off mod BSIZE)) in *. set (t2 := edit addr (splice (t_view t1 addr) o bs) t1).
  pose proof (step_inv1 sb I i bn t d addr t1 d1 Hmp) as Hinv1.
  pose proof (step_edit sb I i bn t d addr t1 d1 G Hi Hbn Hmp o bs Ho Hbs) as [Hinv2 _]. fold t2 in Hinv2.
  pose proof (step_slot sb I i bn t d addr t1 d1 G Hi Hbn Hmp o bs Ho Hbs) as Hsl. fold t2 in Hsl.
  pose proof (step_old sb I i bn t d addr t1 d1 G Hi Hbn Hmp o bs Ho Hbs) as Hold. fold t2 in Hold.
  assert (Hnew : slot (t_view t2) d1 bn = addr) by (rewrite Hsl; apply Hmp).
  assert (Hwa : length (t_view t1 addr) = 1024%nat).
  { apply (fi_wf _ _ _ _ Hinv1). destruct (fi_slot _ _ _ _ Hinv1 i bn Hi) as [Hr _]; [unfold nth_slot; lia|rewrite fn_lookup_insert, (mp_addr _ _ _ _ _ _ _ _ _ Hmp); apply Hmp|].
    rewrite fn_lookup_insert, (mp_addr _ _ _ _ _ _ _ _ _ Hmp) in Hr. pose proof (geom_order sb _ G). lia. }
  assert (Hbyte : forall k, k / BSIZE = bn -> fbyte (t_view t2) d1 k =
     if decide (off <= k < off + m) then data !!! Z.to_nat (k - off0) else t_view t1 addr !!! Z.to_nat (k mod BSIZE)).
  { intros k Hk. unfold fbyte. rewrite Hk, Hnew. cbn. rewrite upd_view_eq. pose proof (Z.mod_pos_bound k BSIZE ltac:(lia)).
    rewrite splice_lookup by lia. rewrite (decide_ext _ (off <= k < off + m)).
    2: { subst o. rewrite Hbl. unfold bn in Hk. rewrite HB in *. Z.to_euclidean_division_equations. lia. }
    case_decide as Hin; [|done]. unfold bs. rewrite !list_lookup_total_alt, lookup_take_lt, lookup_drop; [|subst o; unfold bn in Hk; rewrite HB in *; Z.to_euclidean_division_equations; lia].
    do 2 f_equal. subst o. unfold bn in Hk. rewrite HB in *. unfold off in *. Z.to_euclidean_division_equations. lia. }
  split; try (cbn; rewrite ?(st_base _ _ _ Hst), ?(st_open _ _ _ Hst), ?(st_home _ _ _ Hst), ?(st_pid _ _ _ Hst), ?(st_in _ _ _ Hst), ?(st_disk _ _ _ Hst); done).
  - apply clean_edit, Hst.
  - assert (Hsub : forall k, k ∈ seqZ (off0 / BSIZE) (nblocks off0 (tot + m)) ->
      slot (t_view t2) d1 k ∈ (list_to_set (slot (t_view t2) d1 <$> seqZ (off0 / BSIZE) (nblocks off0 (tot + m))) : gset Z)).
    { intros k Hk. apply elem_of_list_to_set, list_elem_of_fmap. by exists k. }
    assert (Hia : addr ∈ (list_to_set (slot (t_view t2) d1 <$> seqZ (off0 / BSIZE) (nblocks off0 (tot + m))) : gset Z)).
    { rewrite <- Hnew. apply Hsub, elem_of_seqZ. assert (0 <= nblocks off0 tot) by (unfold nblocks; case_decide; [lia|]; rewrite HB; Z.to_euclidean_division_equations; lia). lia. }
    intros b Hb. cbn in Hb. rewrite (st_log _ _ _ Hst), !elem_of_union, elem_of_singleton in Hb. destruct Hb as [->|[Hb|Hb]]; [set_solver|apply HWs in Hb; set_solver|].
    apply Wl in Hb. rewrite !elem_of_union in Hb. destruct Hb as [[Hb|Hb]|Hb]; [set_solver|..].
    + assert (Hss : ind_set d ⊆ ind_set d1); [|clear -Hb Hss; set_solver]. clear Hb. unfold ind_set. destruct (decide (indirect d = 0)) as [|Hz]; [set_solver|].
      rewrite (mp_ind _ _ _ _ _ _ _ _ _ Hmp Hz). by rewrite decide_False.
    + apply elem_of_list_to_set, list_elem_of_fmap in Hb as (k & -> & Hk). apply elem_of_seqZ in Hk.
      rewrite <- (mp_slots _ _ _ _ _ _ _ _ _ Hmp k), <- Hsl; [|rewrite HB in *; Z.to_euclidean_division_equations; lia|lia].
      apply elem_of_union_r, Hsub, elem_of_seqZ. lia.
  - rewrite (mp_d _ _ _ _ _ _ _ _ _ Hmp), Wd. done.
  - intros k Hk Hz. pose proof (Ws k Hk Hz) as E0. rewrite <- E0 in Hz |- *. destruct (decide (k = bn)) as [->|Hne]; [|by apply Hold].
    destruct (mp_same _ _ _ _ _ _ _ _ _ Hmp Hz) as [-> ->]. rewrite Hnew. symmetry. apply Hmp.
  - intros k Hk. destruct (decide (k / BSIZE = bn)) as [Hkb|Hkb].
    + rewrite Hkb, Hnew, (Hbyte k Hkb). split; [apply Hmp|]. destruct (decide (off <= k < off + m)) as [|Hn]; [done|].
      exfalso. unfold bn, off in *. rewrite HB in *. destruct Hal; Z.to_euclidean_division_equations; lia.
    + assert (Hk2 : off0 <= k < off0 + tot) by (unfold bn, off in *; rewrite HB in *; Z.to_euclidean_division_equations; lia).
      destruct (Wda k Hk2) as [Hz E]. destruct (Hold (k / BSIZE)) as [E1 E2]; [unfold off in *; rewrite HB in *; Z.to_euclidean_division_equations; lia|done|done|].
      rewrite E1. split; [done|]. rewrite <- E. unfold fbyte. by rewrite E1, E2.
  - intros k Hk Hout Hz. assert (Hkr : 0 <= k / BSIZE < MAXFILE) by (rewrite HB in *; Z.to_euclidean_division_equations; lia).
    rewrite <- (Wold k Hk) by (done || lia). rewrite <- (Ws _ Hkr Hz) in Hz. destruct (decide (k / BSIZE = bn)) as [Hkb|Hkb].
    + rewrite (Hbyte k Hkb). rewrite decide_False by (unfold off; lia). rewrite Hkb in Hz.
      destruct (mp_same _ _ _ _ _ _ _ _ _ Hmp Hz) as [-> ->]. unfold fbyte. by rewrite Hkb, (mp_addr _ _ _ _ _ _ _ _ _ Hmp).
    + destruct (Hold (k / BSIZE) Hkr Hkb Hz) as [E1 E2]. unfold fbyte. by rewrite E1, E2.
  - intros j Hj Hne k Hk. destruct (Woth j Hj Hne k Hk) as [E1 E2].
    assert (Esj : slot (t_view t2) (I j) k = slot (t_view t) (I j) k) by (eapply (step_slot_j sb I i bn t d addr t1 d1); eassumption). rewrite Esj. split; [done|]. intros Hz. rewrite <- (E2 Hz). rewrite <- E1 in Hz |- *.
    eapply (step_view_j sb I i bn t d addr t1 d1); eassumption.
  - intros b Hb. rewrite <- (Win b Hb). eapply (step_inodes sb I i bn t d addr t1 d1); eassumption.
  - assert (Ef : free_set sb (t_view t2) = free_set sb (t_view t1)) by (eapply (step_free sb I i bn t d addr t1 d1); eassumption). rewrite Ef. pose proof (mp_free _ _ _ _ _ _ _ _ _ Hmp). lia.
Qed.

Lemma nblocks_bounds off n : 0 <= off -> 0 <= n -> 0 <= nblocks off n.
Proof. intros. unfold nblocks. change BSIZE with 1024. case_decide; [lia|]. Z.to_euclidean_division_equations; lia. Qed.

Lemma nblocks_mono off n n' : 0 <= off -> 0 <= n <= n' -> nblocks off n <= nblocks off n'.
Proof. intros. unfold nblocks. change BSIZE with 1024. repeat case_decide; try lia; Z.to_euclidean_division_equations; lia. Qed.

Lemma size_bitmaps sb hm : geom sb hm -> Z.of_nat (size (bitmaps sb)) <= sb_size sb / BPB + 1.
Proof.
  intros G. unfold bitmaps. etrans; [apply inj_le, size_list_to_set_le|]. rewrite length_seqZ. pose proof (g_size _ _ G). pose proof (geom_order _ _ G).
  pose proof (g_data _ _ G). change BPB with 8192. Z.to_euclidean_division_equations; lia.
Qed.

(** How much the transaction has grown. *)
Lemma written_size sb I i off0 data tot t0 d0 t d :
  geom sb (t_home t0) -> 0 <= off0 -> 0 <= tot -> written sb I i off0 data tot t0 d0 t d ->
  Z.of_nat (size (t_log t)) <= Z.of_nat (size (t_log t0)) + (sb_size sb / BPB + 1) + 1 + nblocks off0 tot.
Proof.
  intros G Hoff Htot HW. pose proof (subseteq_size _ _ (wr_log _ _ _ _ _ _ _ _ _ _ HW)) as Hs. revert Hs.
  set (X := list_to_set _). assert (HX : (size X <= Z.to_nat (nblocks off0 tot))%nat).
  { unfold X. etrans; [apply size_list_to_set_le|]. by rewrite length_fmap, length_seqZ. }
  assert (Hi : (size (ind_set d) <= 1)%nat) by (unfold ind_set; case_decide; [by rewrite size_empty; lia|by rewrite size_singleton]).
  pose proof (size_bitmaps sb _ G). pose proof (nblocks_bounds off0 tot Hoff Htot).
  pose proof (size_union_le (t_log t0 ∪ bitmaps sb ∪ ind_set d) X). pose proof (size_union_le (t_log t0 ∪ bitmaps sb) (ind_set d)).
  pose proof (size_union_le (t_log t0) (bitmaps sb)). lia.
Qed.

Lemma f_copyin_ok user pt src m p bs r x s :
  f_pm s = p -> f_pagetable s = pt -> copyin_either user pt src m p = Ret (r, bs) p -> f_copyin user src m (on x s) = Ret (r, bs) (on x s).
Proof.
  intros <- <- E. unfold f_copyin. mstep. change (f_pagetable (on x s)) with (f_pagetable s). unfold zoom.
  change (lget (on x s)) with (f_pm s). rewrite E. cbn. by destruct s.
Qed.

(** What [writei] needs. *)
Record can_write (sb : superblock) (off n : Z) (t : tx) : Prop := {
  cw_open : t_open t = ∅;
  cw_room : Z.of_nat (size (t_log t)) + (sb_size sb / BPB + 1) + 1 + nblocks off n + 6 <= 29;
  cw_free : 2 * nblocks off n <= Z.of_nat (size (free_set sb (t_view t))) }.

Lemma writei_loop_ok fuel ip user src0 off0 n data t0 d0 s I :
  let sb := f_sb s in let e := f_inodes s !!! ip in let i := i_inum e in
  (ip < length (f_inodes s))%nat -> i_dev e = ROOTDEV -> ino sb i -> d_type d0 <> 0 -> geom sb (t_home t0) -> t_in t0 = true ->
  can_write sb off0 n t0 -> 0 <= off0 -> 0 <= n -> off0 + n <= MAXFILE * BSIZE -> 0 <= src0 ->
  provides user (f_pagetable s) src0 n data (f_pm s) ->
  forall tot x t d, 0 <= tot <= n -> tot = 0 \/ (off0 + tot) mod BSIZE = 0 \/ tot = n ->
  tx_rep x t -> written sb I i off0 data tot t0 d0 t d -> (1 <= fuel)%nat ->
  (tot < n -> (Z.to_nat ((n - tot + (off0 + tot) mod BSIZE - 1) / BSIZE) + 2 <= fuel)%nat) ->
  exists x' t' d', writei_loop fuel ip user (u64 (src0 + tot)) (off0 + tot) n tot (on x (with_d ip d s)) =
      Ret (off0 + n) (on x' (with_d ip d' s)) /\ tx_rep x' t' /\ written sb I i off0 data n t0 d0 t' d'.
Proof.
  intros sb e i Hip Hdev Hi Hty G Hit [Cop Croom Cfree] Hoff Hn Hmax Hsrc [Hdl [HdF Hprov]].
  induction fuel as [|fuel IH]; intros tot x t d Htot Hal H HW Hf1 Hf; [lia|]. cbn [writei_loop].
  destruct (Z.ltb_spec tot n) as [Hlt|Hge]; [|replace tot with n in * by lia; by exists x, t, d].
  specialize (Hf Hlt). assert (HB : BSIZE = 1024) by done. assert (HM : MAXFILE = 268) by done.
  set (off := off0 + tot) in *. pose proof (Z.mod_pos_bound off BSIZE ltac:(lia)) as Hmod.
  set (m := Z.min (n - tot) (BSIZE - off mod BSIZE)). assert (Hm : 0 < m /\ tot + m <= n /\ off mod BSIZE + m <= BSIZE) by (unfold m; lia).
  assert (Hal' : tot = 0 \/ off mod BSIZE = 0) by (destruct Hal as [|[|]]; [by left|by right|lia]).
  destruct (nblocks_step off0 tot m Hoff (proj1 Htot)) as [Hnb _]; [lia|done|fold off; lia|].
  pose proof (nblocks_mono off0 (tot + m) n Hoff ltac:(lia)) as Hmono.
  pose proof (written_size _ _ _ _ _ _ _ _ _ _ G Hoff (proj1 Htot) HW) as Hsz. pose proof (wr_free _ _ _ _ _ _ _ _ _ _ HW) as Hfr.
  assert (Hopt : t_open t = ∅) by (rewrite (wr_open _ _ _ _ _ _ _ _ _ _ HW); done).
  destruct (bmap_ok ip (off / BSIZE) x t s (<[i := d]> I) d Hip Hdev) as (addr & x1 & t1 & d1 & E1 & H1 & Hmp).
  { split; [rewrite (wr_home _ _ _ _ _ _ _ _ _ _ HW); done|done|apply HW|rewrite (wr_in _ _ _ _ _ _ _ _ _ _ HW); done|apply HW]. }
  { done. }
  { by rewrite fn_lookup_insert. }
  { rewrite (wr_d _ _ _ _ _ _ _ _ _ _ HW). done. }
  { done. }
  { unfold spare. rewrite Hopt, map_size_empty. lia. }
  { unfold off in *. rewrite HB, HM in *. Z.to_euclidean_division_equations; lia. }
  { fold sb. lia. }
  fold sb e i in Hmp. rewrite (bind_ret _ _ _ _ _ E1). mstep. change (f_inodes (on x1 ?y)) with (f_inodes y). rewrite with_d_at by done. fold e.
  cbn [i_dev set_d]. rewrite Hdev.
  assert (HW2 : written sb I i off0 data (tot + m) t0 d0
    (edit addr (splice (t_view t1 addr) (Z.to_nat (off mod BSIZE)) (take (Z.to_nat m) (drop (Z.to_nat tot) data))) t1) d1)
    by (apply (write_step sb I i off0 data tot m t0 d0 t d addr t1 d1); try done; unfold off in *; lia). pose proof (mp_steps _ _ _ _ _ _ _ _ _ Hmp) as (W & Hst & HWs).
  assert (Hha : t_home t1 addr).
  { pose proof (step_inv1 sb I i _ t d addr t1 d1 Hmp) as Hinv1. pose proof (step_addr sb I i _ t d addr t1 d1 Hmp) as Ea.
    destruct (fi_slot _ _ _ _ Hinv1 i (off / BSIZE) Hi) as [Hr _]; [unfold nth_slot, off in *; rewrite HB, HM in *; Z.to_euclidean_division_equations; lia|rewrite Ea; apply Hmp|].
    rewrite Ea in Hr. rewrite (st_home _ _ _ Hst), (wr_home _ _ _ _ _ _ _ _ _ _ HW). apply (g_home _ _ G). pose proof (geom_order _ _ G). lia. }
  assert (Hsp1 : spare 2 t1).
  { unfold spare. rewrite (st_open _ _ _ Hst), Hopt, map_size_empty. assert (Htm : 0 <= tot + m) by lia.
    pose proof (written_size _ _ _ _ _ _ _ _ _ _ G Hoff Htm HW2) as Hs2. cbn in Hs2.
    pose proof (subseteq_size (t_log t1) ({[addr]} ∪ t_log t1) ltac:(set_solver)). lia. }
  destruct (buffer_ok x1 t1 addr H1 (st_clean _ _ _ Hst) Hha) as (b & x2 & E2 & Hb & H2 & Ed & _).
  { intros j. rewrite (st_open _ _ _ Hst), Hopt, lookup_empty. done. }
  { by apply (spare_le 1 2); [lia|]. }
  rewrite (bind_ret _ _ _ _ _ (E2 _)). rewrite u32_small by lia. fold m.
  erewrite bind_ret by (eapply f_copyin_ok; [reflexivity|reflexivity|]; apply (Hprov tot m); lia).
  cbv beta iota. rewrite (bind_ret _ _ _ _ _ (Ed _)). change (0 =? -1) with false. cbv iota.
  destruct (store_buf_ok x2 t1 b addr (splice (t_view t1 addr) (Z.to_nat (off mod BSIZE)) (take (Z.to_nat m) (drop (Z.to_nat tot) data))) H2 Hb Hsp1)
    as (x3 & H3 & _ & E3).
  { rewrite (st_in _ _ _ Hst), (wr_in _ _ _ _ _ _ _ _ _ _ HW). done. }
  rewrite E3. assert (E64 : u64 (u64 (src0 + tot) + m) = u64 (src0 + (tot + m))) by (unfold u64; rewrite Zplus_mod_idemp_l; f_equal; lia).
  rewrite E64, !u32_small by (unfold off in *; rewrite HM, HB in *; lia). replace (off + m) with (off0 + (tot + m)) by (unfold off; lia).
  eapply IH; [lia| |exact H3|exact HW2|lia|].
  - right. unfold m, off in *. rewrite HB in *. destruct (Z.min_spec (n - tot) (1024 - (off0 + tot) mod 1024)) as [[_ ->]|[_ ->]]; [right; lia|left].
    Z.to_euclidean_division_equations; lia.
  - intros Hlt'. unfold m, off in *. rewrite HB in *. destruct (Z.min_spec (n - tot) (1024 - (off0 + tot) mod 1024)) as [[_ ->]|[_ ->]]; Z.to_euclidean_division_equations; lia.
Qed.

(** ** The size of the file *)

Lemma slot_size v d n k : slot v (set_size d n) k = slot v d k.
Proof. done. Qed.

Lemma inv_size sb v I X i d n :
  fs_inv sb v (<[i := d]> I) X -> ino sb i -> 0 <= n <= MAXFILE * BSIZE ->
  (forall k, 0 <= k < MAXFILE -> k * BSIZE < n -> slot v d k <> 0) -> fs_inv sb v (<[i := set_size d n]> I) X.
Proof.
  intros H Hi Hn Hh. destruct H as [Fwf Fmeta Flen Fslot Finj Floose Fused Fsize Fhole Ffree].
  assert (E : forall j, ino sb j -> (<[i := set_size d n]> I) j = if decide (j = i) then set_size d n else (<[i := d]> I) j).
  { intros j _. case_decide as Eji; [rewrite Eji; by rewrite fn_lookup_insert|by rewrite !fn_lookup_insert_ne]. }
  assert (Es : forall j k, ino sb j -> slot v ((<[i := set_size d n]> I) j) k = slot v ((<[i := d]> I) j) k).
  { intros j k Hj. rewrite E by done. case_decide as Eji; [rewrite Eji|done]. by rewrite fn_lookup_insert. }
  split; try done.
  - intros j Hj. rewrite E by done. case_decide as Eji; [rewrite Eji in *; specialize (Flen i Hi); by rewrite fn_lookup_insert in Flen|by apply Flen].
  - intros j k Hj. rewrite Es by done. by apply Fslot.
  - intros j k l m Hj Hk Hl Hm. rewrite !Es by done. by apply Finj.
  - intros b Hb. destruct (Floose b Hb) as (? & ? & Hl). split_and!; try done; try lia. intros j k Hj. rewrite Es by done. by apply Hl.
  - intros b Hb Hu. destruct (Fused b Hb Hu) as [?|(j & k & Hj & Hk & Ej)]; [by left|]. right. exists j, k. by rewrite Es.
  - intros j Hj. rewrite E by done. case_decide; [done|by apply Fsize].
  - intros j k Hj Hk. rewrite Es by done. rewrite E by done. case_decide as Eji; [rewrite Eji|by apply Fhole]. cbn. rewrite fn_lookup_insert. by apply Hh.
  - intros j k Hj Hk. rewrite Es by done. rewrite E by done. case_decide as Eji; [rewrite Eji|by apply Ffree]. cbn.
    specialize (Ffree i k Hi Hk). by rewrite fn_lookup_insert in *.
Qed.

(** The addresses in an inode are block numbers. *)
Lemma inv_addrs sb hm v I X i : geom sb hm -> fs_inv sb v I X -> ino sb i -> Forall (fun a => 0 <= a < 2 ^ 32) (d_addrs (I i)).
Proof.
  intros G H Hi. apply Forall_lookup. intros k a Hk. pose proof (fi_len _ _ _ _ H i Hi) as Hl. pose proof (lookup_lt_Some _ _ _ Hk) as Hlt.
  pose proof (g_size _ _ G) as Hgs. pose proof (geom_order _ _ G) as Hgo. apply list_lookup_total_correct in Hk.
  assert (Hs : exists j, nth_slot j /\ slot v (I i) j = a).
  { destruct (decide (k = 12)%nat) as [->|]; [exists MAXFILE; split; [done|by rewrite slot_indirect]|].
    exists (Z.of_nat k). assert (NDIRECT = 12) by done. assert (MAXFILE = 268) by done.
    split; [unfold nth_slot; lia|]. rewrite slot_direct by lia. by rewrite Nat2Z.id. }
  destruct Hs as (j & Hj & Es). destruct (decide (a = 0)) as [->|Hz]; [lia|]. rewrite <- Es in Hz. destruct (fi_slot _ _ _ _ H i j Hi Hj Hz) as [Hr _]. lia.
Qed.

(** A file after [data] has been written at [off]. *)
Record file_wrote (sb : superblock) (I : Z -> dinode) (i off : Z) (data : list Z) (t0 t : tx) (d : dinode) : Prop := {
  fw_open : t_open t = t_open t0;
  fw_home : t_home t = t_home t0;
  fw_base : t_base t = t_base t0;
  fw_pid : t_pid t = t_pid t0;
  fw_in : t_in t = t_in t0;
  fw_dsk : t_disk t = t_disk t0;
  fw_clean : clean t;
  fw_inv : fs_inv sb (t_view t) (<[i := d]> I) ∅;
  fw_disk : disk_inode sb (t_view t) i = d;
  fw_disk_other : forall j, ino sb j -> j <> i -> disk_inode sb (t_view t) j = disk_inode sb (t_view t0) j;
  fw_d : d = set_size (set_addrs (I i) (d_addrs d)) (Z.max (d_size (I i)) (off + Z.of_nat (length data)));
  fw_bytes : forall k, 0 <= k < d_size d -> fbyte (t_view t) d k =
    if decide (off <= k < off + Z.of_nat (length data)) then data !!! Z.to_nat (k - off) else fbyte (t_view t0) (I i) k;
  fw_other : forall j k, ino sb j -> j <> i -> 0 <= k < d_size (I j) -> fbyte (t_view t) (I j) k = fbyte (t_view t0) (I j) k;
  fw_log : Z.of_nat (size (t_log t)) <= Z.of_nat (size (t_log t0)) + (sb_size sb / BPB + 1) + 2 + nblocks off (Z.of_nat (length data));
  fw_free : Z.of_nat (size (free_set sb (t_view t0))) <= Z.of_nat (size (free_set sb (t_view t))) + 2 * nblocks off (Z.of_nat (length data)) }.

(** The end of [writei], after its loop: the size, and the inode written back. *)
Section Done.
Context (sb : superblock) (I : Z -> dinode) (i off : Z) (data : list Z) (t0 t : tx) (d : dinode).
Let n := Z.of_nat (length data).
Let d' := set_size d (Z.max (d_size (I i)) (off + n)).
Let t' := update_tx sb i d' t.
Context (G : geom sb (t_home t0)) (Hi : ino sb i) (Hwf : wf_dinode (I i)) (Hinv0 : fs_inv sb (t_view t0) I ∅).
Context (Hoff : 0 <= off <= d_size (I i)) (Hmax : off + n <= MAXFILE * BSIZE) (HW : written sb I i off data n t0 (I i) t d).

Lemma done_geom : geom sb (t_home t).
Proof. rewrite (wr_home _ _ _ _ _ _ _ _ _ _ HW). done. Qed.

Lemma done_inv1 : fs_inv sb (t_view t) (<[i := d']> I) ∅.
Proof.
  pose proof (fi_size _ _ _ _ Hinv0 i Hi) as Hsz. assert (HB : BSIZE = 1024) by done. destruct HW as [_ _ _ _ _ _ _ _ Winv _ Ws Wda _ _ _ _].
  apply (inv_size sb _ I ∅ i d); [done|done|lia|]. intros k Hk Hlt. destruct (decide (k * BSIZE < d_size (I i))) as [Hk2|Hk2].
  - rewrite (Ws k Hk); by apply (fi_hole _ _ _ _ Hinv0).
  - destruct (Wda (Z.max (k * BSIZE) off)) as [Hz _]; [lia|]. revert Hz.
    replace (Z.max (k * BSIZE) off / BSIZE) with k; [done|]. rewrite HB in *. Z.to_euclidean_division_equations; lia.
Qed.

Lemma done_wf : wf_dinode d'.
Proof.
  pose proof (fi_size _ _ _ _ Hinv0 i Hi) as Hsz. assert (HB : BSIZE = 1024) by done. assert (HM : MAXFILE = 268) by done.
  pose proof done_inv1 as H1. destruct HW as [_ _ _ _ _ _ _ _ Winv Wd _ _ _ _ _ _]. unfold d'. rewrite Wd. destruct Hwf. split; cbn; try done; try lia.
  - pose proof (fi_len _ _ _ _ H1 i Hi) as Hl. by rewrite fn_lookup_insert in Hl.
  - pose proof (inv_addrs sb _ _ _ _ i done_geom H1 Hi) as Ha. by rewrite fn_lookup_insert in Ha.
Qed.

Lemma done_view b : b <> IBLOCK i sb -> t_view t' b = t_view t b.
Proof. apply upd_view_ne. Qed.

Lemma done_fbyte j e k :
  ino sb j -> e = (<[i := d']> I) j -> 0 <= k < MAXFILE * BSIZE -> slot (t_view t) e (k / BSIZE) <> 0 -> fbyte (t_view t') e k = fbyte (t_view t) e k.
Proof. intros Hj -> Hk Hz. by apply (update_fbyte sb t _ ∅ i d' j k done_geom done_inv1). Qed.

Lemma written_done : file_wrote sb I i off data t0 t' d'.
Proof.
  pose proof done_inv1 as H1. pose proof (inv_update sb t _ ∅ i d' done_geom H1 Hi) as H2. pose proof done_wf as Hwd. pose proof done_fbyte as Hfb.
  pose proof (fi_size _ _ _ _ Hinv0 i Hi) as Hsz. assert (HB : BSIZE = 1024) by done. assert (HM : MAXFILE = 268) by done.
  pose proof HW as [Wb Wo Wh Wp Win Wdk Wc Wl Winv Wd Ws Wda Wold Woth Wino Wfr].
  destruct (geom_IBLOCK sb _ _ G Hi) as [_ Hib]. pose proof (geom_order sb _ G) as Hord. pose proof (g_data _ _ G) as Hdt.
  assert (Hwi : wf_block (t_view t (IBLOCK i sb))) by (apply (fi_wf _ _ _ _ Winv); lia).
  pose proof (fun j Hj => disk_inode_put sb _ (t_view t) i d' j G Hi Hj Hwd Hwi) as Hdisk.
  split; try done.
  - by apply clean_edit.
  - specialize (Hdisk i Hi). by rewrite decide_True in Hdisk.
  - intros j Hj Hne. specialize (Hdisk j Hj). rewrite decide_False in Hdisk by done. etrans; [exact Hdisk|].
    unfold disk_inode. destruct (geom_IBLOCK sb _ _ G Hj) as [_ Hjb]. by rewrite Wino.
  - unfold d'. cbn. rewrite Wd at 1. done.
  - intros k Hk. cbn in Hk. assert (Hz : slot (t_view t) d' (k / BSIZE) <> 0).
    { pose proof (fi_hole _ _ _ _ H1 i (k / BSIZE) Hi) as Hh. rewrite fn_lookup_insert in Hh. apply Hh; cbn; rewrite HB in *; Z.to_euclidean_division_equations; lia. }
    rewrite (Hfb i d' k Hi); [|by rewrite fn_lookup_insert|lia|done]. fold n. case_decide as Hin; [by apply Wda|].
    apply Wold; [lia|lia|]. apply (fi_hole _ _ _ _ Hinv0); [done|..]; rewrite HB, HM in *; Z.to_euclidean_division_equations; lia.
  - intros j k Hj Hne Hk. pose proof (fi_size _ _ _ _ Hinv0 j Hj) as Hszj. assert (Hn : 0 <= k / BSIZE < MAXFILE) by (rewrite HB, HM in *; Z.to_euclidean_division_equations; lia).
    assert (Hz : slot (t_view t0) (I j) (k / BSIZE) <> 0) by (apply (fi_hole _ _ _ _ Hinv0); [done|done|rewrite HB in *; Z.to_euclidean_division_equations; lia]).
    assert (Hns : nth_slot (k / BSIZE)) by (unfold nth_slot; lia). destruct (Woth j Hj Hne _ Hns) as [E1 E2].
    rewrite (Hfb j (I j) k Hj); [|by rewrite fn_lookup_insert_ne|lia|by rewrite E1]. unfold fbyte. by rewrite E1, (E2 Hz).
  - assert (Hn : 0 <= n) by (unfold n; lia). pose proof (written_size _ _ _ _ _ _ _ _ _ _ G (proj1 Hoff) Hn HW). pose proof (size_add (IBLOCK i sb) (t_log t)). cbn. fold n. lia.
  - fold n. rewrite (free_set_ext sb _ (t_view t) (t_view t') G); [done|]. intros b Hb. apply done_view. lia.
Qed.
End Done.

Lemma with_d_self ip s : (ip < length (f_inodes s))%nat -> with_d ip (i_d (f_inodes s !!! ip)) s = s.
Proof.
  intros H. unfold with_d. rewrite (list_alter_ext _ id _ (f_inodes s)); [rewrite list_alter_id by done; by destruct s| |done].
  intros e He. apply list_lookup_total_correct in He. rewrite He. by destruct e.
Qed.

(** The whole of [writei], inside a transaction with room for it. *)
Lemma writei_ok ip user src off n data x t s I :
  let sb := f_sb s in let e := f_inodes s !!! ip in let i := i_inum e in
  (ip < length (f_inodes s))%nat -> i_dev e = ROOTDEV -> ino sb i -> i_d e = I i -> d_type (I i) <> 0 -> wf_dinode (I i) ->
  working sb I x t -> can_write sb off n t -> 0 <= off <= d_size (I i) -> 0 < n -> off + n <= MAXFILE * BSIZE -> 0 <= src < 2 ^ 64 ->
  provides user (f_pagetable s) src n data (f_pm s) ->
  exists x' t' d', writei ip user src off n (on x s) = Ret n (on x' (with_d ip d' s)) /\ tx_rep x' t' /\ file_wrote sb I i off data t t' d'.
Proof.
  intros sb e i Hip Hdev Hi Hd Hty Hwf [G H Hc Hit Hinv] Hcw Hoff Hn Hmax Hsrc Hprov.
  assert (HB : BSIZE = 1024) by done. assert (HM : MAXFILE = 268) by done. pose proof (proj1 Hprov) as Hlen.
  unfold writei. mstep. change (f_inodes (on x s) !!! ip) with e. rewrite Hd, u32_small by lia.
  rewrite (proj2 (Z.ltb_ge (d_size (I i)) off)), (proj2 (Z.ltb_ge (off + n) off)), (proj2 (Z.ltb_ge (MAXFILE * BSIZE) (off + n))) by lia. cbn [orb].
  destruct (writei_loop_ok (rw_fuel n) ip user src off n data t (I i) s I) with (tot := 0) (x := x) (t := t) (d := I i)
    as (x1 & t1 & d1 & E & H1 & HW); try done; try lia.
  { by apply written_nil. }
  { unfold rw_fuel. lia. }
  { intros _. unfold rw_fuel. pose proof (Z.mod_pos_bound (off + 0) BSIZE ltac:(done)). change BSIZE with 1024 in *. Z.to_euclidean_division_equations; lia. }
  fold sb e i in HW. rewrite <- Hd in E at 1. unfold e in E at 1. rewrite with_d_self, !Z.add_0_r, u64_small in E by done.
  rewrite (bind_ret _ _ _ _ _ E), (proj2 (Z.ltb_lt 0 n)) by lia. rewrite <- Hlen in HW, Hmax.
  pose proof (written_done sb I i off data t t1 d1 G Hi Hwf Hinv Hoff Hmax HW) as HF. cbv zeta in HF. rewrite Hlen in HF, HW.
  set (d2 := set_size d1 _) in HF. set (nx := update_tx sb i d2 t1) in HF.
  assert (Hst : (if d_size d1 <? off + n then updd ip (fun d => set_size d (off + n)) else mret_ tt) (on x1 (with_d ip d1 s)) = Ret tt (on x1 (with_d ip d2 s))).
  { assert (Ed : d_size d1 = d_size (I i)) by (rewrite (wr_d _ _ _ _ _ _ _ _ _ _ HW); done). rewrite Ed. unfold d2.
    destruct (Z.ltb_spec (d_size (I i)) (off + n)); [rewrite updd_on, Z.max_r by (done || lia); done|].
    rewrite Z.max_l, <- Ed by lia. by destruct d1. }
  destruct (iupdate_ok ip x1 t1 s d2 Hip Hdev Hi) as (x2 & E2 & H2).
  { change (geom sb (t_home t1)). rewrite (wr_home _ _ _ _ _ _ _ _ _ _ HW). done. }
  all: try apply HW; try done.
  { rewrite (wr_in _ _ _ _ _ _ _ _ _ _ HW). done. }
  { rewrite (wr_open _ _ _ _ _ _ _ _ _ _ HW). apply Hcw. }
  { assert (Hn0 : 0 <= n) by lia. pose proof (written_size _ _ _ _ _ _ _ _ _ _ G (proj1 Hoff) Hn0 HW) as Hsz.
    unfold spare. rewrite (wr_open _ _ _ _ _ _ _ _ _ _ HW), (cw_open _ _ _ _ Hcw), map_size_empty. destruct Hcw. lia. }
  exists x2, nx, d2. split; [|done]. erewrite bind_ret; [unfold mret_; f_equal; apply s32_small; lia|].
  mstep. change (f_inodes (on x1 ?y)) with (f_inodes y). rewrite with_d_at by done. cbn [i_d set_d]. rewrite (bind_ret _ _ _ _ _ Hst). exact E2.
Qed.
End FsWrite.
