(* ===== verification/FsLock.v ===== *)
(** Locked inodes: [ilock] and [iunlock] of kernel/fs.c over the layer of blocks. *)

From S2P Require Import Prelude Riscv Mem Sync Kalloc Vm Sleeplock Bio DiskFmt Blocks Fs FsBlk FsBmap FsWrite.

Section FsLock.
Context {LY : Layout} {WK : Wakeups} {S : Type} {B : Blocks S} {OK : BlocksOk S}.
Implicit Types (x : S) (s : fss S) (t : tx).
Abbreviation F := (M (fss S)).

(** Entry [ip] of the cache becomes [e]. *)
Definition with_e (ip : nat) (e : inode) (s : fss S) : fss S := put_inodes (<[ip := e]> (f_inodes s)) s.
Definition waking (c : chan) (s : fss S) : fss S := lput (c :: f_woken s) s.

Lemma with_e_at ip e s : (ip < length (f_inodes s))%nat -> f_inodes (with_e ip e s) !!! ip = e.
Proof. intros H. cbn. by rewrite list_lookup_total_insert_eq. Qed.

Lemma with_e_twice ip e e' s : with_e ip e (with_e ip e' s) = with_e ip e s.
Proof. unfold with_e, put_inodes. cbn. by rewrite list_insert_insert_eq. Qed.

Lemma with_e_len ip e s : length (f_inodes (with_e ip e s)) = length (f_inodes s).
Proof. apply length_insert. Qed.

Lemma alter_at {A} `{Inhabited A} (f : A -> A) (l : list A) i : (i < length l)%nat -> alter f i l = <[i := f (l !!! i)]> l.
Proof.
  intros Hi. apply list_eq. intros j. destruct (decide (j = i)) as [->|Hne].
  - rewrite list_lookup_alter_eq, list_lookup_insert_eq by done. by rewrite (list_lookup_lookup_total_lt l i Hi).
  - by rewrite list_lookup_alter_ne, list_lookup_insert_ne by done.
Qed.

Lemma updi_at ip f x s : (ip < length (f_inodes s))%nat -> updi ip f (on x s) = Ret tt (on x (with_e ip (f (f_inodes s !!! ip)) s)).
Proof. intros H. unfold updi, modify, with_e. cbn. by rewrite alter_at. Qed.

Lemma with_d_e ip d s : (ip < length (f_inodes s))%nat -> with_d ip d s = with_e ip (set_d (f_inodes s !!! ip) d) s.
Proof. intros H. unfold with_d, with_e. by rewrite alter_at. Qed.

(** ** The sleep lock *)

Lemma i_acquire_free ip x t s :
  tx_rep x t -> (ip < length (f_inodes s))%nat -> slk_locked (i_lock (f_inodes s !!! ip)) = 0 ->
  i_acquiresleep ip (on x s) = Ret tt (on x (with_e ip (set_ilock (f_inodes s !!! ip) {| slk_locked := 1; slk_pid := t_pid t |}) s)).
Proof.
  intros H Hip Hf. unfold i_acquiresleep.
  rewrite (acquiresleep_free (inode_lock ip) (put_inode_lock ip) (LInode ip) (ChanInodeLock ip) f_pid); try done.
  - unfold f_pid. change (f_blk (on x s)) with x. rewrite (tx_pid x t H). f_equal. unfold put_inode_lock, with_e. cbn. by rewrite alter_at.
  - intros h s'. apply pid_held.
  - change (lget (on x s)) with (lget x : lockset). rewrite (tx_held x t H). set_solver.
Qed.

Lemma i_holding ip x t s :
  tx_rep x t -> i_lock (f_inodes s !!! ip) = {| slk_locked := 1; slk_pid := t_pid t |} -> i_holdingsleep ip (on x s) = Ret true (on x s).
Proof.
  intros H Hl. unfold i_holdingsleep. rewrite (holdingsleep_ok (inode_lock ip) (LInode ip) f_pid); try done.
  - unfold inode_lock, f_pid. change (f_inodes (on x s)) with (f_inodes s). change (f_blk (on x s)) with x. rewrite Hl, (tx_pid x t H). cbn. by rewrite Z.eqb_refl.
  - intros h s'. apply pid_held.
  - change (lget (on x s)) with (lget x : lockset). rewrite (tx_held x t H). set_solver.
Qed.

Lemma i_release ip x t s :
  tx_rep x t -> (ip < length (f_inodes s))%nat ->
  i_releasesleep ip (on x s) = Ret tt (on x (waking (ChanInodeLock ip) (with_e ip (set_ilock (f_inodes s !!! ip) initsleeplock_val) s))).
Proof.
  intros H Hip. unfold i_releasesleep. rewrite (releasesleep_ok (put_inode_lock ip) (LInode ip) (ChanInodeLock ip)); try done.
  - f_equal. unfold put_inode_lock, waking, with_e, put_inodes, on. cbn. by rewrite alter_at.
  - change (lget (on x s)) with (lget x : lockset). rewrite (tx_held x t H). set_solver.
Qed.

(** ** [ilock] *)

(** [d] is what the entry [e] stands for: its own copy if it has been read, what is
    on disk if not. *)
Definition current (sb : superblock) (t : tx) (e : inode) (d : dinode) : Prop :=
  if i_valid e =? 0 then d = disk_inode sb (t_view t) (i_inum e) else d = i_d e.

(** The entry once it is locked. *)
Definition locked_as (pid : Z) (d : dinode) (e : inode) : inode :=
  {| i_dev := i_dev e; i_inum := i_inum e; i_ref := i_ref e; i_lock := {| slk_locked := 1; slk_pid := pid |};
     i_valid := if i_valid e =? 0 then 1 else i_valid e; i_d := d |}.

(** What locking an inode needs of the transaction. *)
Record lockable (sb : superblock) (x : S) (t : tx) : Prop := {
  lb_geom : geom sb (t_home t);
  lb_rep : tx_rep x t;
  lb_clean : clean t;
  lb_open : t_open t = ∅;
  lb_spare : spare 1 t }.

Lemma ilock_ok ip x t s d :
  let sb := f_sb s in let e := f_inodes s !!! ip in
  (ip < length (f_inodes s))%nat -> lockable sb x t -> i_dev e = ROOTDEV -> ino sb (i_inum e) -> 1 <= i_ref e -> slk_locked (i_lock e) = 0 ->
  current sb t e d -> d_type d <> 0 ->
  exists x', ilock ip (on x s) = Ret tt (on x' (with_e ip (locked_as (t_pid t) d e) s)) /\ tx_rep x' t.
Proof.
  intros sb e Hip [G H Hc Hop Hsp] Hdev Hi Href Hl Hcur Hty. unfold ilock. mstep.
  change (f_inodes (on x s) !!! ip) with e. rewrite (proj2 (Z.ltb_ge (i_ref e) 1)) by done.
  rewrite (bind_ret _ _ _ _ _ (i_acquire_free ip x t s H Hip Hl)). fold e. mstep.
  change (f_inodes (on x ?y)) with (f_inodes y). rewrite with_e_at by done. cbn [set_ilock i_valid i_dev i_inum].
  unfold current in Hcur. destruct (Z.eqb_spec (i_valid e) 0) as [Hv|Hv].
  2: { exists x. split; [|done]. unfold mret_. do 4 f_equal. unfold locked_as, set_ilock. apply Z.eqb_neq in Hv. by rewrite Hv, Hcur. }
  mstep. change (f_sb (on x (with_e ip ?y s))) with sb. rewrite Hdev.
  destruct (geom_IBLOCK sb _ _ G Hi) as [_ Hib]. pose proof (geom_order sb _ G) as Hord. pose proof (g_data _ _ G) as Hdt.
  destruct (buffer_ok x t (IBLOCK (i_inum e) sb) H Hc) as (b & x1 & E & Hb & H1 & Ed & x2 & Er & H2).
  { apply (g_home _ _ G). lia. }
  { intros j. by rewrite Hop, lookup_empty. }
  { done. }
  rewrite (bind_ret _ _ _ _ _ (E _)), (bind_ret _ _ _ _ _ (Ed _)).
  erewrite bind_ret by (apply updi_at; by rewrite with_e_len). rewrite with_e_at, with_e_twice by done. cbn [set_ilock i_inum].
  rewrite (bind_ret _ _ _ _ _ (Er _)). erewrite bind_ret by (apply updi_at; by rewrite with_e_len). rewrite with_e_at, with_e_twice by done.
  mstep. change (f_inodes (on x2 ?y)) with (f_inodes y). rewrite with_e_at by done. cbn [set_ivalid set_d set_ilock i_d i_valid i_dev i_inum i_ref i_lock].
  unfold disk_inode in Hcur. rewrite <- Hcur. rewrite (proj2 (Z.eqb_neq _ _) Hty).
  exists x2. split; [|done]. unfold mret_. do 4 f_equal. unfold locked_as. by rewrite Hv.
Qed.

Lemma iunlock_ok ip x t s :
  tx_rep x t -> (ip < length (f_inodes s))%nat -> i_lock (f_inodes s !!! ip) = {| slk_locked := 1; slk_pid := t_pid t |} -> 1 <= i_ref (f_inodes s !!! ip) ->
  iunlock ip (on x s) = Ret tt (on x (waking (ChanInodeLock ip) (with_e ip (set_ilock (f_inodes s !!! ip) initsleeplock_val) s))).
Proof.
  intros H Hip Hl Href. unfold iunlock. rewrite (bind_ret _ _ _ _ _ (i_holding ip x t s H Hl)). mstep.
  change (f_inodes (on x s)) with (f_inodes s). rewrite (proj2 (Z.ltb_ge _ 1)) by done. cbn [negb orb]. by apply (i_release ip x t).
Qed.
End FsLock.
