(* ===== verification/FsDemo.v ===== *)
(** A small file system, on the log: one empty file on a disk of sixty blocks. *)

From S2P Require Import Prelude Riscv Mem Sync Kalloc Vm Sleeplock Bio BioSpec DiskFmt.
From S2P Require Import Log LogSpec LogCrash LogOps LogProps Blocks LogBlocks Fs FsBlk FsBmap FsWrite FsLock.

Module FsDemo.
#[global] Existing Instance LogDemo.demo_wakeups.

(** The log is in blocks 2 to 31, the inodes in block 32, the free map in block 33. *)
Definition demo_sb : superblock :=
  {| sb_magic := FSMAGIC; sb_size := 60; sb_nblocks := 26; sb_ninodes := 16; sb_nlog := 30; sb_logstart := 2; sb_inodestart := 32; sb_bmapstart := 33 |}.
Definition demo_home (b : Z) : Prop := 32 <= b < 60.

Definition empty_file : dinode :=
  {| d_type := T_FILE; d_major := 0; d_minor := 0; d_nlink := 1; d_size := 0; d_addrs := replicate 13 0 |}.

(** The blocks up to the free map are in use. *)
Definition demo_bitmap : block := replicate 4 255 ++ [3] ++ replicate 1019 0.
Definition demo_disk : gmap Z block :=
  {[ 32 := put_dinode (replicate 1024 0) (dinode_off 1) empty_file; 33 := demo_bitmap ]}.
Definition demo_view : Z -> block := disk_block demo_disk.
Definition demo_inodes (i : Z) : dinode := if decide (i = 1) then empty_file else zero_dinode.

Lemma demo_geom : geom demo_sb demo_home.
Proof. split; vm_compute; done. Qed.

Lemma demo_view_eq b : demo_view b = if decide (b = 32) then put_dinode (replicate 1024 0) (dinode_off 1) empty_file
  else if decide (b = 33) then demo_bitmap else replicate 1024 0.
Proof.
  unfold demo_view, disk_block, demo_disk. rewrite lookup_insert, lookup_singleton. repeat case_decide; try done; lia.
Qed.

#[local] Instance dinode_eq_dec : EqDecision dinode.
Proof. solve_decision. Defined.

Lemma demo_disk_inode i : ino demo_sb i -> disk_inode demo_sb demo_view i = demo_inodes i.
Proof.
  intros Hi. assert (H : bool_decide (Forall (fun i => disk_inode demo_sb demo_view i = demo_inodes i) (seqZ 0 16)) = true) by (vm_compute; reflexivity).
  apply bool_decide_eq_true_1 in H. rewrite Forall_forall in H. apply H, elem_of_seqZ. exact Hi.
Qed.

Lemma demo_slot v i k : nth_slot k -> slot v (demo_inodes i) k = 0.
Proof.
  intros Hk. unfold nth_slot in Hk. assert (Ha : d_addrs (demo_inodes i) = replicate 13 0) by (unfold demo_inodes; by case_decide).
  assert (Hz : forall m, (m < 13)%nat -> (replicate 13 0 : list Z) !!! m = 0).
  { intros m Hm. apply list_lookup_total_correct. by apply lookup_replicate_2. }
  assert (HN : NDIRECT = 12) by done. unfold slot. rewrite Ha. destruct (Z.ltb_spec k NDIRECT); [apply Hz; lia|].
  rewrite (Hz (Z.to_nat NDIRECT)) by (rewrite HN; lia). by destruct (k =? MAXFILE).
Qed.

Lemma demo_used b : 0 <= b < 60 -> used demo_sb demo_view b = bool_decide (b < 34).
Proof.
  intros Hb. assert (H : bool_decide (Forall (fun b => used demo_sb demo_view b = bool_decide (b < 34)) (seqZ 0 60)) = true) by (vm_compute; reflexivity).
  apply bool_decide_eq_true_1 in H. rewrite Forall_forall in H. apply H, elem_of_seqZ. exact Hb.
Qed.

Lemma demo_inv : fs_inv demo_sb demo_view demo_inodes ∅.
Proof.
  assert (Hd : datastart demo_sb = 34) by done. assert (Hs : sb_size demo_sb = 60) by done.
  split.
  - intros b _. rewrite demo_view_eq. repeat case_decide; split; try (vm_compute; reflexivity); apply (bool_decide_unpack _); vm_compute; done.
  - intros b Hb. rewrite demo_used by lia. rewrite bool_decide_true by lia. done.
  - intros i _. unfold demo_inodes. by case_decide.
  - intros i k _ Hk Hz. by rewrite demo_slot in Hz.
  - intros i k j l _ Hk _ _ _ Hz. by rewrite demo_slot in Hz.
  - set_solver.
  - intros b Hb. rewrite demo_used by lia. rewrite bool_decide_false by lia. done.
  - intros i _. unfold demo_inodes. by case_decide.
  - intros i k _ Hk Hlt. exfalso. change BSIZE with 1024 in *. unfold demo_inodes in Hlt. case_decide; cbn in Hlt; lia.
  - intros i k _ Hk _. by apply demo_slot.
Qed.

(** The machine started on that disk. *)
Lemma demo_started pid : exists x dk, log_tx x (tx_fresh false demo_view demo_home pid dk).
Proof.
  destruct (mount_tx 2 demo_disk pid demo_home) as (x & dk & _ & H); [| |by exists x, dk].
  - split; [lia|]. split; [done|]. split; [vm_compute; reflexivity|vm_compute; reflexivity|vm_compute; reflexivity| | | |].
    + change LOGSIZE with 30. cbn. lia.
    + change head with 30%nat. cbn. lia.
    + apply NoDup_nil_2.
    + intros b Hb. by apply elem_of_nil in Hb.
  - intros b Hb. unfold demo_home, LogSpec.blk in *. change LOGSIZE with 30. lia.
Qed.
End FsDemo.
