(* ===== verification/FsProps.v ===== *)
(** What kernel/fs.c promises for the contents of files. *)

From S2P Require Import Prelude Riscv Mem Sync Kalloc Vm Sleeplock Bio DiskFmt Blocks Fs FsBlk FsBmap FsWrite FsLock.
From S2P Require Import VmProps LogBlocks FsDemo.

Section FsProps.
Context {LY : Layout} {WK : Wakeups} {S : Type} {B : Blocks S} {OK : BlocksOk S}.
Implicit Types (x : S) (s : fss S) (t : tx).

(** A locked inode, in a transaction with room to write [n] bytes at [off]. *)
Record write_ready (ip : nat) (off n : Z) (x : S) (t : tx) (s : fss S) (I : Z -> dinode) : Prop := {
  wy_ip : (ip < length (f_inodes s))%nat;
  wy_dev : i_dev (f_inodes s !!! ip) = ROOTDEV;
  wy_ino : ino (f_sb s) (i_inum (f_inodes s !!! ip));
  wy_d : i_d (f_inodes s !!! ip) = I (i_inum (f_inodes s !!! ip));
  wy_type : d_type (I (i_inum (f_inodes s !!! ip))) <> 0;
  wy_wf : wf_dinode (I (i_inum (f_inodes s !!! ip)));
  wy_work : working (f_sb s) I x t;
  wy_can : can_write (f_sb s) off n t;
  wy_off : 0 <= off <= d_size (I (i_inum (f_inodes s !!! ip)));
  wy_n : 0 < n;
  wy_max : off + n <= MAXFILE * BSIZE }.

(** C3: what [writei] stores [readi] reads back: after a write of [n] bytes at [off],
    a read of [n] bytes at [off] into a kernel buffer returns [n] and puts exactly
    the bytes written there, and nothing else changes in memory. *)
Theorem readi_writei ip user src off n data dst x t s I :
  write_ready ip off n x t s I -> 0 <= src < 2 ^ 64 -> provides user (f_pagetable s) src n data (f_pm s) -> 0 <= dst -> dst + n < 2 ^ 64 ->
  exists s1 s2, writei ip user src off n (on x s) = Ret n s1 /\ readi ip false dst off n s1 = Ret n s2 /\
    f_pm s2 = set_mem (store_bytes (mem (f_pm s)) dst data) (f_pm s).
Proof.
  intros [Hip Hdev Hi Hd Hty Hwf Hw Hc Hoff Hn Hmax] Hsrc Hp Hdst Hov. pose proof (proj1 Hp) as Hlen.
  destruct (writei_ok ip user src off n data x t s I) as (x1 & t1 & d1 & E1 & H1 & HF); try done.
  set (i := i_inum (f_inodes s !!! ip)) in *. set (s1 := with_d ip d1 s) in *.
  assert (Hat : f_inodes s1 !!! ip = set_d (f_inodes s !!! ip) d1) by (by apply with_d_at).
  assert (Hsz : d_size d1 = Z.max (d_size (I i)) (off + n)) by (rewrite (fw_d _ _ _ _ _ _ _ _ HF), <- Hlen; done).
  assert (HM : MAXFILE * BSIZE = 274432) by done.
  assert (HR : reading (f_sb s1) (<[i := d1]> I) x1 t1).
  { split; [|done|apply HF| | |apply HF].
    - rewrite (fw_home _ _ _ _ _ _ _ _ HF). apply Hw.
    - rewrite (fw_open _ _ _ _ _ _ _ _ HF). apply Hc.
    - pose proof (fw_log _ _ _ _ _ _ _ _ HF) as Hlog. destruct Hc as [Co Cr _]. unfold spare.
      rewrite (fw_open _ _ _ _ _ _ _ _ HF), Co, map_size_empty. rewrite Hlen in Hlog. lia. }
  destruct (readi_ok ip false dst off n (kernel_sink (f_pm s) dst) x1 t1 s1 (<[i := d1]> I)) as (x2 & E2 & _);
    rewrite ?Hat; cbn [set_d i_dev i_inum i_d]; try done; try lia.
  { fold i. by rewrite fn_lookup_insert. }
  { replace (Z.min n (d_size d1 - off)) with n by lia. by apply kernel_accepts. }
  rewrite Hat in E2. cbn [set_d i_d] in E2. rewrite (Z.min_l n) in E2 by lia.
  assert (Es : put_pm (kernel_sink (f_pm s) dst []) s1 = s1) by (unfold s1; destruct s as [? ? ? []]; done). rewrite Es in E2.
  eexists _, _. split; [exact E1|]. split; [exact E2|]. cbn. unfold kernel_sink.
  replace (fbytes (t_view t1) d1 off n) with data; [done|].
  apply list_eq. intros k. destruct (decide (k < Z.to_nat n)%nat) as [Hk|Hk].
  - unfold fbytes. rewrite list_lookup_fmap, lookup_seqZ_lt by lia. cbn. rewrite (fw_bytes _ _ _ _ _ _ _ _ HF) by lia.
    rewrite decide_True by lia. replace (Z.to_nat (off + Z.of_nat k - off)) with k by lia. apply list_lookup_lookup_total_lt. lia.
  - rewrite !lookup_ge_None_2; [done|rewrite fbytes_len; lia|lia].
Qed.

(** [bp->data] stored as it was, without [log_write]. *)
Lemma touch_buf x t i b :
  tx_rep x (open_buf i b t) -> t_open t !! i = None -> clean t -> t_home t b ->
  exists x', tx_rep x' (put_buf b (t_view t b) t) /\
    forall s A (k : M (fss S) A), (f_put i (t_view t b) ;; f_brelse i ;; k) (on x s) = k (on x' s).
Proof.
  intros H Hi Hc Hb. assert (Ho : t_open (open_buf i b t) !! i = Some b) by (cbn; by rewrite lookup_insert_eq).
  destruct (tx_put x _ i b (t_view t b) H Ho) as (x1 & E1 & H1).
  destruct (tx_brelse x1 _ i b H1 Ho) as (x2 & E2 & H2).
  { cbn. rewrite upd_view_eq. destruct (decide (b ∈ t_log t)); [by left|right; by apply Hc]. }
  exists x2. split.
  - replace (put_buf b (t_view t b) t) with (close_buf i (put_buf b (t_view t b) (open_buf i b t))); [done|].
    unfold close_buf, put_buf, open_buf. cbn. by rewrite delete_insert_id.
  - intros s A k. by rewrite (bind_ret _ _ _ _ _ (zoom_on _ _ s _ _ E1)), (bind_ret _ _ _ _ _ (zoom_on _ _ s _ _ E2)).
Qed.

Lemma splice_nil d o : splice d o [] = d.
Proof. unfold splice. cbn. rewrite Nat.add_0_r. apply take_drop. Qed.

(** How much [bmap] adds to the transaction. *)
Lemma mapped_log sb I i bn t d addr t' d' :
  geom sb (t_home t) -> mapped sb I i bn t d addr t' d' -> Z.of_nat (size (t_log t')) <= Z.of_nat (size (t_log t)) + (sb_size sb / BPB + 1) + 2.
Proof.
  intros G Hmp. destruct (mp_steps _ _ _ _ _ _ _ _ _ Hmp) as (W & Hst & HWs). rewrite (st_log _ _ _ Hst). apply subseteq_size in HWs.
  pose proof (size_bitmaps sb _ G). pose proof (size_union_le W (t_log t)). pose proof (size_union_le (bitmaps sb ∪ {[addr]}) (ind_set d')).
  pose proof (size_union_le (bitmaps sb) {[addr]}) as Hu. rewrite size_singleton in Hu.
  assert ((size (ind_set d') <= 1)%nat) by (unfold ind_set; case_decide; [by rewrite size_empty; lia|by rewrite size_singleton]). lia.
Qed.

(** The loop of [writei] when nothing can be copied. *)
Lemma writei_loop_fault fuel ip user src off n x t s I :
  let i := i_inum (f_inodes s !!! ip) in
  write_ready ip off n x t s I ->
  (forall m, 0 < m -> copyin_either user (f_pagetable s) src m (f_pm s) = Ret (-1, []) (f_pm s)) ->
  exists x' t1 addr d, writei_loop (Datatypes.S fuel) ip user src off n 0 (on x s) = Ret off (on x' (with_d ip d s)) /\
    tx_rep x' (put_buf addr (t_view t1 addr) t1) /\ mapped (f_sb s) I i (off / BSIZE) t (I i) addr t1 d /\ spare 2 t1.
Proof.
  intros i [Hip Hdev Hi Hd Hty Hwf [G H Hc Hit Hinv] [Co Cr Cf] Hoff Hn Hmax] Hfault. set (e := f_inodes s !!! ip) in *. fold i in Hi, Hd, Hty, Hwf, Hoff. set (sb := f_sb s) in *.
  assert (HB : BSIZE = 1024) by done. assert (HM : MAXFILE = 268) by done.
  assert (Hnb : 1 <= nblocks off n) by (unfold nblocks; rewrite decide_False by lia; rewrite HB; Z.to_euclidean_division_equations; lia).
  pose proof (geom_order sb _ G) as Hord. pose proof (g_data _ _ G) as Hdt.
  assert (Hbp : 0 <= sb_size sb / BPB) by (change BPB with 8192 in *; Z.to_euclidean_division_equations; lia).
  cbn [writei_loop]. rewrite (proj2 (Z.ltb_lt 0 n)) by lia.
  destruct (bmap_ok ip (off / BSIZE) x t s I (I i) Hip Hdev) as (addr & x1 & t1 & d1 & E1 & H1 & Hmp); try done.
  { unfold spare. rewrite Co, map_size_empty. lia. }
  { rewrite HB, HM in *. Z.to_euclidean_division_equations; lia. }
  { fold sb. lia. }
  fold sb e i in Hmp. assert (Hs0 : with_d ip (I i) s = s) by (rewrite <- Hd; by apply with_d_self). rewrite Hs0 in E1.
  rewrite (bind_ret _ _ _ _ _ E1). mstep. change (f_inodes (on x1 ?y)) with (f_inodes y). rewrite with_d_at by done. fold e. cbn [i_dev set_d]. rewrite Hdev.
  pose proof (mp_steps _ _ _ _ _ _ _ _ _ Hmp) as (W & Hst & HWs). pose proof (mp_inv _ _ _ _ _ _ _ _ _ Hmp) as Hinv1.
  assert (Hsp : spare 2 t1).
  { pose proof (mapped_log _ _ _ _ _ _ _ _ _ G Hmp). unfold spare. rewrite (st_open _ _ _ Hst), Co, map_size_empty. lia. }
  assert (Hha : t_home t1 addr).
  { rewrite (st_home _ _ _ Hst). apply (g_home _ _ G). pose proof (mp_addr _ _ _ _ _ _ _ _ _ Hmp) as Ea.
    assert (Es : slot (t_view t1) ((<[i := d1]> I) i) (off / BSIZE) = addr) by (by rewrite fn_lookup_insert).
    destruct (fi_slot _ _ _ _ Hinv1 i (off / BSIZE) Hi) as [Hr _]; [unfold nth_slot; rewrite HB, HM in *; Z.to_euclidean_division_equations; lia|rewrite Es; apply Hmp|].
    rewrite Es in Hr. lia. }
  destruct (buffer_ok x1 t1 addr H1 (st_clean _ _ _ Hst) Hha) as (b & x2 & E2 & Hb & H2 & Ed & _).
  { intros j. rewrite (st_open _ _ _ Hst), Co, lookup_empty. done. }
  { by apply (spare_le 1 2); [lia|]. }
  rewrite (bind_ret _ _ _ _ _ (E2 _)). rewrite u32_small by lia. set (m := Z.min _ _).
  assert (Hm : 0 < m) by (unfold m; pose proof (Z.mod_pos_bound off BSIZE); lia).
  erewrite bind_ret by (eapply f_copyin_ok; [reflexivity|reflexivity|]; by apply Hfault).
  cbv beta iota. rewrite (bind_ret _ _ _ _ _ (Ed _)). rewrite splice_nil. change (-1 =? -1) with true. cbv iota.
  destruct (touch_buf x2 t1 b addr H2 Hb (st_clean _ _ _ Hst) Hha) as (x3 & H3 & E3). rewrite E3.
  by exists x3, t1, addr, d1.
Qed.

(** The contents of a file after [bmap] and [iupdate], the new block untouched. *)
Lemma fault_bytes sb I i bn t addr t1 d k :
  geom sb (t_home t) -> fs_inv sb (t_view t) I ∅ -> ino sb i -> 0 <= bn < MAXFILE -> mapped sb I i bn t (I i) addr t1 d -> 0 <= k < d_size (I i) ->
  fbyte (t_view (update_tx sb i d (put_buf addr (t_view t1 addr) t1))) d k = fbyte (t_view t) (I i) k.
Proof.
  intros G Hinv Hi Hbn Hmp Hk. assert (HB : BSIZE = 1024) by done. assert (HM : MAXFILE = 268) by done.
  pose proof (mp_steps _ _ _ _ _ _ _ _ _ Hmp) as (W & Hst & HWs).
  assert (Hmp' : mapped sb (<[i := I i]> I) i (bn) t (I i) addr t1 d).
  { destruct Hmp. split; try done. eapply inv_ext; [|exact mp_inv]. intros j _. by rewrite insert_twice. }
  assert (G1 : geom sb (t_home t1)) by (rewrite (st_home _ _ _ Hst); done).
  assert (Hl0 : (0 + length (@nil Z) <= 1024)%nat) by (cbn; lia).
  pose proof (step_edit sb I i _ t (I i) addr t1 d G1 Hi Hbn Hmp' 0 [] Hl0 (Forall_nil_2 _)) as [Hinv2 Hsl].
  pose proof (step_old sb I i _ t (I i) addr t1 d G1 Hi Hbn Hmp' 0 [] Hl0 (Forall_nil_2 _)) as Hold.
  rewrite splice_nil in Hinv2, Hsl, Hold. set (t2 := put_buf addr (t_view t1 addr) t1).
  change (t_view (edit addr (t_view t1 addr) t1)) with (t_view t2) in Hinv2, Hsl, Hold.
  pose proof (fi_size _ _ _ _ Hinv i Hi) as Hsz. assert (Hkb : 0 <= k / BSIZE < MAXFILE) by (rewrite HB, HM in *; Z.to_euclidean_division_equations; lia).
  assert (Hz : slot (t_view t) (I i) (k / BSIZE) <> 0) by (apply (fi_hole _ _ _ _ Hinv); [done|done|rewrite HB in *; Z.to_euclidean_division_equations; lia]).
  specialize (Hsl i (k / BSIZE) Hi). rewrite fn_lookup_insert in Hsl.
  assert (fbyte (t_view t2) d k = fbyte (t_view t) (I i) k /\ slot (t_view t2) d (k / BSIZE) <> 0) as [Hfb Hz2].
  { destruct (decide (k / BSIZE = bn)) as [Eb|Hne].
    - rewrite Eb in Hz. destruct (mp_same _ _ _ _ _ _ _ _ _ Hmp Hz) as [-> ->]. unfold fbyte. rewrite Hsl. rewrite <- Eb in Hz. split; [|done].
      cbn. unfold upd_view. case_decide as Ea; [by rewrite Ea|done].
    - destruct (Hold _ Hkb Hne Hz) as [E3 E4]. unfold fbyte. by rewrite E3, E4. }
  rewrite <- Hfb. pose proof (update_fbyte sb t2 (<[i := d]> I) ∅ i d i k G1 Hinv2 Hi Hi ltac:(lia)) as Hu. rewrite fn_lookup_insert in Hu. by apply Hu.
Qed.

(** C4: [writei] does not report a failed [either_copyin]: when none of the source can
    be read it returns [n] all the same, the file having neither grown nor
    moved. *)
Theorem writei_hides_fault ip user src off n x t s I :
  write_ready ip off n x t s I ->
  (forall m, 0 < m -> copyin_either user (f_pagetable s) src m (f_pm s) = Ret (-1, []) (f_pm s)) ->
  exists x' t' d, writei ip user src off n (on x s) = Ret n (on x' (with_d ip d s)) /\ tx_rep x' t' /\
    d_size d = d_size (I (i_inum (f_inodes s !!! ip))) /\
    forall k, 0 <= k < d_size d -> fbyte (t_view t') d k = fbyte (t_view t) (I (i_inum (f_inodes s !!! ip))) k.
Proof.
  intros HR Hfault. pose proof HR as [Hip Hdev Hi Hd Hty Hwf [G H Hc Hit Hinv] [Co Cr Cf] Hoff Hn Hmax]. set (e := f_inodes s !!! ip) in *. set (i := i_inum e) in *. set (sb := f_sb s) in *.
  assert (HB : BSIZE = 1024) by done. assert (HM : MAXFILE = 268) by done. assert (HMB : MAXFILE * BSIZE = 274432) by done.
  assert (Hnb : 1 <= nblocks off n).
  { unfold nblocks. rewrite decide_False by lia. rewrite HB. Z.to_euclidean_division_equations; lia. }
  unfold writei. mstep. change (f_inodes (on x s) !!! ip) with e. rewrite Hd, u32_small by lia.
  rewrite (proj2 (Z.ltb_ge (d_size (I i)) off)), (proj2 (Z.ltb_ge (off + n) off)), (proj2 (Z.ltb_ge (MAXFILE * BSIZE) (off + n))) by lia. cbn [orb].
  unfold rw_fuel. rewrite Nat.add_comm. cbn [Nat.add].
  destruct (writei_loop_fault (Datatypes.S (Datatypes.S (Z.to_nat (n / BSIZE)))) ip user src off n x t s I HR Hfault) as (x1 & t1 & addr & d & E & H1 & Hmp & Hsp).
  fold e i sb in Hmp. rewrite (bind_ret _ _ _ _ _ E), (proj2 (Z.ltb_lt 0 n)) by lia.
  pose proof (mp_steps _ _ _ _ _ _ _ _ _ Hmp) as (W & Hst & HWs).
  assert (Ed : d_size d = d_size (I i)) by (rewrite (mp_d _ _ _ _ _ _ _ _ _ Hmp); done).
  destruct (iupdate_ok ip x1 (put_buf addr (t_view t1 addr) t1) s d Hip Hdev Hi) as (x2 & E2 & H2).
  { change (geom sb (t_home t1)). rewrite (st_home _ _ _ Hst). done. }
  { done. }
  { intros b Hb Hl. cbn. unfold upd_view. case_decide as Eb; [rewrite Eb in *|]; by apply (st_clean _ _ _ Hst). }
  { cbn. rewrite (st_in _ _ _ Hst). done. }
  { cbn. rewrite (st_open _ _ _ Hst). done. }
  { done. }
  eexists x2, _, d. split; [|split; [exact H2|]].
  { erewrite bind_ret; [unfold mret_; f_equal; apply s32_small; lia|]. mstep. change (f_inodes (on x1 ?y)) with (f_inodes y).
    rewrite with_d_at by done. cbn [i_d set_d]. rewrite (proj2 (Z.ltb_ge (d_size d) off)) by lia. mstep. exact E2. }
  split; [done|]. intros k Hk.
  rewrite Ed in Hk. apply (fault_bytes sb I i (off / BSIZE)); try done. rewrite HB, HM in *. Z.to_euclidean_division_equations; lia.
Qed.
End FsProps.

(** ** Concrete instances *)
Module WriteDemo.
Import FsDemo.
#[local] Existing Instance VmProps.Demo.demo_layout.

(** The file of [FsDemo], locked. *)
Definition held_entry : inode :=
  {| i_dev := ROOTDEV; i_inum := 1; i_ref := 1; i_lock := {| slk_locked := 1; slk_pid := 1 |}; i_valid := 1; i_d := empty_file |}.
Definition no_mem : pmem := {| mem := ∅; freelist := 0; held := ∅ |}.
Definition held_fss (x : Log.lstate) : fss Log.lstate :=
  {| f_blk := x; f_sb := demo_sb; f_inodes := [held_entry]; f_pm := no_mem; f_pagetable := 0; f_cwd := 0; f_woken := [] |}.

Lemma held_ready : exists x t, write_ready 0 0 5 x t (held_fss x) demo_inodes.
Proof.
  destruct (demo_started 1) as (x0 & dk & H0). destruct (log_begin _ _ _ _ _ H0) as (x & _ & H). exists x, (tx_fresh true demo_view demo_home 1 dk).
  split; try done.
  - cbn. lia.
  - split; try done. by repeat constructor.
  - split; [apply demo_geom|exact H|done|done|apply demo_inv].
Qed.

Lemma readi_writei_witness :
  exists (s s1 s2 : fss Log.lstate), writei 0 false 4096 0 5 s = Ret 5 s1 /\ readi 0 false 8192 0 5 s1 = Ret 5 s2.
Proof.
  destruct held_ready as (x & t & H).
  destruct (readi_writei 0 false 4096 0 5 (bytes_at (mem no_mem) 4096 5) 8192 x t (held_fss x) demo_inodes H) as (s1 & s2 & E1 & E2 & _); try done; try lia.
  - by apply (kernel_provides 0 no_mem 4096 5).
  - eexists _, s1, s2. split; [exact E1|exact E2].
Defined.

(** An address no page table maps. *)
Lemma bad_address m : 0 < m -> copyin_either true 0 MAXVA m no_mem = Ret (-1, []) no_mem.
Proof.
  intros Hm. unfold copyin_either, copyin. cbn [copyin_loop]. rewrite (proj2 (Z.ltb_lt 0 m)) by done. done.
Qed.

Lemma writei_hides_fault_witness :
  exists (s s' : fss Log.lstate), writei 0 true MAXVA 0 5 s = Ret 5 s' /\ d_size (i_d (f_inodes s' !!! 0%nat)) = 0.
Proof.
  destruct held_ready as (x & t & H).
  destruct (writei_hides_fault 0 true MAXVA 0 5 x t (held_fss x) demo_inodes H bad_address) as (x' & t' & d & E & _ & Hd & _).
  eexists _, _. split; [exact E|]. exact Hd.
Defined.
End WriteDemo.
