(* ===== verification/File.v ===== *)
(** kernel/file.c and [pipealloc] of kernel/pipe.c: open files.

    An open file is its index in [ftable.file].  The state joins the file system
    with the pipes, the console and what the running process has: [kf_pstate] and
    [kf_dev] are the views of kernel/pipe.c and kernel/console.c. *)

From S2P Require Import Prelude Riscv Mem Sync Kalloc Vm Proc Uart Console Sleeplock Bio DiskFmt Blocks Fs Pipe.

Definition CONSOLE : Z := 1.

(** [struct file] *)
Inductive ftype := FD_NONE | FD_PIPE | FD_INODE | FD_DEVICE.
#[global] Instance ftype_eq_dec : EqDecision ftype.
Proof. solve_decision. Defined.

Record file := File {
  fl_type : ftype; fl_ref : Z; fl_readable : bool; fl_writable : bool; fl_pipe : Z; fl_ip : nat; fl_off : Z; fl_major : Z }.

Definition no_file : file :=
  {| fl_type := FD_NONE; fl_ref := 0; fl_readable := false; fl_writable := false; fl_pipe := 0; fl_ip := 0; fl_off := 0; fl_major := 0 |}.
#[global] Instance file_inhabited : Inhabited file := populate no_file.

Section Fields.
Context (f : file).
Definition set_fref (v : Z) : file :=
  {| fl_type := fl_type f; fl_ref := v; fl_readable := fl_readable f; fl_writable := fl_writable f;
     fl_pipe := fl_pipe f; fl_ip := fl_ip f; fl_off := fl_off f; fl_major := fl_major f |}.
Definition set_ftype (v : ftype) : file :=
  {| fl_type := v; fl_ref := fl_ref f; fl_readable := fl_readable f; fl_writable := fl_writable f;
     fl_pipe := fl_pipe f; fl_ip := fl_ip f; fl_off := fl_off f; fl_major := fl_major f |}.
Definition set_foff (v : Z) : file :=
  {| fl_type := fl_type f; fl_ref := fl_ref f; fl_readable := fl_readable f; fl_writable := fl_writable f;
     fl_pipe := fl_pipe f; fl_ip := fl_ip f; fl_off := v; fl_major := fl_major f |}.
Definition set_fpipe (readable writable : bool) (pi : Z) : file :=
  {| fl_type := FD_PIPE; fl_ref := fl_ref f; fl_readable := readable; fl_writable := writable;
     fl_pipe := pi; fl_ip := fl_ip f; fl_off := fl_off f; fl_major := fl_major f |}.
End Fields.

(** ** The state *)

(** The file system, [ftable.file], the pipes, the devices, and of the running
    process what kernel/fs.c does not use. *)
Record kfs (S : Type) := KFS {
  kf_fs : fss S; kf_files : list file; kf_pipes : gmap Z pipe;
  kf_uart : uart; kf_cons : cons; kf_panicked : bool; kf_locking : bool; kf_procs : list proc;
  kf_killed : bool; kf_ofile : list (option nat); kf_sz : Z; kf_trapframe : Z; kf_name : list Z }.
Arguments KFS {S}.
Arguments kf_fs {S}.
Arguments kf_files {S}.
Arguments kf_pipes {S}.
Arguments kf_uart {S}.
Arguments kf_cons {S}.
Arguments kf_panicked {S}.
Arguments kf_locking {S}.
Arguments kf_procs {S}.
Arguments kf_killed {S}.
Arguments kf_ofile {S}.
Arguments kf_sz {S}.
Arguments kf_trapframe {S}.
Arguments kf_name {S}.

Definition put_fs {S} (x : fss S) (s : kfs S) : kfs S :=
  {| kf_fs := x; kf_files := kf_files s; kf_pipes := kf_pipes s; kf_uart := kf_uart s; kf_cons := kf_cons s;
     kf_panicked := kf_panicked s; kf_locking := kf_locking s; kf_procs := kf_procs s; kf_killed := kf_killed s;
     kf_ofile := kf_ofile s; kf_sz := kf_sz s; kf_trapframe := kf_trapframe s; kf_name := kf_name s |}.
Definition put_files {S} (x : list file) (s : kfs S) : kfs S :=
  {| kf_fs := kf_fs s; kf_files := x; kf_pipes := kf_pipes s; kf_uart := kf_uart s; kf_cons := kf_cons s;
     kf_panicked := kf_panicked s; kf_locking := kf_locking s; kf_procs := kf_procs s; kf_killed := kf_killed s;
     kf_ofile := kf_ofile s; kf_sz := kf_sz s; kf_trapframe := kf_trapframe s; kf_name := kf_name s |}.
Definition put_ofile {S} (x : list (option nat)) (s : kfs S) : kfs S :=
  {| kf_fs := kf_fs s; kf_files := kf_files s; kf_pipes := kf_pipes s; kf_uart := kf_uart s; kf_cons := kf_cons s;
     kf_panicked := kf_panicked s; kf_locking := kf_locking s; kf_procs := kf_procs s; kf_killed := kf_killed s;
     kf_ofile := x; kf_sz := kf_sz s; kf_trapframe := kf_trapframe s; kf_name := kf_name s |}.

#[global] Instance kfs_fs {S} : Lens (kfs S) (fss S).
Proof. refine {| lget := kf_fs; lput := put_fs |}; lens_laws (kfs S). Defined.
#[global] Instance kfs_pm {S} : Lens (kfs S) pmem := lens_comp kfs_fs fss_pm.
#[global] Instance kfs_held {S} {B : Blocks S} : Lens (kfs S) lockset := lens_comp kfs_fs fss_held.

Ltac two_levels S := intros; repeat match goal with t : kfs S |- _ => destruct t as [[]] | t : pstate |- _ => destruct t | t : dev |- _ => destruct t end; reflexivity.

(** What kernel/pipe.c works on. *)
#[global] Instance kf_pstate {S} : Lens (kfs S) pstate.
Proof.
  refine {| lget := fun s => {| ps_mem := f_pm (kf_fs s); pipes := kf_pipes s; pr_pagetable := f_pagetable (kf_fs s);
      pr_killed := kf_killed s; woken := f_woken (kf_fs s) |};
    lput := fun x s => let fs := kf_fs s in
      {| kf_fs := {| f_blk := f_blk fs; f_sb := f_sb fs; f_inodes := f_inodes fs; f_pm := ps_mem x; f_pagetable := pr_pagetable x;
           f_cwd := f_cwd fs; f_woken := woken x |};
         kf_files := kf_files s; kf_pipes := pipes x; kf_uart := kf_uart s; kf_cons := kf_cons s;
         kf_panicked := kf_panicked s; kf_locking := kf_locking s; kf_procs := kf_procs s; kf_killed := pr_killed x;
         kf_ofile := kf_ofile s; kf_sz := kf_sz s; kf_trapframe := kf_trapframe s; kf_name := kf_name s |} |}; two_levels S.
Defined.

(** What kernel/console.c works on. *)
#[global] Instance kf_dev {S} : Lens (kfs S) dev.
Proof.
  refine {| lget := fun s => {| d_uart := kf_uart s; d_cons := kf_cons s; panicked := kf_panicked s; locking := kf_locking s;
      d_procs := kf_procs s; d_pm := f_pm (kf_fs s); d_pagetable := f_pagetable (kf_fs s); d_killed := kf_killed s; d_woken := f_woken (kf_fs s) |};
    lput := fun x s => let fs := kf_fs s in
      {| kf_fs := {| f_blk := f_blk fs; f_sb := f_sb fs; f_inodes := f_inodes fs; f_pm := d_pm x; f_pagetable := d_pagetable x;
           f_cwd := f_cwd fs; f_woken := d_woken x |};
         kf_files := kf_files s; kf_pipes := kf_pipes s; kf_uart := d_uart x; kf_cons := d_cons x;
         kf_panicked := panicked x; kf_locking := locking x; kf_procs := d_procs x; kf_killed := d_killed x;
         kf_ofile := kf_ofile s; kf_sz := kf_sz s; kf_trapframe := kf_trapframe s; kf_name := kf_name s |} |}; two_levels S.
Defined.

Section File.
Context {LY : Layout} {WK : Wakeups} {S : Type} {B : Blocks S}.
Abbreviation K := (M (kfs S)).
Abbreviation fs m := (zoom (S := fss S) m).
Definition getf (i : nat) : K file := gets (fun s => kf_files s !!! i).
Definition updf (i : nat) (f : file -> file) : K unit := modify (fun s => put_files (alter f i (kf_files s)) s).
Definition begin_op : K unit := fs (zoom (S := S) bk_begin_op).
Definition end_op : K unit := fs (zoom (S := S) bk_end_op).

(** [devsw], as [consoleinit] fills it: the console is the only device. *)
Definition devsw_read (major : Z) : option (bool -> Z -> Z -> M dev Z) := if major =? CONSOLE then Some consoleread else None.
Definition devsw_write (major : Z) : option (bool -> Z -> Z -> M dev Z) := if major =? CONSOLE then Some consolewrite else None.

Definition fileinit : K unit := initlock LFtable.

(** The loop of [filealloc]. *)
Fixpoint free_file (l : list file) (i : nat) : option nat :=
  match l with
  | [] => None
  | f :: l' => if fl_ref f =? 0 then Some i else free_file l' (Datatypes.S i)
  end.
Definition filealloc : K (option nat) :=
  acquire LFtable ;;
  let! r := gets (fun s => free_file (kf_files s) 0) in
  match r with
  | Some f => updf f (fun x => set_fref x 1) ;; release LFtable ;; mret_ (Some f)
  | None => release LFtable ;; mret_ None
  end.

Definition filedup (f : nat) : K nat :=
  acquire LFtable ;;
  let! x := getf f in
  if fl_ref x <? 1 then panic "filedup"
  else updf f (fun x => set_fref x (fl_ref x + 1)) ;; release LFtable ;; mret_ f.

Definition fileclose (f : nat) : K unit :=
  acquire LFtable ;;
  let! x := getf f in
  if fl_ref x <? 1 then panic "fileclose"
  else
    updf f (fun x => set_fref x (fl_ref x - 1)) ;;
    let! ff := getf f in
    if 0 <? fl_ref ff then release LFtable
    else
      updf f (fun x => set_ftype (set_fref x 0) FD_NONE) ;;
      release LFtable ;;
      match fl_type ff with
      | FD_PIPE => zoom (S := pstate) (pipeclose (fl_pipe ff) (fl_writable ff))
      | FD_INODE | FD_DEVICE => begin_op ;; fs (iput (fl_ip ff)) ;; end_op
      | FD_NONE => mret_ tt
      end.

(** The bytes of a [struct stat]; four of them are padding. *)
Variable pad : list Z.
Definition stat_bytes (st : stat) : list Z :=
  le_bytes 4 (st_dev st) ++ le_bytes 4 (st_ino st) ++ le_bytes 2 (st_type st) ++ le_bytes 2 (st_nlink st) ++ pad ++ le_bytes 8 (st_size st).

Definition filestat (f : nat) (addr : Z) : K Z :=
  let! x := getf f in
  match fl_type x with
  | FD_INODE | FD_DEVICE =>
      fs (ilock (fl_ip x)) ;;
      let! st := fs (stati (fl_ip x)) in
      fs (iunlock (fl_ip x)) ;;
      let! pt := gets (fun s => f_pagetable (kf_fs s)) in
      let! r := zoom (S := pmem) (copyout pt addr (stat_bytes st)) in
      mret_ (if r <? 0 then -1 else 0)
  | _ => mret_ (-1)
  end.

Definition fileread (f : nat) (addr n : Z) : K Z :=
  let! x := getf f in
  if negb (fl_readable x) then mret_ (-1)
  else
    match fl_type x with
    | FD_PIPE => zoom (S := pstate) (piperead (Datatypes.S max_wakeups) (fl_pipe x) addr n)
    | FD_DEVICE =>
        if (fl_major x <? 0) || (NDEV <=? fl_major x) then mret_ (-1)
        else match devsw_read (fl_major x) with
             | None => mret_ (-1)
             | Some read => zoom (S := dev) (read true addr n)
             end
    | FD_INODE =>
        fs (ilock (fl_ip x)) ;;
        let! r := fs (readi (fl_ip x) true addr (fl_off x) (u32 n)) in
        (if 0 <? r then updf f (fun y => set_foff y (u32 (fl_off y + r))) else mret_ tt) ;;
        fs (iunlock (fl_ip x)) ;;
        mret_ r
    | FD_NONE => panic "fileread"
    end.

(** [int max = ((MAXOPBLOCKS-1-1-2) / 2) * BSIZE] *)
Definition max_chunk : Z := (MAXOPBLOCKS - 1 - 1 - 2) / 2 * BSIZE.

(** One turn of [while(i < n)] writes [n1] bytes. *)
Definition write_chunk (f : nat) (addr n1 : Z) : K Z :=
  begin_op ;;
  let! x := getf f in
  fs (ilock (fl_ip x)) ;;
  let! r := fs (writei (fl_ip x) true addr (fl_off x) (u32 n1)) in
  (if 0 <? r then updf f (fun y => set_foff y (u32 (fl_off y + r))) else mret_ tt) ;;
  fs (iunlock (fl_ip x)) ;;
  end_op ;;
  mret_ r.
Fixpoint filewrite_loop (fuel : nat) (f : nat) (addr n i : Z) : K Z :=
  match fuel with
  | O => nofuel
  | Datatypes.S fuel' =>
      if i <? n then
        let n1 := Z.min (n - i) max_chunk in
        let! r := write_chunk f (u64 (addr + i)) n1 in
        if r <? 0 then mret_ i
        else if negb (r =? n1) then panic "short filewrite"
        else filewrite_loop fuel' f addr n (i + r)
      else mret_ i
  end.
Definition filewrite (f : nat) (addr n : Z) : K Z :=
  let! x := getf f in
  if negb (fl_writable x) then mret_ (-1)
  else
    match fl_type x with
    | FD_PIPE => zoom (S := pstate) (pipewrite (Datatypes.S max_wakeups) (fl_pipe x) addr n)
    | FD_DEVICE =>
        if (fl_major x <? 0) || (NDEV <=? fl_major x) then mret_ (-1)
        else match devsw_write (fl_major x) with
             | None => mret_ (-1)
             | Some write => zoom (S := dev) (write true addr n)
             end
    | FD_INODE =>
        let! i := filewrite_loop (Z.to_nat (n / max_chunk) + 2) f addr n 0 in
        mret_ (if i =? n then n else -1)
    | FD_NONE => panic "filewrite"
    end.

(** ** [pipealloc] *)

(** The label [bad]. *)
Definition pipealloc_bad (pi : Z) (f0 f1 : option nat) : K (option (nat * nat)) :=
  (if negb (pi =? 0) then zoom (S := pmem) (kfree pi) else mret_ tt) ;;
  (match f0 with Some f => fileclose f | None => mret_ tt end) ;;
  (match f1 with Some f => fileclose f | None => mret_ tt end) ;;
  mret_ None.
Definition pipealloc : K (option (nat * nat)) :=
  let! f0 := filealloc in
  match f0 with
  | None => pipealloc_bad 0 None None
  | Some a =>
      let! f1 := filealloc in
      match f1 with
      | None => pipealloc_bad 0 (Some a) None
      | Some b =>
          let! pi := zoom (S := pmem) kalloc in
          if pi =? 0 then pipealloc_bad 0 (Some a) (Some b)
          else
            let! m := gets (fun s => mem (f_pm (kf_fs s))) in
            zoom (S := pstate) (setpipe pi (pipe_init (bytes_at m (pi + 24) (Z.to_nat PIPESIZE)))) ;;
            zoom (S := pstate) (initlock (LPipe pi)) ;;
            updf a (fun x => set_fpipe x true false pi) ;;
            updf b (fun x => set_fpipe x false true pi) ;;
            mret_ (Some (a, b))
      end
  end.
End File.
