(* ===== verification/SysFile.v ===== *)
(** kernel/sysfile.c: the system calls on files, except exec.

    A result is the [int] or [uint64] the C function returns, -1 for failure. *)

From S2P Require Import Prelude Riscv Mem Sync Kalloc Vm Proc Uart Console Sleeplock Bio DiskFmt Blocks Fs Pipe File Syscall.


#[global] Instance kfs_myproc {S} : Myproc (kfs S) := {|
  my_pmem := kfs_pm; my_pagetable := fun s => f_pagetable (kf_fs s); my_sz := kf_sz; my_trapframe := kf_trapframe |}.

(** The flag [o] in [omode]. *)
Definition has (omode o : Z) : bool := negb (Z.land omode o =? 0).

(** The loop of [fdalloc]: the first descriptor that is free. *)
Fixpoint free_fd (l : list (option nat)) (fd : Z) : option Z :=
  match l with
  | [] => None
  | None :: _ => Some fd
  | Some _ :: l' => free_fd l' (fd + 1)
  end.

Section SysFile.
Context {LY : Layout} {WK : Wakeups} {S : Type} {B : Blocks S}.
Abbreviation K := (M (kfs S)).
Abbreviation fs m := (zoom (S := fss S) m).

(** The addresses of local variables: the path names [path], [old] and [new], the
    name [name], the directory entry [de], and the [name] of [namei]; and of the
    strings that are the names of a directory and its parent. *)
Context (path old new name de buf dot dotdot : Z) (pad : list Z).

Definition set_ofd (fd : Z) (f : option nat) : K unit := modify (fun s => put_ofile (<[Z.to_nat fd := f]> (kf_ofile s)) s).

(** [argfd]: the descriptor and the file, or nothing. *)
Definition argfd (n : Z) : K (option (Z * nat)) :=
  let! fd := argint n in
  if (fd <? 0) || (NOFILE <=? fd) then mret_ None
  else
    let! f := gets (fun s => kf_ofile s !!! Z.to_nat fd) in
    mret_ (match f with Some f => Some (fd, f) | None => None end).

Definition fdalloc (f : nat) : K Z :=
  let! r := gets (fun s => free_fd (take (Z.to_nat NOFILE) (kf_ofile s)) 0) in
  match r with
  | Some fd => set_ofd fd (Some f) ;; mret_ fd
  | None => mret_ (-1)
  end.

Definition sys_dup : K Z :=
  let! r := argfd 0 in
  match r with
  | None => mret_ (-1)
  | Some (_, f) =>
      let! fd := fdalloc f in
      if fd <? 0 then mret_ (-1) else filedup f ;; mret_ fd
  end.

Definition sys_read : K Z :=
  let! r := argfd 0 in
  match r with
  | None => mret_ (-1)
  | Some (_, f) => let! n := argint 2 in let! p := argaddr 1 in fileread f p n
  end.

Definition sys_write : K Z :=
  let! r := argfd 0 in
  match r with
  | None => mret_ (-1)
  | Some (_, f) => let! n := argint 2 in let! p := argaddr 1 in filewrite f p n
  end.

Definition sys_close : K Z :=
  let! r := argfd 0 in
  match r with
  | None => mret_ (-1)
  | Some (fd, f) => set_ofd fd None ;; fileclose f ;; mret_ 0
  end.

Definition sys_fstat : K Z :=
  let! r := argfd 0 in
  match r with
  | None => mret_ (-1)
  | Some (_, f) => let! st := argaddr 1 in filestat pad f st
  end.

(** [ip->nlink] changed by [k], and [iupdate(ip)]. *)
Definition add_link (ip : nat) (k : Z) : K unit :=
  fs (updd ip (fun d => set_nlink d (s16 (d_nlink d + k)))) ;;
  fs (iupdate ip).

(** The label [bad] of [sys_link]. *)
Definition link_bad (ip : nat) : K Z :=
  fs (ilock ip) ;;
  add_link ip (-1) ;;
  fs (iunlockput ip) ;;
  end_op ;;
  mret_ (-1).
Definition sys_link : K Z :=
  let! r := argstr 0 old MAXPATH in
  if r <? 0 then mret_ (-1)
  else
    let! r := argstr 1 new MAXPATH in
    if r <? 0 then mret_ (-1)
    else
      begin_op ;;
      let! ip := fs (namei de buf old) in
      match ip with
      | None => end_op ;; mret_ (-1)
      | Some ip =>
          fs (ilock ip) ;;
          let! x := fs (geti ip) in
          if d_type (i_d x) =? T_DIR then fs (iunlockput ip) ;; end_op ;; mret_ (-1)
          else
            add_link ip 1 ;;
            fs (iunlock ip) ;;
            let! dp := fs (nameiparent de new name) in
            match dp with
            | None => link_bad ip
            | Some dp =>
                fs (ilock dp) ;;
                let! y := fs (geti dp) in
                let! x := fs (geti ip) in
                let! r := (if negb (i_dev y =? i_dev x) then mret_ (-1) else fs (dirlink de dp name (i_inum x))) in
                if r <? 0 then fs (iunlockput dp) ;; link_bad ip
                else fs (iunlockput dp) ;; fs (iput ip) ;; end_op ;; mret_ 0
            end
      end.

(** [isdirempty]: the loop, from the third entry on. *)
Fixpoint isdirempty_loop (fuel : nat) (dp : nat) (off : Z) : M (fss S) bool :=
  match fuel with
  | O => nofuel
  | Datatypes.S fuel' =>
      let! x := geti dp in
      if off <? d_size (i_d x) then
        let! r := readi dp false de off dirent_size in
        if negb (r =? dirent_size) then panic "isdirempty: readi"
        else
          let! m := f_mem in
          if negb (de_inum de m =? 0) then mret_ false else isdirempty_loop fuel' dp (off + dirent_size)
      else mret_ true
  end.
Definition isdirempty (dp : nat) : M (fss S) bool :=
  let! x := geti dp in isdirempty_loop (dir_fuel x) dp (2 * dirent_size).

(** The label [bad] of [sys_unlink]. *)
Definition unlink_bad (dp : nat) : K Z :=
  fs (iunlockput dp) ;; end_op ;; mret_ (-1).
(** [sys_unlink] once the entry has been found at [off] and its inode is locked. *)
Definition unlink_entry (dp ip : nat) (off : Z) : K Z :=
  fs (let! m := f_mem in f_set_mem (memset m de 0 dirent_size)) ;;
  let! r := fs (writei dp false de off dirent_size) in
  if negb (r =? dirent_size) then panic "unlink: writei"
  else
    let! x := fs (geti ip) in
    (if d_type (i_d x) =? T_DIR then add_link dp (-1) else mret_ tt) ;;
    fs (iunlockput dp) ;;
    add_link ip (-1) ;;
    fs (iunlockput ip) ;;
    end_op ;;
    mret_ 0.
Definition sys_unlink : K Z :=
  let! r := argstr 0 path MAXPATH in
  if r <? 0 then mret_ (-1)
  else
    begin_op ;;
    let! dp := fs (nameiparent de path name) in
    match dp with
    | None => end_op ;; mret_ (-1)
    | Some dp =>
        fs (ilock dp) ;;
        let! m := fs f_mem in
        if (namecmp m name dot =? 0) || (namecmp m name dotdot =? 0) then unlink_bad dp
        else
          let! r := fs (dirlookup de dp name) in
          match r with
          | None => unlink_bad dp
          | Some (ip, off) =>
              fs (ilock ip) ;;
              let! x := fs (geti ip) in
              if d_nlink (i_d x) <? 1 then panic "unlink: nlink < 1"
              else
                let! full := (if d_type (i_d x) =? T_DIR then let! e := fs (isdirempty ip) in mret_ (negb e) else mret_ false) in
                if (full : bool) then fs (iunlockput ip) ;; unlink_bad dp else unlink_entry dp ip off
          end
    end.

(** [create] for a name that is not in the directory [dp]. *)
Definition create_new (dp : nat) (type major minor : Z) : K nat :=
  let! y := fs (geti dp) in
  let! ip := fs (ialloc (i_dev y) type) in
  fs (ilock ip) ;;
  fs (updd ip (fun d => set_nlink (set_minor (set_major d major) minor) 1)) ;;
  fs (iupdate ip) ;;
  (if type =? T_DIR then
     add_link dp 1 ;;
     let! x := fs (geti ip) in
     let! r := fs (dirlink de ip dot (i_inum x)) in
     if r <? 0 then panic "create dots"
     else
       let! y := fs (geti dp) in
       let! r := fs (dirlink de ip dotdot (i_inum y)) in
       if r <? 0 then panic "create dots" else mret_ tt
   else mret_ tt) ;;
  let! x := fs (geti ip) in
  let! r := fs (dirlink de dp name (i_inum x)) in
  if r <? 0 then panic "create: dirlink"
  else fs (iunlockput dp) ;; mret_ ip.
Definition create (path type major minor : Z) : K (option nat) :=
  let! dp := fs (nameiparent de path name) in
  match dp with
  | None => mret_ None
  | Some dp =>
      fs (ilock dp) ;;
      let! r := fs (dirlookup de dp name) in
      match r with
      | Some (ip, _) =>
          fs (iunlockput dp) ;;
          fs (ilock ip) ;;
          let! x := fs (geti ip) in
          if (type =? T_FILE) && ((d_type (i_d x) =? T_FILE) || (d_type (i_d x) =? T_DEVICE)) then mret_ (Some ip)
          else fs (iunlockput ip) ;; mret_ None
      | None => let! ip := create_new dp type major minor in mret_ (Some ip)
      end
  end.

(** [iunlockput(ip); end_op(); return -1] *)
Definition open_fail (ip : nat) : K Z := fs (iunlockput ip) ;; end_op ;; mret_ (-1).

(** The inode [sys_open] opens, locked; nothing when it returns -1. *)
Definition open_inode (omode : Z) : K (option nat) :=
  if has omode O_CREATE then
    let! ip := create path T_FILE 0 0 in
    match ip with
    | None => end_op ;; mret_ None
    | Some ip => mret_ (Some ip)
    end
  else
    let! ip := fs (namei de buf path) in
    match ip with
    | None => end_op ;; mret_ None
    | Some ip =>
        fs (ilock ip) ;;
        let! x := fs (geti ip) in
        if (d_type (i_d x) =? T_DIR) && negb (omode =? O_RDONLY) then open_fail ip ;; mret_ None
        else mret_ (Some ip)
    end.

(** The fields [sys_open] sets. *)
Definition opened_as (omode : Z) (ip : nat) (d : dinode) (f : file) : file :=
  {| fl_type := if d_type d =? T_DEVICE then FD_DEVICE else FD_INODE; fl_ref := fl_ref f;
     fl_readable := negb (has omode O_WRONLY); fl_writable := has omode O_WRONLY || has omode O_RDWR;
     fl_pipe := fl_pipe f; fl_ip := ip; fl_off := if d_type d =? T_DEVICE then fl_off f else 0;
     fl_major := if d_type d =? T_DEVICE then d_major d else fl_major f |}.

Definition sys_open : K Z :=
  let! n := argstr 0 path MAXPATH in
  if n <? 0 then mret_ (-1)
  else
    let! omode := argint 1 in
    begin_op ;;
    let! ip := open_inode omode in
    match ip with
    | None => mret_ (-1)
    | Some ip =>
        let! x := fs (geti ip) in
        let d := i_d x in
        if (d_type d =? T_DEVICE) && ((d_major d <? 0) || (NDEV <=? d_major d)) then open_fail ip
        else
          let! f := filealloc in
          match f with
          | None => open_fail ip
          | Some f =>
              let! fd := fdalloc f in
              if fd <? 0 then fileclose f ;; open_fail ip
              else
                updf f (opened_as omode ip d) ;;
                (if has omode O_TRUNC && (d_type d =? T_FILE) then fs (itrunc ip) else mret_ tt) ;;
                fs (iunlock ip) ;;
                end_op ;;
                mret_ fd
          end
    end.

Definition sys_mkdir : K Z :=
  begin_op ;;
  let! r := argstr 0 path MAXPATH in
  if r <? 0 then end_op ;; mret_ (-1)
  else
    let! ip := create path T_DIR 0 0 in
    match ip with
    | None => end_op ;; mret_ (-1)
    | Some ip => fs (iunlockput ip) ;; end_op ;; mret_ 0
    end.

Definition sys_mknod : K Z :=
  begin_op ;;
  let! r := argstr 0 path MAXPATH in
  if r <? 0 then end_op ;; mret_ (-1)
  else
    let! major := argint 1 in
    let! minor := argint 2 in
    let! ip := create path T_DEVICE (s16 major) (s16 minor) in
    match ip with
    | None => end_op ;; mret_ (-1)
    | Some ip => fs (iunlockput ip) ;; end_op ;; mret_ 0
    end.

Definition set_my_cwd (ip : nat) : K unit :=
  fs (modify (fun y => {| f_blk := f_blk y; f_sb := f_sb y; f_inodes := f_inodes y; f_pm := f_pm y;
    f_pagetable := f_pagetable y; f_cwd := ip; f_woken := f_woken y |})).
Definition sys_chdir : K Z :=
  begin_op ;;
  let! r := argstr 0 path MAXPATH in
  if r <? 0 then end_op ;; mret_ (-1)
  else
    let! ip := fs (namei de buf path) in
    match ip with
    | None => end_op ;; mret_ (-1)
    | Some ip =>
        fs (ilock ip) ;;
        let! x := fs (geti ip) in
        if negb (d_type (i_d x) =? T_DIR) then fs (iunlockput ip) ;; end_op ;; mret_ (-1)
        else
          fs (iunlock ip) ;;
          let! cwd := gets (fun s => f_cwd (kf_fs s)) in
          fs (iput cwd) ;;
          end_op ;;
          set_my_cwd ip ;;
          mret_ 0
    end.

(** What [sys_pipe] undoes when it fails. *)
Definition pipe_undo (fds : list Z) (rf wf : nat) : K Z :=
  foldr (fun fd m => set_ofd fd None ;; m) (mret_ tt) fds ;;
  fileclose rf ;;
  fileclose wf ;;
  mret_ (-1).
Definition sys_pipe : K Z :=
  let! fdarray := argaddr 0 in
  let! r := pipealloc in
  match r with
  | None => mret_ (-1)
  | Some (rf, wf) =>
      let! fd0 := fdalloc rf in
      if fd0 <? 0 then pipe_undo [] rf wf
      else
        let! fd1 := fdalloc wf in
        if fd1 <? 0 then pipe_undo [fd0] rf wf
        else
          let! pt := gets my_pagetable in
          let! r := zoom (S := pmem) (copyout pt fdarray (le_bytes 4 fd0)) in
          if r <? 0 then pipe_undo [fd0; fd1] rf wf
          else
            let! r := zoom (S := pmem) (copyout pt (u64 (fdarray + 4)) (le_bytes 4 fd1)) in
            if r <? 0 then pipe_undo [fd0; fd1] rf wf else mret_ 0
  end.
End SysFile.
