(* ===== verification/Exec.v ===== *)
(** kernel/exec.c and [sys_exec] of kernel/sysfile.c: replacing the image of a process. *)

From S2P Require Import Prelude Riscv Mem Sync Kalloc Vm Proc Uart Console Sleeplock Bio DiskFmt Blocks Fs Pipe File Syscall SysFile.

(** [struct elfhdr] and [struct proghdr] *)
Definition ELF_MAGIC : Z := 0x464C457F.
Definition ELF_PROG_LOAD : Z := 1.
Definition elf_size : Z := 64.
Definition ph_size : Z := 56.
Record elfhdr := ElfHdr { elf_magic : Z; elf_entry : Z; elf_phoff : Z; elf_phnum : Z }.
Definition get_elfhdr (m : memory) (a : Z) : elfhdr :=
  {| elf_magic := load_le m a 4; elf_entry := load_le m (a + 24) 8; elf_phoff := load_le m (a + 32) 8; elf_phnum := load_le m (a + 56) 2 |}.
Record proghdr := ProgHdr { ph_type : Z; ph_off : Z; ph_vaddr : Z; ph_filesz : Z; ph_memsz : Z }.
Definition get_proghdr (m : memory) (a : Z) : proghdr :=
  {| ph_type := load_le m a 4; ph_off := load_le m (a + 8) 8; ph_vaddr := load_le m (a + 16) 8;
     ph_filesz := load_le m (a + 32) 8; ph_memsz := load_le m (a + 40) 8 |}.

(** The loop that finds the program name: what follows the last slash of the path. *)
Fixpoint last_elem (fuel : nat) (m : memory) (s last : Z) : option Z :=
  match fuel with
  | O => None
  | S fuel' =>
      if load8 m s =? 0 then Some last
      else last_elem fuel' m (s + 1) (if load8 m s =? slash then s + 1 else last)
  end.

Section Exec.
Context {LY : Layout} {WK : Wakeups} {S : Type} {B : Blocks S}.
Abbreviation K := (M (kfs S)).
Abbreviation fs m := (zoom (S := fss S) m).
Abbreviation vm m := (zoom (S := pmem) m).

(** The addresses of the local variables [elf] and [ph], of those of kernel/fs.c,
    and of [path] in [sys_exec]. *)
Context (elf ph de buf path : Z).

(** [for(i = 0; i < sz; i += PGSIZE)] of [loadseg]. *)
Fixpoint loadseg_loop (fuel : nat) (pagetable va : Z) (ip : nat) (offset sz i : Z) : K Z :=
  match fuel with
  | O => nofuel
  | Datatypes.S fuel' =>
      if i <? sz then
        let! pa := vm (walkaddr pagetable (u64 (va + i))) in
        if pa =? 0 then panic "loadseg: address should exist"
        else
          let n := if u32 (sz - i) <? PGSIZE then u32 (sz - i) else PGSIZE in
          let! r := fs (readi ip false pa (u32 (offset + i)) n) in
          if negb (r =? n) then mret_ (-1) else loadseg_loop fuel' pagetable va ip offset sz (u32 (i + PGSIZE))
      else mret_ 0
  end.
Definition loadseg (pagetable va : Z) (ip : nat) (offset sz : Z) : K Z :=
  if negb (va mod PGSIZE =? 0) then panic "loadseg: va must be page aligned"
  else loadseg_loop (Datatypes.S (Datatypes.S (Z.to_nat (sz / PGSIZE)))) pagetable va ip offset sz 0.

(** [for(i=0, off=elf.phoff; i<elf.phnum; i++, off+=sizeof(ph))], with [n] headers
    left: whether all is loaded, and [sz]. *)
Fixpoint load_loop (n : nat) (pagetable : Z) (ip : nat) (off sz : Z) : K (bool * Z) :=
  match n with
  | O => mret_ (true, sz)
  | Datatypes.S n' =>
      let! r := fs (readi ip false ph (u32 off) ph_size) in
      if negb (r =? ph_size) then mret_ (false, sz)
      else
        let! m := fs f_mem in
        let p := get_proghdr m ph in
        if negb (ph_type p =? ELF_PROG_LOAD) then load_loop n' pagetable ip (s32 (off + ph_size)) sz
        else if ph_memsz p <? ph_filesz p then mret_ (false, sz)
        else if u64 (ph_vaddr p + ph_memsz p) <? ph_vaddr p then mret_ (false, sz)
        else
          let! sz1 := vm (uvmalloc pagetable sz (u64 (ph_vaddr p + ph_memsz p))) in
          if sz1 =? 0 then mret_ (false, sz)
          else if negb (ph_vaddr p mod PGSIZE =? 0) then mret_ (false, sz1)
          else
            let! r := loadseg pagetable (ph_vaddr p) ip (u32 (ph_off p)) (u32 (ph_filesz p)) in
            if r <? 0 then mret_ (false, sz1)
            else load_loop n' pagetable ip (s32 (off + ph_size)) sz1
  end.

(** [for(argc = 0; argv[argc]; argc++)]: [sp] and the entries of [ustack], or nothing. *)
Fixpoint push_args (argv : list Z) (pagetable sp stackbase : Z) (ustack : list Z) : K (option (Z * list Z)) :=
  match argv with
  | [] => mret_ (Some (sp, ustack))
  | arg :: argv' =>
      if MAXARG <=? Z.of_nat (length ustack) then mret_ None
      else
        let! m := fs f_mem in
        match strlen str_fuel m arg with
        | None => nofuel
        | Some len =>
            let sp := u64 (sp - (len + 1)) in
            let sp := sp - sp mod 16 in
            if sp <? stackbase then mret_ None
            else
              let! r := vm (copyout pagetable sp (bytes_at m arg (Z.to_nat (len + 1)))) in
              if r <? 0 then mret_ None else push_args argv' pagetable sp stackbase (ustack ++ [sp])
        end
  end.

(** The label [bad]. *)
Definition exec_bad (pagetable sz : Z) (ip : option nat) : K Z :=
  (if negb (pagetable =? 0) then vm (proc_freepagetable pagetable sz) else mret_ tt) ;;
  (match ip with Some ip => fs (iunlockput ip) ;; end_op | None => mret_ tt end) ;;
  mret_ (-1).

Definition set_image (pagetable sz : Z) (name : list Z) : K unit :=
  modify (fun s => let y := kf_fs s in
    {| kf_fs := {| f_blk := f_blk y; f_sb := f_sb y; f_inodes := f_inodes y; f_pm := f_pm y; f_pagetable := pagetable;
         f_cwd := f_cwd y; f_woken := f_woken y |};
       kf_files := kf_files s; kf_pipes := kf_pipes s; kf_uart := kf_uart s; kf_cons := kf_cons s;
       kf_panicked := kf_panicked s; kf_locking := kf_locking s; kf_procs := kf_procs s; kf_killed := kf_killed s;
       kf_ofile := kf_ofile s; kf_sz := sz; kf_trapframe := kf_trapframe s; kf_name := name |}).

(** [exec] from the allocation of the stack on. *)
Definition exec_stack (pth : Z) (argv : list Z) (pagetable sz entry : Z) : K Z :=
  let! oldsz := gets kf_sz in
  let sz := PGROUNDUP sz in
  let! sz1 := vm (uvmalloc pagetable sz (u64 (sz + 2 * PGSIZE))) in
  if sz1 =? 0 then exec_bad pagetable sz None
  else
    let sz := sz1 in
    vm (uvmclear pagetable (sz - 2 * PGSIZE)) ;;
    let stackbase := sz - PGSIZE in
    let! r := push_args argv pagetable sz stackbase [] in
    match r with
    | None => exec_bad pagetable sz None
    | Some (sp, ustack) =>
        let argc := Z.of_nat (length ustack) in
        let sp := u64 (sp - (argc + 1) * 8) in
        let sp := sp - sp mod 16 in
        if sp <? stackbase then exec_bad pagetable sz None
        else
          let! r := vm (copyout pagetable sp (concat (le_bytes 8 <$> ustack ++ [0]))) in
          if r <? 0 then exec_bad pagetable sz None
          else
            tf_set (tf_arg 1) sp ;;
            let! m := fs f_mem in
            match last_elem path_fuel m pth pth with
            | None => nofuel
            | Some last =>
                let! oldpagetable := gets (fun s => f_pagetable (kf_fs s)) in
                set_image pagetable sz (cstr m last 15) ;;
                tf_set tf_epc entry ;;
                tf_set tf_sp sp ;;
                vm (proc_freepagetable oldpagetable oldsz) ;;
                mret_ argc
            end
    end.

Definition exec (pth : Z) (argv : list Z) : K Z :=
  begin_op ;;
  let! ip := fs (namei de buf pth) in
  match ip with
  | None => end_op ;; mret_ (-1)
  | Some ip =>
      fs (ilock ip) ;;
      let! r := fs (readi ip false elf 0 elf_size) in
      if negb (r =? elf_size) then exec_bad 0 0 (Some ip)
      else
        let! m := fs f_mem in
        let h := get_elfhdr m elf in
        if negb (elf_magic h =? ELF_MAGIC) then exec_bad 0 0 (Some ip)
        else
          let! tf := gets kf_trapframe in
          let! pagetable := vm (proc_pagetable tf) in
          if pagetable =? 0 then exec_bad 0 0 (Some ip)
          else
            let! '(ok, sz) := load_loop (Z.to_nat (elf_phnum h)) pagetable ip (s32 (elf_phoff h)) 0 in
            if negb ok then exec_bad pagetable sz (Some ip)
            else
              fs (iunlockput ip) ;;
              end_op ;;
              exec_stack pth argv pagetable sz (elf_entry h)
  end.

(** ** [sys_exec] *)

(** [for(i = 0; i < NELEM(argv) && argv[i] != 0; i++) kfree(argv[i]);] *)
Definition free_args (argv : list Z) : K unit := foldr (fun a m => vm (kfree a) ;; m) (mret_ tt) argv.

(** The loop over the arguments, with [n] entries of [argv] left: whether it ended
    well, and the pages in [argv]. *)
Fixpoint fetch_args (n : nat) (uargv : Z) (argv : list Z) : K (bool * list Z) :=
  match n with
  | O => mret_ (false, argv)
  | Datatypes.S n' =>
      let! uarg := fetchaddr (u64 (uargv + 8 * Z.of_nat (length argv))) in
      match uarg with
      | None => mret_ (false, argv)
      | Some uarg =>
          if uarg =? 0 then mret_ (true, argv)
          else
            let! pg := vm kalloc in
            if pg =? 0 then mret_ (false, argv)
            else
              let! r := fetchstr uarg pg PGSIZE in
              if r <? 0 then mret_ (false, argv ++ [pg]) else fetch_args n' uargv (argv ++ [pg])
      end
  end.
Definition sys_exec : K Z :=
  let! r := argstr 0 path MAXPATH in
  if r <? 0 then mret_ (-1)
  else
    let! uargv := argaddr 1 in
    let! '(ok, argv) := fetch_args (Z.to_nat MAXARG) uargv [] in
    if (ok : bool) then
      let! ret := exec path argv in
      free_args argv ;;
      mret_ ret
    else free_args argv ;; mret_ (-1).
End Exec.
