(* ===== verification/FileWrite.v ===== *)
(** [filewrite] of kernel/file.c: a write is a sequence of transactions, and each of
    them leaves a file system. *)

From S2P Require Import Prelude Riscv Mem Sync Kalloc Vm VmPt VmMap VmCopy Proc Uart Console Sleeplock Bio DiskFmt Blocks Fs.
From S2P Require Import FsBlk FsBmap FsWrite FsLock Pipe File.

(** ** User memory *)

Lemma ubytes_slice f va n data k m :
  ubytes f va n = Some data -> (k + m <= n)%nat -> ubytes f (va + Z.of_nat k) m = Some (take m (drop k data)).
Proof.
  intros H Hkm. replace n with (k + (m + (n - k - m)))%nat in H by lia. rewrite !ubytes_app in H.
  apply bind_Some in H as (l1 & H1 & H). apply bind_Some in H as (l2 & H2 & H). apply bind_Some in H2 as (l3 & H3 & H2).
  apply bind_Some in H2 as (l4 & H4 & H2). simplify_eq. rewrite H3. f_equal. apply ubytes_length in H1, H3.
  rewrite drop_app_length' by done. by rewrite take_app_length' by done.
Qed.

Lemma ubytes_range f va n data :
  (forall a b, f a = Some b -> 0 <= b < 256) -> ubytes f va n = Some data -> Forall (fun y => 0 <= y < 256) data.
Proof.
  intros Hf. revert va data. induction n as [|n IH]; intros va data; cbn [ubytes]; [intros [= <-]; constructor|].
  intros (b & Hb & H)%bind_Some. apply bind_Some in H as (bs & Hbs & H). simplify_eq. constructor; [by eapply Hf|by eapply IH].
Qed.

(** The bytes a process has at [src]. *)
Lemma user_provides {LY : Layout} {LYok : LayoutOk} p pt t u l src n data :
  as_rep p pt t u l -> 0 <= src -> 0 <= n -> src + n < 2 ^ 64 -> ubytes (ubyte (mem p) u) src (Z.to_nat n) = Some data ->
  provides true pt src n data p.
Proof.
  intros R Hs Hn Hov Hd. pose proof (ubytes_length _ _ _ _ Hd) as Hl. split; [lia|]. split.
  - eapply ubytes_range; [|exact Hd]. intros a b (pa & _ & ->)%fmap_Some_1. apply load8_range.
  - intros k m Hk Hm Hkm. unfold copyin_either, copyin. rewrite u64_small by lia.
    destruct (copyin_loop_spec (Datatypes.S (Z.to_nat m)) p pt t u l (src + k) m R) as (r & bs & E & Hb); [lia|lia|].
    rewrite E. replace (src + k) with (src + Z.of_nat (Z.to_nat k)) in Hb by lia.
    rewrite (ubytes_slice _ _ _ _ (Z.to_nat k) (Z.to_nat m) Hd) in Hb by lia. destruct Hb as [-> ->]. done.
Qed.

(** ** What a write leaves on disk *)

Record rewrote (sb : superblock) (I : Z -> dinode) (i off : Z) (data : list Z) (v0 v : Z -> block) (d : dinode) : Prop := {
  rw_inv : fs_inv sb v (<[i := d]> I) ∅;
  rw_disk : disk_inode sb v i = d;
  rw_disk_other : forall j, ino sb j -> j <> i -> disk_inode sb v j = disk_inode sb v0 j;
  rw_d : d = set_size (set_addrs (I i) (d_addrs d)) (Z.max (d_size (I i)) (off + Z.of_nat (length data)));
  rw_bytes : forall k, 0 <= k < d_size d -> fbyte v d k =
    if decide (off <= k < off + Z.of_nat (length data)) then data !!! Z.to_nat (k - off) else fbyte v0 (I i) k;
  rw_other : forall j k, ino sb j -> j <> i -> 0 <= k < d_size (I j) -> fbyte v (I j) k = fbyte v0 (I j) k }.

Lemma rewrote_size sb I i off data v0 v d :
  rewrote sb I i off data v0 v d -> d_size d = Z.max (d_size (I i)) (off + Z.of_nat (length data)).
Proof. intros H. rewrite (rw_d _ _ _ _ _ _ _ _ H). done. Qed.

Lemma rewrote_nil sb I i off v :
  fs_inv sb v I ∅ -> disk_inode sb v i = I i -> off <= d_size (I i) -> rewrote sb I i off [] v v (I i).
Proof.
  intros H Hd Ho. split; try done.
  - by apply inv_self.
  - cbn. rewrite Z.max_l by lia. by destruct (I i).
  - intros k Hk. cbn. by rewrite decide_False by lia.
Qed.

(** Two writes one after the other are one write. *)
Lemma rewrote_app sb I i off data1 data2 v0 v1 v2 d1 d2 :
  0 <= off <= d_size (I i) -> rewrote sb I i off data1 v0 v1 d1 ->
  rewrote sb (<[i := d1]> I) i (off + Z.of_nat (length data1)) data2 v1 v2 d2 -> rewrote sb I i off (data1 ++ data2) v0 v2 d2.
Proof.
  intros Ho H1 H2. pose proof (rewrote_size _ _ _ _ _ _ _ _ H1) as S1. pose proof (rewrote_size _ _ _ _ _ _ _ _ H2) as S2.
  destruct H1 as [A1 A2 A3 A4 A5 A6], H2 as [B1 B2 B3 B4 B5 B6]. rewrite fn_lookup_insert in B4, B5, S2.
  assert (Hsz : d_size d2 = Z.max (d_size (I i)) (off + Z.of_nat (length (data1 ++ data2)))) by (rewrite length_app; lia).
  split; try done.
  - eapply inv_ext; [|exact B1]. intros j _. by rewrite insert_twice.
  - intros j Hj Hne. by rewrite B3, A3.
  - rewrite <- Hsz. rewrite B4 at 1. rewrite <- S2. destruct d1, d2. cbn in *. rewrite A4. by cbn.
  - intros k Hk. rewrite B5 by done. rewrite length_app in *. rewrite Nat2Z.inj_add. destruct (decide (_ <= k < _)) as [Hin|Hin].
    + rewrite decide_True by lia. rewrite !list_lookup_total_alt, lookup_app_r by lia. do 2 f_equal. lia.
    + rewrite A5 by lia. destruct (decide (off <= k < _)) as [Hin2|Hin2].
      * rewrite decide_True by lia. by rewrite !list_lookup_total_alt, lookup_app_l by lia.
      * by rewrite decide_False by lia.
  - intros j k Hj Hne Hk. specialize (B6 j k Hj Hne). rewrite fn_lookup_insert_ne in B6 by done. rewrite B6 by done. by apply A6.
Qed.

Section FileWrite.
Context {LY : Layout} {WK : Wakeups} {S : Type} {B : Blocks S} {OK : BlocksOk S}.
Implicit Types (x : S) (s : kfs S) (t : tx).

Lemma fs_run {A} (m : M (fss S) A) s y a y' : kf_fs s = y -> m y = Ret a y' -> zoom m s = Ret a (put_fs y' s).
Proof. intros <- E. unfold zoom. change (lget s) with (kf_fs s). by rewrite E. Qed.

Lemma put_fs_put (y y' : fss S) s : put_fs y (put_fs y' s) = put_fs y s.
Proof. done. Qed.

Lemma on_self (y : fss S) : on (f_blk y) y = y.
Proof. by destruct y. Qed.

(** A file system between operations.  Each inode is on disk as [I] has it. *)
Record at_rest (y : fss S) (v : Z -> block) (hm : Z -> Prop) (pid : Z) (dk : durable) (I : Z -> dinode) : Prop := {
  ar_rep : tx_rep (f_blk y) (tx_fresh false v hm pid dk);
  ar_geom : geom (f_sb y) hm;
  ar_inv : fs_inv (f_sb y) v I ∅;
  ar_disk : forall j, ino (f_sb y) j -> disk_inode (f_sb y) v j = I j }.

(** The entry [e] of the inode cache can be locked, and holds inode [i]. *)
Record entry_ok (sb : superblock) (I : Z -> dinode) (e : inode) : Prop := {
  eo_dev : i_dev e = ROOTDEV;
  eo_ino : ino sb (i_inum e);
  eo_ref : 1 <= i_ref e;
  eo_lock : slk_locked (i_lock e) = 0;
  eo_d : i_valid e <> 0 -> i_d e = I (i_inum e);
  eo_type : d_type (I (i_inum e)) <> 0 }.

(** The entry after it has been locked, changed and unlocked. *)
Definition left_as (d : dinode) (e : inode) : inode := set_ilock (locked_as 0 d e) initsleeplock_val.

Lemma left_as_twice d d' e : left_as d (left_as d' e) = left_as d e.
Proof. unfold left_as, locked_as. cbn. f_equal. destruct (Z.eqb_spec (i_valid e) 0) as [|Hv]; [done|]. by rewrite (proj2 (Z.eqb_neq _ _) Hv). Qed.

(** The state after some chunks have been written: the offset is [off], the inode is
    [d], and the wakeups are [w]. *)
Definition chunk_state (f : nat) (off : Z) (x : S) (d : dinode) (w : list chan) (s : kfs S) : kfs S :=
  let ip := fl_ip (kf_files s !!! f) in
  put_files (alter (fun y => set_foff y off) f (kf_files s))
    (put_fs (on x (lput w (with_e ip (left_as d (f_inodes (kf_fs s) !!! ip)) (kf_fs s)))) s).

Lemma wf_disk_inode sb v j : wf_block (v (IBLOCK j sb)) -> wf_dinode (disk_inode sb v j).
Proof.
  intros [Hl HF]. unfold disk_inode, get_dinode. rewrite Forall_lookup in HF.
  assert (Hb : forall k, (k < 1024)%nat -> 0 <= v (IBLOCK j sb) !!! k < 256).
  { intros k Hk. destruct (lookup_lt_is_Some_2 (v (IBLOCK j sb)) k) as [y Hy]; [lia|]. rewrite (list_lookup_total_correct _ _ _ Hy). by apply (HF k). }
  pose proof (dinode_off_lt j) as Ho. unfold dinode_size in Ho. set (o := dinode_off j) in *. clearbody o.
  assert (H16 : forall z, - 2 ^ 15 <= s16 z < 2 ^ 15) by (intros z; unfold s16, signed; pose proof (Z.mod_pos_bound z (2 ^ 16) ltac:(done)); change (16 - 1) with 15; case_match; lia).
  assert (H32 : forall k, (k + 4 <= 1024)%nat -> 0 <= get32 (v (IBLOCK j sb)) k < 2 ^ 32).
  { intros k Hk. unfold get32. pose proof (Hb k). pose proof (Hb (k + 1)%nat). pose proof (Hb (k + 2)%nat). pose proof (Hb (k + 3)%nat). lia. }
  split; cbn; try apply H16.
  - apply H32. lia.
  - done.
  - repeat constructor; apply H32; lia.
Qed.

(** Up to [end_op], a chunk has only changed the transaction. *)
Lemma chunk_body_ok f addr n1 data s v hm pid dk I :
  let y := kf_fs s in let sb := f_sb y in let fl := kf_files s !!! f in let e := f_inodes y !!! fl_ip fl in
  (f < length (kf_files s))%nat -> (fl_ip fl < length (f_inodes y))%nat -> at_rest y v hm pid dk I -> entry_ok sb I e ->
  sb_size sb / BPB <= 17 -> 8 <= Z.of_nat (size (free_set sb v)) ->
  0 <= fl_off fl <= d_size (I (i_inum e)) -> 0 < n1 <= max_chunk -> fl_off fl + n1 <= MAXFILE * BSIZE -> 0 <= addr < 2 ^ 64 ->
  provides true (f_pagetable y) addr n1 data (f_pm y) ->
  let w := ChanInodeLock (fl_ip fl) :: f_woken y in
  exists x1 t1 d, write_chunk f addr n1 s = (end_op ;; mret_ n1) (chunk_state f (fl_off fl + n1) x1 d w s) /\ tx_rep x1 t1 /\
    file_wrote sb I (i_inum e) (fl_off fl) data (tx_fresh true v hm pid dk) t1 d.
Proof.
  intros y sb fl e Hf Hip [Hrep G Hinv Hdisk] [Ed Ei Er El Ev Et] Hsz Hfree Hoff Hn Hmax Haddr Hprov w.
  assert (Hmc : max_chunk = 3072) by done. assert (HB : BSIZE = 1024) by done. assert (HM : MAXFILE = 268) by done.
  destruct (tx_begin _ _ _ _ _ Hrep) as (x0 & E0 & H0). unfold write_chunk.
  assert (E1 : begin_op s = Ret tt (put_fs (on x0 y) s)).
  { unfold begin_op. apply (fs_run _ s y); [done|]. rewrite <- (on_self y) at 1. by apply zoom_on. }
  rewrite (bind_ret _ _ _ _ _ E1). mstep. change (kf_files (put_fs (on x0 y) s) !!! f) with fl.
  set (t0 := tx_fresh true v hm pid dk) in *.
  assert (Hnb : nblocks (fl_off fl) n1 <= 4) by (unfold nblocks; case_decide; [lia|]; rewrite HB; Z.to_euclidean_division_equations; lia).
  destruct (ilock_ok (fl_ip fl) x0 t0 y (I (i_inum e)) Hip) as (x1 & E2 & H2); try done.
  { split; try done. unfold spare. cbn. rewrite map_size_empty, size_empty. lia. }
  { unfold current. destruct (Z.eqb_spec (i_valid (f_inodes y !!! fl_ip fl)) 0) as [|Hv]; [symmetry; by apply Hdisk|symmetry; by apply Ev]. }
  erewrite bind_ret by (eapply fs_run; [|exact E2]; done).
  set (y1 := with_e (fl_ip fl) (locked_as pid (I (i_inum e)) e) y).
  assert (Hwf : wf_dinode (I (i_inum e))).
  { rewrite <- Hdisk by done. apply wf_disk_inode, (fi_wf _ _ _ _ Hinv). destruct (geom_IBLOCK _ _ _ G Ei) as [_ Hib].
    pose proof (geom_order _ _ G). pose proof (g_data _ _ G). lia. }
  assert (Hat : f_inodes y1 !!! fl_ip fl = locked_as pid (I (i_inum e)) e) by (by apply with_e_at).
  destruct (writei_ok (fl_ip fl) true addr (fl_off fl) n1 data x1 t0 y1 I) as (x2 & t2 & d & E3 & H3 & HW);
    rewrite ?Hat; try done; try lia.
  { unfold y1. by rewrite with_e_len. }
  { split; [done|change (f_sb y1) with sb; cbn; rewrite size_empty; lia|]. change (2 * nblocks (fl_off fl) n1 <= Z.of_nat (size (free_set sb v))). lia. }
  change (f_sb y1) with sb in HW. rewrite Hat in HW. change (i_inum (locked_as pid (I (i_inum e)) e)) with (i_inum e) in HW.
  rewrite u32_small by lia. erewrite bind_ret by (eapply fs_run; [|exact E3]; done). rewrite (proj2 (Z.ltb_lt 0 n1)) by lia.
  rewrite (with_d_e _ d y1), Hat by (unfold y1; by rewrite with_e_len). unfold y1 at 1. rewrite with_e_twice, !put_fs_put.
  set (e2 := set_d _ d). set (s2 := put_fs (on x2 (with_e (fl_ip fl) e2 y)) s). mstep.
  assert (E4 : iunlock (fl_ip fl) (on x2 (with_e (fl_ip fl) e2 y)) =
    Ret tt (on x2 (waking (ChanInodeLock (fl_ip fl)) (with_e (fl_ip fl) (left_as d e) y)))).
  { rewrite (iunlock_ok (fl_ip fl) x2 t2), with_e_at, with_e_twice; rewrite ?with_e_at by done; try done.
    - by rewrite with_e_len.
    - rewrite (fw_pid _ _ _ _ _ _ _ _ HW). done. }
  erewrite bind_ret by (eapply fs_run; [|exact E4]; done).
  exists x2, t2, d. split; [|done]. f_equal. unfold chunk_state. fold fl y e. unfold s2, put_files, put_fs. cbn. f_equal.
  rewrite !alter_at by done. fold fl. by rewrite u32_small by lia.
Qed.

Section Twice.
Context (f : nat) (s : kfs S) (off : Z) (x : S) (d : dinode) (w : list chan).
Context (Hf : (f < length (kf_files s))%nat) (Hip : (fl_ip (kf_files s !!! f) < length (f_inodes (kf_fs s)))%nat).
Let s' := chunk_state f off x d w s.

Lemma chunk_file : kf_files s' !!! f = set_foff (kf_files s !!! f) off.
Proof. unfold s', chunk_state. cbn. by rewrite list_lookup_total_alter_eq. Qed.

Lemma chunk_entry : f_inodes (kf_fs s') !!! fl_ip (kf_files s !!! f) = left_as d (f_inodes (kf_fs s) !!! fl_ip (kf_files s !!! f)).
Proof. unfold s', chunk_state. cbn. by rewrite list_lookup_total_insert_eq. Qed.

Lemma chunk_twice off' x' d' w' : chunk_state f off' x' d' w' s' = chunk_state f off' x' d' w' s.
Proof.
  unfold chunk_state at 1. rewrite chunk_file. cbn [set_foff fl_ip]. rewrite chunk_entry, left_as_twice.
  unfold s', chunk_state, put_files, put_fs, on, with_e, put_inodes. cbn. rewrite list_insert_insert_eq, list_alter_alter_eq. done.
Qed.
End Twice.

Lemma wrote_rewrote sb I i off data t0 t d : file_wrote sb I i off data t0 t d -> rewrote sb I i off data (t_view t0) (t_view t) d.
Proof. intros []. by split. Qed.

(** The file system after a write, at rest again. *)
Record wrote_rest (f : nat) (s : kfs S) (data : list Z) (v : Z -> block) (hm : Z -> Prop) (pid : Z) (I : Z -> dinode)
    (x' : S) (v' : Z -> block) (dk' : durable) (d : dinode) (w : list chan) : Prop := {
  wt_rest : at_rest (kf_fs (chunk_state f (fl_off (kf_files s !!! f) + Z.of_nat (length data)) x' d w s)) v' hm pid dk'
    (<[i_inum (f_inodes (kf_fs s) !!! fl_ip (kf_files s !!! f)) := d]> I);
  wt_rewrote : rewrote (f_sb (kf_fs s)) I (i_inum (f_inodes (kf_fs s) !!! fl_ip (kf_files s !!! f)))
    (fl_off (kf_files s !!! f)) data v v' d }.

Lemma rest_after f off x d w s v hm pid dk v' dk' I data :
  let i := i_inum (f_inodes (kf_fs s) !!! fl_ip (kf_files s !!! f)) in
  at_rest (kf_fs s) v hm pid dk I -> ino (f_sb (kf_fs s)) i -> tx_rep x (tx_fresh false v' hm pid dk') ->
  rewrote (f_sb (kf_fs s)) I i (fl_off (kf_files s !!! f)) data v v' d -> at_rest (kf_fs (chunk_state f off x d w s)) v' hm pid dk' (<[i := d]> I).
Proof.
  intros i [_ G _ Hd] Hi H [R1 R2 R3 _ _ _]. split; [done|done|done|]. intros j Hj. destruct (decide (j = i)) as [->|Hne].
  - by rewrite fn_lookup_insert.
  - rewrite fn_lookup_insert_ne by done. change (disk_inode (f_sb (kf_fs s)) v' j = I j). rewrite R3 by done. by apply Hd.
Qed.

Lemma entry_after sb I e d : entry_ok sb I e -> d_type d = d_type (I (i_inum e)) -> entry_ok sb (<[i_inum e := d]> I) (left_as d e).
Proof. intros [] E. split; try done; cbn; rewrite fn_lookup_insert; congruence. Qed.

(** [end_op] after a chunk. *)
Lemma end_chunk f off x1 x2 d w s (n : Z) :
  bk_end_op x1 = Ret tt x2 -> (end_op ;; mret_ n) (chunk_state f off x1 d w s) = Ret n (chunk_state f off x2 d w s).
Proof.
  intros E. unfold end_op. erewrite bind_ret; [reflexivity|]. unfold zoom at 1.
  change (lget (chunk_state f off x1 d w s)) with
    (on x1 (lput w (with_e (fl_ip (kf_files s !!! f)) (left_as d (f_inodes (kf_fs s) !!! fl_ip (kf_files s !!! f))) (kf_fs s)))).
  erewrite zoom_on by exact E. done.
Qed.

Lemma write_chunk_ok f addr n1 data s v hm pid dk I :
  let y := kf_fs s in let sb := f_sb y in let fl := kf_files s !!! f in let e := f_inodes y !!! fl_ip fl in
  (f < length (kf_files s))%nat -> (fl_ip fl < length (f_inodes y))%nat -> at_rest y v hm pid dk I -> entry_ok sb I e ->
  sb_size sb / BPB <= 17 -> 8 <= Z.of_nat (size (free_set sb v)) ->
  0 <= fl_off fl <= d_size (I (i_inum e)) -> 0 < n1 <= max_chunk -> fl_off fl + n1 <= MAXFILE * BSIZE -> 0 <= addr < 2 ^ 64 ->
  provides true (f_pagetable y) addr n1 data (f_pm y) ->
  exists x' v' dk' d w, write_chunk f addr n1 s = Ret n1 (chunk_state f (fl_off fl + n1) x' d w s) /\
    wrote_rest f s data v hm pid I x' v' dk' d w /\
    Z.of_nat (size (free_set sb v)) <= Z.of_nat (size (free_set sb v')) + 8.
Proof.
  intros y sb fl e Hf Hip HR He Hsz Hfree Hoff Hn Hmax Haddr Hprov.
  destruct (chunk_body_ok f addr n1 data s v hm pid dk I) as (x1 & t1 & d & E & H1 & HW); try done. fold y fl e sb in E, HW.
  destruct (tx_end x1 t1 H1) as (x2 & dk' & E2 & H2); [by rewrite (fw_open _ _ _ _ _ _ _ _ HW)|by rewrite (fw_in _ _ _ _ _ _ _ _ HW)|].
  rewrite (fw_home _ _ _ _ _ _ _ _ HW), (fw_pid _ _ _ _ _ _ _ _ HW) in H2. cbn in H2.
  pose proof (wrote_rewrote _ _ _ _ _ _ _ _ HW) as HR2. cbn in HR2. pose proof (proj1 Hprov) as Hlen.
  set (w := ChanInodeLock (fl_ip fl) :: f_woken y) in *. exists x2, (t_view t1), dk', d, w. split; [|split].
  - rewrite E. by apply end_chunk.
  - split; [|done]. rewrite Hlen. apply (rest_after f _ x2 d w s v hm pid dk _ _ I data); try done. apply He.
  - pose proof (fw_free _ _ _ _ _ _ _ _ HW) as Hfr. cbn in Hfr.
    assert (nblocks (fl_off fl) (Z.of_nat (length data)) <= 4); [|lia].
    assert (max_chunk = 3072) by done. unfold nblocks. case_decide; [lia|]. change BSIZE with 1024. Z.to_euclidean_division_equations; lia.
Qed.

Lemma provides_sub user pt src n data p k m :
  provides user pt src n data p -> 0 <= k -> 0 <= m -> k + m <= n -> 0 <= src -> src + n < 2 ^ 64 ->
  provides user pt (src + k) m (take (Z.to_nat m) (drop (Z.to_nat k) data)) p.
Proof.
  intros (Hl & HF & Hp) Hk Hm Hkm Hs Hov. split; [rewrite length_take, length_drop; lia|]. split; [by apply Forall_take, Forall_drop|].
  intros k' m' Hk' Hm' Hkm'. rewrite <- Z.add_assoc, Hp by lia. do 2 f_equal.
  rewrite skipn_firstn_comm, take_take, drop_drop. f_equal; [lia|f_equal; lia].
Qed.

Lemma filewrite_loop_ok fuel f addr n hm pid :
  forall tot s v dk I data,
  let y := kf_fs s in let sb := f_sb y in let fl := kf_files s !!! f in let e := f_inodes y !!! fl_ip fl in
  (f < length (kf_files s))%nat -> (fl_ip fl < length (f_inodes y))%nat -> at_rest y v hm pid dk I -> entry_ok sb I e ->
  sb_size sb / BPB <= 17 -> 8 * ((n - tot) / max_chunk + 1) <= Z.of_nat (size (free_set sb v)) ->
  0 <= fl_off fl <= d_size (I (i_inum e)) -> 0 <= tot < n -> fl_off fl + (n - tot) <= MAXFILE * BSIZE -> 0 <= addr -> addr + n < 2 ^ 64 ->
  provides true (f_pagetable y) (addr + tot) (n - tot) data (f_pm y) -> (Z.to_nat ((n - tot) / max_chunk) + 2 <= fuel)%nat ->
  exists x' v' dk' d w, filewrite_loop fuel f addr n tot s = Ret n (chunk_state f (fl_off fl + (n - tot)) x' d w s) /\
    wrote_rest f s data v hm pid I x' v' dk' d w.
Proof.
  assert (Hmc : max_chunk = 3072) by done. assert (HB : BSIZE = 1024) by done. assert (HM : MAXFILE = 268) by done.
  induction fuel as [|fuel IH]; intros tot s v dk I data y sb fl e Hf Hip HR He Hsz Hfree Hoff Htot Hmax Haddr Hov Hprov Hfu; [lia|].
  cbn [filewrite_loop]. rewrite (proj2 (Z.ltb_lt tot n)) by lia. set (n1 := Z.min (n - tot) max_chunk). rewrite u64_small by lia.
  assert (Hn1 : 0 < n1 <= max_chunk /\ n1 <= n - tot) by lia. pose proof (proj1 Hprov) as Hlen.
  assert (Hp1 : provides true (f_pagetable y) (addr + tot) n1 (take (Z.to_nat n1) data) (f_pm y)).
  { pose proof (provides_sub _ _ _ _ _ _ 0 n1 Hprov) as Hp. rewrite Z.add_0_r in Hp. apply Hp; lia. }
  destruct (write_chunk_ok f (addr + tot) n1 (take (Z.to_nat n1) data) s v hm pid dk I) as (x1 & v1 & dk1 & d1 & w1 & E1 & [T1 R1] & F1);
    try done; try lia.
  { fold y sb. assert (0 <= (n - tot) / max_chunk) by (apply Z.div_pos; lia). lia. }
  { fold y fl. lia. }
  fold y fl e sb in E1, T1, R1, F1. rewrite (bind_ret _ _ _ _ _ E1), (proj2 (Z.ltb_ge n1 0)) by lia.
  rewrite Z.eqb_refl. cbn [negb]. set (s1 := chunk_state f (fl_off fl + n1) x1 d1 w1 s) in *.
  assert (Hl1 : Z.of_nat (length (take (Z.to_nat n1) data)) = n1) by (rewrite length_take; lia). rewrite Hl1 in T1. fold s1 in T1.
  destruct (decide (n1 = n - tot)) as [En|En].
  { destruct fuel as [|fuel]; [lia|]. cbn [filewrite_loop]. rewrite (proj2 (Z.ltb_ge _ n)) by lia.
    exists x1, v1, dk1, d1, w1. split; [unfold s1; unfold mret_; f_equal; [lia|f_equal; lia]|].
    rewrite take_ge in R1 by lia. split; [|exact R1]. fold fl e. rewrite Hlen, <- En. exact T1. }
  assert (Hf1 : kf_files s1 !!! f = set_foff fl (fl_off fl + n1)) by (by apply chunk_file).
  assert (He1 : f_inodes (kf_fs s1) !!! fl_ip fl = left_as d1 e) by (by apply chunk_entry).
  assert (Hty : d_type d1 = d_type (I (i_inum e))) by (rewrite (rw_d _ _ _ _ _ _ _ _ R1); done).
  assert (Hs1 : d_size d1 = Z.max (d_size (I (i_inum e))) (fl_off fl + n1)) by (rewrite (rewrote_size _ _ _ _ _ _ _ _ R1); lia).
  assert (En2 : n1 = 3072) by lia.
  destruct (IH (tot + n1) s1 v1 dk1 (<[i_inum e := d1]> I) (drop (Z.to_nat n1) data)) as (x2 & v2 & dk2 & d2 & w2 & E2 & [T2 R2]);
    rewrite ?Hf1; cbn [set_foff fl_ip fl_off]; rewrite ?He1; try done; try lia.
  { unfold s1, chunk_state. cbn. by rewrite length_alter. }
  { unfold s1, chunk_state. cbn. by rewrite length_insert. }
  { by apply entry_after. }
  { change (f_sb (kf_fs s1)) with sb. rewrite Hmc, En2 in *. Z.to_euclidean_division_equations; lia. }
  { change (i_inum (left_as d1 e)) with (i_inum e). rewrite fn_lookup_insert. lia. }
  { pose proof (provides_sub _ _ _ _ _ _ n1 (n - (tot + n1)) Hprov ltac:(lia) ltac:(lia) ltac:(lia) ltac:(lia) ltac:(lia)) as Hp.
    rewrite <- Z.add_assoc in Hp. rewrite (take_ge (drop (Z.to_nat n1) data)) in Hp by (rewrite length_drop; lia). exact Hp. }
  { rewrite Hmc, En2 in *. Z.to_euclidean_division_equations; lia. }
  rewrite Hf1 in E2, T2, R2. cbn [set_foff fl_ip fl_off] in E2, T2, R2. rewrite He1 in T2, R2.
  change (i_inum (left_as d1 e)) with (i_inum e) in T2, R2. change (f_sb (kf_fs s1)) with sb in R2.
  assert (Ht : forall off x d w, chunk_state f off x d w s1 = chunk_state f off x d w s) by (intros; by apply chunk_twice). rewrite Ht in E2, T2.
  assert (HR2 : rewrote sb I (i_inum e) (fl_off fl) data v v2 d2).
  { rewrite <- (take_drop (Z.to_nat n1) data). eapply rewrote_app; [exact Hoff|exact R1|]. by rewrite Hl1. }
  exists x2, v2, dk2, d2, w2. split; [rewrite E2; do 2 f_equal; lia|]. split; [|exact HR2].
  rewrite length_drop in T2. fold fl e. replace (fl_off fl + Z.of_nat (length data)) with (fl_off fl + n1 + Z.of_nat (length data - Z.to_nat n1)) by lia.
  destruct T2 as [A1 A2 A3 A4]. split; [done|done|eapply inv_ext; [|exact A3]; intros j _; by rewrite insert_twice|].
  intros j Hj. rewrite A4 by done. apply insert_twice.
Qed.

(** A write that fits in one chunk. *)
Lemma filewrite_one f addr n s s' :
  fl_type (kf_files s !!! f) = FD_INODE -> fl_writable (kf_files s !!! f) = true -> 0 < n <= max_chunk -> 0 <= addr < 2 ^ 64 ->
  write_chunk f addr n s = Ret n s' -> filewrite f addr n s = Ret n s'.
Proof.
  intros Ht Hw Hn Ha E. unfold filewrite. mstep. rewrite Hw, Ht. cbn [negb]. rewrite Nat.add_comm. cbn [Nat.add filewrite_loop].
  rewrite (proj2 (Z.ltb_lt 0 n)), Z.sub_0_r, Z.min_l, Z.add_0_r, u64_small by lia.
  erewrite bind_ret; [by rewrite Z.eqb_refl|]. rewrite (bind_ret _ _ _ _ _ E), (proj2 (Z.ltb_ge n 0)), Z.eqb_refl by lia. cbn [negb].
  by rewrite Z.add_0_l, (proj2 (Z.ltb_ge n n)) by lia.
Qed.
End FileWrite.
