(* ===== verification/FileProps.v ===== *)
(** Writing open files: correctness of [filewrite], and what a crash leaves. *)

From S2P Require Import Prelude Riscv Mem Sync Kalloc Vm VmPt VmMap VmCopy VmProps Proc Uart Console Sleeplock Bio BioSpec DiskFmt.
From S2P Require Import Log LogSpec LogCrash LogOps LogProps Blocks LogBlocks Fs.
From S2P Require Import FsBlk FsBmap FsWrite FsLock FsDemo Pipe File FileWrite.

Section FileProps.
Context {LY : Layout} {LYok : LayoutOk} {WK : Wakeups}.

(** An open file that can be written, with room on the disk for [n] more bytes. *)
Record writable_file {S} (f : nat) (n : Z) (s : kfs S) (v : Z -> block) (I : Z -> dinode) : Prop := {
  wf_f : (f < length (kf_files s))%nat;
  wf_ip : (fl_ip (kf_files s !!! f) < length (f_inodes (kf_fs s)))%nat;
  wf_type : fl_type (kf_files s !!! f) = FD_INODE;
  wf_writable : fl_writable (kf_files s !!! f) = true;
  wf_entry : entry_ok (f_sb (kf_fs s)) I (f_inodes (kf_fs s) !!! fl_ip (kf_files s !!! f));
  wf_bitmap : sb_size (f_sb (kf_fs s)) / BPB <= 17;
  wf_free : 8 * (n / max_chunk + 1) <= Z.of_nat (size (free_set (f_sb (kf_fs s)) v));
  wf_off : 0 <= fl_off (kf_files s !!! f) <= d_size (I (i_inum (f_inodes (kf_fs s) !!! fl_ip (kf_files s !!! f))));
  wf_max : fl_off (kf_files s !!! f) + n <= MAXFILE * BSIZE }.

(** The [n] bytes the process has at [addr]. *)
Record user_data {S} (addr n : Z) (s : kfs S) (data : list Z) : Prop := {
  ud_n : 0 < n;
  ud_addr : 0 <= addr;
  ud_end : addr + n < 2 ^ 64;
  ud_bytes : exists t u l, as_rep (f_pm (kf_fs s)) (f_pagetable (kf_fs s)) t u l /\
    ubytes (ubyte (mem (f_pm (kf_fs s))) u) addr (Z.to_nat n) = Some data }.

(** C2: [filewrite] of any number of bytes to an inode writes exactly those bytes at
    the file's offset and moves the offset. Holding to the size of a transaction it
    takes several of them; whatever the alignment, the result on disk is that of
    one write: the file has the new bytes and its old ones elsewhere, grows
    if it must, every other file keeps its inode and its bytes, and the free map and
    the inodes agree as before. *)
Theorem filewrite_correct {S} {B : Blocks S} {OK : BlocksOk S} f addr n data (s : kfs S) v hm pid dk I :
  at_rest (kf_fs s) v hm pid dk I -> writable_file f n s v I -> user_data addr n s data ->
  exists x' v' dk' d w, filewrite f addr n s = Ret n (chunk_state f (fl_off (kf_files s !!! f) + n) x' d w s) /\
    wrote_rest f s data v hm pid I x' v' dk' d w.
Proof.
  intros HR [Wf Wi Wt Ww We Wb Wfr Wo Wm] [Un Ua Ue (t & u & l & R & Hd)].
  unfold filewrite. mstep. rewrite Ww, Wt. cbn [negb].
  pose proof (user_provides _ _ t u l addr n data R Ua ltac:(lia) Ue Hd) as Hp.
  destruct (filewrite_loop_ok (Z.to_nat (n / max_chunk) + 2) f addr n hm pid 0 s v dk I data) as (x' & v' & dk' & d & w & E & HW);
    rewrite ?Z.sub_0_r, ?Z.add_0_r; try done; try lia.
  rewrite Z.sub_0_r in E. exists x', v', dk', d, w. split; [|done]. rewrite (bind_ret _ _ _ _ _ E), Z.eqb_refl. done.
Qed.

(** C1: a write of up to [max_chunk] bytes through the log is atomic. [filewrite]
    makes the disk writes [W]; if the machine stops after any number [k] of
    them, recovery ends with a disk on which every block of the file system is as
    before the call, or as after it. *)
Theorem filewrite_crash_safe f addr n data (s : kfs lstate) v hm pid dk I :
  at_rest (kf_fs s) v hm pid dk I -> writable_file f n s v I -> user_data addr n s data -> n <= max_chunk ->
  let x := f_blk (kf_fs s) in
  exists x' v' dk' d w W, filewrite f addr n s = Ret n (chunk_state f (fl_off (kf_files s !!! f) + n) x' d w s) /\
    wrote_rest f s data v hm pid I x' v' dk' d w /\
    disk (l_bio x') = writes W (disk (l_bio x)) /\ dhist (l_bio x') = reverse W ++ dhist (l_bio x) /\
    forall k pid', exists r g, mount (l_start (log x)) LOGSIZE (writes (take k W) (disk (l_bio x))) pid' = Ret tt (LState r g) /\
      ((forall b, hm b -> disk_block (disk r) b = v b) \/ (forall b, hm b -> disk_block (disk r) b = v' b)).
Proof.
  intros HR HF [Un Ua Ue (t & u & l & R & Hd)] Hmc x. pose proof HF as [Wf Wi Wt Ww We Wb Wfr Wo Wm].
  pose proof (user_provides _ _ t u l addr n data R Ua ltac:(lia) Ue Hd) as Hp. pose proof (proj1 Hp) as Hlen.
  assert (Hm : max_chunk = 3072) by done.
  destruct (chunk_body_ok f addr n data s v hm pid dk I) as (x1 & t1 & d & E & H1 & HW); try done; try lia.
  { assert (0 <= n / max_chunk) by (apply Z.div_pos; lia). lia. }
  destruct (log_end_crash x1 t1 H1) as (x2 & W & E2 & H2 & Hcr); [by rewrite (fw_open _ _ _ _ _ _ _ _ HW)|by rewrite (fw_in _ _ _ _ _ _ _ _ HW)|].
  rewrite (fw_home _ _ _ _ _ _ _ _ HW), (fw_pid _ _ _ _ _ _ _ _ HW), (fw_dsk _ _ _ _ _ _ _ _ HW) in H2.
  rewrite (fw_home _ _ _ _ _ _ _ _ HW), (fw_base _ _ _ _ _ _ _ _ HW), (fw_dsk _ _ _ _ _ _ _ _ HW) in Hcr.
  destruct (ar_rep _ _ _ _ _ _ HR) as (l0 & R0 & B0 & L0). destruct H2 as (l2 & R2 & B2 & L2).
  pose proof (lr_disk _ _ _ _ _ L0) as D0. pose proof (lr_hist _ _ _ _ _ L0) as T0. pose proof (lr_start _ _ _ _ _ L0) as S0. cbn [tx_fresh t_disk] in D0, T0, S0, Hcr.
  fold x in D0, T0, S0. pose proof (wrote_rewrote _ _ _ _ _ _ _ _ HW) as HR2.
  set (w := ChanInodeLock _ :: _) in E. eexists x2, (t_view t1), _, d, w, W. split; [|split; [|split; [|split]]].
  - apply filewrite_one; [done|done|lia|lia|]. rewrite E. apply end_chunk. exact E2.
  - split; [|exact HR2]. rewrite Hlen. eapply (rest_after f _ x2 d w s v hm pid dk _ _ I data HR); [apply We|by exists l2, R2, B2|exact HR2].
  - rewrite (lr_disk _ _ _ _ _ L2), D0. done.
  - rewrite (lr_hist _ _ _ _ _ L2), T0. done.
  - rewrite D0, S0. exact Hcr.
Qed.
End FileProps.

(** ** Concrete instances *)
Module FileDemo.
Import FsDemo VmProps.Demo.
#[local] Existing Instance demo_layout.
#[local] Existing Instance demo_layout_ok.

(** The file of [FsDemo], open for reading and writing, and a process with one page
    of memory. *)
Definition demo_entry : inode :=
  {| i_dev := ROOTDEV; i_inum := 1; i_ref := 1; i_lock := initsleeplock_val; i_valid := 0; i_d := zero_dinode |}.
Definition demo_file : file :=
  {| fl_type := FD_INODE; fl_ref := 1; fl_readable := true; fl_writable := true; fl_pipe := 0; fl_ip := 0; fl_off := 0; fl_major := 0 |}.
Definition demo_kfs (x : lstate) (p : pmem) : kfs lstate :=
  {| kf_fs := {| f_blk := x; f_sb := demo_sb; f_inodes := demo_entry :: replicate 49 no_inode; f_pm := p; f_pagetable := page 1; f_cwd := 0; f_woken := [] |};
     kf_files := demo_file :: replicate 99 no_file; kf_pipes := ∅;
     kf_uart := {| thr := []; idle := []; rx := []; regs := []; tx_buf := []; tx_w := 0; tx_r := 0 |};
     kf_cons := {| c_buf := []; c_r := 0; c_w := 0; c_e := 0 |}; kf_panicked := false; kf_locking := true; kf_procs := [];
     kf_killed := false; kf_ofile := [Some 0%nat]; kf_sz := 4096; kf_trapframe := 0; kf_name := [] |}.

Lemma demo_rest x dk p : log_tx x (tx_fresh false demo_view demo_home 1 dk) -> at_rest (kf_fs (demo_kfs x p)) demo_view demo_home 1 dk demo_inodes.
Proof. intros H. split; [exact H|apply demo_geom|apply demo_inv|apply demo_disk_inode]. Qed.

Lemma demo_writable x p : writable_file 0 5 (demo_kfs x p) demo_view demo_inodes.
Proof. split; try (cbn; lia); done. Qed.

Lemma demo_data : exists p data, forall x, user_data 0 5 (demo_kfs x p) data.
Proof.
  destruct demo_space as (p & t & l & pte & R & _ & _ & _ & _ & _ & _ & _ & Hu).
  exists p. eexists. intros x. split; [lia|lia|done|]. eexists t, _, l. split; [exact R|].
  apply (page_bytes (mem p) _ 0 5); [lia|exact Hu].
Qed.

Lemma filewrite_correct_witness :
  exists s s' : kfs lstate, filewrite 0 0 5 s = Ret 5 s'.
Proof.
  destruct (demo_started 1) as (x & dk & Hx). destruct demo_data as (p & data & Hd).
  destruct (filewrite_correct 0 0 5 data (demo_kfs x p) demo_view demo_home 1 dk demo_inodes (demo_rest x dk p Hx) (demo_writable x p) (Hd x))
    as (x' & v' & dk' & d & w & E & _). eexists _, _. exact E.
Defined.

Lemma filewrite_crash_safe_witness :
  exists (x : lstate) v' W, forall k, exists r g, mount (l_start (log x)) LOGSIZE (writes (take k W) (disk (l_bio x))) 1 = Ret tt (LState r g) /\
    (disk_block (disk r) 33 = demo_view 33 \/ disk_block (disk r) 33 = v' 33).
Proof.
  destruct (demo_started 1) as (x & dk & Hx). destruct demo_data as (p & data & Hd).
  destruct (filewrite_crash_safe 0 0 5 data (demo_kfs x p) demo_view demo_home 1 dk demo_inodes (demo_rest x dk p Hx) (demo_writable x p) (Hd x) ltac:(done))
    as (x' & v' & dk' & d & w & W & _ & _ & _ & _ & H). exists x, v', W. intros k. destruct (H k 1) as (r & g & E & Hb). exists r, g. split; [exact E|].
  assert (Hh : demo_home 33) by (unfold demo_home; lia). destruct Hb as [Hb|Hb]; [left|right]; by apply Hb.
Defined.
End FileDemo.
