(* ===== verification/FileTable.v ===== *)
(** The open file table and the descriptors of the running process: what every file
    system call keeps.

    [files_ok toks s]: the process has [NOFILE] descriptors, and the count [f->ref] of
    every entry of [ftable] is at least the number of its descriptors that refer to
    the entry, together with the references [toks] that the kernel code holds in local
    variables.  So no descriptor refers to an entry that [filealloc] may hand out. *)

From S2P Require Import Prelude Riscv Mem Sync Kalloc Vm VmProps Proc Uart Console Sleeplock Bio DiskFmt Log LogBlocks Blocks Fs FsDemo Pipe File Syscall SysFile Exec FileProps.

(** ** Counting references *)

Definition one (f : nat) (x : option nat) : Z := if decide (x = Some f) then 1 else 0.
Fixpoint refs (f : nat) (l : list (option nat)) : Z :=
  match l with
  | [] => 0
  | x :: l' => one f x + refs f l'
  end.

Lemma one_range f x : 0 <= one f x <= 1.
Proof. unfold one. case_decide; lia. Qed.

Lemma one_same f : one f (Some f) = 1.
Proof. unfold one. by rewrite decide_True. Qed.

Lemma one_other f g : g <> f -> one f (Some g) = 0.
Proof. intros n. unfold one. rewrite decide_False by congruence. done. Qed.

Lemma refs_nonneg f l : 0 <= refs f l.
Proof. induction l as [|x l IH]; cbn; [lia|]. pose proof (one_range f x). lia. Qed.

Lemma refs_app f l1 l2 : refs f (l1 ++ l2) = refs f l1 + refs f l2.
Proof. induction l1 as [|x l IH]; cbn; [done|]. rewrite IH. lia. Qed.

Lemma refs_insert f l i x y : l !! i = Some x -> refs f (<[i := y]> l) = refs f l - one f x + one f y.
Proof.
  revert i. induction l as [|z l IH]; intros [|i] Hi; simplify_eq/=; [lia|]. rewrite (IH _ Hi). lia.
Qed.

Lemma refs_lookup f l i : l !! i = Some (Some f) -> 1 <= refs f l.
Proof.
  intros Hi. pose proof (refs_insert f l i _ None Hi) as E. pose proof (refs_nonneg f (<[i := None]> l)).
  rewrite one_same in E. pose proof (one_range f None). unfold one in E. rewrite decide_False in E by done. lia.
Qed.

(** The loops of [filealloc] and [fdalloc]. *)
Lemma free_file_some l i f : free_file l i = Some f -> exists j x, f = (i + j)%nat /\ l !! j = Some x /\ fl_ref x = 0.
Proof.
  revert i. induction l as [|y l IH]; intros i; cbn; [done|]. destruct (Z.eqb_spec (fl_ref y) 0).
  - intros [= <-]. exists 0%nat, y. split_and!; [lia|done|done].
  - intros (j & x & -> & Hj & Hx)%IH. exists (Datatypes.S j), x. split_and!; [lia|done|done].
Qed.

Lemma free_fd_some l i fd : free_fd l i = Some fd -> exists j : nat, fd = i + Z.of_nat j /\ l !! j = Some None.
Proof.
  revert i. induction l as [|[f|] l IH]; intros i; cbn; [done| |].
  - intros (j & -> & Hj)%IH. exists (Datatypes.S j). split; [lia|done].
  - intros [= <-]. exists 0%nat. split; [lia|done].
Qed.

(** ** Runs that keep an invariant

    [keeps I E Q o]: [I] holds of every state in which the run [o] sleeps; if the
    state it is woken up in is related to it by [E], at its end [Q] holds. *)
Fixpoint keeps {S A} (I : S -> Prop) (E : S -> S -> Prop) (Q : A -> S -> Prop) (o : outcome S A) : Prop :=
  match o with
  | Ret a s => Q a s
  | Sleep _ s k => I s /\ forall s', E s s' -> keeps I E Q (k s')
  | Panic _ | NoFuel => True
  end.

Lemma keeps_bind {S A B} I E (P : A -> S -> Prop) (Q : B -> S -> Prop) (m : M S A) (f : A -> M S B) s :
  keeps I E P (m s) -> (forall a s', P a s' -> keeps I E Q (f a s')) -> keeps I E Q (mbind_ m f s).
Proof. unfold mbind_. intros Hm Hf. induction (m s) as [a s'| |c s' k IH|]; cbn in *; naive_solver. Qed.

Lemma keeps_mono {S A} I E (P Q : A -> S -> Prop) o :
  keeps I E P o -> (forall a s, P a s -> Q a s) -> keeps I E Q o.
Proof. intros Ho HPQ. induction o as [a s| |c s k IH|]; cbn in *; naive_solver. Qed.

Section FileTable.
Context {LY : Layout} {WK : Wakeups} {S : Type} {B : Blocks S}.
Abbreviation K := (M (kfs S)).

Definition files_ok (toks : list nat) (s : kfs S) : Prop :=
  length (kf_ofile s) = Z.to_nat NOFILE /\
  forall f, refs f (kf_ofile s) + refs f (Some <$> toks) <= fl_ref (kf_files s !!! f).

(** What the others do while the process sleeps: they leave its descriptors alone, and
    give up no reference that is not theirs. *)
Definition others (s s' : kfs S) : Prop :=
  kf_ofile s' = kf_ofile s /\ forall toks, files_ok toks s -> files_ok toks s'.

Abbreviation ends Q o := (keeps (files_ok []) others Q o).

(** [m] keeps the references that it finds. *)
Definition steady {A} (m : K A) : Prop :=
  forall toks s, files_ok toks s -> ends (fun _ s' => files_ok toks s') (m s).

(** A descriptor refers to an entry that is in use. *)
Lemma open_file_live toks s fd f :
  files_ok toks s -> kf_ofile s !! fd = Some (Some f) -> 1 <= fl_ref (kf_files s !!! f) /\ (f < length (kf_files s))%nat.
Proof.
  intros [_ H] Hfd. specialize (H f). apply refs_lookup in Hfd. pose proof (refs_nonneg f (Some <$> toks)). split; [lia|].
  destruct (decide (f < length (kf_files s))%nat) as [|n]; [done|].
  rewrite list_lookup_total_alt, lookup_ge_None_2 in H by lia. cbn in H. lia.
Qed.

Lemma files_ok_drop toks s : files_ok toks s -> files_ok [] s.
Proof. intros [Hl H]. split; [done|]. intros f. specialize (H f). cbn. pose proof (refs_nonneg f (Some <$> toks)). lia. Qed.

Lemma files_ok_swap a b toks s : files_ok (a :: b :: toks) s -> files_ok (b :: a :: toks) s.
Proof. intros [Hl H]. split; [done|]. intros f. specialize (H f). cbn in *. lia. Qed.

Lemma files_ok_eq toks s s' :
  kf_ofile s' = kf_ofile s -> (forall f, fl_ref (kf_files s' !!! f) = fl_ref (kf_files s !!! f)) -> files_ok toks s -> files_ok toks s'.
Proof. intros Ho Hf [Hl H]. split; [by rewrite Ho|]. intros f. by rewrite Ho, Hf. Qed.

(** Giving away a reference, and a descriptor that is cleared or set. *)
Lemma files_ok_fd fd x y toks l s :
  kf_ofile s !! fd = Some x -> files_ok toks s ->
  (forall f, one f y + refs f (Some <$> l) <= one f x + refs f (Some <$> toks)) ->
  files_ok l (put_ofile (<[fd := y]> (kf_ofile s)) s).
Proof.
  intros Hx [Hl H] Hy. split; [cbn; by rewrite length_insert|]. intros f. cbn. rewrite (refs_insert _ _ _ _ _ Hx).
  specialize (H f). specialize (Hy f). lia.
Qed.

Lemma files_ok_ref f g toks l s :
  files_ok toks s -> (f < length (kf_files s))%nat ->
  fl_ref (g (kf_files s !!! f)) >= fl_ref (kf_files s !!! f) + refs f (Some <$> l) - refs f (Some <$> toks) ->
  (forall h, h <> f -> refs h (Some <$> l) <= refs h (Some <$> toks)) ->
  files_ok l (put_files (alter g f (kf_files s)) s).
Proof.
  intros [Hl H] Hlt Hg Hh. split; [done|]. intros h. cbn. specialize (H h). destruct (decide (h = f)) as [->|n].
  - rewrite list_lookup_total_alter, decide_True by auto. lia.
  - rewrite list_lookup_total_alter, decide_False by naive_solver. specialize (Hh h n). lia.
Qed.

(** ** Code that leaves the table alone *)

(** A part of the state that has neither the table nor the descriptors. *)
Class Apart {X} (L : Lens (kfs S) X) : Prop :=
  apart : forall x s, kf_files (lput x s) = kf_files s /\ kf_ofile (lput x s) = kf_ofile s.

#[export] Instance apart_fs : Apart kfs_fs.
Proof. done. Qed.
#[export] Instance apart_pm : Apart kfs_pm.
Proof. done. Qed.
#[export] Instance apart_my : Apart (@my_pmem _ kfs_myproc).
Proof. done. Qed.
#[export] Instance apart_held : Apart kfs_held.
Proof. done. Qed.
#[export] Instance apart_pstate : Apart kf_pstate.
Proof. done. Qed.
#[export] Instance apart_dev : Apart kf_dev.
Proof. done. Qed.

Lemma files_ok_lput {X} (L : Lens (kfs S) X) `{!Apart L} toks x s : files_ok toks s -> files_ok toks (lput x s).
Proof. destruct (apart x s) as [Hf Ho]. apply files_ok_eq; [done|]. intros f. by rewrite Hf. Qed.

Lemma zoom_ends {X A} {L : Lens (kfs S) X} `{!Apart L} (m : M X A) toks s :
  files_ok toks s -> ends (fun _ s' => files_ok toks s' /\ kf_ofile s' = kf_ofile s) (zoom m s).
Proof.
  intros Hs. unfold zoom. assert (Eo : kf_ofile s = kf_ofile s) by done. revert Eo Hs.
  generalize (m (lget s)). intros o. generalize (kf_ofile s) at 2 3. intros l. revert s.
  induction o as [a x| |c x k IH|]; intros s Eo Hs; cbn; try done.
  - split; [by apply files_ok_lput|]. by rewrite (proj2 (apart x s)).
  - pose proof (files_ok_lput L toks x s Hs) as Hx. split; [by eapply files_ok_drop|]. intros s' [Eo' He].
    apply IH; [|by apply He]. by rewrite Eo', (proj2 (apart x s)).
Qed.

Lemma steady_zoom {X A} {L : Lens (kfs S) X} `{!Apart L} (m : M X A) : steady (zoom m).
Proof. intros toks s Hs. eapply keeps_mono; [by apply zoom_ends|]. by intros _ s' [H _]. Qed.

Lemma steady_ret {A} (a : A) : steady (mret_ a).
Proof. by intros toks s Hs. Qed.
Lemma steady_panic {A} msg : steady (panic msg : K A).
Proof. by intros toks s Hs. Qed.
Lemma steady_nofuel {A} : steady (nofuel : K A).
Proof. by intros toks s Hs. Qed.
Lemma steady_gets {A} (g : kfs S -> A) : steady (gets g).
Proof. by intros toks s Hs. Qed.
Lemma steady_bind {A A'} (m : K A) (k : A -> K A') : steady m -> (forall a, steady (k a)) -> steady (mbind_ m k).
Proof. intros Hm Hk toks s Hs. eapply keeps_bind; [by apply Hm|]. intros a s' Hs'. by apply Hk. Qed.
Lemma steady_modify g : (forall s, kf_files (g s) = kf_files s /\ kf_ofile (g s) = kf_ofile s) -> steady (modify g).
Proof. intros Hg toks s Hs. destruct (Hg s) as [Hf Ho]. eapply files_ok_eq; [exact Ho| |exact Hs]. intros f. by rewrite Hf. Qed.
Lemma steady_acquire lk : steady (acquire lk).
Proof. intros toks s Hs. unfold acquire. destruct (holding lk s); [done|]. by apply (files_ok_lput kfs_held). Qed.
Lemma steady_release lk : steady (release lk).
Proof. intros toks s Hs. unfold release. destruct (holding lk s); [|done]. by apply (files_ok_lput kfs_held). Qed.
Lemma steady_initlock lk : steady (initlock lk).
Proof. intros toks s Hs. by apply (files_ok_lput kfs_held). Qed.
Lemma steady_updf f g : (forall x, fl_ref (g x) = fl_ref x) -> steady (updf f g).
Proof.
  intros Hg toks s Hs. apply (files_ok_eq toks s); [done| |exact Hs]. intros h. cbn. rewrite list_lookup_total_alter.
  case_decide; [|done]. rewrite Hg. naive_solver.
Qed.

(** One step of a proof that code is [steady]. *)
Ltac steady_step :=
  lazymatch goal with
  | |- forall _, _ => intro
  | |- steady (let '(_, _) := ?x in _) => destruct x
  | |- steady (if ?b then _ else _) => destruct b
  | |- steady (match ?x with _ => _ end) => destruct x
  | |- steady (mbind_ _ _) => apply steady_bind
  | |- steady (mret_ _) => apply steady_ret
  | |- steady (panic _) => apply steady_panic
  | |- steady nofuel => apply steady_nofuel
  | |- steady (gets _) => apply steady_gets
  | |- steady (zoom _) => apply steady_zoom
  | |- steady (acquire _) => apply steady_acquire
  | |- steady (release _) => apply steady_release
  | |- steady (initlock _) => apply steady_initlock
  | |- steady (updf _ _) => by apply steady_updf
  | |- steady (modify _) => by apply steady_modify
  | |- steady _ => by auto with steady
  end.
Ltac steady := intros; repeat steady_step.

Create HintDb steady.

Lemma steady_begin_op : steady begin_op.
Proof. apply steady_zoom. Qed.
Lemma steady_end_op : steady end_op.
Proof. apply steady_zoom. Qed.
Lemma steady_getf f : steady (getf f).
Proof. apply steady_gets. Qed.
#[local] Hint Resolve steady_begin_op steady_end_op steady_getf : steady.

Lemma steady_argint n : steady (argint n).
Proof. unfold argint, argraw, tf_get. steady. Qed.
Lemma steady_argaddr n : steady (argaddr n).
Proof. unfold argaddr, argraw, tf_get. steady. Qed.
Lemma steady_fetchstr addr b max : steady (fetchstr addr b max).
Proof. unfold fetchstr. steady. Qed.
#[local] Hint Resolve steady_argint steady_argaddr steady_fetchstr : steady.
Lemma steady_argstr n b max : steady (argstr n b max).
Proof. unfold argstr. steady. Qed.
Lemma steady_fetchaddr addr : steady (fetchaddr addr).
Proof. unfold fetchaddr. steady. Qed.
Lemma steady_tf_set r v : steady (tf_set r v).
Proof. unfold tf_set. steady. Qed.
#[local] Hint Resolve steady_argstr steady_fetchaddr steady_tf_set : steady.

Lemma steady_fileread f addr n : steady (fileread f addr n).
Proof. unfold fileread. steady. Qed.
Lemma steady_write_chunk f addr n : steady (write_chunk f addr n).
Proof. unfold write_chunk. steady. Qed.
#[local] Hint Resolve steady_write_chunk : steady.
Lemma steady_filewrite_loop fuel f addr n i : steady (filewrite_loop fuel f addr n i).
Proof. revert i. induction fuel; cbn [filewrite_loop]; steady. Qed.
#[local] Hint Resolve steady_filewrite_loop : steady.
Lemma steady_filewrite f addr n : steady (filewrite f addr n).
Proof. unfold filewrite. steady. Qed.
Lemma steady_filestat pad f addr : steady (filestat pad f addr).
Proof. unfold filestat. steady. Qed.
Lemma steady_argfd n : steady (argfd n).
Proof. unfold argfd. steady. Qed.
Lemma steady_add_link ip k : steady (add_link ip k).
Proof. unfold add_link. steady. Qed.
#[local] Hint Resolve steady_fileread steady_filewrite steady_filestat steady_argfd steady_add_link : steady.

(** ** The system calls that open and close nothing *)

Context (path old new name de buf dot dotdot elf ph : Z) (pad : list Z).

Lemma steady_sys_read : steady sys_read.
Proof. unfold sys_read. steady. Qed.
Lemma steady_sys_write : steady sys_write.
Proof. unfold sys_write. steady. Qed.
Lemma steady_sys_fstat : steady (sys_fstat pad).
Proof. unfold sys_fstat. steady. Qed.
Lemma steady_link_bad ip : steady (link_bad ip).
Proof. unfold link_bad. steady. Qed.
Lemma steady_unlink_bad dp : steady (unlink_bad dp).
Proof. unfold unlink_bad. steady. Qed.
Lemma steady_unlink_entry dp ip off : steady (unlink_entry de dp ip off).
Proof. unfold unlink_entry. steady. Qed.
Lemma steady_open_fail ip : steady (open_fail ip).
Proof. unfold open_fail. steady. Qed.
Lemma steady_create_new dp type major minor : steady (create_new name de dot dotdot dp type major minor).
Proof. unfold create_new. steady. Qed.
#[local] Hint Resolve steady_link_bad steady_unlink_bad steady_unlink_entry steady_open_fail steady_create_new : steady.
Lemma steady_create p type major minor : steady (create name de dot dotdot p type major minor).
Proof. unfold create. steady. Qed.
#[local] Hint Resolve steady_create : steady.
Lemma steady_open_inode omode : steady (open_inode path name de buf dot dotdot omode).
Proof. unfold open_inode. steady. Qed.
Lemma steady_sys_link : steady (sys_link old new name de buf).
Proof. unfold sys_link. steady. Qed.
Lemma steady_sys_unlink : steady (sys_unlink path name de dot dotdot).
Proof. unfold sys_unlink. steady. Qed.
Lemma steady_sys_mkdir : steady (sys_mkdir path name de dot dotdot).
Proof. unfold sys_mkdir. steady. Qed.
Lemma steady_sys_mknod : steady (sys_mknod path name de dot dotdot).
Proof. unfold sys_mknod. steady. Qed.
Lemma steady_sys_chdir : steady (sys_chdir path de buf).
Proof. unfold sys_chdir, set_my_cwd. steady. Qed.
#[local] Hint Resolve steady_sys_read steady_sys_write steady_sys_fstat steady_open_inode steady_sys_link steady_sys_unlink
  steady_sys_mkdir steady_sys_mknod steady_sys_chdir : steady.

(** *** kernel/exec.c *)

Lemma steady_exec_bad pt sz ip : steady (exec_bad pt sz ip).
Proof. unfold exec_bad. steady. Qed.
Lemma steady_loadseg pt va ip off sz : steady (loadseg pt va ip off sz).
Proof.
  unfold loadseg. steady. generalize (Datatypes.S (Datatypes.S (Z.to_nat (sz / PGSIZE)))). intros fuel. generalize 0.
  induction fuel; cbn [loadseg_loop]; steady.
Qed.
#[local] Hint Resolve steady_exec_bad steady_loadseg : steady.
Lemma steady_load_loop n pt ip off sz : steady (load_loop ph n pt ip off sz).
Proof. revert off sz. induction n; cbn [load_loop]; steady. Qed.
Lemma steady_push_args argv pt sp base ustack : steady (push_args argv pt sp base ustack).
Proof. revert sp ustack. induction argv; cbn [push_args]; steady. Qed.
Lemma steady_set_image pt sz nm : steady (set_image pt sz nm).
Proof. unfold set_image. steady. Qed.
#[local] Hint Resolve steady_load_loop steady_push_args steady_set_image : steady.
Lemma steady_exec_stack pth argv pt sz entry : steady (exec_stack pth argv pt sz entry).
Proof. unfold exec_stack. steady. Qed.
#[local] Hint Resolve steady_exec_stack : steady.
Lemma steady_exec pth argv : steady (exec elf ph de buf pth argv).
Proof. unfold exec. steady. Qed.
Lemma steady_free_args argv : steady (free_args argv).
Proof. unfold free_args. induction argv; cbn [foldr]; steady. Qed.
Lemma steady_fetch_args n uargv argv : steady (fetch_args n uargv argv).
Proof. revert argv. induction n; cbn [fetch_args]; steady. Qed.
#[local] Hint Resolve steady_exec steady_free_args steady_fetch_args : steady.
Lemma steady_sys_exec : steady (sys_exec elf ph de buf path).
Proof. unfold sys_exec. steady. Qed.
#[local] Hint Resolve steady_sys_exec : steady.

(** ** References that are taken and given up *)

(** A step that is steady, and then the rest. *)
Lemma ends_then {A A'} (m : K A) (k : A -> K A') toks s (Q : A' -> kfs S -> Prop) :
  steady m -> files_ok toks s -> (forall a s', files_ok toks s' -> ends Q (k a s')) -> ends Q (mbind_ m k s).
Proof. intros Hm Hs Hk. eapply keeps_bind; [by apply Hm|exact Hk]. Qed.

(** The rest is steady. *)
Ltac rest_steady := eapply keeps_mono; [eapply (fun m (H : steady m) => H); [by steady|eassumption]|by intros].

Lemma filealloc_ok toks s :
  files_ok toks s -> ends (fun r s' => files_ok (match r with Some f => f :: toks | None => toks end) s') (filealloc s).
Proof.
  intros Hs. unfold filealloc. eapply ends_then; [steady|exact Hs|]. clear s Hs. intros _ s Hs. cbn -[release].
  destruct (free_file (kf_files s) 0) as [f|] eqn:Ef; [|eapply ends_then; [steady|exact Hs|done]].
  destruct (free_file_some _ _ _ Ef) as (j & x & -> & Hj & Hx).
  eapply keeps_bind with (P := fun _ s' => files_ok (j :: toks) s'); [|intros _ s' Hs'; by eapply ends_then; [steady|exact Hs'|]].
  apply (files_ok_ref _ _ toks); [done|by eapply lookup_lt_Some| |].
  - cbn. rewrite one_same. pose proof (proj2 Hs j) as H. rewrite (list_lookup_total_correct _ _ _ Hj) in *.
    pose proof (refs_nonneg j (kf_ofile s)). pose proof (refs_nonneg j (Some <$> toks)). lia.
  - intros h n. cbn in *. rewrite one_other by congruence. lia.
Qed.

(** A reference in a local variable keeps the entry in use. *)
Lemma held_live f toks s : files_ok (f :: toks) s -> 1 <= fl_ref (kf_files s !!! f) /\ (f < length (kf_files s))%nat.
Proof.
  intros [_ H]. specialize (H f). cbn in H. rewrite one_same in H.
  pose proof (refs_nonneg f (kf_ofile s)). pose proof (refs_nonneg f (Some <$> toks)). split; [lia|].
  destruct (decide (f < length (kf_files s))%nat) as [|n]; [done|].
  rewrite list_lookup_total_alt, lookup_ge_None_2 in H by lia. cbn in H. lia.
Qed.

Lemma fileclose_ok f toks s :
  files_ok (f :: toks) s -> ends (fun _ s' => files_ok toks s') (fileclose f s).
Proof.
  intros Hs. unfold fileclose. eapply ends_then; [steady|exact Hs|]. clear s Hs. intros _ s Hs.
  destruct (held_live _ _ _ Hs) as [H1 Hlt]. cbn -[release updf]. destruct (Z.ltb_spec (fl_ref (kf_files s !!! f)) 1); [lia|].
  eapply keeps_bind with (P := fun _ s' => files_ok toks s' /\ (f < length (kf_files s'))%nat).
  { split; [|cbn; by rewrite length_alter]. apply (files_ok_ref _ _ (f :: toks)); [done|done| |].
    - cbn. rewrite one_same. lia.
    - intros h n. cbn in *. rewrite one_other by congruence. lia. }
  intros _ s1 [Hs1 Hlt1]. cbn -[release updf]. destruct (Z.ltb_spec 0 (fl_ref (kf_files s1 !!! f))); [by apply steady_release|].
  eapply keeps_bind with (P := fun _ s' => files_ok toks s'); [apply (files_ok_ref _ _ toks); [done|done|cbn; lia|lia]|].
  intros _ s2 Hs2. generalize (kf_files s1 !!! f). intros ff. rest_steady.
Qed.

(** [fdalloc] takes a free descriptor. *)
Lemma fdalloc_cases f (s : kfs S) :
  fdalloc f s = Ret (-1) s \/
  exists fd : nat, kf_ofile s !! fd = Some None /\ fdalloc f s = Ret (Z.of_nat fd) (put_ofile (<[fd := Some f]> (kf_ofile s)) s).
Proof.
  unfold fdalloc, gets, mbind_. cbn -[take]. destruct (free_fd _ 0) as [fd|] eqn:E; [|by left]. right.
  destruct (free_fd_some _ _ _ E) as (j & -> & Hj). exists j. split; [by apply lookup_take_Some in Hj as [? _]|].
  unfold set_ofd, modify. cbn. by rewrite Z.add_0_l, Nat2Z.id.
Qed.

Lemma fdalloc_ok f toks s :
  files_ok (f :: toks) s ->
  ends (fun fd s' => if fd <? 0 then files_ok (f :: toks) s' /\ s' = s
                     else files_ok toks s' /\ kf_ofile s !! Z.to_nat fd = Some None /\ kf_ofile s' = <[Z.to_nat fd := Some f]> (kf_ofile s)) (fdalloc f s).
Proof.
  intros Hs. destruct (fdalloc_cases f s) as [->|(fd & Hfd & ->)]; [done|]. cbn. destruct (Z.ltb_spec (Z.of_nat fd) 0); [lia|].
  rewrite Nat2Z.id. split_and!; [|done|done]. eapply files_ok_fd; [exact Hfd|exact Hs|]. intros h. cbn. unfold one. case_decide; simpl; lia.
Qed.

(** Clearing a descriptor leaves its reference to the code. *)
Lemma clear_ok fd f toks s :
  files_ok toks s -> kf_ofile s !! fd = Some (Some f) -> files_ok (f :: toks) (put_ofile (<[fd := None]> (kf_ofile s)) s).
Proof. intros Hs Hfd. eapply files_ok_fd; [exact Hfd|exact Hs|]. intros h. cbn. unfold one at 1. rewrite decide_False by done. lia. Qed.

(** What [argfd] finds is an open descriptor. *)
Lemma argfd_ok n toks s :
  files_ok toks s -> ends (fun r s' => files_ok toks s' /\
    match r with Some (fd, f) => kf_ofile s' !! Z.to_nat fd = Some (Some f) | None => True end) (argfd n s).
Proof.
  intros Hs. unfold argfd. eapply ends_then; [steady|exact Hs|]. clear s Hs. intros fd s Hs.
  destruct (_ || _) eqn:Eb; [done|]. apply orb_false_iff in Eb as [E1%Z.ltb_ge E2%Z.leb_gt]. cbn.
  destruct (kf_ofile s !!! Z.to_nat fd) as [f|] eqn:Ef; [|done]. split; [done|].
  apply list_lookup_alt. split; [|done]. rewrite (proj1 Hs). unfold NOFILE in *. lia.
Qed.

Lemma steady_sys_close : steady sys_close.
Proof.
  intros toks s Hs. unfold sys_close. eapply keeps_bind; [by apply argfd_ok|]. clear s Hs. intros [[fd f]|] s [Hs Hf]; [|done].
  eapply keeps_bind with (P := fun _ s' => files_ok (f :: toks) s'); [by apply clear_ok|]. clear s Hs Hf. intros _ s Hs.
  eapply keeps_bind; [by apply fileclose_ok|]. by intros.
Qed.

(** [filedup] for a descriptor that is set already. *)
Lemma filedup_owed f toks s :
  files_ok toks (put_files (alter (fun x => set_fref x (fl_ref x + 1)) f (kf_files s)) s) -> ends (fun _ s' => files_ok toks s') (filedup f s).
Proof.
  intros Hs. unfold filedup, mbind_ at 1, acquire. destruct (holding LFtable s); [done|].
  set (s1 := lput _ s). assert (E : kf_files s1 = kf_files s /\ kf_ofile s1 = kf_ofile s) by done. clearbody s1. destruct E as [Ef Eo].
  cbn -[release updf]. destruct (_ <? 1); [done|].
  eapply keeps_bind with (P := fun _ s' => files_ok toks s'); [|intros _ s' Hs'; rest_steady].
  eapply files_ok_eq; [| |exact Hs]; cbn; [done|]. intros h. by rewrite Ef.
Qed.

Lemma steady_sys_dup : steady sys_dup.
Proof.
  intros toks s Hs. unfold sys_dup. eapply keeps_bind; [by apply argfd_ok|]. clear s Hs. intros [[fd0 f]|] s [Hs Hf]; [|done].
  unfold mbind_ at 1. destruct (fdalloc_cases f s) as [->|(fd & Hfd & ->)]; [done|]. cbn -[filedup]. destruct (Z.ltb_spec (Z.of_nat fd) 0); [lia|].
  destruct (open_file_live _ _ _ _ Hs Hf) as [_ Hlt].
  eapply keeps_bind; [apply filedup_owed|by intros ? s' Hs'; exact Hs'].
  apply (files_ok_fd fd None (Some f) (f :: toks) toks (put_files (alter (fun x => set_fref x (fl_ref x + 1)) f (kf_files s)) s) Hfd);
    [apply (files_ok_ref f _ toks (f :: toks)); [exact Hs|exact Hlt| |]|]; cbn.
  - rewrite one_same. lia.
  - intros h n. rewrite one_other by congruence. lia.
  - intros h. unfold one at 2. rewrite decide_False by done. lia.
Qed.

Lemma steady_sys_open : steady (sys_open path name de buf dot dotdot).
Proof.
  unfold sys_open. apply steady_bind; [steady|intros n]. destruct (n <? 0); [steady|].
  do 2 (apply steady_bind; [steady|intros ?]). apply steady_bind; [steady|intros [ip|]]; [|steady].
  apply steady_bind; [steady|intros x]. cbv zeta. destruct (_ && _); [steady|].
  intros toks s Hs. eapply keeps_bind; [by apply filealloc_ok|]. clear s Hs. intros [f|] s Hs; [|by apply steady_open_fail].
  eapply keeps_bind; [by apply fdalloc_ok|]. intros fd s' Hs'. cbv beta in Hs'. destruct (fd <? 0).
  - eapply keeps_bind; [apply fileclose_ok, Hs'|]. intros ? s2 Hs2. by apply steady_open_fail.
  - destruct Hs' as [Hs' _]. rest_steady.
Qed.

(** The two ends of a pipe, as references of the code. *)
Lemma pipealloc_bad_ok pi f0 f1 toks s :
  files_ok (option_list f0 ++ option_list f1 ++ toks) s ->
  ends (fun r s' => r = None /\ files_ok toks s') (pipealloc_bad pi f0 f1 s).
Proof.
  intros Hs. unfold pipealloc_bad. eapply ends_then; [steady|exact Hs|]. clear s Hs. intros _ s Hs.
  eapply keeps_bind with (P := fun _ s' => files_ok (option_list f1 ++ toks) s').
  { destruct f0; [by apply fileclose_ok|exact Hs]. }
  clear s Hs. intros _ s Hs. eapply keeps_bind with (P := fun _ s' => files_ok toks s').
  { destruct f1; [by apply fileclose_ok|exact Hs]. }
  by intros.
Qed.

Lemma pipealloc_ok toks s :
  files_ok toks s -> ends (fun r s' => files_ok (match r with Some (a, b) => a :: b :: toks | None => toks end) s') (pipealloc s).
Proof.
  intros Hs. unfold pipealloc.
  assert (Hbad : forall pi f0 f1 s, files_ok (option_list f0 ++ option_list f1 ++ toks) s ->
    ends (fun r s' => files_ok (match r with Some (a, b) => a :: b :: toks | None => toks end) s') (pipealloc_bad pi f0 f1 s)).
  { intros pi f0 f1 s' Hs'. eapply keeps_mono; [by apply (pipealloc_bad_ok pi f0 f1 toks)|]. by intros ? ? [-> ?]. }
  eapply keeps_bind; [by apply filealloc_ok|]. clear s Hs. intros [a|] s Hs; [|by apply Hbad].
  eapply keeps_bind; [by apply filealloc_ok|]. clear s Hs. intros [b|] s Hs; [|by apply Hbad]. apply files_ok_swap in Hs.
  eapply ends_then; [steady|exact Hs|]. clear s Hs. intros pi s Hs. destruct (pi =? 0); [by apply Hbad|].
  repeat (eapply ends_then; [steady|eassumption|]; clear s Hs; intros ? s Hs). exact Hs.
Qed.

(** Clearing the descriptors of a pipe, and giving up both references. *)
Lemma pipe_undo_ok fds rf wf toks s :
  ends (fun _ s' => files_ok (rf :: wf :: toks) s') (foldr (fun fd m => set_ofd fd None ;; m) (mret_ tt) fds s) ->
  ends (fun _ s' => files_ok toks s') (pipe_undo fds rf wf s).
Proof.
  intros Hs. unfold pipe_undo. eapply keeps_bind; [exact Hs|]. clear s Hs. intros ? s Hs.
  eapply keeps_bind; [eapply fileclose_ok; exact Hs|]. clear s Hs. intros ? s Hs. eapply keeps_bind; [eapply fileclose_ok; exact Hs|]. by intros.
Qed.

Lemma undo_two fd0 fd1 rf wf toks s :
  files_ok toks s -> Z.to_nat fd0 <> Z.to_nat fd1 ->
  kf_ofile s !! Z.to_nat fd0 = Some (Some rf) -> kf_ofile s !! Z.to_nat fd1 = Some (Some wf) ->
  ends (fun _ s' => files_ok toks s') (pipe_undo [fd0; fd1] rf wf s).
Proof.
  intros Hs n H0 H1. apply pipe_undo_ok. cbn. pose proof (clear_ok _ _ _ _ Hs H0) as Hs0.
  apply files_ok_swap. apply (clear_ok _ _ _ _ Hs0). cbn. by rewrite list_lookup_insert_ne.
Qed.

Lemma steady_sys_pipe : steady sys_pipe.
Proof.
  unfold sys_pipe. apply steady_bind; [steady|]. intros fdarray toks s Hs.
  eapply keeps_bind; [by apply pipealloc_ok|]. clear s Hs. intros [[rf wf]|] s Hs; [|exact Hs].
  eapply keeps_bind; [by apply fdalloc_ok|]. intros fd0 s0 H0. cbv beta in H0. destruct (fd0 <? 0).
  { apply pipe_undo_ok. apply H0. }
  destruct H0 as (Hs0 & Hn0 & E0).
  eapply keeps_bind; [by apply fdalloc_ok|]. intros fd1 s1 H1. cbv beta in H1. destruct (fd1 <? 0).
  { destruct H1 as [Hs1 ->]. apply pipe_undo_ok. apply (clear_ok _ _ _ _ Hs1). rewrite E0. apply list_lookup_insert_eq. by eapply lookup_lt_Some. }
  destruct H1 as (Hs1 & Hn1 & E1). assert (Hne : Z.to_nat fd0 <> Z.to_nat fd1).
  { intros Ee. rewrite E0, Ee, list_lookup_insert_eq in Hn1 by (by rewrite <- Ee; eapply lookup_lt_Some). done. }
  assert (L0 : kf_ofile s1 !! Z.to_nat fd0 = Some (Some rf)).
  { rewrite E1, list_lookup_insert_ne, E0 by done. apply list_lookup_insert_eq. by eapply lookup_lt_Some. }
  assert (L1 : kf_ofile s1 !! Z.to_nat fd1 = Some (Some wf)).
  { rewrite E1. apply list_lookup_insert_eq. by eapply lookup_lt_Some. }
  eapply keeps_bind with (P := fun _ s' => s' = s1); [done|]. intros pt ? ->.
  eapply keeps_bind; [by apply zoom_ends|]. intros r s2 [Hs2 E2]. destruct (r <? 0); [apply undo_two; by rewrite ?E2|].
  eapply keeps_bind; [by apply zoom_ends|]. intros r' s3 [Hs3 E3]. destruct (r' <? 0); [apply undo_two; by rewrite ?E3, ?E2|exact Hs3].
Qed.
#[local] Hint Resolve steady_sys_close steady_sys_dup steady_sys_open steady_sys_pipe : steady.

(** ** The table of kernel/syscall.c *)

(** The system calls of kernel/sysfile.c; [other] has those of kernel/sysproc.c. *)
Definition sysfile (other : call -> K Z) (c : call) : K Z :=
  match c with
  | Cpipe => sys_pipe | Cread => sys_read | Cexec => sys_exec elf ph de buf path | Cfstat => sys_fstat pad
  | Cchdir => sys_chdir path de buf | Cdup => sys_dup | Copen => sys_open path name de buf dot dotdot
  | Cwrite => sys_write | Cmknod => sys_mknod path name de dot dotdot | Cunlink => sys_unlink path name de dot dotdot
  | Clink => sys_link old new name de buf | Cmkdir => sys_mkdir path name de dot dotdot | Cclose => sys_close
  | _ => other c
  end.

(** C8: every system call keeps the descriptor table well typed.  Take a state with
    [NOFILE] descriptors in which the count of each entry of [ftable] covers the
    descriptors that refer to it and the references [toks] of other kernel code.
    [syscall] with any number in a7 and any arguments, including a call that fails
    half-way, leaves such a state when it returns and whenever it sleeps, provided
    the others meanwhile leave its descriptors alone and give up only references
    of their own, and the calls of kernel/sysproc.c and the message about an unknown
    number keep the table. *)
Theorem syscall_files_ok (other : call -> K Z) (complain : Z -> K unit) :
  (forall c, steady (other c)) -> (forall n, steady (complain n)) ->
  forall toks s, files_ok toks s ->
  keeps (files_ok []) others (fun _ s' => files_ok toks s') (syscall (sysfile other) complain s).
Proof.
  intros Ho Hc. change (steady (syscall (sysfile other) complain)). unfold syscall. apply steady_bind; [unfold tf_get; steady|]. intros a7. cbv zeta.
  match goal with |- steady (match ?x with _ => _ end) => destruct x as [c|] end; [|unfold tf_set; steady]. apply steady_bind; [|steady]. destruct c; cbn [sysfile]; auto with steady.
Qed.
End FileTable.

Module FileTableDemo.
Import FsDemo FileDemo VmProps.Demo.
#[local] Existing Instance demo_layout.

(** A process with two descriptors for the open file of [FileDemo]. *)
Definition demo_table (x : lstate) (p : pmem) : kfs lstate :=
  put_files [set_fref demo_file 2] (put_ofile (Some 0%nat :: Some 0%nat :: replicate 14 None) (demo_kfs x p)).

Lemma demo_table_ok x p : files_ok [] (demo_table x p).
Proof. split; [done|]. intros [|f]; vm_compute; done. Qed.

Lemma syscall_files_ok_witness :
  exists s : kfs lstate, kf_ofile s !! 1%nat = Some (Some 0%nat) /\
    keeps (files_ok []) others (fun _ s' => files_ok [] s')
      (syscall (sysfile 0 0 0 0 0 0 0 0 0 0 [0; 0; 0; 0] (fun _ => mret_ 0)) (fun _ => mret_ tt) s).
Proof.
  destruct (demo_started 1) as (x & dk & Hx). destruct demo_data as (p & data & Hd).
  exists (demo_table x p). split; [done|].
  apply (syscall_files_ok 0 0 0 0 0 0 0 0 0 0 [0; 0; 0; 0] (fun _ => mret_ 0) (fun _ => mret_ tt)
    (fun _ => steady_ret 0) (fun _ => steady_ret tt) [] (demo_table x p) (demo_table_ok x p)).
Defined.
End FileTableDemo.
