(* ===== verification/Ulib.v ===== *)
(** user/ulib.c and user/printf.c: the C library of the user programs.

    A user program works on its memory and calls the kernel.  [uos] is what it
    sees of the kernel: for each open descriptor the input it will still
    deliver, in the pieces [read] hands out, the files that can be opened for
    reading, and what has been written so far, the latest first.  The second half of
    the file says what the routines do to texts in memory. *)

From S2P Require Import Prelude Mem.

Record uos := UOs {
  u_mem : memory;
  u_fds : gmap Z (list (list Z));
  u_files : gmap (list Z) (list (list Z));
  u_out : list (Z * list Z) }.

Definition set_umem (f : memory -> memory) : M uos unit :=
  modify (fun s => {| u_mem := f (u_mem s); u_fds := u_fds s; u_files := u_files s; u_out := u_out s |}).
Definition ld (a : Z) : M uos Z := gets (fun s => load8 (u_mem s) a).
Definition st (a v : Z) : M uos unit := set_umem (fun m => store8 m a v).

(** [read(fd, a, n)]: up to [n] bytes of the next piece; 0 when none is left. *)
Definition read (fd a n : Z) : M uos Z :=
  let! fds := gets u_fds in
  match fds !! fd with
  | None => mret_ (-1)
  | Some [] => mret_ 0
  | Some (c :: cs) =>
      let k := Z.to_nat n in
      let rest := if bool_decide (drop k c = []) then cs else drop k c :: cs in
      modify (fun s => {| u_mem := store_bytes (u_mem s) a (take k c); u_fds := <[fd := rest]> (u_fds s);
        u_files := u_files s; u_out := u_out s |}) ;;
      mret_ (Z.of_nat (length (take k c)))
  end.

Definition write (fd a n : Z) : M uos Z :=
  modify (fun s => {| u_mem := u_mem s; u_fds := u_fds s; u_files := u_files s;
    u_out := (fd, bytes_at (u_mem s) a (Z.to_nat n)) :: u_out s |}) ;;
  mret_ n.

(** The lowest descriptor from [k] that is not open. *)
Fixpoint free_fd (fuel : nat) (fds : gmap Z (list (list Z))) (k : Z) : Z :=
  match fuel with
  | O => k
  | S fuel' => match fds !! k with None => k | Some _ => free_fd fuel' fds (k + 1) end
  end.

(** [open(name, O_RDONLY)] *)
Definition open_read (name : list Z) : M uos Z :=
  let! files := gets u_files in
  match files !! name with
  | None => mret_ (-1)
  | Some c =>
      let! fds := gets u_fds in
      let fd := free_fd (size fds) fds 0 in
      modify (fun s => {| u_mem := u_mem s; u_fds := <[fd := c]> (u_fds s); u_files := u_files s; u_out := u_out s |}) ;;
      mret_ fd
  end.

Definition close (fd : Z) : M uos unit :=
  modify (fun s => {| u_mem := u_mem s; u_fds := delete fd (u_fds s); u_files := u_files s; u_out := u_out s |}).

(** ** user/ulib.c *)

(** [while(( *s++ = *t++ ) != 0)] *)
Fixpoint u_strcpy (fuel : nat) (m : memory) (s t : Z) : option memory :=
  match fuel with
  | O => None
  | S fuel' =>
      let c := load8 m t in
      let m' := store8 m s c in
      if c =? 0 then Some m' else u_strcpy fuel' m' (s + 1) (t + 1)
  end.

(** [while( *p && *p == *q )] *)
Fixpoint u_strcmp (fuel : nat) (m : memory) (p q : Z) : option Z :=
  match fuel with
  | O => None
  | S fuel' =>
      if negb (load8 m p =? 0) && (load8 m p =? load8 m q) then u_strcmp fuel' m (p + 1) (q + 1)
      else Some (u8 (load8 m p) - u8 (load8 m q))
  end.

Fixpoint u_strlen_loop (fuel : nat) (m : memory) (s n : Z) : option Z :=
  match fuel with
  | O => None
  | S fuel' => if load8 m (s + n) =? 0 then Some (u32 n) else u_strlen_loop fuel' m s (n + 1)
  end.
Definition u_strlen (fuel : nat) (m : memory) (s : Z) : option Z := u_strlen_loop fuel m s 0.

Fixpoint u_memset_loop (m : memory) (cdst c i : Z) (n : nat) : memory :=
  match n with
  | O => m
  | S n' => u_memset_loop (store8 m (cdst + i) c) cdst c (i + 1) n'
  end.
Definition u_memset (m : memory) (dst c n : Z) : memory := u_memset_loop m dst c 0 (Z.to_nat n).

(** The address of the first [c] before the NUL; 0 when there is none. *)
Fixpoint u_strchr (fuel : nat) (m : memory) (s c : Z) : option Z :=
  match fuel with
  | O => None
  | S fuel' =>
      if load8 m s =? 0 then Some 0
      else if load8 m s =? c then Some s
      else u_strchr fuel' m (s + 1) c
  end.

(** [for(i = 0; i + 1 < max; )]; [c] is the address of the local variable. *)
Fixpoint u_gets_loop (fuel : nat) (buf max c i : Z) : M uos Z :=
  match fuel with
  | O => mret_ i
  | S fuel' =>
      if i + 1 <? max then
        let! cc := read 0 c 1 in
        if cc <? 1 then mret_ i
        else
          let! x := ld c in
          st (buf + i) x ;;
          if (x =? 10) || (x =? 13) then mret_ (i + 1) else u_gets_loop fuel' buf max c (i + 1)
      else mret_ i
  end.
Definition u_gets (buf max c : Z) : M uos unit :=
  let! i := u_gets_loop (Z.to_nat max) buf max c 0 in
  st (buf + i) 0.

(** [while('0' <= *s && *s <= '9') n = n*10 + *s++ - '0'] on an [int]. *)
Fixpoint u_atoi_loop (fuel : nat) (m : memory) (s n : Z) : option Z :=
  match fuel with
  | O => None
  | S fuel' =>
      let c := load8 m s in
      if (48 <=? c) && (c <=? 57) then u_atoi_loop fuel' m (s + 1) (s32 (n * 10 + c - 48)) else Some n
  end.
Definition u_atoi (fuel : nat) (m : memory) (s : Z) : option Z := u_atoi_loop fuel m s 0.

Definition u_memmove (m : memory) (vdst vsrc n : Z) : memory :=
  if vdst <? vsrc then move_up m vdst vsrc (Z.to_nat n)
  else move_down m (vdst + n) (vsrc + n) (Z.to_nat n).

Fixpoint u_memcmp (m : memory) (p1 p2 : Z) (n : nat) : Z :=
  match n with
  | O => 0
  | S n' =>
      if negb (load8 m p1 =? load8 m p2) then load8 m p1 - load8 m p2
      else u_memcmp m (p1 + 1) (p2 + 1) n'
  end.

Definition u_memcpy (m : memory) (dst src n : Z) : memory := u_memmove m dst src n.

(** The string that bytes begin with. *)
Fixpoint upto_nul (bs : list Z) : list Z :=
  match bs with
  | [] => []
  | b :: bs' => if b =? 0 then [] else b :: upto_nul bs'
  end.

(** * Texts in memory, and what the routines of user/ulib.c do to them *)

(** ** Bytes in memory *)

Definition holds (m : memory) (a : Z) (bs : list Z) : Prop :=
  forall i x, bs !! i = Some x -> load8 m (a + Z.of_nat i) = x.

Lemma upto_nul_app a b : 0 ∉ a -> upto_nul (a ++ b) = a ++ upto_nul b.
Proof.
  induction a as [|x a IH]; intros Ha; [done|]. apply not_elem_of_cons in Ha as [Hx Ha]. cbn [app upto_nul].
  rewrite (proj2 (Z.eqb_neq x 0)) by lia. by rewrite IH.
Qed.

Lemma upto_nul_end a b : 0 ∈ a -> upto_nul (a ++ b) = upto_nul a.
Proof.
  induction a as [|x a IH]; intros Ha; [by apply elem_of_nil in Ha|]. cbn [app upto_nul]. destruct (Z.eqb_spec x 0) as [|n]; [done|].
  apply elem_of_cons in Ha as [Ha|Ha]; [lia|]. by rewrite IH.
Qed.

Lemma upto_nul_nonul bs : 0 ∉ upto_nul bs.
Proof.
  induction bs as [|b bs IH]; cbn [upto_nul]; [apply not_elem_of_nil|]. destruct (Z.eqb_spec b 0) as [|Hb]; [apply not_elem_of_nil|].
  apply not_elem_of_cons. split; [lia|done].
Qed.

(** A sequence of bytes is a string and what follows it: nothing, or a NUL and more. *)
Lemma upto_nul_split bs : exists z, bs = upto_nul bs ++ z /\ (z = [] \/ exists w, z = 0 :: w).
Proof.
  induction bs as [|b bs (z & E & Hz)]; cbn [upto_nul]; [exists []; split; [done|by left]|].
  destruct (Z.eqb_spec b 0) as [->|Hb]; [exists (0 :: bs); split; [done|right; by exists bs]|].
  exists z. split; [cbn; by rewrite <- E|done].
Qed.

(** Bytes of a text: neither NUL nor more than a byte. *)
Definition char (x : Z) : Prop := 0 < x < 256.

Lemma holds_app m a b1 b2 : holds m a (b1 ++ b2) <-> holds m a b1 /\ holds m (a + Z.of_nat (length b1)) b2.
Proof.
  split.
  - intros H. split.
    + intros i x Hx. apply H. rewrite lookup_app_l; [done|]. by eapply lookup_lt_Some.
    + intros i x Hx. rewrite <- (H (length b1 + i)%nat x); [f_equal; lia|].
      rewrite lookup_app_r by lia. by replace (length b1 + i - length b1)%nat with i by lia.
  - intros [H1 H2] i x Hx. apply lookup_app_Some in Hx as [Hx|[Hge Hx]]; [by apply H1|].
    rewrite <- (H2 _ _ Hx). f_equal. lia.
Qed.

Lemma holds_frame m m' a bs :
  holds m a bs -> (forall b, a <= b < a + Z.of_nat (length bs) -> load8 m' b = load8 m b) -> holds m' a bs.
Proof. intros H Hm i x Hx. rewrite Hm; [by apply H|]. apply lookup_lt_Some in Hx. lia. Qed.

Definition byte (x : Z) : Prop := 0 <= x < 256.

Lemma byte_char bs : Forall byte bs -> 0 ∉ bs -> Forall char bs.
Proof.
  intros H H0. rewrite !Forall_forall in *. intros x Hx. specialize (H x Hx). unfold byte, char in *.
  assert (x <> 0) by (intros ->; done). lia.
Qed.

Lemma load8_stored m a bs b :
  Forall byte bs ->
  load8 (store_bytes m a bs) b = if decide (a <= b < a + Z.of_nat (length bs)) then bs !!! Z.to_nat (b - a) else load8 m b.
Proof.
  intros HF. rewrite load8_store_bytes. case_decide as Hb; [|done]. rewrite Forall_lookup in HF.
  destruct (lookup_lt_is_Some_2 bs (Z.to_nat (b - a))) as [x Hx]; [lia|].
  rewrite (list_lookup_total_correct _ _ _ Hx). apply HF in Hx. unfold byte in Hx. by rewrite u8_small by lia.
Qed.

Lemma holds_bytes_stored m a bs : Forall byte bs -> holds (store_bytes m a bs) a bs.
Proof.
  intros HF i x Hx. rewrite load8_stored by done. rewrite decide_True by (apply lookup_lt_Some in Hx; lia).
  rewrite Z.add_simpl_l, Nat2Z.id. by apply list_lookup_total_correct.
Qed.

Lemma holds_store_bytes m a bs : Forall char bs -> holds (store_bytes m a bs) a bs.
Proof.
  intros H. apply holds_bytes_stored. eapply Forall_impl; [exact H|]. unfold char, byte. intros x. lia.
Qed.

(** The user's [memmove] leaves the memory the kernel's does. *)
Lemma load8_u_memmove m dst src n a : load8 (u_memmove m dst src n) a = load8 (memmove m dst src n) a.
Proof.
  rewrite load8_memmove. unfold u_memmove. destruct (Z.leb_spec n 0).
  - replace (Z.to_nat n) with O by lia. rewrite decide_False by lia. by destruct (dst <? src).
  - destruct (Z.ltb_spec dst src).
    + rewrite load8_move_up by lia. repeat case_decide; try lia; done.
    + rewrite load8_move_down by lia. repeat case_decide; try lia; try done. f_equal. lia.
Qed.

(** ** [strchr] on a line *)

Lemma u_strchr_found fuel m p l c :
  holds m p (l ++ [c]) -> c ∉ l -> 0 ∉ l -> c <> 0 -> (length l < fuel)%nat ->
  u_strchr fuel m p c = Some (p + Z.of_nat (length l)).
Proof.
  revert p fuel. induction l as [|x l IH]; intros p fuel H Hc H0 Hc0 Hf; (destruct fuel as [|fuel]; [cbn in Hf; lia|]); cbn [u_strchr length].
  - pose proof (H 0%nat c eq_refl) as Hx. rewrite Z.add_0_r in *. rewrite Hx.
    by rewrite (proj2 (Z.eqb_neq c 0)), Z.eqb_refl by done.
  - pose proof (H 0%nat x eq_refl) as Hx. rewrite Z.add_0_r in Hx. rewrite Hx.
    apply not_elem_of_cons in Hc as [Hcx Hc], H0 as [H0x H0].
    rewrite (proj2 (Z.eqb_neq x 0)), (proj2 (Z.eqb_neq x c)) by done. rewrite IH; try done; [f_equal; lia| |cbn in Hf; lia].
    intros i y Hy. rewrite <- (H (S i) y Hy). f_equal. lia.
Qed.

Lemma u_strchr_none fuel m p l c :
  holds m p (l ++ [0]) -> c ∉ l -> 0 ∉ l -> (length l < fuel)%nat -> u_strchr fuel m p c = Some 0.
Proof.
  revert p fuel. induction l as [|x l IH]; intros p fuel H Hc H0 Hf; (destruct fuel as [|fuel]; [cbn in Hf; lia|]); cbn [u_strchr length].
  - pose proof (H 0%nat 0 eq_refl) as Hx. rewrite Z.add_0_r in Hx. by rewrite Hx.
  - pose proof (H 0%nat x eq_refl) as Hx. rewrite Z.add_0_r in Hx. rewrite Hx.
    apply not_elem_of_cons in Hc as [Hcx Hc], H0 as [H0x H0].
    rewrite (proj2 (Z.eqb_neq x 0)), (proj2 (Z.eqb_neq x c)) by done. apply IH; try done; [|cbn in Hf; lia].
    intros i y Hy. rewrite <- (H (S i) y Hy). f_equal. lia.
Qed.

Lemma holds_bytes_at m a bs : holds m a bs -> bytes_at m a (length bs) = bs.
Proof.
  intros H. apply list_eq. intros i. destruct (decide (i < length bs)%nat) as [Hi|Hi].
  - rewrite bytes_at_lookup by done. destruct (lookup_lt_is_Some_2 bs i Hi) as [x Hx]. by rewrite Hx, (H i x Hx).
  - rewrite !lookup_ge_None_2; [done|lia|rewrite length_bytes_at; lia].
Qed.

(** ** [strlen], [strcpy] and the strings they find *)

Lemma u_strlen_loop_at fuel m s t n :
  holds m (s + n) (t ++ [0]) -> Forall char t -> (length t < fuel)%nat -> u_strlen_loop fuel m s n = Some (u32 (n + Z.of_nat (length t))).
Proof.
  revert n fuel. induction t as [|c t IH]; intros n fuel H Hc Hf; (destruct fuel as [|fuel]; [cbn in Hf; lia|]); cbn [u_strlen_loop].
  - pose proof (H 0%nat 0 eq_refl) as Hx. rewrite Z.add_0_r in Hx. rewrite Hx. cbn. do 2 f_equal. lia.
  - pose proof (H 0%nat c eq_refl) as Hx. rewrite Z.add_0_r in Hx. rewrite Hx. apply Forall_cons in Hc as [Hc Ht].
    unfold char in Hc. rewrite (proj2 (Z.eqb_neq c 0)) by lia. cbn [length] in *. rewrite (IH (n + 1)); [do 2 f_equal; lia| |done|lia].
    intros i x Hi. rewrite <- (H (S i) x Hi). f_equal. lia.
Qed.

Lemma u_strlen_at fuel m s t :
  holds m s (t ++ [0]) -> Forall char t -> (length t < fuel)%nat -> Z.of_nat (length t) < 2 ^ 32 ->
  u_strlen fuel m s = Some (Z.of_nat (length t)).
Proof.
  intros H Hc Hf Hlen. unfold u_strlen. rewrite (u_strlen_loop_at fuel m s t 0); try done; [|by rewrite Z.add_0_r].
  f_equal. unfold u32. rewrite Z.mod_small; lia.
Qed.

Lemma cstr_word m q w n : holds m q (w ++ [0]) -> Forall char w -> (length w < n)%nat -> cstr m q n = w.
Proof.
  revert m q n. induction w as [|c w IH]; intros m q n H Hc Hn; (destruct n as [|n]; [cbn in Hn; lia|]); cbn [cstr].
  - pose proof (H 0%nat 0 eq_refl) as Hx. rewrite Z.add_0_r in Hx. by rewrite Hx.
  - pose proof (H 0%nat c eq_refl) as Hx. rewrite Z.add_0_r in Hx. rewrite Hx. apply Forall_cons in Hc as [Hc Hw].
    unfold char in Hc. rewrite (proj2 (Z.eqb_neq c 0)) by lia. f_equal. apply IH; [|done|cbn in Hn; lia].
    intros i x Hi. rewrite <- (H (S i) x Hi). f_equal. lia.
Qed.

(** [strcpy] of a string to a place apart from it. *)
Lemma u_strcpy_at fuel m s t w :
  holds m t (w ++ [0]) -> Forall char w -> (length w < fuel)%nat ->
  (forall i, 0 <= i <= Z.of_nat (length w) -> t + i < s \/ s + Z.of_nat (length w) < t + i) ->
  exists m', u_strcpy fuel m s t = Some m' /\ holds m' s (w ++ [0]) /\
    forall b, ~ (s <= b <= s + Z.of_nat (length w)) -> load8 m' b = load8 m b.
Proof.
  revert m s t fuel. induction w as [|c w IH]; intros m s t fuel H Hc Hf Hd; (destruct fuel as [|fuel]; [cbn in Hf; lia|]); cbn [u_strcpy length].
  - pose proof (H 0%nat 0 eq_refl) as Hx. rewrite Z.add_0_r in Hx. rewrite Hx. cbn [Z.eqb]. eexists. split; [done|]. split.
    + intros [|i] x Hi; [|done]. injection Hi as <-. rewrite Z.add_0_r. apply load8_store8_eq.
    + intros b Hb. apply load8_store8_ne. cbn in Hb. lia.
  - pose proof (H 0%nat c eq_refl) as Hx. rewrite Z.add_0_r in Hx. rewrite Hx. apply Forall_cons in Hc as [Hc Hw]. unfold char in Hc.
    rewrite (proj2 (Z.eqb_neq c 0)) by lia. cbn [length] in Hd, Hf. rewrite Nat2Z.inj_succ in Hd.
    destruct (IH (store8 m s c) (s + 1) (t + 1) fuel) as (m' & E & Hm & Ho); [|done|lia| |].
    + intros i x Hi. pose proof (lookup_lt_Some _ _ _ Hi) as Hl. rewrite length_app in Hl. cbn in Hl.
      rewrite load8_store8_ne by (specialize (Hd (Z.of_nat i + 1)); lia). rewrite <- (H (S i) x Hi). f_equal. lia.
    + intros i Hi. specialize (Hd (i + 1)). lia.
    + exists m'. split; [done|]. split.
      * intros [|i] x Hi.
        -- injection Hi as <-. rewrite Z.add_0_r, Ho by lia. rewrite load8_store8_eq. by rewrite u8_small by lia.
        -- rewrite <- (Hm i x Hi). f_equal. lia.
      * intros b Hb. rewrite Ho by lia. apply load8_store8_ne. lia.
Qed.

(** ** Reading from a descriptor *)

Definition with_mem (o : uos) (m : memory) : uos := {| u_mem := m; u_fds := u_fds o; u_files := u_files o; u_out := u_out o |}.

Definition with_in (o : uos) (fd : Z) (m : memory) (ps : list (list Z)) : uos :=
  {| u_mem := m; u_fds := <[fd := ps]> (u_fds o); u_files := u_files o; u_out := u_out o |}.

(** The input comes in pieces; none of them is empty. *)
Definition pieces (ps : list (list Z)) (bs : list Z) : Prop := Forall (fun p => p <> []) ps /\ concat ps = bs.

(** [read] delivers the beginning of what is left. *)
Lemma read_chunk o fd m ps a n bs :
  pieces ps bs -> bs <> [] -> 0 < n -> exists b1 b2 ps', bs = b1 ++ b2 /\ b1 <> [] /\ Z.of_nat (length b1) <= n /\ pieces ps' b2 /\
    read fd a n (with_in o fd m ps) = Ret (Z.of_nat (length b1)) (with_in o fd (store_bytes m a b1) ps').
Proof.
  intros [Hf Hc] Hb Hn. destruct ps as [|p ps]; [by destruct bs|]. apply Forall_cons in Hf as [Hp Hf]. set (k := Z.to_nat n). cbn in Hc.
  exists (take k p), (drop k p ++ concat ps), (if bool_decide (drop k p = []) then ps else drop k p :: ps). split_and!.
  - by rewrite app_assoc, take_drop.
  - destruct p; [done|]. unfold k. by replace (Z.to_nat n) with (S (Z.to_nat (n - 1))) by lia.
  - rewrite length_take. lia.
  - case_bool_decide as E; split; [done|by rewrite E|by constructor|done].
  - unfold read. mstep. cbn [with_in u_fds]. rewrite lookup_insert_eq. fold k. unfold with_in. mstep. cbn. by rewrite insert_insert_eq.
Qed.

Lemma read_one o fd m ps c x bs :
  pieces ps (x :: bs) -> exists ps', pieces ps' bs /\ read fd c 1 (with_in o fd m ps) = Ret 1 (with_in o fd (store8 m c x) ps').
Proof.
  intros Hp. destruct (read_chunk o fd m ps c 1 (x :: bs) Hp ltac:(done) ltac:(lia)) as (b1 & b2 & ps' & Eb & Hn & Hl & Hp' & E).
  destruct b1 as [|y [|? ?]]; [done| |cbn in Hl; lia]. injection Eb as <- <-. by exists ps'.
Qed.

Lemma pieces_nil ps : pieces ps [] -> ps = [].
Proof. intros [Hf Hc]. destruct ps as [|[|? ?] ps]; [done|by apply Forall_cons in Hf as [? _]|done]. Qed.

Lemma read_end o fd m a n : read fd a n (with_in o fd m []) = Ret 0 (with_in o fd m []).
Proof. unfold read. mstep. cbn [with_in u_fds]. by rewrite lookup_insert_eq. Qed.

Lemma with_in_id o fd ps : u_fds o !! fd = Some ps -> o = with_in o fd (u_mem o) ps.
Proof. intros H. unfold with_in. rewrite insert_id by done. by destruct o. Qed.
