(* ===== verification/Uprintf.v ===== *)
(** user/printf.c: formatted output of the user programs. *)

From S2P Require Import Prelude Mem Digits Ulib.

(** [digits[]] *)
Definition udigit (d : Z) : Z := if d <? 10 then 48 + d else 65 + (d - 10).

(** [putc]: a [write] of one byte. *)
Definition putc (fd c : Z) : M uos unit :=
  modify (fun s => {| u_mem := u_mem s; u_fds := u_fds s; u_files := u_files s; u_out := (fd, [u8 c]) :: u_out s |}).

Fixpoint putcs (fd : Z) (cs : list Z) : M uos unit :=
  match cs with
  | [] => mret_ tt
  | c :: cs' => putc fd c ;; putcs fd cs'
  end.

(** The characters [printint] leaves in [buf], in the order it prints them. *)
Definition uprintint_chars (xx base : Z) (sgn : bool) : list Z :=
  let neg := sgn && (xx <? 0) in
  let x := if neg then u32 (- xx) else u32 xx in
  (if neg then [45] else []) ++ (udigit <$> digits_of x base).
Definition uprintint (fd xx base : Z) (sgn : bool) : M uos unit := putcs fd (uprintint_chars xx base sgn).

(** [for (i = 0; i < 16; i++, x <<= 4) putc(fd, digits[x >> 60])] *)
Fixpoint uprintptr_loop (n : nat) (fd x : Z) : M uos unit :=
  match n with
  | O => mret_ tt
  | S n' => putc fd (udigit (Z.shiftr x 60)) ;; uprintptr_loop n' fd (u64 (Z.shiftl x 4))
  end.
Definition uprintptr (fd x : Z) : M uos unit :=
  putc fd 48 ;; putc fd 120 ;; uprintptr_loop 16 fd x.

(** [while( *s != 0 ) putc(fd, *s++)] *)
Fixpoint uputs (fuel : nat) (fd s : Z) : M uos unit :=
  match fuel with
  | O => nofuel
  | S fuel' => let! c := ld s in if c =? 0 then mret_ tt else putc fd c ;; uputs fuel' fd (s + 1)
  end.

(** "(null)" *)
Definition null_str : list Z := [40; 110; 117; 108; 108; 41].

(** One conversion; [ap] are the arguments left, the result those left after. *)
Definition uconvert (fuel : nat) (fd c : Z) (ap : list Z) : M uos (list Z) :=
  let arg := default 0 (ap !! O) in
  if c =? 100 then uprintint fd (s32 arg) 10 true ;; mret_ (drop 1 ap)
  else if c =? 108 then uprintint fd (s32 (u64 arg)) 10 false ;; mret_ (drop 1 ap)
  else if c =? 120 then uprintint fd (s32 arg) 16 false ;; mret_ (drop 1 ap)
  else if c =? 112 then uprintptr fd (u64 arg) ;; mret_ (drop 1 ap)
  else if c =? 115 then
    (if u64 arg =? 0 then putcs fd null_str else uputs fuel fd (u64 arg)) ;; mret_ (drop 1 ap)
  else if c =? 99 then putc fd (u32 arg) ;; mret_ (drop 1 ap)
  else if c =? 37 then putc fd c ;; mret_ ap
  else putc fd 37 ;; putc fd c ;; mret_ ap.

(** The loop over the format; [pct] is [state == '%']. *)
Fixpoint vprintf (fuel : nat) (fd : Z) (fmt : list Z) (pct : bool) (ap : list Z) : M uos unit :=
  match fmt with
  | [] => mret_ tt
  | c :: fmt' =>
      if pct then let! ap' := uconvert fuel fd c ap in vprintf fuel fd fmt' false ap'
      else if c =? 37 then vprintf fuel fd fmt' true ap
      else putc fd c ;; vprintf fuel fd fmt' false ap
  end.
Definition fprintf (fuel : nat) (fd : Z) (fmt : list Z) (ap : list Z) : M uos unit := vprintf fuel fd fmt false ap.
Definition printf (fuel : nat) (fmt : list Z) (ap : list Z) : M uos unit := vprintf fuel 1 fmt false ap.

(** ** What is printed *)

(** [s] with the bytes [cs] written to [fd], one at a time. *)
Definition printed (fd : Z) (cs : list Z) (s : uos) : uos :=
  {| u_mem := u_mem s; u_fds := u_fds s; u_files := u_files s;
     u_out := reverse ((fun c => (fd, [u8 c])) <$> cs) ++ u_out s |}.

Lemma printed_nil fd s : printed fd [] s = s.
Proof. by destruct s. Qed.

Lemma printed_app fd cs1 cs2 s : printed fd cs2 (printed fd cs1 s) = printed fd (cs1 ++ cs2) s.
Proof. unfold printed. cbn. f_equal. by rewrite fmap_app, reverse_app, app_assoc. Qed.

Lemma putcs_ok fd cs s : putcs fd cs s = Ret tt (printed fd cs s).
Proof.
  revert s. induction cs as [|c cs IH]; intros s; cbn [putcs]; [by rewrite printed_nil|].
  unfold putc. mstep. rewrite IH. change (Ret tt (printed fd cs (printed fd [c] s)) = Ret tt (printed fd (c :: cs) s)).
  by rewrite printed_app.
Qed.

(** [atoi] reads decimal digits as the number they stand for. *)
Lemma u_atoi_loop_digits fuel m a ds n :
  (forall i d, ds !! i = Some d -> 0 <= d < 10 /\ load8 m (a + Z.of_nat i) = 48 + d) ->
  ~ (48 <= load8 m (a + Z.of_nat (length ds)) <= 57) -> (length ds < fuel)%nat ->
  0 <= n -> fold_left (fun n d => n * 10 + d) ds n < 2 ^ 31 ->
  u_atoi_loop fuel m a n = Some (fold_left (fun n d => n * 10 + d) ds n).
Proof.
  revert fuel a n. induction ds as [|d ds IH]; intros fuel a n Hds Hend Hf Hn Hmax; destruct fuel as [|fuel]; try (cbn in Hf; lia).
  - cbn [u_atoi_loop fold_left length] in *. rewrite Z.add_0_r in Hend.
    destruct (Z.leb_spec 48 (load8 m a)), (Z.leb_spec (load8 m a) 57); cbn [andb]; done || lia.
  - cbn [u_atoi_loop fold_left length] in *. destruct (Hds 0%nat d eq_refl) as [Hd Hl]. rewrite Z.add_0_r in Hl. rewrite Hl.
    rewrite (proj2 (Z.leb_le 48 _)), (proj2 (Z.leb_le _ 57)) by lia. cbn [andb].
    replace (n * 10 + (48 + d) - 48) with (n * 10 + d) by lia.
    assert (Hgrow : forall l x, 0 <= x -> (forall i d, l !! i = Some d -> 0 <= d < 10) -> x <= fold_left (fun n d => n * 10 + d) l x).
    { induction l as [|y l IHl]; intros x Hx Hl'; cbn; [lia|]. pose proof (Hl' 0%nat y eq_refl).
      etransitivity; [|apply IHl; [lia|intros i z Hz; by apply (Hl' (S i))]]. lia. }
    assert (Hrest : forall i d, ds !! i = Some d -> 0 <= d < 10) by (intros i z Hz; by apply (Hds (S i))).
    pose proof (Hgrow ds (n * 10 + d) ltac:(lia) Hrest).
    rewrite s32_small by lia. apply IH; [| |lia|lia|done].
    + intros i z Hz. destruct (Hds (S i) z Hz) as [Hz1 Hz2]. split; [done|]. rewrite <- Hz2. f_equal. lia.
    + replace (a + 1 + Z.of_nat (length ds)) with (a + Z.of_nat (S (length ds))) by lia. done.
Qed.

(** Printing a number with [%d] and reading it back with [atoi] gives the
    number: [printf] emits the decimal digits of any non-negative [int], in at most
    ten characters, and [atoi] on a string holding them returns it. *)
Theorem atoi_printint n s m a fd fuel :
  0 <= n < 2 ^ 31 -> (11 <= fuel)%nat ->
  let cs := uprintint_chars n 10 true in
  cstr m a (S (length cs)) = cs ->
  uprintint fd n 10 true s = Ret tt (printed fd cs s) /\ (length cs <= 10)%nat /\ u_atoi fuel m a = Some n.
Proof.
  intros Hn Hf cs Hs. split; [apply putcs_ok|].
  assert (Hcs : cs = udigit <$> digits_of n 10).
  { unfold cs, uprintint_chars. rewrite (proj2 (Z.ltb_ge n 0)) by lia. cbn [andb app]. by rewrite u32_small by lia. }
  assert (Hlen : (length cs <= 10)%nat) by (rewrite Hcs, length_fmap; apply digits_of_len; lia).
  split; [done|]. unfold u_atoi. assert (Hnum : fold_left (fun n d => n * 10 + d) (digits_of n 10) 0 = n) by (apply digits_of_number; lia).
  assert (Hl : length (digits_of n 10) = length cs) by (by rewrite Hcs, length_fmap).
  rewrite (u_atoi_loop_digits fuel m a (digits_of n 10) 0); [by rewrite Hnum| | |lia|lia|lia].
  - intros i d Hd. assert (Hr : 0 <= d < 10) by (apply (digits_of_range n 10); [lia|by eapply list_elem_of_lookup_2]).
    split; [done|]. assert (Hx : cs !! i = Some (udigit d)) by (by rewrite Hcs, list_lookup_fmap, Hd).
    rewrite <- Hs in Hx. apply cstr_lookup in Hx as [-> _]. unfold udigit. by rewrite (proj2 (Z.ltb_lt d 10)) by lia.
  - rewrite Hl. rewrite <- Hs at 1. rewrite cstr_nul; [lia|]. rewrite Hs. lia.
Qed.

Lemma atoi_printint_witness :
  u_atoi 20 (store8 (store8 ∅ 100 52) 101 50) 100 = Some 42.
Proof.
  apply (atoi_printint 42 (UOs ∅ ∅ ∅ []) (store8 (store8 ∅ 100 52) 101 50) 100 1 20).
  - lia.
  - lia.
  - vm_compute. reflexivity.
Defined.
