(* ===== verification/Umalloc.v ===== *)
(** * The user allocator: umalloc.c

    The free list threaded through the headers of the free blocks, [free],
    [morecore] and [malloc], on the byte memory of the process.  The kernel's
    part is [sbrk]: it moves the break, or refuses.  The second half of the file is
    the free list in memory and [free] as an operation on it. *)

From S2P Require Import Prelude Riscv Mem.

(** ** State

    A header has the pointer to the next free block at offset 0 and the size, in
    units of headers, at offset 8; it takes 16 bytes. *)
Definition sizeof_Header : Z := 16.

Record uheap := UHeap {
  h_mem : memory;      (* the memory of the process *)
  freep : Z;
  h_brk : Z            (* the size of the process, which sbrk moves *)
}.

Definition hptr (m : memory) (p : Z) : Z := load64 m p.
Definition hsize (m : memory) (p : Z) : Z := load_le m (p + 8) 4.
Definition put_hptr (p v : Z) (m : memory) : memory := store64 m p v.
Definition put_hsize (p v : Z) (m : memory) : memory := store_le m (p + 8) 4 v.

(** [p + n] on pointers to headers. *)
Definition hplus (p n : Z) : Z := u64 (p + sizeof_Header * n).

Definition get_ptr (p : Z) : M uheap Z := gets (fun s => hptr (h_mem s) p).
Definition get_size (p : Z) : M uheap Z := gets (fun s => hsize (h_mem s) p).
Definition set_mem (f : memory -> memory) (s : uheap) : uheap :=
  UHeap (f (h_mem s)) (freep s) (h_brk s).
Definition set_ptr (p v : Z) : M uheap unit := modify (set_mem (put_hptr p v)).
Definition set_size (p v : Z) : M uheap unit :=
  modify (set_mem (put_hsize p (u32 v))).
Definition set_freep (p : Z) : M uheap unit :=
  modify (fun s => UHeap (h_mem s) p (h_brk s)).

Section Umalloc.
(** [base] is the address of the static header, [grant b n] whether the kernel
    lets the break move from [b] by [n]. *)
Context (base : Z) (grant : Z -> Z -> bool).

Definition sbrk (n : Z) : M uheap Z :=
  let! b := gets h_brk in
  if grant b n then
    modify (fun s => UHeap (h_mem s) (freep s) (b + n)) ;;
    mret_ b
  else mret_ (u64 (-1)).

(** Enough for two rounds of the list, which has at most one block in every 16
    bytes between [base] and the break. *)
Definition list_fuel (s : uheap) : nat :=
  Z.to_nat (2 * ((h_brk s - base) / sizeof_Header) + 6).

(** The loop of [free]: the block after which [bp] goes. *)
Fixpoint free_scan (fuel : nat) (bp p : Z) : M uheap Z :=
  match fuel with
  | O => nofuel
  | S fuel' =>
      let! next := get_ptr p in
      if (p <? bp) && (bp <? next) then mret_ p
      else if (next <=? p) && ((p <? bp) || (bp <? next)) then mret_ p
      else free_scan fuel' bp next
  end.

(** The two conditionals of [free]: [bp] is joined to the block after it, then to
    the block before it. *)
Definition join_next (p bp : Z) : M uheap unit :=
  let! next := get_ptr p in
  let! n := get_size bp in
  if hplus bp n =? next then
    let! k := get_size next in
    set_size bp (n + k) ;;
    let! nn := get_ptr next in
    set_ptr bp nn
  else set_ptr bp next.

Definition join_prev (p bp : Z) : M uheap unit :=
  let! q := get_size p in
  if hplus p q =? bp then
    let! n := get_size bp in
    set_size p (q + n) ;;
    let! next := get_ptr bp in
    set_ptr p next
  else set_ptr p bp.

Definition free (ap : Z) : M uheap unit :=
  let bp := hplus ap (-1) in
  let! fuel := gets list_fuel in
  let! p0 := gets freep in
  let! p := free_scan fuel bp p0 in
  join_next p bp ;;
  join_prev p bp ;;
  set_freep p.

Definition morecore (nu : Z) : M uheap Z :=
  let nu := if nu <? 4096 then 4096 else nu in
  let! p := sbrk (s32 (nu * sizeof_Header)) in
  if p =? u64 (-1) then mret_ 0
  else
    set_size p nu ;;
    free (hplus p 1) ;;
    gets freep.

(** The block [p] after [prevp] is large enough: take its end, or all of it. *)
Definition take_block (nunits prevp p : Z) : M uheap Z :=
  let! size := get_size p in
  let! p :=
    (if size =? nunits then
       let! next := get_ptr p in
       set_ptr prevp next ;;
       mret_ p
     else
       set_size p (size - nunits) ;;
       let! size := get_size p in
       let p := hplus p size in
       set_size p nunits ;;
       mret_ p) in
  set_freep prevp ;;
  mret_ (hplus p 1).

(** The loop of [malloc]. *)
Fixpoint malloc_loop (fuel : nat) (nunits prevp p : Z) : M uheap Z :=
  match fuel with
  | O => nofuel
  | S fuel' =>
      let! size := get_size p in
      if nunits <=? size then take_block nunits prevp p
      else
        let! fp := gets freep in
        if p =? fp then
          let! p := morecore nunits in
          if p =? 0 then mret_ 0
          else
            let! next := get_ptr p in
            malloc_loop fuel' nunits p next
        else
          let! next := get_ptr p in
          malloc_loop fuel' nunits p next
  end.

Definition malloc (nbytes : Z) : M uheap Z :=
  let nunits := u32 ((nbytes + sizeof_Header - 1) / sizeof_Header + 1) in
  let! fp := gets freep in
  let! prevp :=
    (if fp =? 0 then
       set_freep base ;;
       set_ptr base base ;;
       set_size base 0 ;;
       mret_ base
     else mret_ fp) in
  let! p := get_ptr prevp in
  let! fuel := gets list_fuel in
  malloc_loop fuel nunits prevp p.

End Umalloc.

(** * The free list of umalloc.c in memory

    Headers in memory, the list they form, and [free] as an operation on the
    list: find the place of the block, insert it, merge it with its neighbours. *)

(** ** Headers *)

#[global] Arguments hptr : simpl never.
#[global] Arguments hsize : simpl never.
#[global] Arguments put_hptr : simpl never.
#[global] Arguments put_hsize : simpl never.

Definition hdr_apart (p q : Z) : Prop := p + 16 <= q \/ q + 16 <= p.

Lemma hptr_put_hptr p v m : 0 <= v < 2 ^ 64 -> hptr (put_hptr p v m) p = v.
Proof. intros. unfold hptr, put_hptr. by rewrite load64_store64_eq, u64_small. Qed.

Lemma hsize_put_hsize p v m : 0 <= v < 2 ^ 32 -> hsize (put_hsize p v m) p = v.
Proof.
  intros. unfold hsize, put_hsize. rewrite load_le_store_le. by apply Z.mod_small.
Qed.

(** Two memories that differ only in the header at [p]. *)
Definition only_hdr (p : Z) (m m' : memory) : Prop :=
  forall a, ~ (p <= a < p + 16) -> load8 m' a = load8 m a.

Lemma only_put_hptr p v m : only_hdr p m (put_hptr p v m).
Proof. intros a Ha. apply load8_store64_out. lia. Qed.

Lemma only_put_hsize p v m : only_hdr p m (put_hsize p v m).
Proof. intros a Ha. apply load8_store_le_out. lia. Qed.

Lemma only_hdr_trans p m1 m2 m3 : only_hdr p m1 m2 -> only_hdr p m2 m3 -> only_hdr p m1 m3.
Proof. intros H1 H2 a Ha. by rewrite H2, H1. Qed.

Lemma only_hdr_ptr p q m m' : only_hdr p m m' -> hdr_apart p q -> hptr m' q = hptr m q.
Proof. intros H A. apply load_le_ext. intros b Hb. apply H. unfold hdr_apart in A. lia. Qed.

Lemma only_hdr_size p q m m' : only_hdr p m m' -> hdr_apart p q -> hsize m' q = hsize m q.
Proof. intros H A. apply load_le_ext. intros b Hb. apply H. unfold hdr_apart in A. lia. Qed.

Lemma hsize_put_hptr p v m : hsize (put_hptr p v m) p = hsize m p.
Proof. apply load_le_ext. intros b Hb. apply load8_store64_out. lia. Qed.

Lemma hptr_put_hsize p v m : hptr (put_hsize p v m) p = hptr m p.
Proof. apply load_le_ext. intros b Hb. apply load8_store_le_out. lia. Qed.

Lemma hptr_range m p : 0 <= hptr m p < 2 ^ 64.
Proof. apply load64_range. Qed.

Lemma hplus_small p n : 0 <= p + 16 * n < 2 ^ 64 -> hplus p n = p + 16 * n.
Proof. intros. unfold hplus. rewrite u64_small; [done | unfold sizeof_Header; lia]. Qed.

(** ** Lists of blocks

    A block is an address and a number of units.  [hseg m a l z]: the headers of
    the blocks [l] are linked from [a] to [z]. *)
Abbreviation block := (Z * Z)%type.

Fixpoint hseg (m : memory) (a : Z) (l : list block) (z : Z) : Prop :=
  match l with
  | [] => a = z
  | (p, n) :: l' => a = p /\ hsize m p = n /\ hseg m (hptr m p) l' z
  end.

Lemma hseg_app m a l1 l2 z :
  hseg m a (l1 ++ l2) z <-> exists b, hseg m a l1 b /\ hseg m b l2 z.
Proof.
  revert a. induction l1 as [|[p n] l1 IH]; intros a; cbn [hseg app].
  - naive_solver.
  - rewrite IH. naive_solver.
Qed.

Lemma hseg_ext p m m' a l z :
  only_hdr p m m' -> Forall (fun x => hdr_apart p x.1) l -> hseg m a l z -> hseg m' a l z.
Proof.
  intros O. revert a. induction l as [|[q n] l IH]; intros a F; cbn [hseg]; [done|].
  inversion F as [|? ? A F']; subst. cbn in A.
  intros (-> & En & Hl). rewrite (only_hdr_size _ _ _ _ O A), (only_hdr_ptr _ _ _ _ O A).
  naive_solver.
Qed.

(** The blocks are in order from [lo] on, the next one neither overlaps nor
    touches, and even an empty block has a header. *)
Definition room (n : Z) : Z := Z.max 16 (16 * n + 1).

Fixpoint gaps (lo : Z) (l : list block) : Prop :=
  match l with
  | [] => True
  | (p, n) :: l' => lo <= p /\ 0 <= n /\ gaps (p + room n) l'
  end.

Definition last_end (lo : Z) (l : list block) : Z :=
  match last l with Some (p, n) => p + room n | None => lo end.

Lemma last_end_snoc lo l p n : last_end lo (l ++ [(p, n)]) = p + room n.
Proof. unfold last_end. by rewrite last_snoc. Qed.

Lemma last_end_cons lo p n l : last_end lo ((p, n) :: l) = last_end (p + room n) l.
Proof.
  unfold last_end. destruct l as [|x l]; [done|]. rewrite last_cons_cons.
  destruct (last (x :: l)) eqn:E; [done|]. apply last_None in E. done.
Qed.

Lemma gaps_app lo l1 l2 : gaps lo (l1 ++ l2) <-> gaps lo l1 /\ gaps (last_end lo l1) l2.
Proof.
  revert lo. induction l1 as [|[p n] l1 IH]; intros lo.
  - unfold last_end. cbn. tauto.
  - rewrite last_end_cons. cbn [gaps app]. rewrite IH. tauto.
Qed.

Lemma gaps_lo lo lo' l : lo' <= lo -> gaps lo l -> gaps lo' l.
Proof. destruct l as [|[p n] l]; cbn [gaps]; [done | intros; intuition lia]. Qed.

Lemma gaps_above lo l x : gaps lo l -> x ∈ l -> lo <= x.1 /\ 0 <= x.2.
Proof.
  revert lo. induction l as [|[p n] l IH]; intros lo G Hx; [by apply elem_of_nil in Hx|].
  destruct G as (? & ? & G). apply elem_of_cons in Hx as [->|Hx]; [done|].
  destruct (IH _ G Hx). unfold room in *. lia.
Qed.

Lemma gaps_below lo l x : gaps lo l -> x ∈ l -> x.1 + room x.2 <= last_end lo l.
Proof.
  revert lo x. induction l as [|[p n] l IH]; intros lo x G Hx; [by apply elem_of_nil in Hx|].
  rewrite last_end_cons. destruct G as (? & ? & G).
  apply elem_of_cons in Hx as [->|Hx]; [|by apply IH].
  destruct l as [|[q k] l]; [done|].
  assert (q + room k <= last_end (p + room n) ((q, k) :: l)) by (apply (IH _ (q, k) G); left).
  destruct G as (? & _). unfold room in *. cbn. lia.
Qed.

(** The headers of a list in order are apart from one another. *)
Lemma gaps_headers lo l1 p n l2 :
  gaps lo (l1 ++ (p, n) :: l2) ->
  Forall (fun x => hdr_apart p x.1) l1 /\ Forall (fun x => hdr_apart p x.1) l2.
Proof.
  intros [G1 (Hp & Hn & G2)]%gaps_app. split; apply Forall_forall; intros x Hx; unfold hdr_apart.
  - pose proof (gaps_below _ _ _ G1 Hx). unfold room in *. lia.
  - pose proof (gaps_above _ _ _ G2 Hx). unfold room in *. lia.
Qed.

(** ** The loop of [free] *)

Section Free.
Context (base : Z).

(** From a block below [bp] the loop goes up to the last one below it. *)
Lemma scan_low s bp fuel p n l lo :
  hseg (h_mem s) p ((p, n) :: l) base -> gaps lo ((p, n) :: l) -> base <= p < bp ->
  Forall (fun x => x.1 <> bp) l -> (length l < fuel)%nat ->
  exists l1 x l2, (p, n) :: l = l1 ++ x :: l2 /\ x.1 < bp /\
    Forall (fun y => bp < y.1) l2 /\ free_scan fuel bp p s = Ret x.1 s.
Proof.
  revert fuel p n lo. induction l as [|[q k] l IH]; intros [|fuel] p n lo; cbn [length];
    intros HL HG Hp F Hf; try lia; cbn [free_scan]; unfold get_ptr; mstep.
  - destruct HL as (_ & _ & E). cbn in E. rewrite E.
    exists [], (p, n), []. rewrite (proj2 (Z.ltb_lt p bp)), (proj2 (Z.ltb_ge bp base)) by lia.
    rewrite (proj2 (Z.leb_le base p)) by lia. cbn. split_and!; [done | lia | done | done].
  - destruct HL as (_ & _ & HL). destruct HG as (_ & ? & HG).
    assert (hptr (h_mem s) p = q) as E by (by destruct HL). rewrite E in *.
    apply Forall_cons in F as [Nq F']. cbn in Nq.
    assert (p < q) by (destruct HG; unfold room in *; lia).
    rewrite (proj2 (Z.ltb_lt p bp)) by lia. cbn [andb].
    destruct (Z.ltb_spec bp q).
    + exists [], (p, n), ((q, k) :: l). cbn. split_and!; [done | lia | | done].
      constructor; [done|]. apply Forall_forall. intros x Hx. destruct HG as (_ & ? & HG).
      pose proof (gaps_above _ _ _ HG Hx). unfold room in *. lia.
    + rewrite (proj2 (Z.leb_gt q p)) by lia. cbn [andb].
      destruct (IH fuel q k _ HL HG) as (l1 & x & l2 & El & ?); [lia | done | lia |].
      exists ((p, n) :: l1), x, l2. by rewrite El.
Qed.

(** From a block above [bp] the loop wraps around to [base]. *)
Lemma scan_high s bp fuel p n l lo :
  hseg (h_mem s) p ((p, n) :: l) base -> gaps lo ((p, n) :: l) -> base < bp < p ->
  free_scan (S (length l) + fuel) bp p s = free_scan fuel bp base s.
Proof.
  revert p n lo. induction l as [|[q k] l IH]; intros p n lo HL HG Hp;
    cbn [length Nat.add]; cbn [free_scan]; unfold get_ptr; mstep.
  - destruct HL as (_ & _ & E). cbn in E. rewrite E.
    rewrite (proj2 (Z.ltb_ge p bp)), (proj2 (Z.ltb_ge bp base)) by lia.
    cbn [andb orb]. by rewrite andb_false_r.
  - destruct HL as (_ & _ & HL). destruct HG as (_ & ? & HG).
    assert (hptr (h_mem s) p = q) as E by (by destruct HL). rewrite E in *.
    assert (p < q) by (destruct HG; unfold room in *; lia).
    rewrite (proj2 (Z.ltb_ge p bp)), (proj2 (Z.leb_gt q p)) by lia. cbn [andb].
    apply (IH q k _ HL HG). lia.
Qed.

(** The free list [fl] after [base], in memory. *)
Record free_list (m : memory) (fl : list block) : Prop := {
  fl_linked : hseg m base ((base, 0) :: fl) base;
  fl_gaps : gaps base ((base, 0) :: fl);
  fl_pos : Forall (fun x => 0 < x.2) fl;
}.

Lemma scan_ok s fl bp fuel :
  free_list (h_mem s) fl -> freep s ∈ ((base, 0) :: fl).*1 -> base < bp ->
  Forall (fun x => x.1 <> bp) fl -> (2 * length fl + 2 <= fuel)%nat ->
  exists l1 x l2, (base, 0) :: fl = l1 ++ x :: l2 /\ x.1 < bp /\
    Forall (fun y => bp < y.1) l2 /\ free_scan fuel bp (freep s) s = Ret x.1 s.
Proof.
  intros [HL HG _] Hin Hb F Hf.
  apply list_elem_of_fmap in Hin as ([p n] & E & Hin). cbn in E. rewrite E. clear E.
  apply list_elem_of_split in Hin as (l0 & l & El). rewrite El in *.
  assert (length l0 + S (length l) = S (length fl))%nat
    by (apply (f_equal length) in El; rewrite length_app in El; cbn in El; lia).
  pose proof HL as (b & _ & HL2)%hseg_app. assert (b = p) as -> by (by destruct HL2).
  pose proof HG as [HG1 HG2]%gaps_app.
  assert (base <= p) by (apply (gaps_above _ _ (p, n) HG); apply elem_of_app; right; left).
  assert (Forall (fun x => x.1 <> bp) (l0 ++ (p, n) :: l)) as F' by (rewrite <- El; constructor; [cbn; lia | done]).
  pose proof F' as [_ [N F2]%Forall_cons]%Forall_app. cbn in N.
  destruct (decide (p < bp)).
  - destruct (scan_low s bp fuel p n l _ HL2 HG2) as (u1 & x & u2 & E & ? & ? & ?); [lia | done | lia |].
    exists (l0 ++ u1), x, u2. by rewrite E, app_assoc.
  - replace fuel with (S (length l) + (fuel - S (length l)))%nat by lia.
    rewrite (scan_high s bp _ p n l _ HL2 HG2) by lia.
    rewrite <- El in *. apply (scan_low s bp _ base 0 fl base); try done; lia.
Qed.

(** ** Joining blocks *)

Definition joined_next (bp n : Z) (l : list block) : Z * list block :=
  match l with
  | (c, k) :: l' => if bp + 16 * n =? c then (n + k, l') else (n, l)
  | [] => (n, [])
  end.

Definition joined_prev (p q bp n : Z) (l : list block) : list block :=
  if p + 16 * q =? bp then (p, q + n) :: l else (p, q) :: (bp, n) :: l.

Definition joined (p q bp n : Z) (l : list block) : list block :=
  joined_prev p q bp (joined_next bp n l).1 (joined_next bp n l).2.

(** The bytes of a list of blocks. *)
Definition covers (l : list block) (a : Z) : Prop :=
  Exists (fun x => x.1 <= a < x.1 + 16 * x.2) l.

Definition addressable (x : block) : Prop := 0 <= x.1 /\ x.1 + 16 * x.2 <= 2 ^ 32.

Lemma covers_cons p n l a : covers ((p, n) :: l) a <-> p <= a < p + 16 * n \/ covers l a.
Proof. apply Exists_cons. Qed.

Lemma covers_app l1 l2 a : covers (l1 ++ l2) a <-> covers l1 a \/ covers l2 a.
Proof. apply Exists_app. Qed.

Lemma joined_covers p q bp n l a :
  0 <= n -> 0 <= q -> Forall (fun x => 0 < x.2) l ->
  covers (joined p q bp n l) a <-> covers ((p, q) :: l) a \/ bp <= a < bp + 16 * n.
Proof.
  intros Hn Hq F. unfold joined, joined_prev, joined_next.
  destruct l as [|[c k] l]; [|apply Forall_cons in F as [Hk _]; cbn in Hk];
    repeat case_match; simplify_eq/=; rewrite !covers_cons; intuition lia.
Qed.

Lemma joined_gaps p q bp n l :
  0 < n -> 0 <= q -> p + Z.max 16 (16 * q) <= bp -> Forall (fun x => 0 < x.2) l ->
  Forall (fun x => bp + 16 * n <= x.1) l -> gaps (p + room q) l ->
  forall lo, lo <= p -> gaps lo (joined p q bp n l).
Proof.
  intros Hn Hq Hp F A G lo Hlo. unfold joined, joined_prev, joined_next.
  destruct l as [|[c k] l];
    [|apply Forall_cons in F as [Hk _]; apply Forall_cons in A as [Hc _]; cbn in Hk, Hc;
      destruct G as (_ & _ & G)];
    repeat case_match; simplify_eq/=; unfold room in *; split_and!; try lia; try done;
    (eapply gaps_lo; [|exact G]; lia).
Qed.

Lemma join_next_ok s p bp n l :
  hseg (h_mem s) (hptr (h_mem s) p) l base -> hsize (h_mem s) bp = n -> 0 < n ->
  0 <= base < bp -> addressable (bp, n) ->
  Forall (fun x => bp + 16 * n <= x.1) l -> Forall addressable l -> Forall (fun x => 0 < x.2) l ->
  exists m', join_next p bp s = Ret tt (UHeap m' (freep s) (h_brk s)) /\
    only_hdr bp (h_mem s) m' /\ hsize m' bp = (joined_next bp n l).1 /\
    hseg m' (hptr m' bp) (joined_next bp n l).2 base.
Proof.
  intros HL En Hn Hb [? Ab] A D F. cbn [fst snd] in *.
  assert (Forall (fun x => hdr_apart bp x.1) l) as FA
    by (eapply Forall_impl; [exact A|]; intros x Hx; cbn [fst snd] in Hx; unfold hdr_apart; lia).
  unfold join_next, get_ptr, get_size. do 2 (mstep; cbv beta). rewrite En, hplus_small by lia.
  pose proof (hptr_range (h_mem s) p) as Hr.
  assert (hseg (put_hptr bp (hptr (h_mem s) p) (h_mem s)) (hptr (put_hptr bp (hptr (h_mem s) p) (h_mem s)) bp) l base) as HL'.
  { rewrite hptr_put_hptr by done. eapply hseg_ext; [apply only_put_hptr | done | done]. }
  unfold set_ptr, set_size, joined_next. destruct l as [|[c k] l].
  - cbn in HL. rewrite HL in *. rewrite (proj2 (Z.eqb_neq _ _)) by lia.
    eexists. split; [reflexivity|]. rewrite hsize_put_hptr. auto using only_put_hptr.
  - assert (hptr (h_mem s) p = c) as E by (by destruct HL). rewrite E in *.
    destruct (Z.eqb_spec (bp + 16 * n) c) as [Ec|].
    + repeat (mstep; cbv beta). destruct HL as (_ & Ek & HL). rewrite Ek.
      apply Forall_cons in FA as [Ac FA]. apply Forall_cons in D as [[? Dk] _]. cbn [fst snd] in *.
      rewrite u32_small by (apply Forall_cons in F as [? _]; cbn [fst snd] in *; lia).
      rewrite (only_hdr_ptr bp c (h_mem s)) by (done || apply only_put_hsize).
      eexists. split; [reflexivity|]. cbn.
      split; [eapply only_hdr_trans; [apply only_put_hsize | apply only_put_hptr]|].
      rewrite hsize_put_hptr, hsize_put_hsize, hptr_put_hptr
        by (apply hptr_range || (apply Forall_cons in F as [? _]; cbn [fst snd] in *; lia)).
      split; [done|]. eapply hseg_ext; [|exact FA|exact HL].
      eapply only_hdr_trans; [apply only_put_hsize | apply only_put_hptr].
    + eexists. split; [reflexivity|]. rewrite hsize_put_hptr. auto using only_put_hptr.
Qed.

Lemma join_prev_ok s p q bp n l :
  hseg (h_mem s) (hptr (h_mem s) bp) l base -> hsize (h_mem s) bp = n -> hsize (h_mem s) p = q ->
  0 <= p -> 0 <= q -> 0 <= n -> p + 16 <= bp -> 16 * (q + n) < 2 ^ 32 -> p + 16 * q < 2 ^ 32 ->
  bp < 2 ^ 32 -> Forall (fun x => hdr_apart p x.1) l ->
  exists m', join_prev p bp s = Ret tt (UHeap m' (freep s) (h_brk s)) /\
    only_hdr p (h_mem s) m' /\ hseg m' p (joined_prev p q bp n l) base.
Proof.
  intros HL En Eq Hp Hq Hn Hpb Hs Hb Hbb FA.
  assert (hdr_apart p bp) as Ap by (unfold hdr_apart; lia).
  unfold join_prev, get_ptr, get_size. mstep; cbv beta. rewrite Eq, hplus_small by lia.
  unfold set_ptr, set_size, joined_prev. destruct (Z.eqb_spec (p + 16 * q) bp).
  - repeat (mstep; cbv beta). rewrite En, u32_small by lia.
    eexists. split; [reflexivity|]. cbn.
    rewrite (only_hdr_ptr p bp (h_mem s)) by (done || apply only_put_hsize).
    assert (forall v, only_hdr p (h_mem s) (put_hptr p v (put_hsize p (q + n) (h_mem s)))) as O
      by (intros v; eapply only_hdr_trans; [apply only_put_hsize | apply only_put_hptr]).
    split; [done|]. rewrite hsize_put_hptr, hsize_put_hsize, hptr_put_hptr by (apply hptr_range || lia).
    split_and!; [done..|]. by eapply hseg_ext.
  - eexists. split; [reflexivity|]. cbn.
    assert (only_hdr p (h_mem s) (put_hptr p bp (h_mem s))) as O by apply only_put_hptr.
    rewrite hsize_put_hptr, hptr_put_hptr by lia.
    rewrite (only_hdr_size _ _ _ _ O Ap), (only_hdr_ptr _ _ _ _ O Ap).
    split_and!; try done. by eapply hseg_ext.
Qed.

End Free.
