(* ===== verification/UmallocHeap.v ===== *)
(** * The heap of umalloc.c: the invariant, inserting and taking blocks

    The free blocks and the allocated ones never overlap, free blocks are kept
    in order and joined, and what the program wrote in its blocks stays. *)

From S2P Require Import Prelude Riscv Mem Umalloc.

(** Two blocks with no byte in common. *)
Definition apart (x y : block) : Prop :=
  x.1 + 16 * x.2 <= y.1 \/ y.1 + 16 * y.2 <= x.1.

Fixpoint all_apart (l : list block) : Prop :=
  match l with
  | [] => True
  | x :: l' => Forall (apart x) l' /\ all_apart l'
  end.

(** What every member of a list has, for one member. *)
Ltac pick Hx :=
  match type of Hx with ?x ∈ ?l =>
    repeat match goal with
    | F : Forall ?P l |- _ =>
        let H := fresh "H" in
        pose proof (proj1 (Forall_forall P l) F x Hx) as H; cbn beta in H; clear F
    end
  end; unfold apart, addressable in *; cbn [fst snd] in *.

Section Props.
Context (base : Z).

(** A block of the heap: above the static header, below the break. *)
Definition in_heap (brk : Z) (x : block) : Prop :=
  base + 16 <= x.1 /\ 0 < x.2 /\ x.1 + 16 * x.2 <= brk.

(** The allocator with free blocks [fl] and allocated blocks [al]. *)
Record heap_ok (s : uheap) (fl al : list block) : Prop := {
  hk_base : 0 < base;
  hk_list : free_list base (h_mem s) fl;
  hk_freep : freep s ∈ ((base, 0) :: fl).*1;
  hk_free : Forall (in_heap (h_brk s)) fl;
  hk_alloc : Forall (in_heap (h_brk s)) al;
  hk_sizes : Forall (fun x => hsize (h_mem s) x.1 = x.2) al;
  hk_apart : all_apart al;
  hk_disj : Forall (fun x => Forall (apart x) fl) al;
  hk_brk : base + 16 <= h_brk s <= 2 ^ 31;
}.

(** What the program has in the blocks [al] stays. *)
Definition kept (al : list block) (s s' : uheap) : Prop :=
  Forall (fun x => same_on (h_mem s) (h_mem s') x.1 (16 * x.2)) al.

Lemma apart_sym x y : apart x y -> apart y x.
Proof. unfold apart. lia. Qed.

Lemma gaps_length lo top l :
  gaps lo l -> Forall (fun x => 0 < x.2 /\ x.1 + 16 * x.2 <= top) l -> lo <= top ->
  16 * Z.of_nat (length l) <= top - lo + 16.
Proof.
  revert lo. induction l as [|[p n] l IH]; intros lo G F Hlo; [cbn; lia|].
  apply Forall_cons in F as [[? ?] F]. cbn [fst snd] in *. destruct G as (? & ? & G).
  cbn [length]. destruct l as [|[q k] l]; [cbn; lia|].
  assert (p + room n <= top) as Ht
    by (destruct G as (? & ? & _); apply Forall_cons in F as [[? ?] _]; cbn [fst snd] in *; lia).
  specialize (IH _ G F Ht). unfold room in *. lia.
Qed.

Lemma list_fuel_ok s fl al :
  heap_ok s fl al -> (2 * length fl + 4 <= list_fuel base s)%nat.
Proof.
  intros H. destruct (hk_list _ _ _ H) as [_ (_ & _ & G) _].
  pose proof (hk_brk _ _ _ H).
  assert (16 * Z.of_nat (length fl) <= h_brk s - (base + room 0) + 16).
  { apply gaps_length; [done | | unfold room; lia].
    eapply Forall_impl; [exact (hk_free _ _ _ H)|]. intros x (? & ? & ?). lia. }
  unfold list_fuel, sizeof_Header, room in *.
  pose proof (Z.div_mod (h_brk s - base) 16). pose proof (Z.mod_pos_bound (h_brk s - base) 16). lia.
Qed.

(** Where the loop of [free] stops: the block before is [base] or free. *)
Lemma split_cases fl l1 p q l2 :
  (base, 0) :: fl = l1 ++ (p, q) :: l2 ->
  (l1 = [] /\ p = base /\ q = 0 /\ l2 = fl) \/
  (exists l1', l1 = (base, 0) :: l1' /\ fl = l1' ++ (p, q) :: l2).
Proof. destruct l1 as [|x l1]; intros [= -> ->]; [left; naive_solver | right; eauto]. Qed.

Record placed (bp n : Z) (p q : Z) (l2 : list block) : Prop := {
  pl_size : 0 <= q;
  pl_base : base <= p;
  pl_prev : p + Z.max 16 (16 * q) <= bp;
  pl_next : Forall (fun x => bp + 16 * n <= x.1) l2;
  pl_pos : Forall (fun x => 0 < x.2) l2;
  pl_addr : Forall addressable l2;
}.

Lemma placed_ok brk fl bp n l1 p q l2 :
  0 < base -> brk <= 2 ^ 31 -> Forall (in_heap brk) fl -> in_heap brk (bp, n) ->
  Forall (apart (bp, n)) fl -> (base, 0) :: fl = l1 ++ (p, q) :: l2 -> p < bp ->
  Forall (fun y => bp < y.1) l2 -> placed bp n p q l2.
Proof.
  intros Hb Ht F (? & ? & ?) A E Hp L. cbn [fst snd] in *.
  assert (Forall (in_heap brk) l2 /\ Forall (apart (bp, n)) l2 /\ 0 <= q /\ base <= p /\
    p + Z.max 16 (16 * q) <= bp) as (F2 & A2 & ? & ? & ?).
  { apply split_cases in E as [(-> & -> & -> & ->) | (l1' & -> & ->)]; [split_and!; try done; lia|].
    apply Forall_app in F as [_ [(? & ? & ?) F]%Forall_cons].
    apply Forall_app in A as [_ [A0 A]%Forall_cons].
    unfold apart in A0. cbn [fst snd] in *. split_and!; try done; lia. }
  split; try done; apply Forall_forall; intros x Hx; pick Hx; unfold in_heap in *; lia.
Qed.

Lemma joined_head p q bp n l :
  0 < n -> Forall (fun x => 0 < x.2) l ->
  exists y l', joined p q bp n l = (p, y) :: l' /\ Forall (fun x => 0 < x.2) l' /\
    q <= y /\ (p + 16 * q <> bp -> y = q).
Proof.
  intros Hn F. unfold joined, joined_prev, joined_next.
  destruct l as [|[c k] l]; [|apply Forall_cons in F as [Hk F]; cbn in Hk];
    repeat case_match; simplify_eq/=; eexists _, _; split_and!; try done; try lia;
    repeat constructor; cbn; try done; lia.
Qed.

Lemma joined_next_facts bp n l :
  0 < n -> addressable (bp, n) -> Forall addressable l -> Forall (fun x => 0 < x.2) l ->
  0 < (joined_next bp n l).1 /\ bp + 16 * (joined_next bp n l).1 <= 2 ^ 32 /\
  (forall P : block -> Prop, Forall P l -> Forall P (joined_next bp n l).2).
Proof.
  intros Hn [? ?] A F. unfold joined_next. destruct l as [|[c k] l]; [done|].
  apply Forall_cons in F as [? _]. apply Forall_cons in A as [[? ?] _]. cbn [fst snd] in *.
  destruct (Z.eqb_spec (bp + 16 * n) c); cbn; split_and!; try lia; [|done].
  intros P HP. by apply Forall_cons in HP as [_ ?].
Qed.

Lemma joined_length p q bp n l : (length (joined p q bp n l) <= S (S (length l)))%nat.
Proof.
  unfold joined, joined_prev, joined_next. destruct l as [|[c k] l]; repeat case_match; simplify_eq/=; lia.
Qed.

(** The list with the block inserted. *)
Lemma joined_list fl bp n l1 p q l2 :
  gaps base ((base, 0) :: fl) -> Forall (fun x => 0 < x.2) fl -> 0 < n ->
  (base, 0) :: fl = l1 ++ (p, q) :: l2 -> placed bp n p q l2 ->
  exists fl', l1 ++ joined p q bp n l2 = (base, 0) :: fl' /\ gaps base ((base, 0) :: fl') /\
    Forall (fun x => 0 < x.2) fl' /\ p ∈ ((base, 0) :: fl').*1 /\
    (length fl' <= S (length fl))%nat /\
    (forall a, covers fl' a <-> covers fl a \/ bp <= a < bp + 16 * n).
Proof.
  intros G F Hn E P. destruct P.
  assert (gaps base (l1 ++ joined p q bp n l2)) as G'.
  { rewrite E in G. apply gaps_app in G as [G1 (? & ? & G2)]. apply gaps_app. split; [done|].
    by apply joined_gaps. }
  assert (forall a, covers (l1 ++ joined p q bp n l2) a <-> covers fl a \/ bp <= a < bp + 16 * n) as C.
  { intros a. rewrite covers_app, joined_covers by (done || lia).
    assert (covers fl a <-> covers ((base, 0) :: fl) a) as -> by (rewrite covers_cons; intuition lia).
    rewrite E, covers_app. tauto. }
  destruct (joined_head p q bp n l2) as (y & l' & EJ & F' & ? & Hy); [done..|].
  pose proof (joined_length p q bp n l2) as EL. rewrite EJ in *. cbn [length] in EL. apply split_cases in E as [(-> & -> & -> & ->) | (l1' & -> & ->)].
  - rewrite Hy in * by lia. exists l'. split_and!; try done; [left | lia |].
    intros a. rewrite <- C. cbn [app]. rewrite covers_cons. intuition lia.
  - apply Forall_app in F as [F1 [F2 _]%Forall_cons]. cbn in F2.
    exists (l1' ++ (p, y) :: l'). split_and!; try done.
    + apply Forall_app. split; [done|]. constructor; [cbn; lia | done].
    + apply list_elem_of_fmap. exists (p, y). split; [done|]. right. apply elem_of_app. right. left.
    + rewrite !length_app. cbn [length]. lia.
    + intros a. rewrite <- C. cbn [app]. rewrite (covers_cons base). intuition lia.
Qed.

(** A block apart from the free ones is inserted. *)
Lemma free_insert s fl bp n :
  0 < base -> free_list base (h_mem s) fl -> freep s ∈ ((base, 0) :: fl).*1 ->
  Forall (in_heap (h_brk s)) fl -> h_brk s <= 2 ^ 31 ->
  (2 * length fl + 2 <= list_fuel base s)%nat ->
  in_heap (h_brk s) (bp, n) -> hsize (h_mem s) bp = n -> Forall (apart (bp, n)) fl ->
  exists m' fp fl', free base (bp + 16) s = Ret tt (UHeap m' fp (h_brk s)) /\
    free_list base m' fl' /\ fp ∈ ((base, 0) :: fl').*1 /\ (length fl' <= S (length fl))%nat /\
    (forall a, covers fl' a <-> covers fl a \/ bp <= a < bp + 16 * n) /\
    (forall a, ~ (base <= a < base + 16) -> ~ covers fl a -> ~ (bp <= a < bp + 16) ->
       load8 m' a = load8 (h_mem s) a).
Proof.
  intros Hb HL Hin FH Ht Hf IH En A. pose proof IH as (? & ? & ?). cbn [fst snd] in *.
  destruct (scan_ok base s fl bp (list_fuel base s)) as (l1 & [p q] & l2 & E & Hp & L & Es); try done; [lia| |].
  { apply Forall_forall. intros x Hx. pick Hx. unfold in_heap in *. lia. }
  assert (placed bp n p q l2) as P by (eapply placed_ok; eassumption).
  destruct HL as [HL HG HP]. destruct (joined_list fl bp n l1 p q l2) as (fl' & E' & ? & ? & ? & ? & HC); try done.
  pose proof P as []. rewrite E in HL, HG. apply hseg_app in HL as (b & HL1 & -> & Eq & HL2).
  destruct (gaps_headers _ _ _ _ _ HG) as [Ah1 Ah2].
  assert (addressable (bp, n)) as Ad by (split; cbn; lia).
  destruct (join_next_ok base s p bp n l2) as (m1 & E1 & O1 & En1 & HL3); try done; [lia|].
  destruct (joined_next_facts bp n l2) as (? & ? & Sub); try done.
  destruct (join_prev_ok base (UHeap m1 (freep s) (h_brk s)) p q bp (joined_next bp n l2).1
    (joined_next bp n l2).2) as (m2 & E2 & O2 & HL4); cbn [h_mem freep h_brk] in *; try done; try lia.
  { rewrite (only_hdr_size _ _ _ _ O1); [done | unfold hdr_apart; lia]. }
  { by apply Sub. }
  exists m2, p, fl'. split_and!; try done.
  - unfold free. rewrite hplus_small by lia. replace (bp + 16 + 16 * -1) with bp by lia.
    do 2 mstep. rewrite (bind_ret _ _ _ _ _ Es). cbn [fst].
    rewrite (bind_ret _ _ _ _ _ E1). by rewrite (bind_ret _ _ _ _ _ E2).
  - split; [|done..]. rewrite <- E'. apply hseg_app. exists p. split; [|done].
    eapply hseg_ext; [exact O2 | done |]. eapply hseg_ext; [exact O1 | | done].
    apply Forall_forall. intros x Hx. apply gaps_app in HG as [HG (? & _)].
    pose proof (gaps_below _ _ _ HG Hx). unfold hdr_apart, room in *. lia.
  - intros a Ha Hc Hbp. rewrite O2, O1; [done | done |]. intros Hpa.
    apply split_cases in E as [(-> & -> & -> & ->) | (l1' & -> & ->)]; [by destruct Ha|].
    apply Hc, covers_app. right. apply covers_cons. left.
    apply Forall_app in HP as [_ [? _]%Forall_cons]. cbn in *. lia.
Qed.

(** ** The invariant, by the bytes that are free *)

Lemma apart_bytes x y :
  0 < x.2 -> 0 < y.2 ->
  (forall a, x.1 <= a < x.1 + 16 * x.2 -> ~ (y.1 <= a < y.1 + 16 * y.2)) -> apart x y.
Proof.
  intros Hx Hy H. unfold apart. pose proof (H (Z.max x.1 y.1)). lia.
Qed.

Lemma covers_in l x a : x ∈ l -> x.1 <= a < x.1 + 16 * x.2 -> covers l a.
Proof. intros. apply Exists_exists. eauto. Qed.

Lemma free_in_heap l brk :
  Forall (fun x => 0 < x.2) l -> (forall a, covers l a -> base + 16 <= a < brk) ->
  Forall (in_heap brk) l.
Proof.
  intros F C. apply Forall_forall. intros x Hx. pick Hx.
  pose proof (C x.1). pose proof (C (x.1 + 16 * x.2 - 1)).
  assert (covers l x.1) by (eapply covers_in; [done | lia]).
  assert (covers l (x.1 + 16 * x.2 - 1)) by (eapply covers_in; [done | lia]).
  unfold in_heap. intuition lia.
Qed.

(** No byte of [x] is free. *)
Definition not_free (fl : list block) (x : block) : Prop :=
  forall a, x.1 <= a < x.1 + 16 * x.2 -> ~ covers fl a.

Lemma heap_ok_intro s fl al :
  0 < base -> free_list base (h_mem s) fl -> freep s ∈ ((base, 0) :: fl).*1 ->
  base + 16 <= h_brk s <= 2 ^ 31 -> (forall a, covers fl a -> base + 16 <= a < h_brk s) ->
  Forall (in_heap (h_brk s)) al -> Forall (fun x => hsize (h_mem s) x.1 = x.2) al ->
  all_apart al -> Forall (not_free fl) al -> heap_ok s fl al.
Proof.
  intros Hb HL Hp Hk HC HA HS HD HF. split; try done.
  - apply free_in_heap; [|done]. by destruct HL.
  - apply Forall_forall. intros x Hx. pose proof (proj1 (Forall_forall _ _) HF x Hx) as Nx.
    apply Forall_forall. intros y Hy. destruct HL as [_ _ FP]. pick Hx. pick Hy.
    apply apart_bytes; [unfold in_heap in *; lia | done |].
    intros a Ha Hya. eapply Nx; [exact Ha|]. by eapply covers_in.
Qed.

Lemma hk_covers s fl al a : heap_ok s fl al -> covers fl a -> base + 16 <= a < h_brk s.
Proof.
  intros H (x & Hx & Ha)%Exists_exists. pose proof (hk_free _ _ _ H) as F. pick Hx.
  unfold in_heap in *. lia.
Qed.

Lemma hk_not_free s fl al : heap_ok s fl al -> Forall (not_free fl) al.
Proof.
  intros H. pose proof (hk_disj _ _ _ H) as D. apply Forall_forall. intros x Hx. pick Hx.
  intros a Ha (y & Hy & Hya)%Exists_exists. pick Hy. lia.
Qed.

(** A change outside the allocated blocks keeps their contents and headers. *)
Lemma frame_kept s m' fp brk' al :
  Forall (in_heap (h_brk s)) al ->
  Forall (fun x => forall a, x.1 <= a < x.1 + 16 * x.2 -> load8 m' a = load8 (h_mem s) a) al ->
  Forall (fun x => hsize (h_mem s) x.1 = x.2) al ->
  kept al s (UHeap m' fp brk') /\ Forall (fun x => hsize m' x.1 = x.2) al.
Proof.
  intros F K S. split; apply Forall_forall; intros x Hx;
    pose proof (proj1 (Forall_forall _ _) K x Hx) as Kx; [exact Kx|].
  etransitivity; [|exact (proj1 (Forall_forall _ _) S x Hx)].
  apply load_le_ext. intros b Hb. apply Kx. pick Hx. unfold in_heap in *. lia.
Qed.

(** ** free *)

Lemma all_apart_mid l1 x l2 :
  all_apart (l1 ++ x :: l2) <-> Forall (apart x) (l1 ++ l2) /\ all_apart (l1 ++ l2).
Proof.
  induction l1 as [|y l1 IH]; cbn [app all_apart]; [done|].
  rewrite IH, !Forall_app, !Forall_cons, !Forall_app. assert (apart x y <-> apart y x) by (split; apply apart_sym).
  tauto.
Qed.

Lemma Forall_mid {A} (P : A -> Prop) l1 x l2 :
  Forall P (l1 ++ x :: l2) <-> P x /\ Forall P (l1 ++ l2).
Proof. rewrite !Forall_app, Forall_cons. tauto. Qed.

(** ** Taking a block *)

Lemma gaps_covers lo l a : gaps lo l -> covers l a -> lo <= a < last_end lo l.
Proof.
  intros G (x & Hx & Ha)%Exists_exists.
  pose proof (gaps_above _ _ _ G Hx). pose proof (gaps_below _ _ _ G Hx). unfold room in *. lia.
Qed.

(** The block after [x] is the next one of the list. *)
Lemma pred_split m fl x :
  free_list base m fl -> x ∈ ((base, 0) :: fl).*1 -> 0 < hsize m (hptr m x) ->
  exists l1 k l2, (base, 0) :: fl = l1 ++ (x, k) :: (hptr m x, hsize m (hptr m x)) :: l2.
Proof.
  intros [HL _ _] Hx Hs. apply list_elem_of_fmap in Hx as ([x' k] & -> & Hx). cbn [fst] in *.
  apply list_elem_of_split in Hx as (l1 & l2 & E). exists l1, k.
  pose proof HL as (_ & E0 & _). rewrite E in HL.
  apply hseg_app in HL as (b & _ & _ & _ & HL).
  destruct l2 as [|[p n] l2]; cbn [hseg] in HL; [rewrite HL, E0 in Hs; lia|].
  destruct HL as (-> & -> & _). eauto.
Qed.

(** The list without the last [n] units of the block [p]. *)
Definition rest (p size n : Z) (l : list block) : list block :=
  if size =? n then l else (p, size - n) :: l.

Lemma rest_gaps lo p size n l :
  0 < n <= size -> gaps lo ((p, size) :: l) -> gaps lo (rest p size n l).
Proof.
  intros Hn (? & ? & G). unfold rest. destruct (Z.eqb_spec size n); cbn [gaps];
    [|split_and!; [done | lia |]]; (eapply gaps_lo; [|exact G]; unfold room; lia).
Qed.

Lemma take_list fl pre p size l2 n :
  gaps base ((base, 0) :: fl) -> Forall (fun x => 0 < x.2) fl ->
  (base, 0) :: fl = pre ++ (p, size) :: l2 -> 0 < n <= size ->
  exists fl', pre ++ rest p size n l2 = (base, 0) :: fl' /\ gaps base ((base, 0) :: fl') /\
    Forall (fun x => 0 < x.2) fl' /\
    (forall a, covers fl a <-> covers fl' a \/ p + 16 * (size - n) <= a < p + 16 * size) /\
    not_free fl' (p + 16 * (size - n), n).
Proof.
  intros G F E Hn. rewrite E in G. apply split_cases in E as [(_ & _ & -> & _) | (pre' & -> & ->)]; [lia|].
  apply gaps_app in G as [G1 G2]. pose proof (rest_gaps _ _ _ _ _ Hn G2) as G3.
  apply Forall_app in F as [F1 [F2 F3]%Forall_cons].
  exists (pre' ++ rest p size n l2). split_and!; [done | by apply (gaps_app base ((base, 0) :: pre')) | | |].
  - apply Forall_app. split; [done|]. unfold rest. destruct (Z.eqb_spec size n); [done|].
    constructor; [cbn; lia | done].
  - intros a. rewrite !covers_app, covers_cons. unfold rest. destruct (Z.eqb_spec size n); [|rewrite covers_cons]; intuition lia.
  - intros a Ha. cbn [fst snd] in Ha. rewrite covers_app. destruct G2 as (? & ? & G2). intros [C|C].
    + destruct G1 as (_ & _ & G1). pose proof (gaps_covers _ _ _ G1 C). rewrite last_end_cons in *. lia.
    + assert (covers l2 a \/ a < p + 16 * (size - n)) as [C'|]
        by (unfold rest in C; destruct (Z.eqb_spec size n); [by left | apply covers_cons in C as [|]; [right; lia | by left]]).
      * pose proof (gaps_covers _ _ _ G2 C'). unfold room in *. lia.
      * lia.
Qed.

(** The memory after [take_block]: the whole block is unlinked, or its end cut
    off. *)
Lemma take_all s pre x k p n l2 :
  hseg (h_mem s) base (pre ++ (x, k) :: (p, n) :: l2) base ->
  gaps base (pre ++ (x, k) :: (p, n) :: l2) -> 0 <= p -> p + 16 < 2 ^ 64 ->
  exists m', take_block n x p s = Ret (p + 16) (UHeap m' x (h_brk s)) /\
    hseg m' base (pre ++ (x, k) :: l2) base /\ hsize m' p = n /\ only_hdr x (h_mem s) m'.
Proof.
  intros HL HG Hp Ht. destruct (gaps_headers _ _ _ _ _ HG) as [A1 [Ap A2]%Forall_cons].
  apply hseg_app in HL as (c & HL1 & -> & Ex & E & Es & HL2). cbn [fst] in Ap.
  assert (only_hdr x (h_mem s) (put_hptr x (hptr (h_mem s) p) (h_mem s))) as O by apply only_put_hptr.
  exists (put_hptr x (hptr (h_mem s) p) (h_mem s)). split_and!; [| |by rewrite (only_hdr_size _ _ _ _ O Ap)|done].
  - unfold take_block, get_size, get_ptr, set_ptr. mstep. rewrite Es, Z.eqb_refl.
    erewrite bind_ret by reflexivity. cbn. by rewrite hplus_small by lia.
  - apply hseg_app. exists x. split; [by eapply hseg_ext|].
    cbn [hseg]. rewrite hsize_put_hptr, hptr_put_hptr by apply hptr_range.
    split_and!; [done..|]. by eapply hseg_ext.
Qed.

Lemma take_part s pre p size n l2 x :
  hseg (h_mem s) base (pre ++ (p, size) :: l2) base -> gaps base (pre ++ (p, size) :: l2) ->
  0 < n < size -> 0 <= p -> p + 16 * size < 2 ^ 32 ->
  exists m', take_block n x p s = Ret (p + 16 * (size - n) + 16) (UHeap m' x (h_brk s)) /\
    hseg m' base (pre ++ (p, size - n) :: l2) base /\ hsize m' (p + 16 * (size - n)) = n /\
    (forall a, ~ (p <= a < p + 16 * size) -> load8 m' a = load8 (h_mem s) a).
Proof.
  intros HL HG Hn Hp Ht. destruct (gaps_headers _ _ _ _ _ HG) as [A1 A2].
  apply hseg_app in HL as (c & HL1 & -> & Es & HL2). apply gaps_app in HG as [HG1 (HG2 & _ & HG3)].
  set (b := p + 16 * (size - n)). set (m1 := put_hsize p (size - n) (h_mem s)).
  assert (only_hdr p (h_mem s) m1) as O1 by apply only_put_hsize.
  assert (only_hdr b m1 (put_hsize b n m1)) as O2 by apply only_put_hsize.
  assert (Forall (fun y => hdr_apart b y.1) pre /\ Forall (fun y => hdr_apart b y.1) l2) as [B1 B2].
  { split; apply Forall_forall; intros y Hy; unfold hdr_apart;
      [pose proof (gaps_below _ _ _ HG1 Hy) | pose proof (gaps_above _ _ _ HG3 Hy)]; unfold room, b in *; lia. }
  assert (hdr_apart b p) as Bp by (unfold hdr_apart, b; lia).
  assert (hsize m1 p = size - n) as E1 by (apply hsize_put_hsize; lia).
  exists (put_hsize b n m1). split_and!.
  - unfold take_block, get_size, get_ptr, set_size. mstep. rewrite Es, (proj2 (Z.eqb_neq size n)) by lia.
    rewrite (u32_small (size - n)), (u32_small n) by lia.
    erewrite bind_ret by reflexivity. cbn. fold m1. rewrite E1, !hplus_small by (rewrite ?hplus_small; lia). done.
  - apply hseg_app. exists p. split; [eapply hseg_ext; [exact O2 | done |]; by eapply hseg_ext|].
    cbn [hseg]. rewrite (only_hdr_size _ _ _ _ O2 Bp), (only_hdr_ptr _ _ _ _ O2 Bp).
    split_and!; [done..|]. unfold m1. rewrite hptr_put_hsize.
    eapply hseg_ext; [exact O2 | done |]. by eapply hseg_ext.
  - apply hsize_put_hsize. lia.
  - intros a Ha. rewrite O2, O1; [done | lia | unfold b; lia].
Qed.

Lemma take_linked s pre x k p size l2 n :
  hseg (h_mem s) base (pre ++ (x, k) :: (p, size) :: l2) base ->
  gaps base (pre ++ (x, k) :: (p, size) :: l2) ->
  0 < n <= size -> 0 <= p -> p + 16 * size < 2 ^ 32 ->
  exists m', take_block n x p s = Ret (p + 16 * (size - n) + 16) (UHeap m' x (h_brk s)) /\
    hseg m' base (pre ++ (x, k) :: rest p size n l2) base /\
    hsize m' (p + 16 * (size - n)) = n /\
    (forall a, ~ (x <= a < x + 16) -> ~ (p <= a < p + 16 * size) -> load8 m' a = load8 (h_mem s) a).
Proof.
  intros HL HG Hn Hp Ht. unfold rest. destruct (Z.eqb_spec size n) as [->|].
  - destruct (take_all s pre x k p n l2) as (m' & ? & ? & ? & O); try done; [lia|].
    rewrite Z.sub_diag, Z.add_0_r. exists m'. split_and!; try done. intros a ? _. by apply O.
  - change ((x, k) :: (p, size) :: l2) with ([(x, k)] ++ (p, size) :: l2) in HL, HG.
    rewrite app_assoc in HL, HG.
    destruct (take_part s (pre ++ [(x, k)]) p size n l2 x) as (m' & ? & L & ? & O); try done; [lia|].
    rewrite <- app_assoc in L. exists m'. split_and!; try done. intros a _. apply O.
Qed.

Lemma take_mem s fl x n :
  0 < base -> free_list base (h_mem s) fl -> x ∈ ((base, 0) :: fl).*1 ->
  Forall (in_heap (h_brk s)) fl -> h_brk s <= 2 ^ 31 -> 0 < n <= hsize (h_mem s) (hptr (h_mem s) x) ->
  exists b m' fl', take_block n x (hptr (h_mem s) x) s = Ret (b + 16) (UHeap m' x (h_brk s)) /\
    free_list base m' fl' /\ x ∈ ((base, 0) :: fl').*1 /\ hsize m' b = n /\
    (forall a, covers fl a <-> covers fl' a \/ b <= a < b + 16 * n) /\ not_free fl' (b, n) /\
    (forall a, ~ (base <= a < base + 16) -> ~ covers fl a -> load8 m' a = load8 (h_mem s) a).
Proof.
  intros Hb HL Hx FH Ht Hn. destruct (pred_split _ _ _ HL Hx) as (l1 & k & l2 & E); [lia|].
  destruct HL as [HL HG HP]. set (p := hptr (h_mem s) x) in *. set (size := hsize (h_mem s) p) in *.
  assert ((base, 0) :: fl = (l1 ++ [(x, k)]) ++ (p, size) :: l2) as E2 by (by rewrite <- app_assoc).
  destruct (take_list fl (l1 ++ [(x, k)]) p size l2 n) as (fl' & E' & G' & F' & C' & N'); [done..|].
  rewrite <- app_assoc in E'. cbn [app] in E'.
  assert ((p, size) ∈ fl) as Hin.
  { apply split_cases in E2 as [(_ & _ & ? & _) | (pre' & _ & ->)]; [lia|]. apply elem_of_app. right. left. }
  pose proof (proj1 (Forall_forall _ _) FH _ Hin) as (? & ? & ?). cbn [fst snd] in *.
  rewrite E in HL, HG. destruct (take_linked s l1 x k p size l2 n) as (m' & Em & L' & Sz & O); try done; [lia..|].
  exists (p + 16 * (size - n)), m', fl'. rewrite E' in L'. split_and!; try done.
  - rewrite <- E'. apply list_elem_of_fmap. exists (x, k).
    split; [done|]. apply elem_of_app. right. left.
  - intros a. rewrite C'. intuition lia.
  - intros a Na Nc. apply O; [|intros ?; apply Nc; by eapply covers_in].
    intros Hax. apply list_elem_of_fmap in Hx as ([x' k'] & -> & [[= -> ->]|Hx]%elem_of_cons); [done|].
    cbn [fst] in *. pick Hx. apply Nc. eapply covers_in; [exact Hx | cbn; lia].
Qed.

(** What [malloc] gives: a new block [b] of [n] units out of the bytes that were
    free or that the kernel has added. *)
Definition gives (s s' : uheap) (fl al : list block) (b n : Z) : Prop :=
  exists fl', heap_ok s' fl' ((b, n) :: al) /\ kept al s s' /\
    (forall a, covers fl' a \/ b <= a < b + 16 * n <->
       covers fl a \/ h_brk s <= a < h_brk s').

Lemma take_ok s fl al x n :
  heap_ok s fl al -> x ∈ ((base, 0) :: fl).*1 -> 0 < n <= hsize (h_mem s) (hptr (h_mem s) x) ->
  exists b s', take_block n x (hptr (h_mem s) x) s = Ret (b + 16) s' /\
    gives s s' fl al b n /\ h_brk s' = h_brk s.
Proof.
  intros H Hx Hn. pose proof H as [Hb HL Hp FF FA FS FP FD HK].
  destruct (take_mem s fl x n) as (b & m' & fl' & E & HL' & Hx' & Sz & HC & HN & HF); try done; [lia|].
  pose proof (hk_not_free _ _ _ H) as NF.
  destruct (frame_kept s m' x (h_brk s) al) as [K FS']; [done | | done |].
  { apply Forall_forall. intros y Hy. pick Hy. unfold in_heap, not_free in *. intros a Ha. apply HF; [lia | auto]. }
  assert (forall a, b <= a < b + 16 * n -> covers fl a) as Bc by (intros a Ha; apply HC; auto).
  pose proof (hk_covers _ _ _ b H (Bc b ltac:(lia))).
  pose proof (hk_covers _ _ _ (b + 16 * n - 1) H (Bc (b + 16 * n - 1) ltac:(lia))).
  exists b, (UHeap m' x (h_brk s)). split_and!; [done | | done].
  exists fl'. split_and!; [|done|intros a; cbn [h_brk]; rewrite HC; intuition lia].
  apply heap_ok_intro; cbn [h_mem freep h_brk]; try done.
  - intros a Ha. eapply hk_covers; [done|]. apply HC. by left.
  - constructor; [unfold in_heap; cbn; lia | done].
  - by constructor.
  - split; [|done]. apply Forall_forall. intros y Hy.
    apply apart_bytes; pick Hy; [lia | unfold in_heap in *; lia|]. unfold not_free in *. naive_solver.
  - constructor; [done|]. apply Forall_forall. intros y Hy. pick Hy. unfold not_free in *.
    intros a Ha Hc. naive_solver.
Qed.

(** ** free *)

Lemma free_ok s fl al1 al2 bp n :
  heap_ok s fl (al1 ++ (bp, n) :: al2) ->
  exists s' fl', free base (bp + 16) s = Ret tt s' /\ heap_ok s' fl' (al1 ++ al2) /\
    (length fl' <= S (length fl))%nat /\
    (forall a, covers fl' a <-> covers fl a \/ bp <= a < bp + 16 * n) /\
    kept (al1 ++ al2) s s' /\ h_brk s' = h_brk s.
Proof.
  intros H. pose proof H as [Hb HL Hp FF FA FS FP FD HK].
  apply Forall_mid in FA as [IH FA]. apply Forall_mid in FS as [En FS].
  apply all_apart_mid in FP as [AP FP]. apply Forall_mid in FD as [AF FD]. cbn [fst snd] in *.
  pose proof (list_fuel_ok _ _ _ H). pose proof (hk_not_free _ _ _ H) as [_ NF]%Forall_mid.
  destruct (free_insert s fl bp n) as (m' & fp & fl' & E & HL' & Hp' & HLn & HC & HF); try done; [lia | lia |].
  pose proof IH as (? & ? & ?). cbn [fst snd] in *.
  destruct (frame_kept s m' fp (h_brk s) (al1 ++ al2)) as [K FS']; [done | | done |].
  { apply Forall_forall. intros x Hx. pick Hx. unfold in_heap, not_free in *. intros a Ha. apply HF; [lia | auto | lia]. }
  exists (UHeap m' fp (h_brk s)), fl'. split_and!; try done.
  apply heap_ok_intro; try done; cbn [h_brk].
  - intros a [Ha|Ha]%HC; [by eapply hk_covers | lia].
  - apply Forall_forall. intros x Hx. pick Hx. unfold not_free in *. intros a Ha [|]%HC; [naive_solver | lia].
Qed.

(** A free block is as long as it can be: the byte after it is not free. *)
Lemma free_maximal s fl al x :
  heap_ok s fl al -> x ∈ fl -> ~ covers fl (x.1 + 16 * x.2).
Proof.
  intros H Hx. destruct (hk_list _ _ _ H) as [_ (_ & _ & G) FP]. pick Hx.
  apply list_elem_of_split in Hx as (l1 & l2 & ->). destruct x as [p n]. cbn [fst snd] in *.
  apply gaps_app in G as [G1 (Hp & _ & G2)]. rewrite covers_app, covers_cons. intros [C|[C|C]].
  - pose proof (gaps_covers _ _ _ G1 C). lia.
  - lia.
  - pose proof (gaps_covers _ _ _ G2 C). unfold room in *. lia.
Qed.

End Props.
