(* ===== verification/UmallocProps.v ===== *)
(** * malloc and free *)

From S2P Require Import Prelude Riscv Mem Umalloc UmallocHeap.

Section Malloc.
Context (base : Z) (grant : Z -> Z -> bool).
Abbreviation heap_ok := (heap_ok base).
Abbreviation gives := (gives base).

(** ** The loop of [malloc] *)

Lemma loop_step fuel n prevp p s :
  malloc_loop base grant (S fuel) n prevp p s =
  if n <=? hsize (h_mem s) p then take_block n prevp p s
  else if p =? freep s then
    (let! p := morecore base grant n in
     if p =? 0 then mret_ 0
     else let! next := get_ptr p in malloc_loop base grant fuel n p next) s
  else malloc_loop base grant fuel n p (hptr (h_mem s) p) s.
Proof.
  cbn [malloc_loop]. unfold get_size at 1. mstep. destruct (n <=? _); [done|].
  mstep. by destruct (p =? _).
Qed.

(** Going over the blocks [seg], none of which is [freep]: the loop takes one, or
    goes on after them. *)
Lemma walk_ok s (L : list Z) seg z nunits fuel : forall prevp,
  hseg (h_mem s) (hptr (h_mem s) prevp) seg z -> prevp ∈ L ->
  Forall (fun x => x.1 ∈ L /\ x.1 <> freep s) seg ->
  (exists x, x ∈ L /\ nunits <= hsize (h_mem s) (hptr (h_mem s) x) /\
     malloc_loop base grant (length seg + fuel) nunits prevp (hptr (h_mem s) prevp) s
     = take_block nunits x (hptr (h_mem s) x) s) \/
  (Forall (fun x => x.2 < nunits) seg /\ exists x, x ∈ L /\ hptr (h_mem s) x = z /\
     malloc_loop base grant (length seg + fuel) nunits prevp (hptr (h_mem s) prevp) s
     = malloc_loop base grant fuel nunits x z s).
Proof.
  induction seg as [|[p n] seg IH]; intros prevp HL Hin F; cbn [length Nat.add].
  - cbn [hseg] in HL. rewrite HL. right. eauto.
  - destruct HL as (Ep & En & HL). apply Forall_cons in F as [[Hp Np] F]. cbn [fst] in *.
    rewrite loop_step, Ep, En. destruct (Z.leb_spec nunits n).
    + left. exists prevp. rewrite Ep, En. done.
    + rewrite (proj2 (Z.eqb_neq _ _) Np).
      destruct (IH p HL Hp F) as [(x & ? & ? & E) | (? & x & ? & ? & E)].
      * left. exists x. done.
      * right. split; [by constructor|]. exists x. done.
Qed.

(** One round of the list from [freep]: a block that fits is taken, or every free
    block is too small and the loop asks for more. *)
Lemma round_ok s fl al nunits fuel :
  heap_ok s fl al -> 0 < nunits ->
  (exists x, x ∈ ((base, 0) :: fl).*1 /\ nunits <= hsize (h_mem s) (hptr (h_mem s) x) /\
     malloc_loop base grant (length fl + S fuel) nunits (freep s) (hptr (h_mem s) (freep s)) s
     = take_block nunits x (hptr (h_mem s) x) s) \/
  (Forall (fun x => x.2 < nunits) fl /\
     malloc_loop base grant (length fl + S fuel) nunits (freep s) (hptr (h_mem s) (freep s)) s
     = (let! p := morecore base grant nunits in
        if p =? 0 then mret_ 0
        else let! next := get_ptr p in malloc_loop base grant fuel nunits p next) s).
Proof.
  intros H Hn. pose proof (hk_freep _ _ _ _ H) as Hp. destruct (hk_list _ _ _ _ H) as [HL HG HP].
  pose proof Hp as ([fp nf] & Ef & Hin)%list_elem_of_fmap. cbn [fst] in Ef.
  apply list_elem_of_split in Hin as (l1 & l2 & E). rewrite E in HL, HG.
  pose proof (gaps_headers _ _ _ _ _ HG) as [A1 A2].
  apply hseg_app in HL as (b & HL1 & -> & Es & HL2).
  assert (length fl = length (l2 ++ l1)) as EL
    by (apply (f_equal length) in E; rewrite length_app in *; cbn in *; lia).
  destruct (walk_ok s ((base, 0) :: fl).*1 (l2 ++ l1) fp nunits (S fuel) fp) as [(x & Hx & Hs & EW) | (F & x & Hx & Ex & EW)].
  - apply hseg_app. eauto.
  - by rewrite <- Ef.
  - apply Forall_forall. intros y Hy. rewrite Ef. split.
    + apply list_elem_of_fmap. exists y. split; [done|]. rewrite E. set_solver.
    + apply elem_of_app in Hy as [Hy|Hy]; pick Hy; unfold hdr_apart in *; lia.
  - left. exists x. rewrite Ef, EL. done.
  - rewrite loop_step, Es in EW. destruct (Z.leb_spec nunits nf).
    + left. exists x. rewrite Ex, Es, Ef, EL. done.
    + right. rewrite Ef, EL. rewrite Ef, Z.eqb_refl in EW. split; [|done].
      assert (Forall (fun x => x.2 < nunits) ((base, 0) :: fl)) as F'.
      { rewrite E. apply Forall_app in F as []. apply Forall_app. split; [done|]. by constructor. }
      by apply Forall_cons in F' as [_ ?].
Qed.

(** ** More memory *)

(** The kernel keeps a process below 2 GB: the machine has 128 MB. *)
Hypothesis grant_bounded : forall b n, grant b n = true -> b + n <= 2 ^ 31.

(** The number of units [morecore] asks for. *)
Definition core_units (nu : Z) : Z := Z.max nu 4096.

Lemma sbrk_heap s fl al nu :
  heap_ok s fl al -> 0 < nu -> h_brk s + 16 * nu <= 2 ^ 31 ->
  let s1 := UHeap (put_hsize (h_brk s) nu (h_mem s)) (freep s) (h_brk s + 16 * nu) in
  heap_ok s1 fl ((h_brk s, nu) :: al) /\ kept al s s1.
Proof.
  intros H Hn Hb s1. pose proof H as [Hb0 HL Hp FF FA FS FP FD HK].
  assert (only_hdr (h_brk s) (h_mem s) (h_mem s1)) as O by apply only_put_hsize.
  destruct (frame_kept base s (h_mem s1) (freep s) (h_brk s1) al) as [K FS']; [done | | done |].
  { apply Forall_forall. intros x Hx. pick Hx. unfold in_heap in *. intros a Ha. apply O. lia. }
  split; [|done]. apply heap_ok_intro; cbn [s1 h_mem freep h_brk]; try done; [|lia| | | | |].
  - destruct HL as [HL ? ?]. split; [|done..]. eapply hseg_ext; [exact O | | exact HL].
    constructor; [unfold hdr_apart; cbn; lia|]. apply Forall_forall. intros x Hx. pick Hx.
    unfold in_heap, hdr_apart in *. lia.
  - intros a Ha. pose proof (hk_covers _ _ _ _ a H Ha). lia.
  - constructor; [unfold in_heap; cbn; lia|]. eapply Forall_impl; [exact FA|]. intros x (? & ? & ?). unfold in_heap. lia.
  - constructor; [|done]. apply hsize_put_hsize. cbn. lia.
  - split; [|done]. apply Forall_forall. intros x Hx. pick Hx. unfold in_heap in *. lia.
  - constructor; [|by eapply hk_not_free]. intros a Ha Hc. cbn [fst snd] in Ha.
    pose proof (hk_covers _ _ _ _ a H Hc). lia.
Qed.

Lemma kept_trans al s1 s2 s3 : kept al s1 s2 -> kept al s2 s3 -> kept al s1 s3.
Proof.
  unfold kept. rewrite !Forall_forall. intros K1 K2 x Hx a Ha. by rewrite (K2 x), (K1 x).
Qed.

Lemma morecore_ok s fl al nu :
  heap_ok s fl al -> 0 < nu < 2 ^ 27 ->
  if grant (h_brk s) (16 * core_units nu) then
    exists s' fl', morecore base grant nu s = Ret (freep s') s' /\ heap_ok s' fl' al /\
      kept al s s' /\ h_brk s' = h_brk s + 16 * core_units nu /\ (length fl' <= S (length fl))%nat /\
      (forall a, covers fl' a <-> covers fl a \/ h_brk s <= a < h_brk s')
  else morecore base grant nu s = Ret 0 s.
Proof.
  intros H Hn. pose proof (hk_brk _ _ _ _ H) as HK. pose proof (hk_base _ _ _ _ H).
  unfold morecore, sbrk. replace (if nu <? 4096 then 4096 else nu) with (core_units nu)
    by (unfold core_units; destruct (Z.ltb_spec nu 4096); lia).
  set (n := core_units nu). assert (0 < n < 2 ^ 27) by (unfold n, core_units; lia).
  rewrite s32_small by (unfold sizeof_Header; lia).
  replace (n * sizeof_Header) with (16 * n) by (unfold sizeof_Header; lia).
  destruct (grant (h_brk s) (16 * n)) eqn:G.
  - pose proof (grant_bounded _ _ G). destruct (sbrk_heap s fl al n) as [Hs K1]; [done | lia | lia |].
    destruct (free_ok base _ fl [] al (h_brk s) n Hs) as (s' & fl' & E & H' & HLn & HC & K & B).
    exists s', fl'. cbn [h_brk] in B. rewrite B. split_and!; try done; [|by eapply kept_trans].
    erewrite bind_ret; [|mstep; rewrite G; reflexivity].
    rewrite (proj2 (Z.eqb_neq _ _)) by (unfold u64; change (-1 mod 2 ^ 64) with (2 ^ 64 - 1); lia).
    unfold set_size. rewrite u32_small, hplus_small by lia. mstep.
    cbn [set_mem h_mem freep h_brk]. by rewrite (bind_ret _ _ _ _ _ E).
  - erewrite bind_ret; [|mstep; rewrite G; reflexivity]. done.
Qed.

(** The block that the kernel has added is large enough. *)
Lemma core_fits s fl fl' al b n :
  heap_ok s fl' al -> 0 < n -> (forall a, covers fl' a <-> covers fl a \/ b <= a < b + 16 * n) ->
  exists x, x ∈ fl' /\ n <= x.2.
Proof.
  intros H Hn HC. assert (covers fl' b) as (x & Hx & Hb)%Exists_exists by (apply HC; lia).
  exists x. split; [done|]. pose proof (free_maximal _ _ _ _ x H Hx) as N. rewrite HC in N. intuition lia.
Qed.

Definition fits (fl : list block) (n : Z) : Prop := Exists (fun x => n <= x.2) fl.

Lemma freep_pos s fl al : heap_ok s fl al -> freep s <> 0.
Proof.
  intros H. pose proof (hk_base _ _ _ _ H). pose proof (hk_free _ _ _ _ H) as FF.
  pose proof (hk_freep _ _ _ _ H) as ([p n] & -> & [[= -> ->]|Hp]%elem_of_cons)%list_elem_of_fmap; [cbn; lia|].
  pick Hp. unfold in_heap in *. cbn [fst snd] in *. lia.
Qed.

Lemma loop_ok s fl al n fuel :
  heap_ok s fl al -> 0 < n < 2 ^ 27 -> (2 * length fl + 4 <= fuel)%nat ->
  let o := malloc_loop base grant fuel n (freep s) (hptr (h_mem s) (freep s)) s in
  (exists b s', o = Ret (b + 16) s' /\ gives s s' fl al b n /\
     (fits fl n -> h_brk s' = h_brk s)) \/
  (o = Ret 0 s /\ ~ fits fl n /\ grant (h_brk s) (16 * core_units n) = false).
Proof.
  intros H Hn Hf. cbv zeta. replace fuel with (length fl + S (fuel - S (length fl)))%nat by lia.
  destruct (round_ok s fl al n (fuel - S (length fl)) H) as [(x & Hx & Hs & ->) | [F ->]]; [lia| |].
  { left. destruct (take_ok base s fl al x n) as (b & s' & E & G & B); [done..|lia|]. eauto. }
  assert (~ fits fl n) as NF by (apply Forall_not_Exists; eapply Forall_impl; [exact F|]; cbn; lia).
  pose proof (morecore_ok s fl al n H Hn) as HM. destruct (grant _ _); [|right; by rewrite (bind_ret _ _ _ _ _ HM)].
  left. destruct HM as (s' & fl' & E & H' & K & B & HLn & HC). rewrite (bind_ret _ _ _ _ _ E).
  rewrite (proj2 (Z.eqb_neq _ _) (freep_pos _ _ _ H')). mstep.
  replace (fuel - S (length fl))%nat with (length fl' + S (fuel - S (S (length fl + length fl'))))%nat by lia.
  destruct (round_ok s' fl' al n (fuel - S (S (length fl + length fl'))) H') as [(x & Hx & Hs & ->) | [F' _]]; [lia| |].
  - destruct (take_ok base s' fl' al x n) as (b & s'' & E2 & (fl'' & H'' & K' & HC') & B'); [done..|lia|].
    exists b, s''. split_and!; [done| |by intros]. exists fl''. split_and!; [done | by eapply kept_trans |].
    intros a. rewrite HC', HC, B'. intuition lia.
  - destruct (core_fits s' fl fl' al (h_brk s) (core_units n)) as (x & Hx & ?); [done | unfold core_units; lia | by rewrite <- B |].
    pick Hx. unfold core_units in *. lia.
Qed.

(** ** The theorems *)

(** The heap of a program that has not called [malloc] yet, or one in use. *)
Definition heap_ready (s : uheap) (fl al : list block) : Prop :=
  heap_ok s fl al \/
  (freep s = 0 /\ fl = [] /\ al = [] /\ 0 < base /\ base + 16 <= h_brk s <= 2 ^ 31).

Lemma first_heap s :
  0 < base -> base + 16 <= h_brk s <= 2 ^ 31 ->
  heap_ok (UHeap (put_hsize base 0 (put_hptr base base (h_mem s))) base (h_brk s)) [] [].
Proof.
  intros Hb Hk. apply heap_ok_intro; cbn [h_mem freep h_brk]; try done; [|left|by intros a Ha%Exists_nil].
  split; [|done..]. cbn [hseg].
  rewrite hsize_put_hsize, hptr_put_hsize, hptr_put_hptr by lia. done.
Qed.

(** C9: [malloc] with a heap that is new or in use, for any size below 2 GB.  It
    always returns.  The block it returns has room for the bytes asked for, lies
    within memory that was free or that the kernel has just added, overlaps no
    allocated block and no block still free, and the program's data in its
    other blocks is unchanged.  The kernel is asked for memory only when no free
    block is large enough, and [malloc] returns 0 only when the kernel refuses;
    the heap then stays as it was. *)
Theorem malloc_correct s fl al nbytes :
  heap_ready s fl al -> 0 <= nbytes <= 2 ^ 31 - 32 ->
  let n := (nbytes + 15) / 16 + 1 in
  nbytes <= 16 * (n - 1) /\
  ((exists b s', malloc base grant nbytes s = Ret (b + 16) s' /\ gives s s' fl al b n /\
      (fits fl n -> h_brk s' = h_brk s)) \/
   (exists s', malloc base grant nbytes s = Ret 0 s' /\ heap_ok s' fl al /\ kept al s s' /\
      ~ fits fl n /\ grant (h_brk s) (16 * core_units n) = false)).
Proof.
  intros HR Hn n. assert (nbytes <= 16 * (n - 1) /\ 0 < n < 2 ^ 27) as [Hr Hn']
    by (unfold n; Z.to_euclidean_division_equations; lia).
  split; [done|]. unfold malloc. replace (nbytes + sizeof_Header - 1) with (nbytes + 15) by (unfold sizeof_Header; lia).
  change sizeof_Header with 16. fold n. rewrite u32_small by lia. mstep. unfold get_ptr. destruct HR as [H|(E & -> & -> & Hb & Hk)].
  - rewrite (proj2 (Z.eqb_neq _ _) (freep_pos _ _ _ H)). do 3 mstep.
    destruct (loop_ok s fl al n (list_fuel base s)) as [?|(E & ? & ?)]; [done | done | by eapply list_fuel_ok | by left |].
    right. exists s. split_and!; try done. apply Forall_forall. by intros.
  - rewrite E. pose proof (first_heap s Hb Hk) as H. set (s1 := UHeap _ _ _) in H.
    erewrite (bind_ret _ _ s base s1) by reflexivity. do 2 mstep.
    destruct (loop_ok s1 [] [] n (list_fuel base s1)) as [(b & s' & E' & (fl' & ? & _ & HC) & ?)|(E' & ? & ?)]; [done | done | by eapply list_fuel_ok | |].
    + left. exists b, s'. split_and!; [done| |done]. exists fl'. split_and!; [done | constructor | done].
    + right. exists s1. split_and!; try done. constructor.
Qed.

(** C10: [free], given any allocated block, in whatever order the program frees
    its blocks, terminates and makes exactly the bytes of the block free.  The
    free blocks stay apart from the allocated ones, no two of them touch, and
    the program's data in its other blocks is unchanged. *)
Theorem free_correct s fl al1 al2 bp n :
  heap_ok s fl (al1 ++ (bp, n) :: al2) ->
  exists s' fl', free base (bp + 16) s = Ret tt s' /\ heap_ok s' fl' (al1 ++ al2) /\
    (forall a, covers fl' a <-> covers fl a \/ bp <= a < bp + 16 * n) /\
    (forall x y, x ∈ fl' -> y ∈ fl' -> x.1 + 16 * x.2 <> y.1) /\
    kept (al1 ++ al2) s s' /\ h_brk s' = h_brk s.
Proof.
  intros H. destruct (free_ok base s fl al1 al2 bp n H) as (s' & fl' & E & H' & _ & HC & K & B).
  exists s', fl'. split_and!; try done. intros x y Hx Hy Exy.
  apply (free_maximal _ _ _ _ x H' Hx). pose proof (hk_free _ _ _ _ H') as F. pick Hy.
  unfold in_heap in *. eapply covers_in; [exact Hy | lia].
Qed.
End Malloc.

(** ** A program at work *)
Module MallocDemo.

(** The kernel gives up to 128 MB. *)
Definition kernel (b n : Z) : bool := b + n <=? 2 ^ 27.

Lemma kernel_bounded b n : kernel b n = true -> b + n <= 2 ^ 31.
Proof. unfold kernel. lia. Qed.

(** [base] is at 4096; two units are allocated at 8192, three at 8224, and two
    are free after them. *)
Definition demo_mem : memory :=
  put_hsize 8192 2 (put_hsize 8224 3 (put_hsize 8272 2 (put_hptr 8272 4096
    (put_hsize 4096 0 (put_hptr 4096 8272 ∅))))).
Definition demo_heap : uheap := UHeap demo_mem 4096 8304.

Lemma demo_ok : heap_ok 4096 demo_heap [(8272, 2)] [(8192, 2); (8224, 3)].
Proof.
  assert (forall p n, 4112 <= p -> 0 < n -> p + 16 * n <= 8304 -> in_heap 4096 8304 (p, n)) as I
    by (intros; unfold in_heap; cbn; lia).
  split; try (cbn; lia).
  - split; [by vm_compute | cbn; unfold room; lia | by repeat constructor].
  - left.
  - constructor; [apply I; lia | done].
  - constructor; [apply I; lia |]. constructor; [apply I; lia | done].
  - repeat constructor; by vm_compute.
  - cbn. split_and!; try done. repeat constructor. unfold apart. cbn. lia.
  - repeat constructor; unfold apart; cbn; lia.
Qed.

Lemma new_ready : heap_ready 4096 (UHeap ∅ 0 8192) [] [].
Proof. right. cbn. split_and!; done || lia. Qed.

Lemma malloc_correct_witness :
  heap_ready 4096 (UHeap ∅ 0 8192) [] [] /\
  (exists b s', malloc 4096 kernel 100 (UHeap ∅ 0 8192) = Ret (b + 16) s' /\
     gives 4096 (UHeap ∅ 0 8192) s' [] [] b 8).
Proof.
  split; [exact new_ready|].
  destruct (malloc_correct 4096 kernel kernel_bounded (UHeap ∅ 0 8192) [] [] 100 new_ready)
    as [_ [(b & s' & E & G & _) | (s' & _ & _ & _ & _ & E)]]; [lia | exists b, s'; split; assumption |].
  discriminate E.
Defined.

Lemma free_correct_witness :
  heap_ok 4096 demo_heap [(8272, 2)] [(8192, 2); (8224, 3)] /\
  exists s' fl', free 4096 (8224 + 16) demo_heap = Ret tt s' /\ heap_ok 4096 s' fl' [(8192, 2)].
Proof.
  split; [exact demo_ok|].
  destruct (free_correct 4096 demo_heap [(8272, 2)] [(8192, 2)] [] 8224 3 demo_ok) as (s' & fl' & ? & ? & _).
  eauto.
Defined.

End MallocDemo.
