(* ===== verification/Grep.v ===== *)
(** user/grep.c: the pattern matcher and the line-at-a-time reader, and what they
    write. *)

From S2P Require Import Prelude Mem Digits Ulib Uprintf.

(** ** The matcher; C strings are the lists of their characters *)

(** [matchstar(c, re, text)]; [here] is [matchhere(re, _)]. *)
Fixpoint matchstar (here : list Z -> bool) (c : Z) (text : list Z) : bool :=
  here text ||
  match text with
  | [] => false
  | x :: text' => if (x =? c) || (c =? 46) then matchstar here c text' else false
  end.

Fixpoint matchhere (re text : list Z) : bool :=
  match re with
  | [] => true
  | c :: re1 =>
      let rest :=
        if (c =? 36) && bool_decide (re1 = []) then bool_decide (text = [])
        else match text with
             | [] => false
             | x :: text' => if (c =? 46) || (c =? x) then matchhere re1 text' else false
             end in
      match re1 with
      | s :: re2 => if s =? 42 then matchstar (matchhere re2) c text else rest
      | [] => rest
      end
  end.

(** [do if(matchhere(re, text)) return 1; while( *text++ != 0 )] *)
Fixpoint match_any (re text : list Z) : bool :=
  matchhere re text || match text with [] => false | _ :: text' => match_any re text' end.
Definition match_ (re text : list Z) : bool :=
  match re with
  | c :: re1 => if c =? 94 then matchhere re1 text else match_any re text
  | [] => match_any re text
  end.

(** ** [grep] *)

(** The address and size of [buf]. *)
Definition gbuf : Z := 8192.
Definition gbuf_size : Z := 1024.

(** The body of the inner loop, for the line from [p] to the newline at [q]. *)
Definition grep_line (pattern : list Z) (p q : Z) : M uos unit :=
  st q 0 ;;
  let! m := gets u_mem in
  if match_ pattern (cstr m p (Z.to_nat gbuf_size))
  then st q 10 ;; write 1 p (q + 1 - p) ;; mret_ tt
  else mret_ tt.

(** [while((q = strchr(p, '\n')) != 0)]: the final [p]. *)
Fixpoint grep_lines (fuel : nat) (pattern : list Z) (p : Z) : M uos Z :=
  match fuel with
  | O => nofuel
  | S fuel' =>
      let! m := gets u_mem in
      match u_strchr (Z.to_nat gbuf_size) m p 10 with
      | None => nofuel
      | Some q =>
          if q =? 0 then mret_ p
          else grep_line pattern p q ;; grep_lines fuel' pattern (q + 1)
      end
  end.

(** [while((n = read(fd, buf+m, sizeof(buf)-m-1)) > 0)] *)
Fixpoint grep_loop (fuel : nat) (pattern : list Z) (fd m : Z) : M uos unit :=
  match fuel with
  | O => nofuel
  | S fuel' =>
      let! n := read fd (gbuf + m) (gbuf_size - m - 1) in
      if 0 <? n then
        let m := m + n in
        st (gbuf + m) 0 ;;
        let! p := grep_lines (Z.to_nat gbuf_size) pattern gbuf in
        if 0 <? m then
          let m := m - (p - gbuf) in
          set_umem (fun mem => u_memmove mem gbuf p m) ;;
          grep_loop fuel' pattern fd m
        else grep_loop fuel' pattern fd m
      else mret_ tt
  end.
Definition grep (fuel : nat) (pattern : list Z) (fd : Z) : M uos unit := grep_loop fuel pattern fd 0.

(** "usage: grep pattern [file ...]\n" and "grep: cannot open " *)
Definition grep_usage : list Z := chars "usage: grep pattern [file ...]" ++ [10].
Definition grep_cannot : list Z := chars "grep: cannot open ".

(** [for(i = 2; i < argc; i++)]: the exit status. *)
Fixpoint grep_files (fuel : nat) (pattern : list Z) (names : list (list Z)) : M uos Z :=
  match names with
  | [] => mret_ 0
  | name :: names' =>
      let! fd := open_read name in
      if fd <? 0 then putcs 1 (grep_cannot ++ name ++ [10]) ;; mret_ 1
      else grep fuel pattern fd ;; close fd ;; grep_files fuel pattern names'
  end.
(** [main] with the arguments after [argv[0]]. *)
Definition grep_main (fuel : nat) (argv : list (list Z)) : M uos Z :=
  match argv with
  | [] => putcs 2 grep_usage ;; mret_ 1
  | [pattern] => grep fuel pattern 0 ;; mret_ 0
  | pattern :: names => grep_files fuel pattern names
  end.

(** ** What a pattern means *)

(** [here re t]: a prefix of [t] is in the language of [re]. *)
Inductive here : list Z -> list Z -> Prop :=
| here_nil t : here [] t
| here_star c re t1 t2 : Forall (fun x => x = c \/ c = 46) t1 -> here re t2 -> here (c :: 42 :: re) (t1 ++ t2)
| here_end : here [36] []
| here_char c re x t :
    re !! O <> Some 42 -> (c, re) <> (36, []) -> c = 46 \/ c = x -> here re t -> here (c :: re) (x :: t).

Lemma matchstar_spec h c t :
  matchstar h c t = true <-> exists t1 t2, t = t1 ++ t2 /\ Forall (fun x => x = c \/ c = 46) t1 /\ h t2 = true.
Proof.
  induction t as [|x t IH]; cbn [matchstar].
  - rewrite orb_false_r. split; [intros H; by exists [], []|]. intros (t1 & t2 & E & _ & H).
    by destruct t1, t2.
  - rewrite orb_true_iff. split.
    + intros [H|H]; [by exists [], (x :: t)|]. destruct ((x =? c) || (c =? 46)) eqn:Hx; [|done].
      apply IH in H as (t1 & t2 & -> & Hf & H). exists (x :: t1), t2. split_and!; try done.
      constructor; [|done]. apply orb_true_iff in Hx as [?|?]; [left|right]; lia.
    + intros (t1 & t2 & E & Hf & H). destruct t1 as [|y t1]; cbn in E; [subst; by left|]. simplify_eq. right.
      apply Forall_cons in Hf as [Hy Hf].
      assert (Hc : (y =? c) || (c =? 46) = true) by (apply orb_true_iff; destruct Hy; [left|right]; lia).
      rewrite Hc. apply IH. by exists t1, t2.
Qed.

Lemma matchhere_spec re t : matchhere re t = true <-> here re t.
Proof.
  remember (length re) as n eqn:Hn. assert (Hle : (length re <= n)%nat) by lia. clear Hn.
  revert re t Hle. induction n as [|n IH]; intros re t Hle; (destruct re as [|c re1]; [split; [constructor|done]|]); cbn in Hle; [lia|].
  assert (Hrest : re1 !! O <> Some 42 ->
    (if (c =? 36) && bool_decide (re1 = []) then bool_decide (t = [])
     else match t with [] => false | x :: t' => if (c =? 46) || (c =? x) then matchhere re1 t' else false end) = true
    <-> here (c :: re1) t).
  { intros Hs. destruct (decide ((c, re1) = (36, []))) as [E|E].
    - simplify_eq. change (36 =? 36) with true. cbn [andb].
      rewrite (bool_decide_true ([] = [])) by done. rewrite bool_decide_eq_true. split; [intros ->; constructor|].
      intros H. inversion H; subst; done.
    - rewrite (proj2 (andb_false_iff _ _)).
      2:{ destruct (Z.eqb_spec c 36) as [->|]; [right|by left]. rewrite bool_decide_eq_false. intros ->. done. }
      split.
      + destruct t as [|x t']; [done|]. destruct ((c =? 46) || (c =? x)) eqn:Hx; [|done].
        intros H. apply IH in H; [|lia]. apply here_char; try done. apply orb_true_iff in Hx as [?|?]; [left|right]; lia.
      + intros H. inversion H; subst; try done.
        match goal with Hor : c = 46 \/ c = x |- _ =>
          rewrite (proj2 (orb_true_iff (c =? 46) (c =? x))) by (destruct Hor; [left|right]; lia) end.
        apply IH; [lia|done]. }
  cbn [matchhere]. destruct re1 as [|s re2]; [by apply Hrest|].
  destruct (Z.eqb_spec s 42) as [->|Hs]; [|apply Hrest; intros [= ?]; lia].
  rewrite matchstar_spec. split.
  - intros (t1 & t2 & -> & Hf & H). constructor; [done|]. apply IH; [cbn in Hle; lia|done].
  - intros H. inversion H; subst; [|done]. exists t1, t2. split_and!; try done. apply IH; [cbn in Hle; lia|done].
Qed.

(** What it is to match a pattern: for one that starts with [^], that a prefix of
    the text is in the language of the rest, for another that a prefix of some suffix
    of the text is in its language. *)
Definition matches (re t : list Z) : Prop :=
  match re with
  | 94 :: re1 => here re1 t
  | _ => exists pre post, t = pre ++ post /\ here re post
  end.

(** The matcher decides it. *)
Theorem match_correct re t : match_ re t = true <-> matches re t.
Proof.
  assert (Hany : match_any re t = true <-> exists pre post, t = pre ++ post /\ here re post).
  { induction t as [|x t IH]; cbn [match_any].
    - rewrite orb_false_r, matchhere_spec. split; [intros H; by exists [], []|].
      intros (pre & post & E & H). by destruct pre, post.
    - rewrite orb_true_iff, matchhere_spec, IH. split.
      + intros [H|(pre & post & -> & H)]; [by exists [], (x :: t)|by exists (x :: pre), post].
      + intros (pre & post & E & H). destruct pre as [|y pre]; cbn in E; [subst; by left|].
        simplify_eq. right. by exists pre, post. }
  destruct re as [|c re1]; [exact Hany|]. unfold match_.
  destruct (Z.eqb_spec c 94) as [->|Hc]; [apply matchhere_spec|]. rewrite Hany.
  unfold matches. destruct c as [|p|p]; try done. do 7 (destruct p as [p|p|]; try done).
Qed.
#[global] Instance matches_dec re t : Decision (matches re t).
Proof. destruct (match_ re t) eqn:E; [left; by apply match_correct|right]. rewrite <- match_correct. congruence. Defined.

(** * What [grep] writes

    Whatever pieces [read] delivers a file in, [grep] writes exactly
    the lines that match. *)

(** ** Lines *)

(** The complete lines of a text, and what follows the last newline. *)
Fixpoint lines (bs : list Z) : list (list Z) * list Z :=
  match bs with
  | [] => ([], [])
  | b :: bs' =>
      let '(ls, r) := lines bs' in
      if b =? 10 then ([] :: ls, r)
      else match ls with [] => ([], b :: r) | l :: ls' => ((b :: l) :: ls', r) end
  end.

Lemma lines_line l bs : 10 ∉ l -> lines (l ++ 10 :: bs) = (l :: (lines bs).1, (lines bs).2).
Proof.
  induction l as [|b l IH]; intros Hl; cbn [app lines].
  - by destruct (lines bs).
  - apply not_elem_of_cons in Hl as [Hb Hl]. rewrite IH by done. by rewrite (proj2 (Z.eqb_neq b 10)) by lia.
Qed.

Lemma lines_rest r : 10 ∉ r -> lines r = ([], r).
Proof.
  induction r as [|b r IH]; intros Hr; cbn [lines]; [done|]. apply not_elem_of_cons in Hr as [Hb Hr].
  rewrite IH by done. by rewrite (proj2 (Z.eqb_neq b 10)) by lia.
Qed.

(** A text is its first line and the others, or an incomplete line. *)
Lemma lines_cases bs : 10 ∉ bs \/ exists l bs', bs = l ++ 10 :: bs' /\ 10 ∉ l.
Proof.
  induction bs as [|b bs IH]; [left; apply not_elem_of_nil|]. destruct (decide (b = 10)) as [->|Hb].
  - right. exists [], bs. split; [done|apply not_elem_of_nil].
  - destruct IH as [Hn|(l & bs' & -> & Hl)]; [left|right; exists (b :: l), bs'; split; [done|]]; set_solver.
Qed.

Lemma lines_app a b :
  lines (a ++ b) = ((lines a).1 ++ (lines ((lines a).2 ++ b)).1, (lines ((lines a).2 ++ b)).2).
Proof.
  induction a as [|x a IH]; cbn [app lines fst snd]; [by destruct (lines b)|].
  rewrite IH. clear IH. destruct (lines a) as [la ra]; cbn [fst snd].
  destruct (x =? 10) eqn:Hx; cbn [fst snd app]; [done|]. destruct la as [|l la]; cbn [fst snd app lines]; [|done].
  rewrite Hx. by destruct (lines (ra ++ b)) as [[|l lb] rb].
Qed.

Lemma lines_rest_nonl bs : 10 ∉ (lines bs).2.
Proof.
  induction bs as [|b bs IH]; cbn [lines]; [apply not_elem_of_nil|]. destruct (lines bs) as [ls r]; cbn in IH.
  destruct (Z.eqb_spec b 10) as [->|Hb]; [done|]. destruct ls; cbn; [|done]. apply not_elem_of_cons. split; [lia|done].
Qed.

Lemma lines_rest_length bs : (length (lines bs).2 <= length bs)%nat.
Proof.
  induction bs as [|b bs IH]; cbn [lines]; [done|]. destruct (lines bs) as [ls r]; cbn in IH.
  destruct (b =? 10); [cbn; lia|]. destruct ls; cbn; lia.
Qed.

Lemma lines_rest_forall (P : Z -> Prop) bs : Forall P bs -> Forall P (lines bs).2.
Proof.
  induction 1 as [|b bs Hb _ IH]; cbn [lines]; [constructor|]. destruct (lines bs) as [ls r]; cbn in IH.
  destruct (b =? 10); [done|]. destruct ls; cbn; [by constructor|done].
Qed.

(** ** One buffer *)

(** What is written for the lines [ls]. *)
Definition hits (pattern : list Z) (ls : list (list Z)) : list (Z * list Z) :=
  (fun l => (1, l ++ [10])) <$> filter (fun l => matches pattern l) ls.

Definition with_mem (m : memory) (out : list (Z * list Z)) (s : uos) : uos :=
  {| u_mem := m; u_fds := u_fds s; u_files := u_files s; u_out := out ++ u_out s |}.

(** A complete line is matched and, if it matches, written. *)
Lemma grep_line_ok pattern l t p s :
  Forall char l -> 10 ∉ l -> gbuf <= p -> (length l < 1023)%nat -> holds (u_mem s) p (l ++ 10 :: t) ->
  exists m, grep_line pattern p (p + Z.of_nat (length l)) s =
    Ret tt (with_mem m (hits pattern [l]) s) /\
    forall b, p + Z.of_nat (length l) < b -> load8 m b = load8 (u_mem s) b.
Proof.
  intros HF Hl Hp Hlen H. set (q := p + Z.of_nat (length l)). apply holds_app in H as [H1 H2].
  assert (Hne : forall i x, l !! i = Some x -> q <> p + Z.of_nat i) by (intros i x Hx; apply lookup_lt_Some in Hx; lia).
  assert (Hc : cstr (store8 (u_mem s) q 0) p (Z.to_nat gbuf_size) = l).
  { apply cstr_app_nul; [|fold q; by rewrite load8_store8_eq|change (Z.to_nat gbuf_size) with 1024%nat; lia].
    intros i x Hx. rewrite load8_store8_ne by (by eapply Hne). rewrite (H1 i x Hx). split; [done|].
    rewrite Forall_lookup in HF. apply HF in Hx. unfold char in Hx. lia. }
  unfold grep_line, st, set_umem. do 2 mstep. cbn [u_mem]. rewrite Hc. unfold hits. cbn [filter list_filter].
  pose proof (match_correct pattern l) as Hmc. destruct (match_ pattern l) eqn:Hm.
  - do 2 mstep. unfold mret_. cbn [u_mem u_fds u_files u_out]. exists (store8 (store8 (u_mem s) q 0) q 10). split.
    + unfold with_mem. do 2 f_equal. rewrite decide_True by (by apply Hmc). cbn [fmap list_fmap app]. do 2 f_equal.
      replace (Z.to_nat (q + 1 - p)) with (length (l ++ [10])) by (rewrite length_app; cbn; lia).
      apply holds_bytes_at, holds_app. split.
      * intros i x Hx. rewrite !load8_store8_ne by (by eapply Hne). by apply H1.
      * intros i x [-> <-]%list_lookup_singleton_Some. rewrite Z.add_0_r. fold q. by rewrite load8_store8_eq.
    + intros b Hb. by rewrite !load8_store8_ne by lia.
  - exists (store8 (u_mem s) q 0). split; [rewrite decide_False by (by intros H%Hmc); done|]. intros b Hb. by rewrite load8_store8_ne by lia.
Qed.

Lemma hits_cons pattern l ls : hits pattern (l :: ls) = hits pattern [l] ++ hits pattern ls.
Proof. unfold hits. change (l :: ls) with ([l] ++ ls). by rewrite filter_app, fmap_app. Qed.

Lemma hits_one_rev pattern l : reverse (hits pattern [l]) = hits pattern [l].
Proof. unfold hits. cbn [filter list_filter]. by case_decide. Qed.

(** [grep_lines] writes the matching lines of the buffer and leaves [p] at the
    incomplete one. *)
Lemma grep_lines_ok fuel pattern text p s :
  Forall char text -> holds (u_mem s) p (text ++ [0]) -> gbuf <= p -> (length text < 1024)%nat -> (length text < fuel)%nat ->
  let r := (lines text).2 in let p' := p + Z.of_nat (length text) - Z.of_nat (length r) in
  exists m, grep_lines fuel pattern p s = Ret p' (with_mem m (reverse (hits pattern (lines text).1)) s) /\ holds m p' r /\
    forall b, p + Z.of_nat (length text) <= b -> load8 m b = load8 (u_mem s) b.
Proof.
  revert text p s. induction fuel as [|fuel IH]; intros text p s HF H Hp Hlen Hf; [lia|].
  assert (H0 : 0 ∉ text) by (intros Hin; rewrite Forall_forall in HF; apply HF in Hin; unfold char in Hin; lia).
  cbn [grep_lines]. mstep. destruct (lines_cases text) as [Hn|(l & t & -> & Hl)].
  - rewrite (u_strchr_none _ _ _ text) by (done || change (Z.to_nat gbuf_size) with 1024%nat; lia). cbn [Z.eqb].
    rewrite lines_rest by done. cbn [fst snd]. exists (u_mem s). replace (p + _ - _) with p by lia. split.
    + unfold hits, with_mem. cbn. by destruct s.
    + split; [by apply holds_app in H as [H _]|done].
  - rewrite length_app in Hlen, Hf. cbn [length] in Hlen, Hf. apply Forall_app in HF as [HFl [_ HFt]%Forall_cons].
    rewrite <- app_assoc in H. cbn [app] in H.
    rewrite (u_strchr_found _ _ _ l 10); [| |done|set_solver|done|change (Z.to_nat gbuf_size) with 1024%nat; lia].
    2:{ apply holds_app in H as [Ha Hb]. apply holds_app. split; [done|]. intros i x [-> <-]%list_lookup_singleton_Some.
        by apply (Hb 0%nat). }
    rewrite (proj2 (Z.eqb_neq _ 0)) by (unfold gbuf in Hp; lia).
    destruct (grep_line_ok pattern l (t ++ [0]) p s HFl Hl Hp) as (m & E & Hm); [lia|done|].
    set (q := p + Z.of_nat (length l)) in *. rewrite !lines_line by done. cbn [fst snd].
    destruct (IH t (q + 1) (with_mem m (hits pattern [l]) s) HFt) as (m' & E' & Hr & Hm'); [| |lia|lia|].
    { apply holds_app in H as [_ H]. fold q in H. change (10 :: t ++ [0]) with ([10] ++ (t ++ [0])) in H.
      apply holds_app in H as [_ H]. cbn [length] in H. change (Z.of_nat 1) with 1 in H.
      eapply holds_frame; [exact H|]. intros b Hb. apply Hm. lia. }
    { lia. }
    exists m'. replace (p + Z.of_nat (length (l ++ 10 :: t)) - _) with (q + 1 + Z.of_nat (length t) - Z.of_nat (length (lines t).2))
      by (rewrite length_app; cbn; lia).
    split_and!; [|done|].
    + rewrite (bind_ret _ _ _ _ _ E), E'. unfold with_mem. cbn [u_fds u_files u_out].
      by rewrite (hits_cons pattern l (lines t).1), reverse_app, hits_one_rev, app_assoc.
    + intros b Hb. rewrite length_app in Hb. cbn [length] in Hb. rewrite Hm' by lia. cbn [u_mem with_mem]. apply Hm. lia.
Qed.

(** ** The whole input *)

(** The pieces hold bytes, and none is empty. *)
Definition pieces (cs : list (list Z)) : Prop := Forall (fun c => c <> [] /\ Forall byte c) cs.

(** Every line, complete or not, fits the buffer. *)
Definition short (bs : list Z) : Prop :=
  Forall (fun l => (length l < 1023)%nat) (lines bs).1 /\ (length (lines bs).2 < 1023)%nat.

(** Lines of a prefix of a text with short lines leave a short incomplete line. *)
Lemma short_prefix a b : short (a ++ b) -> (length (lines a).2 < 1023)%nat.
Proof.
  intros [H1 H2]. rewrite lines_app in H1, H2. cbn [fst snd] in *. apply Forall_app in H1 as [_ H1].
  destruct (lines_cases b) as [Hb|(l & b' & -> & Hl)].
  - rewrite (lines_rest ((lines a).2 ++ b)) in H2; [cbn in H2; rewrite length_app in H2; lia|].
    intros [H|H]%elem_of_app; [by apply lines_rest_nonl in H|done].
  - rewrite app_assoc, lines_line in H1; [cbn in H1; apply Forall_cons in H1 as [H1 _]; rewrite length_app in H1; lia|].
    intros [H|H]%elem_of_app; [by apply lines_rest_nonl in H|done].
Qed.

(** What is left of the pieces when [k] bytes of the first one are read. *)
Definition after_read (k : nat) (c : list Z) (cs : list (list Z)) : list (list Z) :=
  if bool_decide (drop k c = []) then cs else drop k c :: cs.

Lemma read_piece fd a n c cs s :
  u_fds s !! fd = Some (c :: cs) ->
  read fd a n s = Ret (Z.of_nat (length (take (Z.to_nat n) c)))
    {| u_mem := store_bytes (u_mem s) a (take (Z.to_nat n) c); u_fds := <[fd := after_read (Z.to_nat n) c cs]> (u_fds s);
       u_files := u_files s; u_out := u_out s |}.
Proof. intros H. unfold read. mstep. rewrite H. mstep. done. Qed.

Lemma piece_split k c cs :
  pieces (c :: cs) -> (0 < k)%nat ->
  c ++ concat cs = take k c ++ concat (after_read k c cs) /\ pieces (after_read k c cs) /\
  Forall byte (take k c) /\ (0 < length (take k c) <= k)%nat.
Proof.
  intros [[Hc0 Hc] Hcs]%Forall_cons Hk. unfold after_read. split_and!.
  - destruct (bool_decide_reflect (drop k c = [])) as [E|E].
    + rewrite <- (take_drop k c) at 1. by rewrite E, app_nil_r.
    + cbn [concat]. by rewrite app_assoc, take_drop.
  - destruct (bool_decide_reflect (drop k c = [])) as [E|E]; [done|]. constructor; [|done]. split; [done|by apply Forall_drop].
  - by apply Forall_take.
  - rewrite length_take. destruct c; [done|cbn; lia].
  - rewrite length_take. lia.
Qed.

(** What the buffer keeps of the bytes [v ++ z], when [v] is the string they begin
    with: its incomplete line, and what is behind the string. *)
Definition kept (v z : list Z) : list Z := (lines v).2 ++ z.

(** The bytes in the buffer and the NUL that is put behind them. *)
Lemma buffer_holds m part new :
  Forall byte new -> holds m gbuf part ->
  holds (store8 (store_bytes m (gbuf + Z.of_nat (length part)) new) (gbuf + (Z.of_nat (length part) + Z.of_nat (length new))) 0) gbuf ((part ++ new) ++ [0]).
Proof.
  intros Hn Hh. rewrite <- app_assoc. apply holds_app. split; [|apply holds_app; split].
  - intros i x Hx. pose proof (lookup_lt_Some _ _ _ Hx). rewrite load8_store8_ne by lia.
    rewrite load8_stored by done. rewrite decide_False by lia. by apply Hh.
  - intros i x Hx. pose proof (lookup_lt_Some _ _ _ Hx). rewrite load8_store8_ne by lia. by apply holds_bytes_stored.
  - intros i x [-> <-]%list_lookup_singleton_Some. rewrite Z.add_0_r, <- Z.add_assoc. apply load8_store8_eq.
Qed.

(** One piece: the complete lines before the first NUL are handled and the rest
    moved to the front. *)
Lemma grep_piece_ok pattern part new v z s :
  Forall byte part -> Forall byte new -> holds (u_mem s) gbuf part -> (length part + length new < 1024)%nat ->
  (0 < length new)%nat -> part ++ new = v ++ z -> 0 ∉ v -> z = [] \/ (exists w, z = 0 :: w) -> forall k : Z -> M uos unit,
  exists m, (let m := Z.of_nat (length part) + Z.of_nat (length new) in
      st (gbuf + m) 0 ;;
      let! p := grep_lines (Z.to_nat gbuf_size) pattern gbuf in
      if 0 <? m then let m := m - (p - gbuf) in set_umem (fun mem => u_memmove mem gbuf p m) ;; k m else k m)
    (with_mem (store_bytes (u_mem s) (gbuf + Z.of_nat (length part)) new) [] s) =
    k (Z.of_nat (length (kept v z))) (with_mem m (reverse (hits pattern (lines v).1)) s) /\
    holds m gbuf (kept v z).
Proof.
  intros Hp Hn Hh Hlen Hn0 Ez H0 Hz k. cbv zeta. unfold st, set_umem at 1. mstep. cbn [u_mem u_fds u_files u_out with_mem].
  set (m1 := store8 _ _ _). set (s1 := UOs _ _ _ _).
  assert (Hh1 : holds m1 gbuf (v ++ z ++ [0])) by (rewrite app_assoc, <- Ez; by apply buffer_holds).
  assert (Hv : Forall char v) by (apply byte_char; [|done]; apply (Forall_app _ v z); rewrite <- Ez; by apply Forall_app).
  assert (Hl : (length v + length z = length part + length new)%nat) by (rewrite <- !length_app; by rewrite Ez).
  pose proof Hh1 as Hh1'. apply holds_app in Hh1' as [Hhv Hhz].
  assert (Hhv0 : holds m1 gbuf (v ++ [0])).
  { apply holds_app. split; [done|]. intros i x [-> <-]%list_lookup_singleton_Some. apply Hhz. by destruct Hz as [->|[w ->]]. }
  destruct (grep_lines_ok (Z.to_nat gbuf_size) pattern v gbuf s1 Hv Hhv0) as (m2 & E & H2 & H3);
    [lia|lia|change (Z.to_nat gbuf_size) with 1024%nat; lia|].
  rewrite (bind_ret _ _ _ _ _ E). rewrite (proj2 (Z.ltb_lt 0 _)) by lia. mstep. cbn [u_mem u_fds u_files u_out with_mem s1].
  set (r := (lines v).2) in *. set (p' := gbuf + Z.of_nat (length v) - Z.of_nat (length r)) in *.
  assert (Hm : Z.of_nat (length part) + Z.of_nat (length new) - (p' - gbuf) = Z.of_nat (length (kept v z)))
    by (unfold kept, p'; fold r; rewrite length_app; lia).
  rewrite Hm. exists (u_memmove m2 gbuf p' (Z.of_nat (length (kept v z)))). split; [done|].
  assert (Hk : holds m2 p' (kept v z)).
  { unfold kept. apply holds_app. split; [done|]. fold r. replace (p' + Z.of_nat (length r)) with (gbuf + Z.of_nat (length v)) by (unfold p'; lia).
    eapply holds_frame; [by apply holds_app in Hhz as [Hhz _]|]. intros b Hb. apply H3. lia. }
  intros i x Hx. pose proof (lookup_lt_Some _ _ _ Hx). rewrite load8_u_memmove, load8_memmove, decide_True by lia.
  replace (p' + (gbuf + Z.of_nat i - gbuf)) with (p' + Z.of_nat i) by lia. by apply Hk.
Qed.

(** With the bytes [v ++ z] in the buffer, before and after their lines are handled. *)
Lemma upto_nul_kept v z rest :
  0 ∉ v -> upto_nul ((v ++ z) ++ rest) = v ++ upto_nul (z ++ rest) /\ upto_nul (kept v z ++ rest) = (lines v).2 ++ upto_nul (z ++ rest).
Proof.
  intros H0. assert (H : Forall (fun x => x <> 0) v) by (apply Forall_forall; intros x Hx ->; done).
  apply lines_rest_forall in H. assert (Hr : 0 ∉ (lines v).2) by (intros Hin; rewrite Forall_forall in H; by apply (H 0)).
  unfold kept. by rewrite <- !app_assoc, (upto_nul_app v), (upto_nul_app (lines v).2) by done.
Qed.

(** The buffer is full only when it holds a NUL. *)
Lemma full_has_nul part rest : 10 ∉ upto_nul part -> short (upto_nul (part ++ rest)) -> (1023 <= length part)%nat -> 0 ∈ part.
Proof.
  intros Hnl Hs Hl. destruct (decide (0 ∈ part)) as [|H0]; [done|]. exfalso.
  assert (E : upto_nul part = part) by (by rewrite <- (app_nil_r part) at 1; rewrite upto_nul_app, app_nil_r).
  rewrite upto_nul_app in Hs by done. apply short_prefix in Hs. rewrite E in Hnl. rewrite lines_rest in Hs by done. cbn in Hs. lia.
Qed.

(** The outer loop: [part] is what is kept in the buffer. *)
Lemma grep_loop_ok fuel pattern fd part cs s :
  u_fds s !! fd = Some cs -> pieces cs -> Forall byte part -> 10 ∉ upto_nul part -> (length part <= 1023)%nat ->
  holds (u_mem s) gbuf part -> short (upto_nul (part ++ concat cs)) -> (length (concat cs) < fuel)%nat ->
  exists s', grep_loop fuel pattern fd (Z.of_nat (length part)) s = Ret tt s' /\
    u_out s' = reverse (hits pattern (lines (upto_nul (part ++ concat cs))).1) ++ u_out s.
Proof.
  revert part cs s. induction fuel as [|fuel IH]; intros part cs s Hfd Hcs Hpart Hnl H1023 Hh Hs Hf; [lia|].
  cbn [grep_loop]. destruct cs as [|c cs].
  { exists s. rewrite (bind_ret _ _ _ 0 s) by (unfold read; mstep; by rewrite Hfd).
    split; [done|]. cbn [concat]. by rewrite app_nil_r, lines_rest. }
  rewrite (bind_ret _ _ _ _ _ (read_piece _ _ _ _ _ _ Hfd)).
  set (k := Z.to_nat (gbuf_size - Z.of_nat (length part) - 1)).
  destruct (decide (length part = 1023%nat)) as [Hfull|Hfull].
  { assert (k = 0%nat) as -> by (unfold k, gbuf_size; lia). pose proof (full_has_nul part _ Hnl Hs ltac:(lia)) as H0.
    rewrite upto_nul_end by done. rewrite lines_rest by done. eexists. split; [reflexivity|done]. }
  assert (Hk : (0 < k)%nat /\ (length part + k <= 1023)%nat) by (unfold k, gbuf_size; lia).
  destruct (piece_split k c cs Hcs (proj1 Hk)) as (Hsplit & Hrest & Htc & Hlt).
  cbn [concat] in Hs, Hf. cbn [concat]. rewrite Hsplit, app_assoc in *. rewrite (proj2 (Z.ltb_lt 0 _)) by lia.
  set (s1 := {| u_mem := u_mem s; u_fds := <[fd := after_read k c cs]> (u_fds s); u_files := u_files s; u_out := u_out s |}).
  destruct (upto_nul_split (part ++ take k c)) as (z & Ez & Hz). set (v := upto_nul (part ++ take k c)) in *.
  assert (H0 : 0 ∉ v) by apply upto_nul_nonul.
  destruct (grep_piece_ok pattern part (take k c) v z s1 Hpart Htc Hh) with (k := grep_loop fuel pattern fd) as (m & E & Hm); [lia|lia|exact Ez|exact H0|exact Hz|].
  cbv zeta in E. destruct (upto_nul_kept v z (concat (after_read k c cs)) H0) as [E1 E2].
  assert (Hby : Forall byte (v ++ z)) by (rewrite <- Ez; by apply Forall_app). apply Forall_app in Hby as [Hbv Hbz].
  assert (Hlz : (length v + length z = length part + length (take k c))%nat) by (rewrite <- !length_app; by rewrite Ez).
  assert (Hlr : (length (lines v).2 <= length v)%nat) by apply lines_rest_length.
  rewrite Ez, E1 in Hs. rewrite Ez, E1.
  destruct (IH (kept v z) (after_read k c cs) (with_mem m (reverse (hits pattern (lines v).1)) s1)) as (s' & E' & Ho).
  - cbn. by rewrite lookup_insert_eq.
  - done.
  - apply Forall_app. split; [by apply lines_rest_forall|done].
  - destruct (upto_nul_kept v z [] H0) as [_ E3]. rewrite !app_nil_r in E3. rewrite E3.
    assert (upto_nul z = []) as -> by by destruct Hz as [->|[w ->]]. rewrite app_nil_r. apply lines_rest_nonl.
  - unfold kept. rewrite length_app. lia.
  - done.
  - rewrite E2. unfold short in *. rewrite lines_app in Hs. cbn [fst snd] in Hs. destruct Hs as [[_ ?]%Forall_app ?]. done.
  - rewrite length_app in Hf. lia.
  - exists s'. split; [rewrite <- E'; exact E|]. rewrite Ho, E2. cbn [with_mem u_out s1].
    rewrite (lines_app v). cbn [fst]. unfold hits. by rewrite filter_app, fmap_app, reverse_app, app_assoc.
Qed.

(** C36: [grep] does not depend on how [read] cuts its input: for any way of
    delivering the input in pieces it terminates, having written exactly the
    newline-terminated lines before the first NUL byte of the input that match the
    pattern, each followed by a newline and in order; these lines, and an incomplete
    last one, must be shorter than its buffer.  In an input without NUL bytes these are all its lines; what
    follows a NUL is not searched. *)
Theorem grep_correct pattern fd cs s fuel :
  u_fds s !! fd = Some cs -> pieces cs -> short (upto_nul (concat cs)) -> (length (concat cs) < fuel)%nat ->
  exists s', grep fuel pattern fd s = Ret tt s' /\
    u_out s' = reverse ((fun l => (1, l ++ [10])) <$> filter (fun l => matches pattern l) (lines (upto_nul (concat cs))).1) ++ u_out s.
Proof.
  intros Hfd Hcs Hs Hf. apply (grep_loop_ok fuel pattern fd [] cs s); try done; [apply not_elem_of_nil|cbn; lia].
Qed.

(** "ab\nxb\n", a NUL and "ab\n" in three pieces, searched for "^a". *)
Lemma grep_correct_witness :
  exists s', grep 20 [94; 97] 0 (UOs ∅ {[0 := [[97]; [98; 10; 120; 98; 10]; [0; 97; 98; 10]]]} ∅ []) = Ret tt s' /\
    u_out s' = [(1, [97; 98; 10])].
Proof.
  destruct (grep_correct [94; 97] 0 [[97]; [98; 10; 120; 98; 10]; [0; 97; 98; 10]]
    (UOs ∅ {[0 := [[97]; [98; 10; 120; 98; 10]; [0; 97; 98; 10]]]} ∅ []) 20) as (s' & E & Ho).
  - reflexivity.
  - repeat (constructor; [split; [discriminate|repeat (constructor; [split; vm_compute; congruence|]); constructor]|]). constructor.
  - split; [repeat constructor; cbn; lia|cbn; lia].
  - cbn. lia.
  - exists s'. split; [exact E|]. rewrite Ho. vm_compute. reflexivity.
Defined.
