(* ===== verification/Uproc.v ===== *)
(** User processes: programs as trees of system calls.

    [proc A] is a computation that makes system calls and returns an [A], or
    exits.  [Sys c k] makes the call [c] and goes on with its reply; [fork]
    replies 0 in the child and the child's pid in the parent.  [Stuck] is a loop
    that ran out of the fuel it is modelled with. *)

From S2P Require Import Prelude Riscv.

Abbreviation path := (list Z).

(** The system calls of user/user.h, with their arguments by value. *)
Inductive call : Type -> Type :=
| Fork : call Z
| Wait : call (Z * Z)
| Pipe : call (option (Z * Z))
| Write (fd : Z) (data : list Z) : call Z
| Read (fd n : Z) : call (Z * list Z)
| Close (fd : Z) : call Z
| Kill (pid : Z) : call Z
| Exec (file : path) (argv : list path) : call Z
| Open (file : path) (mode : Z) : call Z
| Mknod (file : path) (major minor : Z) : call Z
| Unlink (file : path) : call Z
| Link (old new : path) : call Z
| Mkdir (file : path) : call Z
| Chdir (file : path) : call Z
| Dup (fd : Z) : call Z
| Getpid : call Z
| Sbrk (n : Z) : call Z
| Sleep_ (n : Z) : call Z
| Uptime : call Z.

Inductive proc (A : Type) : Type :=
| Done (a : A)
| Exit (status : Z)
| Stuck
| Sys {X : Type} (c : call X) (k : X -> proc A).
Arguments Done {A}.
Arguments Exit {A}.
Arguments Stuck {A}.
Arguments Sys {A X}.

Fixpoint pbind {A B} (m : proc A) (f : A -> proc B) : proc B :=
  match m with
  | Done a => f a
  | Exit st => Exit st
  | Stuck => Stuck
  | Sys c k => Sys c (fun x => pbind (k x) f)
  end.

Definition sys {X} (c : call X) : proc X := Sys c Done.
(** A process that never returns. *)
Definition never {A} (m : proc Empty_set) : proc A := pbind m (fun e => match e with end).

Declare Scope proc_scope.
Delimit Scope proc_scope with proc.
Notation "'do!' x <- m 'in' k" := (pbind m (fun x => k))
  (at level 10, x name, m at level 100, k at level 200) : proc_scope.
Notation "'do!' ' p <- m 'in' k" := (pbind m (fun x => match x with p => k end))
  (at level 10, p pattern, m at level 100, k at level 200) : proc_scope.
Notation "'call!' c 'in' k" := (pbind (sys c) (fun _ => k))
  (at level 10, c at level 100, k at level 200) : proc_scope.
Open Scope proc_scope.

(** [fprintf] writes one character at a time. *)
Fixpoint fputs (fd : Z) (s : list Z) : proc unit :=
  match s with
  | [] => Done tt
  | c :: s' => call! Write fd [c] in fputs fd s'
  end.

(** ** Descriptors *)

(** What a descriptor refers to: something it was started with, an opened file
    or an end of the [n]th pipe. *)
Inductive fobj := Given (n : Z) | Opened (file : path) (mode : Z) | PipeR (n : nat) | PipeW (n : nat).
Abbreviation fds := (gmap Z fobj).

(** The lowest free descriptor, as [fdalloc] of kernel/sysfile.c. *)
Fixpoint lowest (n : nat) (t : fds) (fd : Z) : option Z :=
  match n with
  | O => None
  | S n' => match t !! fd with None => Some fd | Some _ => lowest n' t (fd + 1) end
  end.
Definition fdalloc (t : fds) : option Z := lowest (Z.to_nat NOFILE) t 0.

(** Any pid but 0 and -1. *)
Definition child_pid : Z := 2.

Section Launch.
(** Which files can be opened and executed, and the replies of the calls that
    have nothing to do with descriptors. *)
Context (opens : path -> Z -> bool) (execs : path -> bool) (other : forall X, call X -> X).

(** A program that was started: its arguments and its descriptors. *)
Definition started : Type := list path * fds.

(** The reply of a call that does not fork or [exec], the table after it, and
    the number of pipes. *)
Definition fd_call {X} (c : call X) (t : fds) (n : nat) : X * fds * nat :=
  match c in call X return X * fds * nat with
  | Pipe =>
      match fdalloc t with
      | None => (None, t, n)
      | Some fd0 =>
          let t' := <[fd0 := PipeR n]> t in
          match fdalloc t' with
          | None => (None, t, n)
          | Some fd1 => (Some (fd0, fd1), <[fd1 := PipeW n]> t', S n)
          end
      end
  | Close fd => if bool_decide (t !! fd = None) then (-1, t, n) else (0, delete fd t, n)
  | Dup fd =>
      match t !! fd, fdalloc t with
      | Some o, Some fd' => (fd', <[fd' := o]> t, n)
      | _, _ => (-1, t, n)
      end
  | Open file mode =>
      match opens file mode, fdalloc t with
      | true, Some fd => (fd, <[fd := Opened file mode]> t, n)
      | _, _ => (-1, t, n)
      end
  | c => (other _ c, t, n)
  end.

(** The programs a process and its children start, children first. *)
Fixpoint launch {A} (p : proc A) (t : fds) (n : nat) : list started * nat :=
  match p with
  | Sys c k =>
      match c in call X return (X -> fds -> nat -> list started * nat) -> list started * nat with
      | Fork => fun go =>
          let '(l1, n1) := go 0 t n in
          let '(l2, n2) := go child_pid t n1 in
          (l1 ++ l2, n2)
      | Exec file argv => fun go => if execs file then ([(argv, t)], n) else go (-1) t n
      | c => fun go => let '(x, t', n') := fd_call c t n in go x t' n'
      end (fun x => launch (k x))
  | _ => ([], n)
  end.
End Launch.
