(* ===== verification/Unet.v ===== *)
(** Processes that run side by side.

    [world] is the kernel as user programs see it: the processes, each with the system
    calls it has still to make, its descriptors and its parent, the pipes, and what has
    been written to the console.  [run_step i w] makes the next call of process [i].
    [must_end Q w]: whatever the schedule, the processes come to rest, and then [Q].
    [fork] finds a free entry and memory for the child, and [exit] closes all the
    descriptors of the process in one step. *)

From S2P Require Import Prelude Riscv Mem Sync Kalloc Vm Pipe Uproc.

#[export] Instance fobj_eq_dec : EqDecision fobj.
Proof. solve_decision. Defined.

(** A process that has exited waits as a zombie for its parent. *)
Inductive ucode := Live (code : proc Empty_set) | Zombie (status : Z) | Reaped.

Record uproc := UProc { up_code : ucode; up_fds : fds; up_parent : option nat }.

Record world := World { w_procs : list uproc; w_pipes : list (list Z); w_out : list Z }.

Definition set_procs (l : list uproc) (w : world) : world := {| w_procs := l; w_pipes := w_pipes w; w_out := w_out w |}.
Definition set_pipes (l : list (list Z)) (w : world) : world := {| w_procs := w_procs w; w_pipes := l; w_out := w_out w |}.
Definition set_out (l : list Z) (w : world) : world := {| w_procs := w_procs w; w_pipes := w_pipes w; w_out := l |}.

(** Whether a process has a descriptor for [o]. *)
Definition holds (o : fobj) (p : uproc) : bool := existsb (fun x => bool_decide (x.2 = o)) (map_to_list (up_fds p)).
Definition open_end (o : fobj) (w : world) : bool := existsb (holds o) (w_procs w).

(** What a call leads to: a reply, the descriptors of the caller and the world; the
    caller waits; or the model does not say. *)
Inductive reply (X : Type) := Got (x : X) (t : fds) (w : world) | Waits | Unsaid.
Arguments Got {X}.
Arguments Waits {X}.
Arguments Unsaid {X}.

(** A world after a step of a process; the process cannot go on; or the model does not say. *)
Inductive next := Next (w : world) | Blocked | Outside.

(** [fd_call] is used for calls that it answers. *)
Definition no_reply (X : Type) (c : call X) : X :=
  match c with
  | Wait => (0, 0) | Pipe => None | Read _ _ => (0, [])
  | Fork | Write _ _ | Close _ | Kill _ | Exec _ _ | Open _ _ | Mknod _ _ _ | Unlink _ | Link _ _ | Mkdir _ | Chdir _
  | Dup _ | Getpid | Sbrk _ | Sleep_ _ | Uptime => 0
  end.

Section World.
(** The pid of each process. *)
Context (pid : nat -> Z).

Definition is_child (i : nat) (p : uproc) : bool := bool_decide (up_parent p = Some i).
Definition zombie (p : uproc) : option Z := match up_code p with Zombie st => Some st | _ => None end.

(** The first zombie child of [i], from index [j] on. *)
Fixpoint find_zombie (i : nat) (l : list uproc) (j : nat) : option (nat * Z) :=
  match l with
  | [] => None
  | p :: l' =>
      match zombie p with
      | Some st => if is_child i p then Some (j, st) else find_zombie i l' (S j)
      | None => find_zombie i l' (S j)
      end
  end.
Definition reaped : uproc := {| up_code := Reaped; up_fds := ∅; up_parent := None |}.

(** A call of process [i] with descriptors [t]. *)
Definition kernel {X} (c : call X) (i : nat) (t : fds) (w : world) : reply X :=
  match c in call X return reply X with
  | Wait =>
      match find_zombie i (w_procs w) 0 with
      | Some (j, st) => Got (pid j, st) t (set_procs (<[j := reaped]> (w_procs w)) w)
      | None => if existsb (is_child i) (w_procs w) then Waits else Got (-1, 0) t w
      end
  | Read fd n =>
      match t !! fd with
      | Some (PipeR k) =>
          let b := w_pipes w !!! k in
          if bool_decide (b = []) then (if open_end (PipeW k) w then Waits else Got (0, []) t w)
          else
            let d := take (Z.to_nat n) b in
            Got (Z.of_nat (length d), d) t (set_pipes (<[k := drop (Z.to_nat n) b]> (w_pipes w)) w)
      | Some (Given _) | Some (Opened _ _) => Unsaid
      | Some (PipeW _) | None => Got (-1, []) t w
      end
  | Write fd data =>
      match t !! fd with
      | Some (PipeW k) =>
          let b := w_pipes w !!! k in
          if negb (open_end (PipeR k) w) then Got (-1) t w
          else if PIPESIZE <? Z.of_nat (length (b ++ data)) then Unsaid
          else Got (Z.of_nat (length data)) t (set_pipes (<[k := b ++ data]> (w_pipes w)) w)
      | Some (Given _) => Got (Z.of_nat (length data)) t (set_out (w_out w ++ data) w)
      | Some (Opened _ _) => Unsaid
      | Some (PipeR _) | None => Got (-1) t w
      end
  | Pipe =>
      let '(x, t', n') := fd_call (fun _ _ => false) no_reply Pipe t (length (w_pipes w)) in
      Got x t' (if bool_decide (n' = length (w_pipes w)) then w else set_pipes (w_pipes w ++ [[]]) w)
  | Close fd => let '(x, t', _) := fd_call (fun _ _ => false) no_reply (Close fd) t 0 in Got x t' w
  | Dup fd => let '(x, t', _) := fd_call (fun _ _ => false) no_reply (Dup fd) t 0 in Got x t' w
  | Getpid => Got (pid i) t w
  | _ => Unsaid
  end.

(** [exit]: the descriptors are closed, and the children go to init. *)
Definition orphan (i : nat) (p : uproc) : uproc :=
  if is_child i p then {| up_code := up_code p; up_fds := up_fds p; up_parent := None |} else p.
Definition do_exit (i : nat) (st : Z) (p : uproc) (w : world) : world :=
  set_procs (<[i := {| up_code := Zombie st; up_fds := ∅; up_parent := up_parent p |}]> (orphan i <$> w_procs w)) w.

(** [fork]: the child has the descriptors of its parent. *)
Definition do_fork (i : nat) (p : uproc) (k : Z -> proc Empty_set) (w : world) : world :=
  set_procs (<[i := {| up_code := Live (k (pid (length (w_procs w)))); up_fds := up_fds p; up_parent := up_parent p |}]> (w_procs w)
    ++ [{| up_code := Live (k 0); up_fds := up_fds p; up_parent := Some i |}]) w.

Definition do_call {X} (c : call X) (i : nat) (p : uproc) (k : X -> proc Empty_set) (w : world) : next :=
  match kernel c i (up_fds p) w with
  | Got x t w' => Next (set_procs (<[i := {| up_code := Live (k x); up_fds := t; up_parent := up_parent p |}]> (w_procs w')) w')
  | Waits => Blocked
  | Unsaid => Outside
  end.

Definition step_code (i : nat) (p : uproc) (code : proc Empty_set) (w : world) : next :=
  match code with
  | Done e => match e with end
  | Exit st => Next (do_exit i st p w)
  | Stuck => Outside
  | Sys c k =>
      match c in call X return (X -> proc Empty_set) -> next with
      | Fork => fun k => Next (do_fork i p k w)
      | c => fun k => do_call c i p k w
      end k
  end.
Definition run_step (i : nat) (w : world) : next :=
  match w_procs w !! i with
  | Some p => match up_code p with Live code => step_code i p code w | _ => Blocked end
  | None => Blocked
  end.

Inductive must_end (Q : world -> Prop) (w : world) : Prop :=
| MustEnd :
    (forall i, run_step i w <> Outside) ->
    (forall i w', run_step i w = Next w' -> must_end Q w') ->
    ((forall i, run_step i w = Blocked) -> Q w) ->
    must_end Q w.
End World.

(** A process alone, with the console as its descriptors 0 to 2. *)
Definition alone (code : proc Empty_set) : world :=
  {| w_procs := [{| up_code := Live code; up_fds := {[0 := Given 0; 1 := Given 1; 2 := Given 2]}; up_parent := None |}]; w_pipes := []; w_out := [] |}.

(** The processes have exited with status 0. *)
Definition all_exited (w : world) : Prop := forall j p, w_procs w !! j = Some p -> up_code p = Zombie 0 \/ up_code p = Reaped.

(** ** Every schedule comes to an end *)

Abbreviation code := (proc Empty_set).

(** What is left after the first call. *)
Definition child (q p : code) : Prop := match p with Sys _ k => exists x, q = k x | _ => False end.

Lemma child_acc p : Acc child p.
Proof. induction p as [e|st| |X c k IH]; constructor; intros q Hq; [destruct Hq..|]. destruct Hq as [x ->]. apply IH. Qed.

(** A list with one program replaced by what is left of it, twice for [fork]. *)
Definition less (l' l : list code) : Prop :=
  exists x rest ys, l ≡ₚ x :: rest /\ l' ≡ₚ ys ++ rest /\ Forall (fun y => child y x) ys.

Lemma less_perm l l1 l2 : less l l1 -> l1 ≡ₚ l2 -> less l l2.
Proof. intros (x & rest & ys & H1 & H2 & H3) Hp. exists x, rest, ys. by rewrite <- Hp. Qed.

Lemma acc_perm l1 l2 : Acc less l1 -> l1 ≡ₚ l2 -> Acc less l2.
Proof. intros [H] Hp. constructor. intros l Hl. apply H. by eapply less_perm. Qed.

Lemma acc_cons p : Acc child p -> forall l, Acc less l -> Acc less (p :: l).
Proof.
  induction 1 as [p _ IHp]. induction 1 as [l Hl IHl]. constructor. intros l' (x & rest & ys & H1 & H2 & Hys).
  assert (Hx : x ∈ p :: l) by (rewrite H1; left). apply elem_of_cons in Hx as [->|Hx].
  - apply Permutation.Permutation_cons_inv in H1. apply (acc_perm (ys ++ l)); [|by rewrite H1].
    clear H2. induction Hys as [|y ys Hy _ IH]; [by constructor|]. by apply IHp.
  - apply elem_of_Permutation in Hx as [l1 Hx]. rewrite Hx in H1. rewrite Permutation_swap in H1. apply Permutation.Permutation_cons_inv in H1.
    apply (acc_perm (p :: ys ++ l1)).
    + apply IHl. exists x, l1, ys. done.
    + rewrite H2, <- H1. by rewrite Permutation_middle.
Qed.

Lemma less_acc l : Acc less l.
Proof.
  induction l as [|p l IH]; [|by apply acc_cons; [apply child_acc|]].
  constructor. intros l' (x & rest & ys & H & _). by apply Permutation_nil_cons in H.
Qed.

Definition code_of (p : uproc) : option code := match up_code p with Live c => Some c | _ => None end.
Definition codes (l : list uproc) : list code := omap code_of l.

Lemma codes_insert i p p' l :
  l !! i = Some p -> exists rest, codes l ≡ₚ option_list (code_of p) ++ rest /\ codes (<[i := p']> l) ≡ₚ option_list (code_of p') ++ rest.
Proof.
  intros Hi. exists (codes (take i l) ++ codes (drop (S i) l)).
  assert (forall q, codes (take i l ++ q :: drop (S i) l) ≡ₚ option_list (code_of q) ++ codes (take i l) ++ codes (drop (S i) l)) as H.
  { intros q. unfold codes. rewrite omap_app. cbn. destruct (code_of q); cbn; [|done]. by rewrite Permutation_middle. }
  split.
  - rewrite <- H. by rewrite (take_drop_middle l i p Hi).
  - rewrite <- H. rewrite insert_take_drop; [done|]. by eapply lookup_lt_Some.
Qed.

Lemma codes_same i p p' l : l !! i = Some p -> code_of p = code_of p' -> codes (<[i := p']> l) ≡ₚ codes l.
Proof. intros Hi E. destruct (codes_insert i p p' l Hi) as (rest & -> & ->). by rewrite E. Qed.

Lemma codes_orphan i l : codes (orphan i <$> l) = codes l.
Proof. unfold codes. induction l as [|p l IH]; cbn; [done|]. unfold code_of in *. rewrite IH. unfold orphan. by destruct (is_child i p). Qed.

Lemma find_zombie_some i l j0 j st :
  find_zombie i l j0 = Some (j, st) -> exists k p, j = (j0 + k)%nat /\ l !! k = Some p /\ zombie p = Some st /\ is_child i p = true.
Proof.
  revert j0. induction l as [|p l IH]; intros j0; cbn; [done|]. destruct (zombie p) as [st'|] eqn:Ez; [destruct (is_child i p) eqn:Ec|].
  - intros [= <- <-]. exists 0%nat, p. split_and!; [lia|done|done|done].
  - intros (k & q & -> & ?)%IH. exists (S k), q. split; [lia|done].
  - intros (k & q & -> & ?)%IH. exists (S k), q. split; [lia|done].
Qed.

Section Ends.
Context (pid : nat -> Z).

(** A call changes no program but the caller's. *)
Lemma kernel_codes {X} (c : call X) i t w x t' w' j p :
  kernel pid c i t w = Got x t' w' -> w_procs w !! j = Some p -> code_of p <> None ->
  codes (w_procs w') ≡ₚ codes (w_procs w) /\ w_procs w' !! j = Some p.
Proof.
  intros E Hj Hp.
  assert (w_procs w' = w_procs w \/ exists z st, find_zombie i (w_procs w) 0 = Some (z, st) /\ w_procs w' = <[z := reaped]> (w_procs w)) as H.
  { destruct c; cbn [kernel] in E; try done; repeat case_match; simplify_eq/=; eauto. }
  destruct H as [->|(z & st & Hz & ->)]; [done|].
  destruct (find_zombie_some _ _ _ _ _ Hz) as (k & q & -> & Hk & Hq & _). unfold zombie in Hq. cbn.
  assert (code_of q = None) as Eq by (unfold code_of; by destruct (up_code q)).
  split; [by apply (codes_same _ q)|]. rewrite list_lookup_insert_ne; [done|]. intros ->. congruence.
Qed.

Lemma less_insert i p p' c l l' :
  l !! i = Some p -> code_of p = Some c -> Forall (fun y => child y c) (option_list (code_of p') ++ l') ->
  less (codes (<[i := p']> l) ++ l') (codes l).
Proof.
  intros Hi Ep Hc. destruct (codes_insert i p p' l Hi) as (rest & E1 & E2). rewrite Ep in E1.
  exists c, rest, (option_list (code_of p') ++ l'). split_and!; [done| |done]. rewrite E2, <- !app_assoc. by rewrite (Permutation_app_comm rest).
Qed.

Lemma step_less i w w' : run_step pid i w = Next w' -> less (codes (w_procs w')) (codes (w_procs w)).
Proof.
  unfold run_step. destruct (w_procs w !! i) as [p|] eqn:Hi; [|done]. destruct (up_code p) as [c| |] eqn:Ep; [|done..].
  assert (Ec : code_of p = Some c) by (unfold code_of; by rewrite Ep). intros E.
  destruct c as [e|st| |X c k]; [destruct e| |done|].
  - cbn in E. injection E as <-. cbn. rewrite <- (codes_orphan i (w_procs w)), <- (app_nil_r (codes (<[i := _]> _))).
    eapply (less_insert i (orphan i p)); [by rewrite list_lookup_fmap, Hi| |done].
    unfold orphan. destruct (is_child i p); [exact Ec|exact Ec].
  - assert ((exists k' : Z -> code, Forall (fun y => child y (Sys c k)) [k' (pid (length (w_procs w))); k' 0] /\ w' = do_fork pid i p k' w) \/ do_call pid c i p k w = Next w') as H.
    { destruct c; cbn [step_code] in E; auto. left. exists k. split; [|by injection E].
      repeat apply List.Forall_cons; [by eexists|by eexists|constructor]. }
    destruct H as [(k' & Hk & ->)|H].
    + cbn. unfold codes at 1. rewrite omap_app. cbn. fold (codes (<[i := UProc (Live (k' (pid (length (w_procs w))))) (up_fds p) (up_parent p)]> (w_procs w))).
      by eapply less_insert.
    + unfold do_call in H. destruct (kernel pid c i (up_fds p) w) as [x t w1| |] eqn:Ek; [|done..]. injection H as <-. cbn.
      destruct (kernel_codes _ _ _ _ _ _ _ i p Ek Hi ltac:(congruence)) as [E1 H1].
      apply (less_perm _ (codes (w_procs w1))); [|done]. rewrite <- (app_nil_r (codes (<[i := _]> _))).
      eapply less_insert; [done|exact Ec|]. cbn. repeat constructor. by eexists.
Qed.

(** An invariant under which no process leaves the model holds at the end. *)
Lemma must_end_inv (I Q : world -> Prop) :
  (forall w i, I w -> run_step pid i w <> Outside) ->
  (forall w i w', I w -> run_step pid i w = Next w' -> I w') ->
  (forall w, I w -> (forall i, run_step pid i w = Blocked) -> Q w) ->
  forall w, I w -> must_end pid Q w.
Proof.
  intros Ho Hs Hq w. remember (codes (w_procs w)) as l eqn:El. revert w El.
  induction (less_acc l) as [l _ IH]. intros w -> Hw. constructor; [by intros i; apply Ho| |by apply Hq].
  intros i w' E. eapply IH; [by apply (step_less i)|done|by eapply Hs].
Qed.
End Ends.
