(* ===== verification/Primes.v ===== *)
(** user/primes.c: the prime sieve of communicating processes.

    [n] is kept as the four bytes of the variable: [read] may fill only some of them.
    [junk] and [jpipe] are what [n] and an array of descriptors hold before they are
    set.  [fuel] bounds the depth of the recursion of [primes] and the turns of its
    loop; it is chosen by [main], and running out of it is [Stuck].  The second half of
    the file is the invariant of the running sieve. *)

From S2P Require Import Prelude Riscv Mem Sync Kalloc Vm Pipe Digits Ulib Uprintf Uproc Unet.

Definition int_of (n : list Z) : Z := s32 (le_value n).

(** [read(fd, &n, 4)]: the reply, and [n] afterwards. *)
Definition read_int (fd : Z) (n : list Z) : proc (Z * list Z) :=
  do! x <- sys (Read fd 4) in Done (x.1, x.2 ++ drop (length x.2) n).

(** [printf("prime %d\n", prime)], a character at a time. *)
Definition prime_line (prime : Z) : list Z := chars "prime " ++ uprintint_chars prime 10 true ++ [10].

Section Primes.
Context (junk : list Z) (jpipe : Z * Z) (fuel : nat).

(** [while (read(left_pipe[0], &n, 4))] *)
Fixpoint sieve_loop (turns : nat) (left0 right1 prime : Z) (n : list Z) : proc unit :=
  match turns with
  | O => Stuck
  | S turns' =>
      do! x <- read_int left0 n in
      if x.1 =? 0 then Done tt
      else if Z.rem (int_of x.2) prime =? 0 then sieve_loop turns' left0 right1 prime x.2
      else call! Write right1 x.2 in sieve_loop turns' left0 right1 prime x.2
  end.

(** [primes(left_pipe)]; it ends in [exit]. *)
Fixpoint primes (depth : nat) (left0 left1 : Z) : proc Empty_set :=
  match depth with
  | O => Stuck
  | S depth' =>
      call! Close left1 in
      do! x <- read_int left0 junk in
      if x.1 =? 0 then call! Close left0 in Exit 0
      else
        do! p <- sys Pipe in
        let right := default jpipe p in
        let prime := int_of x.2 in
        do! _ <- fputs 1 (prime_line prime) in
        do! pid <- sys Fork in
        if pid =? 0 then primes depth' right.1 right.2
        else
          call! Close right.1 in
          do! _ <- sieve_loop fuel left0 right.2 prime x.2 in
          call! Close left0 in
          call! Close right.2 in
          call! Wait in
          Exit 0
  end.

(** [for (i = 2; i < 36; ++i) write(p[1], &i, 4)], with the numbers in a list. *)
Fixpoint feed (p1 : Z) (l : list Z) : proc unit :=
  match l with
  | [] => Done tt
  | i :: l' => call! Write p1 (le_bytes 4 i) in feed p1 l'
  end.

Definition primes_main (l : list Z) : proc Empty_set :=
  do! p <- sys Pipe in
  let p := default jpipe p in
  do! pid <- sys Fork in
  if pid =? 0 then primes fuel p.1 p.2
  else
    call! Close p.1 in
    do! _ <- feed p.2 l in
    call! Close p.2 in
    call! Wait in
    Exit 0.
End Primes.

(** The numbers [main] writes. *)
Definition candidates : list Z := seqZ 2 34.

(** * Where the processes of the sieve can be

    Process 0 runs [main] and process [j + 1] the [j]th call of [primes]; process [j]
    writes to pipe [j], which process [j + 1] reads.  [loc] says where a process is,
    and [inv a w] that the world [w] is the one in which process [j] is at [a !! j]. *)

(** ** The numbers that go through the pipes *)

(** What a stage lets through: the first number is its prime. *)
Definition through (p : Z) (l : list Z) : list Z := filter (fun x => Z.rem x p <> 0) l.
Definition sieve1 (l : list Z) : list Z := through (hd 0 l) (tail l).

(** The stream of the [k]th pipe. *)
Fixpoint stream (l : list Z) (k : nat) : list Z :=
  match k with
  | O => l
  | S k' => sieve1 (stream l k')
  end.

Lemma sieve1_length l : (length (sieve1 l) <= length l - 1)%nat.
Proof. unfold sieve1, through. rewrite length_filter. destruct l; cbn; lia. Qed.

Lemma stream_nil l j k : stream l j = [] -> (j <= k)%nat -> stream l k = [].
Proof. intros Hj. induction 1 as [|k _ IH]; [done|]. cbn. by rewrite IH. Qed.

Lemma stream_length l k : (length (stream l k) <= length l)%nat.
Proof. induction k as [|k IH]; cbn; [done|]. pose proof (sieve1_length (stream l k)). lia. Qed.

Lemma stream_lt l k : stream l k <> [] -> (k < length l)%nat.
Proof.
  assert (stream l k <> [] -> (length (stream l k) + k <= length l)%nat) as H; [|intros Hk; pose proof (H Hk); destruct (stream l k); cbn in *; [done|lia]].
  induction k as [|k IH]; cbn; [lia|]. intros Hk. pose proof (sieve1_length (stream l k)).
  assert (stream l k <> []) as Hn by (intros E; by rewrite E in Hk). specialize (IH Hn). destruct (stream l k); [done|]. cbn in *. lia.
Qed.

Lemma stream_all (P : Z -> Prop) l k : Forall P l -> Forall P (stream l k).
Proof.
  intros Hl. induction k as [|k IH]; cbn; [done|]. unfold sieve1, through. apply Forall_forall. intros x [_ Hx]%list_elem_of_filter.
  rewrite Forall_forall in IH. apply IH. destruct (stream l k); [by apply elem_of_nil in Hx|]. by right.
Qed.

(** ** Where a process is *)

Inductive loc :=
| LClose1                      (* close(left_pipe[1]) *)
| LRead1                       (* the first read *)
| LPipe                        (* pipe *)
| LPrint (rest : list Z)       (* these characters are still to be printed; then fork *)
| LClose0                      (* close(right_pipe[0]) *)
| LLoop (r : nat)              (* the loop, with [r] numbers read; in [main], written *)
| LPut (r : nat)               (* the write of the number read last *)
| LCloseL                      (* close(left_pipe[0]) *)
| LCloseR                      (* close(right_pipe[1]) *)
| LWait
| LExit
| LEof                         (* close(left_pipe[0]) when there is no number *)
| LEnd.

Section Inv.
Context (junk : list Z) (jpipe : Z * Z) (l : list Z).
Abbreviation fuel := (S (length l)).
Abbreviation z := Z.of_nat.
Abbreviation bytes := (le_bytes 4).

(** What process [j] reads, and its prime. *)
Definition input (j : nat) : list Z := stream l (pred j).
Definition prime_of (j : nat) : Z := hd 0 (input j).

(** What is left of [primes] and of [main]. *)
Definition finish : proc Empty_set := call! Wait in Exit 0.
Definition close_right (j : nat) : proc Empty_set := call! Close (4 + z j) in finish.
Definition close_both (j : nat) : proc Empty_set := call! Close (2 + z j) in close_right j.
Definition looping (j turns : nat) (prime : Z) (n : list Z) : proc Empty_set :=
  do! _ <- sieve_loop turns (2 + z j) (4 + z j) prime n in close_both j.
Definition feeding (r : nat) : proc Empty_set := do! _ <- feed 4 (drop r l) in close_right 0.
Definition forked_at (j : nat) (n : list Z) (right : Z * Z) (pid : Z) : proc Empty_set :=
  if pid =? 0 then primes junk jpipe fuel (fuel - j) right.1 right.2
  else
    call! Close right.1 in
    do! _ <- sieve_loop fuel (2 + z j) right.2 (int_of n) n in
    call! Close (2 + z j) in
    call! Close right.2 in
    finish.
Definition piped_at (j : nat) (n : list Z) (p : option (Z * Z)) : proc Empty_set :=
  do! _ <- fputs 1 (prime_line (int_of n)) in
  do! pid <- sys Fork in forked_at j n (default jpipe p) pid.
Definition read_at (j : nat) (x : Z * list Z) : proc Empty_set :=
  if x.1 =? 0 then call! Close (2 + z j) in Exit 0
  else do! p <- sys Pipe in piped_at j x.2 p.
Definition main_forked (p : Z * Z) (pid : Z) : proc Empty_set :=
  if pid =? 0 then primes junk jpipe fuel fuel p.1 p.2
  else
    call! Close p.1 in
    do! _ <- feed p.2 l in
    call! Close p.2 in
    finish.

Definition code_at (j : nat) (x : loc) : proc Empty_set :=
  let n := bytes (prime_of j) in
  match x with
  | LClose1 => primes junk jpipe fuel (fuel - pred j) (2 + z j) (3 + z j)
  | LRead1 => do! x <- read_int (2 + z j) junk in read_at j x
  | LPipe => match j with O => primes_main junk jpipe fuel l | _ => do! p <- sys Pipe in piped_at j n p end
  | LPrint rest =>
      do! _ <- fputs 1 rest in
      do! pid <- sys Fork in
      match j with O => main_forked (3, 4) pid | _ => forked_at j n (3 + z j, 4 + z j) pid end
  | LClose0 => call! Close (3 + z j) in match j with O => feeding 0 | _ => looping j fuel (prime_of j) n end
  | LLoop r => match j with O => feeding r | _ => looping j (fuel - pred r) (prime_of j) (bytes (input j !!! pred r)) end
  | LPut r =>
      call! Write (4 + z j) (bytes (input j !!! pred r)) in
      looping j (fuel - pred r) (prime_of j) (bytes (input j !!! pred r))
  | LCloseL => close_both j
  | LCloseR => close_right j
  | LWait => finish
  | LExit | LEnd => Exit 0
  | LEof => call! Close (2 + z j) in Exit 0
  end.

(** The descriptors: a process inherits the reading ends of all pipes before its own. *)
Fixpoint base (n : nat) : fds :=
  match n with
  | O => {[0 := Given 0; 1 := Given 1; 2 := Given 2]}
  | S n' => <[3 + z n' := PipeR n']> (base n')
  end.
Definition table (j : nat) (x : loc) : fds :=
  match x with
  | LClose1 => <[3 + z j := PipeW (pred j)]> (base j)
  | LRead1 | LPipe | LEof => base j
  | LPrint _ | LClose0 => <[4 + z j := PipeW j]> (base (S j))
  | LLoop _ | LPut _ | LCloseL => <[4 + z j := PipeW j]> (base j)
  | LCloseR => <[4 + z j := PipeW j]> (base (pred j))
  | LWait | LExit => base (pred j)
  | LEnd => ∅
  end.

(** How many numbers it has read, and which it has written. *)
Definition got (j : nat) (x : loc) : nat :=
  match x with
  | LClose1 | LRead1 => 0
  | LPipe | LPrint _ | LClose0 => 1
  | LLoop r | LPut r => r
  | _ => length (input j)
  end.
Definition sent (j : nat) (x : loc) : list Z :=
  match x with
  | LLoop r => match j with O => take r l | _ => through (prime_of j) (take (pred r) (tail (input j))) end
  | LPut r => through (prime_of j) (take (pred (pred r)) (tail (input j)))
  | LCloseL | LCloseR | LWait | LExit | LEnd => stream l j
  | _ => []
  end.

(** Whether it has made a child; the last stage never does. *)
Definition has_child (j : nat) (x : loc) : bool :=
  match x with
  | LClose0 | LLoop _ | LPut _ | LCloseL | LCloseR | LWait => true
  | LExit | LEnd => bool_decide (j = 0%nat \/ input j <> [])
  | _ => false
  end.
Definition has_pipe (j : nat) (x : loc) : bool := match x with LPrint _ => true | _ => has_child j x end.

(** It has closed the pipe it writes to; it has seen the end of the one it reads. *)
Definition closed (x : loc) : Prop := match x with LWait | LExit | LEnd => True | _ => False end.
Definition at_eof (x : loc) : Prop := match x with LCloseL | LCloseR | LWait | LExit | LEof | LEnd => True | _ => False end.
Definition over (x : loc) : Prop := match x with LExit | LEnd => True | _ => False end.

Definition loc_ok (j : nat) (x : loc) : Prop :=
  (pred j <= length l)%nat /\
  match x with
  | LClose1 | LRead1 => (0 < j)%nat
  | LPipe | LClose0 | LWait => j = 0%nat \/ input j <> []
  | LPrint rest => (j = 0%nat /\ rest = []) \/ ((0 < j)%nat /\ input j <> [])
  | LLoop r => (j = 0%nat /\ (r <= length l)%nat) \/ ((0 < j)%nat /\ (0 < r <= length (input j))%nat)
  | LPut r => (0 < j)%nat /\ (1 < r <= length (input j))%nat /\ Z.rem (input j !!! pred r) (prime_of j) <> 0
  | LCloseL | LCloseR => (0 < j)%nat /\ input j <> []
  | LEof => (0 < j)%nat /\ input j = []
  | LExit | LEnd => True
  end.

(** A process and the next. *)
Definition link (j : nat) (x y : loc) : Prop :=
  (got (S j) y <= length (sent j x))%nat /\ (at_eof y -> closed x) /\ (over x -> y = LEnd).

Record wf (a : list loc) : Prop := {
  wf_loc : forall j x, a !! j = Some x -> loc_ok j x;
  wf_child : forall j x, a !! j = Some x -> has_child j x = true <-> is_Some (a !! S j);
  wf_link : forall j x y, a !! j = Some x -> a !! S j = Some y -> link j x y }.

(** ** The world *)

Definition parent_of (j : nat) : option nat := match j with O => None | S i => Some i end.
Definition live (j : nat) (x : loc) : uproc := {| up_code := Live (code_at j x); up_fds := table j x; up_parent := parent_of j |}.
(** Its parent has waited for it. *)
Definition waited (a : list loc) (j : nat) : bool :=
  match j with
  | O => false
  | S i => match a !! i with Some LExit | Some LEnd => true | _ => false end
  end.
Definition proc_at (a : list loc) (j : nat) : option uproc :=
  match a !! j with
  | None => None
  | Some LEnd => Some (if waited a j then reaped else {| up_code := Zombie 0; up_fds := ∅; up_parent := parent_of j |})
  | Some x => Some (live j x)
  end.
Definition pipe_at (a : list loc) (j : nat) : option (list Z) :=
  match a !! j with
  | Some x =>
      if has_pipe j x then Some (concat (bytes <$> drop (match a !! S j with Some y => got (S j) y | None => 0%nat end) (sent j x))) else None
  | None => None
  end.

(** What is still to be printed. *)
Definition line_at (k : nat) : list Z := match stream l k with [] => [] | p :: _ => prime_line p end.
Definition lines (k : nat) : list Z := concat (line_at <$> seq k (12 - k)).
Definition to_print (j : nat) (x : loc) : list Z :=
  match x with
  | LClose1 | LRead1 | LPipe | LEof => lines (pred j)
  | LPrint rest => rest ++ lines j
  | _ => lines j
  end.
Definition todo (a : list loc) : list Z :=
  match a !! pred (length a) with Some x => to_print (pred (length a)) x | None => [] end.

Record inv (a : list loc) (w : world) : Prop := {
  inv_wf : wf a;
  inv_procs : forall j, w_procs w !! j = proc_at a j;
  inv_pipes : forall j, w_pipes w !! j = pipe_at a j;
  inv_out : w_out w ++ todo a = lines 0 }.
End Inv.
