(* ===== verification/PrimesStep.v ===== *)
(** user/primes.c: one step of one process keeps the invariant of [Primes]. *)

From S2P Require Import Prelude Riscv Mem Sync Kalloc Vm Pipe Digits Ulib Uprintf Uproc Unet Primes.

Abbreviation z := Z.of_nat.
Abbreviation bytes := (le_bytes 4).

(** ** Descriptors *)

Lemma base_lookup n fd :
  base n !! fd = if decide (0 <= fd < 3) then Some (Given fd) else if decide (3 <= fd < 3 + z n) then Some (PipeR (Z.to_nat (fd - 3))) else None.
Proof.
  induction n as [|n IH]; cbn [base].
  - repeat case_decide; try lia.
    + assert (fd = 0 \/ fd = 1 \/ fd = 2) as [->|[->| ->]] by lia; done.
    + rewrite !lookup_insert_ne by lia. apply lookup_singleton_ne. lia.
  - destruct (decide (fd = 3 + z n)) as [->|n0].
    + rewrite lookup_insert_eq. repeat case_decide; try lia. do 2 f_equal. lia.
    + rewrite lookup_insert_ne, IH by lia. repeat case_decide; try lia; done.
Qed.

Lemma base_none n fd : 3 + z n <= fd -> base n !! fd = None.
Proof. intros H. rewrite base_lookup. repeat case_decide; try lia; done. Qed.

Lemma base_given n fd : 0 <= fd < 3 -> base n !! fd = Some (Given fd).
Proof. intros H. rewrite base_lookup. by rewrite decide_True. Qed.

Lemma base_pipe n k : (k < n)%nat -> base n !! (3 + z k) = Some (PipeR k).
Proof. intros H. rewrite base_lookup. repeat case_decide; try lia. do 2 f_equal. lia. Qed.

Lemma lowest_spec n t k fd :
  (forall i, fd <= i < fd + z k -> t !! i <> None) -> t !! (fd + z k) = None -> (k < n)%nat -> lowest n t fd = Some (fd + z k).
Proof.
  revert fd k. induction n as [|n IH]; intros fd k Hi Hk Hn; [lia|]. cbn [lowest]. destruct k as [|k].
  - rewrite Z.add_0_r in *. by rewrite Hk.
  - destruct (t !! fd) eqn:E; [|exfalso; apply (Hi fd); [lia|done]].
    rewrite (IH (fd + 1) k); [f_equal; lia| |by replace (fd + 1 + z k) with (fd + z (S k)) by lia|lia].
    intros i Hi'. apply Hi. lia.
Qed.

Lemma base_full n i : 0 <= i < 3 + z n -> base n !! i <> None.
Proof. intros H. rewrite base_lookup. repeat case_decide; try lia; done. Qed.

Lemma fdalloc_base n : (n < 13)%nat -> fdalloc (base n) = Some (3 + z n).
Proof.
  intros Hn. unfold fdalloc. rewrite (lowest_spec _ _ (3 + n)); [f_equal; lia| | |unfold NOFILE; lia].
  - intros i Hi. apply base_full. lia.
  - apply base_none. lia.
Qed.

(** [pipe] in a process that has [base n]. *)
Lemma pipe_call n m :
  (n < 12)%nat -> fd_call (fun _ _ => false) no_reply Pipe (base n) m = (Some (3 + z n, 4 + z n), <[4 + z n := PipeW m]> (<[3 + z n := PipeR m]> (base n)), S m).
Proof.
  intros Hn. cbn [fd_call]. rewrite fdalloc_base by lia.
  assert (fdalloc (<[3 + z n := PipeR m]> (base n)) = Some (4 + z n)) as ->; [|done].
  unfold fdalloc. rewrite (lowest_spec _ _ (4 + n)); [f_equal; lia| | |unfold NOFILE; lia].
  - intros i Hi. destruct (decide (i = 3 + z n)) as [->|]; [by rewrite lookup_insert_eq|]. rewrite lookup_insert_ne by done. apply base_full. lia.
  - rewrite lookup_insert_ne by lia. apply base_none. lia.
Qed.

Lemma holds_spec o p : holds o p = true <-> exists fd, up_fds p !! fd = Some o.
Proof.
  unfold holds. rewrite existsb_exists. split.
  - intros ([fd x] & Hin & Hx%bool_decide_eq_true). cbn in Hx. subst x. exists fd. apply elem_of_map_to_list. by apply list_elem_of_In.
  - intros [fd H]. exists (fd, o). split; [|by apply bool_decide_eq_true]. by apply list_elem_of_In, elem_of_map_to_list.
Qed.

Lemma open_end_spec o w : open_end o w = true <-> exists j p fd, w_procs w !! j = Some p /\ up_fds p !! fd = Some o.
Proof.
  unfold open_end. rewrite existsb_exists. split.
  - intros (p & Hin & [fd Hfd]%holds_spec). apply list_elem_of_In, list_elem_of_lookup in Hin as [j Hj]. by exists j, p, fd.
  - intros (j & p & fd & Hj & Hfd). exists p. split; [|apply holds_spec; by exists fd]. apply list_elem_of_In, list_elem_of_lookup. by exists j.
Qed.

Section Step.
Context (junk : list Z) (jpipe : Z * Z) (l : list Z).
Abbreviation fuel := (S (length l)).
Abbreviation wf := (wf l).
Abbreviation inv := (inv junk jpipe l).
Abbreviation live := (live junk jpipe l).
Abbreviation code_at := (code_at junk jpipe l).
Abbreviation input := (input l).
Abbreviation prime_of := (prime_of l).
Abbreviation sent := (sent l).
Abbreviation got := (got l).
Abbreviation pipe_at := (pipe_at l).
Abbreviation proc_at := (proc_at junk jpipe l).
Abbreviation has_child := (has_child l).
Abbreviation has_pipe := (has_pipe l).
Abbreviation loc_ok := (loc_ok l).
Abbreviation link := (link l).
Abbreviation lines := (lines l).
Abbreviation to_print := (to_print l).
Abbreviation todo := (todo l).

(** ** A process that moves *)

Lemma at_set (a : list loc) j x y i : a !! j = Some x -> <[j := y]> a !! i = if decide (i = j) then Some y else a !! i.
Proof.
  intros Hj. case_decide as E; [subst; apply list_lookup_insert_eq; by eapply lookup_lt_Some|by apply list_lookup_insert_ne].
Qed.

Lemma wf_set a j x y :
  wf a -> a !! j = Some x -> loc_ok j y -> has_child j y = has_child j x ->
  (forall i u, j = S i -> a !! i = Some u -> link i u y) -> (forall v, a !! S j = Some v -> link j y v) ->
  wf (<[j := y]> a).
Proof.
  intros Hw Hj Hy Hc Hl Hr. pose proof (at_set a j x y) as E. split.
  - intros i u. rewrite E by done. case_decide; [intros [= <-]; by subst|by apply Hw].
  - intros i u. rewrite !E by done. case_decide as E1.
    + intros [= <-]. subst. rewrite decide_False by lia. rewrite Hc. by apply Hw.
    + intros Hi. rewrite (wf_child _ _ Hw i u Hi). case_decide as E2; [|done]. rewrite <- E2 in Hj. by rewrite Hj, !is_Some_alt.
  - intros i u v. rewrite !E by done. case_decide as E1; case_decide as E2; try lia.
    + intros [= <-] Hv. subst. by apply Hr.
    + intros Hu [= <-]. eapply Hl; [done|exact Hu].
    + by apply Hw.
Qed.

Lemma proc_set a j x y i :
  a !! j = Some x -> ~ over x -> y <> LEnd -> (over y -> a !! S j = None) ->
  proc_at (<[j := y]> a) i = if decide (i = j) then Some (live j y) else proc_at a i.
Proof.
  intros Hj Hx Hy Ho. unfold Primes.proc_at at 1. rewrite (at_set a j x) by done. case_decide as E.
  - subst. by destruct y.
  - unfold Primes.proc_at. destruct (a !! i) as [u|] eqn:Hi; [|done]. destruct u; try done.
    assert (waited (<[j := y]> a) i = waited a i) as ->; [|done].
    destruct i as [|i]; [done|]. cbn. rewrite (at_set a j x) by done. case_decide as E1; [|done]. subst. rewrite Hj.
    destruct x, y; try done; exfalso; naive_solver.
Qed.

Lemma pipe_set a j x y i :
  a !! j = Some x -> has_pipe j y = has_pipe j x -> (i = j -> sent j y = sent j x) -> (S i = j -> got j y = got j x) ->
  pipe_at (<[j := y]> a) i = pipe_at a i.
Proof.
  intros Hj Hp Hs Hg. unfold Primes.pipe_at. rewrite !(at_set a j x) by done. case_decide as E1.
  - subst. rewrite decide_False, Hj, Hp, Hs by (done || lia). done.
  - case_decide as E2; [|done]. destruct (a !! i); [|done]. rewrite E2, Hj, Hg by done. done.
Qed.

Lemma todo_keep a j y : is_Some (a !! S j) -> todo (<[j := y]> a) = todo a.
Proof.
  intros Hc%lookup_lt_is_Some_1. unfold Primes.todo. rewrite length_insert, list_lookup_insert_ne by lia. done.
Qed.

Lemma todo_last a j x y : a !! j = Some x -> a !! S j = None -> todo (<[j := y]> a) = to_print j y.
Proof.
  intros Hj Hc%lookup_ge_None_1. pose proof (lookup_lt_Some _ _ _ Hj). unfold Primes.todo. rewrite length_insert.
  replace (pred (length a)) with j by lia. by rewrite list_lookup_insert_eq.
Qed.

Lemma todo_here a j x : a !! j = Some x -> a !! S j = None -> todo a = to_print j x.
Proof. intros Hj Hc. rewrite <- (todo_last a j x x) by done. by rewrite list_insert_id. Qed.

(** What a move of process [j] from [x] to [y] has to satisfy. *)
Record move (a : list loc) (j : nat) (x y : loc) : Prop := {
  mv_at : a !! j = Some x;
  mv_live : ~ over x;
  mv_not_end : y <> LEnd;
  mv_over : over y -> a !! S j = None;
  mv_ok : loc_ok j y;
  mv_child : has_child j y = has_child j x;
  mv_left : forall i u, j = S i -> a !! i = Some u -> link i u y;
  mv_right : forall v, a !! S j = Some v -> link j y v }.

Lemma inv_move a w j x y pipes out :
  inv a w -> move a j x y -> (forall i, pipes !! i = pipe_at (<[j := y]> a) i) -> out ++ todo (<[j := y]> a) = lines 0 ->
  inv (<[j := y]> a) {| w_procs := <[j := live j y]> (w_procs w); w_pipes := pipes; w_out := out |}.
Proof.
  intros I [Ha Hx Hy Ho Hok Hc Hl Hr] Hp Hout. split; [| |exact Hp|exact Hout].
  - eapply wf_set; try done. apply I.
  - intros i. cbn. rewrite (proc_set a j x y) by done.
    assert (j < length (w_procs w))%nat.
    { apply lookup_lt_is_Some_1. rewrite (inv_procs _ _ _ _ _ I). unfold Primes.proc_at. rewrite Ha. by destruct x. }
    case_decide as E; [subst; by apply list_lookup_insert_eq|]. rewrite list_lookup_insert_ne by done. apply I.
Qed.

(** A move that reads, writes and prints nothing. *)
Lemma inv_silent a w j x y :
  inv a w -> move a j x y -> has_pipe j y = has_pipe j x -> sent j y = sent j x -> ((0 < j)%nat -> got j y = got j x) ->
  (a !! S j = None -> to_print j y = to_print j x) ->
  inv (<[j := y]> a) {| w_procs := <[j := live j y]> (w_procs w); w_pipes := w_pipes w; w_out := w_out w |}.
Proof.
  intros I Hm Hp Hs Hg Ht. pose proof (mv_at _ _ _ _ Hm) as Ha. apply (inv_move a w j x y); [done|done| |].
  - intros i. rewrite (pipe_set a j x y); [apply I|done|done|done|]. intros <-. apply Hg. lia.
  - destruct (a !! S j) eqn:Ec; [rewrite todo_keep by done; apply I|].
    rewrite (todo_last a j x y) by done. rewrite Ht by done. rewrite <- (todo_here a j x) by done. apply I.
Qed.

Lemma lines_nil k : stream l k = [] -> lines k = [].
Proof.
  intros Hk. unfold Primes.lines. generalize (12 - k)%nat. intros n. assert (forall i, (k <= i)%nat -> concat (line_at l <$> seq i n) = []) as H; [|by apply H].
  induction n as [|n IH]; intros i Hi; [done|]. cbn. rewrite IH by lia. unfold line_at. by rewrite (stream_nil l k) by done.
Qed.

Lemma input_next j : input j = [] -> stream l j = [].
Proof. intros E. apply (stream_nil l (pred j)); [done|lia]. Qed.

(** ** The steps *)

Context (pid : nat -> Z) (Hpid : forall i, pid i <> 0) (Hjunk : length junk = 4%nat)
  (Hrange : Forall (fun x => - 2 ^ 31 <= x < 2 ^ 31) l) (Hlen : (length l <= 128)%nat) (Hstages : stream l 11 = []).

(** Where a process may be held up. *)
Definition held_up (a : list loc) (j : nat) (x : loc) : Prop :=
  match x with
  | LEnd => True
  | LWait => a !! S j <> Some LEnd
  | LRead1 | LLoop _ => exists i u, j = S i /\ a !! i = Some u /\ ~ closed u
  | _ => False
  end.
Definition good (a : list loc) (w : world) (j : nat) (x : loc) : Prop :=
  match run_step pid j w with
  | Next w' => exists a', inv a' w'
  | Blocked => held_up a j x
  | Outside => False
  end.

Lemma run_at a w j x : inv a w -> a !! j = Some x -> x <> LEnd -> run_step pid j w = step_code pid j (live j x) (code_at j x) w.
Proof.
  intros I Hj Hx. unfold run_step. rewrite (inv_procs _ _ _ _ _ I). unfold Primes.proc_at. rewrite Hj. by destruct x.
Qed.

Lemma input_small j : input j <> [] -> (j < 12)%nat.
Proof. intros H. destruct (decide (j < 12)%nat); [done|]. destruct H. apply (stream_nil l 11); [done|lia]. Qed.

Lemma int_bytes j i x : input j !! i = Some x -> int_of (bytes x) = x.
Proof.
  intros Hi. assert (- 2 ^ 31 <= x < 2 ^ 31) as Hx.
  { pose proof (stream_all _ l (pred j) Hrange) as H. rewrite Forall_lookup in H. by apply (H i). }
  unfold int_of. rewrite le_value_bytes. by apply s32_u32.
Qed.

Lemma move_done {a w j x c k y t w'} :
  inv a w -> a !! j = Some x -> x <> LEnd -> code_at j x = c ->
  step_code pid j (live j x) c w = Next (set_procs (<[j := {| up_code := Live k; up_fds := t; up_parent := parent_of j |}]> (w_procs w)) w') ->
  k = code_at j y -> t = table j y ->
  inv (<[j := y]> a) {| w_procs := <[j := live j y]> (w_procs w); w_pipes := w_pipes w'; w_out := w_out w' |} ->
  good a w j x.
Proof. intros I Hj Hx <- E -> -> H. unfold good. rewrite (run_at a w j x), E by done. by eexists. Qed.

(** [close] *)
Lemma close_good a w j x y fd o k :
  inv a w -> move a j x y -> code_at j x = (call! Close fd in k) -> k = code_at j y ->
  table j x !! fd = Some o -> delete fd (table j x) = table j y ->
  has_pipe j y = has_pipe j x -> sent j y = sent j x -> ((0 < j)%nat -> got j y = got j x) -> (a !! S j = None -> to_print j y = to_print j x) ->
  good a w j x.
Proof.
  intros I Hm Hc Hk Hfd Ht Hp Hs Hg Hpr. assert (x <> LEnd) by (intros ->; by destruct (mv_live _ _ _ _ Hm)).
  eapply move_done; [done|apply Hm|done|exact Hc| |exact Hk|exact Ht|by eapply inv_silent].
  cbn [step_code pbind sys]. unfold do_call. cbn [kernel fd_call Primes.live up_fds]. rewrite Hfd. by rewrite bool_decide_false.
Qed.

Lemma no_child a j x : wf a -> a !! j = Some x -> has_child j x = false -> a !! S j = None.
Proof. intros Hw Hj Hc. pose proof (wf_child _ _ Hw j x Hj) as H. destruct (a !! S j); [|done]. rewrite Hc in H. destruct H as [_ H]. discriminate H. done. Qed.

(** A move keeps the link from the process before if it reads nothing and sees no end. *)
Lemma link_left a i u x y :
  wf a -> a !! i = Some u -> a !! S i = Some x -> x <> LEnd -> got (S i) y = got (S i) x -> (at_eof y -> at_eof x) -> link i u y.
Proof.
  intros Hw Hu Hx Hn Hg He. destruct (wf_link _ _ Hw i u _ Hu Hx) as (H1 & H2 & H3). split_and!; [lia|auto|]. intros Ho. by destruct (Hn (H3 Ho)).
Qed.
(** ... and the link to the next if it writes nothing. *)
Lemma link_right a j x y v :
  wf a -> a !! j = Some x -> a !! S j = Some v -> sent j y = sent j x -> (closed x -> closed y) -> (over y -> over x) -> link j y v.
Proof.
  intros Hw Hx Hv Hs Hc Ho. destruct (wf_link _ _ Hw j _ v Hx Hv) as (H1 & H2 & H3). split_and!; [by rewrite Hs|auto|auto].
Qed.

Ltac start_move Hw Ha :=
  let H := fresh in
  apply Build_move; [exact Ha|try (by intros [])|done|try (by intros [])| |try done|
    try (by intros ? ? [=]);
    try (by intros ? ? -> H; eapply (link_left _ _ _ _ _ Hw H Ha); try done; intros [])|
    try (by intros ? H; rewrite (no_child _ _ _ Hw Ha) in H by done);
    try (by intros ? H; eapply (link_right _ _ _ _ _ Hw Ha H); try done; intros [])].

Lemma step_LClose1 a w j : inv a w -> a !! j = Some LClose1 -> good a w j LClose1.
Proof.
  intros I Ha. pose proof (inv_wf _ _ _ _ _ I) as Hw. destruct (wf_loc _ _ Hw j _ Ha) as [Hd Hj]. cbn in Hj.
  apply (close_good a w j LClose1 LRead1 (3 + z j) (PipeW (pred j)) (code_at j LRead1)); try done.
  - start_move Hw Ha. done.
  - unfold Primes.code_at. destruct (fuel - pred j)%nat as [|d] eqn:Ed; [lia|].
    unfold read_at, piped_at, forked_at. replace (fuel - j)%nat with d by lia. reflexivity.
  - apply lookup_insert_eq.
  - cbn [table]. rewrite delete_insert_id; [done|]. apply base_none. lia.
Qed.

Lemma base_pred j : (0 < j)%nat -> base j = <[2 + z j := PipeR (pred j)]> (base (pred j)).
Proof. destruct j as [|j]; [lia|]. intros _. cbn [base pred]. f_equal. lia. Qed.

Lemma prime_first j : input j <> [] -> input j !!! 0%nat = prime_of j.
Proof. unfold Primes.prime_of. by destruct (input j). Qed.

Lemma step_LClose0 a w j : inv a w -> a !! j = Some LClose0 -> good a w j LClose0.
Proof.
  intros I Ha. pose proof (inv_wf _ _ _ _ _ I) as Hw. destruct (wf_loc _ _ Hw j _ Ha) as [Hd Hj]. cbn in Hj.
  apply (close_good a w j LClose0 (LLoop (if decide (j = 0%nat) then 0 else 1)) (3 + z j) (PipeR j) (match j with O => feeding l 0 | _ => looping j fuel (prime_of j) (bytes (prime_of j)) end)).
  - done.
  - start_move Hw Ha.
    + split; [done|]. cbn. case_decide; [left; split; [done|lia]|right]. destruct Hj as [|Hj]; [done|]. split; [lia|]. destruct (input j); [done|cbn; lia].
    + intros v Hv. eapply (link_right _ _ _ _ _ Hw Ha Hv); [by destruct j|done|done].
  - done.
  - destruct j as [|j]; [done|]. change (LLoop (if decide (S j = 0%nat) then 0 else 1)) with (LLoop 1). unfold Primes.code_at.
    cbn [pred]. rewrite Nat.sub_0_r, prime_first; [done|by destruct Hj].
  - cbn [table base]. rewrite lookup_insert_ne by lia. apply lookup_insert_eq.
  - cbn [table base]. rewrite delete_insert_ne by lia. rewrite delete_insert_id; [done|]. apply base_none. lia.
  - done.
  - by destruct j.
  - intros Hj0. destruct j; [lia|done].
  - done.
Qed.

Lemma step_LCloseL a w j : inv a w -> a !! j = Some LCloseL -> good a w j LCloseL.
Proof.
  intros I Ha. pose proof (inv_wf _ _ _ _ _ I) as Hw. destruct (wf_loc _ _ Hw j _ Ha) as [Hd [Hj Hn]].
  apply (close_good a w j LCloseL LCloseR (2 + z j) (PipeR (pred j)) (close_right j)); try done.
  - start_move Hw Ha. done.
  - cbn [table]. rewrite lookup_insert_ne by lia. rewrite base_pred by done. apply lookup_insert_eq.
  - cbn [table]. rewrite delete_insert_ne by lia. rewrite (base_pred j) by done. rewrite delete_insert_id; [done|]. apply base_none. lia.
Qed.

Lemma step_LCloseR a w j : inv a w -> a !! j = Some LCloseR -> good a w j LCloseR.
Proof.
  intros I Ha. pose proof (inv_wf _ _ _ _ _ I) as Hw. destruct (wf_loc _ _ Hw j _ Ha) as [Hd [Hj Hn]].
  apply (close_good a w j LCloseR LWait (4 + z j) (PipeW j) finish); try done.
  - start_move Hw Ha. split; [done|]. by right.
  - apply lookup_insert_eq.
  - cbn [table]. rewrite delete_insert_id; [done|]. apply base_none. lia.
Qed.

Lemma step_LEof a w j : inv a w -> a !! j = Some LEof -> good a w j LEof.
Proof.
  intros I Ha. pose proof (inv_wf _ _ _ _ _ I) as Hw. destruct (wf_loc _ _ Hw j _ Ha) as [Hd [Hj Hn]].
  assert (has_child j LExit = false) as Hc by (cbn; apply bool_decide_false; intros [?|?]; [lia|done]).
  apply (close_good a w j LEof LExit (2 + z j) (PipeR (pred j)) (Exit 0)); try done.
  - start_move Hw Ha; [by intros _; apply (no_child a j LEof)|by split].
  - cbn [table]. rewrite base_pred by done. apply lookup_insert_eq.
  - cbn [table]. rewrite (base_pred j) by done. rewrite delete_insert_id; [done|]. apply base_none. lia.
  - cbn. by rewrite input_next.
  - intros _. cbn. rewrite lines_nil by (by apply input_next). symmetry. by apply lines_nil.
Qed.

(** The last process without a pipe has the number of the next pipe. *)
Lemma pipes_count a w j x : inv a w -> a !! j = Some x -> has_pipe j x = false -> length (w_pipes w) = j.
Proof.
  intros I Hx Hp. pose proof (inv_wf _ _ _ _ _ I) as Hw.
  assert (w_pipes w !! j = None) as Hn%lookup_ge_None_1.
  { rewrite (inv_pipes _ _ _ _ _ I). unfold Primes.pipe_at. by rewrite Hx, Hp. }
  destruct j as [|j]; [lia|]. assert (is_Some (w_pipes w !! j)) as Hs%lookup_lt_is_Some_1; [|lia].
  rewrite (inv_pipes _ _ _ _ _ I). unfold Primes.pipe_at.
  destruct (a !! j) as [u|] eqn:Hu; [|apply lookup_ge_None_1 in Hu; apply lookup_lt_Some in Hx; lia].
  assert (has_child j u = true) as Hc by (apply (wf_child _ _ Hw j u Hu); by rewrite Hx).
  assert (has_pipe j u = true) as -> by (by destruct u). done.
Qed.

Lemma lines_step k : (k < 12)%nat -> stream l k <> [] -> lines k = prime_line (hd 0 (stream l k)) ++ lines (S k).
Proof.
  intros Hk Hn. unfold Primes.lines. destruct (12 - k)%nat as [|n] eqn:E; [lia|]. replace (12 - S k)%nat with n by lia.
  cbn [seq fmap list_fmap concat]. f_equal. unfold line_at. by destruct (stream l k).
Qed.

Definition print_loc (j : nat) : loc := LPrint (match j with O => [] | _ => prime_line (prime_of j) end).

Lemma print_lines j : j = 0%nat \/ input j <> [] -> to_print j (print_loc j) = lines (pred j).
Proof.
  intros Hn. destruct j as [|j]; [done|]. destruct Hn as [|Hn]; [done|]. pose proof (input_small _ Hn).
  cbn. unfold Primes.prime_of. symmetry. apply lines_step; [lia|done].
Qed.

Lemma step_LPipe a w j : inv a w -> a !! j = Some LPipe -> good a w j LPipe.
Proof.
  intros I Ha. pose proof (inv_wf _ _ _ _ _ I) as Hw. destruct (wf_loc _ _ Hw j _ Ha) as [Hd Hj]. cbn in Hj.
  pose proof (pipes_count a w j _ I Ha eq_refl) as Hn. assert (a !! S j = None) as Hc by (by apply (no_child a j LPipe)).
  assert (j < 12)%nat as Hs by (destruct Hj as [->|Hj]; [lia|by apply input_small]).
  set (k := fun p => match j with O => do! pid <- sys Fork in main_forked junk jpipe l (default jpipe p) pid | _ => piped_at junk jpipe l j (bytes (prime_of j)) p end).
  eapply (move_done (y := print_loc j) (c := do! p <- sys Pipe in k p) (w' := set_pipes (w_pipes w ++ [[]]) w)); [done|done|done|by destruct j| | | |].
  - cbn [step_code pbind sys]. unfold do_call. cbn [kernel Primes.live up_fds table].
    rewrite pipe_call by done. rewrite Hn, bool_decide_false by lia. done.
  - destruct j as [|j]; [done|]. destruct Hj as [|Hj]; [done|]. unfold k, piped_at, print_loc. rewrite (int_bytes (S j) 0); [done|].
    unfold Primes.prime_of. by destruct (input (S j)).
  - done.
  - apply inv_move with (x := LPipe); [done| | |].
    + start_move Hw Ha. split; [done|]. destruct j; [by left|right]. destruct Hj; [done|]. by split; [lia|].
    + intros i. unfold Primes.pipe_at. rewrite !(at_set a j LPipe) by done. case_decide as E1.
      * subst i. rewrite decide_False by lia. rewrite Hc. cbn. rewrite <- Hn. by rewrite lookup_app_r, Nat.sub_diag by lia.
      * transitivity (pipe_at a i).
        { change ((w_pipes w ++ [[]]) !! i = pipe_at a i). rewrite <- (inv_pipes _ _ _ _ _ I). destruct (decide (i < j)%nat); [by rewrite lookup_app_l by lia|]. rewrite !lookup_ge_None_2; [done|lia|rewrite length_app; cbn; lia]. }
        unfold Primes.pipe_at. case_decide as E2; [|done]. by rewrite E2, Ha.
    + rewrite (todo_last a j LPipe) by done. rewrite print_lines by done. rewrite <- (inv_out _ _ _ _ _ I), (todo_here a j LPipe) by done. done.
Qed.

Lemma step_LPrint_char a w j c rest : inv a w -> a !! j = Some (LPrint (c :: rest)) -> good a w j (LPrint (c :: rest)).
Proof.
  intros I Ha. pose proof (inv_wf _ _ _ _ _ I) as Hw. destruct (wf_loc _ _ Hw j _ Ha) as [Hd Hj].
  destruct Hj as [[_ Hj]|[Hj Hn]]; [done|]. assert (a !! S j = None) as Hc by (by apply (no_child a j (LPrint (c :: rest)))).
  eapply (move_done (y := LPrint rest) (c := code_at j (LPrint (c :: rest))) (w' := set_out (w_out w ++ [c]) w)); [done|done|done|done| |done|done|].
  - cbn [Primes.code_at step_code pbind sys fputs]. unfold do_call. cbn [kernel Primes.live up_fds table].
    rewrite lookup_insert_ne, base_given by lia. done.
  - apply inv_move with (x := LPrint (c :: rest)); [done| | |].
    + start_move Hw Ha. split; [done|]. by right.
    + intros i. rewrite (pipe_set a j (LPrint (c :: rest))) by done. apply I.
    + rewrite (todo_last a j (LPrint (c :: rest))) by done. rewrite <- (inv_out _ _ _ _ _ I), (todo_here a j (LPrint (c :: rest))) by done.
      cbn. by rewrite <- app_assoc.
Qed.

(** [fork]: a new process after the last. *)
Lemma fork_at (a : list loc) j x i :
  a !! j = Some x -> a !! S j = None ->
  (<[j := LClose0]> a ++ [LClose1]) !! i = if decide (i = j) then Some LClose0 else if decide (i = S j) then Some LClose1 else a !! i.
Proof.
  intros Hj Hn%lookup_ge_None_1. pose proof (lookup_lt_Some _ _ _ Hj). assert (length (<[j := LClose0]> a) = S j) as El by (rewrite length_insert; lia).
  destruct (decide (i < S j)%nat).
  - rewrite lookup_app_l by lia. rewrite (at_set a j x) by done. by rewrite (decide_False (P := i = S j)) by lia.
  - rewrite lookup_app_r by lia. rewrite El, decide_False by lia. case_decide as E; [subst; by rewrite Nat.sub_diag|].
    rewrite !lookup_ge_None_2; [done|lia|cbn; lia].
Qed.

Lemma fork_wf a j : wf a -> a !! j = Some (LPrint []) -> wf (<[j := LClose0]> a ++ [LClose1]).
Proof.
  intros Hw Ha. assert (a !! S j = None) as Hc by (by apply (no_child a j (LPrint []))). destruct (wf_loc _ _ Hw j _ Ha) as [Hd Hj].
  assert (j = 0%nat \/ input j <> []) as Hj' by naive_solver. pose proof (fun i => fork_at a j _ i Ha Hc) as E.
  assert (j <= length l)%nat as Hle by (destruct Hj' as [->|Hn]; [lia|]; apply stream_lt in Hn; lia).
  assert (forall i x, a !! i = Some x -> (i < S j)%nat) as Hlt by (intros i x Hi; apply lookup_lt_Some in Hi; apply lookup_ge_None_1 in Hc; lia).
  split.
  - intros i x. rewrite E. case_decide; [intros [= <-]; subst; by split|]. case_decide; [intros [= <-]; subst; split; cbn; lia|]. apply Hw.
  - intros i x. rewrite !E. repeat case_decide; try lia; subst.
    + by intros [= <-].
    + intros [= <-]. rewrite lookup_ge_None_2 by (apply lookup_ge_None_1 in Hc; lia). by split; [|intros [? ?]].
    + intros Hi. rewrite (wf_child _ _ Hw i x Hi), Ha. by split.
    + intros Hi. by apply Hw.
  - intros i x y. rewrite !E. repeat case_decide; try lia; subst.
    + intros [= <-] [= <-]. split_and!; [cbn; lia|by intros []|by intros []].
    + intros _ Hy. apply Hlt in Hy. lia.
    + intros Hx [= <-]. eapply (link_left a _ _ (LPrint [])); try done; by intros [].
    + intros Hx Hy. by apply Hw.
Qed.

Lemma procs_length a w : inv a w -> length (w_procs w) = length a.
Proof.
  intros I. assert (forall i, is_Some (w_procs w !! i) <-> is_Some (a !! i)) as H.
  { intros i. rewrite (inv_procs _ _ _ _ _ I). unfold Primes.proc_at. destruct (a !! i) as [[]|]; by split. }
  destruct (Nat.lt_trichotomy (length (w_procs w)) (length a)) as [Hl|[Hl|Hl]]; [|done|].
  - apply lookup_lt_is_Some_2, H, lookup_lt_is_Some_1 in Hl. lia.
  - apply lookup_lt_is_Some_2, H, lookup_lt_is_Some_1 in Hl. lia.
Qed.

Lemma fork_inv a w j :
  inv a w -> a !! j = Some (LPrint []) ->
  inv (<[j := LClose0]> a ++ [LClose1]) (set_procs (<[j := live j LClose0]> (w_procs w) ++ [live (S j) LClose1]) w).
Proof.
  intros I Ha. pose proof (inv_wf _ _ _ _ _ I) as Hw. assert (a !! S j = None) as Hc by (by apply (no_child a j (LPrint []))).
  pose proof (fun i => fork_at a j _ i Ha Hc) as E. pose proof (lookup_lt_Some _ _ _ Ha). pose proof (lookup_ge_None_1 _ _ Hc).
  pose proof (procs_length a w I) as Hl. split.
  - by apply fork_wf.
  - intros i. cbn. unfold Primes.proc_at. rewrite E. repeat case_decide; try lia; subst.
    + rewrite lookup_app_l by (rewrite length_insert; lia). apply list_lookup_insert_eq. lia.
    + rewrite lookup_app_r by (rewrite length_insert; lia). rewrite length_insert. by replace (S j - length (w_procs w))%nat with 0%nat by lia.
    + transitivity (proc_at a i).
      * rewrite <- (inv_procs _ _ _ _ _ I). destruct (decide (i < S j)%nat).
        -- rewrite lookup_app_l by (rewrite length_insert; lia). by rewrite list_lookup_insert_ne.
        -- rewrite !lookup_ge_None_2; [done|lia|rewrite length_app, length_insert; cbn; lia].
      * unfold Primes.proc_at. destruct (a !! i) as [u|] eqn:Hu; [|done]. destruct u; try done.
        assert (waited (<[j := LClose0]> a ++ [LClose1]) i = waited a i) as ->; [|done].
        apply lookup_lt_Some in Hu. destruct i as [|i]; [done|]. cbn. rewrite E. repeat case_decide; try lia. done.
  - intros i. cbn. rewrite (inv_pipes _ _ _ _ _ I). unfold Primes.pipe_at. rewrite !E. repeat case_decide; try lia; subst.
    + by rewrite Ha, Hc.
    + by rewrite Hc.
    + by rewrite Ha.
    + done.
  - rewrite <- (inv_out _ _ _ _ _ I), (todo_here a j (LPrint [])) by done. change (w_out (set_procs ?x w)) with (w_out w). f_equal. unfold Primes.todo.
    rewrite length_app, length_insert, E. cbn. replace (pred (length a + 1)) with (S j) by lia. by repeat case_decide; try lia.
Qed.

Lemma prime_int j : input j <> [] -> int_of (bytes (prime_of j)) = prime_of j.
Proof. intros Hn. apply (int_bytes j 0). unfold Primes.prime_of. by destruct (input j). Qed.

Lemma step_fork a w j : inv a w -> a !! j = Some (LPrint []) -> good a w j (LPrint []).
Proof.
  intros I Ha. pose proof (fork_inv a w j I Ha) as H. unfold good. rewrite (run_at a w j (LPrint [])) by done.
  cbn [Primes.code_at step_code pbind sys fputs]. eexists. unfold do_fork.
  enough (forall u v, u = live j LClose0 -> v = live (S j) LClose1 ->
    inv (<[j := LClose0]> a ++ [LClose1]) (set_procs (<[j := u]> (w_procs w) ++ [v]) w)) as H'; [apply H'|by intros ? ? -> ->].
  - unfold Primes.live. f_equal. f_equal. destruct j as [|j]; unfold main_forked, forked_at; rewrite (proj2 (Z.eqb_neq _ _) (Hpid _)); [done|].
    destruct (wf_loc _ _ (inv_wf _ _ _ _ _ I) _ _ Ha) as [_ [[? _]|[_ Hn]]]; [done|]. by rewrite prime_int.
  - unfold Primes.live. f_equal; [f_equal|].
    + destruct j as [|j]; [done|]. unfold forked_at. cbn [Z.eqb Primes.code_at pred fst snd]. f_equal; lia.
    + cbn [table up_fds pred]. f_equal. lia.
Qed.

(** ** Reading *)

Lemma table_writes j x fd k : table j x !! fd = Some (PipeW k) -> (k = j /\ ~ closed x) \/ (x = LClose1 /\ k = pred j).
Proof.
  assert (forall n, base n !! fd <> Some (PipeW k)) as Hb by (intros n; rewrite base_lookup; by repeat case_decide).
  assert (forall q m n, <[q := PipeW m]> (base n) !! fd = Some (PipeW k) -> k = m) as Hi.
  { intros q m n. destruct (decide (q = fd)) as [->|]; [rewrite lookup_insert_eq; by intros [=]|]. rewrite lookup_insert_ne by done. by intros ?%Hb. }
  destruct x; cbn [table]; intros H; try (by apply Hb in H); try (by apply Hi in H; auto). by rewrite lookup_empty in H.
Qed.

(** Somebody can write to pipe [i]: only process [i], once the reader has closed its end. *)
Lemma writer_open a w i u x :
  inv a w -> a !! i = Some u -> a !! S i = Some x -> x <> LClose1 -> open_end (PipeW i) w = true <-> ~ closed u.
Proof.
  intros I Hu Hx Hn. pose proof (inv_wf _ _ _ _ _ I) as Hw. rewrite open_end_spec. split.
  - intros (j & p & fd & Hp & Hfd). rewrite (inv_procs _ _ _ _ _ I) in Hp. unfold Primes.proc_at in Hp.
    destruct (a !! j) as [y|] eqn:Hy; [|done].
    assert (table j y !! fd = Some (PipeW i)) as Ht by (destruct y; injection Hp as <-; try exact Hfd; destruct (waited a j); cbn in Hfd; by rewrite lookup_empty in Hfd).
    apply table_writes in Ht as [[-> Hc]|[-> Hi]]; [congruence|]. destruct j as [|j]; [by destruct (wf_loc _ _ Hw _ _ Hy) as [_ ?%Nat.lt_irrefl]|]. cbn in Hi. congruence.
  - intros Hc. assert (has_child i u = true) as Hch by (apply (wf_child _ _ Hw i u Hu); by rewrite Hx).
    exists i, (live i u), (4 + z i). rewrite (inv_procs _ _ _ _ _ I). unfold Primes.proc_at. rewrite Hu.
    destruct u; try done; try (by destruct Hc); split; try done; apply lookup_insert_eq.
Qed.

Lemma through_prefix p k r : through p (take k r) `prefix_of` through p r.
Proof. exists (through p (drop k r)). unfold through. by rewrite <- filter_app, take_drop. Qed.

Lemma sent_prefix j x : loc_ok j x -> sent j x `prefix_of` stream l j.
Proof.
  intros [_ Hok]. destruct x; cbn [Primes.sent]; try done; try apply prefix_nil.
  - destruct j; [apply prefix_take|]. cbn [stream]. apply through_prefix.
  - destruct Hok as [Hj _]. destruct j; [lia|]. cbn [stream]. apply through_prefix.
Qed.

Lemma concat_bytes_cons v rest : drop 4 (concat (bytes <$> v :: rest)) = concat (bytes <$> rest) /\ take 4 (concat (bytes <$> v :: rest)) = bytes v.
Proof. done. Qed.

Lemma read_inv a w i u x y v rest :
  inv a w -> a !! i = Some u -> move a (S i) x y -> has_pipe (S i) y = has_pipe (S i) x -> sent (S i) y = sent (S i) x ->
  got (S i) y = S (got (S i) x) -> to_print (S i) y = to_print (S i) x -> drop (got (S i) x) (sent i u) = v :: rest ->
  inv (<[S i := y]> a) {| w_procs := <[S i := live (S i) y]> (w_procs w);
    w_pipes := <[i := concat (bytes <$> rest)]> (w_pipes w); w_out := w_out w |}.
Proof.
  intros I Hu Hm Hp Hs Hg Ht Hd. pose proof (inv_wf _ _ _ _ _ I) as Hw. pose proof (mv_at _ _ _ _ Hm) as Ha.
  assert (has_pipe i u = true) as Hpu.
  { assert (has_child i u = true) as Hc by (apply (wf_child _ _ Hw i u Hu); by rewrite Ha). by destruct u. }
  assert (i < length (w_pipes w))%nat.
  { apply lookup_lt_is_Some_1. rewrite (inv_pipes _ _ _ _ _ I). unfold Primes.pipe_at. by rewrite Hu, Hpu. }
  apply (inv_move a w (S i) x y); [done|done| |].
  - intros k. destruct (decide (k = i)) as [->|n].
    + rewrite list_lookup_insert_eq by done. unfold Primes.pipe_at. rewrite !(at_set a (S i) x) by done.
      rewrite decide_False by lia. rewrite decide_True by done. rewrite Hu, Hpu, Hg, <- (Nat.add_1_r (got _ _)), <- drop_drop, Hd. done.
    + rewrite list_lookup_insert_ne by done. rewrite (pipe_set a (S i) x y) by (done || lia). apply I.
  - destruct (a !! S (S i)) eqn:Ec; [rewrite todo_keep by done; apply I|].
    rewrite (todo_last a (S i) x y) by done. rewrite Ht. rewrite <- (todo_here a (S i) x) by done. apply I.
Qed.

Definition reading (x : loc) : Prop := match x with LRead1 | LLoop _ => True | _ => False end.

Lemma reading_fd i x : reading x -> table (S i) x !! (2 + z (S i)) = Some (PipeR i).
Proof.
  intros Hx. assert (base (S i) !! (2 + z (S i)) = Some (PipeR i)) as Hb.
  { replace (2 + z (S i)) with (3 + z i) by lia. apply base_pipe. lia. }
  destruct x; try done. cbn [table]. by rewrite lookup_insert_ne by lia.
Qed.

(** What a stage finds in the pipe it reads: nothing yet, the end, or a number. *)
Lemma read_cases a w i x :
  inv a w -> a !! S i = Some x -> reading x -> exists u, a !! i = Some u /\
  let reply := kernel pid (Read (2 + z (S i)) 4) (S i) (table (S i) x) w in
  ((~ closed u /\ reply = Waits) \/
   (closed u /\ got (S i) x = length (input (S i)) /\ reply = Got (0, []) (table (S i) x) w) \/
   (exists v rest, drop (got (S i) x) (sent i u) = v :: rest /\ input (S i) !! got (S i) x = Some v /\
      reply = Got (4, bytes v) (table (S i) x) (set_pipes (<[i := concat (bytes <$> rest)]> (w_pipes w)) w))).
Proof.
  intros I Ha Hx. pose proof (inv_wf _ _ _ _ _ I) as Hw.
  destruct (a !! i) as [u|] eqn:Hu; [|apply lookup_ge_None_1 in Hu; apply lookup_lt_Some in Ha; lia]. exists u. split; [done|].
  destruct (wf_link _ _ Hw i u x Hu Ha) as (Hg & _ & _).
  assert (has_pipe i u = true) as Hpu.
  { assert (has_child i u = true) as Hc by (apply (wf_child _ _ Hw i u Hu); by rewrite Ha). by destruct u. }
  assert (w_pipes w !! i = Some (concat (bytes <$> drop (got (S i) x) (sent i u)))) as Hb.
  { rewrite (inv_pipes _ _ _ _ _ I). unfold Primes.pipe_at. by rewrite Hu, Hpu, Ha. }
  cbn [kernel]. rewrite reading_fd by done. rewrite (list_lookup_total_correct _ _ _ Hb).
  destruct (drop (got (S i) x) (sent i u)) as [|v rest] eqn:Ed.
  - rewrite bool_decide_true by done.
    assert (open_end (PipeW i) w = true <-> ~ closed u) as Ho by (apply (writer_open a w i u x); try done; by intros ->).
    destruct (open_end (PipeW i) w) eqn:Eo; [left; by split; [apply Ho|]|]. right. left.
    assert (closed u) as Hc by (destruct u; try done; exfalso; by assert (false = true) by (apply Ho; by intros [])).
    split_and!; [done| |done]. assert (sent i u = input (S i)) as Es by (by destruct u). rewrite <- Es.
    apply (f_equal length) in Ed. rewrite length_drop in Ed. cbn in Ed. lia.
  - right. right. exists v, rest. split_and!; [done| |by rewrite bool_decide_false].
    destruct (sent_prefix i u (wf_loc _ _ Hw _ _ Hu)) as [k Hk]. unfold Primes.input. cbn [pred]. rewrite Hk, lookup_app_l.
    + rewrite <- (Nat.add_0_r (got _ _)), <- lookup_drop, Ed. done.
    + apply (f_equal length) in Ed. rewrite length_drop in Ed. cbn in Ed. lia.
Qed.

(** The link from the process before, for a stage that has seen the end. *)
Lemma link_eof a i u x y : wf a -> a !! i = Some u -> a !! S i = Some x -> x <> LEnd -> closed u -> got (S i) y = got (S i) x -> link i u y.
Proof.
  intros Hw Hu Hx Hn Hc Hg. destruct (wf_link _ _ Hw i u _ Hu Hx) as (H1 & H2 & H3). split_and!; [lia|auto|]. intros Ho. by destruct (Hn (H3 Ho)).
Qed.
(** ... and for one that has read a number. *)
Lemma link_read a i u x y v rest :
  wf a -> a !! i = Some u -> a !! S i = Some x -> x <> LEnd -> ~ at_eof y -> got (S i) y = S (got (S i) x) ->
  drop (got (S i) x) (sent i u) = v :: rest -> link i u y.
Proof.
  intros Hw Hu Hx Hn He Hg Hd. destruct (wf_link _ _ Hw i u _ Hu Hx) as (H1 & H2 & H3). split_and!; [|done|].
  - apply (f_equal length) in Hd. rewrite length_drop in Hd. cbn in Hd. lia.
  - intros Ho. by destruct (Hn (H3 Ho)).
Qed.

Lemma read_junk v n : length n = 4%nat -> bytes v ++ drop (length (bytes v)) n = bytes v.
Proof. intros Hn. rewrite length_le_bytes. rewrite drop_ge by lia. apply app_nil_r. Qed.

Lemma step_LRead1 a w j : inv a w -> a !! j = Some LRead1 -> good a w j LRead1.
Proof.
  intros I Ha. pose proof (inv_wf _ _ _ _ _ I) as Hw. destruct (wf_loc _ _ Hw j _ Ha) as [Hd Hj]. destruct j as [|i]; [cbn in Hj; lia|].
  destruct (read_cases a w i LRead1 I Ha Logic.I) as (u & Hu & Hr). cbv zeta in Hr. unfold good. rewrite (run_at a w _ LRead1) by done.
  cbn [Primes.code_at step_code pbind sys read_int]. unfold do_call. cbn [Primes.live up_fds].
  destruct Hr as [[Hc ->]|[(Hc & Hg & ->)|(v & rest & Ed & Hv & ->)]].
  - by exists i, u.
  - symmetry in Hg. apply nil_length_inv in Hg. exists (<[S i := LEof]> a). apply (inv_silent a w (S i) LRead1 LEof); [done| |done|done| |done].
    + start_move Hw Ha; [by split|]. intros i' u' [= <-] Hu'. simplify_eq. apply (link_eof a i _ LRead1); try done. by change (length (input (S i)) = 0%nat); rewrite Hg.
    + intros _. by change (length (input (S i)) = 0%nat); rewrite Hg.
  - exists (<[S i := LPipe]> a). cbn [fst snd pbind]. rewrite read_junk by done.
    assert (v = prime_of (S i)) as -> by (unfold Primes.prime_of; cbn [Primes.got] in Hv; destruct (input (S i)); by simplify_eq/=).
    apply (read_inv a w i u LRead1 LPipe (prime_of (S i)) rest); try done.
    start_move Hw Ha; [split; [done|]; right; by intros E; rewrite E in Hv|]. intros i' u' [= <-] Hu'. simplify_eq.
    apply (link_read a i _ LRead1 _ (prime_of (S i)) rest); try done. by intros [].
Qed.

Lemma input_tail j r v : (0 < r)%nat -> input j !! r = Some v -> tail (input j) !! pred r = Some v.
Proof. destruct r as [|r]; [lia|]. intros _. by destruct (input j). Qed.

Lemma through_snoc p r n v : r !! n = Some v -> through p (take (S n) r) = through p (take n r) ++ (if decide (Z.rem v p <> 0) then [v] else []).
Proof. intros Hv. unfold through. by rewrite (take_S_r _ _ _ Hv), filter_app. Qed.

Lemma step_read a w i r : inv a w -> a !! S i = Some (LLoop r) -> good a w (S i) (LLoop r).
Proof.
  intros I Ha. pose proof (inv_wf _ _ _ _ _ I) as Hw. destruct (wf_loc _ _ Hw _ _ Ha) as [Hd [[? _]|[_ Hrl]]]; [done|].
  assert (input (S i) <> []) as Hn by (intros E; rewrite E in Hrl; cbn in Hrl; lia).
  destruct (read_cases a w i (LLoop r) I Ha Logic.I) as (u & Hu & Hr). cbv zeta in Hr. unfold good. rewrite (run_at a w _ (LLoop r)) by done.
  pose proof (stream_length l i) as Hsl. change (stream l i) with (input (S i)) in Hsl. destruct (fuel - pred r)%nat as [|t] eqn:Et; [lia|].
  unfold Primes.code_at at 1. rewrite Et. cbn [looping sieve_loop step_code pbind sys read_int]. unfold do_call. cbn [Primes.live up_fds].
  destruct Hr as [[Hc ->]|[(Hc & Hg & ->)|(v & rest & Ed & Hv & ->)]].
  - by exists i, u.
  - exists (<[S i := LCloseL]> a). change (r = length (input (S i))) in Hg.
    assert (sent (S i) LCloseL = sent (S i) (LLoop r)) as Es.
    { cbn [Primes.sent stream]. rewrite take_ge; [done|]. change (stream l i) with (input (S i)). destruct (input (S i)); cbn in *; lia. }
    apply (inv_silent a w (S i) (LLoop r) LCloseL); [done| |done|exact Es|by intros _; rewrite Hg|done].
    start_move Hw Ha.
    + split; [done|]. by split; [lia|].
    + intros i' u' [= <-] Hu'. simplify_eq. apply (link_eof a i _ (LLoop (length (input (S i))))); by rewrite <- ?Hg.
  - change (got (S i) (LLoop r)) with r in Hv. cbn [fst snd pbind]. rewrite read_junk by apply length_le_bytes. rewrite (int_bytes (S i) r v) by done.
    assert (input (S i) !!! r = v) as Hv' by (by apply list_lookup_total_correct).
    assert (t = fuel - r)%nat as -> by lia. pose proof (lookup_lt_Some _ _ _ Hv) as Hlt.
    pose proof (through_snoc (prime_of (S i)) _ _ _ (input_tail (S i) r v ltac:(lia) Hv)) as Hsn.
    replace (S (pred r)) with r in Hsn by lia.
    change (4 =? 0) with false. cbv iota. destruct (Z.eqb_spec (Z.rem v (prime_of (S i))) 0) as [E0|E0].
    + exists (<[S i := LLoop (S r)]> a).
      assert (sent (S i) (LLoop (S r)) = sent (S i) (LLoop r)) as Es.
      { cbn [Primes.sent]. rewrite decide_False, app_nil_r in Hsn by (intros H; by apply H). exact Hsn. }
      pose proof (read_inv a w i u (LLoop r) (LLoop (S r)) v rest I Hu) as HI. unfold Primes.live, Primes.code_at at 1 in HI. cbn [pred] in HI. rewrite Hv' in HI.
      apply HI; try done. start_move Hw Ha.
      * split; [done|]. right. split; lia.
      * intros i' u' [= <-] Hu'. simplify_eq. apply (link_read a i _ (LLoop r) _ (input (S i) !!! r) rest); try done. by intros [].
    + exists (<[S i := LPut (S r)]> a).
      pose proof (read_inv a w i u (LLoop r) (LPut (S r)) v rest I Hu) as HI. unfold Primes.live, Primes.code_at at 1 in HI. cbn [pred] in HI. rewrite Hv' in HI.
      apply HI; try done. start_move Hw Ha.
      * split; [done|]. cbn [pred]. rewrite Hv'. split_and!; lia || done.
      * intros i' u' [= <-] Hu'. simplify_eq. apply (link_read a i _ (LLoop r) _ (input (S i) !!! r) rest); try done. by intros [].
Qed.

(** ** Writing *)

Lemma reader_open a w j x : inv a w -> a !! j = Some x -> has_child j x = true -> ~ closed x -> open_end (PipeR j) w = true.
Proof.
  intros I Ha Hc Hn. pose proof (inv_wf _ _ _ _ _ I) as Hw. apply (wf_child _ _ Hw j x Ha) in Hc as [y Hy].
  destruct (wf_link _ _ Hw j x y Ha Hy) as (_ & He & _). assert (~ at_eof y) as Hy' by auto.
  assert (base (S j) !! (3 + z j) = Some (PipeR j)) as Hb by (apply base_pipe; lia).
  assert (base (S (S j)) !! (3 + z j) = Some (PipeR j)) as Hb' by (apply base_pipe; lia).
  apply open_end_spec. exists (S j), (live (S j) y), (3 + z j). rewrite (inv_procs _ _ _ _ _ I). unfold Primes.proc_at. rewrite Hy.
  destruct y; try (by destruct Hy'); (split; [done|]); cbn [Primes.live up_fds table]; by rewrite ?lookup_insert_ne by lia.
Qed.

Lemma concat_bytes_length r : length (concat (bytes <$> r)) = (4 * length r)%nat.
Proof. induction r as [|v r IH]; [done|]. rewrite fmap_cons. cbn [concat]. rewrite length_app, IH, length_le_bytes. cbn [length]. lia. Qed.

(** A number goes into the pipe, which has room for it. *)
Lemma write_good a w j x y v k :
  inv a w -> move a j x y -> code_at j x = (call! Write (4 + z j) (bytes v) in k) -> k = code_at j y ->
  table j x = <[4 + z j := PipeW j]> (base j) -> table j y = table j x -> has_child j x = true -> ~ closed x -> has_pipe j y = has_pipe j x ->
  sent j y = sent j x ++ [v] -> ((0 < j)%nat -> got j y = got j x) -> good a w j x.
Proof.
  intros I Hm Hc Hk Ht Hty Hch Hcl Hp Hs Hg. pose proof (inv_wf _ _ _ _ _ I) as Hw. pose proof (mv_at _ _ _ _ Hm) as Ha.
  assert (x <> LEnd) by (intros ->; by destruct (mv_live _ _ _ _ Hm)). pose proof (wf_child _ _ Hw j x Ha) as Hchild.
  destruct (a !! S j) as [c|] eqn:Ec; [|rewrite Hch in Hchild; destruct Hchild as [[? ?] _]; done].
  destruct (wf_link _ _ Hw j x c Ha Ec) as (Hgc & _ & _).
  assert (has_pipe j x = true) as Hpx by (by destruct x).
  assert (w_pipes w !! j = Some (concat (bytes <$> drop (got (S j) c) (sent j x)))) as Hb.
  { rewrite (inv_pipes _ _ _ _ _ I). unfold Primes.pipe_at. by rewrite Ha, Hpx, Ec. }
  assert (concat (bytes <$> drop (got (S j) c) (sent j x)) ++ bytes v = concat (bytes <$> drop (got (S j) c) (sent j y))) as Eb.
  { rewrite Hs, drop_app_le by done. rewrite fmap_app, concat_app. cbn [fmap list_fmap concat]. by rewrite app_nil_r. }
  assert (length (sent j y) <= 128)%nat as Hl128.
  { etransitivity; [|exact Hlen]. etransitivity; [|apply (stream_length l j)]. apply prefix_length, sent_prefix, Hm. }
  eapply (move_done (w' := set_pipes (<[j := concat (bytes <$> drop (got (S j) c) (sent j y))]> (w_pipes w)) w)); [done|done|done|exact Hc| |exact Hk|symmetry; exact Hty|].
  - cbn [step_code pbind sys]. unfold do_call. cbn [kernel Primes.live up_fds]. rewrite Ht at 1. rewrite lookup_insert_eq.
    rewrite (reader_open a w j x) by done. cbn [negb]. rewrite (list_lookup_total_correct _ _ _ Hb), Eb.
    rewrite (proj2 (Z.ltb_ge PIPESIZE _)); [done|]. rewrite concat_bytes_length, length_drop. unfold PIPESIZE. lia.
  - apply (inv_move a w j x y); [done|done| |].
    + intros i. cbn. destruct (decide (i = j)) as [->|n].
      * rewrite list_lookup_insert_eq by (by eapply lookup_lt_Some). unfold Primes.pipe_at. rewrite !(at_set a j x) by done.
        rewrite decide_True by done. rewrite decide_False by lia. by rewrite Hp, Hpx, Ec.
      * rewrite list_lookup_insert_ne by done. rewrite (pipe_set a j x y); [apply I|done|done|done|]. intros <-. apply Hg. lia.
    + rewrite todo_keep by done. apply I.
Qed.

(** The link to the next process, for one that has written. *)
Lemma link_write a j x y c v :
  wf a -> a !! j = Some x -> a !! S j = Some c -> sent j y = sent j x ++ [v] -> ~ closed x -> ~ over y -> link j y c.
Proof.
  intros Hw Hx Hc Hs Hn Ho. destruct (wf_link _ _ Hw j _ c Hx Hc) as (H1 & H2 & H3). split_and!; [rewrite Hs, length_app; lia| |done].
  intros He. by destruct Hn; apply H2.
Qed.

Lemma step_LPut a w j r : inv a w -> a !! j = Some (LPut r) -> good a w j (LPut r).
Proof.
  intros I Ha. pose proof (inv_wf _ _ _ _ _ I) as Hw. destruct (wf_loc _ _ Hw j _ Ha) as [Hd (Hj & Hr & Hv)].
  destruct (lookup_lt_is_Some_2 (input j) (pred r)) as [v Hi]; [lia|]. rewrite (list_lookup_total_correct _ _ _ Hi) in Hv.
  assert (sent j (LLoop r) = sent j (LPut r) ++ [v]) as Es.
  { cbn [Primes.sent]. destruct j; [lia|]. pose proof (through_snoc (prime_of (S j)) _ _ _ (input_tail (S j) (pred r) v ltac:(lia) Hi)) as Hsn.
    rewrite decide_True in Hsn by done. by replace (S (pred (pred r))) with (pred r) in Hsn by lia. }
  apply (write_good a w j (LPut r) (LLoop r) v (looping j (fuel - pred r) (prime_of j) (bytes v))); try done.
  - start_move Hw Ha.
    + split; [done|]. right. lia.
    + intros c Hc. apply (link_write a j (LPut r) _ c v); try done; by intros [].
  - unfold Primes.code_at. by rewrite (list_lookup_total_correct _ _ _ Hi).
  - destruct j; [lia|]. unfold Primes.code_at. by rewrite (list_lookup_total_correct _ _ _ Hi).
  - by intros [].
Qed.

Lemma step_feed a w r : inv a w -> a !! 0%nat = Some (LLoop r) -> good a w 0 (LLoop r).
Proof.
  intros I Ha. pose proof (inv_wf _ _ _ _ _ I) as Hw. destruct (wf_loc _ _ Hw 0%nat _ Ha) as [Hd [[_ Hr]|[? _]]]; [|lia].
  destruct (decide (r = length l)) as [->|n].
  - assert (sent 0 LWait = sent 0 (LLoop (length l))) as Es by (symmetry; apply firstn_all).
    apply (close_good a w 0 (LLoop (length l)) LWait 4 (PipeW 0) finish); try done.
    + start_move Hw Ha. split; [done|]. by left.
    + unfold Primes.code_at, feeding. by rewrite drop_all.
  - destruct (lookup_lt_is_Some_2 l r) as [v Hi]; [lia|].
    assert (sent 0 (LLoop (S r)) = sent 0 (LLoop r) ++ [v]) as Es by (by apply take_S_r).
    apply (write_good a w 0 (LLoop r) (LLoop (S r)) v (feeding l (S r))); try done.
    + start_move Hw Ha; [split; [done|]; left; lia|]. intros c Hc. apply (link_write a 0 (LLoop r) _ c v); try done; by intros [].
    + unfold Primes.code_at, feeding. rewrite (drop_S _ _ _ Hi). reflexivity.
    + by intros [].
    + lia.
Qed.

(** ** [wait] and [exit] *)

Lemma find_zombie_none i ps j0 k p st : find_zombie i ps j0 = None -> ps !! k = Some p -> zombie p = Some st -> is_child i p = false.
Proof.
  revert j0 k. induction ps as [|q ps IH]; intros j0 [|k]; cbn; [done|done| |].
  - intros H [= ->] E. rewrite E in H. by destruct (is_child i p).
  - intros H Hk E. destruct (zombie q); [destruct (is_child i q); [done|]|]; by eapply IH.
Qed.

(** Only the next process is a child. *)
Lemma child_index a w j k p : inv a w -> w_procs w !! k = Some p -> is_child j p = true -> k = S j /\ ~ (exists x, a !! j = Some x /\ over x).
Proof.
  intros I Hk Hc%bool_decide_eq_true. rewrite (inv_procs _ _ _ _ _ I) in Hk. unfold Primes.proc_at in Hk.
  pose proof (inv_wf _ _ _ _ _ I) as Hw. destruct (a !! k) as [y|] eqn:Hy; [|done].
  assert (parent_of k = Some j /\ (y <> LEnd \/ waited a k = false)) as [Hp Hy'].
  { destruct y; simplify_eq; auto. destruct (waited a k); [done|]. auto. }
  destruct k as [|k]; [done|]. injection Hp as <-. split; [done|]. intros (x & Hx & Ho).
  destruct (wf_link _ _ Hw k x y Hx Hy) as (_ & _ & Hl). destruct Hy' as [Hy'|Hy']; [by apply Hy', Hl|].
  cbn in Hy'. rewrite Hx in Hy'. by destruct x.
Qed.

Lemma wait_inv a w j :
  inv a w -> a !! j = Some LWait -> a !! S j = Some LEnd ->
  inv (<[j := LExit]> a) (set_procs (<[j := live j LExit]> (<[S j := reaped]> (w_procs w))) w).
Proof.
  intros I Ha Hc. pose proof (inv_wf _ _ _ _ _ I) as Hw. destruct (wf_loc _ _ Hw j _ Ha) as [Hd Hj]. cbn in Hj.
  assert (has_child j LExit = has_child j LWait) as Hch by (by cbn; apply bool_decide_true).
  pose proof (procs_length a w I) as Hl. pose proof (lookup_lt_Some _ _ _ Hc). split.
  - eapply wf_set; try done.
    + intros i u -> Hu. by eapply (link_left a i u LWait).
    + intros v Hv. destruct (wf_link _ _ Hw j _ v Ha Hv) as (H1 & H2 & H3). split_and!; [done|done|]. congruence.
  - intros i. cbn. unfold Primes.proc_at. rewrite (at_set a j LWait) by done. case_decide as E1.
    { subst. apply list_lookup_insert_eq. rewrite length_insert. lia. }
    rewrite list_lookup_insert_ne by done. destruct (decide (i = S j)) as [->|E2].
    { rewrite list_lookup_insert_eq, Hc by lia. cbn. by rewrite (at_set a j LWait), decide_True. }
    rewrite list_lookup_insert_ne, (inv_procs _ _ _ _ _ I) by done. unfold Primes.proc_at. destruct (a !! i) as [[]|]; try done.
    assert (waited (<[j := LExit]> a) i = waited a i) as ->; [|done].
    destruct i as [|i]; [done|]. cbn. by rewrite (at_set a j LWait), decide_False by (done || lia).
  - intros i. rewrite (pipe_set a j LWait LExit); [apply I|done| |done|done]. by cbn [Primes.has_pipe]; rewrite Hch.
  - rewrite todo_keep by done. apply I.
Qed.

Lemma step_LWait a w j : inv a w -> a !! j = Some LWait -> good a w j LWait.
Proof.
  intros I Ha. pose proof (inv_wf _ _ _ _ _ I) as Hw. unfold good. rewrite (run_at a w j LWait) by done.
  cbn [Primes.code_at finish step_code pbind sys]. unfold do_call. cbn [kernel Primes.live up_fds].
  destruct (proj1 (wf_child _ _ Hw j _ Ha) eq_refl) as [c Hc].
  assert (w_procs w !! S j = proc_at a (S j)) as Hp by apply I. unfold Primes.proc_at in Hp. rewrite Hc in Hp. cbn [waited] in Hp. rewrite Ha in Hp.
  destruct (find_zombie j (w_procs w) 0) as [[k st]|] eqn:Ez.
  - destruct (find_zombie_some _ _ _ _ _ Ez) as (k' & p & -> & Hk & Hz & Hch). destruct (child_index a w j k' p I Hk Hch) as [-> _].
    assert (c = LEnd) as -> by (rewrite Hp in Hk; by destruct c; simplify_eq/=). exists (<[j := LExit]> a). exact (wait_inv a w j I Ha Hc).
  - assert (existsb (is_child j) (w_procs w) = true) as ->.
    { apply existsb_exists. destruct c; (eexists; split; [apply list_elem_of_In, list_elem_of_lookup; exists (S j); exact Hp|]); unfold is_child; by apply bool_decide_true. }
    intros E. assert (c = LEnd) as -> by congruence. eapply (find_zombie_none _ _ _ _ _ 0) in Ez; [|exact Hp|done].
    unfold is_child in Ez. by rewrite bool_decide_true in Ez.
Qed.

Lemma exit_inv a w j : inv a w -> a !! j = Some LExit -> inv (<[j := LEnd]> a) (do_exit j 0 (live j LExit) w).
Proof.
  intros I Ha. pose proof (inv_wf _ _ _ _ _ I) as Hw. pose proof (procs_length a w I) as Hl. pose proof (lookup_lt_Some _ _ _ Ha).
  assert (orphan j <$> w_procs w = w_procs w) as Eo.
  { apply list_eq. intros k. rewrite list_lookup_fmap. destruct (w_procs w !! k) as [p|] eqn:Hk; [|done]. cbn. f_equal. unfold orphan.
    destruct (is_child j p) eqn:Hc; [|done]. destruct (child_index a w j k p I Hk Hc) as [_ Hn]. destruct Hn. by exists LExit. }
  assert (forall i, waited (<[j := LEnd]> a) i = waited a i) as Ew.
  { intros [|i]; [done|]. cbn. rewrite (at_set a j LExit) by done. case_decide; [subst; by rewrite Ha|done]. }
  assert (waited a j = false) as Hnw.
  { destruct j as [|i]; [done|]. cbn. destruct (a !! i) as [u|] eqn:Hu; [|done]. destruct (wf_link _ _ Hw i u _ Hu Ha) as (_ & _ & H3). by destruct u; try done; specialize (H3 Logic.I). }
  unfold do_exit. rewrite Eo. split.
  - eapply wf_set; try done.
    + split; [apply (wf_loc _ _ Hw j _ Ha)|done].
    + intros i u -> Hu. destruct (wf_link _ _ Hw i u _ Hu Ha) as (H1 & H2 & _). by split_and!.
    + intros v Hv. by eapply (link_right a j LExit).
  - intros i. cbn. unfold Primes.proc_at. rewrite Ew, (at_set a j LExit) by done. case_decide as E1.
    + subst. rewrite Hnw. apply list_lookup_insert_eq. lia.
    + rewrite list_lookup_insert_ne by done. apply I.
  - intros i. rewrite (pipe_set a j LExit LEnd) by done. apply I.
  - destruct (a !! S j) eqn:Ec; [rewrite todo_keep by done; apply I|]. rewrite (todo_last a j LExit) by done.
    rewrite <- (inv_out _ _ _ _ _ I), (todo_here a j LExit) by done. done.
Qed.

(** One step of any process. *)
Lemma step_good a w j x : inv a w -> a !! j = Some x -> good a w j x.
Proof.
  intros I Ha. destruct x as [| | |[|c rest]| |r|r| | | | | |].
  - by apply step_LClose1.
  - by apply step_LRead1.
  - by apply step_LPipe.
  - by apply step_fork.
  - by apply step_LPrint_char.
  - by apply step_LClose0.
  - destruct j; [by apply step_feed|by apply step_read].
  - by apply step_LPut.
  - by apply step_LCloseL.
  - by apply step_LCloseR.
  - by apply step_LWait.
  - unfold good. rewrite (run_at a w j LExit) by done. exists (<[j := LEnd]> a). by apply exit_inv.
  - by apply step_LEof.
  - unfold good, run_step. rewrite (inv_procs _ _ _ _ _ I). unfold Primes.proc_at. rewrite Ha. by destruct (waited a j).
Qed.
End Step.
