(* ===== verification/PrimesProps.v ===== *)
(** user/primes.c: the theorem.  Whatever the schedule, the sieve prints the primes
    below 36 in order, and all its processes exit. *)

From Stdlib Require Import Znumtheory Sorting.Sorted.
From S2P Require Import Prelude Riscv Mem Sync Kalloc Vm Pipe Digits Ulib Uprintf Uproc Unet Primes PrimesStep.

Section Run.
Context (junk : list Z) (jpipe : Z * Z) (l : list Z).
Context (pid : nat -> Z) (Hpid : forall i, pid i <> 0) (Hjunk : length junk = 4%nat)
  (Hrange : Forall (fun x => - 2 ^ 31 <= x < 2 ^ 31) l) (Hlen : (length l <= 128)%nat) (Hstages : stream l 11 = []).
Abbreviation inv := (inv junk jpipe l).

Lemma inv_start : inv [LPipe] (alone (primes_main junk jpipe (S (length l)) l)).
Proof.
  split.
  - split.
    + intros [|j] x H; [|done]. injection H as <-. split; [cbn; lia|by left].
    + intros [|j] x H; [|done]. injection H as <-. split; [done|]. by intros [? ?].
    + intros [|j] x y H1 H2; done.
  - by intros [|[|j]].
  - by intros [|[|j]].
  - done.
Qed.

(** When nobody can go on, all have exited. *)
Lemma rest_held a w : inv a w -> (forall j, run_step pid j w = Blocked) -> forall j x, a !! j = Some x -> held_up a j x.
Proof.
  intros I Hb j x Hx. pose proof (step_good junk jpipe l pid Hpid Hjunk Hrange Hlen Hstages a w j x I Hx) as H. unfold good in H. by rewrite Hb in H.
Qed.

Lemma rest_waits a : (forall j x, a !! j = Some x -> held_up a j x) -> forall j x, a !! j = Some x -> x = LWait \/ x = LEnd.
Proof.
  intros Hh j. induction j as [|j IH]; intros x Hx; pose proof (Hh _ _ Hx) as H; destruct x; try done; auto.
  all: destruct H as (i & u & [= <-] & Hu & Hc); try done; destruct (IH u Hu) as [-> | ->]; by destruct Hc.
Qed.

Lemma rest_ended a : wf l a -> (forall j x, a !! j = Some x -> held_up a j x) -> forall j x, a !! j = Some x -> x = LEnd.
Proof.
  intros Hw Hh. assert (forall n j x, (length a - j <= n)%nat -> a !! j = Some x -> x = LEnd) as H; [|intros j x; by apply (H (length a - j)%nat)].
  induction n as [|n IH]; intros j x Hn Hx; pose proof (lookup_lt_Some _ _ _ Hx); [lia|].
  destruct (rest_waits a Hh j x Hx) as [-> | ->]; [|done]. destruct (proj1 (wf_child _ _ Hw j _ Hx) eq_refl) as [y Hy].
  pose proof (Hh j _ Hx) as Hc. destruct Hc. rewrite Hy. f_equal. apply (IH (S j)); [lia|done].
Qed.

Lemma rest_out a w : inv a w -> (forall j, run_step pid j w = Blocked) -> w_out w = lines l 0 /\ all_exited w.
Proof.
  intros I Hb. pose proof (inv_wf _ _ _ _ _ I) as Hw. pose proof (rest_ended a Hw (rest_held a w I Hb)) as He. split.
  - rewrite <- (inv_out _ _ _ _ _ I). unfold todo. destruct (a !! pred (length a)) as [x|] eqn:Hx; [|by rewrite app_nil_r].
    pose proof (He _ _ Hx) as ->. cbn [to_print]. rewrite lines_nil, app_nil_r; [done|].
    assert (has_child l (pred (length a)) LEnd = false) as Hc.
    { pose proof (wf_child _ _ Hw _ _ Hx) as H. destruct (has_child _ _ _); [|done]. destruct (proj1 H eq_refl) as [y Hy%lookup_lt_Some]. lia. }
    cbn in Hc. apply bool_decide_eq_false in Hc. apply input_next. destruct (input l (pred (length a))); [done|]. destruct Hc. by right.
  - intros j p Hp. rewrite (inv_procs _ _ _ _ _ I) in Hp. unfold proc_at in Hp. destruct (a !! j) as [x|] eqn:Hx; [|done].
    rewrite (He _ _ Hx) in Hp. injection Hp as <-. destruct (waited a j); auto.
Qed.

Lemma primes_run : must_end pid (fun w => w_out w = lines l 0 /\ all_exited w) (alone (primes_main junk jpipe (S (length l)) l)).
Proof.
  assert (forall w i, (exists a, inv a w) -> run_step pid i w <> Outside /\ (forall w', run_step pid i w = Next w' -> exists a, inv a w')) as Hs.
  { intros w i [a I]. destruct (a !! i) as [x|] eqn:Hx.
    - pose proof (step_good junk jpipe l pid Hpid Hjunk Hrange Hlen Hstages a w i x I Hx) as H. unfold good in H.
      destruct (run_step pid i w) as [w1| |]; [|done|done]. split; [done|]. by intros w' [= <-].
    - unfold run_step. rewrite (inv_procs _ _ _ _ _ I). unfold proc_at. by rewrite Hx. }
  apply (must_end_inv pid (fun w => exists a, inv a w)).
  - intros w i Hw. by apply Hs.
  - intros w i w' Hw. by apply Hs.
  - intros w [a I]. by apply (rest_out a).
  - exists [LPipe]. apply inv_start.
Qed.
End Run.

(** ** The primes below 36 *)

(** Trial division. *)
Definition is_prime (p : Z) : bool := (1 <? p) && forallb (fun n => negb (p mod n =? 0)) (seqZ 2 (p - 2)).

Lemma is_prime_ok p : is_prime p = true <-> prime p.
Proof.
  rewrite <- prime_alt. unfold is_prime, prime'. rewrite andb_true_iff, Z.ltb_lt, forallb_forall. split; intros [Hp H]; (split; [done|]).
  - intros n Hn Hd%Z.mod_divide; [|lia]. assert (negb (p mod n =? 0) = true) as E by (apply H, list_elem_of_In, elem_of_seqZ; lia). by rewrite Hd in E.
  - intros n Hn%list_elem_of_In%elem_of_seqZ. apply negb_true_iff, Z.eqb_neq. intros E. apply (H n); [lia|]. by apply Z.mod_divide; [lia|].
Qed.

Definition primes_36 : list Z := [2; 3; 5; 7; 11; 13; 17; 19; 23; 29; 31].

Lemma primes_36_ok p : p ∈ primes_36 <-> prime p /\ p < 36.
Proof.
  assert (filter (fun p => is_prime p = true) (seqZ 2 34) = primes_36) as <- by (vm_compute; reflexivity).
  rewrite list_elem_of_filter, is_prime_ok, elem_of_seqZ. split; intros [Hp H]; (split; [done|]); [lia|]. apply prime_ge_2 in Hp. lia.
Qed.

(** C7: user/primes.c.  The process that runs [main], with the console as its
    descriptors 0 to 2, forks one process for every prime and one more, connected by
    pipes.  Whatever the schedule, no process is ever stuck: none waits for ever for a
    pipe or for a child, no pipe overflows, and there are always descriptors for
    [pipe], though each process inherits the reading ends of all the pipes before its
    own.  All of them exit with status 0, and what has then been printed is the line
    [prime p] for each prime [p] below 36, in increasing order.  The values [junk] and
    [jpipe] of variables that are not set yet do not matter. *)
Theorem primes_correct junk jpipe pid :
  length junk = 4%nat -> (forall i, pid i <> 0) ->
  exists ps, (forall p, p ∈ ps <-> prime p /\ p < 36) /\ Sorted Z.lt ps /\
    must_end pid (fun w => w_out w = concat (prime_line <$> ps) /\ all_exited w) (alone (primes_main junk jpipe (S (length candidates)) candidates)).
Proof.
  intros Hj Hp. exists primes_36. split; [apply primes_36_ok|]. split; [by repeat constructor|].
  assert (concat (prime_line <$> primes_36) = lines candidates 0) as -> by (vm_compute; reflexivity).
  apply primes_run; [done|done| |by apply Nat.leb_le|vm_compute; reflexivity].
  apply Forall_forall. intros x Hx%elem_of_seqZ. lia.
Qed.

Lemma primes_correct_witness :
  exists ps, 31 ∈ ps /\ must_end (fun i => Z.of_nat i + 3) (fun w => w_out w = concat (prime_line <$> ps) /\ all_exited w)
    (alone (primes_main [0; 0; 0; 0] (0, 0) (S (length candidates)) candidates)).
Proof.
  destruct (primes_correct [0; 0; 0; 0] (0, 0) (fun i => Z.of_nat i + 3) eq_refl ltac:(intros i; cbv beta; lia)) as (ps & H1 & _ & H3).
  exists ps. split; [|exact H3]. apply H1. split; [by apply is_prime_ok|lia].
Defined.
