(* ===== verification/Pingpong.v ===== *)
(** user/pingpong.c: two processes that exchange a message over one pipe.

    [buf] has four bytes and [printf] is given no end: [tail fork_pid pid] is what
    follows it on the stack of the process in which the variables have these values,
    which may be among what follows.  [jpipe] is what [p] holds before it is set. *)

From S2P Require Import Prelude Riscv Mem Sync Kalloc Vm Pipe Digits Ulib Uprintf Uproc Unet.

Section Pingpong.
Context (junk : list Z) (tail : Z -> Z -> list Z) (jpipe : Z * Z).

(** What [printf] prints: [buf] and what follows, up to a zero. *)
Definition received (fork_pid pid : Z) (buf : list Z) : list Z :=
  uprintint_chars pid 10 true ++ chars ": received " ++ upto_nul (buf ++ tail fork_pid pid) ++ [10].

(** [read(p[0], buf, 4)]: [buf] afterwards. *)
Definition read_buf (fd : Z) (buf : list Z) : proc (list Z) :=
  do! x <- sys (Read fd 4) in Done (x.2 ++ drop (length x.2) buf).

Definition pingpong_main : proc Empty_set :=
  do! r <- sys Pipe in
  let p := default jpipe r in
  do! fork_pid <- sys Fork in
  do! pid <- sys Getpid in
  do! buf <-
    (if fork_pid =? 0 then
       do! buf <- read_buf p.1 junk in
       call! Write p.2 (chars "pong") in Done buf
     else
       call! Write p.2 (chars "ping") in
       call! Wait in
       read_buf p.1 junk) in
  do! _ <- fputs 1 (received fork_pid pid buf) in
  call! Close p.1 in
  call! Close p.2 in
  Exit 0.
End Pingpong.

(** ** What it prints *)

(** When only process [i] can go on. *)
Lemma must_end_only pid Q i w w' :
  run_step pid i w = Next w' -> (forall i', i' <> i -> run_step pid i' w = Blocked) -> must_end pid Q w' -> must_end pid Q w.
Proof.
  intros E Hb H. constructor.
  - intros i'. destruct (decide (i' = i)) as [->|n]; [by rewrite E|by rewrite (Hb _ n)].
  - intros i' w1 E1. destruct (decide (i' = i)) as [->|n]; [rewrite E in E1; injection E1 as <-; exact H|]. by rewrite (Hb _ n) in E1.
  - intros Hall. by rewrite Hall in E.
Qed.

(** When processes 0 and 1 can go on. *)
Lemma must_end_both pid Q w w0 w1 :
  run_step pid 0 w = Next w0 -> run_step pid 1 w = Next w1 -> length (w_procs w) = 2%nat ->
  must_end pid Q w0 -> must_end pid Q w1 -> must_end pid Q w.
Proof.
  intros E0 E1 Hl H0 H1. assert (forall i, run_step pid (S (S i)) w = Blocked) as Hb by (intros i; unfold run_step; by rewrite lookup_ge_None_2 by lia).
  constructor.
  - intros [|[|i]]; by rewrite ?E0, ?E1, ?Hb.
  - intros [|[|i]] w' E; [rewrite E0 in E; injection E as <-; exact H0|rewrite E1 in E; injection E as <-; exact H1|]. rewrite Hb in E. discriminate E.
  - intros Hall. by rewrite Hall in E0.
Qed.

Section Run.
Context (junk : list Z) (tail : Z -> Z -> list Z) (jpipe : Z * Z) (pid : nat -> Z) (Hpid : pid 1%nat <> 0) (Hjunk : length junk = 4%nat).
Abbreviation received := (received tail).

Definition both_ends : fds := <[4 := PipeW 0]> (<[3 := PipeR 0]> {[0 := Given 0; 1 := Given 1; 2 := Given 2]}).
Definition par (code : proc Empty_set) : uproc := {| up_code := Live code; up_fds := both_ends; up_parent := None |}.
Definition chi (code : proc Empty_set) : uproc := {| up_code := Live code; up_fds := both_ends; up_parent := Some 0%nat |}.
Definition pair_at (p c : uproc) (b o : list Z) : world := {| w_procs := [p; c]; w_pipes := [b]; w_out := o |}.

Definition closing : proc Empty_set := call! Close 3 in call! Close 4 in Exit 0.
Definition printing (f me : Z) (buf : list Z) : proc Empty_set := do! _ <- fputs 1 (received f me buf) in closing.
Definition parent_read (me : Z) : proc Empty_set := do! buf <- read_buf 3 junk in printing (pid 1%nat) me buf.
Definition parent_wait (me : Z) : proc Empty_set := call! Wait in parent_read me.
Definition parent_write (me : Z) : proc Empty_set := call! Write 4 (chars "ping") in parent_wait me.
Definition parent_start : proc Empty_set := do! me <- sys Getpid in parent_write me.
Definition child_write (me : Z) (buf : list Z) : proc Empty_set := call! Write 4 (chars "pong") in printing 0 me buf.
Definition child_read (me : Z) : proc Empty_set := do! buf <- read_buf 3 junk in child_write me buf.
Definition child_start : proc Empty_set := do! me <- sys Getpid in child_read me.

Ltac others := intros [|[|i]] ?; try done.
Ltac solo i w := apply (must_end_only pid _ i _ w); [reflexivity|others|].

Lemma print_parent Q cs code b o :
  must_end pid Q (pair_at (par code) reaped b (o ++ cs)) -> must_end pid Q (pair_at (par (do! _ <- fputs 1 cs in code)) reaped b o).
Proof.
  revert o. induction cs as [|c cs IH]; intros o H; [rewrite app_nil_r in H; exact H|].
  solo 0%nat (pair_at (par (do! _ <- fputs 1 cs in code)) reaped b (o ++ [c])). apply IH. rewrite <- app_assoc. exact H.
Qed.

Lemma print_child Q cs me code b o :
  must_end pid Q (pair_at (par (parent_wait me)) (chi code) b (o ++ cs)) ->
  must_end pid Q (pair_at (par (parent_wait me)) (chi (do! _ <- fputs 1 cs in code)) b o).
Proof.
  revert o. induction cs as [|c cs IH]; intros o H; [rewrite app_nil_r in H; exact H|].
  solo 1%nat (pair_at (par (parent_wait me)) (chi (do! _ <- fputs 1 cs in code)) b (o ++ [c])). apply IH. rewrite <- app_assoc. exact H.
Qed.

(** The child has exited. *)
Definition gone : uproc := {| up_code := Zombie 0; up_fds := ∅; up_parent := Some 0%nat |}.

Lemma parent_ends (Q : world -> Prop) me o :
  (forall w, w_out w = o ++ received (pid 1%nat) me (chars "pong") -> all_exited w -> Q w) ->
  must_end pid Q (pair_at (par (parent_wait me)) gone (chars "pong") o).
Proof.
  intros HQ. solo 0%nat (pair_at (par (parent_read me)) reaped (chars "pong") o).
  apply (must_end_only pid _ 0%nat _ (pair_at (par (printing (pid 1%nat) me (chars "pong" ++ drop 4 junk))) reaped [] o)); [reflexivity|others|].
  rewrite drop_ge by lia. apply print_parent.
  set (P3 c t := {| up_code := c; up_fds := t; up_parent := None |}).
  solo 0%nat (pair_at (P3 (Live (call! Close 4 in Exit 0)) (delete 3 both_ends)) reaped [] (o ++ received (pid 1%nat) me (chars "pong"))).
  solo 0%nat (pair_at (P3 (Live (Exit 0)) (delete 4 (delete 3 both_ends))) reaped [] (o ++ received (pid 1%nat) me (chars "pong"))).
  solo 0%nat (pair_at (P3 (Zombie 0) ∅) reaped [] (o ++ received (pid 1%nat) me (chars "pong"))).
  constructor.
  - intros [|[|i]]; discriminate.
  - intros [|[|i]] w' E; discriminate E.
  - intros _. apply HQ; [reflexivity|]. intros [|[|j]] p E; [injection E as <-; by left|injection E as <-; by right|discriminate E].
Qed.

Lemma child_ends (Q : world -> Prop) me me1 :
  (forall w, w_out w = received 0 me1 (chars "ping") ++ received (pid 1%nat) me (chars "pong") -> all_exited w -> Q w) ->
  must_end pid Q (pair_at (par (parent_wait me)) (chi (child_read me1)) (chars "ping") []).
Proof.
  intros HQ. apply (must_end_only pid _ 1%nat _ (pair_at (par (parent_wait me)) (chi (child_write me1 (chars "ping" ++ drop 4 junk))) [] [])); [reflexivity|others|].
  rewrite drop_ge by lia. solo 1%nat (pair_at (par (parent_wait me)) (chi (printing 0 me1 (chars "ping"))) (chars "pong") []).
  apply print_child. set (C3 c t := {| up_code := Live c; up_fds := t; up_parent := Some 0%nat |}).
  solo 1%nat (pair_at (par (parent_wait me)) (C3 (call! Close 4 in Exit 0) (delete 3 both_ends)) (chars "pong") (received 0 me1 (chars "ping"))).
  solo 1%nat (pair_at (par (parent_wait me)) (C3 (Exit 0) (delete 4 (delete 3 both_ends))) (chars "pong") (received 0 me1 (chars "ping"))).
  solo 1%nat (pair_at (par (parent_wait me)) gone (chars "pong") (received 0 me1 (chars "ping"))).
  by apply parent_ends.
Qed.

Lemma pingpong_run (Q : world -> Prop) :
  (forall w, w_out w = received 0 (pid 1%nat) (chars "ping") ++ received (pid 1%nat) (pid 0%nat) (chars "pong") -> all_exited w -> Q w) ->
  must_end pid Q (alone (pingpong_main junk tail jpipe)).
Proof.
  intros HQ. set (PS := par parent_start). set (PW := par (parent_write (pid 0%nat))). set (PE := par (parent_wait (pid 0%nat))).
  set (CS := chi child_start). set (CR := chi (child_read (pid 1%nat))).
  assert (must_end pid Q (pair_at PE CR (chars "ping") [])) as H1 by (by apply child_ends).
  assert (must_end pid Q (pair_at PE CS (chars "ping") [])) as H2 by (solo 1%nat (pair_at PE CR (chars "ping") []); exact H1).
  assert (must_end pid Q (pair_at PW CR [] [])) as H3 by (solo 0%nat (pair_at PE CR (chars "ping") []); exact H1).
  assert (must_end pid Q (pair_at PS CR [] [])) as H4 by (solo 0%nat (pair_at PW CR [] []); exact H3).
  assert (must_end pid Q (pair_at PW CS [] [])) as H5 by (apply (must_end_both pid Q _ (pair_at PE CS (chars "ping") []) (pair_at PW CR [] [])); [reflexivity..|exact H2|exact H3]).
  assert (must_end pid Q (pair_at PS CS [] [])) as H6 by (apply (must_end_both pid Q _ (pair_at PW CS [] []) (pair_at PS CR [] [])); [reflexivity..|exact H5|exact H4]).
  set (k := fun fork_pid => do! me <- sys Getpid in
    do! buf <- (if fork_pid =? 0 then do! buf <- read_buf 3 junk in call! Write 4 (chars "pong") in Done buf
                else call! Write 4 (chars "ping") in call! Wait in read_buf 3 junk) in printing fork_pid me buf).
  assert (k (pid 1%nat) = parent_start) as Ek by (unfold k; by rewrite (proj2 (Z.eqb_neq _ _) Hpid)).
  apply (must_end_only pid _ 0%nat _ {| w_procs := [par (do! f <- sys Fork in k f)]; w_pipes := [[]]; w_out := [] |}); [reflexivity|others|].
  apply (must_end_only pid _ 0%nat _ (pair_at (par (k (pid 1%nat))) CS [] [])); [reflexivity|others|]. rewrite Ek. exact H6.
Qed.
End Run.

(** C25: user/pingpong.c.  Whatever the schedule, both processes exit; the child prints
    its pid and what it has received first, then the parent, which has waited for it.
    The messages are "ping" and "pong", but [buf] has no room for the zero that would
    end them: each is printed with the bytes that follow [buf] on the stack of its process, up
    to the first zero.  What [p] and [buf] hold before they are set does not matter. *)
Theorem pingpong_correct junk tail jpipe pid :
  pid 1%nat <> 0 -> length junk = 4%nat ->
  must_end pid (fun w => all_exited w /\
    w_out w = uprintint_chars (pid 1%nat) 10 true ++ chars ": received ping" ++ upto_nul (tail 0 (pid 1%nat)) ++ [10] ++
              uprintint_chars (pid 0%nat) 10 true ++ chars ": received pong" ++ upto_nul (tail (pid 1%nat) (pid 0%nat)) ++ [10])
    (alone (pingpong_main junk tail jpipe)).
Proof.
  intros Hp Hj. apply pingpong_run; [done|done|]. intros w Hw Ha. split; [done|]. rewrite Hw. unfold received. by rewrite <- !app_assoc.
Qed.

(** The variable [fork_pid] follows [buf], in little-endian order. *)
Lemma pingpong_correct_witness :
  must_end (fun i => Z.of_nat i + 65) (fun w => all_exited w /\ w_out w = chars "66: received ping" ++ [10] ++ chars "65: received pongB" ++ [10])
    (alone (pingpong_main [0; 0; 0; 0] (fun fork_pid _ => [fork_pid; 0; 0; 0]) (0, 0))).
Proof. exact (pingpong_correct [0; 0; 0; 0] (fun fork_pid _ => [fork_pid; 0; 0; 0]) (0, 0) (fun i => Z.of_nat i + 65) ltac:(done) eq_refl). Defined.
