(* ===== verification/Xargs.v ===== *)
(** user/xargs.c: running a command on the words of each line of its input.

    The program works on its memory, because the entries of [argv] that [xargs] sets up
    for the words all point to the same array: [line], [arg], [curr] and [c] are the
    addresses of its local variables.  A child that [fork] makes has a copy of the
    memory, and its parent waits for it at once, so the two run one after the other.
    The theorem is about the arguments that the commands get. *)

From S2P Require Import Prelude Riscv Mem Digits Ulib Uprintf Uproc.

Definition MAX_ARG_BYTES : Z := 512.
Definition MAX_LINE_LEN : Z := 1024.

(** What [xargs] does besides: the commands it has executed. *)
Record xos := XOs { x_os : uos; x_cmds : list (path * list path) }.
#[export] Instance xos_os : Lens xos uos.
Proof. refine {| lget := x_os; lput := fun o s => {| x_os := o; x_cmds := x_cmds s |} |}; lens_laws xos. Defined.

(** How far [strlen] and [strcpy] may have to look. *)
Definition xfuel : nat := Z.to_nat (MAX_LINE_LEN + 1).

Definition xstrlen (s : Z) : M uos Z :=
  let! m := gets u_mem in match u_strlen xfuel m s with Some n => mret_ n | None => nofuel end.
Definition xstrcpy (s t : Z) : M uos unit :=
  let! m := gets u_mem in match u_strcpy xfuel m s t with Some m' => set_umem (fun _ => m') | None => nofuel end.

Section Xargs.
Context (line arg curr c : Z).

(** [readline]: the loop [while (read(fd, &c, 1))]. *)
Fixpoint readline_loop (fuel : nat) (fd buf buf_size i : Z) : M uos Z :=
  match fuel with
  | O => nofuel
  | S fuel' =>
      let! r := read fd c 1 in
      if r =? 0 then mret_ i
      else
        let! x := ld c in
        if i <? buf_size then
          if negb (x =? 10) then st (buf + i) x ;; readline_loop fuel' fd buf buf_size (i + 1)
          else st (buf + i) 0 ;; mret_ i
        else mret_ (buf_size + 1)
  end.
Definition readline (fd buf buf_size : Z) : M uos Z := readline_loop (Z.to_nat (buf_size + 1)) fd buf buf_size 0.

(** [split] exits with status 1 on an error: no result. *)
Definition split_fail (msg : string) : M uos (option Z) := putcs 2 (chars msg ++ [10]) ;; mret_ None.
Fixpoint split_loop (fuel : nat) (s delimiter : Z) (splitted : list Z) (splitted_cap i curr_i count : Z) : M uos (option Z) :=
  match fuel with
  | O => nofuel
  | S fuel' =>
      let! n := xstrlen s in
      if i <? n then
        if MAX_ARG_BYTES <=? i then split_fail "splitted string shard's length exceeds capacity!"
        else
          let! x := ld (s + i) in
          if x =? delimiter then
            st (curr + curr_i) 0 ;;
            if splitted_cap <=? count then split_fail "splitted section's length exceeds capacity!"
            else
              xstrcpy (splitted !!! Z.to_nat count) curr ;;
              split_loop fuel' s delimiter splitted splitted_cap (i + 1) 0 (count + 1)
          else
            st (curr + curr_i) x ;;
            let! n := xstrlen s in
            if curr_i + 1 =? n then
              if splitted_cap <=? count then split_fail "splitted section's length exceeds capacity!"
              else
                xstrcpy (splitted !!! Z.to_nat count) curr ;;
                split_loop fuel' s delimiter splitted splitted_cap (i + 1) 0 (count + 1)
            else split_loop fuel' s delimiter splitted splitted_cap (i + 1) (curr_i + 1) count
      else mret_ (Some count)
  end.
Definition split (s delimiter : Z) (splitted : list Z) (splitted_cap : Z) : M uos (option Z) :=
  split_loop xfuel s delimiter splitted splitted_cap 0 0 0.

(** The strings that an array of pointers with a zero at its end stands for. *)
Fixpoint strings (m : memory) (argv : list Z) : list path :=
  match argv with
  | [] => []
  | a :: argv' => if a =? 0 then [] else cstr m a xfuel :: strings m argv'
  end.

(** Which commands can be executed, and the status they exit with. *)
Context (execs : path -> bool) (status : list path -> Z).

(** [argv], as the first loop of [xargs] fills it. *)
Definition xargv (args : list Z) : list Z := take (Z.to_nat MAXARG) (args ++ replicate (Z.to_nat MAXARG) arg).

(** The loop of [xargs]: the status it exits with.  A child whose [exec] fails goes on
    with the loop. *)
Fixpoint xargs_loop (fuel : nat) (command : Z) (argv : list Z) (fd arg_size : Z) : M xos Z :=
  match fuel with
  | O => nofuel
  | S fuel' =>
      let! read_bytes := zoom (S := uos) (readline fd line MAX_LINE_LEN) in
      if 0 <? read_bytes then
        let! m := gets (fun s => u_mem (x_os s)) in
        let! res :=
          (let! r := zoom (S := uos) (split line 32 (drop (Z.to_nat arg_size) argv) (MAXARG - arg_size)) in
           match r with
           | None => mret_ 1
           | Some splitted_count =>
               let argv := <[Z.to_nat (arg_size + splitted_count) := 0]> argv in
               let! m' := gets (fun s => u_mem (x_os s)) in
               let file := cstr m' command xfuel in
               if execs file then
                 modify (fun s => {| x_os := x_os s; x_cmds := x_cmds s ++ [(file, strings m' argv)] |}) ;;
                 mret_ (status (strings m' argv))
               else
                 zoom (S := uos) (putcs 1 (chars "exec failed!")) ;;
                 xargs_loop fuel' command argv fd arg_size
           end) in
        zoom (S := uos) (set_umem (fun _ => m)) ;;
        if res =? 1 then zoom (S := uos) (putcs 2 (chars "child process failed" ++ [10])) ;; mret_ 1
        else xargs_loop fuel' command argv fd arg_size
      else mret_ 0
  end.
Definition xargs (fuel : nat) (command : Z) (args : list Z) (fd arg_size : Z) : M xos Z :=
  xargs_loop fuel command (xargv (take (Z.to_nat arg_size) args)) fd arg_size.

(** [main]: a missing command is reported, and then used. *)
Definition xargs_main (fuel : nat) (argv : list Z) : M xos Z :=
  (if Z.of_nat (length argv) <=? 1 then zoom (S := uos) (putcs 1 (chars "usage: xargs [command] [args...]" ++ [10])) else mret_ tt) ;;
  xargs fuel (default 0 (argv !! 1%nat)) (drop 1 argv) 0 (Z.of_nat (length argv) - 1).
End Xargs.

(** * What the commands it executes are given as arguments *)

(** ** A line and its words *)

Definition space : Z := 32.

(** The words with a space between them. *)
Fixpoint joined (ws : list path) : list Z :=
  match ws with
  | [] => []
  | [w] => w
  | w :: ws' => w ++ space :: joined ws'
  end.

Definition word (w : path) : Prop := Forall (fun x => char x /\ x <> space /\ x <> 10) w.

Lemma joined_cons w ws : ws <> [] -> joined (w :: ws) = w ++ space :: joined ws.
Proof. by destruct ws. Qed.

Lemma joined_chars ws : Forall word ws -> Forall char (joined ws) /\ 10 ∉ joined ws.
Proof.
  induction 1 as [|w ws Hw _ [IH1 IH2]]; [split; [constructor|apply not_elem_of_nil]|].
  assert (Forall char w) as Hc by (eapply Forall_impl; [exact Hw|naive_solver]).
  assert (10 ∉ w) as Hn by (intros Hin; unfold word in Hw; rewrite Forall_forall in Hw; by destruct (Hw 10 Hin) as (_ & _ & ?)).
  destruct ws as [|w' ws]; [done|]. rewrite joined_cons by done. split.
  - apply Forall_app. split; [done|]. constructor; [unfold char, space; lia|done].
  - rewrite elem_of_app, elem_of_cons. unfold space. intros [?|[?|?]]; [done|lia|done].
Qed.

Section Split.
Context (line arg curr : Z).

(** The arrays [line], [curr] and [arg] do not overlap. *)
Definition apart : Prop :=
  (line + 513 <= curr \/ curr + 512 <= line) /\ (line + 513 <= arg \/ arg + 512 <= line) /\ (curr + 512 <= arg \/ arg + 512 <= curr).
Context (Hap : apart).

(** The memory outside [curr] and [arg]. *)
Definition rest_same (m m' : memory) : Prop :=
  forall b, ~ (curr <= b < curr + 512) -> ~ (arg <= b < arg + 512) -> load8 m' b = load8 m b.

Lemma line_kept m m' t : holds m line (t ++ [0]) -> (length t <= 512)%nat -> rest_same m m' -> holds m' line (t ++ [0]).
Proof.
  intros H Hl Hr. eapply holds_frame; [exact H|]. intros b Hb. rewrite length_app in Hb. cbn in Hb. destruct Hap as (H1 & H2 & _). apply Hr; lia.
Qed.

Lemma xstrlen_at o m s t : holds m s (t ++ [0]) -> Forall char t -> (length t <= 512)%nat -> xstrlen s (with_mem o m) = Ret (Z.of_nat (length t)) (with_mem o m).
Proof.
  intros H Hc Hl. unfold xstrlen. mstep. cbn [with_mem u_mem]. rewrite (u_strlen_at xfuel m s t); [done|done|done| |lia].
  change xfuel with 1025%nat. lia.
Qed.

Lemma xstrcpy_at o m s t m' : u_strcpy xfuel m s t = Some m' -> xstrcpy s t (with_mem o m) = Ret tt (with_mem o m').
Proof. intros E. unfold xstrcpy. mstep. cbn [with_mem u_mem]. by rewrite E. Qed.

(** One turn of the loop: a character of a word, and the end of a word. *)
Lemma split_char f t o m spl cap i ci count x :
  holds m line (t ++ [0]) -> Forall char t -> (length t <= 512)%nat -> t !! i = Some x -> x <> space ->
  0 <= ci < 512 -> ci + 1 <> Z.of_nat (length t) ->
  split_loop curr (S f) line space spl cap (Z.of_nat i) ci count (with_mem o m) =
  split_loop curr f line space spl cap (Z.of_nat (S i)) (ci + 1) count (with_mem o (store8 m (curr + ci) x)).
Proof.
  intros H Hc Hl Hx Hs Hci Hne. cbn [split_loop]. rewrite (bind_ret _ _ _ _ _ (xstrlen_at o m line t H Hc Hl)).
  pose proof (lookup_lt_Some _ _ _ Hx) as Hi. rewrite (proj2 (Z.ltb_lt _ _)) by lia.
  rewrite (proj2 (Z.leb_gt MAX_ARG_BYTES _)) by (unfold MAX_ARG_BYTES; lia).
  erewrite bind_ret; [|reflexivity]. cbn [with_mem u_mem]. rewrite (H i x) by (by apply lookup_app_l_Some).
  rewrite (proj2 (Z.eqb_neq _ _) Hs). erewrite bind_ret; [|reflexivity].
  change {| u_mem := store8 m (curr + ci) x; u_fds := _; u_files := _; u_out := _ |} with (with_mem o (store8 m (curr + ci) x)).
  assert (holds (store8 m (curr + ci) x) line (t ++ [0])) as H'.
  { eapply line_kept; [exact H|done|]. intros b Hb _. apply load8_store8_ne. lia. }
  rewrite (bind_ret _ _ _ _ _ (xstrlen_at o _ line t H' Hc Hl)). rewrite (proj2 (Z.eqb_neq _ _) Hne).
  by replace (Z.of_nat (S i)) with (Z.of_nat i + 1) by lia.
Qed.

Lemma split_chars w pre post f t o m spl cap ci count :
  t = pre ++ w ++ post -> holds m line (t ++ [0]) -> Forall char t -> (length t <= 512)%nat -> word w ->
  0 <= ci -> ci + Z.of_nat (length w) < Z.of_nat (length t) ->
  split_loop curr (length w + f) line space spl cap (Z.of_nat (length pre)) ci count (with_mem o m) =
  split_loop curr f line space spl cap (Z.of_nat (length (pre ++ w))) (ci + Z.of_nat (length w)) count (with_mem o (store_bytes m (curr + ci) w)).
Proof.
  revert pre ci m. induction w as [|x w IH]; intros pre ci m Et H Hc Hl Hw Hci Hlt; [by rewrite app_nil_r, Z.add_0_r|].
  apply Forall_cons in Hw as [(Hx & Hs & _) Hw]. cbn [length Nat.add store_bytes] in *.
  rewrite (split_char _ t _ _ _ _ _ _ _ x) by (done || lia || (rewrite Et, lookup_app_r, Nat.sub_diag by lia; done)).
  replace (S (length pre)) with (length (pre ++ [x])) by (rewrite length_app; cbn; lia).
  rewrite (IH (pre ++ [x])); try done; try lia.
  - rewrite <- !app_assoc. cbn [app]. replace (ci + 1 + Z.of_nat (length w)) with (ci + Z.of_nat (S (length w))) by lia.
    by replace (curr + (ci + 1)) with (curr + ci + 1) by lia.
  - by rewrite Et, <- !app_assoc.
  - eapply line_kept; [exact H|done|]. intros b Hb _. apply load8_store8_ne. lia.
Qed.

Lemma split_one_word w pre post f t o m spl cap count :
  t = pre ++ w ++ space :: post -> holds m line (t ++ [0]) -> Forall char t -> (length t <= 512)%nat -> word w ->
  0 <= count < cap -> spl !!! Z.to_nat count = arg ->
  exists m', split_loop curr (length w + S f) line space spl cap (Z.of_nat (length pre)) 0 count (with_mem o m) =
      split_loop curr f line space spl cap (Z.of_nat (length (pre ++ w ++ [space]))) 0 (count + 1) (with_mem o m') /\
    holds m' arg (w ++ [0]) /\ rest_same m m'.
Proof.
  intros Et H Hc Hl Hw Hcap Hspl. assert (length pre + length w < length t)%nat as Hlen by (rewrite Et, !length_app; cbn; lia).
  assert (Forall char w) as Hwc by (eapply Forall_impl; [exact Hw|naive_solver]).
  rewrite (split_chars w pre (space :: post) (S f) t) by (done || lia). rewrite Z.add_0_r, Z.add_0_l.
  set (m1 := store_bytes m curr w). set (m2 := store8 m1 (curr + Z.of_nat (length w)) 0).
  assert (rest_same m m1) as R1 by (intros b Hb _; unfold m1; by rewrite load8_store_bytes, decide_False by lia).
  assert (rest_same m m2) as R2 by (intros b Hb Hb'; unfold m2; rewrite load8_store8_ne by lia; by apply R1).
  assert (holds m1 line (t ++ [0])) as H1 by (by apply (line_kept m)).
  assert (holds m2 curr (w ++ [0])) as H2.
  { apply holds_app. split.
    - eapply holds_frame; [apply holds_store_bytes; exact Hwc|]. intros b Hb. unfold m2. rewrite load8_store8_ne by lia. done.
    - intros [|i] x Hi; [|done]. injection Hi as <-. rewrite Z.add_0_r. apply load8_store8_eq. }
  destruct Hap as (_ & _ & Hd). destruct (u_strcpy_at xfuel m2 arg curr w H2 Hwc) as (m3 & E3 & H3 & R3); [change xfuel with 1025%nat; lia|lia|].
  exists m3. split_and!; [|done|].
  - cbn [split_loop]. rewrite (bind_ret _ _ _ _ _ (xstrlen_at o m1 line t H1 Hc Hl)). rewrite length_app, (proj2 (Z.ltb_lt _ _)) by lia.
    rewrite (proj2 (Z.leb_gt MAX_ARG_BYTES _)) by (unfold MAX_ARG_BYTES; lia). erewrite bind_ret; [|reflexivity]. cbn [with_mem u_mem].
    rewrite (H1 (length pre + length w)%nat space) by (rewrite Et, <- !app_assoc, app_assoc, lookup_app_r, length_app, Nat.sub_diag by (rewrite length_app; lia); done).
    rewrite Z.eqb_refl. erewrite bind_ret; [|reflexivity]. rewrite (proj2 (Z.leb_gt cap count)) by lia.
    change {| u_mem := store8 m1 _ 0; u_fds := _; u_files := _; u_out := _ |} with (with_mem o m2). rewrite Hspl.
    rewrite (bind_ret _ _ _ _ _ (xstrcpy_at o m2 arg curr m3 E3)).
    rewrite !length_app. cbn [length]. f_equal. lia.
  - intros b Hb Hb'. rewrite R3 by lia. by apply R2.
Qed.

(** The word in [arg] when the last word has been seen: the one before it. *)
Fixpoint stored (d : path) (ws : list path) : path :=
  match ws with
  | w :: ((_ :: _) as ws') => stored w ws'
  | _ => d
  end.

Lemma stored_lookup d ws : ws <> [] -> stored d ws = (d :: ws) !!! pred (length ws).
Proof.
  revert d. induction ws as [|w ws IH]; intros d Hn; [done|]. destruct ws as [|w' ws]; [done|]. change (stored d (w :: w' :: ws)) with (stored w (w' :: ws)). by rewrite IH.
Qed.

(** The words after the first. *)
Lemma split_rest ws pre d f t o m spl cap count :
  t = pre ++ joined ws -> (0 < length pre)%nat -> ws <> [] -> holds m line (t ++ [0]) -> Forall char t -> (length t <= 512)%nat -> Forall word ws ->
  holds m arg (d ++ [0]) -> (length d < 512)%nat -> 0 <= count -> count + Z.of_nat (length ws) - 1 <= cap ->
  (forall i, 0 <= i < cap -> spl !!! Z.to_nat i = arg) ->
  exists m', split_loop curr (length (joined ws) + S f) line space spl cap (Z.of_nat (length pre)) 0 count (with_mem o m) =
      Ret (Some (count + Z.of_nat (length ws) - 1)) (with_mem o m') /\
    holds m' arg (stored d ws ++ [0]) /\ rest_same m m'.
Proof.
  revert pre d m count. induction ws as [|w ws IH]; intros pre d m count Et Hpre Hn H Hc Hl Hws Hd Hdl Hct Hcap Hspl; [done|].
  apply Forall_cons in Hws as [Hw Hws]. destruct ws as [|w' ws].
  - cbn [joined] in *. assert (length t = length pre + length w)%nat as Hlen by (rewrite Et, length_app; lia).
    rewrite (split_chars w pre [] (S f) t) by (rewrite ?app_nil_r; done || lia). rewrite Z.add_0_r, Z.add_0_l.
    set (m1 := store_bytes m curr w).
    assert (rest_same m m1) as R1 by (intros b Hb _; unfold m1; by rewrite load8_store_bytes, decide_False by lia).
    exists m1. split_and!; [|cbn [stored]|done].
    + cbn [split_loop]. rewrite (bind_ret _ _ _ _ _ (xstrlen_at o m1 line t (line_kept m m1 t H Hl R1) Hc Hl)).
      rewrite (proj2 (Z.ltb_ge _ _)) by (rewrite length_app; lia). unfold mret_. do 2 f_equal. cbn [length]. lia.
    + eapply holds_frame; [exact Hd|]. intros b Hb. rewrite length_app in Hb. cbn in Hb. unfold m1. rewrite load8_store_bytes, decide_False; [done|].
      destruct Hap as (_ & _ & ?). lia.
  - rewrite joined_cons in * by done. cbn [length] in Hcap.
    destruct (split_one_word w pre (joined (w' :: ws)) (length (joined (w' :: ws)) + S f) t o m spl cap count) as (m1 & E1 & H1 & R1); try done; [lia|apply Hspl; lia|].
    replace (length (w ++ space :: joined (w' :: ws)) + S f)%nat with (length w + S (length (joined (w' :: ws)) + S f))%nat by (rewrite length_app; cbn [length]; lia).
    rewrite E1. assert (length w < 512)%nat by (rewrite Et, !length_app in Hl; cbn [length] in Hl; lia).
    destruct (IH (pre ++ w ++ [space]) w m1 (count + 1)) as (m' & E & H' & R'); try done; try lia.
    + by rewrite Et, <- !app_assoc.
    + rewrite length_app. lia.
    + by apply (line_kept m).
    + cbn [length]. lia.
    + exists m'. rewrite E. split_and!; [do 2 f_equal; cbn [length]; lia|done|]. intros b Hb Hb'. rewrite R' by done. by apply R1.
Qed.

Lemma stored_word d ws : Forall word (d :: ws) -> word (stored d ws) /\ (length (stored d ws) <= length (joined (d :: ws)))%nat.
Proof.
  revert d. induction ws as [|w ws IH]; intros d H; [by apply Forall_cons in H as [? _]|]. apply Forall_cons in H as [Hd H].
  rewrite joined_cons, length_app by done. cbn [length]. destruct ws as [|w' ws]; [split; [done|cbn [stored]; lia]|].
  change (stored d (w :: w' :: ws)) with (stored w (w' :: ws)). destruct (IH w H) as [H1 H2]. split; [done|lia].
Qed.

(** [split] on a line of at least two words: the last is lost, and every entry of
    [splitted] is the same array, which holds the word before the last. *)
Lemma split_line w ws t o m spl cap :
  t = joined (w :: ws) -> ws <> [] -> holds m line (t ++ [0]) -> (length t <= 512)%nat -> Forall word (w :: ws) ->
  Z.of_nat (length ws) <= cap -> (forall i, 0 <= i < cap -> spl !!! Z.to_nat i = arg) ->
  exists m', split curr line space spl cap (with_mem o m) = Ret (Some (Z.of_nat (length ws))) (with_mem o m') /\
    holds m' arg (stored w ws ++ [0]) /\ rest_same m m'.
Proof.
  intros Et Hn H Hl Hws Hcap Hspl. assert (Forall char t) as Hc by (rewrite Et; by apply joined_chars). apply Forall_cons in Hws as [Hw Hws].
  rewrite joined_cons in Et by done. assert (length t = length w + S (length (joined ws)))%nat as Hlen by (rewrite Et, length_app; cbn [length]; lia).
  unfold split. change xfuel with 1025%nat.
  destruct (split_one_word w [] (joined ws) (1024 - length w) t o m spl cap 0) as (m1 & E1 & H1 & R1); try done; [destruct ws; cbn in *; [done|lia]|apply Hspl; destruct ws; cbn in *; [done|lia]|].
  replace (length w + S (1024 - length w))%nat with 1025%nat in E1 by lia. cbn [length app] in E1. change (Z.of_nat 0) with 0 in E1. rewrite E1.
  destruct (split_rest ws (w ++ [space]) w (1024 - length t) t o m1 spl cap 1) as (m' & E & H' & R'); try done; try lia.
  - by rewrite Et, <- app_assoc.
  - rewrite length_app. cbn. lia.
  - by apply (line_kept m).
  - exists m'. replace (1024 - length w)%nat with (length (joined ws) + S (1024 - length t))%nat by lia. change (0 + 1) with 1. rewrite E.
    split_and!; [do 2 f_equal; lia|done|]. intros b Hb Hb'. rewrite R' by done. by apply R1.
Qed.
End Split.

(** ** Reading a line *)

Lemma readline_loop_end n o fd m c line max i : readline_loop c (S n) fd line max i (with_in o fd m []) = Ret i (with_in o fd m []).
Proof. cbn [readline_loop]. by rewrite (bind_ret _ _ _ _ _ (read_end o fd m c 1)). Qed.

Lemma readline_end o fd m c line : readline c fd line MAX_LINE_LEN (with_in o fd m []) = Ret 0 (with_in o fd m []).
Proof. unfold readline. change (Z.to_nat (MAX_LINE_LEN + 1)) with (S 1024). apply readline_loop_end. Qed.

Lemma readline_text l c fd line i rest ps o m f :
  pieces ps (l ++ 10 :: rest) -> Forall char l -> 10 ∉ l -> 0 <= i -> i + Z.of_nat (length l) < MAX_LINE_LEN ->
  ~ (line + i <= c <= line + i + Z.of_nat (length l)) ->
  exists m' ps', readline_loop c (length l + S f) fd line MAX_LINE_LEN i (with_in o fd m ps) = Ret (i + Z.of_nat (length l)) (with_in o fd m' ps') /\
    pieces ps' rest /\ holds m' (line + i) (l ++ [0]) /\
    forall b, b <> c -> ~ (line + i <= b <= line + i + Z.of_nat (length l)) -> load8 m' b = load8 m b.
Proof.
  revert i ps m. induction l as [|x l IH]; intros i ps m Hp Hl Hn Hi Hmax Hc; cbn [length Nat.add app] in *.
  - destruct (read_one o fd m ps c 10 rest Hp) as (ps' & Hp' & E). cbn [readline_loop]. rewrite (bind_ret _ _ _ _ _ E). cbn [Z.eqb].
    erewrite bind_ret; [|reflexivity]. cbn [with_in u_mem]. rewrite load8_store8_eq, (proj2 (Z.ltb_lt _ _)) by lia. change (u8 10) with 10. cbn [Z.eqb Pos.eqb negb].
    erewrite bind_ret; [|reflexivity]. rewrite Z.add_0_r.
    eexists (store8 (store8 m c 10) (line + i) 0), ps'. split; [done|]. split_and!; [done| |].
    + intros [|k] x Hk; [|done]. injection Hk as <-. rewrite Z.add_0_r. apply load8_store8_eq.
    + intros b Hb1 Hb2. rewrite !load8_store8_ne by lia. done.
  - apply Forall_cons in Hl as [Hx Hl]. apply not_elem_of_cons in Hn as [Hx10 Hn]. unfold char in Hx.
    destruct (read_one o fd m ps c x (l ++ 10 :: rest) Hp) as (ps1 & Hp1 & E). cbn [readline_loop]. rewrite (bind_ret _ _ _ _ _ E). cbn [Z.eqb].
    erewrite bind_ret; [|reflexivity]. cbn [with_in u_mem]. rewrite load8_store8_eq, (proj2 (Z.ltb_lt _ _)) by lia. rewrite u8_small by lia.
    rewrite (proj2 (Z.eqb_neq x 10)) by done. cbn [negb]. erewrite bind_ret; [|reflexivity].
    destruct (IH (i + 1) ps1 (store8 (store8 m c x) (line + i) x)) as (m' & ps' & E' & Hp' & Hm & Ho); try done; try lia.
    exists m', ps'. split; [etransitivity; [exact E'|f_equal; lia]|]. split_and!; [done| |].
    + intros [|k] y Hk.
      * injection Hk as <-. rewrite Z.add_0_r, Ho by lia. rewrite load8_store8_eq. by rewrite u8_small by lia.
      * rewrite <- (Hm k y Hk). f_equal. lia.
    + intros b Hb1 Hb2. rewrite Ho by lia. rewrite !load8_store8_ne by lia. done.
Qed.

(** ** The command *)

Lemma strings_app m args names k arg rest :
  Forall2 (fun a n => a <> 0 /\ cstr m a xfuel = n) args names -> arg <> 0 ->
  strings m (args ++ replicate k arg ++ 0 :: rest) = names ++ replicate k (cstr m arg xfuel).
Proof.
  intros HF Ha. induction HF as [|a n args names [H0 Hn] _ IH]; cbn [app strings].
  - induction k as [|k IH]; cbn [replicate app strings]; [done|]. rewrite (proj2 (Z.eqb_neq arg 0) Ha). by f_equal.
  - rewrite (proj2 (Z.eqb_neq a 0) H0), Hn. by f_equal.
Qed.

Lemma argv_cut args arg k :
  (length args + k < 32)%nat ->
  <[(length args + k)%nat := 0]> (xargv arg args) = args ++ replicate k arg ++ 0 :: replicate (31 - length args - k) arg.
Proof.
  intros Hk. unfold xargv. change (Z.to_nat MAXARG) with 32%nat. rewrite take_app_ge by lia. rewrite take_replicate.
  rewrite insert_app_r. replace (32 - length args)%nat with (k + S (31 - length args - k))%nat by lia. rewrite Nat.min_l by lia.
  rewrite replicate_add. rewrite <- (length_replicate k arg) at 1. rewrite <- (Nat.add_0_r (length _)), insert_app_r. done.
Qed.

Section Run.
Context (line arg curr c : Z) (execs : path -> bool) (status : list path -> Z).

(** The string [n] at [a], apart from the variables of [xargs]. *)
Definition string_at (m : memory) (a : Z) (n : path) : Prop :=
  a <> 0 /\ holds m a (n ++ [0]) /\ Forall char n /\ (length n <= 1024)%nat /\
  forall b, a <= b <= a + Z.of_nat (length n) ->
    b <> c /\ ~ (line <= b <= line + 512) /\ ~ (curr <= b < curr + 512) /\ ~ (arg <= b < arg + 512).

Lemma string_kept m m' a n :
  string_at m a n ->
  (forall b, b <> c -> ~ (line <= b <= line + 512) -> ~ (curr <= b < curr + 512) -> ~ (arg <= b < arg + 512) -> load8 m' b = load8 m b) ->
  a <> 0 /\ cstr m' a xfuel = n.
Proof.
  intros (H0 & H & Hc & Hl & Ha) Hm. split; [done|]. apply cstr_word; [|done|change xfuel with 1025%nat; lia].
  eapply holds_frame; [exact H|]. intros b Hb. rewrite length_app in Hb. cbn in Hb. destruct (Ha b) as (H1 & H2 & H3 & H4); [lia|]. by apply Hm.
Qed.

Context (Hap : apart line arg curr) (Harg : arg <> 0) (Hc : ~ (line <= c <= line + 512)).

(** The line goes from the input to the memory of the child, and the words to [arg]. *)
Lemma run_line o m ps w ws args names :
  let t := joined (w :: ws) in
  pieces ps (t ++ [10]) -> ws <> [] -> Forall word (w :: ws) -> (length t <= 512)%nat ->
  (length args + length ws < 32)%nat -> Forall2 (string_at m) args names ->
  exists m1 m2, readline c 0 line MAX_LINE_LEN (with_in o 0 m ps) = Ret (Z.of_nat (length t)) (with_in o 0 m1 []) /\
    split curr line space (drop (length args) (xargv arg args)) (MAXARG - Z.of_nat (length args)) (with_in o 0 m1 []) =
      Ret (Some (Z.of_nat (length ws))) (with_in o 0 m2 []) /\
    strings m2 (<[(length args + length ws)%nat := 0]> (xargv arg args)) = names ++ replicate (length ws) (stored w ws) /\
    (forall a n, string_at m a n -> cstr m2 a xfuel = n).
Proof.
  intros t Hp Hn Hws Hl Hlen Hargs. destruct (joined_chars _ Hws) as [Htc Ht10]. fold t in Htc, Ht10.
  destruct (readline_text t c 0 line 0 [] ps o m (1024 - length t)) as (m1 & ps1 & E1 & Hp1 & H1 & O1); try done.
  { unfold MAX_LINE_LEN. lia. }
  { rewrite Z.add_0_r. lia. }
  rewrite Z.add_0_r in H1, O1. apply pieces_nil in Hp1 as ->.
  destruct (split_line line arg curr Hap w ws t (with_in o 0 m1 []) m1 (drop (length args) (xargv arg args)) (MAXARG - Z.of_nat (length args)))
    as (m2 & E2 & H2 & R2); try done.
  { unfold MAXARG. lia. }
  { intros i Hi. unfold MAXARG in Hi. unfold xargv. change (Z.to_nat MAXARG) with 32%nat. rewrite take_app_ge, drop_app_length, take_replicate by lia.
    apply lookup_total_replicate_2. lia. }
  assert (forall b, b <> c -> ~ (line <= b <= line + 512) -> ~ (curr <= b < curr + 512) -> ~ (arg <= b < arg + 512) -> load8 m2 b = load8 m b) as O2.
  { intros b Hb1 Hb2 Hb3 Hb4. rewrite R2 by done. apply O1; [done|lia]. }
  exists m1, m2. split_and!.
  - unfold readline. change (Z.to_nat (MAX_LINE_LEN + 1)) with 1025%nat. replace (length t + S (1024 - length t))%nat with 1025%nat in E1 by lia. exact E1.
  - exact E2.
  - rewrite argv_cut by done. rewrite (strings_app _ args names); [|eapply Forall2_impl; [exact Hargs|]; intros a n Ha; by eapply string_kept|done].
    rewrite (cstr_word m2 arg (stored w ws)); [done|exact H2| |].
    + eapply Forall_impl; [apply stored_word; exact Hws|naive_solver].
    + destruct (stored_word w ws Hws) as [_ Hs]. change xfuel with 1025%nat. fold t in Hs. lia.
  - intros a n Ha. by eapply string_kept.
Qed.

(** C22: user/xargs.c does not pass on the words of its input.  On one line of at least
    two words, with a space between them, [xargs] executes the command once; but its
    last word is dropped, and in place of each of the others it passes the one before
    the last, because all the entries of [argv] for words are the same array, and
    [split] stores a word only when a space follows it.  The line comes in any pieces,
    and it and the arguments are short enough for the arrays of the program. *)
Theorem xargs_garbles o argv0 args names ps w ws cmds :
  u_fds o !! 0 = Some ps -> pieces ps (joined (w :: ws) ++ [10]) -> ws <> [] -> Forall word (w :: ws) ->
  (length (joined (w :: ws)) <= 512)%nat -> (length args + length ws < 32)%nat ->
  Forall2 (string_at (u_mem o)) args names -> args <> [] ->
  let given := names ++ replicate (length ws) (stored w ws) in
  execs (hd [] names) = true -> status given <> 1 ->
  exists x', xargs_main line arg curr c execs status 2 (argv0 :: args) {| x_os := o; x_cmds := cmds |} = Ret 0 x' /\
    x_cmds x' = cmds ++ [(hd [] names, given)] /\ stored w ws = (w :: ws) !!! pred (length ws).
Proof.
  intros Hfd Hp Hn Hws Hl Hlen Hargs Hne given Hex Hst.
  pose proof (with_in_id o 0 ps Hfd) as Eo.
  destruct (run_line o (u_mem o) ps w ws args names Hp Hn Hws Hl Hlen Hargs) as (m1 & m2 & E1 & E2 & E3 & E4). rewrite <- Eo in E1.
  assert (cstr m2 (default 0 (args !! 0%nat)) xfuel = hd [] names) as Ef.
  { clear E1 E2 E3. destruct Hargs as [|a n args names Ha _]; [by destruct Hne|]. exact (E4 a n Ha). }
  assert (Z.to_nat (Z.of_nat (length args)) = length args) as En by lia.
  unfold xargs_main, xargs. change (drop 1 (argv0 :: args)) with args. cbn [length]. rewrite (proj2 (Z.leb_gt _ _)) by (destruct args; cbn; [done|lia]).
  replace (Z.of_nat (S (length args)) - 1) with (Z.of_nat (length args)) by lia. rewrite En, take_ge by done. mstep.
  change ((argv0 :: args) !! 1%nat) with (args !! 0%nat). cbn [xargs_loop].
  rewrite (bind_ret _ _ _ _ _ (zoom_ret _ {| x_os := o; x_cmds := cmds |} _ _ E1)). cbn [lput xos_os x_cmds].
  rewrite (proj2 (Z.ltb_lt _ _)) by (rewrite joined_cons, length_app by done; cbn [length]; lia). mstep. rewrite En.
  erewrite bind_ret.
  2:{ rewrite (bind_ret _ _ _ _ _ (zoom_ret _ {| x_os := with_in o 0 m1 []; x_cmds := cmds |} _ _ E2)). cbn [lput xos_os x_cmds].
      replace (Z.to_nat (Z.of_nat (length args) + Z.of_nat (length ws))) with (length args + length ws)%nat by lia.
      mstep. cbn [x_os with_in u_mem]. rewrite Ef, Hex, E3. mstep. reflexivity. }
  erewrite bind_ret; [|reflexivity]. fold given. rewrite (proj2 (Z.eqb_neq _ _) Hst). cbn [lput xos_os x_cmds x_os lget].
  erewrite bind_ret; [|apply (zoom_ret (H := xos_os)); apply (readline_end o 0 m1)].
  cbn. eexists. split_and!; [done|done|]. by apply stored_lookup.
Qed.
End Run.

Module XargsDemo.
(** [xargs echo hi] with the line [a b c] as its input. *)
Definition demo_mem : memory := store_bytes (store_bytes ∅ 100 (chars "echo" ++ [0])) 110 (chars "hi" ++ [0]).
Definition demo_os : uos := {| u_mem := demo_mem; u_fds := {[0 := [chars "a b"; chars " c" ++ [10]]]}; u_files := ∅; u_out := [] |}.

Lemma demo_strings : Forall2 (string_at 4096 12288 8192 16384 demo_mem) [100; 110] [chars "echo"; chars "hi"].
Proof.
  repeat constructor; try (cbn; lia); try (cbn in *; lia).
  - intros i x Hi. do 5 (destruct i as [|i]; [injection Hi as <-; vm_compute; reflexivity|]). discriminate Hi.
  - intros i x Hi. do 3 (destruct i as [|i]; [injection Hi as <-; vm_compute; reflexivity|]). discriminate Hi.
Qed.

Lemma xargs_garbles_witness :
  exists x', xargs_main 4096 12288 8192 16384 (fun _ => true) (fun _ => 0) 2 [90; 100; 110] {| x_os := demo_os; x_cmds := [] |} = Ret 0 x' /\
    x_cmds x' = [(chars "echo", [chars "echo"; chars "hi"; chars "b"; chars "b"])].
Proof.
  destruct (xargs_garbles 4096 12288 8192 16384 (fun _ => true) (fun _ => 0) ltac:(unfold apart; lia) ltac:(lia) ltac:(lia) demo_os 90 [100; 110]
    [chars "echo"; chars "hi"] [chars "a b"; chars " c" ++ [10]] (chars "a") [chars "b"; chars "c"] []
    eq_refl ltac:(split; [by repeat constructor|reflexivity]) ltac:(discriminate) ltac:(by repeat constructor) ltac:(cbn; lia) ltac:(cbn; lia)
    demo_strings ltac:(discriminate) eq_refl ltac:(discriminate)) as (x' & E & Ec & _).
  exists x'. split; [exact E|exact Ec].
Defined.
End XargsDemo.
