(* ===== verification/Wc.v ===== *)
(** user/cat.c and user/wc.c: the programs, then what they print. *)

From S2P Require Import Prelude Mem Digits Ulib Uprintf.

Section Programs.
(** The address of the buffer [buf], and the turns of the loops that read. *)
Context (buf : Z) (fuel : nat).

(** ** cat *)

(** [cat(fd)]: whether it returns; otherwise it has exited with status 1. *)
Fixpoint cat_loop (fuel : nat) (fd : Z) : M uos bool :=
  match fuel with
  | O => nofuel
  | S fuel' =>
      let! n := read fd buf 512 in
      if 0 <? n then
        let! r := write 1 buf n in
        if negb (r =? n) then putcs 2 (chars "cat: write error" ++ [10]) ;; mret_ false
        else cat_loop fuel' fd
      else if n <? 0 then putcs 2 (chars "cat: read error" ++ [10]) ;; mret_ false
      else mret_ true
  end.
Definition cat (fd : Z) : M uos bool := cat_loop fuel fd.

(** [for(i = 1; i < argc; i++)]: the exit status. *)
Fixpoint cat_files (names : list (list Z)) : M uos Z :=
  match names with
  | [] => mret_ 0
  | name :: names' =>
      let! fd := open_read name in
      if fd <? 0 then putcs 2 (chars "cat: cannot open " ++ name ++ [10]) ;; mret_ 1
      else
        let! ok := cat fd in
        if (ok : bool) then close fd ;; cat_files names' else mret_ 1
  end.
Definition cat_main (argv : list (list Z)) : M uos Z :=
  match argv with
  | [] => let! ok := cat 0 in mret_ (if (ok : bool) then 0 else 1)
  | names => cat_files names
  end.

(** ** wc *)

(** [strchr(" \r\t\n\v", c)] as a condition. *)
Definition is_space (c : Z) : bool := existsb (fun x => x =? c) [32; 13; 9; 10; 11].

(** The variables [l], [w], [c] and [inword]. *)
Record counts := Counts { c_l : Z; c_w : Z; c_c : Z; c_in : bool }.

(** The body of [for(i=0; i<n; i++)]. *)
Definition count (x : Z) (k : counts) : counts :=
  let l := if x =? 10 then s32 (c_l k + 1) else c_l k in
  let c := s32 (c_c k + 1) in
  if is_space x then {| c_l := l; c_w := c_w k; c_c := c; c_in := false |}
  else if negb (c_in k) then {| c_l := l; c_w := s32 (c_w k + 1); c_c := c; c_in := true |}
  else {| c_l := l; c_w := c_w k; c_c := c; c_in := c_in k |}.
Fixpoint count_loop (n : nat) (i : Z) (k : counts) : M uos counts :=
  match n with
  | O => mret_ k
  | S n' => let! x := ld (buf + i) in count_loop n' (i + 1) (count x k)
  end.

(** [printf("%d %d %d %s\n", l, w, c, name)] *)
Definition wc_line (l w c : Z) (name : list Z) : list Z :=
  uprintint_chars l 10 true ++ [32] ++ uprintint_chars w 10 true ++ [32] ++ uprintint_chars c 10 true ++ [32] ++ name ++ [10].

Fixpoint wc_loop (fuel : nat) (fd : Z) (name : list Z) (k : counts) : M uos bool :=
  match fuel with
  | O => nofuel
  | S fuel' =>
      let! n := read fd buf 512 in
      if 0 <? n then let! k := count_loop (Z.to_nat n) 0 k in wc_loop fuel' fd name k
      else if n <? 0 then putcs 1 (chars "wc: read error" ++ [10]) ;; mret_ false
      else putcs 1 (wc_line (c_l k) (c_w k) (c_c k) name) ;; mret_ true
  end.
Definition wc (fd : Z) (name : list Z) : M uos bool := wc_loop fuel fd name {| c_l := 0; c_w := 0; c_c := 0; c_in := false |}.

Fixpoint wc_files (names : list (list Z)) : M uos Z :=
  match names with
  | [] => mret_ 0
  | name :: names' =>
      let! fd := open_read name in
      if fd <? 0 then putcs 1 (chars "wc: cannot open " ++ name ++ [10]) ;; mret_ 1
      else
        let! ok := wc fd name in
        if (ok : bool) then close fd ;; wc_files names' else mret_ 1
  end.
Definition wc_main (argv : list (list Z)) : M uos Z :=
  match argv with
  | [] => let! ok := wc 0 [] in mret_ (if (ok : bool) then 0 else 1)
  | names => wc_files names
  end.
End Programs.

(** user/cat.c and user/wc.c: whatever pieces the input comes in, [cat] writes all of
    it, and [wc] prints the numbers of its lines, words and characters. *)

(** ** Lines and words *)

Definition nlines (bs : list Z) : Z := Z.of_nat (length (filter (fun b => b = 10) bs)).

(** What is between the spaces of a text; its words are those that are not empty. *)
Fixpoint fields (bs : list Z) : list (list Z) :=
  match bs with
  | [] => [[]]
  | b :: bs' =>
      if is_space b then [] :: fields bs'
      else match fields bs' with f :: fs => (b :: f) :: fs | [] => [[b]] end
  end.
Definition nwords (bs : list Z) : Z := Z.of_nat (length (filter (fun f => f <> []) (fields bs))).

(** Whether the text begins within a word. *)
Definition starts (bs : list Z) : Z := match bs with [] => 0 | b :: _ => if is_space b then 0 else 1 end.

Lemma fields_cons bs : exists f fs, fields bs = f :: fs /\ (f = [] <-> starts bs = 0).
Proof.
  destruct bs as [|b bs]; cbn [fields starts]; [by exists [], []|]. destruct (is_space b); [by exists [], (fields bs)|].
  destruct (fields bs) as [|f fs]; eexists _, _; split; done.
Qed.

Lemma starts_range bs : 0 <= starts bs <= 1.
Proof. destruct bs as [|b bs]; cbn [starts]; [lia|]. destruct (is_space b); lia. Qed.

Lemma nwords_cons b bs : nwords (b :: bs) = if is_space b then nwords bs else nwords bs + 1 - starts bs.
Proof.
  unfold nwords. cbn [fields]. destruct (is_space b); [done|]. destruct (fields_cons bs) as (f & fs & -> & Hf).
  rewrite !filter_cons. rewrite decide_True by done. cbn [length]. destruct (decide (f <> [])) as [Hn|Hn].
  - assert (starts bs = 1) as -> by (pose proof (starts_range bs); destruct (decide (starts bs = 0)) as [E|E]; [by apply Hf in E|lia]). cbn [length]. lia.
  - assert (starts bs = 0) as -> by (apply Hf; destruct f; [done|by destruct Hn]). lia.
Qed.

(** The loop over a text. *)
Definition count_all (bs : list Z) (k : counts) : counts := fold_left (fun k x => count x k) bs k.

Lemma count_all_ok bs k :
  0 <= c_l k -> 0 <= c_w k -> 0 <= c_c k ->
  c_l k + Z.of_nat (length bs) < 2 ^ 31 -> c_w k + Z.of_nat (length bs) < 2 ^ 31 -> c_c k + Z.of_nat (length bs) < 2 ^ 31 ->
  let k' := count_all bs k in
  c_l k' = c_l k + nlines bs /\ c_w k' = c_w k + nwords bs - (if c_in k then starts bs else 0) /\ c_c k' = c_c k + Z.of_nat (length bs).
Proof.
  revert k. induction bs as [|b bs IH]; intros [l w c b0] Hl Hw Hc Bl Bw Bc; cbn [c_l c_w c_c c_in length] in *.
  - change (nlines []) with 0. change (nwords []) with 0. cbn [count_all fold_left starts c_l c_w c_c]. destruct b0; lia.
  - cbn [count_all fold_left]. fold (count_all bs (count b {| c_l := l; c_w := w; c_c := c; c_in := b0 |})).
    assert (nlines (b :: bs) = (if b =? 10 then 1 else 0) + nlines bs) as ->.
    { unfold nlines. rewrite filter_cons. destruct (Z.eqb_spec b 10); [rewrite decide_True by done; cbn [length]; lia|by rewrite decide_False]. }
    rewrite nwords_cons. cbn [starts]. unfold count. cbn [c_l c_w c_c c_in]. rewrite !s32_small by (destruct (b =? 10); lia). pose proof (starts_range bs).
    destruct (is_space b), b0, (b =? 10) eqn:E10; cbn [negb];
      match goal with |- context [count_all bs ?k] => destruct (IH k) as (E1 & E2 & E3) end; cbn [c_l c_w c_c c_in] in *; try lia; rewrite E1, E2, E3; lia.
Qed.

(** ** The programs *)

Definition byte (x : Z) : Prop := 0 <= x < 256.

Lemma holds_stored m a bs : Forall byte bs -> holds (store_bytes m a bs) a bs.
Proof.
  intros HF i x Hx. rewrite load8_store_bytes. pose proof (lookup_lt_Some _ _ _ Hx). rewrite decide_True by lia.
  rewrite Z.add_simpl_l, Nat2Z.id, (list_lookup_total_correct _ _ _ Hx). rewrite Forall_lookup in HF. apply HF in Hx. unfold byte in Hx. by apply u8_small.
Qed.

Section Programs.
Context (buf : Z).

Lemma count_loop_ok o bs i k : holds (u_mem o) (buf + i) bs -> count_loop buf (length bs) i k o = Ret (count_all bs k) o.
Proof.
  revert i k. induction bs as [|b bs IH]; intros i k H; cbn [length count_loop]; [done|]. unfold ld. mstep.
  pose proof (H 0%nat b eq_refl) as Hb. rewrite Z.add_0_r in Hb. rewrite Hb. rewrite (IH (i + 1)); [done|].
  intros j x Hj. rewrite <- (H (S j) x Hj). f_equal. lia.
Qed.

Lemma count_all_app b1 b2 k : count_all (b1 ++ b2) k = count_all b2 (count_all b1 k).
Proof. apply fold_left_app. Qed.

Lemma wc_loop_ok bs fd name k o m ps fuel :
  pieces ps bs -> Forall byte bs -> (length bs < fuel)%nat ->
  exists m', wc_loop buf fuel fd name k (with_in o fd m ps) =
    let k' := count_all bs k in Ret true (printed 1 (wc_line (c_l k') (c_w k') (c_c k') name) (with_in o fd m' [])).
Proof.
  revert bs k m ps. induction fuel as [|fuel IH]; intros bs k m ps Hp Hb Hf; [lia|]. cbn [wc_loop]. destruct (decide (bs = [])) as [->|Hn].
  - apply pieces_nil in Hp as ->. rewrite (bind_ret _ _ _ _ _ (read_end o fd m buf 512)). cbn [Z.ltb Z.compare]. exists m.
    by rewrite (bind_ret _ _ _ _ _ (putcs_ok _ _ _)).
  - destruct (read_chunk o fd m ps buf 512 bs Hp Hn ltac:(lia)) as (b1 & b2 & ps' & -> & Hn1 & Hl & Hp' & E).
    apply Forall_app in Hb as [Hb1 Hb2]. rewrite length_app in Hf. assert (0 < length b1)%nat by (destruct b1; [done|cbn; lia]).
    rewrite (bind_ret _ _ _ _ _ E). rewrite (proj2 (Z.ltb_lt _ _)), Nat2Z.id by lia.
    rewrite (bind_ret _ _ _ _ _ (count_loop_ok (with_in o fd (store_bytes m buf b1) ps') b1 0 k ltac:(rewrite Z.add_0_r; by apply holds_stored))).
    rewrite count_all_app. apply IH; [done|done|lia].
Qed.

(** C24: whatever pieces [read] delivers a file in, [wc] prints its numbers of newlines,
    of words and of bytes, and its name.  A word is a longest part without blanks,
    tabs, newlines, carriage returns and vertical tabs; a zero byte counts as part of
    a word. *)
Theorem wc_correct o fd name ps bs fuel :
  u_fds o !! fd = Some ps -> pieces ps bs -> Forall byte bs -> Z.of_nat (length bs) < 2 ^ 31 -> (length bs < fuel)%nat ->
  exists m', wc buf fuel fd name o =
    Ret true (printed 1 (wc_line (nlines bs) (nwords bs) (Z.of_nat (length bs)) name) (with_in o fd m' [])).
Proof.
  intros Hfd Hp Hb Hl Hf. unfold wc.
  destruct (wc_loop_ok bs fd name {| c_l := 0; c_w := 0; c_c := 0; c_in := false |} o (u_mem o) ps fuel Hp Hb Hf) as [m' E].
  rewrite <- (with_in_id o fd ps Hfd) in E. rewrite E. cbv zeta.
  destruct (count_all_ok bs {| c_l := 0; c_w := 0; c_c := 0; c_in := false |}) as (E1 & E2 & E3); cbn [c_l c_w c_c c_in]; try lia.
  rewrite E1, E2, E3. cbn [c_l c_w c_c c_in]. rewrite !Z.add_0_l, Z.sub_0_r. exists m'. done.
Qed.

Definition with_out (o : uos) (out : list (Z * list Z)) : uos := {| u_mem := u_mem o; u_fds := u_fds o; u_files := u_files o; u_out := out |}.

(** [cat] writes its input to standard output, piece by piece. *)
Theorem cat_correct o fd ps bs fuel m :
  pieces ps bs -> Forall byte bs -> (length bs < fuel)%nat ->
  exists m' chunks, concat chunks = bs /\ cat buf fuel fd (with_in o fd m ps) = Ret true (with_in (with_out o (reverse (pair 1 <$> chunks) ++ u_out o)) fd m' []).
Proof.
  unfold cat. revert o bs m ps. induction fuel as [|fuel IH]; intros o bs m ps Hp Hb Hf; [lia|]. cbn [cat_loop]. destruct (decide (bs = [])) as [->|Hn].
  - apply pieces_nil in Hp as ->. rewrite (bind_ret _ _ _ _ _ (read_end o fd m buf 512)). cbn [Z.ltb Z.compare]. by exists m, [].
  - destruct (read_chunk o fd m ps buf 512 bs Hp Hn ltac:(lia)) as (b1 & b2 & ps' & -> & Hn1 & Hl & Hp' & E).
    apply Forall_app in Hb as [Hb1 Hb2]. rewrite length_app in Hf. assert (0 < length b1)%nat by (destruct b1; [done|cbn; lia]).
    rewrite (bind_ret _ _ _ _ _ E). rewrite (proj2 (Z.ltb_lt _ _)) by lia. unfold write. mstep. rewrite Nat2Z.id, Z.eqb_refl. cbn [negb].
    destruct (IH (with_out o ((1, b1) :: u_out o)) b2 (store_bytes m buf b1) ps' Hp' Hb2 ltac:(lia)) as (m' & chunks & Ec & E').
    exists m', (b1 :: chunks). split; [cbn; by rewrite Ec|]. cbn [with_in u_mem u_fds u_files u_out].
    rewrite (holds_bytes_at _ _ b1) by (by apply holds_stored). etransitivity; [exact E'|]. unfold with_out. cbn [u_mem u_fds u_files u_out].
    by rewrite fmap_cons, reverse_cons, <- app_assoc.
Qed.
End Programs.

Module WcDemo.
Definition demo_os : uos := {| u_mem := ∅; u_fds := {[0 := [chars "two words" ++ [10]; chars "x"]]}; u_files := ∅; u_out := [] |}.

Lemma wc_correct_witness :
  exists m', wc 4096 20 0 (chars "f") demo_os = Ret true (printed 1 (chars "1 3 11 f" ++ [10]) (with_in demo_os 0 m' [])).
Proof.
  apply (wc_correct 4096 demo_os 0 (chars "f") [chars "two words" ++ [10]; chars "x"] (chars "two words" ++ [10] ++ chars "x") 20 eq_refl);
    [split; [by repeat constructor|reflexivity]|by repeat constructor|cbn; lia|cbn; lia].
Defined.
End WcDemo.
