(* ===== verification/Utools.v ===== *)
(** The small programs of user/: echo, kill, ln, mkdir, rm, sleep, zombie and init.

    A program is the process that its [main] is, given its arguments after [argv[0]]. *)

From S2P Require Import Prelude Riscv Mem Digits Ulib Uprintf Uproc.

Definition O_RDWR : Z := 2.
Definition CONSOLE : Z := 1.

(** user/echo.c *)
Fixpoint echo_args (args : list path) : proc unit :=
  match args with
  | [] => Done tt
  | a :: args' =>
      call! Write 1 a in
      call! Write 1 (match args' with [] => [10] | _ => [32] end) in
      echo_args args'
  end.
Definition echo_main (args : list path) : proc Empty_set := do! _ <- echo_args args in Exit 0.

(** [atoi] of an argument. *)
Fixpoint atoi_loop (s : path) (n : Z) : Z :=
  match s with
  | c :: s' => if (48 <=? c) && (c <=? 57) then atoi_loop s' (s32 (n * 10 + c - 48)) else n
  | [] => n
  end.
Definition atoi (s : path) : Z := atoi_loop s 0.

(** user/kill.c *)
Fixpoint kill_args (args : list path) : proc unit :=
  match args with
  | [] => Done tt
  | a :: args' => call! Kill (atoi a) in kill_args args'
  end.
Definition kill_main (args : list path) : proc Empty_set :=
  match args with
  | [] => do! _ <- fputs 2 (chars "usage: kill pid..." ++ [10]) in Exit 1
  | _ => do! _ <- kill_args args in Exit 0
  end.

(** user/ln.c *)
Definition ln_main (args : list path) : proc Empty_set :=
  match args with
  | [old; new] =>
      do! r <- sys (Link old new) in
      do! _ <- (if r <? 0 then fputs 2 (chars "link " ++ old ++ [32] ++ new ++ chars ": failed" ++ [10]) else Done tt) in
      Exit 0
  | _ => do! _ <- fputs 2 (chars "Usage: ln old new" ++ [10]) in Exit 1
  end.

(** user/mkdir.c *)
Fixpoint mkdir_args (args : list path) : proc unit :=
  match args with
  | [] => Done tt
  | a :: args' =>
      do! r <- sys (Mkdir a) in
      if r <? 0 then fputs 2 (chars "mkdir: " ++ a ++ chars " failed to create" ++ [10]) else mkdir_args args'
  end.
Definition mkdir_main (args : list path) : proc Empty_set :=
  match args with
  | [] => do! _ <- fputs 2 (chars "Usage: mkdir files..." ++ [10]) in Exit 1
  | _ => do! _ <- mkdir_args args in Exit 0
  end.

(** user/rm.c *)
Fixpoint rm_args (args : list path) : proc unit :=
  match args with
  | [] => Done tt
  | a :: args' =>
      do! r <- sys (Unlink a) in
      if r <? 0 then fputs 2 (chars "rm: " ++ a ++ chars " failed to delete" ++ [10]) else rm_args args'
  end.
Definition rm_main (args : list path) : proc Empty_set :=
  match args with
  | [] => do! _ <- fputs 2 (chars "Usage: rm files..." ++ [10]) in Exit 1
  | _ => do! _ <- rm_args args in Exit 0
  end.

(** user/sleep.c.  [is_number] is declared in user/user.h, and its code is not among
    the sources; without an argument [argv[1]] is the null pointer, and what the
    program then reads is [null]. *)
Definition sleep_main (is_number : path -> bool) (null : path) (args : list path) : proc Empty_set :=
  do! _ <- (match args with [] => call! Write 1 (chars "error: you need to input an integer parameter") in Done tt | _ => Done tt end) in
  let parameter := hd null args in
  do! _ <- (if is_number parameter then Done tt else call! Write 1 (chars "error: you must input an integer") in Done tt) in
  call! Sleep_ (atoi parameter) in
  Exit 0.

(** user/zombie.c *)
Definition zombie_main : proc Empty_set :=
  do! pid <- sys Fork in
  do! _ <- (if 0 <? pid then call! Sleep_ 5 in Done tt else Done tt) in
  Exit 0.

(** ** user/init.c *)

(** The inner loop: [wait] until the shell has exited; whether it has. *)
Fixpoint init_wait (fuel : nat) (pid : Z) : proc bool :=
  match fuel with
  | O => Stuck
  | S fuel' =>
      do! r <- sys Wait in
      if r.1 =? pid then Done true
      else if r.1 <? 0 then do! _ <- fputs 1 (chars "init: wait returned an error" ++ [10]) in Done false
      else init_wait fuel' pid
  end.
(** The loop that starts a shell. *)
Fixpoint init_loop (fuel : nat) : proc Empty_set :=
  match fuel with
  | O => Stuck
  | S fuel' =>
      do! _ <- fputs 1 (chars "init: starting sh" ++ [10]) in
      do! pid <- sys Fork in
      if pid <? 0 then do! _ <- fputs 1 (chars "init: fork failed" ++ [10]) in Exit 1
      else if pid =? 0 then
        call! Exec (chars "sh") [chars "sh"] in
        do! _ <- fputs 1 (chars "init: exec sh failed" ++ [10]) in
        Exit 1
      else
        do! ok <- init_wait fuel' pid in
        if (ok : bool) then init_loop fuel' else Exit 1
  end.
Definition init_main (fuel : nat) : proc Empty_set :=
  do! fd <- sys (Open (chars "console") O_RDWR) in
  do! _ <- (if fd <? 0 then call! Mknod (chars "console") CONSOLE 0 in call! Open (chars "console") O_RDWR in Done tt else Done tt) in
  call! Dup 0 in
  call! Dup 0 in
  init_loop fuel.

(** ** What init starts *)

(** Descriptors 0, 1 and 2 for the console. *)
Definition console : fobj := Opened (chars "console") O_RDWR.
Definition console_fds : fds := <[2 := console]> (<[1 := console]> {[0 := console]}).

Section Init.
Context (opens : path -> Z -> bool) (execs : path -> bool) (other : forall X, call X -> X).

Lemma launch_puts {A} fd s (k : proc A) t n :
  launch opens execs other (do! _ <- fputs fd s in k) t n = launch opens execs other k t n.
Proof. induction s as [|c s IH]; [done|exact IH]. Qed.

(** The first shell that [init] starts has the console for its input, its output and
    its errors. *)
Theorem init_starts_sh fuel n :
  opens (chars "console") O_RDWR = true -> execs (chars "sh") = true ->
  exists l m, launch opens execs other (init_main (S fuel)) ∅ n = (([chars "sh"], console_fds) :: l, m).
Proof.
  intros Ho He.
  set (w1 := launch opens execs other (init_loop (S fuel)) console_fds n).
  assert (launch opens execs other (init_main (S fuel)) ∅ n = w1) as ->.
  { unfold init_main, w1. cbn [pbind sys launch fd_call]. rewrite Ho. reflexivity. }
  unfold w1. clear w1. cbn [init_loop]. rewrite launch_puts. cbn [pbind sys launch Z.ltb Z.eqb Z.compare]. rewrite He.
  match goal with |- context [let '(_, _) := ?x in _] => destruct x as [l m] end. by exists l, m.
Qed.
End Init.
