(* ===== verification/Find.v ===== *)
(** user/find.c: the files of a name in a directory tree.

    [node_at] is what [open] and [fstat] make of a path and what [read] then delivers;
    [junk p] are the bytes that the array [buf] of the call for the path [p] holds
    after the fourteen that a name takes.  The result is what is printed, with the
    descriptor it is printed to, unless a string does not fit the array it is copied
    to. *)

From S2P Require Import Prelude Riscv Mem Digits Ulib Uproc.

Definition DIRSIZ : Z := 14.
Definition slash : Z := 47.

(** The types of a file; a directory has entries, an inode number and fourteen bytes each. *)
Inductive node := NFile | NDevice | NDir (es : list (Z * list Z)).

(** What is printed; or a copy ran past the end of [file_name] or [buf]; or the fuel
    ran out. *)
Inductive found := Printed (o : list (Z * list Z)) | Overrun | OutOfFuel.

(** One call and then the rest of the loop. *)
Definition then_ (a b : found) : found :=
  match a, b with Printed o1, Printed o2 => Printed (o1 ++ o2) | Printed _, x => x | x, _ => x end.

(** [for(p=path+strlen(path); p >= path && *p != '/'; p--);] from [path + n], and [p++]. *)
Fixpoint scan_back (path : path) (n : nat) : nat :=
  if bool_decide (path !! n = Some slash) then S n else match n with O => 0 | S n' => scan_back path n' end.

(** [get_file_name]: the string that it copies to [buf]. *)
Definition get_file_name (p : path) : path := drop (scan_back p (length p)) p.

Section Find.
Context (node_at : path -> option node) (junk : path -> list Z).

(** [if(de.inum == 0) continue; if (strcmp ...) continue;] *)
Definition listed (e : Z * list Z) : bool :=
  negb (e.1 =? 0) && negb (bool_decide (upto_nul e.2 = chars ".") || bool_decide (upto_nul e.2 = chars "..")).

(** [buf] after [memmove(p, de.name, DIRSIZ)], as a string. *)
Definition next_path (p : path) (e : Z * list Z) : path := upto_nul (p ++ slash :: e.2 ++ junk p).

(** The loop over the entries; [f] is the call of [find].  The name is copied to
    [buf + strlen(path) + 1]. *)
Fixpoint each (f : path -> found) (p : path) (es : list (Z * list Z)) : found :=
  match es with
  | [] => Printed []
  | e :: es' =>
      if negb (listed e) then each f p es'
      else if 512 <? Z.of_nat (length p) + 1 + DIRSIZ then Overrun
      else then_ (f (next_path p e)) (each f p es')
  end.

(** [find(path, target)] with [depth] directories open. *)
Fixpoint find (fuel : nat) (depth : Z) (p target : path) : found :=
  match fuel with
  | O => OutOfFuel
  | S fuel' =>
      match (if depth + 3 <? NOFILE then node_at p else None) with
      | None => Printed [(2, chars "find: cannot open " ++ p ++ [10]); (2, chars "find: cannot stat " ++ p ++ chars " " ++ [10])]
      | Some NFile =>
          if DIRSIZ <? Z.of_nat (length (get_file_name p)) + 1 then Overrun
          else Printed (if bool_decide (get_file_name p = target) then [(1, p ++ [10])] else [])
      | Some NDevice => Printed []
      | Some (NDir es) =>
          then_ (Printed (if 512 <? Z.of_nat (length p) + 1 + DIRSIZ + 1 then [(2, chars "ls: path too long" ++ [10])] else []))
            (if 512 <? Z.of_nat (length p) + 1 then Overrun
             else each (fun q => find fuel' (depth + 1) q target) p es)
      end
  end.

(** [main]: wrong arguments are reported, and then used; [null] is what they then read. *)
Definition find_main (fuel : nat) (null : path) (args : list path) : found :=
  then_ (Printed (if negb (Z.of_nat (length args) =? 2) then [(2, chars "find: missing argument, usage: find [dir] [file]" ++ [10])] else []))
    (find fuel 0 (default null (args !! 0%nat)) (default null (args !! 1%nat))).
End Find.

(** ** Directory trees *)

Inductive tree := TFile | TDevice | TDir (cs : list (path * tree)).

Definition under (p n : path) : path := p ++ slash :: n.

(** The paths of the files whose name is [target], in the order of the directories;
    [p] and [n] are the path and the name of [t]. *)
Fixpoint matches (t : tree) (p n target : path) : list path :=
  match t with
  | TFile => if bool_decide (n = target) then [p] else []
  | TDevice => []
  | TDir cs => concat ((fun c => matches c.2 (under p c.1) c.1 target) <$> cs)
  end.

(** [n] is the last part of the path [p]. *)
Definition last_part (p n : path) : Prop := slash ∉ n /\ (p = n \/ exists d, p = under d n).

(** The field of fourteen bytes that holds the name [n] and the zero after it. *)
Definition field_of (f n : path) : Prop := length f = 14%nat /\ 0 ∉ n /\ exists z, f = n ++ 0 :: z.

(** The names in a directory, in their order: a free entry has no inode, and the
    directory and its parent are not among them. *)
Inductive lists : list (Z * list Z) -> list path -> Prop :=
| lists_nil : lists [] []
| lists_free f es ns : lists es ns -> lists ((0, f) :: es) ns
| lists_self i f es ns : field_of f (chars ".") -> lists es ns -> lists ((i, f) :: es) ns
| lists_parent i f es ns : field_of f (chars "..") -> lists es ns -> lists ((i, f) :: es) ns
| lists_name i f n es ns :
    i <> 0 -> field_of f n -> n <> chars "." -> n <> chars ".." -> lists es ns -> lists ((i, f) :: es) (n :: ns).

Fixpoint height (t : tree) : nat :=
  match t with
  | TDir cs => S (foldr (fun c n => Nat.max (height c.2) n) 0%nat cs)
  | _ => 1
  end.

Section Correct.
Context (node_at : path -> option node) (junk : path -> list Z).

(** The tree [t] is what is found at the path [p]. *)
Fixpoint shows (t : tree) (p : path) : Prop :=
  match t with
  | TFile => node_at p = Some NFile
  | TDevice => node_at p = Some NDevice
  | TDir cs =>
      Z.of_nat (length p) + 16 <= 512 /\ (exists es, node_at p = Some (NDir es) /\ lists es cs.*1) /\
      foldr (fun c P => slash ∉ c.1 /\ shows c.2 (under p c.1) /\ P) True cs
  end.

(** ** The name of a file *)

Lemma scan_back_stop l i k :
  l !! i = Some slash -> (i <= k)%nat -> (forall j, (i < j <= k)%nat -> l !! j <> Some slash) -> scan_back l k = S i.
Proof.
  intros Hi. induction k as [|k IH]; intros Hk Hj; cbn [scan_back].
  - replace i with 0%nat in * by lia. by rewrite bool_decide_true.
  - destruct (decide (i = S k)) as [->|Hne]; [by rewrite bool_decide_true|]. rewrite bool_decide_false by (apply Hj; lia).
    apply IH; [lia|]. intros j Hjk. apply Hj. lia.
Qed.

Lemma scan_back_none l k : slash ∉ l -> scan_back l k = 0%nat.
Proof.
  intros Hl. induction k as [|k IH]; cbn [scan_back]; rewrite bool_decide_false; try done; by intros H%list_elem_of_lookup_2.
Qed.

Lemma get_file_name_ok p n : last_part p n -> get_file_name p = n.
Proof.
  intros [Hn [->|[d ->]]]; unfold get_file_name; [by rewrite scan_back_none, drop_0|].
  rewrite (scan_back_stop _ (length d)).
  - unfold under. change (d ++ slash :: n) with (d ++ [slash] ++ n). rewrite app_assoc, drop_app_length'; [done|]. rewrite length_app. cbn. lia.
  - unfold under. by rewrite list_lookup_middle.
  - unfold under. rewrite length_app. lia.
  - intros j Hj. unfold under. rewrite lookup_app_r by lia. replace (j - length d)%nat with (S (j - length d - 1)) by lia.
    cbn. by intros H%list_elem_of_lookup_2.
Qed.

(** ** The entries *)

Lemma upto_nul_field f n : field_of f n -> upto_nul f = n /\ 0 ∈ f /\ (length n < 14)%nat.
Proof.
  intros (Hf & Hn & z & ->). rewrite length_app in Hf. cbn in Hf. split_and!; [|set_solver|lia].
  rewrite upto_nul_app by done. cbn. by rewrite app_nil_r.
Qed.

Lemma field_listed i f n : field_of f n -> listed (i, f) = negb (i =? 0) && negb (bool_decide (n = chars ".") || bool_decide (n = chars "..")).
Proof. intros [E _]%upto_nul_field. unfold listed. cbn [fst snd]. by rewrite E. Qed.

(** The path of an entry whose name is shorter than the field. *)
Lemma next_path_ok p e n : 0 ∉ p -> field_of e.2 n -> next_path junk p e = under p n.
Proof.
  intros Hp [He [Hz _]]%upto_nul_field. unfold next_path, under. rewrite upto_nul_app by done. cbn [upto_nul]. change (slash =? 0) with false.
  cbv iota. by rewrite upto_nul_end, He.
Qed.

(** What is printed for the matches. *)
Definition printed_paths (ps : list path) : list (Z * list Z) := (fun p => (1, p ++ [10])) <$> ps.

Lemma each_ok (f : path -> found) (g : path * tree -> list path) p es ns cs :
  lists es ns -> ns = cs.*1 -> 0 ∉ p -> Z.of_nat (length p) + 16 <= 512 ->
  Forall (fun c => 0 ∉ c.1 -> (length c.1 < 14)%nat -> f (under p c.1) = Printed (printed_paths (g c))) cs ->
  each junk f p es = Printed (printed_paths (concat (g <$> cs))).
Proof.
  intros Hl E Hp H16. revert cs E. induction Hl as [|g0 es ns _ IH|i g0 es ns Hh _ IH|i g0 es ns Hh _ IH|i g0 n es ns Hi Hh H1 H2 _ IH];
    intros cs E Hc; cbn [each].
  - by destruct cs.
  - by apply IH.
  - rewrite (field_listed _ _ _ Hh), bool_decide_true, andb_false_r by done. by apply IH.
  - rewrite (field_listed _ _ _ Hh), (bool_decide_true (chars ".." = chars "..")), orb_true_r, andb_false_r by done. by apply IH.
  - destruct cs as [|c cs]; [done|]. injection E as -> ->. inversion Hc as [|? ? Hc0 Hcs]; subst.
    rewrite (field_listed _ _ _ Hh), !bool_decide_false, (proj2 (Z.eqb_neq _ _) Hi) by done. cbn [negb orb andb].
    rewrite (proj2 (Z.ltb_ge _ _)) by (unfold DIRSIZ; lia). rewrite (next_path_ok p (i, g0) c.1 Hp Hh).
    rewrite Hc0, (IH cs) by (done || apply Hh || apply (upto_nul_field _ _ Hh)). cbn. unfold printed_paths. by rewrite fmap_app.
Qed.

Lemma shows_children cs p :
  foldr (fun c P => slash ∉ c.1 /\ shows c.2 (under p c.1) /\ P) True cs -> Forall (fun c => slash ∉ c.1 /\ shows c.2 (under p c.1)) cs.
Proof. induction cs as [|c cs IH]; cbn; [constructor|]. intros (H1 & H2 & H3). constructor; auto. Qed.

Lemma height_children cs n :
  (foldr (fun (c : path * tree) n => Nat.max (height c.2) n) 0%nat cs <= n)%nat -> Forall (fun c => (height c.2 <= n)%nat) cs.
Proof. induction cs as [|c cs IH]; cbn; [constructor|]. intros H. constructor; [lia|]. apply IH. lia. Qed.

Lemma find_tree fuel t depth p n target :
  shows t p -> last_part p n -> (t = TFile -> (length n < 14)%nat) -> 0 ∉ p -> (height t <= fuel)%nat -> 0 <= depth ->
  depth + Z.of_nat (height t) <= 13 -> find node_at junk fuel depth p target = Printed (printed_paths (matches t p n target)).
Proof.
  revert t depth p n. induction fuel as [|fuel IH]; intros t depth p n Hs Hn Hn14 Hp Hh Hd Hdh; [destruct t; cbn in Hh; lia|]. cbn [find].
  rewrite (proj2 (Z.ltb_lt _ _)) by (unfold NOFILE; destruct t; cbn [height] in Hdh; lia). destruct t as [| |cs]; cbn [shows matches] in *.
  - rewrite Hs, (get_file_name_ok p n Hn), (proj2 (Z.ltb_ge _ _)) by (specialize (Hn14 eq_refl); unfold DIRSIZ; lia). by case_bool_decide.
  - by rewrite Hs.
  - destruct Hs as (Hl & (es & -> & Hes) & Hc). apply shows_children in Hc. cbn [height] in Hh, Hdh.
    rewrite !(proj2 (Z.ltb_ge _ _)) by (unfold DIRSIZ; lia). erewrite each_ok; [reflexivity|exact Hes|done|done|done|].
    pose proof (height_children cs fuel ltac:(lia)) as Hhc. pose proof (height_children cs (foldr (fun (c : path * tree) n => Nat.max (height c.2) n) 0%nat cs) ltac:(lia)) as Hhm.
    rewrite !Forall_forall in *. intros c Hin Hn0 Hlen. destruct (Hc c Hin) as [Hsl Hsc]. specialize (Hhm c Hin). cbv beta in Hhm.
    apply IH; [done| |done| |by apply Hhc|lia|lia].
    + split; [done|right]. by exists p.
    + unfold under. rewrite elem_of_app, elem_of_cons. unfold slash. intros [?|[?|?]]; [done|lia|done].
Qed.

(** C23: [find] prints the paths of the files with the name it is given, in the order
    of the directories, and nothing else: in a tree of at most thirteen levels, in
    which no name has a slash or takes all the fourteen bytes of its field, no path
    with a name is longer than [buf], and the last part of the path of a single file
    has at most thirteen characters.  The paths are those the directories lead to, a name is the
    one a directory gives, and for the path that [find] starts with its last part;
    what [buf] holds at first does not matter, and no string is copied past the end
    of an array. *)
Theorem find_correct t p n target null fuel :
  shows t p -> last_part p n -> (t = TFile -> (length n < 14)%nat) -> 0 ∉ p -> (height t <= fuel)%nat -> (height t <= 13)%nat ->
  find_main node_at junk fuel null [p; target] = Printed ((fun q => (1, q ++ [10])) <$> matches t p n target).
Proof.
  intros Hs Hn H14 Hp Hf Hh. unfold find_main. cbn [lookup list_lookup default]. rewrite (find_tree fuel t 0 p n) by (done || lia). done.
Qed.
End Correct.

Module FindDemo.
(** A name in its field of fourteen bytes. *)
Definition field (s : string) : list Z := take 14 (chars s ++ replicate 14 0).
Definition demo_node (p : path) : option node :=
  if decide (p = chars ".") then Some (NDir [(1, field "."); (1, field ".."); (2, field "a"); (0, field "old"); (3, field "d")])
  else if decide (p = chars "./a") then Some NFile
  else if decide (p = chars "./d") then Some (NDir [(3, field "."); (1, field ".."); (4, field "a"); (5, field "b")])
  else if decide (p = chars "./d/a") then Some NFile
  else if decide (p = chars "./d/b") then Some NDevice
  else None.
Definition demo_tree : tree := TDir [(chars "a", TFile); (chars "d", TDir [(chars "a", TFile); (chars "b", TDevice)])].

Lemma no_zero (l : list Z) : bool_decide (0 ∈ l) = false -> 0 ∉ l.
Proof. by intros H%bool_decide_eq_false. Qed.

Lemma field_ok s : bool_decide (0 ∈ chars s) = false -> (length (chars s) < 14)%nat -> field_of (field s) (chars s).
Proof.
  intros H0%no_zero Hl. unfold field_of, field. split_and!; [|done|].
  - rewrite length_take, length_app, length_replicate. lia.
  - exists (replicate (13 - length (chars s)) 0). rewrite take_app_ge, take_replicate by lia.
    replace (Nat.min (14 - length (chars s)) 14) with (S (13 - length (chars s))) by lia. done.
Qed.

Ltac entry := apply field_ok; [vm_compute; reflexivity|cbn; lia].

Lemma demo_top : lists [(1, field "."); (1, field ".."); (2, field "a"); (0, field "old"); (3, field "d")] [chars "a"; chars "d"].
Proof.
  apply lists_self; [entry|]. apply lists_parent; [entry|]. apply lists_name; [done|entry|done|done|]. apply lists_free.
  apply lists_name; [done|entry|done|done|]. constructor.
Qed.

Lemma demo_sub : lists [(3, field "."); (1, field ".."); (4, field "a"); (5, field "b")] [chars "a"; chars "b"].
Proof.
  apply lists_self; [entry|]. apply lists_parent; [entry|]. do 2 (apply lists_name; [done|entry|done|done|]). constructor.
Qed.

Lemma no_slash (l : list Z) : bool_decide (slash ∈ l) = false -> slash ∉ l.
Proof. by intros H%bool_decide_eq_false. Qed.

Lemma demo_shows : shows demo_node demo_tree (chars ".").
Proof.
  cbn [demo_tree shows foldr fst snd]. split_and!; try done; try (by apply no_slash; vm_compute); try (cbn; lia).
  - eexists. split; [vm_compute; reflexivity|exact demo_top].
  - eexists. split; [vm_compute; reflexivity|exact demo_sub].
Qed.

Lemma find_correct_witness :
  find_main demo_node (fun _ => [7; 7]) 5 [] [chars "."; chars "a"] = Printed [(1, chars "./a" ++ [10]); (1, chars "./d/a" ++ [10])].
Proof.
  exact (find_correct demo_node (fun _ => [7; 7]) demo_tree (chars ".") (chars ".") (chars "a") [] 5 demo_shows
    (conj (no_slash (chars ".") ltac:(by vm_compute)) (or_introl eq_refl)) ltac:(discriminate) ltac:(by apply no_zero; vm_compute)
    ltac:(cbn; lia) ltac:(cbn; lia)).
Defined.
End FindDemo.
