(* ===== verification/Sh.v ===== *)
(** user/sh.c: the shell.

    The parser works on the command line in memory, from the pointer [*ps], the
    state of the monad, to the end [es]; a syntax error is a panic.  A command
    refers to its words by the addresses where they start and end, as the C
    structures do, until [nulterminate] ends each of them with a NUL. *)

From S2P Require Import Prelude Riscv Mem Ulib.

Definition MAXARGS : Z := 10.

(** [struct cmd] and its variants; [argv] with [eargv]. *)
Inductive cmd :=
| EXEC (argv : list (Z * Z))
| REDIR (c : cmd) (file efile mode fd : Z)
| PIPE (left right : cmd)
| LIST (left right : cmd)
| BACK (c : cmd).

(** The constructors; [malloc] is taken to succeed. *)
Definition execcmd : cmd := EXEC [].
Definition redircmd (subcmd : cmd) (file efile mode fd : Z) : cmd := REDIR subcmd file efile mode fd.
Definition pipecmd (left right : cmd) : cmd := PIPE left right.
Definition listcmd (left right : cmd) : cmd := LIST left right.
Definition backcmd (subcmd : cmd) : cmd := BACK subcmd.

(** " \t\r\n\v" and "<|>&;()" *)
Definition whitespace : list Z := [32; 9; 13; 10; 11].
Definition symbols : list Z := [60; 124; 62; 38; 59; 40; 41].

(** [strchr(s, c)] as a condition, on a constant string. *)
Definition has (s : list Z) (c : Z) : bool := bool_decide (c ∈ s).

Section Parse.
Context (m : memory) (es : Z).

(** [while(s < es && strchr(whitespace, *s)) s++] *)
Fixpoint skip_ws (fuel : nat) (s : Z) : Z :=
  match fuel with
  | O => s
  | S fuel' => if (s <? es) && has whitespace (load8 m s) then skip_ws fuel' (s + 1) else s
  end.
Definition skip (s : Z) : Z := skip_ws (Z.to_nat (es - s)) s.

(** [while(s < es && !strchr(whitespace, *s) && !strchr(symbols, *s)) s++] *)
Fixpoint skip_word (fuel : nat) (s : Z) : Z :=
  match fuel with
  | O => s
  | S fuel' =>
      if (s <? es) && negb (has whitespace (load8 m s)) && negb (has symbols (load8 m s))
      then skip_word fuel' (s + 1) else s
  end.

(** The token at [s], and the address after it. *)
Definition token (s : Z) : Z * Z :=
  let c := load8 m s in
  if c =? 0 then (0, s)
  else if has [124; 40; 41; 59; 38; 60] c then (c, s + 1)
  else if c =? 62 then if load8 m (s + 1) =? 62 then (43, s + 2) else (62, s + 1)
  else (97, skip_word (Z.to_nat (es - s)) s).

(** The token with its start [q] and end [eq]. *)
Definition gettoken : M Z (Z * Z * Z) :=
  let! s := gets id in
  let q := skip s in
  let '(ret, eq) := token q in
  modify (fun _ => skip eq) ;;
  mret_ (ret, q, eq).

Definition peek (toks : list Z) : M Z bool :=
  let! s := gets id in
  let s := skip s in
  modify (fun _ => s) ;;
  mret_ (negb (load8 m s =? 0) && has toks (load8 m s)).

(** A bound on the iterations of the loops that read a token each time. *)
Definition tokens_left : M Z nat := gets (fun s => S (Z.to_nat (es - s))).

Fixpoint parseredirs_loop (fuel : nat) (c : cmd) : M Z cmd :=
  match fuel with
  | O => nofuel
  | S fuel' =>
      let! b := peek [60; 62] in
      if b then
        let! '(tok, _, _) := gettoken in
        let! '(tok2, q, eq) := gettoken in
        if negb (tok2 =? 97) then panic "missing file for redirection"
        else
          parseredirs_loop fuel'
            (if tok =? 60 then redircmd c q eq O_RDONLY 0
             else if tok =? 62 then redircmd c q eq (Z.lor (Z.lor O_WRONLY O_CREATE) O_TRUNC) 1
             else if tok =? 43 then redircmd c q eq (Z.lor O_WRONLY O_CREATE) 1
             else c)
      else mret_ c
  end.
Definition parseredirs (c : cmd) : M Z cmd :=
  let! n := tokens_left in parseredirs_loop n c.

(** [cmd->argv[argc] = q; cmd->eargv[argc] = eq], where [cmd] is the [execcmd] at
    the bottom of the redirections [ret]. *)
Fixpoint add_arg (ret : cmd) (q eq : Z) : cmd :=
  match ret with
  | EXEC argv => EXEC (argv ++ [(q, eq)])
  | REDIR c file efile mode fd => REDIR (add_arg c q eq) file efile mode fd
  | c => c
  end.

(** [while(!peek(ps, es, "|)&;"))] *)
Fixpoint parseargs_loop (fuel : nat) (ret : cmd) (argc : Z) : M Z cmd :=
  match fuel with
  | O => nofuel
  | S fuel' =>
      let! b := peek [124; 41; 38; 59] in
      if b then mret_ ret
      else
        let! '(tok, q, eq) := gettoken in
        if tok =? 0 then mret_ ret
        else if negb (tok =? 97) then panic "syntax"
        else
          let ret := add_arg ret q eq in
          let argc := argc + 1 in
          if MAXARGS <=? argc then panic "too many args"
          else let! ret := parseredirs ret in parseargs_loop fuel' ret argc
  end.

(** [while(peek(ps, es, "&"))] *)
Fixpoint parsebacks_loop (fuel : nat) (c : cmd) : M Z cmd :=
  match fuel with
  | O => nofuel
  | S fuel' =>
      let! b := peek [38] in
      if b then gettoken ;; parsebacks_loop fuel' (backcmd c) else mret_ c
  end.

Fixpoint parseline (n : nat) : M Z cmd :=
  match n with
  | O => nofuel
  | S n' =>
      let! c := parsepipe n' in
      let! k := tokens_left in
      let! c := parsebacks_loop k c in
      let! b := peek [59] in
      if b then gettoken ;; let! r := parseline n' in mret_ (listcmd c r) else mret_ c
  end
with parsepipe (n : nat) : M Z cmd :=
  match n with
  | O => nofuel
  | S n' =>
      let! c := parseexec n' in
      let! b := peek [124] in
      if b then gettoken ;; let! r := parsepipe n' in mret_ (pipecmd c r) else mret_ c
  end
with parseexec (n : nat) : M Z cmd :=
  match n with
  | O => nofuel
  | S n' =>
      let! b := peek [40] in
      if b then parseblock n'
      else
        let! ret := parseredirs execcmd in
        let! k := tokens_left in
        parseargs_loop k ret 0
  end
with parseblock (n : nat) : M Z cmd :=
  match n with
  | O => nofuel
  | S n' =>
      let! b := peek [40] in
      if negb b then panic "parseblock"
      else
        gettoken ;;
        let! c := parseline n' in
        let! b := peek [41] in
        if negb b then panic "syntax - missing )"
        else gettoken ;; parseredirs c
  end.
End Parse.

(** [for(i=0; ecmd->argv[i]; i++) *ecmd->eargv[i] = 0] *)
Fixpoint nul_args (m : memory) (argv : list (Z * Z)) : memory :=
  match argv with
  | [] => m
  | (_, eq) :: argv' => nul_args (store8 m eq 0) argv'
  end.
Fixpoint nulterminate (m : memory) (c : cmd) : memory :=
  match c with
  | EXEC argv => nul_args m argv
  | REDIR c _ efile _ _ => store8 (nulterminate m c) efile 0
  | PIPE l r | LIST l r => nulterminate (nulterminate m l) r
  | BACK c => nulterminate m c
  end.

(** Calls of the parser nest at most four deep per character. *)
Definition parse_fuel (len : Z) : nat := (4 * Z.to_nat len + 4)%nat.

(** The command and the memory in which its words are NUL-terminated. *)
Definition parsecmd (fuel : nat) (m : memory) (s : Z) : outcome Z (cmd * memory) :=
  match u_strlen fuel m s with
  | None => NoFuel
  | Some len =>
      let es := s + len in
      (let! c := parseline m es (parse_fuel len) in
       peek m es [] ;;
       let! s := gets id in
       if negb (s =? es) then panic "syntax"
       else mret_ (c, nulterminate m c)) s
  end.
