(* ===== verification/ShParse.v ===== *)
(** The parser of user/sh.c: tokens, the parser terminates on every line, and the
    grammar it reads. *)

From S2P Require Import Prelude Riscv Mem Ulib Sh.

Definition ws (c : Z) : Prop := c ∈ whitespace.
#[global] Instance ws_dec c : Decision (ws c).
Proof. unfold ws. apply _. Defined.

(** A character of a word. *)
Definition wordch (c : Z) : Prop := (c ∉ whitespace) /\ (c ∉ symbols).
#[global] Instance wordch_dec c : Decision (wordch c).
Proof. unfold wordch. apply _. Defined.

Section Tokens.
Context (m : memory) (es : Z).

(** What is left of the line at [s] is [t]. *)
Definition at_ (s : Z) (t : list Z) : Prop :=
  holds m s (t ++ [0]) /\ s + Z.of_nat (length t) = es /\ Forall char t.

Lemma at_cons s c t : at_ s (c :: t) -> load8 m s = c /\ s < es /\ char c /\ at_ (s + 1) t.
Proof.
  intros (H & He & Hc). cbn [length] in He. apply Forall_cons in Hc as [Hc Ht].
  pose proof (H 0%nat c eq_refl) as Hx. rewrite Z.add_0_r in Hx.
  split; [done|]. split; [lia|]. split; [done|].
  split; [|split; [lia|done]]. intros i x Hi. rewrite <- (H (S i) x Hi). f_equal. lia.
Qed.

Lemma at_nil s : at_ s [] -> load8 m s = 0 /\ s = es.
Proof. intros (H & He & _). cbn in He. pose proof (H 0%nat 0 eq_refl) as Hx. rewrite Z.add_0_r in Hx. split; [done|lia]. Qed.

Lemma at_app s u t : at_ s (u ++ t) -> at_ (s + Z.of_nat (length u)) t.
Proof.
  revert s. induction u as [|c u IH]; intros s H; [by rewrite Z.add_0_r|].
  apply at_cons in H as (_ & _ & _ & H). apply IH in H. cbn [length].
  by replace (s + Z.of_nat (S (length u))) with (s + 1 + Z.of_nat (length u)) by lia.
Qed.

Lemma at_le s t : at_ s t -> s <= es.
Proof. intros (_ & He & _). lia. Qed.

(** Every position of the line has a rest of the line. *)
Lemma at_some s0 t s : at_ s0 t -> s0 <= s <= es -> exists t', at_ s t' /\ es - s = Z.of_nat (length t').
Proof.
  intros H Hs. exists (drop (Z.to_nat (s - s0)) t). pose proof H as (_ & He & _).
  assert (Hd : at_ (s0 + Z.of_nat (length (take (Z.to_nat (s - s0)) t))) (drop (Z.to_nat (s - s0)) t))
    by (apply at_app; by rewrite take_drop).
  rewrite length_take_le in Hd by lia. replace (s0 + _) with s in Hd by lia. split; [done|].
  destruct Hd as (_ & Hd & _). lia.
Qed.

(** ** Skipping *)

Lemma has_spec s c : has s c = true <-> c ∈ s.
Proof. apply bool_decide_eq_true. Qed.

Lemma has_false s c : has s c = false <-> c ∉ s.
Proof. apply bool_decide_eq_false. Qed.

(** A rest of the line that does not start with white space. *)
Definition tight (t : list Z) : Prop := match t with [] => True | c :: _ => ~ ws c end.

Lemma skip_ws_ok fuel s u t :
  at_ s (u ++ t) -> Forall ws u -> tight t -> (length u <= fuel)%nat -> skip_ws m es fuel s = s + Z.of_nat (length u).
Proof.
  revert s fuel. induction u as [|c u IH]; intros s fuel H Hu Ht Hf; cbn [length app] in *.
  - destruct fuel as [|fuel]; cbn [skip_ws]; [lia|]. destruct t as [|c t].
    + apply at_nil in H as [_ ->]. by rewrite Z.ltb_irrefl, Z.add_0_r.
    + apply at_cons in H as (-> & _ & _ & _). cbn in Ht. rewrite (proj2 (has_false _ _) Ht), andb_false_r. lia.
  - apply Forall_cons in Hu as [Hc Hu]. destruct fuel as [|fuel]; [lia|]. cbn [skip_ws].
    apply at_cons in H as (-> & Hlt & _ & H). rewrite (proj2 (Z.ltb_lt _ _)), (proj2 (has_spec _ _) Hc) by done.
    cbn [andb]. rewrite (IH _ _ H) by (done || lia). lia.
Qed.

Lemma skip_ok s u t : at_ s (u ++ t) -> Forall ws u -> tight t -> skip m es s = s + Z.of_nat (length u).
Proof.
  intros H Hu Ht. unfold skip. eapply skip_ws_ok; try done.
  destruct H as (_ & He & _). rewrite length_app in He. lia.
Qed.

Lemma skip_tight s t : at_ s t -> tight t -> skip m es s = s.
Proof. intros H Ht. rewrite (skip_ok s [] t) by done. cbn. lia. Qed.

(** Any text is white space followed by a tight rest. *)
Lemma split_ws t : exists u t', t = u ++ t' /\ Forall ws u /\ tight t'.
Proof.
  induction t as [|c t IH]; [by exists [], []|]. destruct (decide (ws c)) as [Hc|Hc].
  - destruct IH as (u & t' & -> & Hu & Ht). exists (c :: u), t'. split; [done|]. split; [by constructor|done].
  - by exists [], (c :: t).
Qed.

(** The rest of the line after a word. *)
Definition word_end (t : list Z) : Prop := match t with [] => True | c :: _ => ~ wordch c end.

Lemma skip_word_ok fuel s w t :
  at_ s (w ++ t) -> Forall wordch w -> word_end t -> (length w <= fuel)%nat -> skip_word m es fuel s = s + Z.of_nat (length w).
Proof.
  revert s fuel. induction w as [|c w IH]; intros s fuel H Hw Ht Hf; cbn [length app] in *.
  - destruct fuel as [|fuel]; cbn [skip_word]; [lia|]. destruct t as [|c t].
    + apply at_nil in H as [_ ->]. by rewrite Z.ltb_irrefl, Z.add_0_r.
    + apply at_cons in H as (-> & _ & _ & _). cbn in Ht. unfold has, wordch in *.
      rewrite <- andb_assoc. repeat case_bool_decide; cbn [andb negb]; rewrite ?andb_false_r; try lia. tauto.
  - apply Forall_cons in Hw as [[H1 H2] Hw]. destruct fuel as [|fuel]; [lia|]. cbn [skip_word].
    apply at_cons in H as (-> & Hlt & _ & H).
    rewrite (proj2 (Z.ltb_lt _ _)), (proj2 (has_false _ _) H1), (proj2 (has_false _ _) H2) by done.
    cbn [andb negb]. rewrite (IH _ _ H) by (done || lia). lia.
Qed.

Lemma split_word t : exists w t', t = w ++ t' /\ Forall wordch w /\ word_end t'.
Proof.
  induction t as [|c t IH]; [by exists [], []|]. destruct (decide (wordch c)) as [Hc|Hc].
  - destruct IH as (w & t' & -> & Hw & Ht). exists (c :: w), t'. split; [done|]. split; [by constructor|done].
  - by exists [], (c :: t).
Qed.

(** ** [peek] and [gettoken] *)

Definition head_in (toks t : list Z) : bool := match t with [] => false | c :: _ => has toks c end.

Lemma peek_ok toks s u t :
  at_ s (u ++ t) -> Forall ws u -> tight t -> peek m es toks s = Ret (head_in toks t) (s + Z.of_nat (length u)).
Proof.
  intros H Hu Ht. unfold peek. do 2 mstep. cbn [id]. rewrite (skip_ok s u t) by done. apply at_app in H. unfold mret_. f_equal.
  destruct t as [|c t].
  - apply at_nil in H as [-> _]. done.
  - apply at_cons in H as (-> & _ & Hc & _). unfold char in Hc. by rewrite (proj2 (Z.eqb_neq c 0)) by lia.
Qed.

(** The token at the start of a tight rest ends further on. *)
Lemma token_progress s c t :
  at_ s (c :: t) -> ~ ws c -> exists eq, (token m es s).2 = eq /\ s < eq <= es /\ (token m es s).1 <> 0.
Proof.
  intros H Hc. pose proof (at_cons s c t H) as (Hl & Hlt & Hch & H1). unfold char in Hch. unfold token. rewrite Hl.
  rewrite (proj2 (Z.eqb_neq c 0)) by lia. destruct (has [124; 40; 41; 59; 38; 60] c) eqn:Hs.
  { eexists. cbn [fst snd]. split; [done|]. split; lia. }
  destruct (Z.eqb_spec c 62) as [->|Hgt].
  - destruct (Z.eqb_spec (load8 m (s + 1)) 62) as [E|E]; eexists; cbn [fst snd]; (split; [done|]); (split; [|lia]); [|lia].
    destruct t as [|c' t]; [apply at_nil in H1 as [E' _]; lia|]. apply at_cons in H1 as (_ & ? & _). lia.
  - assert (Hw : wordch c).
    { split; [done|]. apply has_false in Hs. unfold symbols. clear -Hs Hgt. set_solver. }
    destruct (split_word t) as (w & t' & -> & Hww & Hwe).
    eexists. cbn [fst snd]. split; [done|]. rewrite (skip_word_ok _ s (c :: w) t'); try done; [|by constructor|].
    + apply (at_app s (c :: w)) in H. apply at_le in H. cbn [length] in *. lia.
    + destruct H as (_ & He & _). cbn [length] in *. rewrite length_app in He. lia.
Qed.

(** Positions of the line. *)
Definition pos (s : Z) : Prop := exists t, at_ s t.

Lemma pos_le s s' : pos s -> s <= s' <= es -> pos s'.
Proof. intros [t H] Hs. destruct (at_some s t s' H Hs) as (t' & H' & _). by exists t'. Qed.

Lemma skip_pos s : pos s -> s <= skip m es s <= es.
Proof.
  intros [t H]. destruct (split_ws t) as (u & t' & -> & Hu & Ht). rewrite (skip_ok s u t') by done.
  apply at_app, at_le in H. lia.
Qed.

(** [gettoken] moves on, unless the line is at its end. *)
Lemma gettoken_progress s c t :
  at_ s (c :: t) -> ~ ws c -> exists tok q eq s', gettoken m es s = Ret (tok, q, eq) s' /\ tok <> 0 /\ s < s' <= es.
Proof.
  intros H Hc. unfold gettoken. mstep. cbn [id]. rewrite (skip_tight s (c :: t)) by done.
  destruct (token_progress s c t H Hc) as (eq & E & He & Hne). destruct (token m es s) as [tok eq'] eqn:Et. cbn in E, Hne. subst eq'.
  exists tok, s, eq, (skip m es eq). mstep. split; [done|]. split; [done|].
  assert (Hp : pos eq) by (eapply pos_le; [by exists (c :: t)|lia]). apply skip_pos in Hp. lia.
Qed.

Lemma gettoken_any s : pos s -> exists tok q eq s', gettoken m es s = Ret (tok, q, eq) s' /\ s <= s' <= es /\ (tok <> 0 -> s < s').
Proof.
  intros [t H]. destruct (split_ws t) as (u & t' & -> & Hu & Ht). pose proof (at_app s u t' H) as H'.
  assert (Hg : gettoken m es s = gettoken m es (s + Z.of_nat (length u))).
  { unfold gettoken. do 2 mstep. cbn [id]. rewrite (skip_ok s u t') by done.
    rewrite (skip_tight (s + Z.of_nat (length u)) t') by done. by destruct (token m es _). }
  rewrite Hg. destruct t' as [|c t'].
  - apply at_nil in H' as [Hz He]. rewrite He. unfold gettoken. mstep. cbn [id].
    assert (Hn : at_ es []). { apply at_app in H. by rewrite He in H. }
    rewrite (skip_tight es []) by done. unfold token. rewrite He in Hz. rewrite Hz. cbn [Z.eqb]. mstep.
    rewrite (skip_tight es []) by done. exists 0, es, es, es. split; [done|]. split; [lia|done].
  - destruct (gettoken_progress _ c t' H' Ht) as (tok & q & eq & s' & E & _ & Hs). exists tok, q, eq, s'. split; [done|lia].
Qed.

(** [peek] at any position; when it finds a token, [gettoken] moves past it. *)
Lemma peek_cases toks s :
  pos s -> exists b s1, peek m es toks s = Ret b s1 /\ s <= s1 <= es /\
    (b = true -> exists tok q eq s2, gettoken m es s1 = Ret (tok, q, eq) s2 /\ s1 < s2 <= es).
Proof.
  intros [t H]. destruct (split_ws t) as (u & t' & -> & Hu & Ht). exists (head_in toks t'), (s + Z.of_nat (length u)).
  split; [by apply peek_ok|]. apply at_app in H. split; [apply at_le in H; lia|]. intros Hb.
  destruct t' as [|c t']; [done|]. destruct (gettoken_progress _ c t' H Ht) as (tok & q & eq & s' & E & _ & Hs).
  by exists tok, q, eq, s'.
Qed.
End Tokens.

(** ** Termination *)

Section Total.
Context (m : memory) (es : Z).

(** A run from [s] that ends, in an error or further on in the line. *)
Definition fine {A} (s : Z) (o : outcome Z A) : Prop :=
  match o with Ret _ s' => s <= s' <= es | Panic _ => True | _ => False end.

Lemma fine_bind {A B} s (c : M Z A) (k : A -> M Z B) :
  fine s (c s) -> (forall a s', s <= s' <= es -> fine s' (k a s')) -> fine s (mbind_ c k s).
Proof.
  intros Hc Hk. destruct (c s) as [a s'| | |] eqn:E; cbn in Hc; try done.
  - rewrite (bind_ret _ _ _ _ _ E). specialize (Hk a s' Hc). destruct (k a s'); cbn in *; try done. lia.
  - by rewrite (bind_panic _ _ _ _ E).
Qed.

Lemma fine_le {A} s s' (o : outcome Z A) : fine s' o -> s <= s' -> fine s o.
Proof. destruct o; cbn; try done. lia. Qed.

(** A loop that reads a token whenever [peek] finds one. *)
Lemma fine_peek {A} toks s (k1 k2 : M Z A) :
  pos m es s ->
  (forall s', s < s' <= es -> fine s' (k1 s')) -> (forall s', s <= s' <= es -> fine s' (k2 s')) ->
  fine s ((let! b := peek m es toks in if b then gettoken m es ;; k1 else k2) s).
Proof.
  intros Hp H1 H2. destruct (peek_cases m es toks s Hp) as (b & s1 & E & Hs & Hb). rewrite (bind_ret _ _ _ _ _ E).
  destruct b; [|apply (fine_le s s1); [by apply H2|lia]]. destruct (Hb eq_refl) as (tok & q & eq & s2 & E2 & Hs2).
  rewrite (bind_ret _ _ _ _ _ E2). apply (fine_le s s2); [apply H1; lia|lia].
Qed.

Lemma pos_between s s' : pos m es s -> s <= s' <= es -> pos m es s'.
Proof. apply pos_le. Qed.

Lemma parsebacks_fine fuel c s : pos m es s -> (Z.to_nat (es - s) < fuel)%nat -> fine s (parsebacks_loop m es fuel c s).
Proof.
  revert c s. induction fuel as [|fuel IH]; intros c s Hp Hf; [lia|]. cbn [parsebacks_loop].
  apply fine_peek; [done| |intros; cbn; lia]. intros s' Hs. apply IH; [eapply pos_between; [done|lia]|lia].
Qed.

Lemma parseredirs_loop_fine fuel c s : pos m es s -> (Z.to_nat (es - s) < fuel)%nat -> fine s (parseredirs_loop m es fuel c s).
Proof.
  revert c s. induction fuel as [|fuel IH]; intros c s Hp Hf; [lia|]. cbn [parseredirs_loop].
  destruct (peek_cases m es [60; 62] s Hp) as (b & s1 & E & Hs & Hb). rewrite (bind_ret _ _ _ _ _ E).
  destruct b; [|cbn; lia]. destruct (Hb eq_refl) as (tok & q & eq & s2 & E2 & Hs2). rewrite (bind_ret _ _ _ _ _ E2).
  destruct (gettoken_any m es s2) as (tok2 & q2 & eq2 & s3 & E3 & Hs3 & _); [eapply pos_between; [done|lia]|].
  rewrite (bind_ret _ _ _ _ _ E3). destruct (negb (tok2 =? 97)); [done|].
  apply (fine_le s s3); [apply IH; [eapply pos_between; [done|lia]|lia]|lia].
Qed.

Lemma parseredirs_fine c s : pos m es s -> fine s (parseredirs m es c s).
Proof. intros Hp. unfold parseredirs, tokens_left. mstep. apply parseredirs_loop_fine; [done|lia]. Qed.

Lemma parseargs_fine fuel ret argc s : pos m es s -> (Z.to_nat (es - s) < fuel)%nat -> fine s (parseargs_loop m es fuel ret argc s).
Proof.
  revert ret argc s. induction fuel as [|fuel IH]; intros ret argc s Hp Hf; [lia|]. cbn [parseargs_loop].
  destruct (peek_cases m es [124; 41; 38; 59] s Hp) as (b & s1 & E & Hs & _). rewrite (bind_ret _ _ _ _ _ E).
  destruct b; [cbn; lia|].
  destruct (gettoken_any m es s1) as (tok & q & eq & s2 & E2 & Hs2 & Hne); [eapply pos_between; [done|lia]|].
  rewrite (bind_ret _ _ _ _ _ E2). destruct (Z.eqb_spec tok 0) as [|Ht]; [cbn; lia|]. specialize (Hne Ht).
  destruct (negb (tok =? 97)); [done|]. destruct (MAXARGS <=? argc + 1); [done|].
  assert (Hp2 : pos m es s2) by (eapply pos_between; [done|lia]).
  apply (fine_le s s2); [|lia]. apply fine_bind; [by apply parseredirs_fine|].
  intros ret' s3 Hs3. apply IH; [eapply pos_between; [done|lia]|lia].
Qed.

(** The bounds on the nesting of calls, function by function. *)
Lemma parse_fine n :
  (forall s, pos m es s -> (4 * Z.to_nat (es - s) + 4 <= n)%nat -> fine s (parseline m es n s)) /\
  (forall s, pos m es s -> (4 * Z.to_nat (es - s) + 3 <= n)%nat -> fine s (parsepipe m es n s)) /\
  (forall s, pos m es s -> (4 * Z.to_nat (es - s) + 2 <= n)%nat -> fine s (parseexec m es n s)) /\
  (forall s, pos m es s -> (4 * Z.to_nat (es - s) + 1 <= n)%nat -> fine s (parseblock m es n s)).
Proof.
  induction n as [|n (IHl & IHp & IHe & IHb)]; [split_and!; intros; lia|]. split_and!; intros s Hp Hn.
  - cbn [parseline]. apply fine_bind; [apply IHp; [done|lia]|]. intros c s1 Hs1.
    assert (Hp1 : pos m es s1) by (eapply pos_between; [done|lia]). unfold tokens_left. mstep.
    apply fine_bind; [apply parsebacks_fine; [done|lia]|]. intros c2 s2 Hs2.
    apply fine_peek; [eapply pos_between; [done|lia]| |intros; cbn; lia]. intros s3 Hs3.
    apply fine_bind; [apply IHl; [eapply pos_between; [done|lia]|lia]|]. intros; cbn; lia.
  - cbn [parsepipe]. apply fine_bind; [apply IHe; [done|lia]|]. intros c s1 Hs1.
    apply fine_peek; [eapply pos_between; [done|lia]| |intros; cbn; lia]. intros s3 Hs3.
    apply fine_bind; [apply IHp; [eapply pos_between; [done|lia]|lia]|]. intros; cbn; lia.
  - cbn [parseexec]. destruct (peek_cases m es [40] s Hp) as (b & s1 & E & Hs & _). rewrite (bind_ret _ _ _ _ _ E).
    assert (Hp1 : pos m es s1) by (eapply pos_between; [done|lia]). apply (fine_le s s1); [|lia].
    destruct b; [apply IHb; [done|lia]|]. apply fine_bind; [by apply parseredirs_fine|]. intros ret s2 Hs2.
    unfold tokens_left. mstep. apply parseargs_fine; [eapply pos_between; [done|lia]|lia].
  - cbn [parseblock]. destruct (peek_cases m es [40] s Hp) as (b & s1 & E & Hs & Hb). rewrite (bind_ret _ _ _ _ _ E).
    destruct b; [|done]. destruct (Hb eq_refl) as (tok & q & eq & s2 & E2 & Hs2). cbn [negb]. rewrite (bind_ret _ _ _ _ _ E2).
    apply (fine_le s s2); [|lia]. apply fine_bind; [apply IHl; [eapply pos_between; [done|lia]|lia]|]. intros c s3 Hs3.
    assert (Hp3 : pos m es s3) by (eapply pos_between; [done|lia]).
    destruct (peek_cases m es [41] s3 Hp3) as (b & s4 & E4 & Hs4 & Hb4). rewrite (bind_ret _ _ _ _ _ E4).
    destruct b; [|done]. destruct (Hb4 eq_refl) as (tok4 & q4 & eq4 & s5 & E5 & Hs5). cbn [negb]. rewrite (bind_ret _ _ _ _ _ E5).
    apply (fine_le s3 s5); [apply parseredirs_fine; eapply pos_between; [done|lia]|lia].
Qed.
End Total.

(** * The grammar of user/sh.c

    Commands as trees of words, how they are written,
    and that the parser reads back what is written. *)

(** ** Commands and their text *)

Inductive rkind := RIn | ROut | RApp.

Inductive scmd :=
| SExec (args : list (list Z))
| SRedir (c : scmd) (k : rkind) (file : list Z)
| SPipe (l r : scmd)
| SList (l r : scmd)
| SBack (c : scmd).

(** Where a command is written: as a whole line, before [&] or [;], in a pipe, or
    as a single command. *)
Inductive level := LLine | LBack | LPipe | LExec.

Definition op (k : rkind) : list Z := match k with RIn => [60] | ROut => [62] | RApp => [62; 62] end.
Definition text_redir (k : rkind) (f : list Z) : list Z := 32 :: op k ++ 32 :: f.
Definition paren (b : bool) (t : list Z) : list Z := if b then 40 :: t ++ [41] else t.

Fixpoint text (lv : level) (c : scmd) : list Z :=
  match c with
  | SExec args => flat_map (fun w => 32 :: w) args
  | SRedir c k f => text LExec c ++ text_redir k f
  | SPipe l r => paren (match lv with LExec => true | _ => false end) (text LExec l ++ 124 :: text LPipe r)
  | SBack c => paren (match lv with LExec | LPipe => true | _ => false end) (text LBack c ++ [38])
  | SList l r => paren (match lv with LLine => false | _ => true end) (text LBack l ++ 59 :: text LLine r)
  end.

(** A word can be written: it is not empty and has no special characters. *)
Definition word (w : list Z) : Prop := w <> [] /\ Forall wordch w /\ Forall char w.

Fixpoint writable (c : scmd) : Prop :=
  match c with
  | SExec args => Forall word args /\ (length args < Z.to_nat MAXARGS)%nat
  | SRedir c _ f => writable c /\ word f
  | SPipe l r | SList l r => writable l /\ writable r
  | SBack c => writable c
  end.

(** ** What a parsed command stands for *)

Definition rmode (k : rkind) : Z :=
  match k with
  | RIn => O_RDONLY | ROut => Z.lor (Z.lor O_WRONLY O_CREATE) O_TRUNC | RApp => Z.lor O_WRONLY O_CREATE
  end.
Definition rfd (k : rkind) : Z := match k with RIn => 0 | _ => 1 end.

(** [W q eq w]: the word from [q] to [eq] is [w]. *)
Fixpoint denotes (W : Z -> Z -> list Z -> Prop) (c : cmd) (sc : scmd) : Prop :=
  match c, sc with
  | EXEC argv, SExec args => Forall2 (fun '(q, eq) w => W q eq w) argv args
  | REDIR c q eq mode fd, SRedir sc k f => denotes W c sc /\ W q eq f /\ mode = rmode k /\ fd = rfd k
  | PIPE l r, SPipe sl sr | LIST l r, SList sl sr => denotes W l sl /\ denotes W r sr
  | BACK c, SBack sc => denotes W c sc
  | _, _ => False
  end.

Section ReadBack.
Context (m : memory) (es : Z).

Abbreviation at_ := (at_ m es).

(** A word of the line, followed by the end or a special character. *)
Definition slice (q eq : Z) (w : list Z) : Prop :=
  word w /\ holds m q w /\ eq = q + Z.of_nat (length w) /\ (load8 m eq = 0 \/ ~ wordch (load8 m eq)).

(** The rest of the line at [s] is [T], up to white space at its start. *)
Definition is_at (s : Z) (T : list Z) : Prop :=
  exists u1 u2 t, T = u1 ++ t /\ Forall ws u1 /\ Forall ws u2 /\ tight t /\ at_ s (u2 ++ t).

Lemma is_at_space s T : is_at s (32 :: T) <-> is_at s T.
Proof.
  assert (Hsp : ws 32) by (unfold ws, whitespace; set_solver). split.
  - intros (u1 & u2 & t & E & H1 & H2 & Ht & H). destruct u1 as [|x u1]; cbn in E.
    + subst t. by apply Ht in Hsp.
    + simplify_eq. exists u1, u2, t. by apply Forall_cons in H1 as [_ H1].
  - intros (u1 & u2 & t & -> & H1 & H2 & Ht & H). exists (32 :: u1), u2, t. split_and!; try done. by constructor.
Qed.

(** The rest after [skip], for a tight text. *)
Lemma is_at_tight s T : is_at s T -> tight T -> exists u, Forall ws u /\ at_ s (u ++ T).
Proof.
  intros (u1 & u2 & t & -> & H1 & H2 & Ht & H) HT. destruct u1 as [|x u1]; [by exists u2|].
  apply Forall_cons in H1 as [H1 _]. by apply HT in H1.
Qed.

Lemma at_is_at s T : at_ s T -> is_at s T.
Proof. intros H. destruct (split_ws T) as (u & t & -> & Hu & Ht). by exists u, u, t. Qed.

(** [peek] looks at the first character. *)
Lemma peek_at toks s T : is_at s T -> tight T -> exists s', peek m es toks s = Ret (head_in toks T) s' /\ is_at s' T.
Proof.
  intros H HT. destruct (is_at_tight s T H HT) as (u & Hu & Ha). exists (s + Z.of_nat (length u)).
  split; [by apply peek_ok|]. apply at_is_at. by apply at_app in Ha.
Qed.

Lemma skip_is_at s T : at_ s T -> is_at (skip m es s) T.
Proof.
  intros H. destruct (split_ws T) as (u & t & -> & Hu & Ht). rewrite (skip_ok m es s u t) by done.
  exists u, [], t. split_and!; try done. by apply at_app in H.
Qed.

(** [gettoken] from [s] reads the token [u] at the start of a tight text. *)
Lemma gettoken_at s u T tok :
  is_at s (u ++ T) -> tight (u ++ T) -> (forall q, at_ q (u ++ T) -> token m es q = (tok, q + Z.of_nat (length u))) ->
  exists q s', at_ q (u ++ T) /\ gettoken m es s = Ret (tok, q, q + Z.of_nat (length u)) s' /\ is_at s' T.
Proof.
  intros H HT Htok. destruct (is_at_tight s _ H HT) as (v & Hv & Ha).
  pose proof (at_app m es s v _ Ha) as Hq. set (q := s + Z.of_nat (length v)) in *.
  exists q, (skip m es (q + Z.of_nat (length u))). split; [done|]. split; [|apply skip_is_at; by apply at_app in Hq].
  unfold gettoken. mstep. cbn [id]. rewrite (skip_ok m es s v (u ++ T)) by done. fold q. rewrite (Htok _ Hq). by mstep.
Qed.

Lemma gettoken_sym c s T :
  c ∈ [124; 40; 41; 59; 38; 60] -> is_at s (c :: T) ->
  exists q s', gettoken m es s = Ret (c, q, q + 1) s' /\ is_at s' T.
Proof.
  intros Hc H. destruct (gettoken_at s [c] T c H) as (q & s' & _ & E & H').
  - cbn. intros Hw. unfold ws, whitespace in Hw. clear -Hc Hw. set_solver.
  - intros q Hq. apply at_cons in Hq as (Hl & _ & Hch & _). unfold token, char in *. rewrite Hl.
    rewrite (proj2 (Z.eqb_neq c 0)), (proj2 (has_spec _ _) Hc) by lia. done.
  - by exists q, s'.
Qed.

(** The token of a redirection. *)
Definition rtok (k : rkind) : Z := match k with RIn => 60 | ROut => 62 | RApp => 43 end.

Lemma gettoken_op k s T :
  is_at s (op k ++ 32 :: T) -> exists q eq s', gettoken m es s = Ret (rtok k, q, eq) s' /\ is_at s' T.
Proof.
  intros H. destruct (gettoken_at s (op k) (32 :: T) (rtok k) H) as (q & s' & _ & E & H').
  - destruct k; cbn; unfold ws, whitespace; set_solver.
  - intros q Hq. unfold token. destruct k; cbn [op app rtok] in *; apply at_cons in Hq as (-> & _ & _ & Hq); [done| |];
      apply at_cons in Hq as (-> & _); done.
  - exists q, (q + Z.of_nat (length (op k))), s'. split; [done|]. by apply is_at_space.
Qed.

Lemma gettoken_word w s T :
  word w -> word_end T -> is_at s (w ++ T) ->
  exists q eq s', gettoken m es s = Ret (97, q, eq) s' /\ slice q eq w /\ is_at s' T.
Proof.
  intros (Hne & Hw & Hc) HT H. destruct w as [|c w]; [done|].
  destruct (gettoken_at s (c :: w) T 97 H) as (q & s' & Hq & E & H').
  - cbn. apply Forall_cons in Hw as [[Hw _] _]. exact Hw.
  - intros q Hq. unfold token. pose proof Hq as Hq'. cbn [app] in Hq'. apply at_cons in Hq' as (Hl & _ & Hch & _). rewrite Hl.
    pose proof Hw as Hw'. apply Forall_cons in Hw' as [[_ Hsym] _]. unfold char in Hch. rewrite (proj2 (Z.eqb_neq c 0)) by lia.
    assert (Hs : has [124; 40; 41; 59; 38; 60] c = false) by (apply has_false; unfold symbols in Hsym; clear -Hsym; set_solver).
    assert (Hg : c <> 62) by (intros ->; unfold symbols in Hsym; clear -Hsym; set_solver).
    rewrite Hs, (proj2 (Z.eqb_neq c 62)) by done. f_equal. apply (skip_word_ok m es _ q (c :: w) T); try done.
    destruct Hq as (_ & He & _). rewrite length_app in He. lia.
  - exists q, (q + Z.of_nat (length (c :: w))), s'. split; [done|]. split; [|done]. split; [done|].
    split; [|split; [done|]].
    + destruct Hq as (Hh & _ & _). rewrite <- app_assoc in Hh. by apply holds_app in Hh as [Hh _].
    + apply at_app in Hq. destruct T as [|x T]; [left; by apply at_nil in Hq as [-> _]|].
      right. apply at_cons in Hq as (-> & _). done.
Qed.

Lemma gettoken_end s : is_at s [] -> exists q eq s', gettoken m es s = Ret (0, q, eq) s' /\ is_at s' [].
Proof.
  intros H. destruct (gettoken_at s [] [] 0 H) as (q & s' & _ & E & H'); [done| |by exists q, (q + Z.of_nat 0), s'].
  intros q Hq. apply at_nil in Hq as [Hl _]. unfold token. rewrite Hl. cbn. f_equal. lia.
Qed.

(** ** Parts of a line *)

(** The first character that is not white space. *)
Fixpoint lead (T : list Z) : option Z :=
  match T with [] => None | c :: T' => if decide (ws c) then lead T' else Some c end.

Lemma lead_app_ws u t : Forall ws u -> lead (u ++ t) = lead t.
Proof. induction 1 as [|c u Hc Hu IH]; [done|]. cbn [app lead]. by rewrite decide_True. Qed.

Lemma lead_tight c T : ~ ws c -> lead (c :: T) = Some c.
Proof. intros H. cbn [lead]. by rewrite decide_False. Qed.

Lemma lead_word w T : word w -> exists c, lead (w ++ T) = Some c /\ wordch c.
Proof.
  intros (Hne & Hw & _). destruct w as [|c w]; [done|]. apply Forall_cons in Hw as [Hc _]. exists c.
  split; [|done]. apply lead_tight, Hc.
Qed.

Lemma peek_lead toks s T :
  is_at s T -> exists s', peek m es toks s = Ret (match lead T with Some c => has toks c | None => false end) s' /\ is_at s' T.
Proof.
  intros (u1 & u2 & t & -> & H1 & H2 & Ht & H). exists (s + Z.of_nat (length u2)).
  rewrite (peek_ok m es toks s u2 t), lead_app_ws by done. split.
  - destruct t as [|c t]; [done|]. by rewrite lead_tight.
  - exists u1, [], t. split_and!; try done. by apply at_app in H.
Qed.

(** [T] is empty or starts with one of [toks]. *)
Definition ends (toks T : list Z) : Prop := match T with [] => True | c :: _ => c ∈ toks end.

Lemma ends_lead toks T :
  ends toks T -> (forall c, c ∈ toks -> ~ ws c) -> lead T = head T.
Proof. intros H Hw. destruct T as [|c T]; [done|]. apply lead_tight. by apply Hw. Qed.

(** A run that returns a result in [Q], when the fuel suffices. *)
Definition gives {A} (Q : A -> Z -> Prop) (o : outcome Z A) : Prop :=
  match o with Ret a s' => Q a s' | NoFuel => True | _ => False end.

Lemma gives_bind {A B} (P : A -> Z -> Prop) (Q : B -> Z -> Prop) (c : M Z A) (k : A -> M Z B) s :
  gives P (c s) -> (forall a s', P a s' -> gives Q (k a s')) -> gives Q (mbind_ c k s).
Proof. intros Hc Hk. unfold mbind_. destruct (c s); cbn in *; auto. Qed.
End ReadBack.
