(* ===== verification/ShProps.v ===== *)
(** The parser of user/sh.c reads back what is written: redirections, arguments,
    and the four mutually recursive functions; then the theorems on the parser. *)

From S2P Require Import Prelude Riscv Mem Ulib Sh ShParse.

(** ** The parts of a text *)

(** A command with redirections added. *)
Fixpoint wrap (c : scmd) (rs : list (rkind * list Z)) : scmd :=
  match rs with [] => c | (k, f) :: rs' => wrap (SRedir c k f) rs' end.
Definition redirs (rs : list (rkind * list Z)) : list Z := flat_map (fun r => text_redir r.1 r.2) rs.
Definition argtext (args : list (list Z)) : list Z := flat_map (fun w => 32 :: w) args.

Definition is_redir (c : scmd) : bool := match c with SRedir _ _ _ => true | _ => false end.

Lemma text_wrap c rs : text LExec (wrap c rs) = text LExec c ++ redirs rs.
Proof.
  revert c. induction rs as [|[k f] rs IH]; intros c; [by rewrite app_nil_r|]. cbn [wrap]. rewrite IH.
  cbn [text redirs flat_map fst snd]. by rewrite <- app_assoc.
Qed.

Lemma writable_wrap c rs : writable (wrap c rs) <-> writable c /\ Forall (fun r => word r.2) rs.
Proof.
  revert c. induction rs as [|[k f] rs IH]; intros c; cbn [wrap]; [by rewrite Forall_nil; tauto|].
  rewrite IH, Forall_cons. cbn. tauto.
Qed.

Lemma unwrap c : exists b rs, c = wrap b rs /\ is_redir b = false.
Proof.
  enough (H : forall rs, exists b rs', wrap c rs = wrap b rs' /\ is_redir b = false) by apply (H []).
  induction c as [args|c IH k f|l _ r _|l _ r _|c _]; intros rs; [|apply (IH ((k, f) :: rs))| | |];
    match goal with |- context [wrap ?c rs] => by exists c, rs end.
Qed.

(** A command in the background [k] times. *)
Fixpoint backs (k : nat) (c : scmd) : scmd := match k with O => c | S k' => backs k' (SBack c) end.

Lemma unback c : exists k p, c = backs k p /\ text LBack c = text LPipe p ++ repeat 38 k /\ (writable c <-> writable p).
Proof.
  enough (H : forall j, exists k p, backs j c = backs k p /\ text LBack c ++ repeat 38 j = text LPipe p ++ repeat 38 k /\
    (writable c <-> writable p)).
  { destruct (H 0%nat) as (k & p & E & Et & Hw). exists k, p. cbn [backs repeat] in *. by rewrite app_nil_r in Et. }
  induction c as [args|c IH k f|l _ r _|l _ r _|c IH]; intros j;
    try match goal with |- context [backs j ?c = _] => by exists j, c end.
  destruct (IH (S j)) as (k & p & E & Et & Hw). exists k, p. cbn [backs] in E. split; [done|]. split; [|done].
  rewrite <- Et. cbn [text paren repeat]. by rewrite <- app_assoc.
Qed.

(** ** Reading *)

Section Read.
Context (m : memory) (es : Z).
Abbreviation is_at := (is_at m es).
Abbreviation slice := (slice m).

(** What can follow a single command: [|], [&], [;], [)] or the end. *)
Definition after_exec : list Z := [124; 38; 59; 41].
Definition after_pipe : list Z := [38; 59; 41].

Lemma after_exec_props c : c ∈ after_exec -> ~ ws c /\ ~ wordch c /\ has [124; 41; 38; 59] c = true /\ has [60; 62] c = false.
Proof.
  unfold after_exec. rewrite !elem_of_cons, elem_of_nil. intros [->|[->|[->|[->|[]]]]];
    (split_and!; [by apply (bool_decide_unpack _)|by apply (bool_decide_unpack _)|done|done]).
Qed.

Lemma ends_tail T : ends after_exec T -> word_end T /\ lead T = head T.
Proof.
  intros H. split.
  - destruct T as [|c T]; [done|]. by destruct (after_exec_props _ H) as (_ & ? & _).
  - eapply ends_lead; [done|]. intros c Hc. by destruct (after_exec_props _ Hc) as (? & _).
Qed.

Lemma wordch_special c toks : wordch c -> Forall (fun x => x ∈ symbols) toks -> has toks c = false.
Proof. intros [_ H] HF. apply has_false. intros Hc. rewrite Forall_forall in HF. by apply H, HF. Qed.

(** A loop that sees no redirection stops. *)
Lemma parseredirs_none fuel c s T :
  is_at s T -> (forall x, lead T = Some x -> has [60; 62] x = false) ->
  gives (fun c' s' => c' = c /\ is_at s' T) (parseredirs_loop m es fuel c s).
Proof.
  intros H Hx. destruct fuel as [|fuel]; [done|]. cbn [parseredirs_loop].
  destruct (peek_lead m es [60; 62] s T H) as (s' & E & H'). rewrite (bind_ret _ _ _ _ _ E).
  destruct (lead T) as [x|]; [rewrite (Hx x eq_refl)|]; done.
Qed.

Lemma redir_step k c c0 q eq f :
  denotes slice c c0 -> slice q eq f ->
  denotes slice (if rtok k =? 60 then redircmd c q eq O_RDONLY 0
     else if rtok k =? 62 then redircmd c q eq (Z.lor (Z.lor O_WRONLY O_CREATE) O_TRUNC) 1
     else if rtok k =? 43 then redircmd c q eq (Z.lor O_WRONLY O_CREATE) 1
     else c) (SRedir c0 k f).
Proof. intros Hc Hs. by destruct k; cbn [rtok Z.eqb Pos.eqb redircmd denotes rmode rfd]. Qed.

Lemma word_end_redirs rs T : word_end T -> word_end (redirs rs ++ T).
Proof.
  intros H. destruct rs as [|[k f] rs]; [done|]. cbn. unfold wordch, whitespace. clear. set_solver.
Qed.

Lemma lead_op k T : match lead (op k ++ T) with Some x => has [60; 62] x | None => false end = true.
Proof. by destruct k. Qed.

Lemma parseredirs_at fuel rs c c0 s T :
  Forall (fun r => word r.2) rs -> ends after_exec T -> denotes slice c c0 -> is_at s (redirs rs ++ T) ->
  gives (fun c' s' => denotes slice c' (wrap c0 rs) /\ is_at s' T) (parseredirs_loop m es fuel c s).
Proof.
  revert fuel c c0 s. induction rs as [|[k f] rs IH]; intros fuel c c0 s Hw HT Hc H.
  - cbn [redirs flat_map app] in H. pose proof (parseredirs_none fuel c s T H) as Hn. cbn [wrap].
    assert (Hx : forall x, lead T = Some x -> has [60; 62] x = false).
    { rewrite (proj2 (ends_tail T HT)). intros x Hx. destruct T; [done|]. cbn in Hx. simplify_eq. by destruct (after_exec_props _ HT) as (_ & _ & _ & ?). }
    specialize (Hn Hx). destruct (parseredirs_loop m es fuel c s); cbn in *; try done. by destruct Hn as [-> ?].
  - apply Forall_cons in Hw as [Hf Hw]. cbn [redirs flat_map fst snd] in H. unfold text_redir in H.
    rewrite <- app_assoc in H. cbn [app] in H. rewrite is_at_space in H. rewrite <- app_assoc in H. cbn [app] in H.
    change (flat_map _ rs) with (redirs rs) in H. cbn [snd] in Hf.
    destruct fuel as [|fuel]; [done|]. cbn [parseredirs_loop].
    destruct (peek_lead m es [60; 62] s _ H) as (s1 & E & H1). rewrite (bind_ret _ _ _ _ _ E).
    rewrite lead_op.
    destruct (gettoken_op m es k s1 _ H1) as (q & eq & s2 & E2 & H2). rewrite (bind_ret _ _ _ _ _ E2).
    destruct (gettoken_word m es f s2 (redirs rs ++ T)) as (q' & eq' & s3 & E3 & Hs & H3);
      [done|by apply word_end_redirs, ends_tail|done|].
    rewrite (bind_ret _ _ _ _ _ E3). cbn [Z.eqb Pos.eqb negb]. cbn [wrap].
    apply IH; try done. by apply redir_step.
Qed.

(** The arguments of a command, each read after the redirections before it. *)
Definition args_denote (argv : list (Z * Z)) (args : list (list Z)) : Prop := denotes slice (EXEC argv) (SExec args).

Lemma parseargs_end fuel ret argc s T :
  ends after_exec T -> is_at s T -> gives (fun c s' => c = ret /\ is_at s' T) (parseargs_loop m es fuel ret argc s).
Proof.
  intros HT H. destruct fuel as [|fuel]; [done|]. cbn [parseargs_loop].
  destruct (peek_lead m es [124; 41; 38; 59] s T H) as (s1 & E & H1). rewrite (bind_ret _ _ _ _ _ E).
  rewrite (proj2 (ends_tail T HT)). destruct T as [|c T]; cbn [head].
  - destruct (gettoken_end m es s1 H1) as (q & eq & s2 & E2 & H2). rewrite (bind_ret _ _ _ _ _ E2). done.
  - destruct (after_exec_props _ HT) as (_ & _ & -> & _). done.
Qed.

Lemma word_end_args args rs T : word_end T -> word_end (argtext args ++ redirs rs ++ T).
Proof.
  intros H. destruct args as [|w args]; [by apply word_end_redirs|]. cbn. unfold wordch, whitespace. clear. set_solver.
Qed.

Lemma parseargs_at args rs argv args0 s T :
  Forall word args -> (length args0 + length args < Z.to_nat MAXARGS)%nat -> Forall (fun r => word r.2) rs ->
  ends after_exec T -> args_denote argv args0 -> is_at s (argtext args ++ redirs rs ++ T) ->
  gives (fun ret s1 => forall fuel,
      gives (fun c s' => denotes slice c (wrap (SExec (args0 ++ args)) rs) /\ is_at s' T)
        (parseargs_loop m es fuel ret (Z.of_nat (length args0)) s1))
    (parseredirs m es (EXEC argv) s).
Proof.
  unfold parseredirs, tokens_left. revert argv args0 s.
  induction args as [|w args IH]; intros argv args0 s Hw Hlen Hrs HT Hd H; mstep.
  - cbn [argtext flat_map app] in H. rewrite app_nil_r.
    pose proof (parseredirs_at (S (Z.to_nat (es - s))) rs (EXEC argv) (SExec args0) s T Hrs HT Hd H) as Hr.
    destruct (parseredirs_loop _ _ _ _ s) as [ret s1| | |]; cbn in *; try done. destruct Hr as [Hr H1]. intros fuel.
    pose proof (parseargs_end fuel ret (Z.of_nat (length args0)) s1 T HT H1) as Hp.
    destruct (parseargs_loop _ _ _ _ _ s1); cbn in *; try done. by destruct Hp as [-> ?].
  - apply Forall_cons in Hw as [Hww Hw]. cbn [argtext flat_map app] in H. rewrite is_at_space in H.
    change (flat_map _ args) with (argtext args) in H. rewrite <- app_assoc in H.
    destruct (lead_word w (argtext args ++ redirs rs ++ T) Hww) as (x & Hx & Hxw).
    pose proof (parseredirs_none (S (Z.to_nat (es - s))) (EXEC argv) s _ H) as Hr.
    specialize (Hr ltac:(intros y Hy; rewrite Hx in Hy; simplify_eq; apply (wordch_special y); [done|by apply (bool_decide_unpack _)])).
    destruct (parseredirs_loop _ _ _ _ s) as [ret s1| | |]; cbn [gives] in *; try done. destruct Hr as [-> H1].
    intros fuel. destruct fuel as [|fuel]; [done|]. cbn [parseargs_loop].
    destruct (peek_lead m es [124; 41; 38; 59] s1 _ H1) as (s2 & E & H2). rewrite (bind_ret _ _ _ _ _ E), Hx.
    rewrite (wordch_special x) by (done || by apply (bool_decide_unpack _)).
    destruct (gettoken_word m es w s2 (argtext args ++ redirs rs ++ T)) as (q & eq & s3 & E3 & Hs & H3);
      [done|by apply word_end_args, ends_tail|done|].
    rewrite (bind_ret _ _ _ _ _ E3). cbn [Z.eqb Pos.eqb negb add_arg].
    rewrite (proj2 (Z.leb_gt MAXARGS _)) by (cbn [length] in Hlen; lia).
    specialize (IH (argv ++ [(q, eq)]) (args0 ++ [w]) s3). rewrite !length_app in IH. cbn [length] in *.
    eapply gives_bind; [apply IH; try done; [lia|by apply Forall2_app; [|constructor]]|].
    intros ret s4 Hret. specialize (Hret fuel). rewrite <- app_assoc in Hret. cbn [app] in Hret.
    by replace (Z.of_nat (length args0) + 1) with (Z.of_nat (length args0 + 1)) by lia.
Qed.

(** [&], any number of times. *)
Lemma parsebacks_at fuel k c c0 s T :
  ends [59; 41] T -> denotes slice c c0 -> is_at s (repeat 38 k ++ T) ->
  gives (fun c' s' => denotes slice c' (backs k c0) /\ is_at s' T) (parsebacks_loop m es fuel c s).
Proof.
  revert k c c0 s. induction fuel as [|fuel IH]; intros k c c0 s HT Hc H; [done|]. cbn [parsebacks_loop].
  destruct (peek_lead m es [38] s _ H) as (s1 & E & H1). rewrite (bind_ret _ _ _ _ _ E).
  destruct k as [|k]; cbn [repeat app] in H1 |- *.
  - rewrite (ends_lead [59; 41] T) by (done || intros x; rewrite !elem_of_cons, elem_of_nil; intros [->|[->|[]]]; by apply (bool_decide_unpack _)).
    destruct T as [|x T]; [done|]. cbn [ends head] in *. rewrite !elem_of_cons, elem_of_nil in HT. by destruct HT as [->|[->|[]]].
  - rewrite lead_tight by by apply (bool_decide_unpack _). change (has [38] 38) with true. cbv iota.
    destruct (gettoken_sym m es 38 s1 _ ltac:(set_solver) H1) as (q & s2 & E2 & H2). rewrite (bind_ret _ _ _ _ _ E2).
    cbn [backs]. apply (IH k (backcmd c) (SBack c0) s2 HT Hc H2).
Qed.

(** A symbol that [peek] sees and [gettoken] reads. *)
Lemma peek_sym x toks s T :
  x ∈ [124; 40; 41; 59; 38; 60] -> has toks x = true -> is_at s (x :: T) ->
  exists s' q s'', peek m es toks s = Ret true s' /\ is_at s' (x :: T) /\ gettoken m es s' = Ret (x, q, q + 1) s'' /\ is_at s'' T.
Proof.
  intros Hx Hh H. destruct (peek_lead m es toks s _ H) as (s' & E & H').
  destruct (gettoken_sym m es x s' T Hx H') as (q & s'' & E' & H''). exists s', q, s''. split; [|done].
  rewrite E, lead_tight, Hh; [done|].
  revert Hx. rewrite !elem_of_cons, elem_of_nil. intros [->|[->|[->|[->|[->|[->|[]]]]]]]; by apply (bool_decide_unpack _).
Qed.

(** [peek] that does not see its symbols. *)
Lemma peek_other toks s T :
  ends after_exec T -> (forall x, head T = Some x -> has toks x = false) -> is_at s T ->
  exists s', peek m es toks s = Ret false s' /\ is_at s' T.
Proof.
  intros HT Hx H. destruct (peek_lead m es toks s _ H) as (s' & E & H'). exists s'. split; [|done].
  rewrite E, (proj2 (ends_tail T HT)). destruct (head T) as [x|]; [by rewrite Hx|done].
Qed.

Definition block_like (c : scmd) : bool := match c with SExec _ | SRedir _ _ _ => false | _ => true end.

Lemma text_block c : block_like c = true -> text LExec c = 40 :: text LLine c ++ [41].
Proof. by destruct c. Qed.

(** The first character of a command without parentheses is not one. *)
Lemma lead_simple args rs T :
  Forall word args -> ends after_exec T -> match lead (argtext args ++ redirs rs ++ T) with Some x => has [40] x | None => false end = false.
Proof.
  intros Hw HT. destruct args as [|w args].
  - cbn [argtext flat_map app]. destruct rs as [|[k f] rs].
    + cbn [redirs flat_map app]. rewrite (proj2 (ends_tail T HT)). destruct T as [|x T]; [done|]. cbn [head ends] in *.
      revert HT. unfold after_exec. rewrite !elem_of_cons, elem_of_nil. by intros [->|[->|[->|[->|[]]]]].
    + by destruct k.
  - apply Forall_cons in Hw as [Hw _]. change (argtext (w :: args)) with ((32 :: w) ++ argtext args). rewrite <- app_assoc.
    cbn [app]. change (lead (32 :: ?T)) with (lead T).
    destruct (lead_word w (argtext args ++ redirs rs ++ T) Hw) as (x & -> & Hx). apply wordch_special; [done|by apply (bool_decide_unpack _)].
Qed.

(** ** The four functions *)

Definition reads (c : scmd) (T : list Z) (c' : cmd) (s' : Z) : Prop := denotes slice c' c /\ is_at s' T.

Definition reads_line (n : nat) : Prop := forall c T s,
  writable c -> ends [41] T -> is_at s (text LLine c ++ T) -> gives (reads c T) (parseline m es n s).
Definition reads_pipe (n : nat) : Prop := forall c T s,
  writable c -> ends after_pipe T -> is_at s (text LPipe c ++ T) -> gives (reads c T) (parsepipe m es n s).
Definition reads_exec (n : nat) : Prop := forall c T s,
  writable c -> ends after_exec T -> is_at s (text LExec c ++ T) -> gives (reads c T) (parseexec m es n s).
Definition reads_block (n : nat) : Prop := forall c rs T s,
  writable (wrap c rs) -> ends after_exec T -> is_at s (40 :: text LLine c ++ 41 :: redirs rs ++ T) ->
  gives (reads (wrap c rs) T) (parseblock m es n s).

Lemma ends_weaken t1 t2 T : ends t1 T -> t1 ⊆ t2 -> ends t2 T.
Proof. destruct T; [done|]. cbn. auto. Qed.

Lemma read_block n : reads_line n -> reads_block (S n).
Proof.
  intros IHl c rs T s Hw HT H. apply writable_wrap in Hw as [Hw Hrs]. cbn [parseblock].
  destruct (peek_sym 40 [40] s _ ltac:(set_solver) eq_refl H) as (s1 & q1 & s2 & E1 & _ & E2 & H2).
  rewrite (bind_ret _ _ _ _ _ E1). cbn [negb]. rewrite (bind_ret _ _ _ _ _ E2).
  eapply gives_bind; [apply (IHl c (41 :: redirs rs ++ T) s2); [done|cbn; set_solver|done]|].
  intros c' s3 [Hc' H3]. cbv beta.
  destruct (peek_sym 41 [41] s3 _ ltac:(set_solver) eq_refl H3) as (s4 & q4 & s5 & E4 & _ & E5 & H5).
  rewrite (bind_ret _ _ _ _ _ E4). cbn [negb]. rewrite (bind_ret _ _ _ _ _ E5).
  unfold parseredirs, tokens_left. mstep. by eapply parseredirs_at.
Qed.

Lemma read_exec n : reads_block n -> reads_exec (S n).
Proof.
  intros IHb c T s Hw HT H. destruct (unwrap c) as (b & rs & -> & Hb). rewrite text_wrap, <- app_assoc in H. cbn [parseexec].
  destruct (block_like b) eqn:Hbl.
  - rewrite (text_block b Hbl) in H. cbn [app] in H. rewrite <- app_assoc in H. cbn [app] in H.
    destruct (peek_sym 40 [40] s _ ltac:(set_solver) eq_refl H) as (s1 & q1 & s2 & E1 & H1 & _).
    rewrite (bind_ret _ _ _ _ _ E1). by apply IHb.
  - destruct b as [args|c ? ?|l r|l r|c]; try done. apply writable_wrap in Hw as [[Hargs Hlen] Hrs].
    cbn [text] in H. change (flat_map _ args) with (argtext args) in H.
    destruct (peek_lead m es [40] s _ H) as (s1 & E & H1). rewrite (bind_ret _ _ _ _ _ E), lead_simple by done.
    eapply gives_bind; [apply (parseargs_at args rs [] [] s1 T); try done; constructor|]. intros ret s2 Hret. unfold tokens_left. mstep. apply Hret.
Qed.

Definition pipe_like (c : scmd) : bool := match c with SPipe _ _ => true | _ => false end.
Definition list_like (c : scmd) : bool := match c with SList _ _ => true | _ => false end.

Lemma read_pipe n : reads_exec n -> reads_pipe n -> reads_pipe (S n).
Proof.
  intros IHe IHp c T s Hw HT H. cbn [parsepipe].
  assert (HT' : ends after_exec T) by (eapply ends_weaken; [done|unfold after_pipe, after_exec; set_solver]).
  destruct (pipe_like c) eqn:Hp.
  - destruct c as [| |l r| |]; try done. destruct Hw as [Hl Hr]. cbn [text paren] in H. rewrite <- app_assoc in H. cbn [app] in H.
    eapply gives_bind; [apply (IHe l (124 :: text LPipe r ++ T) s Hl); [|exact H]; cbn; unfold after_exec; set_solver|]. intros c' s1 [Hc' H1].
    destruct (peek_sym 124 [124] s1 _ ltac:(set_solver) eq_refl H1) as (s2 & q2 & s3 & E2 & _ & E3 & H3).
    rewrite (bind_ret _ _ _ _ _ E2), (bind_ret _ _ _ _ _ E3).
    eapply gives_bind; [by apply (IHp r T s3)|]. by intros r' s4 [Hr' H4].
  - replace (text LPipe c) with (text LExec c) in H by by destruct c.
    eapply gives_bind; [by apply (IHe c T s)|]. intros c' s1 [Hc' H1].
    destruct (peek_other [124] s1 T) as (s2 & E2 & H2); [done| |done|by rewrite (bind_ret _ _ _ _ _ E2)].
    intros x Hx. destruct T as [|y T]; [done|]. cbn in Hx, HT. simplify_eq. unfold after_pipe in HT.
    rewrite !elem_of_cons, elem_of_nil in HT. by destruct HT as [->|[->|[->|[]]]].
Qed.

(** The part of a line up to [;]. *)
Lemma read_back n c T s :
  reads_pipe n -> writable c -> ends [59; 41] T -> is_at s (text LBack c ++ T) ->
  gives (reads c T) ((let! c := parsepipe m es n in let! k := tokens_left es in parsebacks_loop m es k c) s).
Proof.
  intros IHp Hw HT H. destruct (unback c) as (k & p & -> & Et & Hwp). rewrite Et, <- app_assoc in H.
  eapply gives_bind; [apply (IHp p (repeat 38 k ++ T) s)|]; [tauto| |done|].
  - destruct k; [|cbn; unfold after_pipe; set_solver]. eapply ends_weaken; [done|]. unfold after_pipe. set_solver.
  - intros c' s1 [Hc' H1]. unfold tokens_left. mstep. by apply parsebacks_at.
Qed.

Lemma read_line n : reads_pipe n -> reads_line n -> reads_line (S n).
Proof.
  intros IHp IHl c T s Hw HT H.
  assert (Hb : forall c T s, writable c -> ends [59; 41] T -> is_at s (text LBack c ++ T) ->
    forall (k : cmd -> M Z cmd) Q, (forall c' s', reads c T c' s' -> gives Q (k c' s')) ->
    gives Q ((let! c := parsepipe m es n in let! j := tokens_left es in let! c := parsebacks_loop m es j c in k c) s)).
  { intros c0 T0 s0 Hw0 HT0 H0 k Q Hk. pose proof (read_back n c0 T0 s0 IHp Hw0 HT0 H0) as Hr. revert Hr.
    unfold mbind_ at 1 3. destruct (parsepipe m es n s0) as [c1 s1| | |]; cbn [bind_out]; try done.
    unfold tokens_left. rewrite !(bind_ret _ _ _ _ _ (eq_refl : gets _ _ = Ret _ _)).
    intros Hr. by eapply gives_bind. }
  cbn [parseline]. destruct (list_like c) eqn:Hl.
  - destruct c as [| | |l r|]; try done. destruct Hw as [Hwl Hwr]. cbn [text paren] in H. rewrite <- app_assoc in H. cbn [app] in H.
    apply (Hb l (59 :: text LLine r ++ T) s Hwl ltac:(cbn; set_solver) H). intros c' s1 [Hc' H1].
    destruct (peek_sym 59 [59] s1 _ ltac:(set_solver) eq_refl H1) as (s2 & q2 & s3 & E2 & _ & E3 & H3).
    rewrite (bind_ret _ _ _ _ _ E2), (bind_ret _ _ _ _ _ E3).
    eapply gives_bind; [by apply (IHl r T s3)|]. by intros r' s4 [Hr' H4].
  - replace (text LLine c) with (text LBack c) in H by by destruct c.
    apply (Hb c T s Hw ltac:(eapply ends_weaken; [done|set_solver]) H). intros c' s1 [Hc' H1].
    destruct (peek_other [59] s1 T) as (s2 & E2 & H2); [| |done|by rewrite (bind_ret _ _ _ _ _ E2)].
    + eapply ends_weaken; [done|unfold after_exec; set_solver].
    + intros x Hx. destruct T as [|y T]; [done|]. cbn in Hx, HT. simplify_eq. by apply list_elem_of_singleton in HT as ->.
Qed.

Lemma parse_reads n : reads_line n /\ reads_pipe n /\ reads_exec n /\ reads_block n.
Proof.
  induction n as [|n (IHl & IHp & IHe & IHb)]; [split_and!; intros ?; intros; exact I|].
  split_and!; [by apply read_line|by apply read_pipe|by apply read_exec|by apply read_block].
Qed.
End Read.

(** * The theorems

    The parser of user/sh.c terminates on every line, and reads back every
    command that is written, with its words NUL-terminated. *)

(** ** The length of the line *)

Lemma at_line m s t : holds m s (t ++ [0]) -> Forall char t -> at_ m (s + Z.of_nat (length t)) s t.
Proof. done. Qed.

(** ** Termination *)

(** C38: the parser terminates on every line: called with a NUL-terminated line,
    [parsecmd] calls [panic] with a syntax error or returns a command; it
    returns only when it has read the line to its end. *)
Theorem parsecmd_total fuel m s t :
  holds m s (t ++ [0]) -> Forall char t -> (length t < fuel)%nat -> Z.of_nat (length t) < 2 ^ 32 ->
  match parsecmd fuel m s with
  | Ret (c, m') s' => s' = s + Z.of_nat (length t) /\ m' = nulterminate m c
  | Panic _ => True
  | _ => False
  end.
Proof.
  intros H Hc Hf Hlen. unfold parsecmd. rewrite (u_strlen_at fuel m s t) by done.
  set (es := s + Z.of_nat (length t)). assert (Hp : pos m es s) by (exists t; by apply at_line).
  destruct (parse_fine m es (parse_fuel (Z.of_nat (length t)))) as [Hfine _]. specialize (Hfine s Hp).
  unfold parse_fuel in *. specialize (Hfine ltac:(unfold es; lia)).
  destruct (parseline m es _ s) as [c s1|msg| |] eqn:E; cbn [fine] in Hfine; try done.
  - rewrite (bind_ret _ _ _ _ _ E).
    destruct (peek_cases m es [] s1) as (b & s2 & E2 & Hs2 & _); [eapply pos_le; [done|lia]|].
    rewrite (bind_ret _ _ _ _ _ E2). mstep. cbn [id]. destruct (Z.eqb_spec s2 es); cbn; done.
  - by rewrite (bind_panic _ _ _ _ E).
Qed.

(** ** NUL-termination *)

Fixpoint word_ends (c : cmd) : list Z :=
  match c with
  | EXEC argv => argv.*2
  | REDIR c _ efile _ _ => word_ends c ++ [efile]
  | PIPE l r | LIST l r => word_ends l ++ word_ends r
  | BACK c => word_ends c
  end.

Lemma load8_nul_args argv m a : load8 (nul_args m argv) a = if decide (a ∈ argv.*2) then 0 else load8 m a.
Proof.
  revert m. induction argv as [|[q eq] argv IH]; intros m; cbn [nul_args fmap list_fmap snd]; [done|].
  rewrite IH, load8_store8. repeat case_decide; try done; set_solver.
Qed.

(** [nulterminate] writes a NUL at the end of each word, and nothing else. *)
Lemma load8_nulterminate c m a : load8 (nulterminate m c) a = if decide (a ∈ word_ends c) then 0 else load8 m a.
Proof.
  revert m. induction c as [argv|c IH file efile mode fd|l IHl r IHr|l IHl r IHr|c IH]; intros m; cbn [nulterminate word_ends].
  - apply load8_nul_args.
  - rewrite load8_store8, IH. repeat case_decide; try done; set_solver.
  - rewrite IHr, IHl. repeat case_decide; try done; set_solver.
  - rewrite IHr, IHl. repeat case_decide; try done; set_solver.
  - apply IH.
Qed.

(** The words of a command tree. *)
Fixpoint words (sc : scmd) : list (list Z) :=
  match sc with
  | SExec args => args
  | SRedir sc _ f => words sc ++ [f]
  | SPipe l r | SList l r => words l ++ words r
  | SBack sc => words sc
  end.

Lemma denotes_mono (W W' : Z -> Z -> list Z -> Prop) c sc :
  denotes W c sc -> (forall q eq w, eq ∈ word_ends c -> w ∈ words sc -> W q eq w -> W' q eq w) -> denotes W' c sc.
Proof.
  revert sc. induction c as [argv|c IH file efile mode fd|l IHl r IHr|l IHl r IHr|c IH];
    intros [args|sc k f|sl sr|sl sr|sc] H HW; cbn [denotes word_ends words] in *; try done.
  - induction H as [|[q eq] w argv args Hq H IH]; constructor; cbn [fmap list_fmap snd] in *; [apply HW; [set_solver|set_solver|done]|].
    apply IH. intros q' eq' w' Hin Hin'. apply HW; set_solver.
  - destruct H as (Hc & Hw & ? & ?). split_and!; try done; [|apply HW; [set_solver|set_solver|done]].
    apply IH; [done|]. intros q' eq' w' Hin Hin'. apply HW; set_solver.
  - destruct H as [Hl Hr]. split; [apply IHl|apply IHr]; try done; intros q' eq' w' Hin Hin'; apply HW; set_solver.
  - destruct H as [Hl Hr]. split; [apply IHl|apply IHr]; try done; intros q' eq' w' Hin Hin'; apply HW; set_solver.
  - by apply IH.
Qed.

(** No character of a word is where a word ends. *)
Lemma slice_ends m c sc e :
  denotes (slice m) c sc -> e ∈ word_ends c -> load8 m e = 0 \/ ~ wordch (load8 m e).
Proof.
  revert sc. induction c as [argv|c IH file efile mode fd|l IHl r IHr|l IHl r IHr|c IH];
    intros [args|sc k f|sl sr|sl sr|sc] H He; cbn [denotes word_ends] in *; try done.
  - induction H as [|[q eq] w argv args Hq H IH]; [set_solver|]. cbn [fmap list_fmap snd] in He.
    apply elem_of_cons in He as [->|He]; [apply Hq|by apply IH].
  - destruct H as (Hc & Hw & _). apply elem_of_app in He as [He|He]; [by eapply IH|]. apply list_elem_of_singleton in He as ->. apply Hw.
  - apply elem_of_app in He as [He|He]; [eapply IHl|eapply IHr]; try done; apply H.
  - apply elem_of_app in He as [He|He]; [eapply IHl|eapply IHr]; try done; apply H.
  - by eapply IH.
Qed.

(** The words of the command are C strings after [nulterminate]. *)
Lemma nulterminate_words m c sc :
  denotes (slice m) c sc -> denotes (fun q _ w => holds (nulterminate m c) q (w ++ [0])) c sc.
Proof.
  intros H. eapply denotes_mono; [done|]. intros q eq w He _ ((_ & Hw & Hc) & Hh & -> & _). apply holds_app. split.
  - intros i x Hx. rewrite load8_nulterminate, decide_False; [by apply Hh|]. intros Hin.
    rewrite Forall_lookup in Hw, Hc. destruct (slice_ends m c sc _ H Hin) as [Hz|Hn]; rewrite (Hh i x Hx) in *.
    + apply Hc in Hx. unfold char in Hx. lia.
    + by apply Hw in Hx.
  - intros [|i] x Hx; [|done]. cbn in Hx. simplify_eq. by rewrite Z.add_0_r, load8_nulterminate, decide_True.
Qed.

(** ** The text of a command *)

Lemma char_const x : bool_decide (0 < x < 256) = true -> char x.
Proof. intros H. by apply bool_decide_eq_true in H. Qed.

Lemma text_char lv c : writable c -> Forall char (text lv c).
Proof.
  assert (Hp : forall b t, Forall char t -> Forall char (paren b t)).
  { intros [] t Ht; [|done]. constructor; [by apply char_const|]. apply Forall_app. split; [done|]. constructor; [by apply char_const|done]. }
  revert lv. induction c as [args|c IH k f|l IHl r IHr|l IHl r IHr|c IH]; intros lv Hw; cbn [text writable] in *.
  - destruct Hw as [Hw _]. induction Hw as [|w args (_ & _ & Hc) _ IHa]; [done|]. cbn [flat_map app].
    constructor; [by apply char_const|]. by apply Forall_app.
  - destruct Hw as [Hw (_ & _ & Hf)]. apply Forall_app. split; [by apply IH|]. unfold text_redir. constructor; [by apply char_const|].
    apply Forall_app. split; [destruct k; repeat constructor; by apply char_const|]. constructor; [by apply char_const|done].
  - apply Hp, Forall_app. split; [apply IHl, Hw|]. constructor; [by apply char_const|apply IHr, Hw].
  - apply Hp, Forall_app. split; [apply IHl, Hw|]. constructor; [by apply char_const|apply IHr, Hw].
  - apply Hp, Forall_app. split; [by apply IH|]. constructor; [by apply char_const|done].
Qed.

(** The parser reads back what is written: the structure, and every word as a C
    string in the memory [parsecmd] leaves behind. *)
Lemma parsecmd_reads fuel m s sc :
  let t := text LLine sc in
  writable sc -> holds m s (t ++ [0]) -> (length t < fuel)%nat -> Z.of_nat (length t) < 2 ^ 32 ->
  exists c m', parsecmd fuel m s = Ret (c, m') (s + Z.of_nat (length t)) /\
    denotes (fun q _ w => holds m' q (w ++ [0])) c sc.
Proof.
  intros t Hw H Hf Hlen. pose proof (text_char LLine sc Hw) as Hc. fold t in Hc.
  unfold parsecmd. rewrite (u_strlen_at fuel m s t) by done.
  set (es := s + Z.of_nat (length t)). pose proof (at_line m s t H Hc) as Hat. fold es in Hat.
  destruct (parse_fine m es (parse_fuel (Z.of_nat (length t)))) as [Hfine _]. specialize (Hfine s (ex_intro _ t Hat)).
  unfold parse_fuel in *. specialize (Hfine ltac:(unfold es; lia)).
  destruct (parse_reads m es (4 * Z.to_nat (Z.of_nat (length t)) + 4)) as [Hl _].
  specialize (Hl sc [] s Hw I ltac:(rewrite app_nil_r; by apply at_is_at)).
  destruct (parseline m es _ s) as [c s1| | |] eqn:E; try done. destruct Hl as [Hd H1].
  rewrite (bind_ret _ _ _ _ _ E). exists c, (nulterminate m c).
  destruct H1 as (u1 & u2 & t' & Hn & _ & Hu2 & _ & H1). symmetry in Hn. apply app_eq_nil in Hn as [-> ->].
  rewrite (bind_ret _ _ _ _ _ (peek_ok m es [] s1 u2 [] H1 Hu2 I)). mstep. cbn [id].
  apply at_app, at_nil in H1 as [_ ->]. rewrite Z.eqb_refl. split; [done|]. by apply nulterminate_words.
Qed.

(** A line with each construct: [a b < f | c; d >> g &]. *)
Module ShDemo.
Definition sc : scmd :=
  SList (SPipe (SRedir (SExec [[97]; [98]]) RIn [102]) (SExec [[99]])) (SBack (SRedir (SExec [[100]]) RApp [103])).
Definition m : memory := store_bytes ∅ 4096 (text LLine sc).

Lemma sc_writable : writable sc.
Proof. by vm_compute; repeat (split || constructor); try lia; (discriminate || set_solver). Defined.

Lemma m_holds : holds m 4096 (text LLine sc ++ [0]).
Proof.
  apply holds_app. split; [apply holds_store_bytes, text_char, sc_writable|].
  intros [|i] x Hx; [|done]. cbn in Hx. simplify_eq. by vm_compute.
Defined.
End ShDemo.

Lemma parsecmd_total_witness :
  exists c m', parsecmd 100 ShDemo.m 4096 = Ret (c, m') (4096 + 20) /\ m' = nulterminate ShDemo.m c.
Proof.
  pose proof (parsecmd_total 100 ShDemo.m 4096 (text LLine ShDemo.sc) ShDemo.m_holds (text_char LLine _ ShDemo.sc_writable)
    ltac:(by apply (bool_decide_unpack _); vm_compute) ltac:(by vm_compute)) as H.
  destruct (parsecmd 100 ShDemo.m 4096) as [[c m'] s'|msg| |] eqn:E; [|vm_compute in E; discriminate E|destruct H|destruct H].
  destruct H as [-> Hm]. clear E. exists c, m'. split; [reflexivity|exact Hm].
Defined.
