(* ===== verification/ShRun.v ===== *)
(** user/sh.c: running commands.

    [runcmd] is a process that never returns; its words are the C strings of the
    memory [parsecmd] leaves behind.  The descriptors of every program it starts
    are those the command line asks for. *)

From S2P Require Import Prelude Riscv Mem Ulib Uprintf Uproc Sh ShParse ShProps.

(** [panic] of user/sh.c. *)
Definition sh_panic {A} (s : string) : proc A := do! _ <- fputs 2 (chars s ++ [10]) in Exit 1.

Definition fork1 : proc Z :=
  do! pid <- sys Fork in if pid =? -1 then sh_panic "fork" else Done pid.

Section Run.
(** The C string at an address. *)
Context (str : Z -> path).

Fixpoint runcmd (c : cmd) : proc Empty_set :=
  match c with
  | EXEC [] => Exit 1
  | EXEC (((arg0, _) :: _) as argv) =>
      call! Exec (str arg0) (map (fun arg => str arg.1) argv) in
      do! _ <- fputs 2 (chars "exec " ++ str arg0 ++ chars " failed" ++ [10]) in
      Exit 0
  | REDIR c file _ mode fd =>
      call! Close fd in
      do! fd' <- sys (Open (str file) mode) in
      if fd' <? 0 then do! _ <- fputs 2 (chars "open " ++ str file ++ chars " failed" ++ [10]) in Exit 1
      else runcmd c
  | LIST l r =>
      do! pid <- fork1 in
      if pid =? 0 then runcmd l
      else call! Wait in runcmd r
  | PIPE l r =>
      do! p <- sys Uproc.Pipe in
      match p with
      | None => sh_panic "pipe"
      | Some (p0, p1) =>
          do! pid <- fork1 in
          if pid =? 0 then
            call! Close 1 in call! Dup p1 in call! Close p0 in call! Close p1 in runcmd l
          else
            do! pid <- fork1 in
            if pid =? 0 then
              call! Close 0 in call! Dup p0 in call! Close p0 in call! Close p1 in runcmd r
            else
              call! Close p0 in call! Close p1 in call! Wait in call! Wait in Exit 0
      end
  | BACK c =>
      do! pid <- fork1 in
      if pid =? 0 then runcmd c else Exit 0
  end.
End Run.

(** ** The loop *)

(** What the shell does: change directory, or run the line in a child. *)
Inductive event := Cd (dir : path) | Child (o : outcome Z (cmd * memory)).

Record shell := Shell { sh_os : uos; sh_events : list event }.
#[global] Instance os_lens : Lens shell uos.
Proof.
  refine {| lget := sh_os; lput := fun o s => {| sh_os := o; sh_events := sh_events s |} |}; lens_laws shell.
Defined.
Definition emit (e : event) : M shell unit :=
  modify (fun s => {| sh_os := sh_os s; sh_events := sh_events s ++ [e] |}).

(** [buf] is static; [c] is the address of the local of [gets]. *)
Definition getcmd (buf nbuf c : Z) : M uos Z :=
  putcs 2 (chars "$ ") ;;
  set_umem (fun m => u_memset m buf 0 nbuf) ;;
  u_gets buf nbuf c ;;
  let! x := ld buf in
  mret_ (if x =? 0 then -1 else 0).

Section Loop.
(** Which directories [chdir] accepts. *)
Context (chdir : path -> bool).

(** [while(getcmd(buf, sizeof(buf)) >= 0)]; [fork] is taken to succeed, and the
    shell waits for the child. *)
Fixpoint sh_loop (fuel : nat) (buf c : Z) : M shell unit :=
  match fuel with
  | O => nofuel
  | S fuel' =>
      let! r := zoom (getcmd buf 100 c) in
      if r <? 0 then mret_ tt
      else
        let! m := gets (fun s => u_mem (sh_os s)) in
        if (load8 m buf =? 99) && (load8 m (buf + 1) =? 100) && (load8 m (buf + 2) =? 32) then
          match u_strlen 100 m buf with
          | None => nofuel
          | Some len =>
              zoom (set_umem (fun m => store8 m (buf + len - 1) 0)) ;;
              let! m := gets (fun s => u_mem (sh_os s)) in
              let dir := cstr m (buf + 3) 100 in
              emit (Cd dir) ;;
              (if chdir dir then mret_ tt else zoom (putcs 2 (chars "cannot cd " ++ dir ++ [10]))) ;;
              sh_loop fuel' buf c
          end
        else
          emit (Child (parsecmd 100 m buf)) ;;
          sh_loop fuel' buf c
  end.

End Loop.

(** [while((fd = open("console", O_RDWR)) >= 0)] *)
Fixpoint open_console (fuel : nat) : proc unit :=
  match fuel with
  | O => Stuck
  | S fuel' =>
      do! fd <- sys (Open (chars "console") O_RDWR) in
      if fd <? 0 then Done tt
      else if 3 <=? fd then call! Close fd in Done tt
      else open_console fuel'
  end.

(** * The descriptors of the programs that user/sh.c starts *)

(** ** [fdalloc] *)

Lemma lowest_first n t fd k :
  fd <= k < fd + Z.of_nat n -> t !! k = None -> (forall j, fd <= j < k -> t !! j <> None) -> lowest n t fd = Some k.
Proof.
  revert fd. induction n as [|n IH]; intros fd Hk Hn Hlow; [lia|]. cbn [lowest].
  destruct (decide (fd = k)) as [->|]; [by rewrite Hn|].
  destruct (t !! fd) eqn:E; [|by apply Hlow in E; [|lia]]. apply IH; [lia|done|]. intros j Hj. apply Hlow. lia.
Qed.

Lemma lowest_free n t fd k :
  fd <= k < fd + Z.of_nat n -> t !! k = None -> exists f, lowest n t fd = Some f /\ t !! f = None /\ fd <= f <= k.
Proof.
  revert fd. induction n as [|n IH]; intros fd Hk Hn; [lia|]. cbn [lowest].
  destruct (t !! fd) as [o|] eqn:E; [|exists fd; split_and!; done || lia].
  destruct (decide (fd = k)) as [->|]; [congruence|]. destruct (IH (fd + 1)) as (f & Hf & Hff & Hle); [lia|done|]. exists f. split_and!; done || lia.
Qed.

Lemma fdalloc_first t k :
  0 <= k < NOFILE -> t !! k = None -> (forall j, 0 <= j < k -> t !! j <> None) -> fdalloc t = Some k.
Proof. intros Hk. apply lowest_first. unfold NOFILE in *. lia. Qed.

Lemma fdalloc_free t k : 0 <= k < NOFILE -> t !! k = None -> exists f, fdalloc t = Some f /\ t !! f = None /\ 0 <= f < NOFILE.
Proof.
  intros Hk Hn. destruct (lowest_free (Z.to_nat NOFILE) t 0 k) as (f & ? & ? & ?); [unfold NOFILE in *; lia|done|].
  exists f. split_and!; done || lia.
Qed.

(** A table with standard input and output open and room for a pipe. *)
Definition ready (t : fds) : Prop :=
  t !! 0 <> None /\ t !! 1 <> None /\
  exists a b, a <> b /\ (0 <= a < NOFILE) /\ (0 <= b < NOFILE) /\ t !! a = None /\ t !! b = None.

Lemma ready_insert t fd o : ready t -> fd = 0 \/ fd = 1 -> ready (<[fd := o]> t).
Proof.
  intros (H0 & H1 & a & b & Hab & Ha & Hb & Hta & Htb) Hfd. split_and!.
  - destruct Hfd as [->| ->]; simplify_map_eq; done.
  - destruct Hfd as [->| ->]; simplify_map_eq; done.
  - exists a, b. assert (a <> fd) by (intros ->; destruct Hfd as [->| ->]; done).
    assert (b <> fd) by (intros ->; destruct Hfd as [->| ->]; done).
    rewrite !lookup_insert_ne by done. done.
Qed.

Section Wires.
Context (opens : path -> Z -> bool) (execs : path -> bool) (other : forall X, call X -> X).
Abbreviation launch := (launch opens execs other).
Abbreviation fd_call := (fd_call opens other).

(** ** What a command line asks for *)

Fixpoint wires (sc : scmd) (t : fds) (n : nat) : list started * nat :=
  match sc with
  | SExec [] => ([], n)
  | SExec ((w :: _) as args) => (if execs w then [(args, t)] else [], n)
  | SRedir sc k f => if opens f (rmode k) then wires sc (<[rfd k := Opened f (rmode k)]> t) n else ([], n)
  | SPipe l r =>
      let '(l1, n1) := wires l (<[1 := PipeW n]> t) (S n) in
      let '(l2, n2) := wires r (<[0 := PipeR n]> t) n1 in (l1 ++ l2, n2)
  | SList l r => let '(l1, n1) := wires l t n in let '(l2, n2) := wires r t n1 in (l1 ++ l2, n2)
  | SBack sc => wires sc t n
  end.

(** ** What [runcmd] does *)

Lemma launch_fputs {A} fd s (k : proc A) t n : launch (do! _ <- fputs fd s in k) t n = launch k t n.
Proof. induction s as [|c s IH]; [done|]. exact IH. Qed.

Lemma launch_fork1 {A} (k : Z -> proc A) t n :
  launch (do! pid <- fork1 in k pid) t n =
  let '(l1, n1) := launch (k 0) t n in let '(l2, n2) := launch (k child_pid) t n1 in (l1 ++ l2, n2).
Proof. done. Qed.

(** [close(fd)] followed by a call that takes the lowest free descriptor. *)
Lemma fdalloc_closed t fd : t !! 0 <> None -> fd = 0 \/ fd = 1 -> fdalloc (delete fd t) = Some fd.
Proof.
  intros H0 Hfd. apply fdalloc_first; [unfold NOFILE; lia|by simplify_map_eq|].
  intros j Hj. assert (j = 0 /\ fd = 1) as [-> ->] by lia. by rewrite lookup_delete_ne.
Qed.

Lemma launch_close {A} fd (k : proc A) t n :
  t !! fd <> None -> launch (call! Close fd in k) t n = launch k (delete fd t) n.
Proof. intros H. cbn. by rewrite bool_decide_false. Qed.

Lemma launch_dup {A} fd o fd' (k : proc A) t n :
  t !! fd = Some o -> fdalloc t = Some fd' -> launch (call! Dup fd in k) t n = launch k (<[fd' := o]> t) n.
Proof. intros H1 H2. cbn. by rewrite H1, H2. Qed.

(** One end of a pipe put in place of [fd], and both its descriptors closed. *)
Lemma launch_plug {A} fd p p0 p1 o0 o1 (k : proc A) t n :
  ready t -> fd = 0 \/ fd = 1 -> t !! p0 = None -> t !! p1 = None -> p0 <> p1 -> p = p0 \/ p = p1 ->
  launch (call! Close fd in call! Dup p in call! Close p0 in call! Close p1 in k) (<[p1 := o1]> (<[p0 := o0]> t)) n =
  launch k (<[fd := if decide (p = p0) then o0 else o1]> t) n.
Proof.
  intros Hr Hfd H0 H1 Hne Hp. pose proof Hr as (Hs0 & Hs1 & _).
  assert (fd <> p0) by (intros ->; destruct Hfd as [->| ->]; done).
  assert (fd <> p1) by (intros ->; destruct Hfd as [->| ->]; done).
  assert (Hfdt : t !! fd <> None) by (destruct Hfd as [->| ->]; done).
  rewrite launch_close by by rewrite !lookup_insert_ne.
  rewrite (launch_dup p (if decide (p = p0) then o0 else o1) fd).
  - rewrite launch_close by (rewrite lookup_insert_ne, lookup_delete_ne, lookup_insert_ne, lookup_insert_eq by done; done).
    rewrite launch_close by (rewrite lookup_delete_ne, lookup_insert_ne, lookup_delete_ne, lookup_insert_eq by done; done).
    f_equal. apply map_eq. intros i. destruct (decide (i = fd)) as [->|].
    { rewrite !lookup_delete_ne, !lookup_insert_eq by done. done. }
    destruct (decide (i = p1)) as [->|]; [rewrite lookup_delete_eq, lookup_insert_ne by done; congruence|].
    rewrite lookup_delete_ne by done. destruct (decide (i = p0)) as [->|]; [rewrite lookup_delete_eq, lookup_insert_ne by done; congruence|].
    rewrite lookup_delete_ne, !lookup_insert_ne, lookup_delete_ne, !lookup_insert_ne by done. done.
  - case_decide; [subst p|destruct Hp as [->| ->]; [done|]].
    + rewrite lookup_delete_ne, lookup_insert_ne, lookup_insert_eq by done. done.
    + rewrite lookup_delete_ne, lookup_insert_eq by done. done.
  - apply fdalloc_closed; [|done]. rewrite !lookup_insert_ne by congruence. done.
Qed.

Definition means (str : Z -> path) : Z -> Z -> list Z -> Prop := fun q _ w => str q = w.

Lemma argv_words str argv args : Forall2 (fun '(q, eq) w => means str q eq w) argv args -> map (fun arg => str arg.1) argv = args.
Proof. induction 1 as [|[q eq] w argv args H _ IH]; [done|]. cbn. by rewrite IH, H. Qed.

Lemma launch_pipe {A} (k : option (Z * Z) -> proc A) t n :
  ready t -> exists p0 p1, t !! p0 = None /\ t !! p1 = None /\ p0 <> p1 /\
    launch (do! p <- sys Uproc.Pipe in k p) t n = launch (k (Some (p0, p1))) (<[p1 := PipeW n]> (<[p0 := PipeR n]> t)) (S n).
Proof.
  intros (_ & _ & a & b & Hab & Ha & Hb & Hta & Htb).
  destruct (fdalloc_free t a Ha Hta) as (p0 & E0 & Hp0 & _).
  assert (exists c, 0 <= c < NOFILE /\ <[p0 := PipeR n]> t !! c = None) as (c & Hc & Hcn).
  { destruct (decide (p0 = a)) as [->|]; [exists b|exists a]; by rewrite lookup_insert_ne. }
  destruct (fdalloc_free _ c Hc Hcn) as (p1 & E1 & Hp1 & _). exists p0, p1.
  apply lookup_insert_None in Hp1 as [Hp1 ?]. split_and!; try done. cbn. by rewrite E0, E1.
Qed.

(** [runcmd] starts the programs of the command line, each with the descriptors
    it asks for. *)
Lemma launch_runcmd str c sc t n :
  denotes (means str) c sc -> ready t -> launch (runcmd str c) t n = wires sc t n.
Proof.
  revert sc t n. induction c as [argv|c IH file efile mode fd|l IHl r IHr|l IHl r IHr|c IH];
    intros [args|sc k f|sl sr|sl sr|sc] t n Hd Hr; try done; cbn [denotes wires] in *.
  - pose proof (argv_words str argv args Hd) as Ha. destruct Hd as [|[q eq] w argv args Hq Hd]; [done|].
    unfold means in Hq. cbn [runcmd]. rewrite Ha, Hq. cbn. destruct (execs w); [done|]. apply (launch_fputs 2 _ (Exit 0)).
  - destruct Hd as (Hc & Hf & -> & ->). unfold means in Hf. cbn [runcmd].
    assert (Hfd : rfd k = 0 \/ rfd k = 1) by (destruct k; auto). pose proof Hr as (H0 & H1 & _).
    rewrite launch_close by (destruct Hfd as [->| ->]; done). cbn. rewrite Hf, fdalloc_closed by done.
    destruct (opens f (rmode k)); [|apply (launch_fputs 2 _ (Exit 1))].
    rewrite insert_delete_eq. rewrite (proj2 (Z.ltb_ge _ _)) by (destruct Hfd; lia). apply IH; [done|]. by apply ready_insert.
  - destruct Hd as [Hl Hrr]. cbn [runcmd].
    match goal with |- context [pbind (sys Uproc.Pipe) ?k] =>
      destruct (launch_pipe k t n Hr) as (p0 & p1 & H0 & H1 & Hne & ->) end.
    rewrite launch_fork1. cbn [Z.eqb child_pid]. rewrite (launch_plug 1 p1) by auto. rewrite decide_False by done.
    rewrite (IHl sl) by (done || apply ready_insert; auto). destruct (wires sl _ _) as [l1 n1].
    rewrite launch_fork1. cbn [Z.eqb child_pid]. rewrite (launch_plug 0 p0) by auto. rewrite decide_True by done.
    rewrite (IHr sr) by (done || apply ready_insert; auto). destruct (wires sr _ _) as [l2 n2].
    rewrite launch_close by (rewrite lookup_insert_ne, lookup_insert_eq by done; done).
    rewrite launch_close by (rewrite lookup_delete_ne, lookup_insert_eq by done; done). cbn. by rewrite app_nil_r.
  - destruct Hd as [Hl Hrr]. cbn [runcmd]. rewrite launch_fork1. cbn [Z.eqb child_pid].
    rewrite (IHl sl) by done. destruct (wires sl _ _) as [l1 n1].
    change (launch (call! Wait in runcmd str r) t n1) with (launch (runcmd str r) t n1). by rewrite (IHr sr).
  - cbn [runcmd]. rewrite launch_fork1. cbn [Z.eqb child_pid]. rewrite (IH sc) by done.
    destruct (wires sc t n) as [l1 n1]. cbn. by rewrite app_nil_r.
Qed.
End Wires.

(** ** From the line to the programs *)

Lemma length_paren b t : (length t <= length (paren b t))%nat.
Proof. destruct b; cbn; rewrite ?length_app; lia. Qed.

Ltac paren_length :=
  match goal with |- context [length (paren ?b ?t)] =>
    let H := fresh in pose proof (length_paren b t) as H; rewrite length_app in H; cbn [length] in H end.

Lemma word_in_text lv sc w : writable sc -> w ∈ words sc -> (length w <= length (text lv sc))%nat /\ Forall char w.
Proof.
  revert lv. induction sc as [args|c IH k f|l IHl r IHr|l IHl r IHr|c IH]; intros lv Hw Hin; cbn [words text writable] in *.
  - destruct Hw as [Hw _]. split; [|rewrite Forall_forall in Hw; by apply Hw]. clear Hw.
    induction args as [|w' args IH]; [set_solver|]. cbn [flat_map app]. rewrite length_cons, length_app.
    apply elem_of_cons in Hin as [->|Hin]; [lia|]. apply IH in Hin. lia.
  - destruct Hw as [Hw (_ & _ & Hf)]. rewrite length_app. apply elem_of_app in Hin as [Hin|Hin].
    + destruct (IH LExec Hw Hin). split; [lia|done].
    + apply list_elem_of_singleton in Hin as ->. unfold text_redir. rewrite length_cons, length_app, length_cons. split; [lia|done].
  - destruct Hw as [Hl Hr]. paren_length.
    apply elem_of_app in Hin as [Hin|Hin]; [destruct (IHl LExec Hl Hin)|destruct (IHr LPipe Hr Hin)]; (split; [lia|done]).
  - destruct Hw as [Hl Hr]. paren_length.
    apply elem_of_app in Hin as [Hin|Hin]; [destruct (IHl LBack Hl Hin)|destruct (IHr LLine Hr Hin)]; (split; [lia|done]).
  - paren_length. destruct (IH LBack Hw Hin). split; [lia|done].
Qed.

(** C31: the shell does what a command line says: for the text of any command tree
    in [buf], [parsecmd] reads the whole line and [runcmd] starts exactly the
    programs of the tree, in order, with their arguments, and with the
    descriptors it asks for: the two ends of a fresh pipe in place of standard
    output and input, opened files in place of redirected descriptors, and no
    descriptor of a pipe left open in any program.  That the shell waits for one
    program of a list before it starts the next is not part of this. *)
Theorem sh_line_correct opens execs other m buf sc t n :
  writable sc -> holds m buf (text LLine sc ++ [0]) -> (length (text LLine sc) < 100)%nat -> ready t ->
  exists c m', parsecmd 100 m buf = Ret (c, m') (buf + Z.of_nat (length (text LLine sc))) /\
    launch opens execs other (runcmd (fun q => cstr m' q 100) c) t n = wires opens execs sc t n.
Proof.
  intros Hw H Hlen Hr. destruct (parsecmd_reads 100 m buf sc Hw H Hlen) as (c & m' & E & Hd); [lia|].
  exists c, m'. split; [done|]. apply launch_runcmd; [|done]. eapply denotes_mono; [done|].
  intros q eq w _ Hin Hq. destruct (word_in_text LLine sc w Hw Hin). apply cstr_word; [done|done|lia].
Qed.

Definition quiet (X : Type) (c : call X) : X :=
  match c with Uproc.Pipe => None | Wait => (0, 0) | Read _ _ => (0, []) | _ => 0 end.

Lemma sh_line_correct_witness :
  exists c m', parsecmd 100 ShDemo.m 4096 = Ret (c, m') (4096 + 20) /\
    launch (fun _ _ => true) (fun _ => true) quiet
      (runcmd (fun q => cstr m' q 100) c) {[0 := Given 0; 1 := Given 1; 2 := Given 2]} 0 =
    ([([[97]; [98]], {[0 := Opened [102] 0; 1 := PipeW 0; 2 := Given 2]});
      ([[99]], {[0 := PipeR 0; 1 := Given 1; 2 := Given 2]});
      ([[100]], {[0 := Given 0; 1 := Opened [103] 513; 2 := Given 2]})], 1%nat).
Proof.
  destruct (sh_line_correct (fun _ _ => true) (fun _ => true) quiet ShDemo.m 4096 ShDemo.sc
    {[0 := Given 0; 1 := Given 1; 2 := Given 2]} 0%nat ShDemo.sc_writable ShDemo.m_holds) as (c & m' & E & H).
  - by apply (bool_decide_unpack _); vm_compute.
  - split_and!; [done|done|]. exists 3, 4. by vm_compute.
  - exists c, m'. split; [exact E|]. rewrite H. by vm_compute.
Defined.
